(* ===== verification/_CoqProject ===== *)
-Q . S2P
Prelude.v
GoStrings.v
Utf8.v
Base64.v
AtProto.v
LogSafe.v
Json.v
Nsid.v
Lexicon.v
Registry.v
Validator.v
Filter.v
Where.v
Records.v
Connection.v
Depth.v
PubSub.v
Ingestion.v
Labeler.v
ConfigStore.v
Backfill.v
OAuth.v
Cors.v
TokenEndpoint.v
Reconnect.v
Tap.v
Jetstream.v
Purge.v
RecordStore.v
RepoClient.v
RecordBackfill.v
Dpop.v
Bridge.v
Authorize.v
Access.v
ServiceAuth.v
Statements.v
Notify.v
Inbox.v
WsClient.v
Labels.v
Types.v
Schema.v
WhereInputs.v
Lexicons.v
Config.v
Activity.v
LabelStream.v
Migrations.v
Process.v
AdminApi.v
AdminTypes.v
Actors.v
Queries.v
Metrics.v
Http.v
Documents.v
Startup.v
OAuthRows.v
