(* ===== verification/Prelude.v ===== *)
(** * Verification of the Magic Indexer

    The Magic Indexer (binary [hypergoat], Go, under src/) follows the AT Protocol
    network, stores the records of chosen collections in PostgreSQL and serves
    them over GraphQL with labels, filters and subscriptions. This library models
    its decision-making code in Rocq, one file for each part, and proves what
    makes each part correct. Every definition is a translation of the Go code it
    names, executable, with the code's names where Rocq allows them.

    ** How the parts interact

    - Events arrive from the network through the consumers ([Jetstream], [Tap],
      over the loops they share in [Reconnect]) at [Ingestion.ProcessRecord], which
      validates a record ([Validator], over the [Registry] of lexicons that
      [Lexicon] parses), stores it, publishes it to the subscribers ([PubSub]) and
      keeps an activity row; from the stored record it derives notifications
      ([Notify]), which their recipients list, count and mark as seen ([Inbox]).
      A browser hears of records over a websocket ([WsClient]). What happens is kept
      in the log of [Activity]. Older records come from whole repositories
      ([RecordBackfill], over the requests of [RepoClient]) into the record table
      ([RecordStore]).
    - Labels arrive at [Labeler], over the connections of [LabelStream]; [Backfill] fetches older ones page by page and
      persists cursors in the configuration table ([ConfigStore]). Their tables,
      what a viewer sees of them, preferences, takedowns, reports and the admin
      resolvers over them are [Labels].
    - A query passes the depth guard ([Depth]), its arguments become a filter
      group ([Where]), the group SQL text ([Filter]), the text a statement
      ([Records]) and the rows a page of edges with cursors ([Connection]), each
      record sanitized by [Validator]. The GraphQL types come from the lexicons:
      [Types] maps them, [WhereInputs] makes the filter inputs, [Schema] builds the
      whole. [Queries] has the other reads: single records, statistics, series.
    - Administrators work through the schema of [AdminApi], whose answers have the
      types of [AdminTypes]; they upload lexicons with [Lexicons], after which the
      process starts again.
    - A start reads the environment ([Config]), connects and chooses a consumer
      ([Startup]), migrates ([Migrations]) and starts the services that [Process]
      stops in the end. [Actors] has the table of actors and the command that
      fills in their servers.
    - Users log in through [Authorize], which finds their server ([Bridge]), sends
      them there, exchanges the answer for a code of its own; [TokenEndpoint]
      redeems codes and refresh tokens, with proofs of possession ([Dpop] makes
      them, [TokenEndpoint] verifies them). [Access] authenticates requests with
      these tokens and decides who is an administrator; administrators change the
      settings there and purge data in [Purge]. Other services ask for
      notifications with signed service tokens ([ServiceAuth]).
    - Requests from outside reach the routes of [Documents], which also has what the
      server publishes about itself, and the handlers of [Http], are counted by
      [Metrics], and pass CORS ([Cors]) and the caches and scopes of
      [OAuth]; text from outside is checked or scrubbed by [AtProto] and
      [LogSafe].

    ** Files

    - Prelude, GoStrings, Utf8, Base64: results and the lemmas on lists and
      integers the files share, byte strings as Go has them, UTF-8 as
      unicode/utf8 and the functions of package strings the program uses,
      base64.RawURLEncoding. Statements: programs of database statements that may
      fail or lose their answer, and the rules for what they keep.
    - AtProto: internal/atproto/did/did.go, internal/atproto/collections.go.
      LogSafe: internal/logsafe/logsafe.go. Json: decoded JSON values.
    - Nsid, Lexicon, Registry, Validator: internal/lexicon/ nsid.go; types.go and
      parser.go; registry.go; validator.go.
    - Where: internal/graphql/schema/where.go. Filter, Records:
      internal/database/repositories/ filter.go; records.go (the collection
      queries). Connection: internal/graphql/query/connection.go and the resolver
      of internal/graphql/schema/builder.go.
    - Depth: internal/graphql/depth/depth.go. PubSub:
      internal/graphql/subscription/pubsub.go.
    - Ingestion: internal/ingestion/ processor.go and sortat.go.
    - Labeler, Backfill: internal/labeler/ consumer.go (frames; cursors and the
      backfill), backfill.go, defaults.go and the types of frame.go and client.go.
    - ConfigStore: internal/database/repositories/config.go.
    - OAuth: internal/oauth/ jti_replay.go (Module Jti), did_cache.go (DidCache),
      scopes.go (Scopes). Cors: internal/server/cors.go.
    - Reconnect: internal/consumer/backoff.go, internal/cursor/flusher.go and the
      error logs of the consumers. Tap, Jetstream: internal/tap/, internal/jetstream/.
    - RecordStore: the writes of internal/database/repositories/records.go.
      RepoClient, RecordBackfill: internal/backfill/ client.go; backfill.go, with
      internal/atproto/time.go.
    - Purge: internal/graphql/admin/purge.go and the deletions it calls.
    - TokenEndpoint: internal/oauth/ pkce.go, types.go, the verifier of dpop.go; the
      token, revocation and cleanup handlers of internal/server/oauth_handlers.go;
      the repositories of codes, tokens and proof identifiers. Dpop: the rest of
      dpop.go. Bridge: internal/oauth/ did.go, bridge.go. Authorize: the authorize
      and callback handlers, internal/server/ oauth_par.go, oauth_register.go,
      internal/graphql/admin/resolvers_oauth_clients.go and their repositories.
    - Access: internal/oauth/middleware.go, internal/graphql/admin/ handler.go,
      requireAdmin and the settings mutations of schema.go and resolvers.go.
      ServiceAuth: internal/oauth/ serviceauth*.go.
    - Notify: internal/notifications/ extractors/, service.go, registry.go and the
      writes of repo.go. Inbox: the reads of repo.go, the seen mark, the retention
      and resolver.go.
    - WsClient: internal/graphql/subscription/handler.go.
    - Labels: internal/database/repositories/ labels.go, label_definitions.go,
      label_preferences.go, reports.go and internal/graphql/admin/resolvers_labels.go.
    - Types, WhereInputs, Schema: internal/graphql/types/ and
      internal/graphql/schema/ builder.go, where.go. Lexicons:
      internal/database/repositories/lexicons.go,
      internal/graphql/admin/resolvers_lexicons.go, its resolution of NSIDs and the
      start of cmd/hypergoat/main.go. Config: internal/config/.
    - Activity: internal/database/repositories/jetstream_activity.go, its resolvers
      and internal/workers/. LabelStream: the connections and goroutines of
      internal/labeler/ consumer.go and client.go. Migrations:
      internal/database/migrations/migrations.go. Process: the services, shutdown and
      operator endpoints of cmd/hypergoat/.
    - AdminApi, AdminTypes: internal/graphql/admin/ schema.go, with the fields that
      internal/notifications/resolver.go adds; types.go and the answers of the resolvers. Actors: internal/database/repositories/actors.go and
      cmd/backfill_pds/. Queries: the remaining reads of
      internal/database/repositories/records.go and their resolvers.
    - Metrics: internal/metrics/metrics.go. Http: internal/metrics/middleware.go,
      internal/graphql/handler.go, internal/server/ notifications_xrpc.go,
      security_headers.go. Documents: the routes of cmd/hypergoat/main.go and the
      documents of internal/server/ oauth_handlers.go, oauth_client_metadata.go.
      Startup: internal/database/postgres/executor.go, internal/server/database.go and
      what main.go does with them. OAuthRows: the columns of
      internal/database/repositories/oauth_*.go.

    ** What the theorems show

    - From arguments to SQL (Where, Filter, Records, Connection): the statement of
      any request holds exactly the placeholders of its bound arguments, its text
      never depends on compared values, accepted where arguments compile or are
      refused only for their size, and LIKE patterns match the user's text
      literally. A client that follows the cursors reads every row once when every
      row makes an edge and the times are whole seconds; the examples show what
      happens when not, and that a composition inside a composition never compiles.
    - Ingestion: the effects and the answer of the pipeline are those that a set of
      rules derives, which are stated without the pipeline's helpers, and no others; subscribers hear of an event if and only if it was stored; activity rows are
      settled; enforced validation lets nothing invalid through.
    - Consumers: an acknowledged event was processed (unless the number of retries is negative), every received event is
      accounted for, reconnections leave no connection behind, delays and flushed
      cursors follow their rules; the examples show the orders in which a cursor
      goes back or a channel is closed under a sender.
    - Record backfill: a run keeps the key of the index when servers list what they were
      asked for, stores exactly the
      records of the repository that are of the collections asked for and new, and
      its totals account for every repository; paging loops return all pages.
    - Lexicons and records: parsing does not depend on map order, the registry
      indexes exactly what it owns, validation and sanitization meet their
      specifications and agree: what was accepted is never dropped.
    - Broker: no panic in any interleaving of subscribing, publishing, reading and
      leaving; a subscriber sees an ordered sub-sequence, all of it up to its
      buffer's size.
    - Label streams: every label is accounted for, definitions precede labels,
      cursors never go back, an interrupted backfill that runs again goes on from its
      checkpoint without a gap; an example shows the order in which it never runs again.
    - Label tables: what a viewer sees is a function of the events in order, does
      not depend on how streams interleave when their times differ, a takedown
      hides exactly the taken down, the states of reports and definitions stay
      those the code declares, the admin lists are complete; the examples show
      the orders in which an older event wins.
    - Notifications: the tables hold exactly the groups and participants that the
      records stored stand for, when every statement works and no creation comes again
      with another subject; the unread count is
      the number of unread entries of the list; a client that follows the cursors
      reads every entry once; cursors round-trip; the examples show what a failed
      statement or a deleted group leaves behind.
    - Websocket: every answer stands for a message or a record the client may
      see, the subscriptions of a connection are bounded, and all end with it.
    - Login (Authorize, TokenEndpoint): in every interleaving of all handlers, with
      calls that fail or lose their answer and any answers of the network, every
      code and token goes back to one request of a client with a registered
      redirect URI and to the answer of the user's server; browsers are sent with
      a code only to registered addresses; a code needs the verifier of its
      challenge. Served one after the other, codes, refresh tokens and proofs work
      once (an example shows two concurrent redemptions of one code).
    - Bridge, Dpop: resolution never sends a request to a private address for a
      plain domain; the server found for a DID is the one its document and
      metadata name; the proofs that are made verify.
    - Access: a request is authenticated exactly by a live token in one of two
      ways, a proof once, a revoked token never; an administrator is a listed user
      named by such a token or by the API key, or the bearer of the API key without a name
      when the list has an empty piece; the settings stay well formed.
      A service token is accepted exactly when signed by the key of its issuer for
      this audience and method, and once.
      Purge: exactly the confirmed data goes, once for each confirmation token
      served in order.
    - Schema: for regular lexicons the schema has exactly the types, fields and
      arguments that the lexicons say, whatever order the loops take; the non-null fields
      that the builder makes for properties are never null in accepted records, and a
      declared filter is refused only for its values or for an operator on a part of
      a strongRef that the schema offers and the extractor does not know.
    - Administration: on the schema of the running program every mutation and query needs
      a listed administrator, except a user's own session and label preferences and the
      fields of the notifications, which are open to everybody; the
      answers have their declared types; an accepted upload of new lexicons, with nothing
      changed since the start, is exactly what the next start loads; statistics and
      series are those of the table. The examples show what the text of an index accepts and which numbers are too large to answer.
    - Activity, connections, process: an event is one row of the log; a stored cursor
      of a labeler has nothing unhandled before it; interrupted migrations leave what
      uninterrupted ones do, unless a text outside a transaction is cut off with
      something left behind; a loaded configuration is within its bounds; a shutdown
      drains, stops and closes in order and ends with the status of a panic; the
      command for servers ends.
    - HTTP: the public endpoint executes what it accepts and shapes a timeout so that
      nothing around changes it; the status recorded is the one sent; the documents
      agree with routes and handlers; no websocket can be opened as it is mounted;
      what the rows of OAuth hold is what the tables of records hold.
    - Guards: query depth, replayed tokens, stale DID documents, granted scopes,
      allowed origins, administrators, DIDs and log lines are decided exactly as
      specified.

    ** Conventions

    A function that returns a value and an error is a function into [result]; a
    panic is an error value, so that its absence can be stated. A Go map is a
    [gmap]; where the order of its iteration could matter, the order is an
    argument or the class [MapRange], and the theorems hold for every order. Code
    that mutates shared state passes it explicitly (the channels of the broker,
    the tables, the effects of the pipeline as a trace). A handler that makes
    several database calls is a program, a tree of calls with continuations; each
    call has a fate (it works, fails, or takes effect and loses its answer), and a
    system interleaves the calls of its requests, one step for each. A network is
    a function of all that was sent before, so it can answer a repeated request
    differently; the programs pass the trace along. Integers are [Z]; cursors
    keep their 64-bit range. What the program takes from the database, the
    network, cryptography or a library it does not contain is a parameter or a
    class ([CryptoLib], [JwkJson], [Signer], [Net], [Jsonb]), with the behaviour
    it relies on as named laws, and instantiated by concrete functions in the
    witnesses. Timestamps are numbers, in the unit the code uses (for
    [Connection] UTC microseconds, for OAuth seconds).

    ** Fuel and bounds

    Recursion is structural where the data allows it. Otherwise the fuel is one
    the code itself guarantees: the nesting of fragments is bounded by their
    number (Depth; more fuel changes nothing, as proved), sanitization by the
    code's depth of 32, the loops over runes by the length of the string, the
    purge of the replay cache by the length of its heap, the pages of a label
    backfill by the code's own limit of 40000, the extraction of where arguments
    by the code's limit of nesting, a client of [Connection] by one page for each
    row and one more, redirects by the code's limit of 10 requests (9 redirects
    are followed), the pages of the relay by the code's limit; the pages of the
    records of one actor have no limit in the code, so a run of [RepoClient] says
    whether it ended within its fuel, and the theorem states both cases.

    ** Not modelled

    Libraries: SQL beyond the statements whose meaning is written out, graphql-go,
    JSON, CBOR, CAR and JWT decoding, cryptography, sockets and their pings, the
    router. Log lines and texts of errors, except where a secret or a request could
    get into them. Generated pages (internal/server/graphiql.go), random texts
    (inputs of the model), nonces that no handler checks, the progress record that
    only tests use (internal/workers/backfill_state.go), the keys of request contexts
    and test support. Locks are modelled where their granularity matters to an
    interleaving; the memory model of Go is not. *)
From Stdlib Require Export Ascii Sorted.
From stdpp Require Export base tactics gmap strings pretty numbers.
From stdpp Require Export list_basics list_monad list_misc list_tactics list_relations.

(** ** Results of fallible code

    A Go function that returns [(T, error)] is a function into [result E T]:
    [Err e] carries the error value as data, so a theorem can tell one error
    path from another. *)
Inductive result (E A : Type) : Type :=
| Ok (a : A)
| Err (e : E).
Arguments Ok {E A} a.
Arguments Err {E A} e.

#[export] Instance result_ret {E} : MRet (result E) := fun A a => Ok a.
#[export] Instance result_bind {E} : MBind (result E) :=
  fun A B f r => match r with Ok a => f a | Err e => Err e end.
#[export] Instance result_fmap {E} : FMap (result E) :=
  fun A B f r => match r with Ok a => Ok (f a) | Err e => Err e end.

#[export] Instance result_eq_dec {E A} `{EqDecision E, EqDecision A} :
  EqDecision (result E A).
Proof. solve_decision. Defined.

Definition is_ok {E A} (r : result E A) : bool :=
  match r with Ok _ => true | Err _ => false end.

(** [guard_err b e] continues when [b] holds and returns [e] otherwise: the
    shape of [if !b { return err }]. *)
Definition guard_err {E} (b : bool) (e : E) : result E unit :=
  if b then Ok () else Err e.

Lemma bind_Ok {E A B} (r : result E A) (f : A -> result E B) b :
  r ≫= f = Ok b <-> exists a, r = Ok a /\ f a = Ok b.
Proof. destruct r; cbn; naive_solver. Qed.

Lemma guard_err_Ok {E} (b : bool) (e : E) u : guard_err b e = Ok u <-> b = true.
Proof. destruct b, u; cbn; naive_solver. Qed.

Lemma guarded_Ok {E A} b (e : E) (f : unit -> result E A) x :
  guard_err b e ≫= f = Ok x <-> b = true /\ f () = Ok x.
Proof. destruct b; cbn; naive_solver. Qed.

Lemma is_ok_spec {E A} (r : result E A) : is_ok r = true <-> exists a, r = Ok a.
Proof. destruct r; cbn; naive_solver. Qed.

Lemma bind_Err {E X Y} (r : result E X) (f : X -> result E Y) e :
  r ≫= f = Err e -> r = Err e \/ exists x, r = Ok x /\ f x = Err e.
Proof. destruct r; cbn; [right; eauto|left; congruence]. Qed.

Create HintDb indexer.
Create Rewrite HintDb results.
#[export] Hint Rewrite @bind_Ok @guard_err_Ok : results.

(** Running a list of fallible steps from left to right, stopping at the first
    error: the loop [for _, x := range l { y, err := f(x); if err != nil
    { return err } ... }]. *)
Fixpoint result_mapM {E A B} (f : A -> result E B) (l : list A) : result E (list B) :=
  match l with
  | [] => Ok []
  | x :: l' => y ← f x; ys ← result_mapM f l'; Ok (y :: ys)
  end.

Lemma result_mapM_Ok {E A B} (f : A -> result E B) l ks :
  result_mapM f l = Ok ks <-> Forall2 (fun x y => f x = Ok y) l ks.
Proof.
  revert ks; induction l as [|x l IH]; intros ks; cbn.
  - split; [intros [= <-]; constructor | by inversion 1].
  - rewrite bind_Ok. split.
    + intros (y & Hy & H). apply bind_Ok in H as (ys & Hys & [= <-]).
      constructor; [done|]. by apply IH.
    + inversion 1 as [|? y ? ys Hy Hys]; subst. exists y; split; [done|].
      apply bind_Ok. exists ys; split; [by apply IH|done].
Qed.

(** ** Database transactions *)

(** How a commit ends: it works, the transaction is rolled back, or it takes
    effect and the answer is lost. *)
Inductive commit_end := Committed | RolledBack | CommitLost.

(** ** Machine integers *)

Definition int64_min : Z := (- 2 ^ 63)%Z.
Definition int64_max : Z := (2 ^ 63 - 1)%Z.

(** Two's-complement reduction of an exact result to 64 bits, what Go's
    [int64] arithmetic computes. *)
Definition wrap64 (z : Z) : Z := ((z + 2 ^ 63) mod 2 ^ 64 - 2 ^ 63)%Z.

Definition in_int64 (z : Z) : Prop := (int64_min <= z <= int64_max)%Z.

Lemma wrap64_range z : in_int64 (wrap64 z).
Proof.
  unfold in_int64, wrap64, int64_min, int64_max.
  pose proof (Z.mod_pos_bound (z + 2 ^ 63) (2 ^ 64) ltac:(lia)). lia.
Qed.

Lemma wrap64_id z : in_int64 z -> wrap64 z = z.
Proof.
  unfold in_int64, wrap64, int64_min, int64_max; intros H.
  rewrite Z.mod_small; lia.
Qed.

Lemma wrap64_add a b : wrap64 (wrap64 a + b) = wrap64 (a + b).
Proof.
  unfold wrap64. replace ((a + 2 ^ 63) mod 2 ^ 64 - 2 ^ 63 + b + 2 ^ 63)%Z
    with ((a + 2 ^ 63) mod 2 ^ 64 + b)%Z by lia.
  rewrite Z.add_mod_idemp_l by lia. do 2 f_equal. lia.
Qed.

(** ** Shared automation *)

(** Splits boolean conjunctions in hypotheses into their parts. *)
Ltac split_bools :=
  repeat match goal with
  | H : (_ && _) = true |- _ => apply andb_true_iff in H; destruct H
  | H : (_ || _) = false |- _ => apply orb_false_iff in H; destruct H
  | H : negb _ = true |- _ => apply negb_true_iff in H
  | H : negb _ = false |- _ => apply negb_false_iff in H
  | H : bool_decide _ = true |- _ => apply bool_decide_eq_true in H
  | H : bool_decide _ = false |- _ => apply bool_decide_eq_false in H
  end.

(** Case analysis on every [if] and [match] of a hypothesis that holds an
    [Ok]: error branches are closed, and the surviving equations are kept. *)
Ltac ok_cases H :=
  repeat (case_match; simplify_eq/=); rewrite ?bind_Ok in H.

(** Reads a membership of Stdlib's [In] as stdpp's, so that [set_solver] and
    the stdpp list lemmas apply. *)
Ltac to_elem_of :=
  repeat match goal with
  | H : In _ _ |- _ => apply list_elem_of_In in H
  | |- In _ _ => apply list_elem_of_In
  end.

(** ** Lists *)

Lemma existsb_elem_of {A} (f : A -> bool) l :
  existsb f l = true <-> exists x, x ∈ l /\ f x = true.
Proof. rewrite existsb_exists. by setoid_rewrite <- list_elem_of_In. Qed.

Lemma forallb_elem_of {A} (f : A -> bool) l :
  forallb f l = true <-> forall x, x ∈ l -> f x = true.
Proof. rewrite forallb_forall. by setoid_rewrite <- list_elem_of_In. Qed.

Lemma filter_all {A} (P : A -> Prop) `{forall x, Decision (P x)} (l : list A) : (forall x, x ∈ l -> P x) -> filter P l = l.
Proof.
  induction l as [|x l IH]; intros Hl; [done|]. rewrite filter_cons_True by (apply Hl; left).
  f_equal. apply IH. intros y Hy. apply Hl. by right.
Qed.

Lemma filter_none {A} (P : A -> Prop) `{forall x, Decision (P x)} (l : list A) :
  (forall x, P x -> x ∈ l -> False) -> filter P l = [].
Proof.
  intros Hno. destruct (filter P l) as [|x k] eqn:Hf; [done|].
  assert (x ∈ filter P l) as [Hp Hx]%list_elem_of_filter by (rewrite Hf; left). by destruct (Hno x).
Qed.

Lemma filter_ext_in {A} (P Q : A -> Prop) `{forall x, Decision (P x), forall x, Decision (Q x)} (l : list A) :
  (forall x, x ∈ l -> P x <-> Q x) -> filter P l = filter Q l.
Proof.
  induction l as [|x l IH]; intros Hpq; [done|]. rewrite !filter_cons. rewrite IH by (intros y Hy; apply Hpq; by right).
  pose proof (Hpq x ltac:(left)). do 2 case_decide; tauto.
Qed.

Lemma StronglySorted_filter {A} (R : A -> A -> Prop) (P : A -> Prop) `{forall x, Decision (P x)} l :
  StronglySorted R l -> StronglySorted R (filter P l).
Proof.
  induction 1 as [|x l _ IH Hf]; [constructor|]. rewrite filter_cons. case_decide; [|done]. constructor; [done|].
  rewrite Forall_forall in Hf |- *. intros y [_ Hy]%list_elem_of_filter. by apply Hf.
Qed.

Lemma Forall2_left {A B} (R : A -> B -> Prop) l k x : Forall2 R l k -> x ∈ l -> exists y, y ∈ k /\ R x y.
Proof.
  induction 1 as [|a b l k Hab _ IH]; [by intros ?%elem_of_nil|]. intros [->|Hx]%elem_of_cons.
  - exists b. split; [left|done].
  - destruct (IH Hx) as (y & Hy & Hr). exists y. split; [by right|done].
Qed.

Lemma Forall2_right {A B} (R : A -> B -> Prop) l k y : Forall2 R l k -> y ∈ k -> exists x, x ∈ l /\ R x y.
Proof. intros Hf Hy. by apply Forall2_flip in Hf; apply (Forall2_left _ _ _ _ Hf). Qed.

Lemma unique_key {A B} (f : A -> B) (l : list A) x y : NoDup (f <$> l) -> x ∈ l -> y ∈ l -> f x = f y -> x = y.
Proof.
  induction l as [|z l IH]; cbn; [by intros _ ?%elem_of_nil|]. intros [Hz Hnd]%NoDup_cons [->|Hx]%elem_of_cons [->|Hy]%elem_of_cons Hf.
  - done.
  - destruct Hz. rewrite Hf. by apply list_elem_of_fmap_2.
  - destruct Hz. rewrite <-Hf. by apply list_elem_of_fmap_2.
  - by apply IH.
Qed.

Lemma filter_one {A B} `{EqDecision B} (f : A -> B) (l : list A) x : NoDup (f <$> l) -> x ∈ l ->
  filter (fun y => f y = f x) l = [x].
Proof.
  induction l as [|z l IH]; rewrite ?fmap_cons; [by intros _ ?%elem_of_nil|]. intros [Hz Hnd]%NoDup_cons [->|Hx]%elem_of_cons.
  - rewrite filter_cons_True by done. f_equal. apply filter_none. intros y Hf Hy. destruct Hz. rewrite <-Hf.
    by apply list_elem_of_fmap_2.
  - rewrite filter_cons_False; [by apply IH|]. intros Hf. destruct Hz. rewrite Hf. by apply list_elem_of_fmap_2.
Qed.

Lemma length_split {A} (P : A -> Prop) `{forall x, Decision (P x)} (l : list A) :
  length l = (length (filter (fun x => ~ P x) l) + length (filter P l))%nat.
Proof.
  induction l as [|x l IH]; [done|]. rewrite !filter_cons. destruct (decide (P x)).
  - rewrite decide_False by tauto. cbn. lia.
  - rewrite decide_True by done. cbn. lia.
Qed.

(** Evaluates a closed [NoDup]. *)
Lemma NoDup_compute {A} `{EqDecision A} (l : list A) : bool_decide (NoDup l) = true -> NoDup l.
Proof. apply bool_decide_eq_true. Qed.

(** First-occurrence de-duplication against a growing [seen] set, the loop
    [if seen[s] { continue }; seen[s] = true; out = append(out, s)]. *)
Fixpoint dedup_go {A} `{Countable A} (seen : gset A) (l : list A) : list A :=
  match l with
  | [] => []
  | x :: l' => if decide (x ∈ seen) then dedup_go seen l'
               else x :: dedup_go ({[x]} ∪ seen) l'
  end.

Lemma dedup_go_spec {A} `{Countable A} (l : list A) : forall seen,
  NoDup (dedup_go seen l) /\
  forall x, x ∈ dedup_go seen l <-> x ∈ l /\ x ∉ seen.
Proof.
  induction l as [|y l IH]; intros seen; cbn; [split; [constructor|set_solver]|].
  case_decide as Hy.
  - destruct (IH seen) as [? Hs]. split; [done|]. set_solver.
  - destruct (IH ({[y]} ∪ seen)) as [? Hs]. split; [constructor; [|done]|].
    + rewrite Hs. set_solver.
    + intros x. rewrite !elem_of_cons, Hs. destruct (decide (x = y)); set_solver.
Qed.
