(* ===== verification/GoStrings.v ===== *)
(** Go strings and the parts of the packages [strings], [unicode] and
    [unicode/utf8] that the indexer uses. A Go string is a sequence of bytes:
    here a [string], whose characters are 8-bit. Separators given to [split]
    and [splitN2] are never empty in the code. *)
From S2P Require Import Prelude.

Local Open Scope Z_scope.

(** [len(s)]. *)
Definition glen (s : string) : Z := Z.of_nat (String.length s).

(** The byte [s[i]] as a number. *)
Definition zb (c : ascii) : Z := Z.of_N (N_of_ascii c).

(** [s == ""]. *)
Definition is_empty (s : string) : bool :=
  match s with EmptyString => true | _ => false end.

Definition has_prefix (s p : string) : bool := String.prefix p s.

Fixpoint drop_bytes (n : nat) (s : string) : string :=
  match n, s with
  | S n', String _ s' => drop_bytes n' s'
  | _, _ => s
  end.

Fixpoint take_bytes (n : nat) (s : string) : string :=
  match n, s with
  | S n', String c s' => String c (take_bytes n' s')
  | _, _ => EmptyString
  end.

(** [strings.TrimPrefix]. *)
Definition trim_prefix (s p : string) : string :=
  if has_prefix s p then drop_bytes (String.length p) s else s.

(** [strings.HasSuffix]. *)
Definition has_suffix (s p : string) : bool :=
  Nat.leb (String.length p) (String.length s) &&
  String.eqb (drop_bytes (String.length s - String.length p) s) p.

(** [strings.Contains] for a substring. *)
Fixpoint contains (s sub : string) : bool :=
  String.prefix sub s ||
  match s with EmptyString => false | String _ s' => contains s' sub end.

Fixpoint all_bytes (f : Z -> bool) (s : string) : bool :=
  match s with EmptyString => true | String c s' => f (zb c) && all_bytes f s' end.

(** The first and the last byte of a non-empty string. *)
Definition first_byte (s : string) : option Z :=
  match s with EmptyString => None | String c _ => Some (zb c) end.

Fixpoint last_byte (s : string) : option Z :=
  match s with
  | EmptyString => None
  | String c EmptyString => Some (zb c)
  | String _ s' => last_byte s'
  end.

(** [strings.Split(s, sep)]: the first piece and the others. [skip] counts the
    bytes of a separator still to be passed over. *)
Fixpoint split_go (sep : string) (skip : nat) (s : string) : string * list string :=
  match s with
  | EmptyString => (EmptyString, [])
  | String c s' =>
      match skip with
      | S k => split_go sep k s'
      | O => if String.prefix sep s
             then let '(h, t) := split_go sep (String.length sep - 1) s' in
                  (EmptyString, h :: t)
             else let '(h, t) := split_go sep 0 s' in (String c h, t)
      end
  end.

Definition split (s sep : string) : list string :=
  let '(h, t) := split_go sep 0 s in h :: t.

(** [strings.SplitN(s, sep, 2)] for a one-byte separator: [None] when [sep]
    does not occur (one piece), the two pieces around its first occurrence
    otherwise. *)
Fixpoint cut_at (c : ascii) (s : string) : option (string * string) :=
  match s with
  | EmptyString => None
  | String d s' => if Ascii.eqb d c then Some (EmptyString, s')
                   else '(a, b) ← cut_at c s'; Some (String d a, b)
  end.

(** [strings.Join(l, sep)]. *)
Fixpoint join (l : list string) (sep : string) : string :=
  match l with
  | [] => EmptyString
  | [x] => x
  | x :: l' => x +:+ sep +:+ join l' sep
  end.

(** [fmt.Sprintf] of an integer with the verb %d. *)
Definition itoa (z : Z) : string := pretty z.

(** The one-byte string of the double quote. *)
Definition dq : string := String (ascii_of_nat 34) EmptyString.

(** [url.Values] with [Add] and [Set]. *)
Abbreviation query := (gmap string (list string)).
Definition q_Add (q : query) (key value : string) : query :=
  <[key := default [] (q !! key) ++ [value]]> q.
Definition q_Set (q : query) (key value : string) : query := <[key := [value]]> q.

(** ** Lemmas on bytes and pieces *)

Lemma app_nil_r_str s : s +:+ "" = s.
Proof. induction s; cbn; [done|]. unfold String.app in *. cbn. by f_equal. Qed.

Lemma app_cons_str c s t : String c s +:+ t = String c (s +:+ t).
Proof. done. Qed.

Lemma app_assoc_str s t u : (s +:+ t) +:+ u = s +:+ t +:+ u.
Proof. induction s; [done|]. rewrite !app_cons_str. by f_equal. Qed.

Lemma length_app_str s t :
  String.length (s +:+ t) = (String.length s + String.length t)%nat.
Proof. induction s; [done|]. rewrite app_cons_str. cbn. by f_equal. Qed.

(** The first byte of a concatenation around a separator. *)
Lemma cons_app_inv c s m d u : String c s = m +:+ String d u ->
  (m = "" /\ c = d /\ s = u) \/ (exists m', m = String c m' /\ s = m' +:+ String d u).
Proof.
  destruct m as [|e m]; [change ("" +:+ ?x) with x; intros [= -> ->]; by left|].
  rewrite app_cons_str. intros [= -> ->]. right. by exists m.
Qed.

Lemma glen_app s t : glen (s +:+ t) = glen s + glen t.
Proof. unfold glen. rewrite length_app_str. lia. Qed.

Lemma glen_nonneg s : 0 <= glen s.
Proof. unfold glen. lia. Qed.

Lemma prefix_app p s : String.prefix p (p +:+ s) = true.
Proof.
  induction p as [|c p IH]; [by destruct s|]. rewrite app_cons_str. cbn.
  by destruct (ascii_dec c c).
Qed.

Lemma prefix_cons a p b s :
  String.prefix (String a p) (String b s) = Ascii.eqb a b && String.prefix p s.
Proof.
  cbn. destruct (ascii_dec a b) as [->|Hne]; [by rewrite Ascii.eqb_refl|].
  by apply Ascii.eqb_neq in Hne as ->.
Qed.

Lemma prefix_nil s : String.prefix "" s = true.
Proof. by destruct s. Qed.

Lemma prefix_spec p s : String.prefix p s = true <-> exists t, s = p +:+ t.
Proof.
  split.
  - revert s; induction p as [|c p IH]; intros s; [by exists s|].
    destruct s as [|d s]; cbn; [done|]. destruct (ascii_dec c d) as [->|]; [|done].
    intros (t & ->)%IH. by exists t.
  - intros [t ->]. apply prefix_app.
Qed.

Lemma drop_bytes_app p s : drop_bytes (String.length p) (p +:+ s) = s.
Proof. induction p; cbn; [by destruct s|]. done. Qed.

Lemma take_drop_bytes n s : take_bytes n s +:+ drop_bytes n s = s.
Proof.
  revert s; induction n as [|n IH]; intros [|c s]; try done.
  cbn. rewrite app_cons_str. by f_equal.
Qed.

Lemma take_bytes_length n s :
  String.length (take_bytes n s) = Nat.min n (String.length s).
Proof. revert s; induction n as [|n IH]; intros [|c s]; cbn; auto. Qed.

Lemma trim_prefix_app s p : trim_prefix (p +:+ s) p = s.
Proof. unfold trim_prefix, has_prefix. rewrite prefix_app. apply drop_bytes_app. Qed.

Lemma contains_spec s sub : contains s sub = true <-> exists a b, s = a +:+ sub +:+ b.
Proof.
  induction s as [|c s IH]; cbn [contains]; rewrite orb_true_iff, prefix_spec.
  - split.
    + intros [(t & ->)|]; [|done]. by exists "", t.
    + intros (a & b & H). left. destruct a; [by exists b|].
      by rewrite app_cons_str in H.
  - split.
    + intros [(t & ->)|(a & b & ->)%IH]; [by exists "", t|].
      by exists (String c a), b.
    + intros ([|d a] & b & H); [left; by exists b|right].
      rewrite app_cons_str in H. simplify_eq. apply IH. by exists a, b.
Qed.

Lemma all_bytes_app f s t : all_bytes f (s +:+ t) = all_bytes f s && all_bytes f t.
Proof.
  induction s as [|c s IH]; [done|]. rewrite app_cons_str. cbn.
  by rewrite IH, andb_assoc.
Qed.

Lemma all_bytes_impl (f g : Z -> bool) s :
  (forall z, f z = true -> g z = true) -> all_bytes f s = true -> all_bytes g s = true.
Proof.
  intros Hfg. induction s as [|c s IH]; cbn; [done|].
  rewrite !andb_true_iff. intros []; auto.
Qed.

Lemma zb_range c : 0 <= zb c < 256.
Proof.
  unfold zb. pose proof (N_ascii_bounded c). lia.
Qed.

Lemma zb_inj c d : zb c = zb d -> c = d.
Proof.
  unfold zb. intros H%N2Z.inj.
  by rewrite <-(ascii_N_embedding c), <-(ascii_N_embedding d), H.
Qed.

Lemma split_go_join sep s : sep <> "" -> forall k,
  let '(h, t) := split_go sep k s in join (h :: t) sep = drop_bytes k s.
Proof.
  intros Hsep. induction s as [|c s IH]; intros k.
  - by destruct k.
  - cbn [split_go]. destruct k as [|k].
    + destruct (String.prefix sep (String c s)) eqn:Hp.
      * specialize (IH (String.length sep - 1)%nat).
        destruct (split_go _ _ s) as [h t].
        apply prefix_spec in Hp as (u & Hu). destruct sep as [|d sep]; [done|].
        rewrite app_cons_str in Hu. simplify_eq. cbn [String.length] in IH.
        rewrite Nat.sub_1_r in IH. cbn [Nat.pred] in IH. rewrite drop_bytes_app in IH.
        cbn [join] in IH |- *. change (drop_bytes 0 _) with (String d (sep +:+ u)).
        change ("" +:+ ?x) with x. rewrite app_cons_str, IH. done.
      * specialize (IH 0%nat). destruct (split_go sep 0 s) as [h t].
        change (drop_bytes 0 ?x) with x in *. rewrite <-IH.
        destruct t; cbn [join]; [done|]. by rewrite app_cons_str.
    + apply (IH k).
Qed.

(** Joining the pieces of a split with the separator gives the string back. *)
Lemma join_split s sep : sep <> "" -> join (split s sep) sep = s.
Proof.
  intros Hsep. unfold split. pose proof (split_go_join sep s Hsep 0).
  by destruct (split_go sep 0 s).
Qed.

Lemma split_nonempty s sep : split s sep <> [].
Proof. unfold split. by destruct (split_go sep 0 s). Qed.

Lemma cut_at_Some c s a b : cut_at c s = Some (a, b) -> s = a +:+ String c b.
Proof.
  revert a b; induction s as [|d s IH]; intros a b; cbn; [done|].
  destruct (Ascii.eqb_spec d c) as [->|]; intros H; simplify_eq/=; [done|].
  apply bind_Some in H as ([a' b'] & Hc & [= <- <-]).
  rewrite app_cons_str. f_equal. auto.
Qed.

Lemma cut_at_first c a b :
  all_bytes (fun z => negb (Z.eqb z (zb c))) a = true ->
  cut_at c (a +:+ String c b) = Some (a, b).
Proof.
  induction a as [|d a IH]; intros Ha.
  - change ("" +:+ ?x) with x. cbn. by rewrite Ascii.eqb_refl.
  - cbn in Ha. split_bools. rewrite app_cons_str. cbn.
    destruct (Ascii.eqb_spec d c) as [->|]; [by rewrite Z.eqb_refl in H|].
    by rewrite IH.
Qed.

(** ** Splitting what was joined *)

(** [s] has no byte [c]. *)
Definition lacks (c : ascii) (s : string) : bool := all_bytes (fun z => negb (Z.eqb z (zb c))) s.

Lemma split_one_lacks c p : lacks c p = true -> split p (String c "") = [p].
Proof.
  unfold split, lacks. induction p as [|d p IH]; [done|]. cbn [all_bytes]. intros [Hd Hp]%andb_true_iff.
  cbn [split_go]. rewrite prefix_cons.
  destruct (Ascii.eqb_spec c d) as [->|]; [by rewrite Z.eqb_refl in Hd|]. cbn [andb].
  specialize (IH Hp). destruct (split_go (String c "") 0 p) as [h t]. by simplify_eq.
Qed.

Lemma split_cons_sep c p s : lacks c p = true ->
  split (p +:+ String c s) (String c "") = p :: split s (String c "").
Proof.
  unfold split, lacks. induction p as [|d p IH].
  - intros _. change ("" +:+ ?x) with x. cbn [split_go]. rewrite prefix_cons, Ascii.eqb_refl, prefix_nil.
    cbn. by destruct (split_go (String c "") 0 s).
  - cbn [all_bytes]. intros [Hd Hp]%andb_true_iff. rewrite app_cons_str. cbn [split_go].
    rewrite prefix_cons. destruct (Ascii.eqb_spec c d) as [->|]; [by rewrite Z.eqb_refl in Hd|].
    cbn [andb]. specialize (IH Hp). destruct (split_go (String c "") 0 (p +:+ String c s)) as [h t].
    destruct (split_go (String c "") 0 s) as [h' t']. by simplify_eq.
Qed.

Lemma split_join c l : l <> [] -> Forall (fun p => lacks c p = true) l ->
  split (join l (String c "")) (String c "") = l.
Proof.
  intros Hne Hl. induction Hl as [|p l Hp Hl IH]; [done|].
  destruct l as [|q l]; [by apply split_one_lacks|].
  change (join (p :: q :: l) (String c "")) with (p +:+ String c "" +:+ join (q :: l) (String c "")).
  change (String c "" +:+ ?x) with (String c x). rewrite split_cons_sep by done. f_equal. by apply IH.
Qed.

(** ** Trimming and searching *)

(** [strings.Trim(s, c)] and [strings.TrimRight(s, c)] for a byte [c]. *)
Fixpoint trim_left_byte (c : ascii) (s : string) : string :=
  match s with
  | String d s' => if Ascii.eqb d c then trim_left_byte c s' else s
  | EmptyString => s
  end.
Fixpoint trim_right_byte (c : ascii) (s : string) : string :=
  match s with
  | String d s' => let t := trim_right_byte c s' in
                   if is_empty t && Ascii.eqb d c then "" else String d t
  | EmptyString => s
  end.
Definition Trim (s : string) (c : ascii) : string := trim_right_byte c (trim_left_byte c s).

Lemma trim_right_byte_end c s : exists t, s = trim_right_byte c s +:+ t /\ all_bytes (fun z => z =? zb c) t = true.
Proof.
  induction s as [|d s (t & IH & Ht)]; [by exists ""|]. cbn [trim_right_byte].
  destruct (is_empty (trim_right_byte c s) && Ascii.eqb d c) eqn:Hb.
  - apply andb_true_iff in Hb as [He Hd]. apply Ascii.eqb_eq in Hd as ->.
    destruct (trim_right_byte c s); [|done]. exists (String c s). split; [done|].
    cbn in IH |- *. rewrite IH, Z.eqb_refl. exact Ht.
  - exists t. split; [rewrite app_cons_str; by f_equal|done].
Qed.

Lemma trim_right_byte_last c s : match last_byte (trim_right_byte c s) with Some z => z <> zb c | None => True end.
Proof.
  induction s as [|d s IH]; [done|]. cbn [trim_right_byte].
  destruct (is_empty (trim_right_byte c s)) eqn:He; cbn [andb].
  - destruct (trim_right_byte c s); [|done]. destruct (Ascii.eqb_spec d c) as [->|Hd]; [done|].
    cbn. intros Hz. by apply Hd, zb_inj.
  - destruct (trim_right_byte c s) as [|e t]; [done|]. exact IH.
Qed.

(** [strings.Index], and [strings.LastIndex] of a byte. *)
Fixpoint Index (s sub : string) : option nat :=
  if has_prefix s sub then Some O
  else match s with EmptyString => None | String _ s' => S <$> Index s' sub end.
Fixpoint LastIndexByte (c : ascii) (s : string) : option nat :=
  match s with
  | EmptyString => None
  | String d s' => match LastIndexByte c s' with
                   | Some i => Some (S i)
                   | None => if Ascii.eqb d c then Some O else None
                   end
  end.

(** ** [strconv.ParseInt(s, 10, 64)] *)

Fixpoint parse_digits (acc : Z) (s : string) : option Z :=
  match s with
  | EmptyString => Some acc
  | String c s' => if (48 <=? zb c) && (zb c <=? 57) then parse_digits (acc * 10 + (zb c - 48)) s'
                   else None
  end.

(** [None] for a syntax error or a value out of range. *)
Definition ParseInt (s : string) : option Z :=
  let '(neg, digits) := match s with
                        | String "-" s' => (true, s')
                        | String "+" s' => (false, s')
                        | _ => (false, s)
                        end in
  if is_empty digits then None
  else n ← parse_digits 0 digits;
       let z := if neg : bool then - n else n in
       if (int64_min <=? z) && (z <=? int64_max) then Some z else None.

Lemma pretty_N_char_digit x : (x < 10)%N ->
  zb (pretty_N_char x) = 48 + Z.of_N x.
Proof.
  intros H. assert (x = 0 \/ x = 1 \/ x = 2 \/ x = 3 \/ x = 4 \/ x = 5 \/ x = 6 \/ x = 7 \/ x = 8
    \/ x = 9)%N as Hc by lia. by repeat destruct Hc as [->|Hc]; subst.
Qed.

Lemma parse_pretty_go x : forall s, parse_digits 0 (pretty_N_go x s) = parse_digits (Z.of_N x) s.
Proof.
  induction (N.lt_wf_0 x) as [x _ IH]. intros s.
  assert (x = 0 \/ 0 < x)%N as [->|Hx] by lia; [by rewrite pretty_N_go_0|].
  rewrite pretty_N_go_step by done. rewrite IH by (by apply N.div_lt).
  cbn [parse_digits]. pose proof (N.mod_lt x 10 ltac:(done)) as Hm.
  rewrite pretty_N_char_digit by done.
  assert (forall y, 0 <= y < 10 -> (48 <=? 48 + y) && (48 + y <=? 57) = true) as Hd by lia.
  rewrite Hd by (split; [apply N2Z.is_nonneg|by apply (N2Z.inj_lt _ 10)]). f_equal. rewrite N2Z.inj_mod, N2Z.inj_div. change (Z.of_N 10) with 10.
  pose proof (Z.div_mod (Z.of_N x) 10 ltac:(done)). lia.
Qed.

Lemma pretty_N_digits (x : N) : parse_digits 0 (pretty x) = Some (Z.of_N x) /\
  exists c s, pretty x = String c s /\ 48 <= zb c <= 57.
Proof.
  assert (parse_digits 0 (pretty x) = Some (Z.of_N x)) as Hp.
  { unfold pretty, pretty_N. case_decide as H0; [by subst|]. by rewrite parse_pretty_go. }
  split; [done|]. destruct (pretty x) as [|c s] eqn:E.
  - exfalso. revert E. unfold pretty, pretty_N. case_decide; [done|]. intros E.
    assert (forall y t, t <> "" -> pretty_N_go y t <> "") as Hne.
    { intros y. induction (N.lt_wf_0 y) as [y _ IH]. intros t Ht.
      assert (y = 0 \/ 0 < y)%N as [->|Hy] by lia; [by rewrite pretty_N_go_0|].
      rewrite pretty_N_go_step by done. apply IH; [by apply N.div_lt|done]. }
    rewrite pretty_N_go_step in E by lia. by apply (Hne _ _) in E.
  - exists c, s. split; [done|]. cbn in Hp. case_match; [lia|done].
Qed.

(** Formatting and parsing a 64-bit integer are inverse. *)
Lemma ParseInt_itoa z : in_int64 z -> ParseInt (itoa z) = Some z.
Proof.
  intros Hz. unfold in_int64 in Hz.
  assert (forall n, in_int64 n -> (if (int64_min <=? n) && (n <=? int64_max) then Some n else None) = Some n)
    as Hr by (unfold in_int64; intros n ?; case_match; [done|lia]).
  destruct z as [|p|p]; [by vm_compute| |].
  - unfold itoa. change (pretty (Zpos p)) with (pretty (Npos p)).
    destruct (pretty_N_digits (Npos p)) as (Hp & c & s & E & Hc). rewrite E in *.
    unfold ParseInt. 
    assert (match String c s with
            | String "-" s' => (true, s') | String "+" s' => (false, s') | _ => (false, String c s)
            end = (false, String c s)) as ->.
    { destruct c as [[] [] [] [] [] [] [] []]; try done; exfalso; revert Hc; vm_compute; intros []; done. }
    cbn [is_empty]. rewrite Hp. cbn [mbind option_bind]. by apply Hr.
  - unfold itoa. change (pretty (Zneg p)) with (String "-" (pretty (Npos p))).
    destruct (pretty_N_digits (Npos p)) as (Hp & c & s & E & Hc). rewrite E in *.
    unfold ParseInt. cbn [is_empty]. rewrite Hp. cbn [mbind option_bind]. by apply Hr.
Qed.

(** A formatted integer is digits and perhaps a minus sign. *)
Lemma itoa_bytes z :
  all_bytes (fun b => ((48 <=? b) && (b <=? 57)) || (b =? 45)) (itoa z) = true.
Proof.
  assert (forall s n v, parse_digits n s = Some v ->
            all_bytes (fun b => ((48 <=? b) && (b <=? 57)) || (b =? 45)) s = true) as Hd.
  { intros s. induction s as [|c s IH]; intros n v; cbn; [done|].
    destruct ((48 <=? zb c) && (zb c <=? 57)); [|done]. cbn. apply IH. }
  pose proof (fun x => Hd _ _ _ (proj1 (pretty_N_digits x))) as Hp.
  unfold itoa. destruct z as [|p|p]; [done| |].
  - apply (Hp (Npos p)).
  - change (pretty (Zneg p)) with (String "-" (pretty (Npos p))). cbn. apply (Hp (Npos p)).
Qed.
