(* ===== verification/Utf8.v ===== *)
(** UTF-8 as Go's [unicode/utf8] decodes and encodes it, the runes that
    [unicode.IsSpace] accepts, and the functions of package [strings] that work
    rune by rune ([TrimSpace], [Fields]). *)
From S2P Require Import Prelude GoStrings.

Local Open Scope Z_scope.

Definition RuneError : Z := 65533.

(** A continuation byte in the given range. *)
Definition in_range (lo hi b : Z) : bool := (lo <=? b) && (b <=? hi).
Definition is_cont (b : Z) : bool := in_range 128 191 b.

(** [utf8.RuneStart]: not a continuation byte. *)
Definition RuneStart (b : Z) : bool := negb (is_cont b).

(** The length of the sequence a leading byte announces, with the range its
    second byte must lie in. [None] for a byte that starts no sequence. *)
Definition lead_info (b : Z) : option (nat * Z * Z) :=
  if in_range 194 223 b then Some (2%nat, 128, 191)
  else if b =? 224 then Some (3%nat, 160, 191)
  else if b =? 237 then Some (3%nat, 128, 159)
  else if in_range 225 239 b then Some (3%nat, 128, 191)
  else if b =? 240 then Some (4%nat, 144, 191)
  else if in_range 241 243 b then Some (4%nat, 128, 191)
  else if b =? 244 then Some (4%nat, 128, 143)
  else None.

(** [utf8.DecodeRuneInString]: the first rune and its width. An empty string
    gives [(RuneError, 0)] and an invalid sequence [(RuneError, 1)]. *)
Definition DecodeRune (s : string) : Z * nat :=
  match s with
  | EmptyString => (RuneError, 0%nat)
  | String c0 s1 =>
      let b0 := zb c0 in
      if b0 <? 128 then (b0, 1%nat) else
      match lead_info b0, s1 with
      | Some (2%nat, lo, hi), String c1 _ =>
          if in_range lo hi (zb c1)
          then ((b0 - 192) * 64 + (zb c1 - 128), 2%nat)
          else (RuneError, 1%nat)
      | Some (3%nat, lo, hi), String c1 (String c2 _) =>
          if in_range lo hi (zb c1) && is_cont (zb c2)
          then (((b0 - 224) * 64 + (zb c1 - 128)) * 64 + (zb c2 - 128), 3%nat)
          else (RuneError, 1%nat)
      | Some (4%nat, lo, hi), String c1 (String c2 (String c3 _)) =>
          if in_range lo hi (zb c1) && is_cont (zb c2) && is_cont (zb c3)
          then ((((b0 - 240) * 64 + (zb c1 - 128)) * 64 + (zb c2 - 128)) * 64
                + (zb c3 - 128), 4%nat)
          else (RuneError, 1%nat)
      | _, _ => (RuneError, 1%nat)
      end
  end.

Definition chr (z : Z) : ascii := ascii_of_N (Z.to_N z).

(** [string(r)] for a rune: invalid code points encode U+FFFD. *)
Definition EncodeRune (r : Z) : string :=
  let r := if (r <? 0) || (1114111 <? r) || in_range 55296 57343 r
           then RuneError else r in
  if r <? 128 then String (chr r) ""
  else if r <? 2048 then
    String (chr (192 + r / 64)) (String (chr (128 + r mod 64)) "")
  else if r <? 65536 then
    String (chr (224 + r / 4096))
      (String (chr (128 + (r / 64) mod 64)) (String (chr (128 + r mod 64)) ""))
  else
    String (chr (240 + r / 262144))
      (String (chr (128 + (r / 4096) mod 64))
        (String (chr (128 + (r / 64) mod 64)) (String (chr (128 + r mod 64)) ""))).

(** The runes of a [for _, r := range s] loop, each with its width. *)
Fixpoint runes_go (fuel : nat) (s : string) : list (Z * nat) :=
  match fuel with
  | O => []
  | S f => match s with
           | EmptyString => []
           | _ => let '(r, n) := DecodeRune s in (r, n) :: runes_go f (drop_bytes n s)
           end
  end.
Definition runes (s : string) : list (Z * nat) := runes_go (String.length s) s.

(** [utf8.ValidString]: no rune is an encoding error. *)
Definition ValidString (s : string) : bool :=
  forallb (fun '(r, n) => negb ((r =? RuneError) && Nat.eqb n 1)) (runes s).

(** [unicode.IsSpace]: White_Space in the Unicode tables. *)
Definition IsSpace (r : Z) : bool :=
  in_range 9 13 r || (r =? 32) || (r =? 133) || (r =? 160) || (r =? 5760) ||
  in_range 8192 8202 r || (r =? 8232) || (r =? 8233) || (r =? 8239) ||
  (r =? 8287) || (r =? 12288).

(** [strings.TrimLeftFunc(s, unicode.IsSpace)]. *)
Fixpoint trim_left_go (fuel : nat) (s : string) : string :=
  match fuel with
  | O => s
  | S f => match s with
           | EmptyString => s
           | _ => let '(r, n) := DecodeRune s in
                  if IsSpace r then trim_left_go f (drop_bytes n s) else s
           end
  end.
Definition TrimLeftSpace (s : string) : string := trim_left_go (String.length s) s.

(** [utf8.DecodeLastRuneInString]: the longest suffix of at most four bytes
    that starts with a non-continuation byte and decodes as one rune; the last
    byte alone is an error otherwise. *)
Definition DecodeLastRune (s : string) : Z * nat :=
  let n := String.length s in
  let try k :=
    let t := drop_bytes (n - k) s in
    Nat.leb k n && match first_byte t with Some b => RuneStart b | None => false end in
  let dec k := let '(r, m) := DecodeRune (drop_bytes (n - k) s) in
               if Nat.eqb m k then (r, m) else (RuneError, 1%nat) in
  if Nat.eqb n 0 then (RuneError, 0%nat)
  else if try 1%nat then dec 1%nat
  else if try 2%nat then dec 2%nat
  else if try 3%nat then dec 3%nat
  else if try 4%nat then dec 4%nat
  else (RuneError, 1%nat).

(** [strings.TrimRightFunc(s, unicode.IsSpace)]. *)
Fixpoint trim_right_go (fuel : nat) (s : string) : string :=
  match fuel with
  | O => s
  | S f => match s with
           | EmptyString => s
           | _ => let '(r, n) := DecodeLastRune s in
                  if IsSpace r then trim_right_go f (take_bytes (String.length s - n) s)
                  else s
           end
  end.
Definition TrimRightSpace (s : string) : string := trim_right_go (String.length s) s.

(** [strings.TrimSpace]. *)
Definition TrimSpace (s : string) : string := TrimRightSpace (TrimLeftSpace s).

(** [strings.Fields]: the maximal runs of non-space runes. [cur] holds the
    field being read. *)
Fixpoint fields_go (fuel : nat) (cur : string) (s : string) : list string :=
  let flush := if is_empty cur then [] else [cur] in
  match fuel with
  | O => flush
  | S f => match s with
           | EmptyString => flush
           | _ => let '(r, n) := DecodeRune s in
                  if IsSpace r then flush ++ fields_go f "" (drop_bytes n s)
                  else fields_go f (cur +:+ take_bytes n s) (drop_bytes n s)
           end
  end.
Definition Fields (s : string) : list string := fields_go (String.length s) "" s.

(** ** Lemmas *)

Lemma lead_info_cases b n lo hi : lead_info b = Some (n, lo, hi) ->
  (n = 2 \/ n = 3 \/ n = 4)%nat /\ 128 <= lo /\ hi <= 191 /\ 194 <= b <= 244.
Proof. unfold lead_info, in_range. intros. repeat case_match; simplify_eq; split_bools; lia. Qed.

Lemma DecodeRune_width s : s <> "" -> (1 <= (DecodeRune s).2 <= String.length s)%nat.
Proof.
  destruct s as [|c s]; [done|]. intros _. unfold DecodeRune.
  repeat case_match; simplify_eq; cbn; lia.
Qed.

(** The bytes a rune occupies: its own string when it decoded, one byte when
    it did not. *)
Lemma DecodeRune_ascii c s : zb c < 128 -> DecodeRune (String c s) = (zb c, 1%nat).
Proof. intros H. cbn. by apply Z.ltb_lt in H as ->. Qed.

Lemma drop_bytes_length n s :
  String.length (drop_bytes n s) = (String.length s - n)%nat.
Proof. revert s; induction n as [|n IH]; intros [|c s]; cbn; auto. Qed.

(** [runes_go] does not depend on its fuel once that covers the string. *)
Lemma runes_go_fuel s : forall f f', (String.length s <= f)%nat -> (String.length s <= f')%nat ->
  runes_go f s = runes_go f' s.
Proof.
  induction s as [s IH] using (induction_ltof1 _ String.length).
  intros [|f] [|f'] Hf Hf'; destruct s as [|c s]; try done; cbn in Hf, Hf'; try lia.
  cbn [runes_go]. pose proof (DecodeRune_width (String c s) ltac:(done)) as Hw.
  destruct (DecodeRune (String c s)) as [r n]. cbn in Hw. f_equal.
  apply IH; unfold ltof; rewrite drop_bytes_length; cbn; lia.
Qed.

Lemma runes_cons s r n : s <> "" -> DecodeRune s = (r, n) ->
  runes s = (r, n) :: runes (drop_bytes n s).
Proof.
  intros Hs Hd. unfold runes at 1. destruct s as [|c s]; [done|].
  cbn [String.length runes_go]. rewrite Hd. f_equal.
  pose proof (DecodeRune_width (String c s) Hs) as Hw. rewrite Hd in Hw. cbn in Hw.
  apply runes_go_fuel; rewrite drop_bytes_length; cbn; lia.
Qed.

(** A string of ASCII bytes is its own sequence of runes. *)
Lemma runes_ascii s : all_bytes (fun z => z <? 128) s = true ->
  (runes s).*1 = zb <$> String.list_ascii_of_string s.
Proof.
  induction s as [|c s IH]; cbn [all_bytes]; [done|]. intros [Hc Hs]%andb_true_iff.
  apply Z.ltb_lt in Hc.
  erewrite (runes_cons (String c s)); [|done|by apply DecodeRune_ascii].
  cbn. f_equal. by apply IH.
Qed.

(** ** Encoding and decoding are inverse on scalar values *)

Definition scalar (r : Z) : Prop := 0 <= r <= 1114111 /\ ~ (55296 <= r <= 57343).

Lemma zb_chr z : 0 <= z < 256 -> zb (chr z) = z.
Proof. intros H. unfold zb, chr. rewrite N_ascii_embedding; lia. Qed.

Lemma chr_zb c : chr (zb c) = c.
Proof. unfold zb, chr. rewrite N2Z.id. apply ascii_N_embedding. Qed.

Ltac dlia := Z.to_euclidean_division_equations; lia.

(** Decides the integer tests of the goal that the context settles. *)
Ltac zdecide b :=
  first [ replace b with true by dlia | replace b with false by dlia ].
Ltac zbool :=
  repeat (match goal with
          | |- context [Z.ltb ?x ?y] => zdecide (Z.ltb x y)
          | |- context [Z.leb ?x ?y] => zdecide (Z.leb x y)
          | |- context [Z.eqb ?x ?y] => zdecide (Z.eqb x y)
          end; cbn [andb orb negb]).

(** Encodings of the four widths. *)
Lemma EncodeRune_1 r : 0 <= r < 128 -> EncodeRune r = String (chr r) "".
Proof. intros. unfold EncodeRune, in_range. zbool. cbv zeta. by zbool. Qed.

Lemma EncodeRune_2 r : 128 <= r < 2048 ->
  EncodeRune r = String (chr (192 + r / 64)) (String (chr (128 + r mod 64)) "").
Proof. intros. unfold EncodeRune, in_range. zbool. cbv zeta. by zbool. Qed.

Lemma EncodeRune_3 r : 2048 <= r < 65536 -> ~ (55296 <= r <= 57343) ->
  EncodeRune r = String (chr (224 + r / 4096))
    (String (chr (128 + (r / 64) mod 64)) (String (chr (128 + r mod 64)) "")).
Proof.
  intros. unfold EncodeRune, in_range.
  destruct (Z.le_gt_cases r 55295); zbool; cbv zeta; by zbool.
Qed.

Lemma EncodeRune_4 r : 65536 <= r <= 1114111 ->
  EncodeRune r = String (chr (240 + r / 262144)) (String (chr (128 + (r / 4096) mod 64))
    (String (chr (128 + (r / 64) mod 64)) (String (chr (128 + r mod 64)) ""))).
Proof. intros. unfold EncodeRune, in_range. zbool. cbv zeta. by zbool. Qed.

Lemma scalar_cases r : scalar r ->
  0 <= r < 128 \/ 128 <= r < 2048 \/
  (2048 <= r < 65536 /\ ~ (55296 <= r <= 57343)) \/ 65536 <= r <= 1114111.
Proof. unfold scalar. lia. Qed.

Lemma DecodeRune_Encode r t : scalar r ->
  DecodeRune (EncodeRune r +:+ t) = (r, String.length (EncodeRune r)).
Proof.
  intros [H|[H|[[H H']|H]]]%scalar_cases.
  - rewrite EncodeRune_1 by done. rewrite app_cons_str. cbn [DecodeRune String.length].
    rewrite zb_chr by dlia. by zbool.
  - rewrite EncodeRune_2 by done. rewrite !app_cons_str. cbn [DecodeRune String.length].
    rewrite !zb_chr by dlia. unfold lead_info, in_range. zbool. f_equal. dlia.
  - rewrite EncodeRune_3 by done. rewrite !app_cons_str. cbn [DecodeRune String.length].
    rewrite !zb_chr by dlia. unfold lead_info, is_cont, in_range.
    assert (r < 4096 \/ 4096 <= r < 53248 \/ 53248 <= r < 55296 \/ 57344 <= r) as Hc by lia.
    destruct Hc as [?|[?|[?|?]]]; zbool; f_equal; dlia.
  - rewrite EncodeRune_4 by done. rewrite !app_cons_str. cbn [DecodeRune String.length].
    rewrite !zb_chr by dlia. unfold lead_info, is_cont, in_range.
    assert (r < 262144 \/ 262144 <= r < 1048576 \/ 1048576 <= r) as Hc by lia.
    destruct Hc as [?|[?|?]]; zbool; f_equal; dlia.
Qed.

(** What the decoder accepted is the encoding of a scalar value. *)
Lemma DecodeRune_valid s r n : DecodeRune s = (r, n) -> s <> "" ->
  ~ (r = RuneError /\ n = 1%nat) ->
  scalar r /\ EncodeRune r = take_bytes n s /\ (r < 128 <-> n = 1%nat).
Proof.
  destruct s as [|c0 s]; [done|]. intros Hd _ Hv. cbn [DecodeRune] in Hd.
  pose proof (zb_range c0) as R0. unfold lead_info, is_cont, in_range in Hd.
  repeat (case_match; simplify_eq); try (exfalso; by apply Hv).
  all: split_bools; rewrite ?Z.ltb_lt, ?Z.ltb_ge, ?Z.leb_le, ?Z.eqb_eq in *.
  all: repeat match goal with H : (_ <=? _) = true |- _ => apply Z.leb_le in H end.
  all: repeat match goal with H : (_ <? _) = false |- _ => apply Z.ltb_ge in H end.
  all: repeat match goal with
       | c : ascii |- _ => lazymatch goal with
                           | H : 0 <= zb c < 256 |- _ => fail
                           | _ => pose proof (zb_range c)
                           end end.
  all: split; [unfold scalar; lia|split; [|lia]]; cbn [take_bytes].
  all: first [ rewrite EncodeRune_1 by lia | rewrite EncodeRune_2 by lia
             | rewrite EncodeRune_3 by lia | rewrite EncodeRune_4 by lia ].
  all: repeat match goal with |- String _ _ = String _ _ => f_equal end; try done.
  all: match goal with |- chr ?e = ?c =>
         transitivity (chr (zb c)); [f_equal; dlia | apply chr_zb] end.
Qed.

(** ** Rune boundaries *)

(** [s[i]] for [i] in range. *)
Definition byte_at (n : nat) (s : string) : option Z := first_byte (drop_bytes n s).

(** The anatomy of a rune the decoder accepts: a start byte, then continuation
    bytes; what follows does not matter, and cutting it short is an error. *)
Lemma DecodeRune_shape s r n : DecodeRune s = (r, n) -> s <> "" ->
  ~ (r = RuneError /\ n = 1%nat) ->
  exists c p t, s = String c (p +:+ t) /\ n = S (String.length p) /\
    RuneStart (zb c) = true /\ all_bytes is_cont p = true /\
    (forall t', DecodeRune (String c (p +:+ t')) = (r, n)) /\
    (forall k, (k < String.length p)%nat ->
       DecodeRune (String c (take_bytes k p)) = (RuneError, 1%nat)).
Proof.
  destruct s as [|c0 s]; [done|]. intros Hd _ Hv. cbn [DecodeRune] in Hd.
  destruct (zb c0 <? 128) eqn:H0.
  { simplify_eq. exists c0, "", s. repeat split; try done; [|intros; cbn; by rewrite H0|cbn; lia].
    unfold RuneStart, is_cont, in_range. apply Z.ltb_lt in H0. zbool. done. }
  destruct (lead_info (zb c0)) as [[[w lo] hi]|] eqn:Hl; [|simplify_eq/=; by destruct Hv].
  destruct (lead_info_cases _ _ _ _ Hl) as (Hw & Hlo & Hhi & Hb).
  assert (RuneStart (zb c0) = true) as Hst by (unfold RuneStart, is_cont, in_range; zbool; done).
  assert (forall z, in_range lo hi z = true -> is_cont z = true) as Hc
    by (unfold is_cont, in_range; intros; lia).
  destruct Hw as [->|[->| ->]].
  - destruct s as [|c1 s]; [simplify_eq; by destruct Hv|].
    destruct (in_range lo hi (zb c1)) eqn:H1; [|simplify_eq/=; by destruct Hv]. simplify_eq.
    exists c0, (String c1 ""), s. repeat split; try done.
    + cbn. by rewrite (Hc _ H1).
    + intros t'. rewrite !app_cons_str. cbn [DecodeRune]. by rewrite H0, Hl, H1.
    + intros [|k] ?; cbn in *; [by rewrite H0, Hl|lia].
  - destruct s as [|c1 [|c2 s]]; try (simplify_eq; by destruct Hv).
    destruct (in_range lo hi (zb c1)) eqn:H1; [|simplify_eq/=; by destruct Hv].
    destruct (is_cont (zb c2)) eqn:H2; [|simplify_eq/=; by destruct Hv]. simplify_eq/=.
    exists c0, (String c1 (String c2 "")), s. repeat split; try done.
    + cbn. by rewrite (Hc _ H1), H2.
    + intros t'. rewrite !app_cons_str. cbn [DecodeRune]. by rewrite H0, Hl, H1, H2.
    + intros [|[|k]] ?; cbn in *; [by rewrite H0, Hl|by rewrite H0, Hl|lia].
  - destruct s as [|c1 [|c2 [|c3 s]]]; try (simplify_eq; by destruct Hv).
    destruct (in_range lo hi (zb c1)) eqn:H1; [|simplify_eq/=; by destruct Hv].
    destruct (is_cont (zb c2)) eqn:H2; [|simplify_eq/=; by destruct Hv].
    destruct (is_cont (zb c3)) eqn:H3; [|simplify_eq/=; by destruct Hv]. simplify_eq/=.
    exists c0, (String c1 (String c2 (String c3 ""))), s. repeat split; try done.
    + cbn. by rewrite (Hc _ H1), H2, H3.
    + intros t'. rewrite !app_cons_str. cbn [DecodeRune]. by rewrite H0, Hl, H1, H2, H3.
    + intros [|[|[|k]]] ?; cbn in *; try (by rewrite H0, Hl). lia.
Qed.

Definition rune_error (d : Z * nat) : bool := (d.1 =? RuneError) && Nat.eqb d.2 1.

Lemma ValidString_cons s r n : s <> "" -> DecodeRune s = (r, n) ->
  ValidString s = negb (rune_error (r, n)) && ValidString (drop_bytes n s).
Proof. intros Hs Hd. unfold ValidString. by rewrite (runes_cons s r n Hs Hd). Qed.

Lemma rune_error_false r n : rune_error (r, n) = false -> ~ (r = RuneError /\ n = 1%nat).
Proof. intros H [-> ->]. done. Qed.

(** A valid string starts with a rune and goes on as a valid string. *)
Lemma ValidString_inv s : ValidString s = true -> s <> "" ->
  exists c p t r, s = String c (p +:+ t) /\ ValidString t = true /\
    RuneStart (zb c) = true /\ all_bytes is_cont p = true /\
    rune_error (r, S (String.length p)) = false /\
    (forall t', DecodeRune (String c (p +:+ t')) = (r, S (String.length p))) /\
    (forall k, (k < String.length p)%nat ->
       DecodeRune (String c (take_bytes k p)) = (RuneError, 1%nat)).
Proof.
  intros Hv Hs. destruct (DecodeRune s) as [r n] eqn:Hd.
  rewrite (ValidString_cons _ _ _ Hs Hd) in Hv. split_bools.
  destruct (DecodeRune_shape _ _ _ Hd Hs (rune_error_false _ _ ltac:(done)))
    as (c & p & t & -> & -> & ? & ? & Hall & Hshort).
  exists c, p, t, r. repeat split; try done.
  change (drop_bytes (S (String.length p)) (String c (p +:+ t)))
    with (drop_bytes (String.length p) (p +:+ t)) in *. by rewrite drop_bytes_app in *.
Qed.

Lemma byte_at_app_l k p t : (k < String.length p)%nat -> byte_at k (p +:+ t) = byte_at k p.
Proof.
  unfold byte_at. revert k; induction p as [|c p IH]; intros [|k] Hk; cbn in Hk; try lia; try done.
  cbn. apply IH. lia.
Qed.

Lemma byte_at_app_r k p t : byte_at (String.length p + k) (p +:+ t) = byte_at k t.
Proof. unfold byte_at. induction p; done. Qed.

Lemma byte_at_all k p f b : all_bytes f p = true -> byte_at k p = Some b -> f b = true.
Proof.
  unfold byte_at. revert k; induction p as [|c p IH]; intros [|k]; cbn; try done.
  - intros [? ?]%andb_true_iff [= <-]. done.
  - intros [? ?]%andb_true_iff. by apply IH.
Qed.

Lemma byte_at_lt k s : (k < String.length s)%nat -> is_Some (byte_at k s).
Proof.
  unfold byte_at. revert k; induction s as [|c s IH]; intros [|k] Hk; cbn in *; try lia; eauto.
  apply IH. lia.
Qed.

Lemma take_bytes_app_l k p t : (k <= String.length p)%nat -> take_bytes k (p +:+ t) = take_bytes k p.
Proof.
  revert k; induction p as [|c p IH]; intros [|k] Hk; cbn in Hk; try lia; try done.
  rewrite app_cons_str. cbn. f_equal. apply IH. lia.
Qed.

Lemma take_bytes_app_r k p t : take_bytes (String.length p + k) (p +:+ t) = p +:+ take_bytes k t.
Proof. induction p as [|c p IH]; [done|]. rewrite !app_cons_str. cbn. by f_equal. Qed.

(** A cut of a valid string is valid exactly at its end and before a start
    byte. *)
Definition boundary (k : nat) (s : string) : bool :=
  match byte_at k s with Some b => RuneStart b | None => true end.

Lemma ValidString_take s : forall k, ValidString s = true -> (k <= String.length s)%nat ->
  ValidString (take_bytes k s) = boundary k s.
Proof.
  induction s as [s IH] using (induction_ltof1 _ String.length). intros k Hv Hk.
  destruct (decide (s = "")) as [->|Hs]; [by destruct k|].
  destruct (ValidString_inv s Hv Hs) as (c & p & t & r & -> & Ht & Hc & Hp & Hr & Hd & Hsh).
  unfold boundary. destruct k as [|k]; [cbn; by rewrite Hc|].
  change (byte_at (S k) (String c (p +:+ t))) with (byte_at k (p +:+ t)).
  change (take_bytes (S k) (String c (p +:+ t))) with (String c (take_bytes k (p +:+ t))).
  destruct (decide (k < String.length p)%nat) as [Hlt|Hge].
  - rewrite take_bytes_app_l, byte_at_app_l by lia.
    rewrite (ValidString_cons (String c (take_bytes k p)) _ _ ltac:(done) (Hsh k Hlt)).
    destruct (byte_at_lt k p Hlt) as [b Hb]. rewrite Hb. unfold RuneStart.
    by rewrite (byte_at_all _ _ _ _ Hp Hb).
  - replace k with (String.length p + (k - String.length p))%nat by lia.
    rewrite take_bytes_app_r, byte_at_app_r.
    rewrite (ValidString_cons (String c (p +:+ take_bytes (k - String.length p) t)) _ _
               ltac:(done) (Hd _)), Hr. cbn [negb andb].
    change (drop_bytes (S (String.length p)) (String c (p +:+ ?x)))
      with (drop_bytes (String.length p) (p +:+ x)). rewrite drop_bytes_app.
    cbn in Hk. rewrite length_app_str in Hk.
    apply IH; unfold ltof; cbn; rewrite ?length_app_str; [lia|done|lia].
Qed.

(** ** Trimming text without white space *)

(** Printable ASCII other than the space. *)
Definition graphic (s : string) : bool := all_bytes (fun b => in_range 33 126 b) s.

Lemma graphic_not_space b : in_range 33 126 b = true -> IsSpace b = false.
Proof. unfold IsSpace, in_range. lia. Qed.

Lemma drop_to_last f c s : all_bytes f (String c s) = true ->
  exists d, drop_bytes (String.length (String c s) - 1) (String c s) = String d "" /\ f (zb d) = true.
Proof.
  revert c; induction s as [|e s IH]; intros c; cbn [all_bytes]; intros [Hc Hs]%andb_true_iff.
  - by exists c.
  - destruct (IH e Hs) as (d & Hd & Hf). exists d. split; [|done].
    rewrite <-Hd. cbn [String.length]. rewrite !Nat.sub_1_r. done.
Qed.

Lemma DecodeLastRune_graphic c s : graphic (String c s) = true ->
  exists d, DecodeLastRune (String c s) = (zb d, 1%nat) /\ in_range 33 126 (zb d) = true.
Proof.
  intros Hg. destruct (drop_to_last _ c s Hg) as (d & Hd & Hr). exists d. split; [|done].
  unfold DecodeLastRune. cbn [String.length Nat.eqb Nat.leb] in *. rewrite Hd. cbn [first_byte andb].
  replace (RuneStart (zb d)) with true by (unfold RuneStart, is_cont, in_range in *; lia).
  rewrite DecodeRune_ascii by (unfold in_range in Hr; lia). done.
Qed.

Lemma TrimSpace_graphic s : graphic s = true -> TrimSpace s = s.
Proof.
  destruct s as [|c s]; [done|]. intros Hg. unfold TrimSpace.
  assert (TrimLeftSpace (String c s) = String c s) as ->.
  { unfold TrimLeftSpace. cbn [String.length trim_left_go].
    pose proof Hg as [Hc _]%andb_true_iff.
    rewrite DecodeRune_ascii by (unfold in_range in Hc; lia). by rewrite graphic_not_space. }
  unfold TrimRightSpace. cbn [String.length trim_right_go].
  destruct (DecodeLastRune_graphic c s Hg) as (d & -> & Hd). by rewrite graphic_not_space.
Qed.

(** ASCII text is valid UTF-8. *)
Lemma ValidString_ascii s : all_bytes (fun b => b <? 128) s = true -> ValidString s = true.
Proof.
  induction s as [|c s IH]; [done|]. cbn [all_bytes]. intros [Hc Hs]%andb_true_iff.
  apply Z.ltb_lt in Hc. pose proof (DecodeRune_ascii c s Hc) as Hd.
  rewrite (ValidString_cons (String c s) _ _ ltac:(done) Hd). cbn [drop_bytes].
  rewrite (IH Hs), andb_true_r. unfold rune_error. cbn.
  assert (zb c =? RuneError = false) as -> by (unfold RuneError; lia). done.
Qed.
