(* ===== verification/Base64.v ===== *)
(** base64.RawURLEncoding of encoding/base64, which the program uses for tokens,
    cursors and keys: the URL alphabet without padding. The decoder skips line
    breaks and does not look at the unused low bits of the last character. *)
From S2P Require Import Prelude GoStrings.

Local Open Scope Z_scope.

(** ** The alphabet *)

Definition byte (z : Z) : ascii := ascii_of_N (Z.to_N z).

Definition enc_char (n : Z) : ascii :=
  if n <? 26 then byte (65 + n)
  else if n <? 52 then byte (97 + (n - 26))
  else if n <? 62 then byte (48 + (n - 52))
  else if n =? 62 then "-"%char else "_"%char.

Definition dec_char (c : ascii) : option Z :=
  let z := zb c in
  if (65 <=? z) && (z <=? 90) then Some (z - 65)
  else if (97 <=? z) && (z <=? 122) then Some (z - 97 + 26)
  else if (48 <=? z) && (z <=? 57) then Some (z - 48 + 52)
  else if z =? 45 then Some 62
  else if z =? 95 then Some 63
  else None.

(** ** Encoding *)

Definition sextets2 (a : Z) : list Z := [a / 4; (a mod 4) * 16].
Definition sextets3 (a b : Z) : list Z := [a / 4; (a mod 4) * 16 + b / 16; (b mod 16) * 4].
Definition sextets4 (a b c : Z) : list Z :=
  [a / 4; (a mod 4) * 16 + b / 16; (b mod 16) * 4 + c / 64; c mod 64].

Fixpoint to_sextets (s : string) : list Z :=
  match s with
  | String a (String b (String c r)) => sextets4 (zb a) (zb b) (zb c) ++ to_sextets r
  | String a (String b EmptyString) => sextets3 (zb a) (zb b)
  | String a EmptyString => sextets2 (zb a)
  | EmptyString => []
  end.

Fixpoint text_of (l : list Z) : string :=
  match l with [] => "" | n :: l => String (enc_char n) (text_of l) end.

Definition EncodeToString (s : string) : string := text_of (to_sextets s).

(** ** Decoding *)

Fixpoint of_sextets (l : list Z) : option string :=
  match l with
  | w :: x :: y :: z :: l =>
      r ← of_sextets l;
      Some (String (byte (w * 4 + x / 16)) (String (byte ((x mod 16) * 16 + y / 4))
              (String (byte ((y mod 4) * 64 + z)) r)))
  | [w; x; y] =>
      Some (String (byte (w * 4 + x / 16)) (String (byte ((x mod 16) * 16 + y / 4)) ""))
  | [w; x] => Some (String (byte (w * 4 + x / 16)) "")
  | [_] => None
  | [] => Some ""
  end.

Definition line_break (c : ascii) : bool := (zb c =? 10) || (zb c =? 13).

Fixpoint sextets_of (s : string) : option (list Z) :=
  match s with
  | EmptyString => Some []
  | String c s =>
      if line_break c then sextets_of s
      else n ← dec_char c; l ← sextets_of s; Some (n :: l)
  end.

Definition DecodeString (s : string) : option string := sextets_of s ≫= of_sextets.

(** ** Round trip *)

Definition sextet (n : Z) : Prop := 0 <= n < 64.

Lemma byte_zb c : byte (zb c) = c.
Proof. unfold byte, zb. rewrite N2Z.id. apply ascii_N_embedding. Qed.

Lemma zb_byte z : 0 <= z < 256 -> zb (byte z) = z.
Proof. intros Hz. unfold byte, zb. rewrite N_ascii_embedding; lia. Qed.

Lemma dec_enc n : sextet n -> dec_char (enc_char n) = Some n /\ line_break (enc_char n) = false.
Proof.
  intros Hn. unfold enc_char, line_break.
  destruct (n <? 26) eqn:H1; [|destruct (n <? 52) eqn:H2; [|destruct (n <? 62) eqn:H3]].
  1-3: unfold dec_char; rewrite zb_byte by (unfold sextet in Hn; lia); unfold sextet in Hn;
    split; [|lia]; repeat (case_match; try lia); f_equal; lia.
  assert (n = 62 \/ n = 63) as [-> | ->] by (unfold sextet in Hn; lia); split; reflexivity.
Qed.

Lemma sextets_of_text l : Forall sextet l -> sextets_of (text_of l) = Some l.
Proof.
  induction 1 as [|n l Hn _ IH]; [done|]. cbn. destruct (dec_enc n Hn) as [-> ->]. cbn. by rewrite IH.
Qed.

Ltac divmod := Z.div_mod_to_equations; lia.

Lemma to_sextets_range s : Forall sextet (to_sextets s) /\ of_sextets (to_sextets s) = Some s.
Proof.
  enough (forall n s, (String.length s < n)%nat ->
            Forall sextet (to_sextets s) /\ of_sextets (to_sextets s) = Some s) as H
    by (apply (H (S (String.length s))); lia).
  clear s. induction n as [|n IH]; intros s Hs; [lia|].
  destruct s as [|a [|b [|c r]]]; [by repeat constructor| | |]; pose proof (zb_range a) as Ha.
  - cbn. split; [repeat constructor; unfold sextet; divmod|].
    replace (zb a / 4 * 4 + zb a mod 4 * 16 / 16) with (zb a) by divmod. by rewrite byte_zb.
  - pose proof (zb_range b) as Hb. cbn. split; [repeat constructor; unfold sextet; divmod|].
    replace (zb a / 4 * 4 + (zb a mod 4 * 16 + zb b / 16) / 16) with (zb a) by divmod.
    replace ((zb a mod 4 * 16 + zb b / 16) mod 16 * 16 + zb b mod 16 * 4 / 4) with (zb b) by divmod.
    by rewrite !byte_zb.
  - pose proof (zb_range b) as Hb. pose proof (zb_range c) as Hc.
    destruct (IH r) as [H1 H2]; [cbn in Hs; lia|]. cbn. split.
    + repeat (apply Forall_cons; split; [unfold sextet; divmod|]). done.
    + rewrite H2. cbn.
      replace (zb a / 4 * 4 + (zb a mod 4 * 16 + zb b / 16) / 16) with (zb a) by divmod.
      replace ((zb a mod 4 * 16 + zb b / 16) mod 16 * 16 + (zb b mod 16 * 4 + zb c / 64) / 4)
        with (zb b) by divmod.
      replace ((zb b mod 16 * 4 + zb c / 64) mod 4 * 64 + zb c mod 64) with (zb c) by divmod.
      by rewrite !byte_zb.
Qed.

Lemma decode_encode s : DecodeString (EncodeToString s) = Some s.
Proof.
  destruct (to_sextets_range s) as [H1 H2]. unfold DecodeString, EncodeToString.
  by rewrite sextets_of_text.
Qed.

(** An encoded text is made of the alphabet. *)
Lemma encode_bytes s (f : Z -> bool) : (forall n, sextet n -> f (zb (enc_char n)) = true) ->
  all_bytes f (EncodeToString s) = true.
Proof.
  intros Hf. unfold EncodeToString. destruct (to_sextets_range s) as [H1 _].
  induction H1 as [|n l Hn _ IH]; [done|]. cbn. by rewrite Hf.
Qed.

Lemma encode_lacks_dot s : lacks "." (EncodeToString s) = true.
Proof.
  apply encode_bytes. intros n Hn. unfold sextet in Hn.
  assert (forallb (fun k => negb (zb (enc_char (Z.of_nat k)) =? zb ".")) (seq 0 64) = true) as Hall
    by reflexivity.
  rewrite forallb_forall in Hall. specialize (Hall (Z.to_nat n)). rewrite Z2Nat.id in Hall by lia.
  apply Hall, in_seq. lia.
Qed.

(** Different texts of one value. *)
Example trailing_bits : DecodeString "QQ" = Some "A" /\ DecodeString "QR" = Some "A".
Proof. split; reflexivity. Qed.
