(* ===== verification/AtProto.v ===== *)
(** Package [internal/atproto]: the strict DID predicate of [did/did.go] and
    the collection-list parser of [collections.go]. *)
From S2P Require Import Prelude GoStrings Utf8.

Local Open Scope Z_scope.

Module Did.

Definition minLen : Z := 8.
Definition maxLen : Z := 256.

Definition is_blank (b : Z) : bool := (b =? 32) || (b =? 9).
Definition is_lower (b : Z) : bool := (97 <=? b) && (b <=? 122).
Definition is_upper (b : Z) : bool := (65 <=? b) && (b <=? 90).
Definition is_digit (b : Z) : bool := (48 <=? b) && (b <=? 57).

(** The bytes of the method-specific identifier. *)
Definition is_id_byte (b : Z) : bool :=
  is_lower b || is_upper b || is_digit b ||
  ((b =? 58) || (b =? 45) || (b =? 46) || (b =? 95)).

(** The loop over the method name, from byte 4 on: the text after the
    terminating colon, or [None] where the code returns false (a byte that is
    no lowercase letter, an empty method, no colon). *)
Fixpoint scan_method (empty : bool) (s : string) : option string :=
  match s with
  | EmptyString => None
  | String c s' =>
      if zb c =? 58 then (if empty then None else Some s')
      else if is_lower (zb c) then scan_method false s' else None
  end.

Definition blank_at (o : option Z) : bool :=
  match o with Some b => is_blank b | None => false end.

Definition IsValid (s : string) : bool :=
  if (glen s <? minLen) || (maxLen <? glen s) then false
  else if blank_at (first_byte s) || blank_at (last_byte s) then false
  else if negb (has_prefix s "did:") then false
  else match scan_method true (drop_bytes 4 s) with
       | None => false
       | Some id => negb (is_empty id) && all_bytes is_id_byte id
       end.

(** ** The grammar the predicate decides *)

Definition valid_did (s : string) : Prop :=
  minLen <= glen s <= maxLen /\
  exists method id,
    s = "did:" +:+ method +:+ ":" +:+ id /\
    method <> "" /\ all_bytes is_lower method = true /\
    id <> "" /\ all_bytes is_id_byte id = true.

Lemma scan_method_Some e s id : scan_method e s = Some id <->
  exists m, s = m +:+ ":" +:+ id /\ all_bytes is_lower m = true /\ (e = true -> m <> "").
Proof.
  revert e. induction s as [|c s IH]; intros e; cbn [scan_method].
  - split; [done|]. intros (m & H & _). by destruct m.
  - destruct (Z.eqb_spec (zb c) 58) as [Hc|Hc].
    + assert (c = ":"%char) as -> by (by apply zb_inj). split.
      * destruct e; [done|]. intros [= ->]. exists "". done.
      * intros (m & [(-> & _ & ->)|(m' & -> & _)]%cons_app_inv & Hl & He); [|done].
        destruct e; naive_solver.
    + destruct (is_lower (zb c)) eqn:Hl; [rewrite IH|]; split.
      * intros (m & -> & Hm & _). exists (String c m). cbn. by rewrite Hl, Hm.
      * intros (m & [(-> & -> & _)|(m' & -> & ->)]%cons_app_inv & Hlm & He); [done|].
        exists m'. cbn in Hlm. by rewrite Hl in Hlm.
      * done.
      * intros (m & [(-> & -> & _)|(m' & -> & ->)]%cons_app_inv & Hlm & He); [done|].
        cbn in Hlm. by rewrite Hl in Hlm.
Qed.

Lemma all_bytes_last f s b : all_bytes f s = true -> last_byte s = Some b -> f b = true.
Proof.
  induction s as [|c [|d s] IH]; cbn [all_bytes last_byte]; [done| |].
  - intros ? [= <-]. by split_bools.
  - intros [_ H]%andb_true_iff. by apply IH.
Qed.

Lemma last_byte_app s t : t <> "" -> last_byte (s +:+ t) = last_byte t.
Proof.
  intros Ht. induction s as [|c s IH]; [done|]. rewrite app_cons_str.
  cbn [last_byte]. rewrite IH. destruct (s +:+ t) eqn:E; [|done].
  destruct s; [|by rewrite app_cons_str in E]. change ("" +:+ t) with t in E. by subst.
Qed.

Lemma is_id_byte_blank b : is_id_byte b = true -> is_blank b = false.
Proof. unfold is_id_byte, is_blank, is_lower, is_upper, is_digit. lia. Qed.

Lemma is_empty_false s : is_empty s = false <-> s <> "".
Proof. by destruct s. Qed.

Lemma IsValid_iff s : IsValid s = true <-> valid_did s.
Proof.
  unfold IsValid, valid_did. split.
  - intros H. repeat (case_match; try done). split_bools.
    match goal with H : scan_method _ _ = Some _ |- _ =>
      apply scan_method_Some in H as (m & Hm & Hl & Hne) end.
    split; [unfold minLen, maxLen in *; lia|]. exists m, s0.
    match goal with H : has_prefix s _ = true |- _ =>
      apply prefix_spec in H as (t & ->) end.
    change (drop_bytes 4 ("did:" +:+ t)) with (drop_bytes (String.length "did:") ("did:" +:+ t)) in Hm.
    rewrite drop_bytes_app in Hm. subst t. naive_solver eauto using is_empty_false.
  - intros (Hlen & m & id & -> & Hm & Hlm & Hid & Hbid).
    replace (_ || _) with false by (unfold minLen, maxLen in *; lia).
    assert (last_byte ("did:" +:+ m +:+ ":" +:+ id) = last_byte id) as ->.
    { change (":" +:+ id) with (String ":"%char id).
      rewrite !last_byte_app; [by destruct id|done|by destruct m]. }
    assert (blank_at (last_byte id) = false) as ->.
    { destruct (last_byte id) as [b|] eqn:Hb; [|done].
      eapply is_id_byte_blank, all_bytes_last; eauto. }
    unfold has_prefix. rewrite prefix_app. cbn [negb orb].
    change (blank_at (first_byte _)) with false. cbn [orb].
    change 4%nat with (String.length "did:"). rewrite drop_bytes_app.
    erewrite (proj2 (scan_method_Some true _ id)); [|by exists m].
    by apply is_empty_false in Hid as ->.
Qed.

(** [IsValid] accepts exactly the strings of 8 to 256 bytes of the form
    did:METHOD:ID with a non-empty lowercase ASCII method and a non-empty
    identifier over letters, digits and the bytes colon, dot, underscore and
    hyphen; in particular the explicit leading/trailing blank test removes
    nothing that the grammar would accept. *)
Theorem IsValid_spec s : IsValid s = true <-> valid_did s.
Proof. exact (IsValid_iff s). Qed.

Example IsValid_plc : IsValid "did:plc:ewvi7nxzyoun6zhxrhs64oiz" = true.
Proof. reflexivity. Qed.
Example IsValid_upper_method : IsValid "DID:plc:abcdef" = false.
Proof. reflexivity. Qed.
Example IsValid_no_id : IsValid "did:plcab:" = false.
Proof. reflexivity. Qed.

(** Bytes that quote, escape or separate in SQL text, JSON, shells and log
    lines: quotes, backslash, percent, dollar, semicolon, angle brackets,
    blanks, control bytes and everything outside ASCII. *)
Definition is_quoting_byte (b : Z) : bool :=
  (b <=? 44) || (b =? 47) || ((59 <=? b) && (b <=? 64)) ||
  ((91 <=? b) && (b <=? 94)) || (b =? 96) || (123 <=? b).

Lemma valid_did_id_bytes s : IsValid s = true -> all_bytes is_id_byte s = true.
Proof.
  intros (_ & m & id & -> & _ & Hm & _ & Hid)%IsValid_iff.
  rewrite !all_bytes_app. rewrite !andb_true_iff; repeat split; try reflexivity; try done.
  eapply all_bytes_impl; [|exact Hm]. intros b. unfold is_id_byte. by intros ->.
Qed.

Lemma valid_did_bytes s : IsValid s = true ->
  all_bytes (fun b => negb (is_quoting_byte b)) s = true.
Proof.
  intros (_ & m & id & -> & _ & Hm & _ & Hid)%IsValid_iff.
  rewrite !all_bytes_app. rewrite !andb_true_iff; repeat split; try reflexivity;
    eapply all_bytes_impl; [|eassumption| |eassumption]; intros b;
    unfold is_id_byte, is_quoting_byte, is_lower, is_upper, is_digit; lia.
Qed.

(** No byte of a valid DID is a quote, a backslash, a percent or dollar
    sign, a semicolon, a bracket, a blank or a control byte. *)
Theorem valid_did_no_quoting s : IsValid s = true ->
  all_bytes (fun b => negb (is_quoting_byte b)) s = true.
Proof. apply valid_did_bytes. Qed.

Lemma valid_did_no_quoting_witness :
  IsValid "did:plc:ewvi7nxzyoun6zhxrhs64oiz" = true /\
  all_bytes (fun b => negb (is_quoting_byte b)) "did:plc:ewvi7nxzyoun6zhxrhs64oiz" = true.
Proof. split; [reflexivity|apply valid_did_no_quoting; reflexivity]. Defined.

(** The underscore, a single-character wildcard of LIKE, is an identifier
    byte. *)
Example valid_did_underscore : IsValid "did:plc:a_b" = true.
Proof. reflexivity. Qed.
End Did.

(** [ParseCollections] of [collections.go]: the comma-separated entries with
    blanks trimmed, empty entries dropped. [nil] and an empty slice are the
    same list. *)
Module Collections.

Definition ParseCollections (s : string) : list string :=
  if is_empty s then []
  else filter (fun p => p <> "") (TrimSpace <$> split s ",").

Example ParseCollections_two :
  ParseCollections " app.bsky.feed.post,, app.bsky.feed.like ,"
  = ["app.bsky.feed.post"; "app.bsky.feed.like"].
Proof. reflexivity. Qed.

Lemma ParseCollections_elem s p : p ∈ ParseCollections s <->
  p <> "" /\ exists q, q ∈ split s "," /\ p = TrimSpace q.
Proof.
  unfold ParseCollections. destruct (is_empty s) eqn:Hs.
  - destruct s; [|done]. split; [by intros ?%not_elem_of_nil|].
    intros (Hp & q & Hq & ->). cbn in Hq. apply list_elem_of_singleton in Hq as ->.
    done.
  - rewrite list_elem_of_filter, list_elem_of_fmap. naive_solver.
Qed.
End Collections.
