(* ===== verification/LogSafe.v ===== *)
(** Package [internal/logsafe]: the scrubbing helpers applied to values that
    reach audit-log lines. *)
From S2P Require Import Prelude GoStrings Utf8 AtProto.

Local Open Scope Z_scope.

Definition maxLogValueLen : Z := 256.
Definition invalidDIDSentinel : string := "<invalid-did>".
Definition replacement : string := EncodeRune RuneError.
Definition lineSep : Z := 8232.
Definition paraSep : Z := 8233.

Definition DID (s : string) : string :=
  if Did.IsValid s then s else invalidDIDSentinel.

(** [strings.ContainsRune] for the two separators: they are non-ASCII and
    valid, so the search is for their encoding. *)
Definition ContainsRune (s : string) (r : Z) : bool := contains s (EncodeRune r).

Definition is_control (b : Z) : bool := (b <? 32) || (b =? 127).

Definition needsScrub (s : string) : bool :=
  negb (all_bytes (fun b => negb (is_control b)) s) ||
  ContainsRune s lineSep || ContainsRune s paraSep.

(** The test of the rune loop: control characters, the two separators and
    encoding errors are replaced. *)
Definition needsReplace (r : Z) (size : nat) : bool :=
  (r <? 32) || (r =? 127) || (r =? lineSep) || (r =? paraSep) ||
  ((r =? RuneError) && Nat.eqb size 1).

(** The loop of [String] from a position on. [b] is the builder, whose length
    the code keeps in [written]; the loop returns early when the next rune
    would pass the cap. *)
Fixpoint scrub_go (fuel : nat) (b : string) (written : Z) (s : string) : string :=
  match fuel with
  | O => b
  | S f =>
      match s with
      | EmptyString => b
      | _ =>
          let '(r, size) := DecodeRune s in
          if needsReplace r size then
            if maxLogValueLen <? written + glen replacement then b
            else scrub_go f (b +:+ replacement) (written + glen replacement)
                   (drop_bytes size s)
          else if Nat.eqb size 1 then
            if maxLogValueLen <? written + 1 then b
            else scrub_go f (b +:+ take_bytes 1 s) (written + 1) (drop_bytes size s)
          else
            let enc := EncodeRune r in
            if maxLogValueLen <? written + glen enc then b
            else scrub_go f (b +:+ enc) (written + glen enc) (drop_bytes size s)
      end
  end.

Definition String_ (s : string) : string :=
  if is_empty s then s
  else if (glen s <=? maxLogValueLen) && negb (needsScrub s) && ValidString s then s
  else scrub_go (String.length s) "" 0 s.

(** ** What a scrubbed value is *)

(** A rune that may stand in a log line. *)
Definition clean_rune (r : Z) : Prop :=
  scalar r /\ 32 <= r /\ r <> 127 /\ r <> lineSep /\ r <> paraSep.

(** The UTF-8 text of a list of runes. *)
Definition encode_all (l : list Z) : string := foldr (fun r s => EncodeRune r +:+ s) "" l.

Lemma encode_all_app l k : encode_all (l ++ k) = encode_all l +:+ encode_all k.
Proof.
  induction l as [|r l IH]; [done|]. unfold encode_all in *. cbn.
  by rewrite IH, app_assoc_str.
Qed.

(** A string is log-safe when it is the UTF-8 text of clean runes and within
    the cap. *)
Definition log_safe (s : string) : Prop :=
  glen s <= maxLogValueLen /\ exists l, s = encode_all l /\ Forall clean_rune l.

Lemma replacement_clean : clean_rune RuneError.
Proof. unfold clean_rune, scalar, RuneError, lineSep, paraSep. lia. Qed.

Lemma needsReplace_false r n : needsReplace r n = false ->
  32 <= r /\ r <> 127 /\ r <> lineSep /\ r <> paraSep /\ ~ (r = RuneError /\ n = 1%nat).
Proof.
  unfold needsReplace. intros H. split_bools. repeat split; try lia.
  intros [-> ->]. by rewrite Z.eqb_refl in *.
Qed.

Lemma scrub_go_safe fuel b s : log_safe b -> log_safe (scrub_go fuel b (glen b) s).
Proof.
  revert b s. induction fuel as [|f IH]; intros b s Hb; [done|].
  cbn [scrub_go]. destruct s as [|c s]; [done|].
  destruct (DecodeRune (String c s)) as [r n] eqn:Hd.
  assert (forall r', clean_rune r' ->
    log_safe (if maxLogValueLen <? glen b + glen (EncodeRune r') then b
              else scrub_go f (b +:+ EncodeRune r') (glen b + glen (EncodeRune r'))
                     (drop_bytes n (String c s)))) as Hstep.
  { intros r' Hr'. destruct (Z.ltb_spec maxLogValueLen (glen b + glen (EncodeRune r')));
      [done|]. rewrite <-glen_app. apply IH. destruct Hb as (_ & l & -> & Hl). split.
    - by rewrite glen_app.
    - exists (l ++ [r']). rewrite encode_all_app. split; [|by apply Forall_app_2; auto].
      unfold encode_all at 3. cbn [foldr]. by rewrite app_nil_r_str. }
  destruct (needsReplace r n) eqn:Hnr; [apply (Hstep RuneError), replacement_clean|].
  apply needsReplace_false in Hnr as (H1 & H2 & H3 & H4 & Hv).
  destruct (DecodeRune_valid _ _ _ Hd ltac:(done) Hv) as (Hsc & Henc & Hn).
  assert (clean_rune r) as Hcl by (unfold clean_rune; auto).
  destruct (Nat.eqb_spec n 1) as [->|]; [|by apply Hstep].
  specialize (Hstep r Hcl). rewrite Henc in Hstep.
  by replace (glen (take_bytes 1 (String c s))) with 1 in Hstep.
Qed.

(** A valid string without anything to scrub is the text of clean runes. *)
Lemma ValidString_encode s : ValidString s = true ->
  s = encode_all (runes s).*1 /\ Forall scalar (runes s).*1.
Proof.
  induction s as [s IH] using (induction_ltof1 _ String.length). intros Hv.
  destruct s as [|c s]; [done|].
  destruct (DecodeRune (String c s)) as [r n] eqn:Hd.
  assert (String c s <> "") as Hne by done.
  unfold ValidString in Hv. rewrite (runes_cons _ _ _ Hne Hd) in Hv |- *.
  cbn [forallb] in Hv. split_bools.
  destruct (DecodeRune_valid _ _ _ Hd ltac:(done)) as (Hsc & Henc & Hn).
  { intros [-> ->]. done. }
  pose proof (DecodeRune_width (String c s) ltac:(done)) as Hw. rewrite Hd in Hw.
  destruct (IH (drop_bytes n (String c s))) as [IH1 IH2]; [|done|].
  { unfold ltof. rewrite drop_bytes_length. cbn in *. lia. }
  split; [|by constructor].
  unfold encode_all in *. cbn [fmap list_fmap foldr fst]. rewrite <-IH1, Henc.
  by rewrite take_drop_bytes.
Qed.

Lemma contains_app_l p s t : contains s t = true -> contains (p +:+ s) t = true.
Proof.
  rewrite !contains_spec. intros (a & b & ->). exists (p +:+ a), b.
  by rewrite app_assoc_str.
Qed.

Lemma encode_all_contains r l : r ∈ l -> ContainsRune (encode_all l) r = true.
Proof.
  intros (l1 & l2 & ->)%list_elem_of_split. rewrite encode_all_app.
  apply contains_app_l, contains_spec. exists "", (encode_all l2). done.
Qed.

Lemma encode_rune_ascii r l : r ∈ l -> 0 <= r < 128 -> forall f,
  all_bytes f (encode_all l) = true -> f r = true.
Proof.
  intros (l1 & l2 & ->)%list_elem_of_split Hr f. rewrite encode_all_app.
  change (encode_all (r :: l2)) with (EncodeRune r +:+ encode_all l2).
  rewrite !all_bytes_app, EncodeRune_1 by done. cbn [all_bytes].
  rewrite zb_chr by lia. intros H. by split_bools.
Qed.

Lemma fast_path_safe s :
  (glen s <=? maxLogValueLen) && negb (needsScrub s) && ValidString s = true -> log_safe s.
Proof.
  intros H. split_bools. split; [lia|]. destruct (ValidString_encode s) as [He Hs]; [done|].
  exists (runes s).*1. split; [done|]. apply Forall_forall. intros r Hr.
  rewrite Forall_forall in Hs. specialize (Hs r Hr). to_elem_of.
  unfold needsScrub in *. split_bools.
  remember ((runes s).*1) as l eqn:Hl. clear Hl. subst s.
  split; [done|]. destruct (Z.lt_ge_cases r 128) as [Hlt|].
  - assert (negb (is_control r) = true) as Hc.
    { by apply (encode_rune_ascii r l) with (f := fun b => negb (is_control b));
        [|unfold scalar in *; lia|]. }
    unfold is_control, lineSep, paraSep in *. lia.
  - repeat split; try lia; intros ->;
      by rewrite (encode_all_contains _ l Hr) in *.
Qed.

Lemma String_safe s : log_safe (String_ s).
Proof.
  unfold String_. destruct (is_empty s) eqn:Hs.
  - destruct s; [|done]. split; [done|]. by exists [].
  - destruct (_ && _) eqn:Hf; [by apply fast_path_safe|].
    apply (scrub_go_safe _ ""). split; [done|]. by exists [].
Qed.

(** ** Log-safe values pass through unchanged *)

Lemma EncodeRune_shape r : scalar r -> exists c t,
  EncodeRune r = String c t /\ all_bytes is_cont t = true /\
  is_cont (zb c) = false /\ (128 <= r -> 128 <= zb c).
Proof.
  intros [H|[H|[[H H']|H]]]%scalar_cases.
  - rewrite EncodeRune_1 by done. eexists _, _. split; [reflexivity|]. rewrite zb_chr by lia.
    unfold is_cont, in_range. repeat split; [|lia]. by zbool.
  - rewrite EncodeRune_2 by done. eexists _, _. split; [reflexivity|]. cbn [all_bytes].
    rewrite !zb_chr by dlia. unfold is_cont, in_range. repeat split; [| |dlia]; by zbool.
  - rewrite EncodeRune_3 by done. eexists _, _. split; [reflexivity|]. cbn [all_bytes].
    rewrite !zb_chr by dlia. unfold is_cont, in_range. repeat split; [| |dlia]; by zbool.
  - rewrite EncodeRune_4 by done. eexists _, _. split; [reflexivity|]. cbn [all_bytes].
    rewrite !zb_chr by dlia. unfold is_cont, in_range. repeat split; [| |dlia]; by zbool.
Qed.

(** A leading byte cannot stand inside a run of continuation bytes. *)
Lemma cont_run_app t : forall rest a d u, all_bytes is_cont t = true ->
  is_cont (zb d) = false -> t +:+ rest = a +:+ String d u ->
  exists a', rest = a' +:+ String d u.
Proof.
  induction t as [|c t IH]; intros rest a d u Ht Hd; [by exists a|].
  rewrite app_cons_str. cbn [all_bytes] in Ht. split_bools.
  intros [(_ & -> & _)|(a' & _ & H')]%cons_app_inv; [congruence|]. by eapply IH.
Qed.

Lemma encode_all_cons r l : encode_all (r :: l) = EncodeRune r +:+ encode_all l.
Proof. done. Qed.

Lemma encode_contains_inv r l : scalar r -> Forall scalar l ->
  ContainsRune (encode_all l) r = true -> r ∈ l.
Proof.
  intros Hr Hl. unfold ContainsRune. rewrite contains_spec.
  destruct (EncodeRune_shape r Hr) as (d & u & Hd & _ & Hcd & _).
  induction Hl as [|x l Hx Hl IH]; intros (a & b & Hab).
  - rewrite Hd, app_cons_str in Hab. by destruct a.
  - rewrite encode_all_cons in Hab. destruct a as [|e a].
    + pose proof (DecodeRune_Encode x (encode_all l) Hx) as Hdx.
      pose proof (DecodeRune_Encode r b Hr) as Hdr.
      change ("" +:+ ?y) with y in Hab. rewrite Hab, Hdr in Hdx.
      simplify_eq. set_solver.
    + destruct (EncodeRune_shape x Hx) as (c & t & Hc & Ht & _).
      rewrite Hc, !app_cons_str in Hab. injection Hab as <- Hab.
      rewrite Hd, app_cons_str in Hab.
      apply cont_run_app in Hab as (a' & Ha'); [|done|done].
      apply list_elem_of_further, IH. exists a', b. by rewrite Hd, app_cons_str.
Qed.

Lemma runes_encode_all l : Forall scalar l ->
  runes (encode_all l) = (fun r => (r, String.length (EncodeRune r))) <$> l.
Proof.
  induction 1 as [|r l Hr Hl IH]; [done|]. rewrite encode_all_cons.
  destruct (EncodeRune_shape r Hr) as (c & t & Hc & _).
  rewrite (runes_cons _ r (String.length (EncodeRune r)));
    [|by rewrite Hc|by apply DecodeRune_Encode].
  rewrite drop_bytes_app, IH. done.
Qed.

Lemma clean_bytes l : Forall clean_rune l ->
  all_bytes (fun b => negb (is_control b)) (encode_all l) = true.
Proof.
  induction 1 as [|r l (Hr & H1 & H2 & _) Hl IH]; [done|].
  rewrite encode_all_cons, all_bytes_app, IH, andb_true_r.
  destruct (Z.lt_ge_cases r 128).
  - rewrite EncodeRune_1 by lia. cbn [all_bytes]. rewrite zb_chr by lia.
    unfold is_control. by zbool.
  - destruct (EncodeRune_shape r Hr) as (c & t & -> & Ht & _ & Hc).
    cbn [all_bytes]. apply andb_true_iff. split.
    + unfold is_control. pose proof (zb_range c). lia.
    + eapply all_bytes_impl; [|exact Ht]. intros z. unfold is_cont, in_range, is_control. lia.
Qed.

Lemma log_safe_fixed s : log_safe s -> String_ s = s.
Proof.
  intros (Hlen & l & -> & Hl). unfold String_. destruct (is_empty _); [done|].
  assert (Forall scalar l) as Hs by (eapply Forall_impl; [exact Hl|]; by intros ? []).
  assert (forall r, scalar r -> ~ clean_rune r -> ContainsRune (encode_all l) r = false) as Hno.
  { intros r Hr Hn. apply not_true_is_false. intros Hc%encode_contains_inv; [|done|done].
    rewrite Forall_forall in Hl. apply Hn, Hl. by to_elem_of. }
  unfold needsScrub. rewrite clean_bytes by done. rewrite !Hno.
  2-5: unfold scalar, clean_rune, lineSep, paraSep; lia.
  assert (ValidString (encode_all l) = true) as ->.
  { unfold ValidString. rewrite runes_encode_all by done. apply forallb_elem_of.
    intros [r n] (x & [= -> ->] & Hx)%list_elem_of_fmap.
    destruct (Z.eqb_spec x RuneError) as [->|]; reflexivity. }
  by apply Z.leb_le in Hlen as ->.
Qed.

(** Whatever bytes are given, [String] returns at most 256 bytes that are
    the UTF-8 text of code points none of which is a control character, DEL or
    one of the two Unicode line separators; and scrubbing its result again
    changes nothing. *)
Theorem String_scrubs s : log_safe (String_ s) /\ String_ (String_ s) = String_ s.
Proof. split; [apply String_safe|apply log_safe_fixed, String_safe]. Qed.

(** A DID attribute is either a valid DID or the sentinel, never a line
    break. *)
Lemma DID_no_control s : all_bytes (fun b => negb (is_control b)) (DID s) = true.
Proof.
  unfold DID. destruct (Did.IsValid s) eqn:H; [|done].
  apply Did.valid_did_bytes in H. eapply all_bytes_impl; [|exact H].
  intros b. unfold Did.is_quoting_byte, is_control. lia.
Qed.

Example String_newline : String_ ("a" +:+ String (chr 10) "b") = "a" +:+ replacement +:+ "b".
Proof. reflexivity. Qed.
