(* ===== verification/Json.v ===== *)
(** JSON values as [encoding/json] unmarshals them into [interface{}]: nil,
    bool, float64, string, slices and maps. *)
From S2P Require Import Prelude GoStrings.

Local Open Scope Z_scope.

(** A finite float64 (JSON has no infinities and no NaN): the dyadic number
    [mant * 2 ^ expo]. *)
Record num := Num { mant : Z; expo : Z }.

#[export] Instance num_eq_dec : EqDecision num.
Proof. solve_decision. Defined.

(** The integer a dyadic number denotes, when it denotes one. *)
Definition num_int (n : num) : option Z :=
  if 0 <=? expo n then Some (mant n * 2 ^ expo n)
  else if mant n mod 2 ^ (- expo n) =? 0 then Some (mant n / 2 ^ (- expo n))
  else None.

Inductive json : Type :=
| JNull
| JBool (b : bool)
| JNum (n : num)
| JStr (s : string)
| JArr (l : list json)
| JObj (m : gmap string json).

Abbreviation obj := (gmap string json).

Definition is_nil (v : json) : bool := match v with JNull => true | _ => false end.

(** Go's type assertions [v.(string)], [v.(map[string]interface{})] and
    [v.([]interface{})]. *)
Definition as_str (v : json) : option string :=
  match v with JStr s => Some s | _ => None end.
Definition as_obj (v : json) : option obj :=
  match v with JObj m => Some m | _ => None end.
Definition as_arr (v : json) : option (list json) :=
  match v with JArr l => Some l | _ => None end.

Lemma num_int_whole z : num_int (Num z 0) = Some z.
Proof. unfold num_int. cbn [mant expo]. rewrite Z.mul_1_r. done. Qed.
