(* ===== verification/Nsid.v ===== *)
(** [internal/lexicon/nsid.go]: namespaced identifiers, lexicon refs, and the
    names derived from them. The case tables of package [unicode] are a
    parameter, the class [UnicodeTables]; only their ASCII part is assumed. *)
From S2P Require Import Prelude GoStrings Utf8.

Local Open Scope Z_scope.

(** [unicode.IsLower], [unicode.IsDigit] and [unicode.ToUpper], with what their
    documentation says of ASCII. *)
Class UnicodeTables := {
  IsLower : Z -> bool;
  IsDigit : Z -> bool;
  ToUpper : Z -> Z;
  IsLower_ascii r : 0 <= r < 128 -> IsLower r = (97 <=? r) && (r <=? 122);
  IsDigit_ascii r : 0 <= r < 128 -> IsDigit r = (48 <=? r) && (r <=? 57);
  ToUpper_ascii r : 0 <= r < 128 ->
    ToUpper r = if (97 <=? r) && (r <=? 122) then r - 32 else r
}.

(** The ASCII tables. *)
#[local] Program Instance ascii_tables : UnicodeTables := {|
  IsLower r := (97 <=? r) && (r <=? 122);
  IsDigit r := (48 <=? r) && (r <=? 57);
  ToUpper r := if (97 <=? r) && (r <=? 122) then r - 32 else r
|}.
Solve All Obligations with done.

Section Names.
Context `{UnicodeTables}.

(** [string(runes)] of a rune slice. *)
Definition string_of_runes (l : list Z) : string :=
  foldr (fun r s => EncodeRune r +:+ s) "" l.

Definition capitalizeFirst (s : string) : string :=
  if is_empty s then s else
  match (runes s).*1 with
  | r :: l => string_of_runes (ToUpper r :: l)
  | [] => s
  end.

Definition ToTypeName (nsid : string) : string :=
  foldl (fun acc part => acc +:+ capitalizeFirst part) "" (split nsid ".").

Definition ToFieldName (nsid : string) : string :=
  match split nsid "." with
  | [] => nsid
  | p :: ps => foldl (fun acc part => acc +:+ capitalizeFirst part) p ps
  end.

Definition ToCollectionName (nsid : string) : string :=
  match List.rev (split nsid ".") with
  | [] => ""
  | p :: _ => p
  end.

Definition ToDomainParts (nsid : string) : list string :=
  let parts := split nsid "." in
  if Nat.leb (length parts) 1 then [] else take (length parts - 1) parts.

Definition valid_part (part : string) : bool :=
  negb (is_empty part) &&
  forallb (fun '(r, _) => IsLower r || IsDigit r || (r =? 45)) (runes part) &&
  negb (has_prefix part "-" || has_suffix part "-").

Definition IsValidNSID (nsid : string) : bool :=
  let parts := split nsid "." in
  if Nat.ltb (length parts) 3 then false else forallb valid_part parts.
End Names.

(** ** Refs *)

Definition IsLocalRef (ref : string) : bool := has_prefix ref "#".

(** [ParseRef]: the lexicon ID, the definition name, and whether the ref was
    non-empty. *)
Definition ParseRef (ref : string) : string * string * bool :=
  if is_empty ref then ("", "", false)
  else if has_prefix ref "#" then ("", trim_prefix ref "#", true)
  else match cut_at "#" ref with
       | None => (ref, "", true)
       | Some (a, b) => (a, b, true)
       end.

Definition IDFromRef (ref : string) : string := (ParseRef ref).1.1.
Definition DefNameFromRef (ref : string) : string := (ParseRef ref).1.2.

Definition ResolveLocalRef (ref lexiconID : string) : string :=
  if IsLocalRef ref then lexiconID +:+ ref else ref.

Definition MakeRef (lexiconID defName : string) : string :=
  if is_empty defName then lexiconID else lexiconID +:+ "#" +:+ defName.

(** ** Laws of refs *)

(** An ID without a hash sign. *)
Definition plain_id (id : string) : Prop :=
  id <> "" /\ all_bytes (fun z => negb (z =? 35)) id = true.

Lemma plain_id_not_local id s : plain_id id -> has_prefix (id +:+ s) "#" = false.
Proof.
  intros [Hne Hid]. destruct id as [|c id]; [done|]. cbn in Hid. split_bools.
  unfold has_prefix. rewrite app_cons_str, prefix_cons.
  destruct (Ascii.eqb_spec "#" c) as [<-|]; [by vm_compute in H|done].
Qed.

Lemma cut_at_None c s : all_bytes (fun z => negb (z =? zb c)) s = true -> cut_at c s = None.
Proof.
  induction s as [|d s IH]; cbn; [done|]. intros H. split_bools.
  destruct (Ascii.eqb_spec d c) as [->|]; [by rewrite Z.eqb_refl in *|]. by rewrite IH.
Qed.

Lemma ParseRef_MakeRef_lemma id name : plain_id id ->
  ParseRef (MakeRef id name) = (id, name, true).
Proof.
  intros Hid. unfold ParseRef, MakeRef. destruct (is_empty name) eqn:Hn.
  - destruct name; [|done]. pose proof (plain_id_not_local id "" Hid) as Hl.
    rewrite app_nil_r_str in Hl. rewrite Hl. destruct Hid as [Hne Hb].
    rewrite cut_at_None by done. by destruct id.
  - rewrite plain_id_not_local by done. change ("#" +:+ name) with (String "#" name).
    rewrite cut_at_first by apply Hid.
    destruct Hid as [Hne _]. by destruct id.
Qed.

(** Parsing a ref made from a lexicon ID (non-empty, without a hash sign)
    and a definition name gives both back; and making a ref from the parts of
    any ref that has an ID and a non-empty or absent name gives the ref
    back. *)
Theorem ref_roundtrip :
  (forall id name, plain_id id -> ParseRef (MakeRef id name) = (id, name, true)) /\
  (forall ref id name, ParseRef ref = (id, name, true) -> id <> "" ->
     ref <> id +:+ "#" -> MakeRef id name = ref).
Proof.
  split; [apply ParseRef_MakeRef_lemma|].
  intros ref id name. unfold ParseRef, MakeRef.
  destruct (is_empty ref) eqn:Hr; [done|].
  destruct (has_prefix ref "#") eqn:Hp; [intros; by simplify_eq|].
  destruct (cut_at "#" ref) as [[a b]|] eqn:Hc; intros Heq Hid Hne; simplify_eq; [|done].
  apply cut_at_Some in Hc as ->. destruct name; [|done]. done.
Qed.

Lemma ref_roundtrip_witness :
  plain_id "app.bsky.embed.images" /\
  ParseRef (MakeRef "app.bsky.embed.images" "image")
  = ("app.bsky.embed.images", "image", true).
Proof.
  split; [by split|]. apply ref_roundtrip. by split.
Defined.

(** [MakeRef] separates lexicons and names. *)
Lemma MakeRef_inj id name id' name' : plain_id id -> plain_id id' ->
  MakeRef id name = MakeRef id' name' -> id = id' /\ name = name'.
Proof.
  intros H1 H2 Heq. apply (f_equal ParseRef) in Heq.
  rewrite !ParseRef_MakeRef_lemma in Heq by done. by simplify_eq.
Qed.

(** Resolving is idempotent, and the result is local only for an empty lexicon
    ID or when the ID itself starts with a hash. *)
Lemma ResolveLocalRef_idem ref id : plain_id id ->
  ResolveLocalRef (ResolveLocalRef ref id) id = ResolveLocalRef ref id.
Proof.
  intros Hid. unfold ResolveLocalRef at 2 3. destruct (IsLocalRef ref) eqn:Hl.
  - unfold ResolveLocalRef, IsLocalRef. by rewrite plain_id_not_local.
  - unfold ResolveLocalRef. by rewrite Hl.
Qed.

Lemma ResolveLocalRef_make name id : name <> "" ->
  ResolveLocalRef ("#" +:+ name) id = MakeRef id name.
Proof. by destruct name. Qed.

(** ** Segments *)

Lemma split_ne_last s sep : exists l x, split s sep = l ++ [x].
Proof.
  pose proof (split_nonempty s sep) as Hne.
  destruct (split s sep) as [|p ps] using rev_ind; [done|]. by exists ps, p.
Qed.

(** The domain parts and the collection name of any string partition its
    dot-separated segments, so joining them with dots gives the string back. *)
Theorem domain_collection_partition nsid :
  ToDomainParts nsid ++ [ToCollectionName nsid] = split nsid "." /\
  join (ToDomainParts nsid ++ [ToCollectionName nsid]) "." = nsid.
Proof.
  assert (ToDomainParts nsid ++ [ToCollectionName nsid] = split nsid ".") as Heq.
  { unfold ToDomainParts, ToCollectionName.
    destruct (split_ne_last nsid ".") as (l & x & ->). rewrite rev_unit, length_app. cbn.
    rewrite Nat.add_sub. destruct (Nat.leb_spec (length l + 1) 1).
    - by destruct l; [|cbn in *; lia].
    - by rewrite take_app_length. }
  rewrite Heq. split; [done|]. by apply join_split.
Qed.

