(* ===== verification/Lexicon.v ===== *)
(** [internal/lexicon]: the lexicon data model of [types.go], the parser of
    [parser.go] and the registry of [registry.go]. Pointers that the code never
    compares and never writes through after construction are modelled by what
    they point to; the lazy property index is the lookup it caches. The
    registry's lock is held for the whole of each operation, so operations are
    atomic. *)
From S2P Require Import Prelude GoStrings Json Nsid.

(** ** Data ([types.go]) *)

Record ArrayItems := {
  ai_Type : string;
  ai_Ref : string;
  ai_Refs : list string
}.

Record Property := {
  Type_ : string;
  Required : bool;
  Format : string;
  Ref : string;
  Refs : list string;
  Items : option ArrayItems;
  Description : string;
  Default : option json;
  Minimum : option num;
  Maximum : option num;
  MinLength : option Z;
  MaxLength : option Z;
  MaxGraphemes : option Z;
  Enum : list string;
  Const : string;
  KnownValues : list string
}.

Record PropertyEntry := { Name : string; property : Property }.

Record RecordDef := {
  rd_Type : string;
  rd_Key : string;
  rd_Properties : list PropertyEntry
}.

Record ObjectDef := {
  od_Type : string;
  od_RequiredFields : list string;
  od_Properties : list PropertyEntry
}.

Record Def := {
  d_Type : string;
  d_Record : option RecordDef;
  d_Object : option ObjectDef
}.

Record Lexicon := {
  ID : string;
  Main : option RecordDef;
  Others : gmap string Def
}.

Definition IsRecord (d : Def) : bool :=
  String.eqb (d_Type d) "record" && bool_decide (is_Some (d_Record d)).
Definition IsObject (d : Def) : bool :=
  String.eqb (d_Type d) "object" && bool_decide (is_Some (d_Object d)).

(** [buildPropIndex] walks the properties in order and overwrites: the last
    entry of a name wins. *)
Definition buildPropIndex (props : list PropertyEntry) : gmap string Property :=
  foldl (fun m e => <[Name e := property e]> m) ∅ props.

Definition GetProperty (props : list PropertyEntry) (name : string) : option Property :=
  buildPropIndex props !! name.

Definition IsRequired (o : ObjectDef) (name : string) : bool :=
  existsb (fun req => String.eqb req name) (od_RequiredFields o).

Definition HasRef (p : Property) : bool :=
  negb (is_empty (Ref p)) || Nat.ltb 0 (length (Refs p)).
Definition IsUnion (p : Property) : bool :=
  String.eqb (Type_ p) "union" || Nat.ltb 0 (length (Refs p)).
Definition IsArray (p : Property) : bool := String.eqb (Type_ p) "array".
Definition GetRefs (p : Property) : list string :=
  if Nat.ltb 0 (length (Refs p)) then Refs p
  else if negb (is_empty (Ref p)) then [Ref p] else [].

Lemma GetRefs_HasRef p : HasRef p = true <-> GetRefs p <> [].
Proof. unfold HasRef, GetRefs. destruct (Refs p), (Ref p); naive_solver. Qed.

Lemma buildPropIndex_lookup props name :
  buildPropIndex props !! name =
  property <$> last (filter (fun e => Name e = name) props).
Proof.
  unfold buildPropIndex. induction props as [|e props IH] using rev_ind; [done|].
  rewrite foldl_app, filter_app. cbn [foldl]. rewrite filter_cons. cbn [filter list_filter].
  case_decide as He.
  - rewrite <-He, lookup_insert_eq, last_snoc. done.
  - rewrite lookup_insert_ne, IH, app_nil_r by done. done.
Qed.

(** ** The parser ([parser.go]) *)

Module Parser.

(** The raw structures that [json.Unmarshal] fills. A JSON object is the list
    of its members in the order in which Go's map iteration visits them. *)
Section Raw.
Context {Raw : Type}.

Record rawLexicon := {
  raw_ID : string;
  raw_Defs : list (string * Raw)
}.
Record rawRecordDef := {
  rr_Type : string;
  rr_Key : string;
  rr_Record : option Raw
}.
Record rawObjectDef := {
  ro_Type : string;
  ro_Required : list string;
  ro_Properties : list (string * Raw)
}.
Record rawProperty := {
  rp_prop : Property;          (* every field but Required and Items *)
  rp_Items : option Raw
}.
End Raw.
Arguments rawLexicon : clear implicits.
Arguments rawRecordDef : clear implicits.
Arguments rawObjectDef : clear implicits.
Arguments rawProperty : clear implicits.

Inductive parse_error :=
| MissingID
| JsonError (where_ : string)
| UnsupportedMain (typ : string)
| RecordObject (e : parse_error)
| InMain (e : parse_error)
| InDef (name : string) (e : parse_error)
| InProperty (name : string) (e : parse_error)
| InItems (e : parse_error).

Section Parse.
(** [json.RawMessage] and the unmarshalling of one into each raw structure are
    parameters. *)
Context {Raw : Type}.
Variable unmarshal_type : Raw -> option string.
Variable unmarshal_record : Raw -> option (rawRecordDef Raw).
Variable unmarshal_object : Raw -> option (rawObjectDef Raw).
Variable unmarshal_property : Raw -> option (rawProperty Raw).
Variable unmarshal_items : Raw -> option ArrayItems.

Definition decode {A} (where_ : string) (o : option A) : result parse_error A :=
  match o with Some a => Ok a | None => Err (JsonError where_) end.

Definition wrap {A} (f : parse_error -> parse_error) (r : result parse_error A)
  : result parse_error A :=
  match r with Ok a => Ok a | Err e => Err (f e) end.

Definition parseArrayItems (data : Raw) : result parse_error ArrayItems :=
  decode "items" (unmarshal_items data).

Definition with_items (p : Property) (i : option ArrayItems) (req : bool) : Property :=
  {| Type_ := Type_ p; Required := req; Format := Format p; Ref := Ref p;
     Refs := Refs p; Items := i; Description := Description p;
     Default := Default p; Minimum := Minimum p; Maximum := Maximum p;
     MinLength := MinLength p; MaxLength := MaxLength p;
     MaxGraphemes := MaxGraphemes p; Enum := Enum p; Const := Const p;
     KnownValues := KnownValues p |}.

Definition parseProperty (data : Raw) : result parse_error Property :=
  raw ← decode "property" (unmarshal_property data);
  match rp_Items raw with
  | None => Ok (with_items (rp_prop raw) None false)
  | Some items => i ← wrap InItems (parseArrayItems items);
                  Ok (with_items (rp_prop raw) (Some i) false)
  end.

(** One turn of the loop of [parseProperties]. *)
Definition parseEntry (required : list string) (e : string * Raw)
  : result parse_error PropertyEntry :=
  prop ← wrap (InProperty e.1) (parseProperty e.2);
  Ok {| Name := e.1;
        property := with_items prop (Items prop) (bool_decide (e.1 ∈ required)) |}.

Definition parseProperties (props : list (string * Raw)) (required : list string)
  : result parse_error (list PropertyEntry) :=
  result_mapM (parseEntry required) props.

Definition parseObjectDef (data : Raw) : result parse_error ObjectDef :=
  raw ← decode "object" (unmarshal_object data);
  props ← parseProperties (ro_Properties raw) (ro_Required raw);
  Ok {| od_Type := ro_Type raw; od_RequiredFields := ro_Required raw;
        od_Properties := props |}.

Definition parseObjectAsRecordDef (data : Raw) : result parse_error RecordDef :=
  raw ← decode "object" (unmarshal_object data);
  props ← parseProperties (ro_Properties raw) (ro_Required raw);
  Ok {| rd_Type := ro_Type raw; rd_Key := ""; rd_Properties := props |}.

Definition parseRecordDef (data : Raw) : result parse_error RecordDef :=
  raw ← decode "record" (unmarshal_record data);
  match rr_Record raw with
  | None => Ok {| rd_Type := rr_Type raw; rd_Key := rr_Key raw; rd_Properties := [] |}
  | Some inner =>
      innerObj ← wrap RecordObject (decode "record object" (unmarshal_object inner));
      props ← parseProperties (ro_Properties innerObj) (ro_Required innerObj);
      Ok {| rd_Type := rr_Type raw; rd_Key := rr_Key raw; rd_Properties := props |}
  end.

Definition parseMainDef (data : Raw) : result parse_error RecordDef :=
  t ← decode "main" (unmarshal_type data);
  if String.eqb t "record" then parseRecordDef data
  else if String.eqb t "object" then parseObjectAsRecordDef data
  else Err (UnsupportedMain t).

Definition parseDef (data : Raw) : result parse_error Def :=
  t ← decode "def" (unmarshal_type data);
  if String.eqb t "record" then
    rd ← parseRecordDef data;
    Ok {| d_Type := "record"; d_Record := Some rd; d_Object := None |}
  else if String.eqb t "object" then
    od ← parseObjectDef data;
    Ok {| d_Type := "object"; d_Record := None; d_Object := Some od |}
  else
    od ← parseObjectDef data;
    Ok {| d_Type := t; d_Record := None; d_Object := Some od |}.

(** The loop over the definitions, on the lexicon built so far. *)
Fixpoint convert_defs (defs : list (string * Raw)) (lex : Lexicon)
  : result parse_error Lexicon :=
  match defs with
  | [] => Ok lex
  | (name, data) :: rest =>
      if String.eqb name "main" then
        m ← wrap InMain (parseMainDef data);
        convert_defs rest {| ID := ID lex; Main := Some m; Others := Others lex |}
      else
        d ← wrap (InDef name) (parseDef data);
        convert_defs rest
          {| ID := ID lex; Main := Main lex; Others := <[name := d]> (Others lex) |}
  end.

Definition convertRawLexicon (raw : rawLexicon Raw) : result parse_error Lexicon :=
  if is_empty (raw_ID raw) then Err MissingID
  else convert_defs (raw_Defs raw) {| ID := raw_ID raw; Main := None; Others := ∅ |}.

Definition Parse (unmarshal_lexicon : string -> option (rawLexicon Raw))
    (jsonStr : string) : result parse_error Lexicon :=
  raw ← decode "lexicon" (unmarshal_lexicon jsonStr);
  convertRawLexicon raw.

(** ** Properties of the parser *)

(** Whether a member parses, and to what, does not depend on the others. *)
Definition parsed (e : string * Raw) : Prop :=
  if String.eqb e.1 "main" then is_ok (parseMainDef e.2) = true
  else is_ok (parseDef e.2) = true.

Lemma wrap_Ok {A} f (r : result parse_error A) a : wrap f r = Ok a <-> r = Ok a.
Proof. destruct r; cbn; naive_solver. Qed.

Lemma convert_defs_Ok defs : forall lex lex', NoDup defs.*1 ->
  convert_defs defs lex = Ok lex' ->
  ID lex' = ID lex /\
  (forall name data, (name, data) ∈ defs -> name <> "main" ->
     exists d, parseDef data = Ok d /\ Others lex' !! name = Some d) /\
  (forall name, name ∉ defs.*1 -> Others lex' !! name = Others lex !! name) /\
  (forall data, ("main", data) ∈ defs ->
     exists m, parseMainDef data = Ok m /\ Main lex' = Some m) /\
  ("main" ∉ defs.*1 -> Main lex' = Main lex) /\
  Others lex' !! "main" = Others lex !! "main".
Proof.
  induction defs as [|[n data] defs IH]; intros lex lex'; cbn [fmap list_fmap fst];
    [intros _ [= <-]; set_solver|].
  intros [Hn Hnd]%NoDup_cons. cbn [convert_defs].
  destruct (String.eqb_spec n "main") as [->|Hne];
    intros (x & Hx%wrap_Ok & Hrest)%bind_Ok;
    destruct (IH _ _ Hnd Hrest) as (H1 & H2 & H3 & H4 & H5 & H6); cbn in *.
  - repeat split; auto.
    + intros name data' [Heq|Hin]%elem_of_cons Hnm; [congruence|eauto].
    + set_solver.
    + intros data' [Heq|Hin]%elem_of_cons; [simplify_eq; eauto|].
      apply (list_elem_of_fmap_2 fst) in Hin. done.
    + set_solver.
  - repeat split; auto.
    + intros name data' [Heq|Hin]%elem_of_cons Hnm; [|eauto].
      simplify_eq. exists x. split; [done|]. rewrite H3 by done. by rewrite lookup_insert_eq.
    + intros name Hnm. rewrite H3 by set_solver. rewrite lookup_insert_ne; set_solver.
    + intros data' [Heq|Hin]%elem_of_cons; [congruence|eauto].
    + intros Hm. apply H5. set_solver.
    + rewrite H6. by rewrite lookup_insert_ne.
Qed.

Lemma convert_defs_ok_iff defs : forall lex,
  is_ok (convert_defs defs lex) = true <-> Forall parsed defs.
Proof.
  induction defs as [|[n data] defs IH]; intros lex; [by split|].
  rewrite Forall_cons. unfold parsed at 1. cbn [convert_defs fst snd].
  destruct (String.eqb n "main").
  - destruct (parseMainDef data); cbn; [rewrite IH; naive_solver|naive_solver].
  - destruct (parseDef data); cbn; [rewrite IH; naive_solver|naive_solver].
Qed.

(** A definition the parser stored is found by [IsObject]/[IsRecord] only when
    its declared type is exactly object or record. *)
Lemma parseDef_kind data d : parseDef data = Ok d ->
  unmarshal_type data = Some (d_Type d) /\
  (IsObject d = true <-> d_Type d = "object") /\
  (IsRecord d = true <-> d_Type d = "record").
Proof.
  unfold parseDef, decode. destruct (unmarshal_type data) as [t|]; [|done].
  cbn [mbind result_bind]. unfold IsObject, IsRecord.
  destruct (String.eqb_spec t "record") as [->|Hr];
    [|destruct (String.eqb_spec t "object") as [->|Ho]];
    intros (x & _ & [= <-])%bind_Ok; cbn; repeat split; try done.
  all: try (by intros; congruence).
  all: intros H; try (apply andb_true_iff in H as [H _]; by apply String.eqb_eq in H).
  all: congruence.
Qed.

(** The outcome of parsing a lexicon document does not depend on the order
    in which Go visits the members of its defs object: for two orders of the
    same members (names distinct, as JSON object keys are), either both fail or
    both give the same ID, main definition and map of other definitions. *)
Theorem parse_order_independent id defs1 defs2 :
  NoDup defs1.*1 -> defs1 ≡ₚ defs2 ->
  let r1 := convertRawLexicon {| raw_ID := id; raw_Defs := defs1 |} in
  let r2 := convertRawLexicon {| raw_ID := id; raw_Defs := defs2 |} in
  (is_ok r1 = false /\ is_ok r2 = false) \/ (exists lex, r1 = Ok lex /\ r2 = Ok lex).
Proof.
  intros Hnd Hp. cbn zeta. unfold convertRawLexicon. cbn [raw_ID raw_Defs].
  destruct (is_empty id); [by left|].
  set (lex0 := {| ID := id; Main := None; Others := ∅ |}).
  pose proof (convert_defs_ok_iff defs1 lex0) as Ho1.
  pose proof (convert_defs_ok_iff defs2 lex0) as Ho2.
  assert (Forall parsed defs1 <-> Forall parsed defs2) as Hf by (by rewrite Hp).
  rewrite <-Hf in Ho2.
  destruct (convert_defs defs1 lex0) as [l1|] eqn:E1,
    (convert_defs defs2 lex0) as [l2|] eqn:E2; cbn in *.
  2: by assert (false = true) by (by apply Ho2, Ho1).
  2: by assert (false = true) by (by apply Ho1, Ho2).
  2: by left.
  right. exists l1. split; [done|]. f_equal.
  assert (NoDup defs2.*1) as Hnd2 by (by rewrite <-Hp).
  destruct (convert_defs_Ok _ _ _ Hnd E1) as (A1 & A2 & A3 & A4 & A5 & A6).
  destruct (convert_defs_Ok _ _ _ Hnd2 E2) as (B1 & B2 & B3 & B4 & B5 & B6).
  destruct l1 as [i1 m1 o1], l2 as [i2 m2 o2]; cbn in *. subst.
  assert (o1 = o2) as ->.
  { apply map_eq. intros k. destruct (decide (k ∈ defs1.*1)) as [Hk|Hk].
    - apply list_elem_of_fmap in Hk as ([k' data] & -> & Hin). cbn.
      destruct (decide (k' = "main")) as [->|Hm]; [by rewrite A6, B6|].
      destruct (A2 _ _ Hin Hm) as (d & Hd & ->). rewrite Hp in Hin.
      destruct (B2 _ _ Hin Hm) as (d' & Hd' & ->). congruence.
    - rewrite A3, B3 by (by rewrite <-?Hp). done. }
  f_equal. destruct (decide ("main" ∈ defs1.*1)) as [Hk|Hk].
  - apply list_elem_of_fmap in Hk as ([k' data] & Heq & Hin). cbn in Heq. subst k'.
    destruct (A4 _ Hin) as (d & Hd & ->). rewrite Hp in Hin.
    destruct (B4 _ Hin) as (d' & Hd' & ->). congruence.
  - rewrite A5, B5 by (by rewrite <-?Hp). done.
Qed.

(** Each property keeps its name, and is required exactly when the schema's
    required list names it. *)
Lemma parseProperties_required props required l : parseProperties props required = Ok l ->
  Name <$> l = props.*1 /\
  Forall (fun e => Required (property e) = bool_decide (Name e ∈ required)) l.
Proof.
  unfold parseProperties. rewrite result_mapM_Ok. induction 1 as [|[n d] e props l He _ [IH1 IH2]];
    [by split|].
  apply bind_Ok in He as (p & _ & [= <-]). cbn. split; [by f_equal|by constructor].
Qed.
End Parse.

(** A two-member document given through concrete decoders: the definition
    body is its own type. *)
Definition toy_object (t : string) : option (rawObjectDef string) :=
  Some {| ro_Type := t; ro_Required := []; ro_Properties := [] |}.
Definition toy_record (t : string) : option (rawRecordDef string) :=
  Some {| rr_Type := t; rr_Key := "tid"; rr_Record := None |}.

Lemma parse_order_independent_witness :
  let conv d := convertRawLexicon Some toy_record toy_object (fun _ => None) (fun _ => None)
                  {| raw_ID := "a.b.c"; raw_Defs := d |} in
  let d1 := [("main", "record"); ("image", "object")] in
  let d2 := [("image", "object"); ("main", "record")] in
  NoDup d1.*1 /\ d1 ≡ₚ d2 /\
  ((is_ok (conv d1) = false /\ is_ok (conv d2) = false) \/
   (exists lex, conv d1 = Ok lex /\ conv d2 = Ok lex)).
Proof.
  cbn zeta. split; [by apply NoDup_compute|]. split; [by constructor|].
  apply parse_order_independent; [by apply NoDup_compute|by constructor].
Defined.
End Parser.
