(* ===== verification/Registry.v ===== *)
(** [internal/lexicon/registry.go]: the registry of loaded lexicons and its
    cross-reference lookups. *)
From S2P Require Import Prelude GoStrings Json Nsid Lexicon.

Record Registry := {
  lexicons : gmap string Lexicon;
  objectDefs : gmap string ObjectDef;
  recordDefs : gmap string RecordDef
}.

Definition NewRegistry : Registry :=
  {| lexicons := ∅; objectDefs := ∅; recordDefs := ∅ |}.

(** The object and the record a definition contributes. *)
Definition object_of (d : Def) : option ObjectDef := if IsObject d then d_Object d else None.
Definition record_of (d : Def) : option RecordDef := if IsRecord d then d_Record d else None.

(** One turn of the loop over [lexicon.Defs.Others]. *)
Definition index_def (id : string) (r : Registry) (e : string * Def) : Registry :=
  let ref := MakeRef id e.1 in
  match object_of e.2 with
  | Some o => {| lexicons := lexicons r; objectDefs := <[ref := o]> (objectDefs r);
                 recordDefs := recordDefs r |}
  | None => match record_of e.2 with
            | Some rd => {| lexicons := lexicons r; objectDefs := objectDefs r;
                            recordDefs := <[ref := rd]> (recordDefs r) |}
            | None => r
            end
  end.

(** The main definition: always a record definition, and an object definition
    too when its type is object. *)
Definition index_main (id : string) (r : Registry) (m : option RecordDef) : Registry :=
  match m with
  | None => r
  | Some rd =>
      {| lexicons := lexicons r;
         objectDefs :=
           if String.eqb (rd_Type rd) "object" then
             <[id := {| od_Type := rd_Type rd; od_RequiredFields := [];
                        od_Properties := rd_Properties rd |}]> (objectDefs r)
           else objectDefs r;
         recordDefs := <[id := rd]> (recordDefs r) |}
  end.

(** [Register] with the order in which the other definitions are visited. *)
Definition register_in (others : list (string * Def)) (r : Registry) (lex : Lexicon)
  : Registry :=
  foldl (index_def (ID lex))
    (index_main (ID lex)
       {| lexicons := <[ID lex := lex]> (lexicons r);
          objectDefs := objectDefs r; recordDefs := recordDefs r |} (Main lex))
    others.

Definition Register (r : Registry) (lex : Lexicon) : Registry :=
  register_in (map_to_list (Others lex)) r lex.

Definition NewRegistryFromLexicons (l : list Lexicon) : Registry :=
  foldl Register NewRegistry l.

Definition Unregister (r : Registry) (lexiconID : string) : Registry :=
  match lexicons r !! lexiconID with
  | None => r
  | Some lex =>
      let refs := MakeRef lexiconID <$> (map_to_list (Others lex)).*1 in
      {| lexicons := delete lexiconID (lexicons r);
         objectDefs := foldl (fun m ref => delete ref m) (delete lexiconID (objectDefs r)) refs;
         recordDefs := foldl (fun m ref => delete ref m) (delete lexiconID (recordDefs r)) refs |}
  end.

Definition GetLexicon (r : Registry) (id : string) : option Lexicon := lexicons r !! id.
Definition GetObjectDef (r : Registry) (ref : string) : option ObjectDef := objectDefs r !! ref.
Definition GetRecordDef (r : Registry) (id : string) : option RecordDef := recordDefs r !! id.

(** What a ref resolves to: [any] in the code, always one of these two. *)
Inductive resolved :=
| ResObject (o : ObjectDef)
| ResRecord (rd : RecordDef).

Definition ResolveRef (r : Registry) (ref contextLexiconID : string) : option resolved :=
  let resolvedRef := ResolveLocalRef ref contextLexiconID in
  match GetObjectDef r resolvedRef with
  | Some o => Some (ResObject o)
  | None => ResRecord <$> GetRecordDef r resolvedRef
  end.

Definition Count (r : Registry) : nat := size (lexicons r).
Definition GetAllLexiconIDs (r : Registry) : list string := (map_to_list (lexicons r)).*1.
Definition GetAllObjectRefs (r : Registry) : list string := (map_to_list (objectDefs r)).*1.
Definition GetAllRecordRefs (r : Registry) : list string := (map_to_list (recordDefs r)).*1.
Definition GetAllLexicons (r : Registry) : list Lexicon := (map_to_list (lexicons r)).*2.

Definition GetCollectionLexicons (r : Registry) : list Lexicon :=
  List.filter (fun lex => match Main lex with
                          | Some m => String.eqb (rd_Type m) "record"
                          | None => false
                          end) (GetAllLexicons r).

Definition GetDefsLexicons (r : Registry) : list Lexicon :=
  List.filter (fun lex => match Main lex with
                          | None => Nat.ltb 0 (size (Others lex))
                          | Some _ => false
                          end) (GetAllLexicons r).

Definition ParseAndRegister (parse : string -> result (Parser.parse_error) Lexicon)
    (r : Registry) (jsonStr : string)
  : Registry * result Parser.parse_error Lexicon :=
  match parse jsonStr with
  | Err e => (r, Err e)
  | Ok lex => (Register r lex, Ok lex)
  end.

(** ** Indexing *)

Lemma MakeRef_name_inj id n n' : MakeRef id n = MakeRef id n' -> n = n'.
Proof.
  intros H. pose proof (f_equal glen H) as Hl. revert H Hl. unfold MakeRef.
  destruct n as [|c n], n' as [|c' n']; cbn [is_empty]; intros H Hl; try done.
  - exfalso. rewrite !glen_app in Hl. unfold glen in Hl. cbn in Hl. lia.
  - exfalso. rewrite !glen_app in Hl. unfold glen in Hl. cbn in Hl. lia.
  - apply (inj _) in H. by apply (inj _) in H.
Qed.

Lemma record_of_object d o : object_of d = Some o -> record_of d = None.
Proof.
  unfold object_of, record_of, IsObject, IsRecord. intros H.
  destruct (String.eqb_spec (d_Type d) "object") as [->|]; [done|done].
Qed.

Section Index.
Context (id : string).

Lemma index_def_lexicons r e : lexicons (index_def id r e) = lexicons r.
Proof. unfold index_def. by repeat case_match. Qed.

Lemma index_def_objects r e k : objectDefs (index_def id r e) !! k =
  if decide (k = MakeRef id e.1) then
    match object_of e.2 with Some o => Some o | None => objectDefs r !! k end
  else objectDefs r !! k.
Proof.
  unfold index_def. case_decide as Hk; repeat case_match; cbn; try done; subst.
  - by rewrite lookup_insert_eq.
  - by rewrite lookup_insert_ne.
Qed.

Lemma index_def_records r e k : recordDefs (index_def id r e) !! k =
  if decide (k = MakeRef id e.1) then
    match record_of e.2 with Some o => Some o | None => recordDefs r !! k end
  else recordDefs r !! k.
Proof.
  unfold index_def. case_decide as Hk; repeat case_match; cbn; try done; subst.
  all: try (by rewrite lookup_insert_eq). all: try (by rewrite lookup_insert_ne).
  all: exfalso; match goal with H : object_of _ = Some _ |- _ => apply record_of_object in H end;
    congruence.
Qed.

(** The definition list [l] contributes [f d] under [MakeRef id n]. *)
Definition contributes {A} (f : Def -> option A) (l : list (string * Def)) (k : string) (a : A)
  : Prop := exists n d, (n, d) ∈ l /\ f d = Some a /\ k = MakeRef id n.

Lemma fold_index_lexicons l r : lexicons (foldl (index_def id) r l) = lexicons r.
Proof. revert r. induction l as [|e l IH]; intros r; cbn; [done|]. by rewrite IH, index_def_lexicons. Qed.

(** Both indexes are folds of the same shape; [get] selects one. *)
Section Fold.
Context {A : Type} (get : Registry -> gmap string A) (f : Def -> option A).
Hypothesis get_step : forall r e k, get (index_def id r e) !! k =
  if decide (k = MakeRef id e.1) then
    match f e.2 with Some o => Some o | None => get r !! k end
  else get r !! k.

Lemma fold_index_hit l : forall r k a, NoDup l.*1 -> contributes f l k a ->
  get (foldl (index_def id) r l) !! k = Some a.
Proof.
  induction l as [|[n d] l IH] using rev_ind; intros r k a Hnd (n' & d' & Hin & Hf & ->);
    [by apply not_elem_of_nil in Hin|].
  rewrite fmap_app in Hnd. apply NoDup_app in Hnd as (Hnd & Hdis & _).
  rewrite foldl_app. cbn [foldl]. rewrite get_step. cbn [fst snd].
  apply elem_of_app in Hin as [Hin|Hin%list_elem_of_singleton].
  - rewrite decide_False; [apply IH; [done|by exists n', d']|].
    intros ->%MakeRef_name_inj. apply (list_elem_of_fmap_2 fst) in Hin. cbn in Hin.
    set_solver.
  - simplify_eq. rewrite decide_True by done. by rewrite Hf.
Qed.

Lemma fold_index_miss l : forall r k, (forall a, ~ contributes f l k a) ->
  get (foldl (index_def id) r l) !! k = get r !! k.
Proof.
  induction l as [|[n d] l IH] using rev_ind; intros r k Hno; [done|].
  rewrite foldl_app. cbn [foldl]. rewrite get_step. cbn [fst snd].
  rewrite IH by (intros a (n' & d' & Hin & Hf & Hk); apply (Hno a); exists n', d'; set_solver).
  case_decide as Hk; [|done]. destruct (f d) as [a|] eqn:Hd; [|done].
  exfalso. apply (Hno a). exists n, d. set_solver.
Qed.
End Fold.
End Index.

(** ** What registering and unregistering change *)

Lemma names_NoDup (m : gmap string Def) : NoDup (map_to_list m).*1.
Proof. apply NoDup_fst_map_to_list. Qed.

(** Keys that a lexicon may own: its ID and its ID with a definition name. *)
Definition owned_key (lex : Lexicon) (k : string) : Prop :=
  k = ID lex \/ exists n, n ∈ dom (Others lex) /\ k = MakeRef (ID lex) n.

Lemma contributes_owned {A} (f : Def -> option A) lex l k a :
  l ≡ₚ map_to_list (Others lex) -> contributes (ID lex) f l k a -> owned_key lex k.
Proof.
  intros Hp (n & d & Hin & _ & ->). right. exists n. split; [|done].
  rewrite Hp in Hin. apply elem_of_map_to_list in Hin. by apply elem_of_dom_2 in Hin.
Qed.

Lemma contributes_dec {A} id (f : Def -> option A) l k :
  (exists a, contributes id f l k a) \/ (forall a, ~ contributes id f l k a).
Proof.
  destruct (decide (Exists (fun e => is_Some (f e.2) /\ k = MakeRef id e.1) l)) as [He|He].
  - left. apply Exists_exists in He as ([n d] & Hin & [a Ha] & ->). by exists a, n, d.
  - right. intros a (n & d & Hin & Hf & Hk). apply He, Exists_exists.
    exists (n, d). cbn. eauto.
Qed.

Section Lookup.
Context (r : Registry) (lex : Lexicon) (l : list (string * Def)).
Hypothesis Hl : l ≡ₚ map_to_list (Others lex).

Lemma order_NoDup : NoDup l.*1.
Proof. rewrite Hl. apply names_NoDup. Qed.

Lemma register_in_lexicons : lexicons (register_in l r lex) = <[ID lex := lex]> (lexicons r).
Proof. unfold register_in. rewrite fold_index_lexicons. by destruct (Main lex). Qed.

Lemma register_in_object_hit k o : contributes (ID lex) object_of l k o ->
  objectDefs (register_in l r lex) !! k = Some o.
Proof. apply (fold_index_hit _ _ _ (index_def_objects (ID lex))), order_NoDup. Qed.

Lemma register_in_record_hit k o : contributes (ID lex) record_of l k o ->
  recordDefs (register_in l r lex) !! k = Some o.
Proof. apply (fold_index_hit _ _ _ (index_def_records (ID lex))), order_NoDup. Qed.

Lemma register_in_frame k : ~ owned_key lex k ->
  objectDefs (register_in l r lex) !! k = objectDefs r !! k /\
  recordDefs (register_in l r lex) !! k = recordDefs r !! k.
Proof.
  intros Hk. unfold register_in.
  rewrite (fold_index_miss _ _ _ (index_def_objects (ID lex))), (fold_index_miss _ _ _ (index_def_records (ID lex))).
  2-3: by intros a Hc; eapply Hk, contributes_owned.
  assert (ID lex <> k) by (intros <-; apply Hk; by left).
  destruct (Main lex) as [m|]; cbn; [|done].
  split; [case_match|]; by rewrite ?lookup_insert_ne.
Qed.
End Lookup.

(** The visiting order of the other definitions does not matter. *)
Lemma register_in_order r lex l : l ≡ₚ map_to_list (Others lex) ->
  register_in l r lex = Register r lex.
Proof.
  intros Hp. unfold Register.
  set (l' := map_to_list (Others lex)) in *.
  assert (forall A (f : Def -> option A) k a,
    contributes (ID lex) f l k a <-> contributes (ID lex) f l' k a) as Hc.
  { intros. unfold contributes. by setoid_rewrite Hp. }
  pose proof (register_in_lexicons r lex l) as L1.
  pose proof (register_in_lexicons r lex l') as L2.
  assert (objectDefs (register_in l r lex) = objectDefs (register_in l' r lex)) as HO.
  { apply map_eq. intros k. destruct (contributes_dec (ID lex) object_of l k) as [[a Ha]|Ha].
    - rewrite (register_in_object_hit r lex l Hp k a Ha). symmetry.
      apply register_in_object_hit; [done|by apply Hc].
    - unfold register_in. rewrite !(fold_index_miss _ _ _ (index_def_objects (ID lex)));
        [done|intros a; rewrite <-Hc; apply Ha|done]. }
  assert (recordDefs (register_in l r lex) = recordDefs (register_in l' r lex)) as HR.
  { apply map_eq. intros k. destruct (contributes_dec (ID lex) record_of l k) as [[a Ha]|Ha].
    - rewrite (register_in_record_hit r lex l Hp k a Ha). symmetry.
      apply register_in_record_hit; [done|by apply Hc].
    - unfold register_in. rewrite !(fold_index_miss _ _ _ (index_def_records (ID lex)));
        [done|intros a; rewrite <-Hc; apply Ha|done]. }
  destruct (register_in l r lex), (register_in l' r lex). cbn in *. congruence.
Qed.

Lemma delete_fold_lookup {A} (refs : list string) : forall (m : gmap string A) k,
  foldl (fun m ref => delete ref m) m refs !! k =
  if decide (k ∈ refs) then None else m !! k.
Proof.
  induction refs as [|x refs IH]; intros m k; cbn; [done|]. rewrite IH.
  destruct (decide (k = x)) as [->|Hne].
  - rewrite lookup_delete_eq. repeat case_decide; set_solver.
  - rewrite lookup_delete_ne by done. repeat case_decide; set_solver.
Qed.

Lemma owned_refs lex k :
  k = ID lex \/ k ∈ MakeRef (ID lex) <$> (map_to_list (Others lex)).*1 <-> owned_key lex k.
Proof.
  unfold owned_key. rewrite list_elem_of_fmap. split; intros [->|(n & H1 & H2)]; auto; right.
  - exists n. split; [|done]. apply list_elem_of_fmap in H2 as ([n' d] & -> & Hin).
    apply elem_of_map_to_list in Hin. by apply elem_of_dom_2 in Hin.
  - exists n. split; [done|]. apply elem_of_dom in H1 as [d Hd].
    apply list_elem_of_fmap. exists (n, d). split; [done|]. by apply elem_of_map_to_list.
Qed.

Lemma Unregister_lookup r id lex : lexicons r !! id = Some lex -> ID lex = id -> forall k,
  objectDefs (Unregister r id) !! k = (if decide (k = id \/ k ∈ MakeRef id <$> (map_to_list (Others lex)).*1) then None else objectDefs r !! k) /\
  recordDefs (Unregister r id) !! k = (if decide (k = id \/ k ∈ MakeRef id <$> (map_to_list (Others lex)).*1) then None else recordDefs r !! k).
Proof.
  intros Hlex Hid k. unfold Unregister. rewrite Hlex. cbn [objectDefs recordDefs].
  rewrite !delete_fold_lookup.
  destruct (decide (k = id)) as [->|Hne].
  - rewrite !lookup_delete_eq. repeat case_decide; naive_solver.
  - rewrite !lookup_delete_ne by done. repeat case_decide; naive_solver.
Qed.

(** Registering a lexicon whose ID is new and whose keys are free, and then
    unregistering that ID, restores the registry exactly. *)
Theorem register_unregister r lex :
  lexicons r !! ID lex = None ->
  (forall k, owned_key lex k -> objectDefs r !! k = None /\ recordDefs r !! k = None) ->
  Unregister (Register r lex) (ID lex) = r.
Proof.
  intros Hnew Hfree. set (r' := Register r lex).
  assert (lexicons r' = <[ID lex := lex]> (lexicons r)) as HL by apply register_in_lexicons.
  assert (lexicons r' !! ID lex = Some lex) as Hlex by (by rewrite HL, lookup_insert_eq).
  assert (lexicons (Unregister r' (ID lex)) = lexicons r) as H1.
  { unfold Unregister. rewrite Hlex. cbn [lexicons]. rewrite HL.
    rewrite delete_insert_eq. by apply delete_id. }
  assert (forall k, objectDefs (Unregister r' (ID lex)) !! k = objectDefs r !! k /\
                    recordDefs (Unregister r' (ID lex)) !! k = recordDefs r !! k) as H2.
  { intros k. destruct (Unregister_lookup r' (ID lex) lex Hlex eq_refl k) as [-> ->].
    case_decide as Hk.
    - apply owned_refs, Hfree in Hk as [-> ->]. done.
    - apply register_in_frame; [done|]. by rewrite <-owned_refs. }
  destruct (Unregister r' (ID lex)) as [a b c], r as [a' b' c']. cbn in *. subst.
  f_equal; apply map_eq; intros k; apply H2.
Qed.

(** After a lexicon is registered, its document is found under its ID, each
    of its object definitions resolves through a local ref from inside the
    lexicon, and no ref outside its keys resolves differently from before. *)
Theorem register_resolves r lex :
  let r' := Register r lex in
  GetLexicon r' (ID lex) = Some lex /\
  (forall n d o, Others lex !! n = Some d -> n <> "" -> object_of d = Some o ->
     ResolveRef r' ("#" +:+ n) (ID lex) = Some (ResObject o)) /\
  (forall ref ctx, ~ owned_key lex (ResolveLocalRef ref ctx) ->
     ResolveRef r' ref ctx = ResolveRef r ref ctx).
Proof.
  cbn zeta. split; [|split].
  - unfold GetLexicon, Register. by rewrite register_in_lexicons, lookup_insert_eq.
  - intros n d o Hn Hne Ho. unfold ResolveRef, GetObjectDef.
    rewrite ResolveLocalRef_make by done. unfold Register.
    rewrite (register_in_object_hit r lex _ ltac:(done) _ o); [done|].
    exists n, d. repeat split; [|done]. by apply elem_of_map_to_list.
  - intros ref ctx Hk. unfold ResolveRef, GetObjectDef, GetRecordDef, Register.
    by destruct (register_in_frame r lex _ ltac:(done) _ Hk) as [-> ->].
Qed.

(** ** Ownership *)

(** Every indexed key belongs to a registered lexicon, and lexicons are stored
    under their own ID. *)
Definition registry_inv (r : Registry) : Prop :=
  (forall id lex, lexicons r !! id = Some lex -> ID lex = id) /\
  (forall k, is_Some (objectDefs r !! k) \/ is_Some (recordDefs r !! k) ->
     exists id lex, lexicons r !! id = Some lex /\ owned_key lex k).

Lemma registry_inv_new : registry_inv NewRegistry.
Proof.
  unfold registry_inv, NewRegistry. cbn [lexicons objectDefs recordDefs].
  setoid_rewrite lookup_empty. split; [done|]. by intros k [[]|[]].
Qed.

Lemma registry_inv_register r lex : registry_inv r -> lexicons r !! ID lex = None ->
  registry_inv (Register r lex).
Proof.
  intros [Hid Hown] Hnew. unfold Register. split.
  - intros id lx. rewrite register_in_lexicons, lookup_insert_Some. naive_solver.
  - intros k Hk. rewrite register_in_lexicons.
    destruct (decide (k = ID lex \/ k ∈ MakeRef (ID lex) <$> (map_to_list (Others lex)).*1))
      as [Ho%owned_refs|Ho].
    + exists (ID lex), lex. by rewrite lookup_insert_eq.
    + rewrite owned_refs in Ho.
      destruct (register_in_frame r lex _ ltac:(done) k Ho) as [E1 E2].
      rewrite E1, E2 in Hk. destruct (Hown k Hk) as (id & lx & Hlx & Hokx).
      exists id, lx. split; [|done]. rewrite lookup_insert_ne; [done|congruence].
Qed.

Lemma registry_inv_unregister r id : registry_inv r -> registry_inv (Unregister r id).
Proof.
  intros Hinv. destruct (lexicons r !! id) as [lex|] eqn:Hlex;
    [|unfold Unregister; by rewrite Hlex].
  destruct Hinv as [Hid Hown]. pose proof (Hid _ _ Hlex) as Hidl.
  assert (lexicons (Unregister r id) = delete id (lexicons r)) as HL
    by (unfold Unregister; by rewrite Hlex).
  split; rewrite HL.
  - intros i lx [_ H]%lookup_delete_Some. by apply Hid.
  - intros k Hk. destruct (Unregister_lookup r id lex Hlex Hidl k) as [E1 E2].
    rewrite E1, E2 in Hk. case_decide as Hd; [by destruct Hk as [[]|[]]|].
    destruct (Hown k Hk) as (i & lx & Hlx & Ho). exists i, lx. split; [|done].
    rewrite lookup_delete_ne; [done|]. intros <-. simplify_eq.
    by apply Hd, owned_refs.
Qed.

(** In a registry built from lexicons with distinct IDs, and after any
    sequence of unregistrations, every indexed definition belongs to a lexicon
    that is still registered: none is left behind. *)
Theorem registry_owned lexs gone :
  NoDup (ID <$> lexs) ->
  registry_inv (foldl Unregister (NewRegistryFromLexicons lexs) gone).
Proof.
  intros Hnd.
  assert (registry_inv (NewRegistryFromLexicons lexs) /\
          forall id, is_Some (lexicons (NewRegistryFromLexicons lexs) !! id) -> id ∈ ID <$> lexs)
    as [Hinv _].
  { unfold NewRegistryFromLexicons. induction lexs as [|lex lexs IH] using rev_ind.
    - split; [apply registry_inv_new|]. intros id. cbn. rewrite lookup_empty. by intros [].
    - rewrite fmap_app in Hnd. apply NoDup_app in Hnd as (Hnd & Hdis & _).
      destruct (IH Hnd) as [IH1 IH2]. rewrite foldl_app. cbn [foldl]. split.
      + apply registry_inv_register; [done|].
        destruct (lexicons _ !! ID lex) eqn:E; [|done].
        exfalso. eapply Hdis; [by apply IH2|]. cbn. set_solver.
      + intros id. unfold Register. rewrite register_in_lexicons, fmap_app, elem_of_app.
        rewrite lookup_insert. case_decide; [intros _; right; cbn; set_solver|].
        intros. left. by apply IH2. }
  revert Hinv. generalize (NewRegistryFromLexicons lexs).
  induction gone as [|id gone IH]; intros r Hr; cbn; [done|].
  by apply IH, registry_inv_unregister.
Qed.

(** ** Concrete registries *)

Definition sample_def (t : string) : Def :=
  {| d_Type := t; d_Record := None;
     d_Object := Some {| od_Type := t; od_RequiredFields := []; od_Properties := [] |} |}.

Definition sample_lexicon : Lexicon :=
  {| ID := "app.bsky.embed.images"; Main := None;
     Others := {["image" := sample_def "object"]} |}.

Lemma register_unregister_witness :
  Unregister (Register NewRegistry sample_lexicon) "app.bsky.embed.images" = NewRegistry.
Proof.
  apply (register_unregister NewRegistry sample_lexicon); [reflexivity|].
  intros k _. split; reflexivity.
Defined.

Lemma registry_owned_witness :
  NoDup (ID <$> [sample_lexicon]) /\
  registry_inv (foldl Unregister (NewRegistryFromLexicons [sample_lexicon]) ["x.y.z"]).
Proof. split; [|apply registry_owned]; by apply NoDup_compute. Defined.

(** A definition whose type is neither object nor record (a token, a string, a
    union) is parsed into an object, but no ref resolves to it. *)
Example token_def_unresolved :
  let lex := {| ID := "a.b.defs"; Main := None; Others := {["tok" := sample_def "token"]} |} in
  ResolveRef (Register NewRegistry lex) "#tok" "a.b.defs" = None.
Proof. reflexivity. Qed.

(** Registering a second document under an ID already present keeps the
    definitions only the first one had: ownership needs distinct IDs. *)
Example reregister_keeps_old :
  let lex2 := {| ID := "app.bsky.embed.images"; Main := None; Others := ∅ |} in
  is_Some (GetObjectDef (Unregister (Register (Register NewRegistry sample_lexicon) lex2)
                           "app.bsky.embed.images") "app.bsky.embed.images#image").
Proof. by eexists. Qed.
