(* ===== verification/Validator.v ===== *)
(** [internal/lexicon/validator.go]: ingestion-time validation ([Validate]) and
    query-time sanitization ([SanitizeRecord]) of records against a lexicon.
    A Go panic is the error [Panic]. Maps and slices decoded from one JSON
    document share nothing, so in-place updates are returned as new values:
    [sanitizeObject] gives the updated map together with whether its result is
    the map (true) or nil (false). *)
From S2P Require Import Prelude GoStrings Utf8 AtProto Json Nsid Lexicon Registry.

Local Open Scope Z_scope.

(** What the code uses of other packages: the quoting of fmt's verb %q, date
    parsing, URL parsing, grapheme segmentation (rivo/uniseg), and whether the
    platform's float-to-integer conversion of 2^63 saturates. *)
Class ValidatorLib := {
  quote : string -> string;
  rfc3339_ok : string -> bool;          (* time.Parse(time.RFC3339, s) *)
  iso8601_ok : string -> bool;          (* time.Parse("2006-01-02T15:04:05", s) *)
  url_scheme : string -> option string; (* url.Parse(s).Scheme; None on error *)
  GraphemeClusterCount : string -> Z;
  FirstGraphemeCluster : string -> string * string;
  saturates : bool
}.

(** The JSON decoding of a record into [map[string]interface{}]: the error
    text, or the map (empty for a JSON null). *)
Definition unmarshaller := string -> result string obj.

Record Violation := { Field : string; Rule : string; Message : string }.
Record ValidationResult := { Valid : bool; Violations : list Violation }.

Section WithLib.
Context `{ValidatorLib}.

(** [f == float64(int64(f))]. *)
Definition is_integer (n : num) : bool :=
  match num_int n with
  | Some z => ((int64_min <=? z) && (z <=? int64_max)) || (saturates && (z =? 2 ^ 63))
  | None => false
  end.

Definition is_JStr (v : json) := match v with JStr _ => true | _ => false end.
Definition is_JObj (v : json) := match v with JObj _ => true | _ => false end.

Definition checkJSONType (val : json) (expectedType : string) : bool :=
  if String.eqb expectedType "string" then is_JStr val
  else if String.eqb expectedType "integer" then
    match val with JNum f => is_integer f | _ => false end
  else if String.eqb expectedType "boolean" then
    match val with JBool _ => true | _ => false end
  else if String.eqb expectedType "array" then
    match val with JArr _ => true | _ => false end
  else if String.eqb expectedType "ref" || String.eqb expectedType "union" then is_JObj val
  else if String.eqb expectedType "blob" then is_JObj val
  else if String.eqb expectedType "cid-link" then
    match val with JObj m => bool_decide (is_Some (m !! "$link")) | _ => false end
  else if String.eqb expectedType "bytes" then is_JStr val
  else true.

Definition validateFormat (value format : string) : bool :=
  if String.eqb format "datetime" then rfc3339_ok value || iso8601_ok value
  else if String.eqb format "uri" then
    match url_scheme value with Some sch => negb (is_empty sch) | None => false end
  else if String.eqb format "at-uri" then has_prefix value "at://"
  else if String.eqb format "did" then Did.IsValid value
  else if String.eqb format "handle" then negb (is_empty value) && contains value "."
  else if String.eqb format "cid" || String.eqb format "nsid" || String.eqb format "language"
          || String.eqb format "record-key" || String.eqb format "tid" then negb (is_empty value)
  else true.

Definition inEnum (val : string) (enum : list string) : bool :=
  existsb (fun e => String.eqb val e) enum.

(** The two tests every string value goes through. *)
Definition format_bad (prop : Property) (s : string) : bool :=
  negb (is_empty (Format prop)) && negb (validateFormat s (Format prop)).
Definition enum_bad (prop : Property) (s : string) : bool :=
  Nat.ltb 0 (length (Enum prop)) && negb (inEnum s (Enum prop)).

(** fmt's verbs %T and %v for the values at hand. *)
Definition type_name (v : json) : string :=
  match v with
  | JNull => "<nil>" | JBool _ => "bool" | JNum _ => "float64" | JStr _ => "string"
  | JArr _ => "[]interface {}" | JObj _ => "map[string]interface {}"
  end.
Definition show_list (l : list string) : string := "[" +:+ join l " " +:+ "]".

Definition exceeds (n : Z) (limit : option Z) : bool :=
  match limit with Some m => m <? n | None => false end.
Definition limit_text (limit : option Z) : string :=
  match limit with Some m => itoa m | None => "" end.

(** One turn of the loop of [validateProperties]: the violations it appends. *)
Definition entry_violations (data : obj) (prefix : string) (entry : PropertyEntry)
  : list Violation :=
  let field := Name entry in
  let prop := property entry in
  let path := if negb (is_empty prefix) then prefix +:+ "." +:+ field else field in
  let viol rule msg := {| Field := path; Rule := rule; Message := msg |} in
  let absent := match data !! field with None | Some JNull => true | _ => false end in
  if Required prop then
    if absent then [viol "required" "[required] field is missing or null"] else
    let val := default JNull (data !! field) in
    if negb (checkJSONType val (Type_ prop)) then
      [viol "type" ("[required] expected type " +:+ quote (Type_ prop) +:+ ", got "
                    +:+ type_name val)]
    else
      match val with
      | JStr s =>
          if format_bad prop s then
            [viol "format" ("[required] invalid " +:+ Format prop +:+ " format")]
          else if enum_bad prop s then
            [viol "enum" ("[required] value " +:+ quote s +:+ " not in enum "
                          +:+ show_list (Enum prop))]
          else
            (if exceeds (glen s) (MaxLength prop) then
               [viol "maxLength" ("string length " +:+ itoa (glen s) +:+ " exceeds maxLength "
                                  +:+ limit_text (MaxLength prop))]
             else []) ++
            (if exceeds (GraphemeClusterCount s) (MaxGraphemes prop) then
               [viol "maxGraphemes" ("grapheme count exceeds maxGraphemes "
                                     +:+ limit_text (MaxGraphemes prop))]
             else [])
      | _ => []
      end
  else if absent then []
  else
    let val := default JNull (data !! field) in
    (if negb (checkJSONType val (Type_ prop)) then
       [viol "type" ("expected type " +:+ quote (Type_ prop) +:+ ", got " +:+ type_name val)]
     else []) ++
    match val with
    | JStr s =>
        (if format_bad prop s then [viol "format" ("invalid " +:+ Format prop +:+ " format")]
         else []) ++
        (if enum_bad prop s then
           [viol "enum" ("value " +:+ quote s +:+ " not in enum " +:+ show_list (Enum prop))]
         else [])
    | _ => []
    end.

Fixpoint validateProperties (props : list PropertyEntry) (data : obj) (prefix : string)
  : list Violation :=
  match props with
  | [] => []
  | entry :: rest => entry_violations data prefix entry ++ validateProperties rest data prefix
  end.

Definition isRequiredViolation (v : Violation) : bool := has_prefix (Message v) "[required]".

Definition fatal_rule (v : Violation) : bool :=
  String.eqb (Rule v) "required" || String.eqb (Rule v) "type" ||
  String.eqb (Rule v) "format" || String.eqb (Rule v) "enum".

Definition Validate (registry : Registry) (unmarshal : unmarshaller)
    (collection record : string) : ValidationResult :=
  match GetRecordDef registry collection with
  | None => {| Valid := true; Violations := [] |}
  | Some def =>
      match unmarshal record with
      | Err e =>
          {| Valid := false;
             Violations := [{| Field := ""; Rule := "json";
                               Message := "invalid JSON: " +:+ e |}] |}
      | Ok data =>
          let go :=
            let violations := validateProperties (rd_Properties def) data "" in
            {| Valid := negb (existsb (fun v => fatal_rule v && isRequiredViolation v) violations);
               Violations := violations |} in
          match data !! "$type" with
          | Some (JStr t) =>
              if negb (String.eqb t collection) then
                {| Valid := false;
                   Violations := [{| Field := "$type"; Rule := "$type";
                                     Message := "$type " +:+ quote t
                                       +:+ " does not match collection " +:+ quote collection |}] |}
              else go
          | _ => go
          end
      end
  end.

(** ** Truncation *)

Inductive panic := Panic.

(** The loop that walks back from [maxBytes] to a rune start. *)
Fixpoint walk_back (n : nat) (s : string) : nat :=
  match n with
  | O => O
  | S m => match byte_at n s with
           | Some b => if RuneStart b then n else walk_back m s
           | None => n
           end
  end.

Definition truncateUTF8 (s : string) (maxBytes : Z) : result panic string :=
  if glen s <=? maxBytes then Ok s
  else if maxBytes <? 0 then Err Panic   (* s[:maxBytes] is out of range *)
  else Ok (take_bytes (walk_back (Z.to_nat maxBytes) s) s).

Fixpoint truncateGraphemes_go (n : nat) (acc remaining : string) : string :=
  match n with
  | O => acc
  | S m => if is_empty remaining then acc
           else let '(cluster, rest) := FirstGraphemeCluster remaining in
                truncateGraphemes_go m (acc +:+ cluster) rest
  end.
Definition truncateGraphemes (s : string) (maxClusters : Z) : string :=
  truncateGraphemes_go (Z.to_nat maxClusters) "" s.

Definition truncateString (s : string) (maxLength maxGraphemes : option Z)
  : result panic string :=
  s ← match maxLength with
      | Some m => if m <? glen s then truncateUTF8 s m else Ok s
      | None => Ok s
      end;
  Ok match maxGraphemes with
     | Some m => if m <? GraphemeClusterCount s then truncateGraphemes s m else s
     | None => s
     end.

(** ** Sanitization *)

Definition maxSanitizeDepth : nat := 32.

Definition resolveToObjectDef (res : resolved) : list PropertyEntry :=
  match res with
  | ResObject o => od_Properties o
  | ResRecord rd => rd_Properties rd
  end.

Definition refMatchesType (ref typeName lexiconCtx : string) : bool :=
  String.eqb (if has_prefix ref "#" && negb (is_empty lexiconCtx)
              then lexiconCtx +:+ ref else ref) typeName.

(** The recursive call on a nested object, one level deeper. *)
Abbreviation recursion := (list PropertyEntry -> obj -> result panic (obj * bool)%type).

Section Entry.
Context (registry : Registry) (lexiconCtx : string) (rec : recursion).

(** The loop over the items of an array of refs. *)
Fixpoint sanitize_items (props : list PropertyEntry) (arr : list json)
  : result panic (list json) :=
  match arr with
  | [] => Ok []
  | JObj m :: rest =>
      p ← rec props m;
      rest' ← sanitize_items props rest;
      Ok ((if (p : obj * bool).2 then JObj p.1 else JNull) :: rest')
  | item :: rest => rest' ← sanitize_items props rest; Ok (item :: rest')
  end.

Definition sanitizeArrayItems (items : ArrayItems) (arr : list json) : result panic (list json) :=
  if negb (String.eqb (ai_Type items) "ref") || is_empty (ai_Ref items) then Ok arr
  else match ResolveRef registry (ai_Ref items) lexiconCtx with
       | None => Ok arr
       | Some res => sanitize_items (resolveToObjectDef res) arr
       end.

(** The result of the nested call is discarded, its updates are not. *)
Definition sanitizeRefObject (ref : string) (m : obj) : result panic obj :=
  match ResolveRef registry ref lexiconCtx with
  | None => Ok m
  | Some res => fst <$> rec (resolveToObjectDef res) m
  end.

Fixpoint sanitize_union (refs : list string) (typeName : string) (m : obj) : result panic obj :=
  match refs with
  | [] => Ok m
  | ref :: rest =>
      match ResolveRef registry ref lexiconCtx with
      | None => sanitize_union rest typeName m
      | Some res => if refMatchesType ref typeName lexiconCtx
                    then fst <$> rec (resolveToObjectDef res) m
                    else sanitize_union rest typeName m
      end
  end.

Definition sanitizeUnionObject (refs : list string) (m : obj) : result panic obj :=
  let typeName := match m !! "$type" with Some (JStr t) => t | _ => "" end in
  if is_empty typeName then Ok m else sanitize_union refs typeName m.

(** What one turn of the loop does with the value of its field: [None] to
    return nil, [Some v] to go on with [v] in the field. *)
Definition sanitize_required (prop : Property) (val : json) : result panic (option json) :=
  if negb (checkJSONType val (Type_ prop)) then Ok None
  else match val with
       | JStr s => if format_bad prop s || enum_bad prop s then Ok None
                   else s' ← truncateString s (MaxLength prop) (MaxGraphemes prop);
                        Ok (Some (JStr s'))
       | _ => Ok (Some val)
       end.

Definition sanitize_optional (prop : Property) (val : json) : result panic json :=
  if String.eqb (Type_ prop) "string" || is_empty (Type_ prop) then
    match val with
    | JStr s => if format_bad prop s || enum_bad prop s then Ok JNull
                else s' ← truncateString s (MaxLength prop) (MaxGraphemes prop);
                     Ok (JStr s')
    | _ => Ok JNull
    end
  else if String.eqb (Type_ prop) "array" then
    match val with
    | JArr arr =>
        arr' ← match MaxLength prop with
               | Some m => if m <? Z.of_nat (length arr)
                           then if m <? 0 then Err Panic else Ok (take (Z.to_nat m) arr)
                           else Ok arr
               | None => Ok arr
               end;
        match Items prop with
        | Some items => arr'' ← sanitizeArrayItems items arr'; Ok (JArr arr'')
        | None => Ok (JArr arr')
        end
    | _ => Ok JNull
    end
  else if String.eqb (Type_ prop) "ref" then
    match val with
    | JObj m => m' ← sanitizeRefObject (Ref prop) m; Ok (JObj m')
    | _ => Ok val
    end
  else if String.eqb (Type_ prop) "union" then
    match val with
    | JObj m => m' ← sanitizeUnionObject (Refs prop) m; Ok (JObj m')
    | _ => Ok val
    end
  else Ok (if checkJSONType val (Type_ prop) then val else JNull).

(** One turn of the loop on the whole map: the updated map, and whether the
    loop goes on. *)
Definition sanitize_entry (entry : PropertyEntry) (data : obj) : result panic (obj * bool) :=
  let field := Name entry in
  let prop := property entry in
  match data !! field with
  | None | Some JNull => Ok (data, negb (Required prop))
  | Some val =>
      if Required prop then
        r ← sanitize_required prop val;
        match r with
        | None => Ok (data, false)
        | Some v => Ok (<[field := v]> data, true)
        end
      else v ← sanitize_optional prop val; Ok (<[field := v]> data, true)
  end.

Fixpoint sanitize_props (props : list PropertyEntry) (data : obj) : result panic (obj * bool) :=
  match props with
  | [] => Ok (data, true)
  | entry :: rest =>
      p ← sanitize_entry entry data;
      if (p : obj * bool).2 then sanitize_props rest p.1 else Ok (p.1, false)
  end.
End Entry.

(** [sanitizeObject]; [fuel] is [maxSanitizeDepth + 1 - depth], so running out
    of it is the code's own depth test. *)
Fixpoint sanitizeObject (registry : Registry) (lexiconCtx : string) (fuel : nat)
    (props : list PropertyEntry) (data : obj) : result panic (obj * bool) :=
  match fuel with
  | O => Ok (data, true)
  | S f => sanitize_props registry lexiconCtx (sanitizeObject registry lexiconCtx f) props data
  end.

Definition SanitizeRecord (def : option RecordDef) (registry : Registry) (data : obj)
  : result panic (obj * bool) :=
  match def with
  | None => Ok (data, true)
  | Some d => sanitizeObject registry "" (S maxSanitizeDepth) (rd_Properties d) data
  end.
End WithLib.

(** ** Validation *)

Section ValidateSpec.
Context `{ValidatorLib}.

Definition absent (data : obj) (field : string) : bool :=
  match data !! field with None | Some JNull => true | _ => false end.

(** The value tests of a required field. *)
Definition value_ok (prop : Property) (val : json) : bool :=
  checkJSONType val (Type_ prop) &&
  match val with
  | JStr s => negb (format_bad prop s) && negb (enum_bad prop s)
  | _ => true
  end.

(** A record satisfies an entry when the entry is optional, or its field is
    present, not null, and passes the type, format and enum tests. *)
Definition required_ok (data : obj) (e : PropertyEntry) : bool :=
  negb (Required (property e)) ||
  match data !! Name e with
  | None | Some JNull => false
  | Some val => value_ok (property e) val
  end.

Definition fatal (v : Violation) : bool := fatal_rule v && isRequiredViolation v.

Lemma existsb_if {A} (f : A -> bool) (b : bool) x :
  existsb f (if b then [x] else []) = b && f x.
Proof. destruct b; cbn; by rewrite ?orb_false_r. Qed.

Lemma entry_fatal data prefix e :
  existsb fatal (entry_violations data prefix e) = negb (required_ok data e).
Proof.
  unfold entry_violations, required_ok, value_ok.
  destruct (Required (property e)); cbn [negb orb].
  - destruct (data !! Name e) as [[]|]; cbn [default from_option id]; try reflexivity.
    all: destruct (checkJSONType _ _); cbn [negb andb]; try reflexivity.
    destruct (format_bad _ _); [reflexivity|]. destruct (enum_bad _ _); [reflexivity|].
    rewrite existsb_app, !existsb_if. cbn [negb andb].
    unfold fatal, fatal_rule. cbn [Rule]. by rewrite !andb_false_r.
  - destruct (data !! Name e) as [[]|]; cbn [default from_option id]; try reflexivity.
    all: rewrite ?app_nil_r, ?existsb_app, ?existsb_if.
    all: unfold fatal, isRequiredViolation; cbn [Message].
    all: rewrite ?andb_false_r; reflexivity.
Qed.

Lemma properties_fatal props data prefix :
  existsb fatal (validateProperties props data prefix) = negb (forallb (required_ok data) props).
Proof.
  induction props as [|e props IH]; [done|]. cbn [validateProperties forallb].
  by rewrite existsb_app, entry_fatal, IH, negb_andb.
Qed.

Lemma Validate_accepts registry unmarshal collection record :
  Valid (Validate registry unmarshal collection record) = true <->
  GetRecordDef registry collection = None \/
  exists def data,
    GetRecordDef registry collection = Some def /\ unmarshal record = Ok data /\
    (forall t, data !! "$type" = Some (JStr t) -> t = collection) /\
    forall e, e ∈ rd_Properties def -> required_ok data e = true.
Proof.
  unfold Validate. destruct (GetRecordDef registry collection) as [def|]; [|naive_solver].
  destruct (unmarshal record) as [data|e]; [|naive_solver].
  set (go := {| Valid := _; Violations := _ |}).
  assert (Valid go = true <-> forall e, e ∈ rd_Properties def -> required_ok data e = true) as Hgo.
  { subst go. cbn [Valid]. change (fun v => fatal_rule v && isRequiredViolation v) with fatal.
    rewrite properties_fatal, negb_involutive. apply forallb_elem_of. }
  destruct (data !! "$type") as [[]|] eqn:Ht; try (rewrite Hgo; naive_solver).
  destruct (String.eqb_spec s collection) as [->|Hne]; cbn [negb Valid];
    [rewrite Hgo|]; naive_solver.
Qed.

(** Validation accepts a record exactly when its collection is unknown, or
    the record decodes to an object whose $type (if it is a string) names the
    collection and every required property is present, non-null and passes its
    type, format and enum tests; violations of optional properties and of
    length limits never reject. *)
Theorem Validate_spec registry unmarshal collection record :
  Valid (Validate registry unmarshal collection record) = true <->
  GetRecordDef registry collection = None \/
  exists def data,
    GetRecordDef registry collection = Some def /\ unmarshal record = Ok data /\
    (forall t, data !! "$type" = Some (JStr t) -> t = collection) /\
    forall e, e ∈ rd_Properties def -> required_ok data e = true.
Proof. apply Validate_accepts. Qed.
End ValidateSpec.

(** ** Sanitization *)

Section SanitizeSpec.
Context `{ValidatorLib}.

Definition absent_opt (o : option json) : bool :=
  match o with None | Some JNull => true | _ => false end.

(** What sanitization promises of the field of an entry, from its value before
    to its value after. *)
Definition field_promise (prop : Property) (before after : option json) : Prop :=
  if absent_opt before then after = before
  else if Required prop then
    exists v, after = Some v /\ v <> JNull /\ checkJSONType v (Type_ prop) = true
  else if String.eqb (Type_ prop) "ref" || String.eqb (Type_ prop) "union" then is_Some after
  else exists v, after = Some v /\ (v = JNull \/ checkJSONType v (Type_ prop) = true).

Lemma checkJSONType_str s s' t : checkJSONType (JStr s) t = checkJSONType (JStr s') t.
Proof. unfold checkJSONType. by repeat case_match. Qed.

Lemma value_ok_type prop v : value_ok prop v = true -> checkJSONType v (Type_ prop) = true.
Proof. unfold value_ok. intros ?. by split_bools. Qed.

Section Entry.
Context (registry : Registry) (ctx : string)
  (rec : list PropertyEntry -> obj -> result panic (obj * bool)).

Lemma sanitize_required_spec prop val r : val <> JNull ->
  sanitize_required prop val = Ok r ->
  (r = None <-> value_ok prop val = false) /\
  forall v, r = Some v -> v <> JNull /\ checkJSONType v (Type_ prop) = true.
Proof.
  intros Hnn. unfold sanitize_required, value_ok.
  destruct (checkJSONType val (Type_ prop)) eqn:Hc; cbn [negb andb];
    [|intros [= <-]; naive_solver].
  destruct val as [| | |s| |]; try (intros [= <-]; naive_solver).
  rewrite <-negb_orb. destruct (format_bad prop s || enum_bad prop s); cbn [negb];
    [intros [= <-]; naive_solver|].
  intros (s' & _ & [= <-])%bind_Ok. split; [done|]. intros v [= <-].
  by rewrite (checkJSONType_str s' s).
Qed.

Lemma sanitize_optional_spec prop val v :
  sanitize_optional registry ctx rec prop val = Ok v ->
  String.eqb (Type_ prop) "ref" || String.eqb (Type_ prop) "union" = false ->
  v = JNull \/ checkJSONType v (Type_ prop) = true.
Proof.
  intros Hs Hru. apply orb_false_iff in Hru as [Hr Hu]. unfold sanitize_optional in Hs.
  destruct (String.eqb_spec (Type_ prop) "string") as [Hst|Hst];
    [|destruct (is_empty (Type_ prop)) eqn:He]; cbn [orb] in Hs.
  - rewrite Hst. destruct val; try (simplify_eq; by left).
    destruct (_ || _); [simplify_eq; by left|].
    apply bind_Ok in Hs as (s' & _ & [= <-]). by right.
  - destruct (Type_ prop); [|done]. destruct val; try (simplify_eq; by left).
    destruct (_ || _); [simplify_eq; by left|].
    apply bind_Ok in Hs as (s' & _ & [= <-]). by right.
  - destruct (String.eqb_spec (Type_ prop) "array") as [Ha|Ha].
    + rewrite Ha. destruct val; try (simplify_eq; by left).
      apply bind_Ok in Hs as (arr & _ & Hs). right.
      destruct (Items prop); [apply bind_Ok in Hs as (arr' & _ & [= <-])|simplify_eq]; done.
    + rewrite Hr, Hu in Hs. simplify_eq. destruct (checkJSONType val (Type_ prop)) eqn:Hc; auto.
Qed.

Lemma sanitize_entry_spec e data data' b :
  sanitize_entry registry ctx rec e data = Ok (data', b) ->
  b = required_ok data e /\
  (forall k, k <> Name e -> data' !! k = data !! k) /\
  (b = true -> field_promise (property e) (data !! Name e) (data' !! Name e)).
Proof.
  unfold sanitize_entry, required_ok, field_promise. intros Hs.
  assert (absent_opt (data !! Name e) = true -> data' = data /\ b = negb (Required (property e))) as Ha.
  { destruct (data !! Name e) as [[]|]; cbn [absent_opt]; try done; by simplify_eq. }
  destruct (absent_opt (data !! Name e)) eqn:Habs.
  { destruct Ha as [-> ->]; [done|]. split; [|done].
    destruct (data !! Name e) as [[]|]; try done; by rewrite orb_false_r. }
  clear Ha. destruct (data !! Name e) as [val|] eqn:Hv; [|done].
  assert (val <> JNull) as Hnn by (by intros ->).
  assert ((if Required (property e) then
             r ← sanitize_required (property e) val;
             match r with
             | None => Ok (data, false)
             | Some v => Ok (<[Name e := v]> data, true)
             end
           else v ← sanitize_optional registry ctx rec (property e) val;
                Ok (<[Name e := v]> data, true)) = Ok (data', b)) as Hs' by (by destruct val).
  clear Hs. destruct (Required (property e)); cbn [negb orb].
  - apply bind_Ok in Hs' as (r & Hr & Hs).
    destruct (sanitize_required_spec _ _ _ Hnn Hr) as [HN HS].
    destruct r as [v|]; simplify_eq.
    + split; [|split; [intros; by rewrite lookup_insert_ne|]].
      * destruct (value_ok (property e) val) eqn:Ho; [by destruct val|naive_solver].
      * intros _. rewrite lookup_insert_eq. destruct (HS v eq_refl). by exists v.
    + split; [|done]. rewrite (proj1 HN eq_refl). by destruct val.
  - apply bind_Ok in Hs' as (v & Hv' & [= <- <-]).
    split; [done|]. split; [intros; by rewrite lookup_insert_ne|]. intros _.
    rewrite lookup_insert_eq. destruct (_ || _) eqn:Hru; [by eexists|].
    exists v. split; [done|]. by eapply sanitize_optional_spec.
Qed.

Lemma sanitize_props_spec props : forall data data' b, NoDup (Name <$> props) ->
  sanitize_props registry ctx rec props data = Ok (data', b) ->
  b = forallb (required_ok data) props /\
  (forall k, k ∉ Name <$> props -> data' !! k = data !! k) /\
  (b = true -> forall e, e ∈ props ->
     field_promise (property e) (data !! Name e) (data' !! Name e)).
Proof.
  induction props as [|e props IH]; intros data data' b; cbn [fmap list_fmap sanitize_props].
  - intros _ [= <- <-]. split; [done|]. split; [done|]. by intros _ e ?%not_elem_of_nil.
  - intros [Hn Hnd]%NoDup_cons ([data1 b1] & He & Hrest)%bind_Ok. cbn [fst snd] in Hrest.
    destruct (sanitize_entry_spec _ _ _ _ He) as (Hb1 & Hf1 & Hp1). cbn [forallb].
    rewrite <-Hb1. destruct b1; simplify_eq; cbn [andb].
    + destruct (IH _ _ _ Hnd Hrest) as (Hb & Hf & Hp). split; [|split].
      * rewrite Hb. apply eq_iff_eq_true. rewrite !forallb_elem_of.
        assert (forall e', e' ∈ props -> data1 !! Name e' = data !! Name e') as Hsame.
        { intros e' Hin. apply Hf1. intros Heq. apply Hn. rewrite <-Heq.
          by apply list_elem_of_fmap_2. }
        unfold required_ok. split; intros Hall e' Hin; specialize (Hall e' Hin);
          rewrite (Hsame _ Hin) in *; done.
      * intros k Hk. rewrite Hf, Hf1; set_solver.
      * intros Hbt e' [->|Hin]%elem_of_cons.
        -- rewrite Hf by done. by apply Hp1.
        -- rewrite <-(Hf1 (Name e')); [by apply Hp|].
           intros Heq. apply Hn. rewrite <-Heq. by apply list_elem_of_fmap_2.
    + split; [done|]. split; [|done]. intros k Hk. apply Hf1. set_solver.
Qed.
End Entry.

(** *** Absence of panics *)

(** The length limits of an entry are not negative. *)
Definition limit_ok (e : PropertyEntry) : bool :=
  match MaxLength (property e) with Some m => 0 <=? m | None => true end.
Definition limits_ok (props : list PropertyEntry) : bool := forallb limit_ok props.

(** Every definition of the registry has such limits. *)
Definition registry_limits (r : Registry) : Prop :=
  map_Forall (fun _ o => limits_ok (od_Properties o) = true) (objectDefs r) /\
  map_Forall (fun _ d => limits_ok (rd_Properties d) = true) (recordDefs r).

Lemma resolve_limits r ref ctx res : registry_limits r -> ResolveRef r ref ctx = Some res ->
  limits_ok (resolveToObjectDef res) = true.
Proof.
  intros [Ho Hr]. unfold ResolveRef, GetObjectDef, GetRecordDef.
  destruct (objectDefs r !! _) as [o|] eqn:E; [intros [= <-]; exact (Ho _ _ E)|].
  intros (d & E' & ->)%fmap_Some. exact (Hr _ _ E').
Qed.

Lemma truncateUTF8_ok s m : 0 <= m -> is_ok (truncateUTF8 s m) = true.
Proof. unfold truncateUTF8. intros. case_match; [done|]. case_match; [lia|done]. Qed.

Lemma truncateString_ok s m g : match m with Some m => 0 <= m | None => True end ->
  is_ok (truncateString s m g) = true.
Proof.
  unfold truncateString. destruct m as [m|]; [|done]. intros Hm.
  destruct (m <? glen s); [|done].
  destruct (proj1 (is_ok_spec _) (truncateUTF8_ok s m Hm)) as [t ->]. done.
Qed.

Lemma is_ok_bind {E A B} (r : result E A) (f : A -> result E B) :
  is_ok r = true -> (forall a, is_ok (f a) = true) -> is_ok (r ≫= f) = true.
Proof. destruct r; cbn; auto. Qed.

Lemma is_ok_fmap {E A B} (r : result E A) (f : A -> B) : is_ok r = true -> is_ok (f <$> r) = true.
Proof. by destruct r. Qed.

Section NoPanic.
Context (registry : Registry) (ctx : string)
  (rec : list PropertyEntry -> obj -> result panic (obj * bool))
  (Hreg : registry_limits registry)
  (Hrec : forall props m, limits_ok props = true -> is_ok (rec props m) = true).

Lemma sanitize_items_ok props arr : limits_ok props = true ->
  is_ok (sanitize_items rec props arr) = true.
Proof using Hrec.
  intros Hp. induction arr as [|v arr IH]; [done|]. cbn.
  destruct v; repeat (apply is_ok_bind; [by auto|intros ?]); done.
Qed.

Lemma sanitize_union_ok refs t m : is_ok (sanitize_union registry ctx rec refs t m) = true.
Proof using Hreg Hrec.
  induction refs as [|ref refs IH]; [done|]. cbn.
  destruct (ResolveRef registry ref ctx) eqn:E; [|done].
  destruct (refMatchesType _ _ _); [|done]. apply is_ok_fmap, Hrec. by eapply resolve_limits.
Qed.

Lemma sanitize_entry_ok e data : limit_ok e = true ->
  is_ok (sanitize_entry registry ctx rec e data) = true.
Proof using Hreg Hrec.
  intros Hl. unfold sanitize_entry, limit_ok in *.
  assert (forall s, is_ok (truncateString s (MaxLength (property e)) (MaxGraphemes (property e)))
                    = true) as Ht.
  { intros s. apply truncateString_ok. destruct (MaxLength _); [lia|done]. }
  destruct (data !! Name e) as [val|]; [|done].
  assert (is_ok (sanitize_required (property e) val) = true) as Hr.
  { unfold sanitize_required. repeat case_match; try done. by apply is_ok_bind. }
  assert (is_ok (sanitize_optional registry ctx rec (property e) val) = true) as Ho.
  { unfold sanitize_optional, sanitizeArrayItems, sanitizeRefObject, sanitizeUnionObject.
    repeat case_match; try done; try (by apply is_ok_bind); try lia.
    all: repeat (apply is_ok_bind; [|done]); try apply is_ok_fmap; cbn.
    all: try (by apply sanitize_union_ok).
    all: try (apply Hrec || apply sanitize_items_ok; by eapply resolve_limits).
    all: apply is_ok_bind; [|done].
    all: apply sanitize_items_ok; by eapply resolve_limits. }
  destruct val; try done; (destruct (Required _); apply is_ok_bind; [done|intros []|done|]); done.
Qed.

Lemma sanitize_props_ok props : forall data, limits_ok props = true ->
  is_ok (sanitize_props registry ctx rec props data) = true.
Proof using Hreg Hrec.
  induction props as [|e props IH]; intros data; cbn; [done|]. intros [He Hp]%andb_true_iff.
  apply is_ok_bind; [by apply sanitize_entry_ok|]. intros [m []]; cbn; auto.
Qed.
End NoPanic.

Lemma sanitizeObject_ok registry ctx fuel : registry_limits registry ->
  forall props data, limits_ok props = true ->
    is_ok (sanitizeObject registry ctx fuel props data) = true.
Proof.
  intros Hreg. induction fuel as [|f IH]; intros props data Hp; cbn; [done|].
  by apply sanitize_props_ok.
Qed.

(** *** What sanitization gives back *)

Lemma SanitizeRecord_correct registry def data :
  NoDup (Name <$> rd_Properties def) ->
  limits_ok (rd_Properties def) = true -> registry_limits registry ->
  exists data',
    SanitizeRecord (Some def) registry data
    = Ok (data', forallb (required_ok data) (rd_Properties def)) /\
    (forall k, k ∉ Name <$> rd_Properties def -> data' !! k = data !! k) /\
    (forallb (required_ok data) (rd_Properties def) = true ->
     forall e, e ∈ rd_Properties def ->
       field_promise (property e) (data !! Name e) (data' !! Name e)).
Proof.
  intros Hnd Hl Hreg. cbn [SanitizeRecord].
  destruct (proj1 (is_ok_spec _) (sanitizeObject_ok registry "" (S maxSanitizeDepth) Hreg
              (rd_Properties def) data Hl)) as [[data' b] Hs].
  rewrite Hs. cbn [sanitizeObject] in Hs.
  destruct (sanitize_props_spec _ _ _ _ _ _ _ Hnd Hs) as (-> & Hf & Hp). by exists data'.
Qed.

(** Sanitizing a record never panics when no length limit is negative; it
    gives nil exactly when a required property fails the tests that validation
    applies too; the map it gives back keeps every field the definition does
    not declare, and each declared field keeps being absent or holds a value of
    the declared type, or null when it is optional (an optional ref or union
    keeps a value of any type). *)
Theorem SanitizeRecord_spec registry def data :
  NoDup (Name <$> rd_Properties def) ->
  limits_ok (rd_Properties def) = true -> registry_limits registry ->
  exists data',
    SanitizeRecord (Some def) registry data
    = Ok (data', forallb (required_ok data) (rd_Properties def)) /\
    (forall k, k ∉ Name <$> rd_Properties def -> data' !! k = data !! k) /\
    (forallb (required_ok data) (rd_Properties def) = true ->
     forall e, e ∈ rd_Properties def ->
       field_promise (property e) (data !! Name e) (data' !! Name e)).
Proof. apply SanitizeRecord_correct. Qed.

(** A record that validation accepted under a known definition is never
    dropped when it is sanitized later: the result is the map and not nil. *)
Theorem validated_never_dropped registry unmarshal collection record def data :
  Valid (Validate registry unmarshal collection record) = true ->
  GetRecordDef registry collection = Some def -> unmarshal record = Ok data ->
  NoDup (Name <$> rd_Properties def) ->
  limits_ok (rd_Properties def) = true -> registry_limits registry ->
  exists data', SanitizeRecord (Some def) registry data = Ok (data', true).
Proof.
  intros Hv Hdef Hdata Hnd Hl Hreg.
  destruct (SanitizeRecord_correct registry def data Hnd Hl Hreg) as (data' & Hs & _).
  exists data'. rewrite Hs. do 2 f_equal. apply forallb_elem_of.
  apply Validate_accepts in Hv as [|(? & ? & Hd & Hu & _ & Hall)]; [by simplify_eq|].
  rewrite Hdef in Hd. rewrite Hdata in Hu. injection Hd as ->. by injection Hu as ->.
Qed.
End SanitizeSpec.

(** ** Truncation *)

(** A valid non-empty string starts on a boundary. *)
Lemma boundary_0 s : ValidString s = true -> boundary 0 s = true.
Proof.
  intros Hv. destruct (decide (s = "")) as [->|Hs]; [done|].
  destruct (ValidString_inv s Hv Hs) as (c & p & t & r & -> & _ & Hc & _). exact Hc.
Qed.

Lemma walk_back_spec s n : ValidString s = true -> (n < String.length s)%nat ->
  (walk_back n s <= n)%nat /\ boundary (walk_back n s) s = true /\
  forall k, (walk_back n s < k <= n)%nat -> boundary k s = false.
Proof.
  intros Hv. induction n as [|n IH]; intros Hn; cbn [walk_back].
  - split; [done|]. split; [by apply boundary_0|lia].
  - destruct (byte_at_lt (S n) s Hn) as [b Hb]. rewrite Hb.
    destruct (RuneStart b) eqn:Hs.
    + split; [done|]. split; [unfold boundary; by rewrite Hb|lia].
    + destruct IH as (Hle & Hbd & Hno); [lia|]. split; [lia|]. split; [done|].
      intros k Hk. destruct (decide (k = S n)) as [->|]; [unfold boundary; by rewrite Hb|].
      apply Hno. lia.
Qed.

(** Truncating a valid UTF-8 string to a byte limit gives a prefix of it
    that is valid UTF-8, fits the limit and is the longest such prefix. *)
Theorem truncateUTF8_longest s maxBytes :
  ValidString s = true -> 0 <= maxBytes ->
  exists n, truncateUTF8 s maxBytes = Ok (take_bytes n s) /\
    (n <= String.length s)%nat /\ Z.of_nat n <= maxBytes /\
    ValidString (take_bytes n s) = true /\
    forall k, (k <= String.length s)%nat -> Z.of_nat k <= maxBytes ->
      ValidString (take_bytes k s) = true -> (k <= n)%nat.
Proof.
  intros Hv Hm. unfold truncateUTF8, glen. destruct (Z.leb_spec (Z.of_nat (String.length s)) maxBytes).
  - exists (String.length s).
    assert (take_bytes (String.length s) s = s) as ->
      by (clear; induction s as [|c s IH]; cbn; congruence).
    repeat split; auto; lia.
  - destruct (Z.ltb_spec maxBytes 0) as [|_]; [lia|].
    destruct (walk_back_spec s (Z.to_nat maxBytes) Hv) as (Hle & Hb & Hno); [lia|].
    exists (walk_back (Z.to_nat maxBytes) s). split; [done|].
    split; [lia|]. split; [lia|]. split; [rewrite ValidString_take; [done|done|lia]|].
    intros k Hk Hkm Hvk. destruct (decide (k <= walk_back (Z.to_nat maxBytes) s)%nat); [done|].
    rewrite ValidString_take in Hvk by done. rewrite Hno in Hvk; [done|lia].
Qed.

Lemma truncateUTF8_longest_witness :
  exists n, truncateUTF8 "aé" 2 = Ok (take_bytes n "aé") /\
    (n <= String.length "aé")%nat /\ Z.of_nat n <= 2 /\
    ValidString (take_bytes n "aé") = true /\
    forall k, (k <= String.length "aé")%nat -> Z.of_nat k <= 2 ->
      ValidString (take_bytes k "aé") = true -> (k <= n)%nat.
Proof. apply truncateUTF8_longest; [by vm_compute|lia]. Defined.

(** ** A concrete record *)

Module Example_post.
#[local] Instance toy_lib : ValidatorLib :=
  {| quote := fun s => s; rfc3339_ok := fun s => has_prefix s "20"; iso8601_ok := fun _ => false;
     url_scheme := fun _ => None; GraphemeClusterCount := glen;
     FirstGraphemeCluster := fun s => (take_bytes 1 s, drop_bytes 1 s); saturates := false |}.

Definition prop (ty : string) (req : bool) (m : option Z) : Property :=
  {| Type_ := ty; Required := req; Format := ""; Ref := ""; Refs := []; Items := None;
     Description := ""; Default := None; Minimum := None; Maximum := None; MinLength := None;
     MaxLength := m; MaxGraphemes := None; Enum := []; Const := ""; KnownValues := [] |}.
Definition def : RecordDef :=
  {| rd_Type := "record"; rd_Key := "tid";
     rd_Properties := [{| Name := "text"; property := prop "string" true (Some 3) |};
                       {| Name := "langs"; property := prop "array" false (Some 2) |}] |}.
Definition registry : Registry :=
  {| lexicons := ∅; objectDefs := ∅; recordDefs := {[ "app.post" := def ]} |}.
Definition data : obj := {[ "text" := JStr "hello"; "langs" := JStr "en"; "x" := JNull ]}.
End Example_post.

Import Example_post.
#[local] Existing Instance toy_lib.

Lemma validate_witness :
  Valid (Validate registry (fun _ => Ok data) "app.post" "{}") = true.
Proof. vm_compute. reflexivity. Defined.

Lemma SanitizeRecord_spec_witness :
  exists data',
    SanitizeRecord (Some def) registry data
    = Ok (data', forallb (required_ok data) (rd_Properties def)) /\
    (forall k, k ∉ Name <$> rd_Properties def -> data' !! k = data !! k) /\
    (forallb (required_ok data) (rd_Properties def) = true ->
     forall e, e ∈ rd_Properties def ->
       field_promise (property e) (data !! Name e) (data' !! Name e)).
Proof.
  apply SanitizeRecord_spec; [apply NoDup_compute; by vm_compute|by vm_compute|].
  split; [apply map_Forall_empty|]. by apply map_Forall_singleton.
Defined.

Lemma validated_never_dropped_witness :
  exists data', SanitizeRecord (Some def) registry data = Ok (data', true).
Proof.
  apply (validated_never_dropped registry (fun _ => Ok data) "app.post" "{}");
    [by vm_compute|by vm_compute|done|apply NoDup_compute; by vm_compute|by vm_compute|].
  split; [apply map_Forall_empty|]. by apply map_Forall_singleton.
Defined.
