(* ===== verification/Filter.v ===== *)
(** [internal/database/repositories/filter.go]: field filters and filter groups
    compiled to SQL text with numbered placeholders. The text and the bound
    parameters are built separately, as the code does: [string] for the clause
    and [list sqlparam] for the parameters. *)
From S2P Require Import Prelude GoStrings Json.

Local Open Scope Z_scope.

Definition OpEq : string := "eq".
Definition OpNeq : string := "neq".
Definition OpGt : string := "gt".
Definition OpLt : string := "lt".
Definition OpGte : string := "gte".
Definition OpLte : string := "lte".
Definition OpIn : string := "in".
Definition OpEqi : string := "eqi".
Definition OpIni : string := "ini".
Definition OpContains : string := "contains".
Definition OpStartsWith : string := "startsWith".

Inductive FilterKind :=
| KindScalar | KindArrayContributor | KindUnionSubject | KindStringSubject.

(** A filter value: a decoded GraphQL value, or a Go [[]string]. *)
Inductive fvalue :=
| VJson (v : json)
| VStrs (l : list string).

Record FieldFilter := {
  FieldName : string;
  Operator : string;
  Value : fvalue;
  IsNull : option bool;
  IsJSON : bool;
  LexiconType : string;
  Kind : FilterKind
}.

Definition MaxFilterConditions : Z := 20.
Definition MaxInListSize : Z := 50.
Definition MinContainsLength : Z := 3.
Definition MinStartsWithLength : Z := 1.
Definition MaxFilterDepth : Z := 3.

Definition SortASC : string := "ASC".
Definition SortDESC : string := "DESC".
Record SortOption := { Field : string; Direction : string }.

Definition GroupAND : string := "AND".
Definition GroupOR : string := "OR".

(** The two kinds of subquery, over the type of the inner group. *)
Record JoinedFilter (G : Type) := { TargetCollection : string; JoinExpr : string; jInner : G }.
Record ArrayFilter (G : Type) := { aFieldName : string; ArrayPath : string; aInner : G }.
Arguments TargetCollection {G}. Arguments JoinExpr {G}. Arguments jInner {G}.
Arguments aFieldName {G}. Arguments ArrayPath {G}. Arguments aInner {G}.

Inductive FilterGroup := mkGroup {
  gOperator : string;
  Filters : list FieldFilter;
  Children : list FilterGroup;
  Joined : list (JoinedFilter FilterGroup);
  Arrays : list (ArrayFilter FilterGroup)
}.

(** What the errors report. [EPanic] is the type assertion [f.Value.(string)]
    of the two LIKE operators. *)
Inductive filter_error :=
| ETooManyConditions (n : Z)
| ETooDeep
| EPathTooDeep (name : string)
| EBadSegment (part name : string)
| ENotString (op : string)
| ETooShort (op : string)
| EListSize (op : string) (n : Z)
| EListElement (op : string)
| ENotList (op : string)
| EColumnOp (op : string)
| ENotScalar
| EInvalid (field : string) (e : filter_error)
| EKindInSubquery (alias : string)
| EUnsupported (op : string)
| EMarshal (msg : string)
| EPanic.

Inductive sqlparam :=
| PValue (v : fvalue)
| PText (s : string)
| PTexts (l : list string).

(** fmt's verb %v and json.Marshal, both of the standard library; the second
    fails on values that JSON cannot express. *)
Class FilterLib := {
  sprint_v : json -> string;
  json_marshal : json -> result string string
}.

(** ** Field names *)

Definition is_ident_start (b : Z) : bool :=
  ((97 <=? b) && (b <=? 122)) || ((65 <=? b) && (b <=? 90)) || (b =? 95).
Definition is_ident_byte (b : Z) : bool := is_ident_start b || ((48 <=? b) && (b <=? 57)).

(** The regular expression [^[a-zA-Z_][a-zA-Z0-9_]*$]. *)
Definition fieldSegmentRegex (s : string) : bool :=
  match s with
  | EmptyString => false
  | String c s' => is_ident_start (zb c) && all_bytes is_ident_byte s'
  end.

Fixpoint check_segments (name : string) (parts : list string) : result filter_error unit :=
  match parts with
  | [] => Ok ()
  | part :: rest => if fieldSegmentRegex part then check_segments name rest
                    else Err (EBadSegment part name)
  end.

Definition ValidateFieldName (name : string) : result filter_error unit :=
  let parts := split name "__" in
  if Nat.ltb 3 (length parts) then Err (EPathTooDeep name) else check_segments name parts.

(** ** Sorting *)

Definition IsDefault (s : option SortOption) : bool :=
  match s with
  | None => true
  | Some s => String.eqb (Field s) "indexed_at" && String.eqb (Direction s) SortDESC
  end.

Definition BuildSortExpr (s : option SortOption) : result filter_error string :=
  match s with
  | None => Ok "indexed_at"
  | Some s =>
      if String.eqb (Field s) "indexed_at" then Ok "indexed_at"
      else if existsb (String.eqb (Field s)) ["uri"; "did"; "collection"; "cid"; "rkey"]
      then Ok (Field s)
      else _ ← ValidateFieldName (Field s); Ok ("json->>'" +:+ Field s +:+ "'")
  end.

(** ** Groups *)

Definition IsEmpty (g : FilterGroup) : bool :=
  match Filters g, Children g, Joined g, Arrays g with [], [], [], [] => true | _, _, _, _ => false end.

Definition sum_by {A} (f : A -> Z) : list A -> Z :=
  fix go l := match l with [] => 0 | x :: l' => f x + go l' end.

Fixpoint CountConditions (g : FilterGroup) : Z :=
  Z.of_nat (length (Filters g)) + sum_by CountConditions (Children g)
  + sum_by (fun j => CountConditions (jInner j)) (Joined g)
  + sum_by (fun a => CountConditions (aInner a)) (Arrays g).

(** ** Validation of one filter *)

Definition is_scalar (v : json) : bool :=
  match v with JObj _ | JArr _ => false | _ => true end.

Definition validateInListShape (value : fvalue) (opName : string) : result filter_error unit :=
  match value with
  | VJson (JArr v) =>
      let n := Z.of_nat (length v) in
      if (n <? 1) || (MaxInListSize <? n) then Err (EListSize opName n)
      else guard_err (forallb is_scalar v) (EListElement opName)
  | VStrs v =>
      let n := Z.of_nat (length v) in
      guard_err (negb ((n <? 1) || (MaxInListSize <? n))) (EListSize opName n)
  | _ => Err (ENotList opName)
  end.

Definition validateText (value : fvalue) (opName : string) (least : Z) : result filter_error unit :=
  match value with
  | VJson (JStr s) => guard_err (negb (glen s <? least)) (ETooShort opName)
  | _ => Err (ENotString opName)
  end.

(** The operators are distinct strings, so at most one of the code's tests
    applies. *)
Definition Validate (f : FieldFilter) : result filter_error unit :=
  _ ← ValidateFieldName (FieldName f);
  match IsNull f with
  | Some _ => Ok ()
  | None =>
      if String.eqb (Operator f) OpContains then validateText (Value f) "contains" MinContainsLength
      else if String.eqb (Operator f) OpStartsWith then
        validateText (Value f) "startsWith" MinStartsWithLength
      else if String.eqb (Operator f) OpIn then validateInListShape (Value f) "in"
      else if String.eqb (Operator f) OpEqi then
        match Value f with
        | VJson (JStr _) => guard_err (IsJSON f) (EColumnOp "eqi")
        | _ => Err (ENotString "eqi")
        end
      else if String.eqb (Operator f) OpIni then
        _ ← validateInListShape (Value f) "ini";
        guard_err (IsJSON f) (EColumnOp "ini")
      else if String.eqb (Operator f) OpEq && IsJSON f then
        match Value f with
        | VJson v => guard_err (is_scalar v) ENotScalar
        | VStrs _ => Ok ()
        end
      else Ok ()
  end.

(** ** Values *)

(** [strings.ReplaceAll] of a one-byte string. *)
Fixpoint replace_byte (c : ascii) (new s : string) : string :=
  match s with
  | EmptyString => EmptyString
  | String d s' => if Ascii.eqb d c then new +:+ replace_byte c new s'
                   else String d (replace_byte c new s')
  end.

Definition escapeLike (s : string) : string :=
  replace_byte "_" "\_" (replace_byte "%" "\%" (replace_byte "\" "\\" s)).

Definition lower_byte (c : ascii) : ascii :=
  if (65 <=? zb c) && (zb c <=? 90) then ascii_of_N (N_of_ascii c + 32) else c.

(** Without an upper-case byte the code returns its argument, which is what the
    loop would build. *)
Fixpoint asciiToLower (s : string) : string :=
  match s with EmptyString => EmptyString | String c s' => String (lower_byte c) (asciiToLower s') end.

Definition value_json (v : fvalue) : json :=
  match v with VJson v => v | VStrs l => JArr (JStr <$> l) end.

Definition buildNestedContainment (fieldName : string) (value : fvalue) : json :=
  match split fieldName "__" with
  | [_] => JObj {[ fieldName := value_json value ]}
  | parts => foldr (fun part result => JObj {[ part := result ]}) (value_json value) parts
  end.

Section WithLib.
Context `{FilterLib}.

Fixpoint extract_items (l : list json) : list string * bool :=
  match l with
  | [] => ([], false)
  | JNull :: rest => ((extract_items rest).1, true)
  | item :: rest => let '(vs, n) := extract_items rest in (sprint_v item :: vs, n)
  end.

Definition extractInValues (v : fvalue) : list string * bool :=
  match v with
  | VJson (JArr l) => extract_items l
  | VStrs l => (l, false)
  | _ => ([], false)
  end.

(** ** SQL expressions *)

Definition param (n : Z) : string := "$" +:+ itoa n.

Definition qualifyColumn (alias name : string) : string := alias +:+ "." +:+ name.

(** The loop over the segments after the first. *)
Fixpoint json_path (expr : string) (parts : list string) : string :=
  match parts with
  | [] => expr
  | [part] => expr +:+ "->>'" +:+ part +:+ "'"
  | part :: rest => json_path (expr +:+ "->'" +:+ part +:+ "'") rest
  end.

Definition jsonExtract (alias fieldName : string) (isJSON : bool) : string :=
  if negb isJSON then qualifyColumn alias fieldName
  else match split fieldName "__" with
       | [] | [_] => alias +:+ ".json->>'" +:+ fieldName +:+ "'"
       | part :: rest => json_path (alias +:+ ".json->'" +:+ part +:+ "'") rest
       end.

Definition jsonExtractTyped (alias fieldName lexiconType : string) (isJSON : bool) : string :=
  if negb isJSON then qualifyColumn alias fieldName
  else
    let base := jsonExtract alias fieldName true in
    if String.eqb lexiconType "integer" || String.eqb lexiconType "number" then
      "CASE WHEN " +:+ base +:+ " ~ '^-?[0-9]' THEN (" +:+ base +:+ ")::numeric END"
    else if String.eqb lexiconType "datetime" then "(" +:+ base +:+ ")::timestamptz"
    else base.

Definition sqlOp (op : string) : string :=
  if String.eqb op OpGt then ">"
  else if String.eqb op OpLt then "<"
  else if String.eqb op OpGte then ">="
  else if String.eqb op OpLte then "<="
  else "=".

(** A built filter: its clause, its parameters and the next free index. *)
Definition built : Type := string * list sqlparam * Z.

Definition buildContributorFilter (f : FieldFilter) (paramIdx : Z) : result filter_error built :=
  let indexedExpr := "record_contributor_identities(r.json)" in
  if String.eqb (Operator f) OpEq then
    Ok ("(" +:+ indexedExpr +:+ " @> ARRAY[" +:+ param paramIdx +:+ "]::text[])",
        [PValue (Value f)], paramIdx + 1)
  else if String.eqb (Operator f) OpIn then
    Ok ("(" +:+ indexedExpr +:+ " && " +:+ param paramIdx +:+ "::text[])",
        [PTexts (extractInValues (Value f)).1], paramIdx + 1)
  else Err (EUnsupported (Operator f)).

Definition buildBadgeAwardSubjectFilter (f : FieldFilter) (paramIdx : Z)
  : result filter_error built :=
  if String.eqb (Operator f) OpEq then
    Ok ("r.subject_did = " +:+ param paramIdx, [PValue (Value f)], paramIdx + 1)
  else if String.eqb (Operator f) OpIn then
    Ok ("r.subject_did = ANY(" +:+ param paramIdx +:+ "::text[])",
        [PTexts (extractInValues (Value f)).1], paramIdx + 1)
  else Err (EUnsupported (Operator f)).

Definition buildStringSubjectFilter (f : FieldFilter) (paramIdx : Z) : result filter_error built :=
  let indexedExpr := "r.json->>'subject'" in
  if String.eqb (Operator f) OpEq then
    Ok (indexedExpr +:+ " = " +:+ param paramIdx, [PValue (Value f)], paramIdx + 1)
  else if String.eqb (Operator f) OpIn then
    Ok (indexedExpr +:+ " = ANY(" +:+ param paramIdx +:+ "::text[])",
        [PTexts (extractInValues (Value f)).1], paramIdx + 1)
  else Err (EUnsupported (Operator f)).

(** The operators of scalar filters. *)
Definition buildScalarFilter (f : FieldFilter) (paramIdx : Z) (alias : string)
  : result filter_error built :=
  let expr := jsonExtract alias (FieldName f) (IsJSON f) in
  let p := param paramIdx in
  if String.eqb (Operator f) OpEq then
    if IsJSON f then
      match json_marshal (buildNestedContainment (FieldName f) (Value f)) with
      | Err e => Err (EMarshal e)
      | Ok bytes => Ok (alias +:+ ".json @> " +:+ p +:+ "::jsonb", [PText bytes], paramIdx + 1)
      end
    else Ok (qualifyColumn alias (FieldName f) +:+ " = " +:+ p, [PValue (Value f)], paramIdx + 1)
  else if String.eqb (Operator f) OpNeq then
    Ok ("(" +:+ expr +:+ " != " +:+ p +:+ " OR " +:+ expr +:+ " IS NULL)",
        [PValue (Value f)], paramIdx + 1)
  else if String.eqb (Operator f) OpGt || String.eqb (Operator f) OpLt
          || String.eqb (Operator f) OpGte || String.eqb (Operator f) OpLte then
    Ok (jsonExtractTyped alias (FieldName f) (LexiconType f) (IsJSON f)
        +:+ " " +:+ sqlOp (Operator f) +:+ " " +:+ p, [PValue (Value f)], paramIdx + 1)
  else if String.eqb (Operator f) OpIn then
    let '(values, hasNull) := extractInValues (Value f) in
    Ok (if hasNull then "(" +:+ expr +:+ " = ANY(" +:+ p +:+ "::text[]) OR " +:+ expr +:+ " IS NULL)"
        else expr +:+ " = ANY(" +:+ p +:+ "::text[])", [PTexts values], paramIdx + 1)
  else if String.eqb (Operator f) OpEqi then
    let s := match Value f with VJson (JStr s) => s | _ => "" end in
    Ok ("lower((" +:+ expr +:+ ") COLLATE " +:+ dq +:+ "C" +:+ dq +:+ ") = " +:+ p,
        [PText (asciiToLower s)], paramIdx + 1)
  else if String.eqb (Operator f) OpIni then
    let '(raw, hasNull) := extractInValues (Value f) in
    let any := "lower((" +:+ expr +:+ ") COLLATE " +:+ dq +:+ "C" +:+ dq +:+ ") = ANY("
               +:+ p +:+ "::text[])" in
    Ok (if hasNull then "(" +:+ any +:+ " OR " +:+ expr +:+ " IS NULL)" else any,
        [PTexts (asciiToLower <$> raw)], paramIdx + 1)
  else if String.eqb (Operator f) OpContains then
    match Value f with
    | VJson (JStr s) => Ok (expr +:+ " ILIKE '%' || " +:+ p +:+ " || '%' ESCAPE '\'",
                            [PText (escapeLike s)], paramIdx + 1)
    | _ => Err EPanic
    end
  else if String.eqb (Operator f) OpStartsWith then
    match Value f with
    | VJson (JStr s) => Ok (expr +:+ " ILIKE " +:+ p +:+ " || '%' ESCAPE '\'",
                            [PText (escapeLike s)], paramIdx + 1)
    | _ => Err EPanic
    end
  else Err (EUnsupported (Operator f)).

Definition buildSingleFilter (f : FieldFilter) (paramIdx : Z) (alias : string)
  : result filter_error built :=
  _ ← ValidateFieldName (FieldName f);
  match Kind f with
  | KindScalar => buildScalarFilter f paramIdx alias
  | k =>
      if negb (String.eqb alias "r") then Err (EKindInSubquery alias)
      else match k with
           | KindArrayContributor => buildContributorFilter f paramIdx
           | KindUnionSubject => buildBadgeAwardSubjectFilter f paramIdx
           | _ => buildStringSubjectFilter f paramIdx
           end
  end.

(** ** The builders *)

(** The state of the loops of a builder. *)
Record acc := { clauses : list string; params : list sqlparam; idx : Z }.

Definition acc_add (a : acc) (clause : string) (ps : list sqlparam) (next : Z) : acc :=
  {| clauses := clauses a ++ [clause]; params := params a ++ ps; idx := next |}.

Definition null_clause (f : FieldFilter) (alias : string) (b : bool) : string :=
  jsonExtract alias (FieldName f) (IsJSON f) +:+ (if b then " IS NULL" else " IS NOT NULL").

(** One leaf of [buildFilterGroupRecursive]. *)
Definition add_filter (alias : string) (a : acc) (f : FieldFilter) : result filter_error acc :=
  match IsNull f with
  | Some b => _ ← Validate f; Ok (acc_add a (null_clause f alias b) [] (idx a))
  | None =>
      match Validate f with
      | Err e => Err (EInvalid (FieldName f) e)
      | Ok _ => r ← buildSingleFilter f (idx a) alias;
                let '(clause, ps, next) := r : built in Ok (acc_add a clause ps next)
      end
  end.

(** [for _, x := range l] over an accumulator that a step may refuse. *)
Fixpoint fold_res {X} (step : acc -> X -> result filter_error acc) (a : acc) (l : list X)
  : result filter_error acc :=
  match l with
  | [] => Ok a
  | x :: l' => a' ← step a x; fold_res step a' l'
  end.

Definition exists_joined (p expr inner : string) : string :=
  if is_empty inner then
    "EXISTS (SELECT 1 FROM record d WHERE d.collection = " +:+ p +:+ " AND d.uri = " +:+ expr +:+ ")"
  else
    "EXISTS (SELECT 1 FROM record d WHERE d.collection = " +:+ p +:+ " AND d.uri = " +:+ expr
    +:+ " AND (" +:+ inner +:+ "))".

Definition exists_array (path inner : string) : string :=
  let from := "EXISTS (SELECT 1 FROM jsonb_array_elements(CASE WHEN jsonb_typeof(" +:+ path
              +:+ ") = 'array' THEN " +:+ path +:+ " ELSE '[]'::jsonb END) AS e(json)" in
  if is_empty inner then from +:+ ")" else from +:+ " WHERE " +:+ inner +:+ ")".

Definition finish (op : string) (a : acc) : string * list sqlparam :=
  match clauses a with
  | [] => ("", [])
  | [c] => (c, params a)
  | cs => (join cs (if String.eqb op GroupOR then " OR " else " AND "), params a)
  end.

(** [buildFilterGroupRecursive]; the call through
    [buildFilterGroupClauseWithAlias] is the call at depth 0. *)
Fixpoint buildFilterGroupRecursive (group : FilterGroup) (paramIdx depth : Z) (alias : string)
  : result filter_error (string * list sqlparam) :=
  if MaxFilterDepth <? depth then Err ETooDeep
  else if IsEmpty group then Ok ("", [])
  else
    a ← fold_res (add_filter alias) {| clauses := []; params := []; idx := paramIdx |}
          (Filters group);
    a ← fold_res (fun a child =>
          r ← buildFilterGroupRecursive child (idx a) (depth + 1) alias;
          let '(clause, ps) := r : string * list sqlparam in
          Ok (if is_empty clause then a
              else acc_add a ("(" +:+ clause +:+ ")") ps (idx a + Z.of_nat (length ps))))
          a (Children group);
    a ← fold_res (fun a j =>
          r ← buildFilterGroupRecursive (jInner j) (idx a) 0 "d";
          let '(inner, ps) := r : string * list sqlparam in
          let collParamIdx := idx a + Z.of_nat (length ps) in
          Ok (acc_add a (exists_joined (param collParamIdx) (JoinExpr j) inner)
                (ps ++ [PText (TargetCollection j)]) (collParamIdx + 1)))
          a (Joined group);
    a ← fold_res (fun a arr =>
          r ← buildFilterGroupRecursive (aInner arr) (idx a) 0 "e";
          let '(inner, ps) := r : string * list sqlparam in
          Ok (acc_add a (exists_array (ArrayPath arr) inner) ps (idx a + Z.of_nat (length ps))))
          a (Arrays group);
    Ok (finish (gOperator group) a).

Definition buildFilterGroupClauseWithAlias (group : FilterGroup) (paramOffset : Z) (alias : string)
  : result filter_error (string * list sqlparam) :=
  buildFilterGroupRecursive group paramOffset 0 alias.

Definition BuildFilterGroupClause (group : FilterGroup) (paramOffset : Z)
  : result filter_error (string * list sqlparam) :=
  if MaxFilterConditions <? CountConditions group
  then Err (ETooManyConditions (CountConditions group))
  else buildFilterGroupClauseWithAlias group paramOffset "r".

(** One turn of the loop of [BuildFieldFilterClause]. *)
Definition add_field_filter (a : acc) (f : FieldFilter) : result filter_error acc :=
  match Validate f with
  | Err e => Err (EInvalid (FieldName f) e)
  | Ok _ =>
      match IsNull f with
      | Some b => Ok (acc_add a (null_clause f "r" b) [] (idx a))
      | None => r ← buildSingleFilter f (idx a) "r";
                let '(clause, ps, next) := r : built in Ok (acc_add a clause ps next)
      end
  end.

Definition BuildFieldFilterClause (filters : list FieldFilter) (paramOffset : Z)
  : result filter_error (string * list sqlparam) :=
  if MaxFilterConditions <? Z.of_nat (length filters)
  then Err (ETooManyConditions (Z.of_nat (length filters)))
  else
    a ← fold_res add_field_filter {| clauses := []; params := []; idx := paramOffset |} filters;
    Ok (join (clauses a) " AND ", params a).
End WithLib.

(** ** Field names *)

(** What the regular expression accepts: an identifier. *)
Lemma segment_ident s : fieldSegmentRegex s = true -> all_bytes is_ident_byte s = true.
Proof.
  destruct s as [|c s]; [done|]. cbn. intros [Hc Hs]%andb_true_iff.
  unfold is_ident_byte at 1. by rewrite Hc.
Qed.

Lemma check_segments_Ok name parts u :
  check_segments name parts = Ok u <-> forallb fieldSegmentRegex parts = true.
Proof.
  destruct u. induction parts as [|p parts IH]; [done|]. cbn.
  by destruct (fieldSegmentRegex p); [rewrite IH|].
Qed.

Lemma ValidateFieldName_Ok name u : ValidateFieldName name = Ok u <->
  (length (split name "__") <= 3)%nat /\ forallb fieldSegmentRegex (split name "__") = true.
Proof.
  unfold ValidateFieldName. destruct (Nat.ltb_spec 3 (length (split name "__"))).
  - split; [done|lia].
  - rewrite check_segments_Ok. naive_solver.
Qed.

Lemma join_bytes f sep l : all_bytes f sep = true ->
  forallb (all_bytes f) l = true -> all_bytes f (join l sep) = true.
Proof.
  intros Hsep. induction l as [|x [|y l] IH]; [done|cbn; by rewrite andb_true_r|].
  intros [Hx Hl]%andb_true_iff. change (join (x :: y :: l) sep) with (x +:+ sep +:+ join (y :: l) sep).
  rewrite !all_bytes_app, Hx, Hsep. by apply IH.
Qed.

Lemma valid_name_ident name u : ValidateFieldName name = Ok u -> all_bytes is_ident_byte name = true.
Proof.
  intros [_ Hs]%ValidateFieldName_Ok. rewrite <-(join_split name "__") by done.
  apply join_bytes; [done|]. rewrite forallb_elem_of in Hs |- *. auto using segment_ident.
Qed.

(** The value at a path of object keys. *)
Fixpoint json_at (parts : list string) (v : json) : option json :=
  match parts with
  | [] => Some v
  | part :: rest => match v with JObj m => m !! part ≫= json_at rest | _ => None end
  end.

(** An accepted field name has one to three segments between double
    underscores, and every byte of it is an ASCII letter, a digit or an
    underscore: it can neither close a quoted JSON key nor start anything else in
    the SQL text it is pasted into; and the nested object that an equality
    filter binds holds the value at exactly that path. *)
Theorem field_name_safe name value : ValidateFieldName name = Ok () ->
  (1 <= length (split name "__") <= 3)%nat /\
  (forall b, b ∈ [34; 39; 36; 37; 40; 41; 45; 46; 59; 92; 32] ->
     all_bytes (fun x => negb (x =? b)) name = true) /\
  json_at (split name "__") (buildNestedContainment name value) = Some (value_json value).
Proof.
  intros Hv. pose proof (valid_name_ident _ _ Hv) as Hi.
  apply ValidateFieldName_Ok in Hv as [Hlen _].
  assert (split name "__" <> []) as Hne by apply split_nonempty.
  split; [destruct (split name "__"); cbn in *; [done|lia]|]. split.
  - intros b Hb. eapply all_bytes_impl; [|exact Hi]. intros x Hx.
    unfold is_ident_byte, is_ident_start in Hx. repeat apply elem_of_cons in Hb as [->|Hb]; try lia.
    by apply elem_of_nil in Hb.
  - assert (forall parts v,
              json_at parts (foldr (fun part r => JObj {[ part := r ]}) v parts) = Some v) as Hfold.
    { induction parts as [|p parts IH]; intros v; [done|]. cbn. rewrite lookup_singleton_eq. apply IH. }
    unfold buildNestedContainment. destruct (split name "__") as [|p [|q l]] eqn:E; [done| |].
    + cbn. assert (p = name) as ->; [|by rewrite lookup_singleton_eq].
      rewrite <-(join_split name "__") by done. by rewrite E.
    + apply Hfold.
Qed.

Lemma field_name_safe_witness :
  (1 <= length (split "badge__uri" "__") <= 3)%nat /\
  (forall b, b ∈ [34; 39; 36; 37; 40; 41; 45; 46; 59; 92; 32] ->
     all_bytes (fun x => negb (x =? b)) "badge__uri" = true) /\
  json_at (split "badge__uri" "__") (buildNestedContainment "badge__uri" (VJson (JStr "at://x")))
  = Some (JStr "at://x").
Proof. apply (field_name_safe "badge__uri" (VJson (JStr "at://x"))). by vm_compute. Defined.

(** ** Placeholders *)

(** SQL text as plain text and numbered placeholders. *)
Inductive piece := Txt (s : string) | Par (n : Z).
Definition render_piece (p : piece) : string := match p with Txt s => s | Par n => param n end.
Definition render (ps : list piece) : string := foldr (fun p s => render_piece p +:+ s) "" ps.
Definition pars (ps : list piece) : list Z :=
  omap (fun p => match p with Par n => Some n | Txt _ => None end) ps.
Definition no_dollar (s : string) : bool := all_bytes (fun b => negb (b =? 36)) s.
Definition plain_text (ps : list piece) : Prop := forall s, Txt s ∈ ps -> no_dollar s = true.

(** The placeholders of [c] are exactly [ns], each as often as it is listed: [c]
    is plain text without a dollar sign around them. *)
Definition frag (c : string) (ns : list Z) : Prop :=
  exists ps, render ps = c /\ pars ps ≡ₚ ns /\ plain_text ps.

Lemma frag_txt s : no_dollar s = true -> frag s [].
Proof.
  intros Hs. exists [Txt s]. split; [cbn; apply app_nil_r_str|]. split; [done|].
  intros t Ht. apply list_elem_of_singleton in Ht. by simplify_eq.
Qed.

Lemma frag_par n : frag (param n) [n].
Proof.
  exists [Par n]. split; [cbn; apply app_nil_r_str|]. split; [done|].
  intros t Ht. by apply list_elem_of_singleton in Ht.
Qed.

Lemma render_app ps qs : render (ps ++ qs) = render ps +:+ render qs.
Proof.
  induction ps as [|p ps IH]; [done|].
  change (render ((p :: ps) ++ qs)) with (render_piece p +:+ render (ps ++ qs)).
  rewrite IH. symmetry. apply app_assoc_str.
Qed.

Lemma frag_app c d ns ms : frag c ns -> frag d ms -> frag (c +:+ d) (ns ++ ms).
Proof.
  intros (ps & <- & Hn & Hp) (qs & <- & Hm & Hq). exists (ps ++ qs).
  split; [apply render_app|]. split.
  - unfold pars. rewrite omap_app. by f_equiv.
  - intros s [Hs|Hs]%elem_of_app; auto.
Qed.

Lemma frag_perm c ns ms : ns ≡ₚ ms -> frag c ns -> frag c ms.
Proof. intros Hp (ps & ? & Hn & ?). exists ps. split_and!; [done|by rewrite Hn|done]. Qed.

Lemma frag_app_nil_l c d ms : frag c [] -> frag d ms -> frag (c +:+ d) ms.
Proof. apply (frag_app c d []). Qed.
Lemma frag_app_nil_r c d ns : frag c ns -> frag d [] -> frag (c +:+ d) ns.
Proof. intros Hc Hd. rewrite <-(app_nil_r ns). by apply frag_app. Qed.

Create HintDb frag.
#[local] Hint Resolve frag_par : frag.
#[local] Hint Extern 1 (frag _ []) => apply frag_txt; (done || by vm_compute) : frag.

(** Splits a concatenation of literals around one fragment that carries the
    placeholders. *)
Ltac frag_step :=
  first [ eassumption
        | apply frag_par
        | apply frag_txt; first [eassumption | by vm_compute]
        | apply frag_app_nil_l; [solve [repeat frag_step]|]
        | apply frag_app_nil_r; [|solve [repeat frag_step]] ].
Ltac frag := repeat frag_step.

Lemma frag_join l ns sep : no_dollar sep = true -> Forall2 frag l ns -> frag (join l sep) (concat ns).
Proof.
  intros Hsep. induction 1 as [|c n l ns Hc Hl IH]; [by apply frag_txt|].
  destruct Hl as [|d m l ns Hd Hl]; [cbn; by rewrite app_nil_r|].
  change (join (c :: d :: l) sep) with (c +:+ sep +:+ join (d :: l) sep).
  cbn [concat]. apply frag_app; [done|]. apply frag_app_nil_l; [by apply frag_txt|done].
Qed.

(** *** Expressions hold no placeholder *)

Lemma ident_no_dollar s : all_bytes is_ident_byte s = true -> no_dollar s = true.
Proof. apply all_bytes_impl. unfold is_ident_byte, is_ident_start. lia. Qed.

Lemma json_path_frag parts : forall expr, frag expr [] ->
  forallb no_dollar parts = true -> frag (json_path expr parts) [].
Proof.
  induction parts as [|p [|q parts] IH]; intros expr He; [done| |].
  - cbn. rewrite andb_true_r. intros Hp. frag.
  - intros [Hp Hl]%andb_true_iff. apply IH; [frag|done].
Qed.

(** [jsonExtract] over an accepted name is text without a placeholder. *)
Lemma jsonExtract_frag alias name isJSON u : no_dollar alias = true ->
  ValidateFieldName name = Ok u -> frag (jsonExtract alias name isJSON) [].
Proof.
  intros Ha Hv. pose proof (ident_no_dollar _ (valid_name_ident _ _ Hv)) as Hn.
  assert (forallb no_dollar (split name "__") = true) as Hp.
  { apply ValidateFieldName_Ok in Hv as [_ Hs]. rewrite forallb_elem_of in Hs |- *.
    auto using segment_ident, ident_no_dollar. }
  unfold jsonExtract, qualifyColumn. destruct isJSON; cbn [negb]; [|frag].
  destruct (split name "__") as [|p [|q l]] eqn:E; [frag|frag|].
  apply andb_true_iff in Hp as [Hp Hl]. apply json_path_frag; [frag|done].
Qed.

(** *** One filter uses one placeholder *)

Lemma jsonExtractTyped_frag alias name ty isJSON u : no_dollar alias = true ->
  ValidateFieldName name = Ok u -> frag (jsonExtractTyped alias name ty isJSON) [].
Proof.
  intros Ha Hv. pose proof (jsonExtract_frag _ _ true _ Ha Hv) as He.
  pose proof (ident_no_dollar _ (valid_name_ident _ _ Hv)) as Hn.
  unfold jsonExtractTyped, qualifyColumn. destruct isJSON; cbn [negb]; [|frag].
  repeat case_match; frag.
Qed.

Section Frag.
Context `{FilterLib}.

Lemma sqlOp_frag op : frag (sqlOp op) [].
Proof. unfold sqlOp. repeat case_match; frag. Qed.

Lemma buildSingleFilter_frag f n alias c ps next : no_dollar alias = true ->
  buildSingleFilter f n alias = Ok (c, ps, next) ->
  frag c [n] /\ length ps = 1%nat /\ next = n + 1.
Proof.
  intros Ha (u & Hv & Hb)%bind_Ok.
  pose proof (jsonExtract_frag _ _ (IsJSON f) _ Ha Hv) as He.
  pose proof (jsonExtractTyped_frag _ _ (LexiconType f) (IsJSON f) _ Ha Hv) as Ht.
  pose proof (ident_no_dollar _ (valid_name_ident _ _ Hv)) as Hn.
  pose proof (sqlOp_frag (Operator f)) as Ho.
  unfold buildScalarFilter, buildContributorFilter, buildBadgeAwardSubjectFilter,
    buildStringSubjectFilter, qualifyColumn in Hb.
  repeat case_match; simplify_eq; (split; [frag|split; done]).
Qed.

(** *** The loops *)

(** The accumulated clauses hold exactly the placeholders handed out so far. *)
Definition acc_ok (off : Z) (a : acc) : Prop :=
  (exists nss, Forall2 frag (clauses a) nss /\ concat nss ≡ₚ seqZ off (Z.of_nat (length (params a))))
  /\ idx a = off + Z.of_nat (length (params a)).

Lemma acc_ok_init off : acc_ok off {| clauses := []; params := []; idx := off |}.
Proof. split; [exists []; by split|cbn; lia]. Qed.

Lemma acc_add_ok off a c ps next : acc_ok off a ->
  frag c (seqZ (idx a) (Z.of_nat (length ps))) -> next = idx a + Z.of_nat (length ps) ->
  acc_ok off (acc_add a c ps next).
Proof.
  intros [(nss & Hf & Hp) Hi] Hc ->. split; cbn; rewrite length_app; [|lia].
  exists (nss ++ [seqZ (idx a) (Z.of_nat (length ps))]). split.
  - apply Forall2_app; [done|]. by constructor.
  - rewrite concat_app, Hp. cbn. rewrite app_nil_r, Hi, Nat2Z.inj_add, seqZ_app by lia. done.
Qed.

Lemma fold_res_inv {X} (I : acc -> Prop) (step : acc -> X -> result filter_error acc) l :
  (forall a x a', x ∈ l -> I a -> step a x = Ok a' -> I a') ->
  forall a a', I a -> fold_res step a l = Ok a' -> I a'.
Proof.
  induction l as [|x l IH]; intros Hs a a' Ha; cbn; [by intros [= <-]|].
  intros (a1 & H1 & H2)%bind_Ok. eapply IH; [|eapply Hs; [left|exact Ha|exact H1]|exact H2].
  intros. eapply Hs; [by right|done|done].
Qed.

Lemma null_clause_frag f alias b u : no_dollar alias = true ->
  ValidateFieldName (FieldName f) = Ok u -> frag (null_clause f alias b) [].
Proof.
  intros Ha Hv. pose proof (jsonExtract_frag _ _ (IsJSON f) _ Ha Hv). unfold null_clause.
  destruct b; frag.
Qed.

Lemma Validate_name f u : Validate f = Ok u -> exists u', ValidateFieldName (FieldName f) = Ok u'.
Proof. intros (u' & Hv & _)%bind_Ok. by exists u'. Qed.

Lemma add_null_ok off f a alias b u : no_dollar alias = true -> acc_ok off a ->
  ValidateFieldName (FieldName f) = Ok u ->
  acc_ok off (acc_add a (null_clause f alias b) [] (idx a)).
Proof.
  intros Ha Hok Hv. apply acc_add_ok; [done| |cbn; lia].
  by eapply (null_clause_frag f alias b u).
Qed.

Lemma add_single_ok off f a alias c ps next : no_dollar alias = true -> acc_ok off a ->
  buildSingleFilter f (idx a) alias = Ok (c, ps, next) -> acc_ok off (acc_add a c ps next).
Proof.
  intros Ha Hok Hb. destruct (buildSingleFilter_frag _ _ _ _ _ _ Ha Hb) as (Hf & Hl & ->).
  by apply acc_add_ok; rewrite ?Hl.
Qed.

Lemma add_filter_ok off alias a f a' : no_dollar alias = true -> acc_ok off a ->
  add_filter alias a f = Ok a' -> acc_ok off a'.
Proof.
  intros Ha Hok. unfold add_filter. destruct (IsNull f) as [b|].
  - intros (u & Hv & [= <-])%bind_Ok. apply Validate_name in Hv as [u' Hv].
    by eapply add_null_ok.
  - destruct (Validate f); [|done]. intros ([[c ps] next] & Hb & [= <-])%bind_Ok.
    by eapply add_single_ok.
Qed.

Lemma add_field_filter_ok off a f a' : acc_ok off a ->
  add_field_filter a f = Ok a' -> acc_ok off a'.
Proof.
  intros Hok. unfold add_field_filter. destruct (Validate f) as [u|] eqn:Hv; [|done].
  destruct (IsNull f) as [b|].
  - intros [= <-]. apply Validate_name in Hv as [u' Hv].
    by apply (add_null_ok off f a "r" b u').
  - intros ([[c ps] next] & Hb & [= <-])%bind_Ok.
    by apply (add_single_ok off f a "r").
Qed.

Lemma finish_frag off op a : acc_ok off a ->
  frag (finish op a).1 (seqZ off (Z.of_nat (length (finish op a).2))).
Proof.
  intros [(nss & Hf & Hp) _]. unfold finish.
  destruct Hf as [|c ns cs nss Hc Hcs]; [by apply frag_txt|].
  destruct Hcs as [|d ms cs nss Hd Hcs]; cbn [fst snd].
  - eapply frag_perm; [|exact Hc]. rewrite <-Hp. cbn. by rewrite app_nil_r.
  - eapply frag_perm; [exact Hp|]. apply frag_join; [by case_match|].
    by repeat constructor.
Qed.
End Frag.

(** *** Groups *)

(** Induction over a group, its sub-groups and the groups of its subqueries. *)
Lemma FilterGroup_nested_ind (P : FilterGroup -> Prop) :
  (forall g, Forall P (Children g) -> Forall (fun j => P (jInner j)) (Joined g) ->
             Forall (fun a => P (aInner a)) (Arrays g) -> P g) ->
  forall g, P g.
Proof.
  intros Hstep. fix IH 1. intros [op fs cs js ars]. apply Hstep; cbn.
  - induction cs as [|c cs IHl]; constructor; [apply IH|exact IHl].
  - induction js as [|[tc e g] js IHl]; constructor; [apply IH|exact IHl].
  - induction ars as [|[n p g] ars IHl]; constructor; [apply IH|exact IHl].
Qed.

(** The SQL fragments of the registries, pasted as they are, hold no dollar
    sign. *)
Fixpoint exprs_ok (g : FilterGroup) : bool :=
  forallb exprs_ok (Children g) &&
  forallb (fun j => no_dollar (JoinExpr j) && exprs_ok (jInner j)) (Joined g) &&
  forallb (fun a => no_dollar (ArrayPath a) && exprs_ok (aInner a)) (Arrays g).

Lemma frag_empty ns : frag "" ns -> ns = [].
Proof.
  intros (ps & Hr & Hp & _). apply Permutation_nil. rewrite <-Hp. clear Hp.
  induction ps as [|[s|m] ps IH]; [done| |done]. cbn in Hr. destruct s; [|done]. by rewrite <-IH.
Qed.

Lemma exists_joined_frag n expr inner ns : no_dollar expr = true -> frag inner ns ->
  frag (exists_joined (param n) expr inner) (ns ++ [n]).
Proof.
  intros He Hi. unfold exists_joined. destruct inner as [|c inner]; cbn [is_empty].
  - assert (ns = []) as ->; [|frag].
    by apply frag_empty.
  - eapply frag_perm; [apply Permutation_app_comm|]. cbn [app].
    apply frag_app_nil_l; [by apply frag_txt|]. apply (frag_app _ _ [n]); [frag|].
    frag.
Qed.

Lemma exists_array_frag path inner ns : no_dollar path = true -> frag inner ns ->
  frag (exists_array path inner) ns.
Proof.
  intros He Hi. unfold exists_array. destruct inner as [|c inner]; cbn [is_empty].
  - rewrite (frag_empty _ Hi). frag.
  - apply frag_app_nil_l; [frag|]. frag.
Qed.

Section Group.
Context `{FilterLib}.

(** The three loops over sub-groups, as steps on the accumulator. *)
Lemma child_ok off a c ps : acc_ok off a ->
  frag c (seqZ (idx a) (Z.of_nat (length ps))) ->
  acc_ok off (if is_empty c then a
              else acc_add a ("(" +:+ c +:+ ")") ps (idx a + Z.of_nat (length ps))).
Proof. intros Hok Hc. destruct (is_empty c); [done|]. apply acc_add_ok; [done|frag|done]. Qed.

Lemma joined_ok off a c ps expr coll : acc_ok off a -> no_dollar expr = true ->
  frag c (seqZ (idx a) (Z.of_nat (length ps))) ->
  acc_ok off (acc_add a (exists_joined (param (idx a + Z.of_nat (length ps))) expr c)
                (ps ++ [PText coll]) (idx a + Z.of_nat (length ps) + 1)).
Proof.
  intros Hok He Hc. apply acc_add_ok; [done| |rewrite length_app; cbn; lia].
  eapply frag_perm; [|by apply exists_joined_frag]. rewrite length_app, Nat2Z.inj_add.
  by rewrite seqZ_app by lia.
Qed.

Lemma array_ok off a c ps path : acc_ok off a -> no_dollar path = true ->
  frag c (seqZ (idx a) (Z.of_nat (length ps))) ->
  acc_ok off (acc_add a (exists_array path c) ps (idx a + Z.of_nat (length ps))).
Proof. intros Hok He Hc. apply acc_add_ok; [done|by apply exists_array_frag|done]. Qed.

Lemma build_frag g : forall off depth alias c ps, no_dollar alias = true -> exprs_ok g = true ->
  buildFilterGroupRecursive g off depth alias = Ok (c, ps) ->
  frag c (seqZ off (Z.of_nat (length ps))).
Proof.
  induction g as [g Hc Hj Ha] using FilterGroup_nested_ind.
  intros off depth alias c ps Hal He Hb.
  rewrite Forall_forall in Hc. rewrite Forall_forall in Hj. rewrite Forall_forall in Ha.
  assert (forallb exprs_ok (Children g) = true /\
          forallb (fun j => no_dollar (JoinExpr j) && exprs_ok (jInner j)) (Joined g) = true /\
          forallb (fun a => no_dollar (ArrayPath a) && exprs_ok (aInner a)) (Arrays g) = true)
    as (Hec & Hej & Hea) by (destruct g; cbn in He; by split_bools).
  rewrite forallb_elem_of in Hec. rewrite forallb_elem_of in Hej.
  rewrite forallb_elem_of in Hea. clear He.
  destruct g as [op fs cs js ars]. cbn [buildFilterGroupRecursive Filters Children Joined Arrays
    gOperator] in *.
  destruct (MaxFilterDepth <? depth); [done|]. destruct (IsEmpty _); [simplify_eq; by apply frag_txt|].
  apply bind_Ok in Hb as (a1 & H1 & Hb). apply bind_Ok in Hb as (a2 & H2 & Hb).
  apply bind_Ok in Hb as (a3 & H3 & Hb). apply bind_Ok in Hb as (a4 & H4 & Hb).
  simplify_eq.
  assert (acc_ok off a4) as Hok; [|pose proof (finish_frag off op a4 Hok) as Hf; by rewrite Hb in Hf].
  revert H4. apply (fold_res_inv (acc_ok off)).
  { intros a arr a' Hin Hok ([i qs] & Hi & [= <-])%bind_Ok.
    specialize (Hea _ Hin). split_bools. apply array_ok; [done..|].
    by apply (Ha _ Hin (idx a) 0 "e"). }
  revert H3. apply (fold_res_inv (acc_ok off)).
  { intros a j a' Hin Hok ([i qs] & Hi & [= <-])%bind_Ok.
    specialize (Hej _ Hin). split_bools. apply joined_ok; [done..|].
    by apply (Hj _ Hin (idx a) 0 "d"). }
  revert H2. apply (fold_res_inv (acc_ok off)).
  { intros a ch a' Hin Hok ([i qs] & Hi & [= <-])%bind_Ok.
    apply child_ok; [done|].
    by apply (Hc _ Hin (idx a) (depth + 1) alias); auto. }
  revert H1. apply (fold_res_inv (acc_ok off)); [|apply acc_ok_init].
  intros a f a' _. by apply add_filter_ok.
Qed.

(** When a filter tree is compiled with a first placeholder number, the
    clause holds exactly the placeholders from that number on, one for each bound
    parameter and each exactly once, and no other dollar sign: parameters and
    placeholders can never drift apart, across sub-groups, joined and array
    subqueries. *)
Theorem BuildFilterGroupClause_placeholders g off c ps : exprs_ok g = true ->
  BuildFilterGroupClause g off = Ok (c, ps) -> frag c (seqZ off (Z.of_nat (length ps))).
Proof.
  unfold BuildFilterGroupClause, buildFilterGroupClauseWithAlias. intros He.
  destruct (_ <? _); [done|]. by apply build_frag.
Qed.

(** The same for the flat list of filters. *)
Theorem BuildFieldFilterClause_placeholders filters off c ps :
  BuildFieldFilterClause filters off = Ok (c, ps) -> frag c (seqZ off (Z.of_nat (length ps))).
Proof.
  unfold BuildFieldFilterClause. destruct (_ <? _); [done|]. intros (a & Ha & [= <- <-])%bind_Ok.
  assert (acc_ok off a) as [(nss & Hf & Hp) _].
  { revert Ha. apply (fold_res_inv (acc_ok off)); [|apply acc_ok_init].
    intros a1 f a2 _. apply add_field_filter_ok. }
  eapply frag_perm; [exact Hp|]. by apply frag_join.
Qed.
End Group.

(** ** The text does not depend on the values *)

Section Values.
Context `{FilterLib}.

(** A filter without its value; what is kept of it is whether it is a list that
    holds a null. *)
Definition erase_filter (f : FieldFilter) : FieldFilter :=
  {| FieldName := FieldName f; Operator := Operator f;
     Value := VJson (JBool (extractInValues (Value f)).2); IsNull := IsNull f;
     IsJSON := IsJSON f; LexiconType := LexiconType f; Kind := Kind f |}.

Fixpoint erase (g : FilterGroup) : FilterGroup :=
  mkGroup (gOperator g) (erase_filter <$> Filters g) (map erase (Children g))
    (map (fun j => {| TargetCollection := ""; JoinExpr := JoinExpr j; jInner := erase (jInner j) |})
       (Joined g))
    (map (fun a => {| aFieldName := ""; ArrayPath := ArrayPath a; aInner := erase (aInner a) |})
       (Arrays g)).

Lemma buildSingleFilter_text f g n alias c d ps qs nf ng : erase_filter f = erase_filter g ->
  buildSingleFilter f n alias = Ok (c, ps, nf) -> buildSingleFilter g n alias = Ok (d, qs, ng) ->
  c = d /\ length ps = length qs /\ nf = ng.
Proof.
  destruct f as [fn op v nul js ty k], g as [fn' op' v' nul' js' ty' k'].
  unfold erase_filter; cbn. intros [= <- <- Hv <- <- <- <-].
  unfold buildSingleFilter, buildScalarFilter, buildContributorFilter, buildBadgeAwardSubjectFilter,
    buildStringSubjectFilter; cbn [FieldName Operator Value IsNull IsJSON LexiconType Kind].
  destruct (extractInValues v) as [l b], (extractInValues v') as [l' b']; cbn in Hv; subst b'.
  destruct (ValidateFieldName fn); cbn; [|done].
  destruct k; cbn; repeat (case_match; try done); intros; by simplify_eq/=.
Qed.

(** Two runs in step. *)
Definition acc_sim (a b : acc) : Prop :=
  clauses a = clauses b /\ idx a = idx b /\ length (params a) = length (params b).

Lemma acc_sim_add a b c ps qs n : acc_sim a b -> length ps = length qs ->
  acc_sim (acc_add a c ps n) (acc_add b c qs n).
Proof. intros (Hc & Hi & Hl) Hps. unfold acc_sim; cbn. rewrite !length_app, Hc. auto. Qed.

Lemma fold_res_sim {X} (S : X -> X -> Prop) (s1 s2 : acc -> X -> result filter_error acc) l m :
  Forall2 S l m ->
  (forall a b x y a' b', x ∈ l -> S x y -> acc_sim a b -> s1 a x = Ok a' -> s2 b y = Ok b' ->
     acc_sim a' b') ->
  forall a b a' b', acc_sim a b -> fold_res s1 a l = Ok a' -> fold_res s2 b m = Ok b' -> acc_sim a' b'.
Proof.
  induction 1 as [|x y l m Hxy Hlm IH]; intros Hs a b a' b' Hab; cbn; [by intros [= <-] [= <-]|].
  intros (a1 & H1 & H2)%bind_Ok (b1 & H3 & H4)%bind_Ok.
  eapply IH; [intros; eapply Hs; [by right|..]; done| |done|done].
  eapply Hs; [left|done..].
Qed.

Lemma map_eq_Forall2 {A B} (f : A -> B) l m : map f l = map f m -> Forall2 (fun x y => f x = f y) l m.
Proof.
  revert m; induction l as [|x l IH]; intros [|y m]; cbn; try done.
  intros [= Hx Hl]. constructor; auto.
Qed.

Lemma add_filter_sim alias a b f g a' b' : erase_filter f = erase_filter g -> acc_sim a b ->
  add_filter alias a f = Ok a' -> add_filter alias b g = Ok b' -> acc_sim a' b'.
Proof.
  intros He Hs. assert (IsNull f = IsNull g /\ null_clause f alias = null_clause g alias) as [Hn Hc].
  { unfold erase_filter in He. unfold null_clause. injection He as -> _ _ -> -> _ _. done. }
  unfold add_filter. rewrite Hn. destruct (IsNull g) as [nb|].
  - intros (? & _ & [= <-])%bind_Ok (? & _ & [= <-])%bind_Ok. rewrite Hc.
    destruct Hs as (? & Hi & ?). rewrite Hi. by apply acc_sim_add.
  - destruct (Validate f); [|done]. destruct (Validate g); [|done].
    intros ([[c ps] n] & Hf & [= <-])%bind_Ok ([[d qs] m] & Hg & [= <-])%bind_Ok.
    rewrite (proj1 (proj2 Hs)) in Hf.
    destruct (buildSingleFilter_text _ _ _ _ _ _ _ _ _ _ He Hf Hg) as (-> & Hl & ->).
    by apply acc_sim_add.
Qed.

Lemma build_text g : forall h off depth alias c d ps qs, erase g = erase h ->
  buildFilterGroupRecursive g off depth alias = Ok (c, ps) ->
  buildFilterGroupRecursive h off depth alias = Ok (d, qs) -> c = d /\ length ps = length qs.
Proof.
  induction g as [g Hc Hj Ha] using FilterGroup_nested_ind.
  rewrite Forall_forall in Hc. rewrite Forall_forall in Hj. rewrite Forall_forall in Ha.
  intros [op' fs' cs' js' ars'] off depth alias c d ps qs He Hg Hh.
  destruct g as [op fs cs js ars]. cbn [erase gOperator Filters Children Joined Arrays] in He, Hc, Hj, Ha.
  injection He as <- Ef Ec Ej Ea.
  apply map_eq_Forall2 in Ef, Ec, Ej, Ea.
  assert (IsEmpty (mkGroup op fs cs js ars) = IsEmpty (mkGroup op fs' cs' js' ars')) as Hempty.
  { unfold IsEmpty; cbn. by inversion Ef; inversion Ec; inversion Ej; inversion Ea. }
  cbn [buildFilterGroupRecursive gOperator Filters Children Joined Arrays] in Hg, Hh.
  destruct (MaxFilterDepth <? depth); [done|]. rewrite <-Hempty in Hh.
  destruct (IsEmpty _); [by simplify_eq|].
  apply bind_Ok in Hg as (a1 & G1 & Hg). apply bind_Ok in Hg as (a2 & G2 & Hg).
  apply bind_Ok in Hg as (a3 & G3 & Hg). apply bind_Ok in Hg as (a4 & G4 & Hg).
  apply bind_Ok in Hh as (b1 & H1 & Hh). apply bind_Ok in Hh as (b2 & H2 & Hh).
  apply bind_Ok in Hh as (b3 & H3 & Hh). apply bind_Ok in Hh as (b4 & H4 & Hh).
  simplify_eq.
  assert (acc_sim a4 b4) as (Hcl & _ & Hl).
  - revert G4 H4. apply (fold_res_sim _ _ _ _ _ Ea).
    { intros a b x y a' b' Hin [= Hp Hi] Hs ([i us] & Hx & [= <-])%bind_Ok ([k vs] & Hy & [= <-])%bind_Ok.
      rewrite (proj1 (proj2 Hs)) in Hx. destruct (Ha _ Hin _ _ _ _ _ _ _ _ Hi Hx Hy) as [-> Hlen].
      rewrite Hp, Hlen, (proj1 (proj2 Hs)). by apply acc_sim_add. }
    revert G3 H3. apply (fold_res_sim _ _ _ _ _ Ej).
    { intros a b x y a' b' Hin [= Hp Hi] Hs ([i us] & Hx & [= <-])%bind_Ok ([k vs] & Hy & [= <-])%bind_Ok.
      rewrite (proj1 (proj2 Hs)) in Hx. destruct (Hj _ Hin _ _ _ _ _ _ _ _ Hi Hx Hy) as [-> Hlen].
      rewrite Hp, Hlen, (proj1 (proj2 Hs)). apply acc_sim_add; [done|]. by rewrite !length_app, Hlen. }
    revert G2 H2. apply (fold_res_sim _ _ _ _ _ Ec).
    { intros a b x y a' b' Hin Hi Hs ([i us] & Hx & [= <-])%bind_Ok ([k vs] & Hy & [= <-])%bind_Ok.
      rewrite (proj1 (proj2 Hs)) in Hx. destruct (Hc _ Hin _ _ _ _ _ _ _ _ Hi Hx Hy) as [-> Hlen].
      destruct (is_empty k); [done|]. rewrite Hlen, (proj1 (proj2 Hs)). by apply acc_sim_add. }
    revert G1 H1. apply (fold_res_sim _ _ _ _ _ Ef); [|done].
    intros a b x y a' b' _. apply add_filter_sim.
  - unfold finish in Hg, Hh. rewrite <-Hcl in Hh. destruct (clauses a4) as [|? []]; by simplify_eq.
Qed.

(** C3: the SQL text of a filter tree never depends on the values that are
    compared with, nor on the target collections: two trees that differ only in
    them (and agree on which lists hold a null) compile to the same text with as
    many bound parameters. *)
Theorem BuildFilterGroupClause_value_independent g h off c d ps qs : erase g = erase h ->
  BuildFilterGroupClause g off = Ok (c, ps) -> BuildFilterGroupClause h off = Ok (d, qs) ->
  c = d /\ length ps = length qs.
Proof.
  unfold BuildFilterGroupClause, buildFilterGroupClauseWithAlias. intros He.
  do 2 (destruct (_ <? _); [done|]). by apply build_text.
Qed.
End Values.

(** ** No panic *)

Section Panic.
Context `{FilterLib}.

Lemma fold_res_Err {X} (step : acc -> X -> result filter_error acc) l e : forall a,
  fold_res step a l = Err e -> exists a' x, x ∈ l /\ step a' x = Err e.
Proof.
  induction l as [|x l IH]; intros a; cbn; [done|].
  destruct (step a x) as [a'|e'] eqn:E; cbn.
  - intros (b & y & Hy & He)%IH. exists b, y. split; [by right|done].
  - intros [= ->]. exists a, x. split; [left|done].
Qed.

Lemma ValidateFieldName_no_panic name : ValidateFieldName name <> Err EPanic.
Proof.
  unfold ValidateFieldName. case_match; [done|]. generalize (split name "__") as parts.
  intros parts. induction parts; cbn; [done|]. by case_match.
Qed.

Lemma validateInListShape_no_panic v op : validateInListShape v op <> Err EPanic.
Proof. unfold validateInListShape, guard_err. by repeat case_match. Qed.

Lemma Validate_no_panic f : Validate f <> Err EPanic.
Proof.
  unfold Validate. destruct (ValidateFieldName (FieldName f)) eqn:E; cbn;
    [|intros [= ->]; by apply (ValidateFieldName_no_panic (FieldName f))].
  unfold validateText, guard_err.
  repeat case_match; try done; try apply validateInListShape_no_panic.
  all: destruct (validateInListShape _ _) eqn:E'; cbn; [done|].
  all: intros [= ->]; by apply (validateInListShape_no_panic (Value f) "ini").
Qed.

(** After validation the two LIKE operators have a string. *)
Lemma buildSingleFilter_no_panic f n alias u : Validate f = Ok u -> IsNull f = None ->
  buildSingleFilter f n alias <> Err EPanic.
Proof.
  intros (u' & Hn & Hv)%bind_Ok Hnull. rewrite Hnull in Hv. unfold buildSingleFilter. rewrite Hn.
  cbn [mbind result_bind].
  unfold buildScalarFilter, buildContributorFilter, buildBadgeAwardSubjectFilter,
    buildStringSubjectFilter.
  destruct (String.eqb (Operator f) OpContains) eqn:Hc.
  { unfold validateText in Hv. destruct (Value f) as [[]|]; try done.
    by repeat case_match. }
  destruct (String.eqb (Operator f) OpStartsWith) eqn:Hs.
  { unfold validateText in Hv. destruct (Value f) as [[]|]; try done.
    by repeat case_match. }
  by repeat case_match.
Qed.

Lemma add_filter_no_panic alias a f : add_filter alias a f <> Err EPanic.
Proof.
  unfold add_filter. destruct (IsNull f) eqn:Hn.
  - destruct (Validate f) eqn:Hv; cbn; [done|]. intros [= ->]. by apply (Validate_no_panic f).
  - destruct (Validate f) eqn:Hv; [|done].
    destruct (buildSingleFilter f (idx a) alias) as [[[]]|e] eqn:Hb; cbn; [done|]. intros [= ->].
    by apply (buildSingleFilter_no_panic f (idx a) alias a0).
Qed.

Lemma bind_no_panic {A B} (r : result filter_error A) (f : A -> result filter_error B) :
  r <> Err EPanic -> (forall a, f a <> Err EPanic) -> r ≫= f <> Err EPanic.
Proof. destruct r; cbn; naive_solver. Qed.

Lemma build_no_panic g : forall off depth alias,
  buildFilterGroupRecursive g off depth alias <> Err EPanic.
Proof.
  induction g as [g Hc Hj Ha] using FilterGroup_nested_ind. intros off depth alias.
  rewrite Forall_forall in Hc. rewrite Forall_forall in Hj. rewrite Forall_forall in Ha.
  destruct g as [op fs cs js ars]. cbn in Hc, Hj, Ha.
  cbn [buildFilterGroupRecursive Filters Children Joined Arrays gOperator].
  destruct (_ <? _); [done|]. destruct (IsEmpty _); [done|].
  repeat (apply bind_no_panic; [|intros ?]); [..|done].
  all: intros (b & x & Hx & Hp)%fold_res_Err; revert Hp.
  - apply add_filter_no_panic.
  - apply bind_no_panic; [by apply Hc|by intros []].
  - apply bind_no_panic; [by apply Hj|by intros []].
  - apply bind_no_panic; [by apply Ha|by intros []].
Qed.

(** Compiling a filter tree never hits the unchecked type assertion of the
    two LIKE operators, and never accepts a tree of more than 20 conditions
    counted across every sub-group and subquery. *)
Theorem BuildFilterGroupClause_guarded g off :
  BuildFilterGroupClause g off <> Err EPanic /\
  (is_ok (BuildFilterGroupClause g off) = true -> CountConditions g <= MaxFilterConditions).
Proof.
  unfold BuildFilterGroupClause. destruct (Z.ltb_spec MaxFilterConditions (CountConditions g)).
  - done.
  - split; [apply build_no_panic|lia].
Qed.
End Panic.

(** ** LIKE patterns *)

(** What the database documents of LIKE and ILIKE with ESCAPE backslash, byte by
    byte: [like s p] for a subject and a pattern, [ceq] when two bytes match. *)
Class LikeLaws (like : string -> string -> bool) (ceq : ascii -> ascii -> bool) := {
  like_end : forall s, like s "" = true <-> s = "";
  like_any : forall s p, like s (String "%" p) = true <->
    exists a b, s = a +:+ b /\ like b p = true;
  like_escaped : forall s c p, like s (String "\" (String c p)) = true <->
    exists d t, s = String d t /\ ceq d c = true /\ like t p = true;
  like_literal : forall s c p, c <> "%"%char -> c <> "_"%char -> c <> "\"%char ->
    like s (String c p) = true <-> exists d t, s = String d t /\ ceq d c = true /\ like t p = true
}.

(** Two strings that match byte by byte. *)
Fixpoint str_match (ceq : ascii -> ascii -> bool) (s t : string) : bool :=
  match s, t with
  | EmptyString, EmptyString => true
  | String c s', String d t' => ceq c d && str_match ceq s' t'
  | _, _ => false
  end.

Definition escape_byte (c : ascii) : string :=
  if Ascii.eqb c "\" || Ascii.eqb c "%" || Ascii.eqb c "_" then String "\" (String c "")
  else String c "".

Lemma replace_byte_app c new s t :
  replace_byte c new (s +:+ t) = replace_byte c new s +:+ replace_byte c new t.
Proof.
  induction s as [|d s IH]; [done|]. rewrite app_cons_str. cbn [replace_byte].
  rewrite IH. destruct (Ascii.eqb d c); [by rewrite app_assoc_str|done].
Qed.

(** The three replacements escape byte by byte. *)
Lemma escapeLike_cons c s : escapeLike (String c s) = escape_byte c +:+ escapeLike s.
Proof.
  change (String c s) with (String c "" +:+ s). unfold escapeLike. rewrite !replace_byte_app.
  f_equal. unfold escape_byte. cbn.
  destruct (Ascii.eqb_spec c "\") as [->|]; [done|]. cbn.
  destruct (Ascii.eqb_spec c "%") as [->|]; [done|]. cbn.
  by destruct (Ascii.eqb_spec c "_") as [->|].
Qed.

Section Like.
Context (like : string -> string -> bool) (ceq : ascii -> ascii -> bool) `{LikeLaws like ceq}.

Lemma like_escape_byte s c p : like s (escape_byte c +:+ p) = true <->
  exists d t, s = String d t /\ ceq d c = true /\ like t p = true.
Proof.
  unfold escape_byte. destruct (_ || _) eqn:E.
  - apply like_escaped.
  - apply orb_false_iff in E as [[?%Ascii.eqb_neq ?%Ascii.eqb_neq]%orb_false_iff ?%Ascii.eqb_neq].
    by apply like_literal.
Qed.

Lemma like_escapeLike v : forall s p, like s (escapeLike v +:+ p) = true <->
  exists m b, s = m +:+ b /\ str_match ceq m v = true /\ like b p = true.
Proof.
  induction v as [|c v IH]; intros s p.
  - split; [intros Hl; exists "", s; done|]. intros (m & b & -> & Hm & Hl). by destruct m.
  - rewrite escapeLike_cons, app_assoc_str, like_escape_byte. split.
    + intros (d & t & -> & Hd & (m & b & -> & Hm & Hl)%IH). exists (String d m), b. cbn.
      by rewrite Hd.
    + intros ([|d m] & b & -> & Hm & Hl); [done|]. cbn in Hm. split_bools.
      exists d, (m +:+ b). split_and!; [done|done|]. apply IH. by exists m, b.
Qed.

Lemma like_rest b : like b "%" = true.
Proof. apply like_any. exists b, "". split; [by rewrite app_nil_r_str|by apply like_end]. Qed.
End Like.

(** The bound value of a contains filter is escaped so that the pattern the
    clause builds around it matches exactly the texts that have the user's
    value, percent signs and underscores included, as a substring; the pattern
    of a startsWith filter, those that start with it. *)
Theorem escapeLike_literal like ceq `{LikeLaws like ceq} text value :
  (like text ("%" +:+ escapeLike value +:+ "%") = true <->
   exists a m b, text = a +:+ m +:+ b /\ str_match ceq m value = true) /\
  (like text (escapeLike value +:+ "%") = true <->
   exists m b, text = m +:+ b /\ str_match ceq m value = true).
Proof.
  split.
  - change ("%" +:+ escapeLike value +:+ "%") with (String "%" (escapeLike value +:+ "%")).
    rewrite like_any. split.
    + intros (a & b & -> & (m & c & -> & Hm & _)%(like_escapeLike like ceq)). by exists a, m, c.
    + intros (a & m & b & -> & Hm). exists a, (m +:+ b). split; [done|].
      apply (like_escapeLike like ceq). exists m, b. split_and!; [done..|].
      by apply (like_rest like ceq).
  - rewrite (like_escapeLike like ceq). split; [naive_solver|].
    intros (m & b & -> & Hm). exists m, b. split_and!; [done..|]. by apply (like_rest like ceq).
Qed.

(** ** Concrete inputs *)

Module Example_filters.
#[local] Instance toy_lib : FilterLib :=
  {| sprint_v := fun v => match v with JStr s => s | _ => "?" end;
     json_marshal := fun _ => Ok "{}" |}.

Definition leaf (name op : string) (v : fvalue) : FieldFilter :=
  {| FieldName := name; Operator := op; Value := v; IsNull := None; IsJSON := true;
     LexiconType := "string"; Kind := KindScalar |}.
Definition group (v w : string) : FilterGroup :=
  mkGroup "AND" [leaf "title" "contains" (VJson (JStr v))]
    [mkGroup "OR" [leaf "a" "eq" (VJson (JStr w)); leaf "b__c" "neq" (VJson (JStr v))] [] [] []]
    [{| TargetCollection := "app.def"; JoinExpr := "r.json->'badge'->>'uri'";
        jInner := mkGroup "AND" [leaf "n" "gt" (VJson (JStr w))] [] [] [] |}] [].

(** A matcher that has the documented laws. *)
Fixpoint matcher (p s : string) : bool :=
  match p with
  | EmptyString => is_empty s
  | String c p' =>
      if Ascii.eqb c "%" then
        (fix any s := matcher p' s || match s with EmptyString => false | String _ s' => any s' end) s
      else if Ascii.eqb c "_" then match s with EmptyString => false | String _ s' => matcher p' s' end
      else if Ascii.eqb c "\" then
        match p', s with String d p'', String e s' => Ascii.eqb e d && matcher p'' s' | _, _ => false end
      else match s with String e s' => Ascii.eqb e c && matcher p' s' | _ => false end
  end.

Lemma matcher_any p s : matcher (String "%" p) s = true <-> exists a b, s = a +:+ b /\ matcher p b = true.
Proof.
  cbn. induction s as [|c s IH]; cbn; rewrite orb_true_iff.
  - split.
    + intros [?|]; [|done]. by exists "", "".
    + intros ([|? ?] & b & Hb & ?); [|done]. left. change ("" +:+ b) with b in Hb. by subst.
  - rewrite IH. split.
    + intros [?|(a & b & -> & ?)]; [by exists "", (String c s)|by exists (String c a), b].
    + intros ([|d a] & b & Hb & ?); [left; change ("" +:+ b) with b in Hb; by subst|].
      rewrite app_cons_str in Hb. injection Hb as -> ->. right. by exists a, b.
Qed.

Lemma matcher_laws : LikeLaws (fun s p => matcher p s) Ascii.eqb.
Proof.
  split.
  - by intros [].
  - intros s p. apply matcher_any.
  - intros s c p. cbn. destruct s as [|d s]; [naive_solver|].
    rewrite andb_true_iff. naive_solver.
  - intros s c p H1%Ascii.eqb_neq H2%Ascii.eqb_neq H3%Ascii.eqb_neq. cbn [matcher].
    rewrite H1, H2, H3. destruct s as [|d s]; [naive_solver|].
    rewrite andb_true_iff. naive_solver.
Qed.
End Example_filters.

Import Example_filters.
#[local] Existing Instance toy_lib.

Definition group_text : string * list sqlparam :=
  Eval vm_compute in match BuildFilterGroupClause (group "abc" "x") 3 with Ok r => r | Err _ => ("", []) end.

Lemma BuildFilterGroupClause_placeholders_witness :
  frag group_text.1 (seqZ 3 (Z.of_nat (length group_text.2))).
Proof.
  apply (BuildFilterGroupClause_placeholders (group "abc" "x") 3); [by vm_compute|by vm_compute].
Defined.

Lemma BuildFieldFilterClause_placeholders_witness :
  frag ("lower((r.json->>'t') COLLATE " +:+ dq +:+ "C" +:+ dq +:+ ") = $5") (seqZ 5 1).
Proof.
  apply (BuildFieldFilterClause_placeholders [leaf "t" "eqi" (VJson (JStr "A"))] 5 _ [PText "a"]).
  by vm_compute.
Defined.

Lemma BuildFilterGroupClause_value_independent_witness : group_text.1 = group_text.1 /\ 5%nat = 5%nat.
Proof.
  destruct (BuildFilterGroupClause (group "' OR 1=1" "$1; --") 3) as [[d qs]|] eqn:E; [|by vm_compute in E].
  assert (d = group_text.1 /\ length qs = 5%nat) as [Hd Hq]
    by (vm_compute in E; injection E as <- <-; by vm_compute).
  rewrite <-Hd at 2. rewrite <-Hq at 2.
  apply (BuildFilterGroupClause_value_independent (group "abc" "x") (group "' OR 1=1" "$1; --") 3
           group_text.1 d group_text.2 qs); [by vm_compute|by vm_compute|done].
Defined.

Lemma escapeLike_literal_witness :
  (matcher ("%" +:+ escapeLike "50%" +:+ "%") "a 50% cut" = true <->
   exists a m b, "a 50% cut" = a +:+ m +:+ b /\ str_match Ascii.eqb m "50%" = true) /\
  (matcher (escapeLike "50%" +:+ "%") "a 50% cut" = true <->
   exists m b, "a 50% cut" = m +:+ b /\ str_match Ascii.eqb m "50%" = true).
Proof. apply (@escapeLike_literal (fun s p => matcher p s) Ascii.eqb matcher_laws). Defined.

Example contains_matches : matcher ("%" +:+ escapeLike "50%" +:+ "%") "a 50% cut" = true.
Proof. by vm_compute. Qed.
Example contains_no_wildcard : matcher ("%" +:+ escapeLike "5_%" +:+ "%") "a 50% cut" = false.
Proof. by vm_compute. Qed.
