(* ===== verification/Where.v ===== *)
(** [internal/graphql/schema/where.go]: the [where] argument of a record query
    turned into a filter group. The argument is the decoded GraphQL value; the
    order in which Go visits a map is the class [MapRange], so what is proved
    holds for every order. *)
From S2P Require Import Prelude GoStrings AtProto Json Lexicon Registry Filter.

Local Open Scope Z_scope.

(** [for k, v := range m]: every entry once, in an order the language leaves
    open. *)
Class MapRange := {
  range : obj -> list (string * json);
  range_perm m : range m ≡ₚ map_to_list m
}.

(** What the errors report. *)
Inductive where_error :=
| WTooDeep
| WField (fieldName : string) (e : where_error)
| WFilter (fieldName op : string) (e : filter_error)
| WTargetNotRegistered (fieldName target : string)
| WNestedJoined (fieldName : string)
| WNestedArray (fieldName : string)
| WNoElementDef (def id : string)
| WEqNotString
| WNotDid (fieldName value : string)
| WInNotList
| WInEmpty (fieldName : string)
| WInTooLong
| WInNotString (i : nat)
| WEqOrIn (fieldName : string)
| WUnknownSubfield (fieldName subKey : string)
| WSubNotObject (fieldName subKey : string)
| WSubIsNull (fieldName subKey : string)
| WSubOperator (fieldName subKey op : string).

(** ** The registries

    The descriptions, which only the schema's introspection shows, are left
    out. *)

Record filterDescriptor := { fd_Kind : FilterKind; fd_FieldName : string }.
Record joinedWhereDescriptor :=
  { jd_FieldName : string; TargetLexicon : string; jd_JoinExpr : string }.
Record arrayWhereDescriptor :=
  { ad_FieldName : string; ad_ArrayPath : string; ElementDef : string }.

Definition joinedWhereRegistry : gmap string (gmap string joinedWhereDescriptor) :=
  {["app.certified.badge.award" :=
      {["badge" := {| jd_FieldName := "badge"; TargetLexicon := "app.certified.badge.definition";
                      jd_JoinExpr := "r.json->'badge'->>'uri'" |}]}]}.
Definition arrayWhereRegistry : gmap string (gmap string arrayWhereDescriptor) :=
  {["org.hypercerts.collection" :=
      {["items" := {| ad_FieldName := "items"; ad_ArrayPath := "r.json->'items'";
                      ElementDef := "item" |}]}]}.
Definition filterRegistry : gmap string (gmap string filterDescriptor) :=
  <["org.hypercerts.claim.activity" :=
      {["contributor" := {| fd_Kind := KindArrayContributor; fd_FieldName := "contributor" |}]}]>
  (<["app.certified.badge.award" :=
      {["subject" := {| fd_Kind := KindUnionSubject; fd_FieldName := "subject" |}]}]>
  {["app.certified.graph.follow" :=
      {["subject" := {| fd_Kind := KindStringSubject; fd_FieldName := "subject" |}]}]}).

Definition lookupJoinedWhereDescriptor (lexID fieldName : string) : option joinedWhereDescriptor :=
  byField ← joinedWhereRegistry !! lexID; byField !! fieldName.
Definition lookupArrayWhereDescriptor (lexID fieldName : string) : option arrayWhereDescriptor :=
  byField ← arrayWhereRegistry !! lexID; byField !! fieldName.
Definition lookupFilterDescriptor (lexID fieldName : string) : option filterDescriptor :=
  byField ← filterRegistry !! lexID; byField !! fieldName.

(** ** Operators and single filters *)

(** The operator, empty when unknown, and whether it is [isNull]. *)
Definition parseOperator (op : string) : string * bool :=
  if String.eqb op "isNull" then ("", true)
  else if String.eqb op "eq" then (OpEq, false)
  else if String.eqb op "eqi" then (OpEqi, false)
  else if String.eqb op "neq" then (OpNeq, false)
  else if String.eqb op "gt" then (OpGt, false)
  else if String.eqb op "lt" then (OpLt, false)
  else if String.eqb op "gte" then (OpGte, false)
  else if String.eqb op "lte" then (OpLte, false)
  else if String.eqb op "in" then (OpIn, false)
  else if String.eqb op "ini" then (OpIni, false)
  else if String.eqb op "contains" then (OpContains, false)
  else if String.eqb op "startsWith" then (OpStartsWith, false)
  else ("", false).

Definition effectiveType (prop : Property) : string :=
  if is_empty (Format prop) then Type_ prop else Format prop.

(** The elements of an [in] list of DIDs, from index [i] on. *)
Fixpoint did_list (fieldName : string) (i : nat) (raw : list json) : result where_error (list string) :=
  match raw with
  | [] => Ok []
  | item :: rest =>
      match as_str item with
      | None => Err (WInNotString i)
      | Some s => if Did.IsValid s then l ← did_list fieldName (S i) rest; Ok (s :: l)
                  else Err (WNotDid fieldName s)
      end
  end.

Definition did_filter (descriptor : filterDescriptor) (op : string) (v : fvalue) : FieldFilter :=
  {| FieldName := fd_FieldName descriptor; Operator := op; Value := v; IsNull := None;
     IsJSON := true; LexiconType := ""; Kind := fd_Kind descriptor |}.

Definition buildDIDOnlyEqInFilter (descriptor : filterDescriptor) (filterMap : obj)
  : result where_error FieldFilter :=
  match filterMap !! "eq" with
  | Some eqVal =>
      match as_str eqVal with
      | None => Err WEqNotString
      | Some s => if Did.IsValid s then Ok (did_filter descriptor OpEq (VJson (JStr s)))
                  else Err (WNotDid (fd_FieldName descriptor) s)
      end
  | None =>
      match filterMap !! "in" with
      | Some inVal =>
          match as_arr inVal with
          | None => Err WInNotList
          | Some raw =>
              if Z.of_nat (length raw) =? 0 then Err (WInEmpty (fd_FieldName descriptor))
              else if MaxInListSize <? Z.of_nat (length raw) then Err WInTooLong
              else values ← did_list (fd_FieldName descriptor) 0 raw;
                   Ok (did_filter descriptor OpIn (VStrs values))
          end
      | None => Err (WEqOrIn (fd_FieldName descriptor))
      end
  end.

(** A filter on one operator of a field; [None] for an operator that is
    skipped: unknown, or [isNull] with a value that is no boolean. *)
Definition operator_filter (fieldName : string) (isJSON : bool) (lexiconType : string)
    (opStr : string) (value : json) : result where_error (option FieldFilter) :=
  let make op v isnull :=
    {| FieldName := fieldName; Operator := op; Value := v; IsNull := isnull;
       IsJSON := isJSON; LexiconType := lexiconType; Kind := KindScalar |} in
  let check f :=
    match Validate f with Ok _ => Ok (Some f) | Err e => Err (WFilter fieldName opStr e) end in
  let '(op, isNullOp) := parseOperator opStr in
  if isNullOp then
    match value with
    | JBool b => check (make "" (VJson JNull) (Some b))
    | _ => Ok None
    end
  else if is_empty op then Ok None
  else check (make op (VJson value) None).

(** The loop over the operators of a field. *)
Definition scalar_filters (fieldName : string) (isJSON : bool) (lexiconType : string)
    (ops : list (string * json)) : result where_error (list FieldFilter) :=
  fs ← result_mapM (fun e => operator_filter fieldName isJSON lexiconType e.1 e.2) ops;
  Ok (omap id (fs : list (option FieldFilter))).

(** ** Groups *)

Definition no_filters : FilterGroup := mkGroup GroupAND [] [] [] [].
Definition add_leaves (g : FilterGroup) (fs : list FieldFilter) : FilterGroup :=
  mkGroup (gOperator g) (Filters g ++ fs) (Children g) (Joined g) (Arrays g).
Definition add_child (g c : FilterGroup) : FilterGroup :=
  mkGroup (gOperator g) (Filters g) (Children g ++ [c]) (Joined g) (Arrays g).
Definition add_joined (g : FilterGroup) (j : JoinedFilter FilterGroup) : FilterGroup :=
  mkGroup (gOperator g) (Filters g) (Children g) (Joined g ++ [j]) (Arrays g).
Definition add_array (g : FilterGroup) (a : ArrayFilter FilterGroup) : FilterGroup :=
  mkGroup (gOperator g) (Filters g) (Children g) (Joined g) (Arrays g ++ [a]).

(** The wrapping of an error with the field it is about. *)
Definition in_field {A} (fieldName : string) (r : result where_error A) : result where_error A :=
  match r with Ok a => Ok a | Err e => Err (WField fieldName e) end.

(** [_and] and [_or], with the operator of the group they build. *)
Definition composition (fieldName : string) : option string :=
  if String.eqb fieldName "_and" then Some GroupAND
  else if String.eqb fieldName "_or" then Some GroupOR else None.

(** The branch of both extractors for [_and] and [_or]. *)
Definition compose (extract : json -> result where_error FilterGroup) (childOp : string)
    (group : FilterGroup) (filterInput : json) : result where_error FilterGroup :=
  match filterInput with
  | JArr list => subs ← result_mapM extract list;
                 Ok (add_child group (mkGroup childOp [] subs [] []))
  | _ => Ok group
  end.

(** The loop over the entries of an argument. *)
Fixpoint each (step : FilterGroup -> string * json -> result where_error FilterGroup)
    (group : FilterGroup) (entries : list (string * json)) : result where_error FilterGroup :=
  match entries with
  | [] => Ok group
  | e :: rest => group' ← step group e; each step group' rest
  end.

Section Extract.
Context `{MapRange}.

(** One operator of a strongRef subfield. *)
Definition ref_filter (fieldName subKey opStr : string) (value : json)
  : result where_error FieldFilter :=
  let '(op, isNullOp) := parseOperator opStr in
  if isNullOp then Err (WSubIsNull fieldName subKey)
  else if negb (String.eqb op OpEq) && negb (String.eqb op OpIn)
  then Err (WSubOperator fieldName subKey opStr)
  else
    let path := fieldName +:+ "__" +:+ subKey in
    let f := {| FieldName := path; Operator := op; Value := VJson value; IsNull := None;
                IsJSON := true; LexiconType := "string"; Kind := KindScalar |} in
    match Validate f with Ok _ => Ok f | Err e => Err (WFilter path opStr e) end.

Definition ref_subfield (fieldName subKey : string) (subValue : json)
  : result where_error (list FieldFilter) :=
  if negb (String.eqb subKey "uri") && negb (String.eqb subKey "cid")
  then Err (WUnknownSubfield fieldName subKey)
  else match subValue with
       | JObj subMap => result_mapM (fun e => ref_filter fieldName subKey e.1 e.2) (range subMap)
       | _ => Err (WSubNotObject fieldName subKey)
       end.

Definition extractStrongRefFilter (fieldName : string) (filterMap : obj)
  : result where_error (list FieldFilter) :=
  leaves ← result_mapM (fun e => ref_subfield fieldName e.1 e.2) (range filterMap);
  Ok (concat leaves).

(** The field of an element: a strongRef taken apart, or operators. *)
Definition element_field (props : list PropertyEntry) (group : FilterGroup) (fieldName : string)
    (filterInput : json) : result where_error FilterGroup :=
  match filterInput with
  | JObj filterMap =>
      match GetProperty props fieldName with
      | None => Ok group
      | Some prop =>
          if String.eqb (Type_ prop) "ref" && String.eqb (Ref prop) "com.atproto.repo.strongRef"
          then leaves ← in_field fieldName (extractStrongRefFilter fieldName filterMap);
               Ok (add_leaves group leaves)
          else fs ← scalar_filters fieldName true (effectiveType prop) (range filterMap);
               Ok (add_leaves group fs)
      end
  | _ => Ok group
  end.

Definition main_properties (lex : Lexicon) : list PropertyEntry :=
  match Main lex with Some rd => rd_Properties rd | None => [] end.

(** [extractElementFilters] at a depth [MaxFilterDepth + 1 - left]. *)
Fixpoint extractElementFilters (left : nat) (whereArg : json) (elemLex : Lexicon)
  : result where_error FilterGroup :=
  match whereArg, left with
  | JObj whereMap, S left' =>
      each (fun group e =>
              match composition e.1 with
              | Some childOp =>
                  compose (fun item => extractElementFilters left' item elemLex) childOp group e.2
              | None => element_field (main_properties elemLex) group e.1 e.2
              end) no_filters (range whereMap)
  | JObj _, O => Err WTooDeep
  | _, _ => Ok no_filters
  end.

(** The element definition of an array, wrapped in a lexicon of its own. *)
Definition makeElementPseudoLexicon (parent : Lexicon) (ad : arrayWhereDescriptor)
  : result where_error Lexicon :=
  match Others parent !! ElementDef ad with
  | Some elemDef =>
      match IsObject elemDef, d_Object elemDef with
      | true, Some o =>
          Ok {| ID := ID parent +:+ "#" +:+ ElementDef ad;
                Main := Some {| rd_Type := "object"; rd_Key := "";
                                rd_Properties := od_Properties o |};
                Others := ∅ |}
      | _, _ => Err (WNoElementDef (ElementDef ad) (ID parent))
      end
  | None => Err (WNoElementDef (ElementDef ad) (ID parent))
  end.

(** A field of an outer argument that is in no registry. *)
Definition scalar_field (lex : option Lexicon) (group : FilterGroup) (fieldName : string)
    (filterMap : obj) : result where_error FilterGroup :=
  let isJSON := negb (String.eqb fieldName "did") in
  let lexiconType :=
    if isJSON then
      match lex with
      | Some l => match GetProperty (main_properties l) fieldName with
                  | Some prop => effectiveType prop | None => "" end
      | None => ""
      end
    else "" in
  fs ← scalar_filters fieldName isJSON lexiconType (range filterMap); Ok (add_leaves group fs).

Context (registry : option Registry).

(** The subquery over the joined collection. *)
Definition joined_field (extract : json -> option Lexicon -> result where_error FilterGroup)
    (reg : Registry) (jd : joinedWhereDescriptor) (group : FilterGroup) (fieldName : string)
    (filterInput : json) : result where_error FilterGroup :=
  match GetLexicon reg (TargetLexicon jd) with
  | None => Err (WTargetNotRegistered fieldName (TargetLexicon jd))
  | Some targetLex =>
      inner ← in_field fieldName (extract filterInput (Some targetLex));
      match Joined inner with
      | _ :: _ => Err (WNestedJoined fieldName)
      | [] => Ok (add_joined group {| TargetCollection := TargetLexicon jd;
                                      JoinExpr := jd_JoinExpr jd; jInner := inner |})
      end
  end.

(** The subquery over the elements of an array. *)
Definition array_field (left : nat) (lex : Lexicon) (ad : arrayWhereDescriptor)
    (group : FilterGroup) (fieldName : string) (filterInput : json)
  : result where_error FilterGroup :=
  elemLex ← in_field fieldName (makeElementPseudoLexicon lex ad);
  inner ← in_field fieldName (extractElementFilters left filterInput elemLex);
  match Arrays inner with
  | _ :: _ => Err (WNestedArray fieldName)
  | [] => Ok (add_array group {| aFieldName := ad_FieldName ad; ArrayPath := ad_ArrayPath ad;
                                 aInner := inner |})
  end.

(** A field, looked up in the registries in the code's order: joined, array,
    filter, and then operators. *)
Definition outer_field (left : nat)
    (extract : json -> option Lexicon -> result where_error FilterGroup) (lex : option Lexicon)
    (group : FilterGroup) (fieldName : string) (filterInput : json)
  : result where_error FilterGroup :=
  match filterInput with
  | JObj filterMap =>
      match lex with
      | None => scalar_field lex group fieldName filterMap
      | Some l =>
          match registry, lookupJoinedWhereDescriptor (ID l) fieldName with
          | Some reg, Some jd => joined_field extract reg jd group fieldName filterInput
          | _, _ =>
              match lookupArrayWhereDescriptor (ID l) fieldName with
              | Some ad => array_field left l ad group fieldName filterInput
              | None =>
                  match lookupFilterDescriptor (ID l) fieldName with
                  | Some descriptor =>
                      f ← in_field fieldName (buildDIDOnlyEqInFilter descriptor filterMap);
                      Ok (add_leaves group [f])
                  | None => scalar_field lex group fieldName filterMap
                  end
              end
          end
      end
  | _ => Ok group
  end.

(** [extractFieldFiltersRecursive] at a depth [MaxFilterDepth + 1 - left]. *)
Fixpoint extractFieldFiltersRecursive (left : nat) (whereArg : json) (lex : option Lexicon)
  : result where_error FilterGroup :=
  match whereArg, left with
  | JObj whereMap, S left' =>
      each (fun group e =>
              match composition e.1 with
              | Some childOp =>
                  compose (fun item => extractFieldFiltersRecursive left' item lex) childOp
                    group e.2
              | None => outer_field left' (extractFieldFiltersRecursive left') lex group e.1 e.2
              end) no_filters (range whereMap)
  | JObj _, O => Err WTooDeep
  | _, _ => Ok no_filters
  end.

Definition extractFieldFilters (whereArg : json) (lex : option Lexicon)
  : result where_error FilterGroup :=
  extractFieldFiltersRecursive (Z.to_nat (MaxFilterDepth + 1)) whereArg lex.
End Extract.

(** ** What the extracted groups satisfy *)

(** The errors that compiling a well-formed group can still give: the two limits
    on its size, and a value that JSON cannot express. *)
Definition benign (e : filter_error) : bool :=
  match e with ETooManyConditions _ | ETooDeep | EMarshal _ => true | _ => false end.

Definition known_ops : list string :=
  [OpEq; OpNeq; OpGt; OpLt; OpGte; OpLte; OpIn; OpEqi; OpIni; OpContains; OpStartsWith].

(** A filter that was validated, whose operator the builder knows, and whose
    kind fits the table it is about ([outer]: the records themselves). *)
Definition leaf_wf (outer : bool) (f : FieldFilter) : Prop :=
  Validate f = Ok () /\
  match Kind f with
  | KindScalar => IsNull f = None -> Operator f ∈ known_ops
  | _ => outer = true /\ IsNull f = None /\ (Operator f = OpEq \/ Operator f = OpIn)
  end.

Inductive group_wf : bool -> FilterGroup -> Prop :=
| group_wf_intro outer g :
    Forall (leaf_wf outer) (Filters g) ->
    Forall (group_wf outer) (Children g) ->
    Forall (fun j => no_dollar (JoinExpr j) = true /\ group_wf false (jInner j)) (Joined g) ->
    Forall (fun a => no_dollar (ArrayPath a) = true /\ group_wf false (aInner a)) (Arrays g) ->
    group_wf outer g.

Lemma group_wf_exprs g : forall outer, group_wf outer g -> exprs_ok g = true.
Proof.
  induction g as [g Hc Hj Ha] using FilterGroup_nested_ind. intros outer Hg.
  inversion Hg as [? ? _ Wc Wj Wa]; subst. destruct g as [op fs cs js ars]. cbn in *.
  rewrite !Forall_forall in *. rewrite !andb_true_iff, !forallb_elem_of.
  split; [split|]; intros x Hx; [eauto|..]; apply andb_true_iff; naive_solver.
Qed.

Section Builds.
Context `{FilterLib}.

Lemma leaf_builds outer f n alias : leaf_wf outer f -> IsNull f = None ->
  (outer = true -> alias = "r") ->
  match buildSingleFilter f n alias with Ok _ => True | Err e => benign e = true end.
Proof.
  intros [Hv Hk] Hn Hal. pose proof (buildSingleFilter_no_panic f n alias _ Hv Hn) as Hp.
  apply bind_Ok in Hv as (u & Hname & _). revert Hp. unfold buildSingleFilter. rewrite Hname.
  cbn [mbind result_bind]. destruct (Kind f).
  - specialize (Hk Hn). unfold buildScalarFilter. intros Hp. revert Hp.
    unfold known_ops in Hk. rewrite !elem_of_cons, elem_of_nil in Hk.
    destruct_or! Hk; rewrite ?Hk; cbn; repeat case_match; naive_solver.
  - destruct Hk as (-> & _ & Ho). rewrite (Hal eq_refl). cbn. intros _.
    unfold buildContributorFilter. by destruct Ho as [-> | ->].
  - destruct Hk as (-> & _ & Ho). rewrite (Hal eq_refl). cbn. intros _.
    unfold buildBadgeAwardSubjectFilter. by destruct Ho as [-> | ->].
  - destruct Hk as (-> & _ & Ho). rewrite (Hal eq_refl). cbn. intros _.
    unfold buildStringSubjectFilter. by destruct Ho as [-> | ->].
Qed.

Lemma add_filter_benign outer alias a f e : leaf_wf outer f -> (outer = true -> alias = "r") ->
  add_filter alias a f = Err e -> benign e = true.
Proof.
  intros Hw Hal. unfold add_filter. pose proof (proj1 Hw) as Hv. rewrite Hv.
  destruct (IsNull f) eqn:Hn; [done|]. pose proof (leaf_builds outer f (idx a) alias Hw Hn Hal).
  destruct (buildSingleFilter f (idx a) alias) as [[[]]|]; cbn; [done|]. by intros [= ->].
Qed.

Lemma build_benign g : forall outer off depth alias e, group_wf outer g ->
  (outer = true -> alias = "r") ->
  buildFilterGroupRecursive g off depth alias = Err e -> benign e = true.
Proof.
  induction g as [g Hc Hj Ha] using FilterGroup_nested_ind. intros outer off depth alias e Hg Hal.
  inversion Hg as [? ? Wf Wc Wj Wa]; subst.
  rewrite !Forall_forall in *. destruct g as [op fs cs js ars].
  cbn [buildFilterGroupRecursive Filters Children Joined Arrays gOperator] in *.
  destruct (_ <? _); [by intros [= <-]|]. destruct (IsEmpty _); [done|].
  intros [(a & x & Hx & Hs)%fold_res_Err|(a1 & _ & Hr)]%bind_Err;
    [by eapply add_filter_benign; eauto|]; revert Hr.
  intros [(a & x & Hx & Hs)%fold_res_Err|(a2 & _ & Hr)]%bind_Err;
    [apply bind_Err in Hs as [Hs|([] & _ & [=])]; by eauto|]; revert Hr.
  intros [(a & x & Hx & Hs)%fold_res_Err|(a3 & _ & Hr)]%bind_Err;
    [apply bind_Err in Hs as [Hs|([] & _ & [=])]; destruct (Wj _ Hx); by apply (Hj _ Hx false (idx a) 0 "d")|];
    revert Hr.
  intros [(a & x & Hx & Hs)%fold_res_Err|(a4 & _ & Hr)]%bind_Err; [|done].
  apply bind_Err in Hs as [Hs|([] & _ & [=])]; destruct (Wa _ Hx); by apply (Ha _ Hx false (idx a) 0 "e").
Qed.
End Builds.

(** *** Filters *)

Lemma parseOperator_known s op b : parseOperator s = (op, b) -> is_empty op = false ->
  op ∈ known_ops.
Proof.
  unfold parseOperator. intros H He.
  repeat case_match; simplify_eq; unfold known_ops; try done; rewrite !elem_of_cons; tauto.
Qed.

Lemma operator_filter_wf outer name js ty op v f :
  operator_filter name js ty op v = Ok (Some f) -> leaf_wf outer f.
Proof.
  unfold operator_filter. destruct (parseOperator op) as [o isNull] eqn:Ho.
  destruct isNull.
  - destruct v; try done. destruct (Validate _) as [[]|] eqn:Hv; [|done]. intros [= <-].
    by split.
  - destruct (is_empty o) eqn:He; [done|]. destruct (Validate _) as [[]|] eqn:Hv; [|done].
    intros [= <-]. split; [done|]. intros _. by eapply parseOperator_known.
Qed.

Lemma scalar_filters_wf outer name js ty ops fs :
  scalar_filters name js ty ops = Ok fs -> Forall (leaf_wf outer) fs.
Proof.
  intros (os & Hm & [= <-])%bind_Ok. apply result_mapM_Ok in Hm.
  apply Forall_forall. intros f Hf. apply list_elem_of_omap in Hf as ([g|] & Hin & [= <-]).
  apply list_elem_of_lookup in Hin as [i Hi].
  destruct (Forall2_lookup_r _ _ _ _ _ Hm Hi) as (e & _ & He). by eapply operator_filter_wf.
Qed.

Lemma ref_filter_wf outer name sub op v f : ref_filter name sub op v = Ok f -> leaf_wf outer f.
Proof.
  unfold ref_filter. destruct (parseOperator op) as [o isNull]. destruct isNull; [done|].
  destruct (negb _ && _) eqn:Ho; [done|]. destruct (Validate _) as [[]|] eqn:Hv; [|done].
  intros [= <-]. split; [done|]. intros _. cbn. unfold known_ops. rewrite !elem_of_cons.
  destruct (String.eqb_spec o OpEq); [tauto|]. destruct (String.eqb_spec o OpIn); [tauto|done].
Qed.

Lemma Forall2_range {A B} (P : B -> Prop) (f : A -> result where_error B) l ks :
  result_mapM f l = Ok ks -> (forall a b, a ∈ l -> f a = Ok b -> P b) -> Forall P ks.
Proof.
  intros Hm%result_mapM_Ok Hf. apply Forall_forall. intros b [i Hi]%list_elem_of_lookup.
  destruct (Forall2_lookup_r _ _ _ _ _ Hm Hi) as (a & Ha & Hab).
  eapply Hf; [|done]. by eapply list_elem_of_lookup_2.
Qed.

Lemma extractStrongRefFilter_wf `{MapRange} outer name m fs :
  extractStrongRefFilter name m = Ok fs -> Forall (leaf_wf outer) fs.
Proof.
  intros (ls & Hm & [= <-])%bind_Ok. apply Forall_concat.
  eapply Forall2_range; [exact Hm|]. intros [k v] l _. cbn. unfold ref_subfield.
  destruct (_ && _); [done|]. destruct v; try done. intros Hl.
  eapply Forall2_range; [exact Hl|]. intros [o x] f _. cbn. apply ref_filter_wf.
Qed.

Lemma did_list_length name l : forall i vs, did_list name i l = Ok vs -> length vs = length l.
Proof.
  induction l as [|v l IH]; intros i vs; cbn; [by intros [= <-]|].
  destruct (as_str v); [|done]. destruct (Did.IsValid s); [|done].
  intros (vs' & Hl & [= <-])%bind_Ok. cbn. f_equal. eauto.
Qed.

Lemma lookupFilterDescriptor_ok id name d : lookupFilterDescriptor id name = Some d ->
  ValidateFieldName (fd_FieldName d) = Ok () /\ fd_Kind d <> KindScalar.
Proof.
  unfold lookupFilterDescriptor, filterRegistry. intros (m & Hm & Hd)%bind_Some.
  rewrite !lookup_insert_Some, lookup_singleton_Some in Hm.
  destruct Hm as [[<- <-]|[_ [[<- <-]|[_ [<- <-]]]]];
    apply lookup_singleton_Some in Hd as [_ <-]; by split.
Qed.

Lemma buildDIDOnlyEqInFilter_wf d m f : ValidateFieldName (fd_FieldName d) = Ok () ->
  fd_Kind d <> KindScalar -> buildDIDOnlyEqInFilter d m = Ok f -> leaf_wf true f.
Proof.
  intros Hname Hk. unfold buildDIDOnlyEqInFilter.
  assert (forall op v, op = OpEq /\ (exists s, v = VJson (JStr s)) \/
            op = OpIn /\ (exists l, v = VStrs l /\ 1 <= Z.of_nat (length l) <= MaxInListSize) ->
          leaf_wf true (did_filter d op v)) as Hwf.
  { intros op v Hov. split.
    - unfold Validate. cbn. rewrite Hname. cbn.
      destruct Hov as [(-> & s & ->)|(-> & l & -> & Hl)]; [done|]. cbn.
      destruct (Z.ltb_spec (Z.of_nat (length l)) 1), (Z.ltb_spec MaxInListSize (Z.of_nat (length l)));
        by try lia.
    - cbn. destruct (fd_Kind d); [done|..]; destruct Hov as [[-> _]|[-> _]]; auto. }
  destruct (m !! "eq") as [v|].
  { destruct (as_str v) as [s|]; [|done]. destruct (Did.IsValid s); [|done]. intros [= <-].
    apply Hwf. left. eauto. }
  destruct (m !! "in") as [v|]; [|done]. destruct (as_arr v) as [l|]; [|done].
  destruct (Z.eqb_spec (Z.of_nat (length l)) 0); [done|].
  destruct (Z.ltb_spec MaxInListSize (Z.of_nat (length l))); [done|].
  intros (vs & Hl%did_list_length & [= <-])%bind_Ok. apply Hwf. right. split; [done|].
  exists vs. split; [done|]. rewrite Hl. lia.
Qed.

(** *** Groups *)

Lemma each_inv (I : FilterGroup -> Prop) step entries : forall g g',
  (forall a e a', e ∈ entries -> I a -> step a e = Ok a' -> I a') ->
  I g -> each step g entries = Ok g' -> I g'.
Proof.
  induction entries as [|e rest IH]; intros g g' Hs Hg; cbn; [by intros [= <-]|].
  intros (a & Ha & Hr)%bind_Ok. eapply (IH a); [|eapply (Hs g e); [left|done..]|done].
  intros b x b' Hx. apply Hs. by right.
Qed.

Lemma no_filters_wf outer : group_wf outer no_filters.
Proof. constructor; constructor. Qed.

Lemma in_field_Ok {A} name (r : result where_error A) a : in_field name r = Ok a -> r = Ok a.
Proof. by destruct r; intros [= ->]. Qed.

Section Wf.
Context (outer : bool).

Lemma add_leaves_wf g fs : group_wf outer g -> Forall (leaf_wf outer) fs ->
  group_wf outer (add_leaves g fs).
Proof. inversion 1; subst. intros. constructor; cbn; try done. by apply Forall_app. Qed.

Lemma add_joined_wf g j : group_wf outer g -> no_dollar (JoinExpr j) = true ->
  group_wf false (jInner j) -> group_wf outer (add_joined g j).
Proof. inversion 1; subst. intros. constructor; cbn; try done. apply Forall_app. auto. Qed.

Lemma add_array_wf g a : group_wf outer g -> no_dollar (ArrayPath a) = true ->
  group_wf false (aInner a) -> group_wf outer (add_array g a).
Proof. inversion 1; subst. intros. constructor; cbn; try done. apply Forall_app. auto. Qed.

Lemma compose_wf extract op g v g' :
  (forall item sub, extract item = Ok sub -> group_wf outer sub) ->
  group_wf outer g -> compose extract op g v = Ok g' -> group_wf outer g'.
Proof.
  intros Hx Hg. unfold compose. destruct v; try by intros [= <-].
  intros (subs & Hm & [= <-])%bind_Ok. inversion Hg; subst. constructor; cbn; try done.
  apply Forall_app. split; [done|]. constructor; [|done]. constructor; cbn; try constructor.
  eapply Forall2_range; [exact Hm|]. eauto.
Qed.

Context `{MapRange}.

Lemma element_field_wf props g name v g' : group_wf outer g ->
  element_field props g name v = Ok g' -> group_wf outer g'.
Proof.
  intros Hg. unfold element_field. destruct v; try by intros [= <-].
  destruct (GetProperty props name); [|by intros [= <-]].
  destruct (_ && _); intros (fs & Hfs & [= <-])%bind_Ok; (apply add_leaves_wf; [done|]).
  - apply in_field_Ok in Hfs. by eapply extractStrongRefFilter_wf.
  - by eapply scalar_filters_wf.
Qed.

Lemma extractElementFilters_wf left : forall w lex g,
  extractElementFilters left w lex = Ok g -> group_wf outer g.
Proof.
  induction left as [|left IH]; intros w lex g; destruct w; cbn; try done;
    try (intros [= <-]; apply no_filters_wf).
  apply each_inv; [|apply no_filters_wf]. intros a [k v] a' _ Ha. cbn.
  destruct (composition k); [|by apply element_field_wf]. apply compose_wf; eauto.
Qed.

(** The filters of the special kinds are only for the records themselves. *)
Definition lex_fits (lex : option Lexicon) : Prop :=
  outer = true \/ forall l name, lex = Some l -> lookupFilterDescriptor (ID l) name = None.

Lemma scalar_field_wf lex g name m g' : group_wf outer g ->
  scalar_field lex g name m = Ok g' -> group_wf outer g'.
Proof.
  intros Hg. unfold scalar_field. intros (fs & Hfs%(scalar_filters_wf outer) & [= <-])%bind_Ok.
  by apply add_leaves_wf.
Qed.
End Wf.

Lemma joined_descriptor_ok id name jd : lookupJoinedWhereDescriptor id name = Some jd ->
  no_dollar (jd_JoinExpr jd) = true /\
  forall n, lookupFilterDescriptor (TargetLexicon jd) n = None.
Proof.
  unfold lookupJoinedWhereDescriptor, joinedWhereRegistry. intros (m & Hm & Hd)%bind_Some.
  apply lookup_singleton_Some in Hm as [_ <-]. apply lookup_singleton_Some in Hd as [_ <-].
  by split.
Qed.

Lemma array_descriptor_ok id name ad : lookupArrayWhereDescriptor id name = Some ad ->
  no_dollar (ad_ArrayPath ad) = true.
Proof.
  unfold lookupArrayWhereDescriptor, arrayWhereRegistry. intros (m & Hm & Hd)%bind_Some.
  apply lookup_singleton_Some in Hm as [_ <-]. by apply lookup_singleton_Some in Hd as [_ <-].
Qed.

Section Outer.
Context `{MapRange} (registry : option Registry).
Hypothesis Hreg : forall reg, registry = Some reg -> registry_inv reg.

Lemma joined_field_wf outer extract reg jd g name v g' : registry = Some reg ->
  (forall w l sub, lex_fits false (Some l) -> extract w (Some l) = Ok sub -> group_wf false sub) ->
  no_dollar (jd_JoinExpr jd) = true ->
  (forall n, lookupFilterDescriptor (TargetLexicon jd) n = None) ->
  group_wf outer g -> joined_field extract reg jd g name v = Ok g' -> group_wf outer g'.
Proof.
  intros Hr Hx He Hp Hg. unfold joined_field, GetLexicon.
  destruct (lexicons reg !! TargetLexicon jd) as [l|] eqn:Hl; [|done].
  apply (proj1 (Hreg reg Hr)) in Hl.
  intros (inner & Hi%in_field_Ok & Hj)%bind_Ok. destruct (Joined inner); [|done].
  simplify_eq. apply add_joined_wf; [done..|]. cbn. eapply Hx; [|done].
  right. intros ? n [= <-]. by rewrite Hl.
Qed.

Lemma outer_field_wf outer left extract lex g name v g' :
  (forall w l sub, lex_fits false (Some l) -> extract w (Some l) = Ok sub -> group_wf false sub) ->
  lex_fits outer lex -> group_wf outer g ->
  outer_field registry left extract lex g name v = Ok g' -> group_wf outer g'.
Proof.
  intros Hx Hfit Hg. unfold outer_field. destruct v; try by intros [= <-].
  destruct lex as [l|]; [|by apply scalar_field_wf].
  assert (forall r, match lookupArrayWhereDescriptor (ID l) name with
    | Some ad => array_field left l ad g name (JObj m)
    | None => match lookupFilterDescriptor (ID l) name with
              | Some d => f ← in_field name (buildDIDOnlyEqInFilter d m); Ok (add_leaves g [f])
              | None => scalar_field (Some l) g name m end end = r -> r = Ok g' -> group_wf outer g')
    as Hrest.
  { intros r <-. destruct (lookupArrayWhereDescriptor _ _) as [ad|] eqn:Had.
    { unfold array_field. intros (el & _ & (inner & Hi%in_field_Ok & Ha)%bind_Ok)%bind_Ok.
      destruct (Arrays inner); [|done]. simplify_eq.
      apply add_array_wf; [done|by eapply array_descriptor_ok|].
      by eapply extractElementFilters_wf. }
    destruct (lookupFilterDescriptor _ _) as [d|] eqn:Hd; [|by apply scalar_field_wf].
    intros (f & Hf%in_field_Ok & [= <-])%bind_Ok.
    pose proof (lookupFilterDescriptor_ok _ _ _ Hd) as [Hn Hk].
    destruct Hfit as [-> |Hno]; [|by rewrite (Hno l name eq_refl) in Hd].
    apply add_leaves_wf; [done|]. constructor; [|done].
    by eapply buildDIDOnlyEqInFilter_wf. }
  pose proof (fun reg jd => joined_field_wf outer extract reg jd g name (JObj m) g') as Hjoin.
  destruct registry as [reg|] eqn:Er; [|by apply Hrest].
  destruct (lookupJoinedWhereDescriptor _ _) as [jd|] eqn:Hjd; [|by apply Hrest].
  pose proof (joined_descriptor_ok _ _ _ Hjd) as [He Hp]. by eapply Hjoin.
Qed.

Lemma extract_wf left : forall outer w lex g, lex_fits outer lex ->
  extractFieldFiltersRecursive registry left w lex = Ok g -> group_wf outer g.
Proof.
  induction left as [|left IH]; intros outer w lex g Hfit; destruct w; cbn; try done;
    try (intros [= <-]; apply no_filters_wf).
  apply each_inv; [|apply no_filters_wf]. intros a [k v] a' _ Ha. cbn.
  destruct (composition k).
  - apply compose_wf; [|done]. intros item sub. by apply IH.
  - apply outer_field_wf; [|done..]. intros w l sub. by apply IH.
Qed.
End Outer.

(** C2: from a where argument to SQL, whatever order its maps are visited in:
    every argument that the extractor accepts compiles to a clause with exactly
    the placeholders of its parameters, or is refused for one of the two limits
    on its size (or a value that JSON cannot express): never for an operator the
    builder does not know, a filter kind outside its table, a failed assertion,
    or a field name it had not checked; and the SQL fragments it pastes are those
    of the registries. *)
Theorem where_argument_compiles `{MapRange} `{FilterLib} registry w lex g off :
  (forall reg, registry = Some reg -> registry_inv reg) ->
  extractFieldFilters registry w lex = Ok g ->
  match BuildFilterGroupClause g off with
  | Ok (c, ps) => frag c (seqZ off (Z.of_nat (length ps)))
  | Err e => benign e = true
  end.
Proof.
  intros Hreg Hx. assert (group_wf true g) as Hg by (eapply extract_wf; [done|by left|exact Hx]).
  destruct (BuildFilterGroupClause g off) as [[c ps]|e] eqn:Hb; unfold BuildFilterGroupClause in Hb;
    destruct (_ <? _); try done; try by simplify_eq.
  - apply (build_frag g off 0 "r"); [done|by eapply group_wf_exprs|exact Hb].
  - apply (build_benign g true off 0 "r"); [done..|exact Hb].
Qed.

(** ** Nested compositions *)

(** A chain of [n] sub-groups, each of the one before. *)
Fixpoint deep (n : nat) (g : FilterGroup) : Prop :=
  match n with O => True | S n' => exists c, c ∈ Children g /\ deep n' c end.

Lemma fold_res_hits {X} step (l : list X) x : forall a a', x ∈ l ->
  fold_res step a l = Ok a' -> exists b b', step b x = Ok b'.
Proof.
  induction l as [|y l IH]; intros a a' Hx; [by apply not_elem_of_nil in Hx|].
  cbn. intros (b & Hb & Hr)%bind_Ok. apply elem_of_cons in Hx as [-> |Hx]; eauto.
Qed.

Lemma deep_refused `{FilterLib} n : forall g off depth alias, deep n g ->
  MaxFilterDepth < depth + Z.of_nat n ->
  is_ok (buildFilterGroupRecursive g off depth alias) = false.
Proof.
  induction n as [|n IH]; intros g off depth alias Hd Hn; destruct g as [op fs cs js ars];
    destruct (buildFilterGroupRecursive _ _ _ _) as [r|] eqn:Hb; try done; exfalso;
    cbn [buildFilterGroupRecursive Filters Children Joined Arrays gOperator] in Hb;
    (destruct (Z.ltb_spec MaxFilterDepth depth); [done|]); [lia|].
  destruct Hd as (c & Hc & Hd). cbn in Hc.
  destruct (IsEmpty _) eqn:Hem.
  { unfold IsEmpty in Hem. cbn in Hem. destruct fs, cs; try done. by apply not_elem_of_nil in Hc. }
  apply bind_Ok in Hb as (a1 & _ & Hb). apply bind_Ok in Hb as (a2 & Hb & _).
  destruct (fold_res_hits _ _ _ _ _ Hc Hb) as (b & b' & (r' & Hr & _)%bind_Ok).
  pose proof (IH c (idx b) (depth + 1) alias Hd ltac:(lia)) as Hf. by rewrite Hr in Hf.
Qed.

Lemma each_hits step entries e : forall g g', e ∈ entries ->
  (forall a e a', step a e = Ok a' -> Children a ⊆ Children a') ->
  each step g entries = Ok g' -> Children g ⊆ Children g' /\
    exists a a', step a e = Ok a' /\ Children a' ⊆ Children g'.
Proof.
  intros g g' Hin Hm. 
  assert (forall l g g', each step g l = Ok g' -> Children g ⊆ Children g') as Hmono.
  { clear -Hm. induction l as [|x l IH]; intros g g'; cbn; [by intros [= <-]|].
    intros (a & Ha & Hr)%bind_Ok. etrans; [by eapply Hm|by apply IH]. }
  revert g g'. induction entries as [|x l IH]; [by apply not_elem_of_nil in Hin|].
  intros g g' H. split; [by apply (Hmono (x :: l))|]. cbn in H. apply bind_Ok in H as (a & Ha & Hr).
  apply elem_of_cons in Hin as [-> |Hin]; [eauto|]. by apply (IH Hin a).
Qed.

Lemma compose_children extract op g v g' : compose extract op g v = Ok g' ->
  Children g ⊆ Children g' /\
  forall l item, v = JArr l -> item ∈ l -> exists sub, extract item = Ok sub /\
    exists c, c ∈ Children g' /\ sub ∈ Children c.
Proof.
  unfold compose. destruct v; try by (intros [= <-]; split; [done|by intros]).
  intros (subs & Hm & [= <-])%bind_Ok. cbn. split; [set_solver|].
  intros l' item [= <-] [i Hi]%list_elem_of_lookup. apply result_mapM_Ok in Hm.
  destruct (Forall2_lookup_l _ _ _ _ _ Hm Hi) as (sub & Hs & Hx). exists sub. split; [done|].
  eexists. split; [apply elem_of_app; right; by left|]. cbn. by eapply list_elem_of_lookup_2.
Qed.

Lemma outer_field_children `{MapRange} registry left extract lex g name v g' :
  outer_field registry left extract lex g name v = Ok g' -> Children g ⊆ Children g'.
Proof.
  unfold outer_field, scalar_field. destruct v; try by intros [= <-].
  intros Hx. repeat case_match; unfold joined_field, array_field in Hx; subst; try done.
  all: repeat (case_match; try done); rewrite ?bind_Ok in Hx;
    repeat match goal with
           | H : exists _, _ |- _ => destruct H
           | H : _ /\ _ |- _ => destruct H
           | H : _ ≫= _ = Ok _ |- _ => apply bind_Ok in H
           | H : (match _ with _ => _ end) = Ok _ |- _ => case_match; try done
           end; by simplify_eq.
Qed.

Lemma composition_found `{MapRange} registry left m lex g op l item :
  is_Some (composition op) -> m !! op = Some (JArr l) -> item ∈ l ->
  extractFieldFiltersRecursive registry (S left) (JObj m) lex = Ok g ->
  exists sub c, extractFieldFiltersRecursive registry left item lex = Ok sub /\
    sub ∈ Children c /\ c ∈ Children g.
Proof.
  intros [childOp Hop] Hm Hi Hx. cbn in Hx.
  apply (each_hits _ _ (op, JArr l)) in Hx as (_ & a & a' & Hs & Hc).
  - cbn [fst snd] in Hs. rewrite Hop in Hs. apply compose_children in Hs as [_ Hs].
    destruct (Hs l item eq_refl Hi) as (sub & Hsub & c & Hcc & Hsc). eauto 10.
  - rewrite range_perm. by apply elem_of_map_to_list.
  - intros b [k v] b'. cbn [fst snd]. destruct (composition k).
    + intros Hb. by apply compose_children in Hb as [? _].
    + apply outer_field_children.
Qed.

(** A composition inside a composition is never compiled: a where argument
    with an [_and] or [_or] of which an element holds a non-empty [_and] or
    [_or] is accepted by the extractor, which counts one level for each, and
    then refused by the SQL builder, for which each of them is two groups deep:
    the limit of three levels lets one composition through. *)
Theorem nested_composition_refused `{MapRange} `{FilterLib} registry lex m op l m1 op1 item l1 g off :
  is_Some (composition op) -> m !! op = Some (JArr l) -> JObj m1 ∈ l ->
  is_Some (composition op1) -> m1 !! op1 = Some (JArr (item :: l1)) ->
  extractFieldFilters registry (JObj m) lex = Ok g ->
  is_ok (BuildFilterGroupClause g off) = false.
Proof.
  intros Hop Hm Hl Hop1 Hm1 Hx.
  apply (composition_found _ _ _ _ _ _ _ _ Hop Hm Hl) in Hx as (g1 & c1 & Hx & H1 & H2).
  apply (composition_found _ _ _ _ _ _ _ item Hop1 Hm1) in Hx as (g2 & c2 & _ & H3 & H4);
    [|by left].
  unfold BuildFilterGroupClause. destruct (_ <? _); [done|].
  apply (deep_refused 4); [|unfold MaxFilterDepth; lia].
  exists c1. split; [done|]. exists g1. split; [done|]. exists c2. split; [done|]. exists g2. by split.
Qed.

(** ** Examples *)

Module Example_where.
#[local] Instance ranges : MapRange.
Proof. refine {| range := map_to_list |}. reflexivity. Defined.
#[local] Instance lib : FilterLib :=
  {| sprint_v := fun _ => "?"; json_marshal := fun _ => Ok "{}" |}.

Definition eq_ (v : string) : json := JObj {["eq" := JStr v]}.
Definition badges : Lexicon :=
  {| ID := "app.certified.badge.definition"; Main := None; Others := ∅ |}.
Definition awards : Lexicon :=
  {| ID := "app.certified.badge.award"; Main := None; Others := ∅ |}.
Definition reg : Registry := Register NewRegistry badges.

(** Endorsements received by one account. *)
Definition endorsements : json :=
  JObj (<["subject" := eq_ "did:plc:me"]> {["badge" := JObj {["badgeType" := eq_ "endorsement"]}]}).

Definition extracted : result where_error FilterGroup :=
  extractFieldFilters (Some reg) endorsements (Some awards).

Definition text_of (r : result where_error FilterGroup) : option (string * nat) :=
  match r with
  | Ok g => match BuildFilterGroupClause g 2 with Ok (c, ps) => Some (c, length ps) | Err _ => None end
  | Err _ => None
  end.

Example endorsements_text : text_of extracted =
  Some ("r.subject_did = $2 AND EXISTS (SELECT 1 FROM record d WHERE d.collection = $4"
        +:+ " AND d.uri = r.json->'badge'->>'uri' AND (d.json @> $3::jsonb))", 3%nat).
Proof. vm_compute. reflexivity. Qed.

(** [_or] inside [_and]: accepted by the extractor, refused by the builder. *)
Definition mine : json := JObj {["did" := eq_ "did:plc:me"]}.
Definition inner_or : obj := {["_or" := JArr [mine]]}.
Definition outer_and : obj := {["_and" := JArr [JObj inner_or]]}.
Definition or_in_and : json := JObj outer_and.
Example or_in_and_extracted : is_ok (extractFieldFilters None or_in_and None) = true.
Proof. vm_compute. reflexivity. Qed.

Lemma where_argument_compiles_witness :
  match BuildFilterGroupClause (match extracted with Ok g => g | Err _ => no_filters end) 2 with
  | Ok (c, ps) => frag c (seqZ 2 (Z.of_nat (length ps)))
  | Err e => benign e = true
  end.
Proof.
  apply (where_argument_compiles (Some reg) endorsements (Some awards)).
  - intros r [= <-]. apply registry_inv_register; [apply registry_inv_new|reflexivity].
  - vm_compute. reflexivity.
Defined.

Lemma nested_composition_refused_witness :
  is_ok (BuildFilterGroupClause
           (match extractFieldFilters None or_in_and None with Ok g => g | Err _ => no_filters end) 1)
  = false.
Proof.
  apply (nested_composition_refused None None outer_and "_and" [JObj inner_or] inner_or "_or" mine []);
    [by eexists|reflexivity|by left|by eexists|reflexivity|vm_compute; reflexivity].
Defined.

(** A subquery without conditions of its own is not counted: thirty of them
    compile, past the limit of twenty conditions. *)
Definition thirty_badges : json := JObj {["_or" := JArr (replicate 30 (JObj {["badge" := JObj ∅]}))]}.
Example thirty_subqueries :
  snd <$> text_of (extractFieldFilters (Some reg) thirty_badges (Some awards)) = Some 30%nat.
Proof. vm_compute. reflexivity. Qed.
End Example_where.
