(* ===== verification/Records.v ===== *)
(** [internal/database/repositories/records.go]: the collection queries, as the
    SQL text sent to the database and the arguments bound to its placeholders.
    What the database answers is for the client of this file to say. *)
From stdpp Require Import sorting.
From S2P Require Import Prelude GoStrings Json Filter.

Local Open Scope Z_scope.

Record Record_ := {
  URI : string;
  CID : string;
  DID : string;
  Collection : string;
  JSON : string;
  IndexedAt : Z;          (* microseconds since the epoch, in UTC *)
  RKey : string;
  PDS : string
}.

Definition MaxSearchLength : Z := 500.
Definition MaxAuthorsFilterSize : Z := 500.
Definition MaxPDSExcludeSize : Z := 32.

Record LabelFilter := {
  LabelerSrcs : list string;
  Include : list string;
  Exclude : list string
}.
Definition LabelFilter_IsEmpty (f : LabelFilter) : bool :=
  match Include f, Exclude f with [], [] => true | _, _ => false end.

(** [Authors] is a slice whose nil and empty values differ. *)
Record RecordFilter := {
  Authors : option (list string);
  Labels : LabelFilter;
  Search : string;
  PDSExclude : list string
}.
Definition RecordFilter_IsEmpty (f : RecordFilter) : bool :=
  match Authors f with None => true | Some _ => false end
  && LabelFilter_IsEmpty (Labels f) && is_empty (Search f)
  && match PDSExclude f with [] => true | _ => false end.

Inductive records_error :=
| ErrAuthorsFilterTooLarge
| ErrPDSExcludeTooLarge
| EFieldFilter (e : filter_error)
| ESortExpr (e : filter_error)
| EDatabase (msg : string).

(** A statement: its text and its arguments. *)
Definition statement : Type := string * list sqlparam.

Definition recordColumns : string :=
  "r.uri, r.cid, r.did, r.collection, r.json::text, r.indexed_at::text, r.rkey, COALESCE(a.pds, '')".
Definition recordTable : string := "record r LEFT JOIN actor a ON r.did = a.did".

(** The two statements of the plain keyset query. *)
Definition first_page_sql (limit : Z) : string :=
  "SELECT " +:+ recordColumns +:+ " FROM " +:+ recordTable
  +:+ " WHERE r.collection = $1 ORDER BY r.indexed_at DESC, r.uri DESC" +:+ " LIMIT " +:+ itoa limit.
Definition next_page_sql (limit : Z) : string :=
  "SELECT " +:+ recordColumns +:+ " FROM " +:+ recordTable
  +:+ " WHERE r.collection = $1 AND (r.indexed_at < $2 OR (r.indexed_at = $3 AND r.uri < $4))"
  +:+ " ORDER BY r.indexed_at DESC, r.uri DESC" +:+ " LIMIT " +:+ itoa limit.

Definition GetByCollectionWithKeysetCursor (collection : string) (limit : Z)
    (afterTimestamp afterURI : string) : statement :=
  if is_empty afterTimestamp && is_empty afterURI
  then (first_page_sql limit, [PText collection])
  else (next_page_sql limit,
        [PText collection; PText afterTimestamp; PText afterTimestamp; PText afterURI]).

(** [sort.Strings] and [slices.Compact]. *)
Definition str_le (s t : string) : Prop := String.leb s t = true.
#[export] Instance str_le_dec : RelDecision str_le.
Proof. intros s t. unfold str_le. apply _. Defined.
Fixpoint compact (l : list string) : list string :=
  match l with
  | x :: (y :: _) as l' => if String.eqb x y then compact l' else x :: compact l'
  | _ => l
  end.
Definition sorted_set (l : list string) : list string :=
  match l with _ :: _ :: _ => compact (merge_sort str_le l) | _ => l end.

Section WithLib.
Context `{FilterLib}.

(** The list of placeholders handed out for [n] arguments. *)
Definition placeholders (from : Z) (n : nat) : string :=
  join (param <$> seqZ from (Z.of_nat n)) ", ".

(** A clause [before (..., ...) after] over a list of arguments. *)
Definition add_list (a : acc) (before : string) (vals : list string) (after : string) : acc :=
  acc_add a (before +:+ placeholders (idx a) (length vals) +:+ after) (PText <$> vals)
    (idx a + Z.of_nat (length vals)).

Definition add_authors (authors : list string) (a : acc) : acc :=
  match authors with [] => a | _ => add_list a "r.did IN (" authors ")" end.

Definition add_search (search : string) (a : acc) : acc :=
  if is_empty search then a
  else let s := if MaxSearchLength <? glen search
                then take_bytes (Z.to_nat MaxSearchLength) search else search in
       acc_add a ("r.search_vector @@ plainto_tsquery('english', " +:+ param (idx a) +:+ ")")
         [PText s] (idx a + 1).

Definition add_fields (g : option FilterGroup) (a : acc) : result records_error acc :=
  match g with
  | Some g =>
      if IsEmpty g then Ok a
      else match BuildFilterGroupClause g (idx a) with
           | Err e => Err (EFieldFilter e)
           | Ok (clause, ps) =>
               Ok (if is_empty clause then a
                   else acc_add a ("(" +:+ clause +:+ ")") ps (idx a + Z.of_nat (length ps)))
           end
  | None => Ok a
  end.

(** The sort expression and direction. *)
Definition sort_of (s : option SortOption) : result records_error (string * string) :=
  match s with
  | None => Ok ("r.indexed_at", SortDESC)
  | Some o => match BuildSortExpr s with
              | Err e => Err (ESortExpr e)
              | Ok expr => Ok ("r." +:+ expr, Direction o)
              end
  end.

Definition add_keyset (sortExpr sortDir afterSortValue afterURI : string) (a : acc) : acc :=
  if is_empty afterSortValue && is_empty afterURI then a
  else
    let op := if String.eqb sortDir SortDESC then " < " else " > " in
    acc_add a
      ("(" +:+ sortExpr +:+ op +:+ param (idx a) +:+ " OR (" +:+ sortExpr +:+ " = "
       +:+ param (idx a + 1) +:+ " AND r.uri" +:+ op +:+ param (idx a + 2) +:+ "))")
      [PText afterSortValue; PText afterSortValue; PText afterURI] (idx a + 3).

Definition add_pds (pds : list string) (a : acc) : acc :=
  match pds with
  | [] => a
  | _ => add_list a "(a.pds IS NULL OR a.pds NOT IN (" (sorted_set pds) "))"
  end.

(** [labelFilterSub]. *)
Definition add_labels (srcs vals : list string) (verb : string) (a : acc) : acc :=
  match vals with
  | [] => a
  | _ =>
      let n := length vals in
      let valPhs := placeholders (idx a) n in
      let srcClause :=
        match srcs with
        | [] => ""
        | _ => " AND l.src IN (" +:+ placeholders (idx a + Z.of_nat n) (length srcs) +:+ ")"
        end in
      acc_add a
        (verb +:+ " (
			SELECT 1 FROM label l
			WHERE l.uri = r.uri
			  AND l.neg = false
			  AND (l.exp IS NULL OR l.exp > NOW())
			  AND l.val IN (" +:+ valPhs +:+ ")" +:+ srcClause +:+ "
			  AND NOT EXISTS (
			    SELECT 1 FROM label neg
			    WHERE neg.uri = l.uri
			      AND neg.src = l.src
			      AND neg.val = l.val
			      AND neg.neg = true
			      AND neg.cts >= l.cts
			  )
		)")
        (PText <$> vals ++ srcs) (idx a + Z.of_nat (n + length srcs))
  end.

(** Whether no constraint applies, so that the plain keyset query is used. *)
Definition plain (filter : RecordFilter) (sortOpt : option SortOption) (g : option FilterGroup)
  : bool :=
  LabelFilter_IsEmpty (Labels filter)
  && match Authors filter with None | Some [] => true | _ => false end
  && is_empty (Search filter) && match PDSExclude filter with [] => true | _ => false end
  && match g with Some g => IsEmpty g | None => true end
  && IsDefault sortOpt.

(** The statement to run, or [None] for the empty answer without a query. *)
Definition GetByCollectionFiltered (collection : string) (limit : Z)
    (afterSortValue afterURI : string) (filter : RecordFilter) (sortOpt : option SortOption)
    (filterGroup : option FilterGroup) : result records_error (option statement) :=
  let authors := default [] (Authors filter) in
  if match Authors filter with Some [] => true | _ => false end then Ok None
  else if MaxAuthorsFilterSize <? Z.of_nat (length authors) then Err ErrAuthorsFilterTooLarge
  else if MaxPDSExcludeSize <? Z.of_nat (length (PDSExclude filter)) then Err ErrPDSExcludeTooLarge
  else if plain filter sortOpt filterGroup then
    Ok (Some (GetByCollectionWithKeysetCursor collection limit afterSortValue afterURI))
  else
    let a := {| clauses := ["r.collection = " +:+ param 1]; params := [PText collection]; idx := 2 |} in
    a ← add_fields filterGroup (add_search (Search filter) (add_authors (sorted_set authors) a));
    s ← sort_of sortOpt;
    let '(sortExpr, sortDir) := s : string * string in
    let a := add_keyset sortExpr sortDir afterSortValue afterURI a in
    let a := add_pds (PDSExclude filter) a in
    let srcs := LabelerSrcs (Labels filter) in
    let a := add_labels srcs (Include (Labels filter)) "EXISTS" a in
    let a := add_labels srcs (Exclude (Labels filter)) "NOT EXISTS" a in
    let uriDir := if String.eqb sortDir SortASC then "ASC" else "DESC" in
    Ok (Some ("SELECT " +:+ recordColumns +:+ " FROM " +:+ recordTable +:+ " WHERE "
              +:+ join (clauses a) " AND " +:+ " ORDER BY " +:+ sortExpr +:+ " " +:+ sortDir
              +:+ " NULLS LAST, r.uri " +:+ uriDir +:+ " LIMIT " +:+ itoa limit, params a)).
End WithLib.

(** ** Placeholders *)

Section Frag.
Context `{FilterLib}.

Lemma placeholders_frag from n : frag (placeholders from n) (seqZ from (Z.of_nat n)).
Proof.
  unfold placeholders. replace (seqZ from (Z.of_nat n)) with
    (concat ((fun z => [z]) <$> seqZ from (Z.of_nat n))) at 2.
  - apply frag_join; [done|]. generalize (seqZ from (Z.of_nat n)) as l.
    induction l; constructor; [apply frag_par|done].
  - generalize (seqZ from (Z.of_nat n)) as l. induction l as [|z l IH]; [done|]. cbn. by f_equal.
Qed.

Lemma seqZ_cons_app off n m : 0 <= n -> 0 <= m -> seqZ off (n + m) = seqZ off n ++ seqZ (off + n) m.
Proof. intros. by rewrite seqZ_app. Qed.

Variable off : Z.

Lemma add_list_ok a before vals after : no_dollar before = true -> no_dollar after = true ->
  acc_ok off a -> acc_ok off (add_list a before vals after).
Proof.
  intros Hb Ha Hok. unfold add_list. apply acc_add_ok; [done| |by rewrite length_fmap].
  rewrite length_fmap. pose proof (placeholders_frag (idx a) (length vals)). frag.
Qed.

Lemma add_authors_ok l a : acc_ok off a -> acc_ok off (add_authors l a).
Proof. intros Hok. destruct l; [done|]. by apply add_list_ok. Qed.

Lemma add_pds_ok l a : acc_ok off a -> acc_ok off (add_pds l a).
Proof. intros Hok. destruct l; [done|]. by apply add_list_ok. Qed.

Lemma add_search_ok s a : acc_ok off a -> acc_ok off (add_search s a).
Proof.
  intros Hok. unfold add_search. destruct (is_empty s); [done|].
  apply acc_add_ok; [done| |cbn; lia]. cbn [length].
  assert (seqZ (idx a) (Z.of_nat 1) = [idx a]) as -> by (unfold seqZ; cbn; f_equal; lia). frag.
Qed.

Lemma add_fields_ok g a a' : (forall g', g = Some g' -> exprs_ok g' = true) -> acc_ok off a ->
  add_fields g a = Ok a' -> acc_ok off a'.
Proof.
  intros Hg Hok. unfold add_fields. destruct g as [g|]; [|by intros [= <-]].
  destruct (IsEmpty g); [by intros [= <-]|].
  destruct (BuildFilterGroupClause g (idx a)) as [[c ps]|] eqn:Hb; [|done]. intros [= <-].
  assert (frag c (seqZ (idx a) (Z.of_nat (length ps)))) as Hf.
  { revert Hb. unfold BuildFilterGroupClause. destruct (_ <? _); [done|]. intros Hb.
    apply (build_frag g (idx a) 0 "r"); [done|by apply Hg|exact Hb]. }
  by apply child_ok.
Qed.

Lemma seqZ_three n : seqZ n 3 = [n; n + 1; n + 2].
Proof. unfold seqZ. change (Z.to_nat 3) with 3%nat. cbn. repeat (f_equal; try lia). Qed.

Lemma add_keyset_ok e d v u a : no_dollar e = true -> acc_ok off a ->
  acc_ok off (add_keyset e d v u a).
Proof.
  intros He Hok. unfold add_keyset. destruct (_ && _); [done|].
  apply acc_add_ok; [done| |cbn; lia]. change (Z.of_nat (length _)) with 3. rewrite seqZ_three.
  set (op := if String.eqb d SortDESC then " < " else " > ").
  assert (no_dollar op = true) as Hop by (unfold op; by destruct (String.eqb _ _)).
  pose proof (frag_par (idx a)). pose proof (frag_par (idx a + 1)). pose proof (frag_par (idx a + 2)).
  change [idx a; idx a + 1; idx a + 2] with ([idx a] ++ [idx a + 1] ++ [idx a + 2]).
  assert (frag (e +:+ op) []) as Hl by frag.
  rewrite <-!(app_assoc_str e op).
  apply frag_app_nil_l; [by apply frag_txt|]. apply frag_app_nil_l; [done|].
  apply frag_app; [frag|]. apply frag_app_nil_l; [by apply frag_txt|].
  apply frag_app_nil_l; [by apply frag_txt|]. apply frag_app_nil_l; [by apply frag_txt|].
  apply frag_app; [frag|]. frag.
Qed.

Lemma add_labels_ok srcs vals verb a : no_dollar verb = true -> acc_ok off a ->
  acc_ok off (add_labels srcs vals verb a).
Proof.
  intros Hv Hok. unfold add_labels. destruct vals as [|v vals]; [done|].
  set (l := v :: vals). apply acc_add_ok; [done| |by rewrite length_fmap, length_app].
  rewrite length_fmap, length_app, Nat2Z.inj_add, seqZ_cons_app by lia.
  apply frag_app_nil_l; [by apply frag_txt|]. apply frag_app_nil_l; [by apply frag_txt|].
  apply frag_app; [apply placeholders_frag|]. apply frag_app_nil_l; [by apply frag_txt|].
  apply frag_app_nil_r; [|by apply frag_txt].
  destruct srcs as [|s srcs]; [by apply frag_txt|].
  pose proof (placeholders_frag (idx a + Z.of_nat (length l)) (length (s :: srcs))). frag.
Qed.
End Frag.

Lemma itoa_no_dollar z : no_dollar (itoa z) = true.
Proof.
  eapply all_bytes_impl; [|apply itoa_bytes].
  intros b Hb. apply negb_true_iff, Z.eqb_neq. intros ->. done.
Qed.

(** What every caller guarantees of a request: the direction is one of the
    schema's enumeration, and the fragments of the filter group are those of the
    registries. *)
Definition request_ok (sortOpt : option SortOption) (g : option FilterGroup) : Prop :=
  (forall o, sortOpt = Some o -> Direction o = SortASC \/ Direction o = SortDESC) /\
  (forall g', g = Some g' -> exprs_ok g' = true).

Lemma BuildSortExpr_no_dollar s e : BuildSortExpr s = Ok e -> no_dollar e = true.
Proof.
  unfold BuildSortExpr. destruct s as [o|]; [|by intros [= <-]].
  destruct (String.eqb _ _); [by intros [= <-]|]. destruct (existsb _ _) eqn:He.
  - intros [= <-]. apply existsb_exists in He as (x & Hx & ->%String.eqb_eq).
    cbn in Hx. by repeat destruct Hx as [<-|Hx].
  - intros (u & Hu & [= <-])%bind_Ok. apply valid_name_ident, ident_no_dollar in Hu.
    unfold no_dollar in *. by rewrite !all_bytes_app, Hu.
Qed.

Lemma sort_of_ok s e d : (forall o, s = Some o -> Direction o = SortASC \/ Direction o = SortDESC) ->
  sort_of s = Ok (e, d) -> no_dollar e = true /\ no_dollar d = true.
Proof.
  intros Hs. unfold sort_of. destruct s as [o|]; [|by intros [= <- <-]].
  destruct (BuildSortExpr (Some o)) as [x|] eqn:Hx; [|done]. intros [= <- <-].
  apply BuildSortExpr_no_dollar in Hx. split; [by cbn|].
  by destruct (Hs o eq_refl) as [-> | ->].
Qed.

Lemma plain_text_forallb ps :
  forallb (fun p => match p with Txt s => no_dollar s | Par _ => true end) ps = true -> plain_text ps.
Proof. rewrite forallb_elem_of. intros Hp s Hs. apply (Hp _ Hs). Qed.

(** The statement of a filtered query holds exactly the placeholders of its
    arguments. *)
Lemma statement_placeholders `{FilterLib} coll limit v u filter so g sql args :
  request_ok so g ->
  GetByCollectionFiltered coll limit v u filter so g = Ok (Some (sql, args)) ->
  frag sql (seqZ 1 (Z.of_nat (length args))).
Proof.
  intros [Hs Hg]. unfold GetByCollectionFiltered.
  destruct (match Authors filter with Some [] => true | _ => false end); [done|].
  destruct (_ <? _); [done|]. destruct (_ <? _); [done|].
  pose proof (itoa_no_dollar limit) as Hl.
  destruct (plain filter so g).
  { unfold GetByCollectionWithKeysetCursor, first_page_sql, next_page_sql.
    destruct (_ && _); intros [= <- <-].
    - exists [Txt ("SELECT " +:+ recordColumns +:+ " FROM " +:+ recordTable
                   +:+ " WHERE r.collection = "); Par 1;
              Txt (" ORDER BY r.indexed_at DESC, r.uri DESC LIMIT " +:+ itoa limit)].
      split; [cbn; by rewrite app_nil_r_str|]. split; [done|].
      apply plain_text_forallb. unfold no_dollar in *. cbn [forallb].
      rewrite !all_bytes_app, Hl. reflexivity.
    - exists [Txt ("SELECT " +:+ recordColumns +:+ " FROM " +:+ recordTable
                   +:+ " WHERE r.collection = "); Par 1; Txt " AND (r.indexed_at < "; Par 2;
              Txt " OR (r.indexed_at = "; Par 3; Txt " AND r.uri < "; Par 4;
              Txt ("))" +:+ " ORDER BY r.indexed_at DESC, r.uri DESC LIMIT " +:+ itoa limit)].
      split; [cbn; by rewrite app_nil_r_str|]. split; [done|].
      apply plain_text_forallb. unfold no_dollar in *. cbn [forallb].
      rewrite !all_bytes_app, Hl. reflexivity. }
  set (a0 := {| clauses := _; params := _; idx := 2 |}).
  assert (acc_ok 1 a0) as H0.
  { split; [|done]. exists [[1]]. split; [|done]. constructor; [|done]. cbn.
    apply (frag_app_nil_l "r.collection = " (param 1)); [by apply frag_txt|apply frag_par]. }
  intros (a1 & Ha1 & ([e d] & Hed & [= <- <-])%bind_Ok)%bind_Ok.
  destruct (sort_of_ok _ _ _ Hs Hed) as [He Hd].
  match goal with |- frag _ (seqZ 1 (Z.of_nat (length (params ?x)))) => set (a := x) end.
  assert (acc_ok 1 a) as [(nss & Hf & Hp) _].
  { unfold a. do 2 (apply add_labels_ok; [done|]). apply add_pds_ok, add_keyset_ok; [done|].
    eapply add_fields_ok; [done| |exact Ha1]. by apply add_search_ok, add_authors_ok. }
  pose proof (frag_perm _ _ _ Hp (frag_join _ _ " AND " eq_refl Hf)) as Hj.
  set (dir := if String.eqb d SortASC then "ASC" else "DESC").
  assert (no_dollar dir = true) as Hdir by (unfold dir; by destruct (String.eqb _ _)).
  do 5 (apply frag_app_nil_l; [by apply frag_txt|]). apply frag_app_nil_r; [exact Hj|].
  apply frag_txt. unfold no_dollar in *. rewrite !all_bytes_app, He, Hd, Hl. by rewrite Hdir.
Qed.

(** The statement ends with the row limit that was asked for. *)
Lemma ends_app a s t : (exists head, s = head +:+ t) -> exists head, a +:+ s = head +:+ t.
Proof. intros [h ->]. exists (a +:+ h). by rewrite app_assoc_str. Qed.
Lemma ends_self s : exists head, s = head +:+ s.
Proof. by exists "". Qed.

Lemma GetByCollectionFiltered_limit `{FilterLib} coll limit v u filter so g sql args :
  GetByCollectionFiltered coll limit v u filter so g = Ok (Some (sql, args)) ->
  exists head, sql = head +:+ " LIMIT " +:+ itoa limit.
Proof.
  unfold GetByCollectionFiltered.
  destruct (match Authors filter with Some [] => true | _ => false end); [done|].
  destruct (_ <? _); [done|]. destruct (_ <? _); [done|]. destruct (plain filter so g).
  { unfold GetByCollectionWithKeysetCursor, first_page_sql, next_page_sql.
    destruct (_ && _); intros [= <- _].
    - do 5 apply ends_app. apply ends_self.
    - do 6 apply ends_app. apply ends_self. }
  intros (a1 & _ & ([e d] & _ & [= <- _])%bind_Ok)%bind_Ok.
  do 12 apply ends_app. apply ends_self.
Qed.
