(* ===== verification/Connection.v ===== *)
(** [internal/graphql/query/connection.go] and the connection resolver of
    [internal/graphql/schema/builder.go]: arguments to one SQL statement, its
    rows to a page of edges, and a client that follows the cursors. *)
From Stdlib Require Import Sorted.
From S2P Require Import Prelude GoStrings Utf8 Json Lexicon Registry Validator Filter Where Records.

Local Open Scope Z_scope.

(** ** Arguments *)

Definition DefaultPageSize : Z := 20.
Definition MaxPageSize : Z := 100.
Definition ClampPageSize (first : Z) : Z :=
  if first <=? 0 then DefaultPageSize else if MaxPageSize <? first then MaxPageSize else first.

Definition MaxLabelFilterValues : Z := 50.
Definition MaxLabelFilterLabelers : Z := 32.

Inductive conn_error :=
| CMixed
| CBadCursor
| CCursorOrder (cursor orderBy : string)
| CNotList (arg : string)
| CNotString (arg : string)
| CTooManyAuthors
| CWhere (e : where_error)
| CQuery (e : records_error)
| CNoCollection
| CPanic.

Definition arg_string (args : obj) (name : string) : string :=
  match args !! name with Some (JStr s) => s | _ => "" end.
(** The type assertion [.(int)] on a decoded Int argument. *)
Definition arg_int (args : obj) (name : string) : option Z :=
  match args !! name with Some (JNum n) => num_int n | _ => None end.

(** The strings of a list argument, or the error for an element of another
    type. *)
Definition strings_of (arg : string) (l : list json) : result conn_error (list string) :=
  result_mapM (fun e => match as_str e with Some s => Ok s | None => Err (CNotString arg) end) l.

Definition ParsePDSExcludeFilter (args : obj) : result conn_error (list string) :=
  match args !! "excludePds" with
  | None | Some JNull => Ok []
  | Some (JArr l) => ss ← strings_of "excludePds" l; Ok (dedup_go ∅ (ss : list string))
  | Some _ => Err (CNotList "excludePds")
  end.

Definition ParseAuthorsFilter (args : obj) : result conn_error (option (list string)) :=
  match args !! "authors" with
  | None | Some JNull => Ok None
  | Some (JArr l) =>
      dids ← strings_of "authors" l;
      if MaxAuthorsFilterSize <? Z.of_nat (length (dids : list string)) then Err CTooManyAuthors
      else Ok (Some dids)
  | Some _ => Err (CNotList "authors")
  end.

Definition ParseSearchFilter (args : obj) : string := TrimSpace (arg_string args "search").

(** The non-empty strings of a list argument, up to a bound. *)
Definition bounded_strings (args : obj) (name : string) (bound : Z) : list string :=
  match args !! name with
  | Some (JArr l) =>
      take (Z.to_nat bound)
        (List.filter (fun s => negb (is_empty s)) (omap as_str l))
  | _ => []
  end.

Definition parseLabelFilter (args : obj) : LabelFilter :=
  {| LabelerSrcs := bounded_strings args "labelerDids" MaxLabelFilterLabelers;
     Include := bounded_strings args "labels" MaxLabelFilterValues;
     Exclude := bounded_strings args "excludeLabels" MaxLabelFilterValues |}.

(** ** Cursors *)

(** base64 and JSON of an array of strings, as the standard library documents
    them: decoding an encoding gives the same bytes back, and the same strings
    when they are text. *)
Class CursorCodec := {
  base64_encode : string -> string;
  base64_decode : string -> option string;
  marshal_strings : list string -> string;
  unmarshal_strings : string -> option (list string);
  base64_inverse s : base64_decode (base64_encode s) = Some s;
  base64_nonempty s : s <> "" -> base64_encode s <> "";
  strings_inverse l : Forall (fun s => ValidString s = true) l ->
    unmarshal_strings (marshal_strings l) = Some l;
  strings_nonempty l : marshal_strings l <> ""
}.

Section Cursors.
Context `{CursorCodec}.

Definition encodeCursorV2 (sortField sortValue uri : string) : string :=
  base64_encode (marshal_strings [sortField; sortValue; uri]).

(** The new format, or the legacy one with a bar. *)
Definition decodeCursorV2 (cursor : string) : result conn_error (string * string * string) :=
  match base64_decode cursor with
  | None => Err CBadCursor
  | Some data =>
      match unmarshal_strings data with
      | Some [f; v; u] => Ok (f, v, u)
      | _ => match cut_at "|" data with
             | Some (v, u) => Ok ("indexed_at", v, u)
             | None => Err CBadCursor
             end
      end
  end.

Lemma cursor_decodes f v u : ValidString f = true -> ValidString v = true -> ValidString u = true ->
  decodeCursorV2 (encodeCursorV2 f v u) = Ok (f, v, u).
Proof.
  intros. unfold decodeCursorV2, encodeCursorV2. rewrite base64_inverse.
  rewrite strings_inverse; [done|]. by repeat constructor.
Qed.

Lemma cursor_nonempty f v u : is_empty (encodeCursorV2 f v u) = false.
Proof.
  pose proof (base64_nonempty _ (strings_nonempty [f; v; u])) as Hn.
  unfold encodeCursorV2. by destruct (base64_encode _).
Qed.
End Cursors.

(** [Format] of a time with the layout [2006-01-02T15:04:05Z]: the civil date
    of a day number, and the time of day, down to whole seconds. *)
Definition civil (day : Z) : Z * Z * Z :=
  let z := day + 719468 in
  let era := z / 146097 in
  let doe := z mod 146097 in
  let yoe := (doe - doe / 1460 + doe / 36524 - doe / 146096) / 365 in
  let doy := doe - (365 * yoe + yoe / 4 - yoe / 100) in
  let mp := (5 * doy + 2) / 153 in
  let m := if mp <? 10 then mp + 3 else mp - 9 in
  (yoe + era * 400 + (if m <=? 2 then 1 else 0), m, doy - (153 * mp + 2) / 5 + 1).
Definition pad2 (n : Z) : string := if n <? 10 then "0" +:+ itoa n else itoa n.
Definition pad4 (n : Z) : string :=
  if n <? 10 then "000" +:+ itoa n else if n <? 100 then "00" +:+ itoa n
  else if n <? 1000 then "0" +:+ itoa n else itoa n.
Definition format_seconds (micros : Z) : string :=
  let secs := micros / 1000000 in
  let '(y, m, d) := civil (secs / 86400) in
  let s := secs mod 86400 in
  pad4 y +:+ "-" +:+ pad2 m +:+ "-" +:+ pad2 d +:+ "T" +:+ pad2 (s / 3600) +:+ ":"
  +:+ pad2 (s / 60 mod 60) +:+ ":" +:+ pad2 (s mod 60) +:+ "Z".

Example format_sample : format_seconds 1768821485123456 = "2026-01-19T11:18:05Z".
Proof. vm_compute. reflexivity. Qed.
Example format_leap : format_seconds 1709164799999999 = "2024-02-28T23:59:59Z".
Proof. vm_compute. reflexivity. Qed.

(** ** The statement of a request *)

Section Resolver.
Context `{CursorCodec} `{FilterLib} `{MapRange} (registry : Registry).

(** What the resolver computes before it queries. *)
Record page_request := {
  isBackward : bool;
  pageSize : Z;
  sortField : string;
  after : string;
  before : string;
  labelerSrcs : list string;
  query_of : option statement
}.

Definition decode_position (cursorStr sortField : string) : result conn_error (string * string) :=
  if is_empty cursorStr then Ok ("", "")
  else
    c ← decodeCursorV2 cursorStr;
    let '(f, sv, u) := c : string * string * string in
    if String.eqb f sortField then Ok (sv, u) else Err (CCursorOrder f sortField).

Definition where_group (args : obj) (collection : string) : result conn_error FilterGroup :=
  match args !! "where" with
  | None | Some JNull => Ok (mkGroup "" [] [] [] [])
  | Some whereArg =>
      match extractFieldFilters (Some registry) whereArg (GetLexicon registry collection) with
      | Ok g => Ok g
      | Err e => Err (CWhere e)
      end
  end.

Definition orderBy (args : obj) : string :=
  let f := arg_string args "orderBy" in if is_empty f then "indexed_at" else f.
Definition orderDirection (args : obj) : string :=
  let d := arg_string args "orderDirection" in if is_empty d then "DESC" else d.

Definition has (args : obj) (name : string) : bool :=
  match arg_int args name with Some _ => true | None => false end.
Definition is_backward (args : obj) : bool :=
  has args "last" || negb (is_empty (arg_string args "before")).
Definition is_forward (args : obj) : bool :=
  has args "first" || negb (is_empty (arg_string args "after")).

Definition page_size (args : obj) : Z :=
  ClampPageSize (default 0 (arg_int args (if is_backward args then "last" else "first"))).

Definition prepare (args : obj) (collection : string) : result conn_error page_request :=
  let after := arg_string args "after" in
  let before := arg_string args "before" in
  if is_forward args && is_backward args then Err CMixed
  else
    let sortField := orderBy args in
    let sortOpt := {| Filter.Field := sortField; Direction := orderDirection args |} in
    pos ← decode_position (if is_backward args then before else after) sortField;
    let '(cursorSortValue, cursorURI) := pos : string * string in
    let labelFilter := parseLabelFilter args in
    authors ← ParseAuthorsFilter args;
    pdsExclude ← ParsePDSExcludeFilter args;
    filterGroup ← where_group args collection;
    match GetByCollectionFiltered collection (page_size args + 1) cursorSortValue cursorURI
            {| Authors := authors; Labels := labelFilter; Search := ParseSearchFilter args;
               PDSExclude := pdsExclude |} (Some sortOpt) (Some filterGroup) with
    | Err e => Err (CQuery e)
    | Ok st => Ok {| isBackward := is_backward args; pageSize := page_size args;
                     sortField := sortField; after := after; before := before;
                     labelerSrcs := LabelerSrcs labelFilter; query_of := st |}
    end.

(** ** The page *)

(** The database as the resolver uses it: the records query, the labels of a
    list of URIs as (src, uri, val), and the count of a collection. *)
Record database := {
  run_query : statement -> result string (list Record_);
  GetByURIs : list string -> result string (list (string * string * string));
  GetCollectionCount : string -> result string Z
}.

Record connection := {
  edges : list (string * json);
  hasNextPage : bool;
  hasPreviousPage : bool;
  startCursor : string;
  endCursor : string;
  totalCount : option Z
}.

(** The labels of each URI, restricted to the given labelers when there are
    any. *)
Definition loadLabelsByURI (db : database) (srcs : list string) (records : list Record_)
  : gmap string (list string) :=
  let primed : gmap string (list string) := foldl (fun m r => <[URI r := []]> m) ∅ records in
  match records with
  | [] => primed
  | _ =>
      match GetByURIs db (URI <$> records) with
      | Err _ => primed
      | Ok labels =>
          foldl (fun m l =>
                   let '(src, uri, val) := l : string * string * string in
                   if match srcs with [] => true | _ => bool_decide (src ∈ srcs) end
                   then <[uri := default [] (m !! uri) ++ [val]]> m else m) primed labels
      end
  end.

(** The JSON of a record decoded into a map; [None] is the nil map of a JSON
    null. *)
Context (unmarshal : string -> result string (option obj)).

Definition nodeBuilder := Record_ -> option obj -> result panic (option json).

Definition finish_node (rec : Record_) (labels : option (list string)) (node : json) : json :=
  match node with
  | JObj m =>
      JObj (<["pds" := if is_empty (PDS rec) then JNull else JStr (PDS rec)]>
              (<["labels" := match labels with Some l => JArr (JStr <$> l) | None => JNull end]> m))
  | v => v
  end.

(** The loop over the rows: the edges, and the first and last cursor. *)
Fixpoint build_edges (buildNode : nodeBuilder) (field : string)
    (labels : gmap string (list string)) (records : list Record_)
  : result conn_error (list (string * json)) :=
  match records with
  | [] => Ok []
  | rec :: rest =>
      match unmarshal (JSON rec) with
      | Err _ => build_edges buildNode field labels rest
      | Ok value =>
          match buildNode rec value with
          | Err _ => Err CPanic
          | Ok None => build_edges buildNode field labels rest
          | Ok (Some node) =>
              es ← build_edges buildNode field labels rest;
              Ok ((encodeCursorV2 field (format_seconds (IndexedAt rec)) (URI rec),
                   finish_node rec (labels !! URI rec) node) :: es)
          end
      end
  end.

Definition resolveRecordConnection (db : database) (countRequested : bool)
    (args : obj) (collection : string) (buildNode : nodeBuilder) : result conn_error connection :=
  req ← prepare args collection;
  rows ← (match query_of req with
          | None => Ok []
          | Some st => match run_query db st with
                       | Ok rows => Ok rows | Err e => Err (CQuery (EDatabase e)) end
          end : result conn_error (list Record_));
  let hasMore := pageSize req <? Z.of_nat (length rows) in
  let page := if hasMore then take (Z.to_nat (pageSize req)) rows else rows in
  let page := if isBackward req then reverse page else page in
  es ← build_edges buildNode (sortField req) (loadLabelsByURI db (labelerSrcs req) page) page;
  Ok {| edges := es;
        hasNextPage := if isBackward req then negb (is_empty (before req)) else hasMore;
        hasPreviousPage := if isBackward req then hasMore else negb (is_empty (after req));
        startCursor := match es with e :: _ => e.1 | [] => "" end;
        endCursor := match last es with Some e => e.1 | None => "" end;
        totalCount := if countRequested then
                        match GetCollectionCount db collection with Ok n => Some n | Err _ => None end
                      else None |}.

(** The node of the generic query and that of a typed collection. *)
Definition generic_node : nodeBuilder := fun rec value =>
  Ok (Some (JObj (<["uri" := JStr (URI rec)]> (<["cid" := JStr (CID rec)]>
    (<["did" := JStr (DID rec)]> (<["collection" := JStr (Collection rec)]>
    (<["rkey" := JStr (RKey rec)]>
    {["value" := match value with Some m => JObj m | None => JNull end]}))))))).

Definition typed_node `{ValidatorLib} (lexiconID : string) : nodeBuilder := fun rec value =>
  match value with
  | None => Ok None
  | Some data =>
      r ← SanitizeRecord (GetRecordDef registry lexiconID) registry data;
      let '(sanitized, kept) := r : obj * bool in
      Ok (if kept then
            Some (JObj (<["uri" := JStr (URI rec)]> (<["cid" := JStr (CID rec)]>
              (<["did" := JStr (DID rec)]> (<["rkey" := JStr (RKey rec)]> sanitized)))))
          else None)
  end.

Definition createGenericRecordsResolver (db : database) (countRequested : bool) (args : obj)
  : result conn_error connection :=
  let collection := arg_string args "collection" in
  if is_empty collection then Err CNoCollection
  else resolveRecordConnection db countRequested args collection generic_node.

Definition createCollectionResolver `{ValidatorLib} (lexiconID : string) (db : database)
    (countRequested : bool) (args : obj) : result conn_error connection :=
  resolveRecordConnection db countRequested args lexiconID (typed_node lexiconID).
End Resolver.

(** ** The statement of every request is well formed *)

Lemma ClampPageSize_range n : 1 <= ClampPageSize n <= MaxPageSize.
Proof. unfold ClampPageSize, DefaultPageSize, MaxPageSize. repeat case_match; lia. Qed.

(** C1: whatever the arguments of a record query are, the statement that the
    resolver sends holds exactly the placeholders of its arguments, through
    authors, search, where filters with their subqueries, cursor, host and label
    filters; it asks for one row more than the page, which has between 1 and 100;
    and forward and backward arguments never mix. The sort direction is one of
    the schema's enumeration. *)
Theorem request_statement_safe `{CursorCodec} `{FilterLib} `{MapRange} registry args coll req sql ps :
  registry_inv registry ->
  arg_string args "orderDirection" ∈ ["ASC"; "DESC"; ""] ->
  prepare registry args coll = Ok req -> query_of req = Some (sql, ps) ->
  frag sql (seqZ 1 (Z.of_nat (length ps))) /\
  1 <= pageSize req <= MaxPageSize /\
  (exists head, sql = head +:+ " LIMIT " +:+ itoa (pageSize req + 1)) /\
  ~ (is_forward args = true /\ is_backward args = true).
Proof.
  intros Hreg Hdir. unfold prepare.
  destruct (is_forward args && is_backward args) eqn:Hmix; [done|].
  intros ([sv u] & _ & (authors & _ & (pds & _ & (g & Hg & Hq)%bind_Ok)%bind_Ok)%bind_Ok)%bind_Ok.
  destruct (GetByCollectionFiltered _ _ _ _ _ _ _) as [st|] eqn:Hst; [|done]. simplify_eq.
  cbn [query_of pageSize]. intros ->.
  split; [|split; [apply ClampPageSize_range|split]].
  - eapply statement_placeholders; [|exact Hst]. split.
    + intros o [= <-]. cbn. unfold orderDirection.
      rewrite !elem_of_cons, elem_of_nil in Hdir.
      destruct Hdir as [-> |[-> |[-> |[]]]]; cbn; [by left|by right|by right].
    + intros g' [= <-]. unfold where_group in Hg.
      assert (forall w, match extractFieldFilters (Some registry) w (GetLexicon registry coll) with
                        | Ok g => Ok g | Err e => Err (CWhere e) end = Ok g -> exprs_ok g = true) as Hx.
      { intros w. destruct (extractFieldFilters _ _ _) as [g'|] eqn:He; [|done]. intros [= ->].
        eapply (group_wf_exprs g true), extract_wf; [|by left|exact He]. by intros r [= <-]. }
      destruct (args !! "where") as [w|]; [|by simplify_eq]. destruct w; try by apply Hx in Hg.
      by simplify_eq.
  - eapply GetByCollectionFiltered_limit, Hst.
  - intros [Hf Hb]. by rewrite Hf, Hb in Hmix.
Qed.

(** ** Pagination *)

Lemma format_seconds_bytes us : all_bytes (fun b => b <? 128) (format_seconds us) = true.
Proof.
  assert (forall z, all_bytes (fun b => b <? 128) (itoa z) = true) as Hi.
  { intros z. eapply all_bytes_impl; [|apply itoa_bytes]. intros b. cbn. lia. }
  assert (forall z, all_bytes (fun b => b <? 128) (pad2 z) = true) as H2.
  { intros z. unfold pad2. case_match; rewrite ?all_bytes_app; by rewrite Hi. }
  assert (forall z, all_bytes (fun b => b <? 128) (pad4 z) = true) as H4.
  { intros z. unfold pad4. repeat case_match; rewrite ?all_bytes_app; by rewrite Hi. }
  unfold format_seconds. destruct (civil _) as [[y m] d]. by rewrite !all_bytes_app, !H2, H4.
Qed.

Lemma format_seconds_nonempty us : is_empty (format_seconds us) = false.
Proof.
  assert (forall a c b, is_empty (a +:+ String c b) = false) as Hn by (by intros []).
  unfold format_seconds. destruct (civil _) as [[y m] d]. apply Hn.
Qed.

(** What PostgreSQL documents of the two plain statements, over the rows of each
    collection in the order of the [ORDER BY] clause: the rows after a position
    are those with an earlier time, or the same time and a smaller URI. [ts]
    reads a timestamp literal and [text_lt] is the database's order of text. *)
Class KeysetLaws (run : statement -> result string (list Record_)) (ts : string -> Z)
    (text_lt : string -> string -> bool) (rows : string -> list Record_) := {
  below (r : Record_) (t : Z) (u : string) : bool :=
    (IndexedAt r <? t) || ((IndexedAt r =? t) && text_lt (URI r) u);
  text_lt_irrefl u : text_lt u u = false;
  text_lt_asym u v : text_lt u v = true -> text_lt v u = false;
  rows_sorted coll : StronglySorted (fun a b => below b (IndexedAt a) (URI a) = true) (rows coll);
  first_page_law coll limit : 0 <= limit <= MaxPageSize + 1 ->
    run (first_page_sql limit, [PText coll]) = Ok (take (Z.to_nat limit) (rows coll));
  next_page_law coll limit t u : 0 <= limit <= MaxPageSize + 1 ->
    run (next_page_sql limit, [PText coll; PText t; PText t; PText u])
    = Ok (take (Z.to_nat limit) (List.filter (fun r => below r (ts t) u) (rows coll)))
}.

Section Pages.
Context `{KeysetLaws}.

Lemma filter_all_out {A} (f : A -> bool) l : (forall x, x ∈ l -> f x = false) -> List.filter f l = [].
Proof.
  induction l as [|x l IH]; intros Hf; [done|]. cbn. rewrite (Hf x) by left.
  apply IH. intros y Hy. apply Hf. by right.
Qed.
Lemma filter_all_in {A} (f : A -> bool) l : (forall x, x ∈ l -> f x = true) -> List.filter f l = l.
Proof.
  induction l as [|x l IH]; intros Hf; [done|]. cbn. rewrite (Hf x) by left.
  f_equal. apply IH. intros y Hy. apply Hf. by right.
Qed.

Lemma StronglySorted_split {A} (R : A -> A -> Prop) l1 x l2 : StronglySorted R (l1 ++ x :: l2) ->
  (forall y, y ∈ l1 -> R y x) /\ (forall y, y ∈ l2 -> R x y).
Proof.
  induction l1 as [|a l1 IH]; cbn; intros [Hs Hf]%StronglySorted_inv.
  - split; [by intros y ?%not_elem_of_nil|]. by apply Forall_forall.
  - destruct (IH Hs) as [H1 H2]. split; [|done]. intros y [-> |Hy]%elem_of_cons; [|auto].
    rewrite Forall_forall in Hf. apply Hf, elem_of_app. right. left.
Qed.

(** The rows after the position of a row are those that follow it. *)
Lemma rows_after coll l1 r l2 : rows coll = l1 ++ r :: l2 ->
  List.filter (fun x => below x (IndexedAt r) (URI r)) (rows coll) = l2.
Proof.
  intros Hr. pose proof (rows_sorted coll) as Hs. rewrite Hr in Hs |- *.
  destruct (StronglySorted_split _ _ _ _ Hs) as [H1 H2].
  rewrite List.filter_app. cbn [List.filter]. rewrite (filter_all_out _ l1).
  - unfold below at 1. rewrite Z.ltb_irrefl, Z.eqb_refl, text_lt_irrefl. cbn.
    by apply filter_all_in.
  - intros y Hy%H1. unfold below in *. destruct (Z.ltb_spec (IndexedAt r) (IndexedAt y)); cbn in Hy.
    + replace (IndexedAt y <? IndexedAt r) with false by lia.
      by replace (IndexedAt y =? IndexedAt r) with false by lia.
    + apply andb_true_iff in Hy as [->%Z.eqb_eq Ht]. rewrite Z.ltb_irrefl, Z.eqb_refl. cbn.
      by apply text_lt_asym.
Qed.
End Pages.

(** A client that asks for pages of [n] and follows [endCursor] as long as there
    is a next page; [None] when a page fails or the fuel is used up. *)
Definition page_args (n : Z) (after : string) : obj :=
  <["first" := JNum (Num n 0)]> {["after" := JStr after]}.
Fixpoint follow (fuel : nat) (page : string -> result conn_error connection) (after : string)
  : option (list (string * json)) :=
  match fuel with
  | O => None
  | S f =>
      match page after with
      | Err _ => None
      | Ok c => if hasNextPage c
                then rest ← follow f page (endCursor c); Some (edges c ++ rest)
                else Some (edges c)
      end
  end.

Section Client.
Context `{CursorCodec} `{FilterLib} `{MapRange} (registry : Registry).
Context (db : database) (ts : string -> Z) (text_lt : string -> string -> bool)
  (rows : string -> list Record_) `{!KeysetLaws (run_query db) ts text_lt rows}.
Context (unmarshal : string -> result string (option obj)) (buildNode : nodeBuilder)
  (coll : string) (n : Z).

Definition cursor_of (r : Record_) : string :=
  encodeCursorV2 "indexed_at" (format_seconds (IndexedAt r)) (URI r).

(** A row that makes an edge, and whose time the cursor's text keeps whole. *)
Definition whole (r : Record_) : Prop :=
  ts (format_seconds (IndexedAt r)) = IndexedAt r /\ ValidString (URI r) = true /\
  exists m node, unmarshal (JSON r) = Ok m /\ buildNode r m = Ok (Some node).

Lemma prepare_plain a sv u : decode_position a "indexed_at" = Ok (sv, u) ->
  prepare registry (page_args n a) coll =
  Ok {| isBackward := false; pageSize := ClampPageSize n; sortField := "indexed_at"; after := a;
        before := ""; labelerSrcs := [];
        query_of := Some (GetByCollectionWithKeysetCursor coll (ClampPageSize n + 1) sv u) |}.
Proof.
  intros Hd. pose proof (num_int_whole n) as Hn.
  assert (arg_int (page_args n a) "first" = Some n) as Hf by exact Hn.
  assert (arg_int (page_args n a) "last" = None) as Hl by done.
  assert (arg_string (page_args n a) "after" = a) as Ha by done.
  assert (arg_string (page_args n a) "before" = "") as Hb by done.
  assert (is_forward (page_args n a) = true) as Hfw by (unfold is_forward, has; by rewrite Hf).
  assert (is_backward (page_args n a) = false) as Hbw by (unfold is_backward, has; by rewrite Hl, Hb).
  assert (orderBy (page_args n a) = "indexed_at") as Ho by done.
  unfold prepare, page_size. rewrite Hfw, Hbw, Ha, Hb, Hf, Ho. cbn [andb]. rewrite Hd. reflexivity.
Qed.

Lemma build_edges_whole labels l : Forall whole l ->
  exists es, build_edges unmarshal buildNode "indexed_at" labels l = Ok es /\
    es.*1 = cursor_of <$> l.
Proof.
  induction 1 as [|r l (_ & _ & m & node & Hu & Hb) _ (es & He & Hc)]; [by exists []|].
  cbn [build_edges]. rewrite Hu, Hb, He. eexists. split; [reflexivity|]. cbn. by rewrite Hc.
Qed.

Lemma decode_cursor_of r : whole r ->
  decode_position (cursor_of r) "indexed_at" = Ok (format_seconds (IndexedAt r), URI r).
Proof.
  intros (_ & Hv & _). unfold decode_position, cursor_of. rewrite cursor_nonempty.
  rewrite cursor_decodes; [done|done| |done]. apply ValidString_ascii, format_seconds_bytes.
Qed.

(** The cursor a client holds after the rows [done]. *)
Definition position (dn : list Record_) : string :=
  match last dn with Some r => cursor_of r | None => "" end.

Definition page_at (after : string) : result conn_error connection :=
  resolveRecordConnection registry unmarshal db false (page_args n after) coll buildNode.

(** One page: the rows after the position, as many as fit. *)
Lemma page_spec dn rest : rows coll = dn ++ rest -> Forall whole (rows coll) ->
  exists c, page_at (position dn) = Ok c /\
    (edges c).*1 = cursor_of <$> take (Z.to_nat (ClampPageSize n)) rest /\
    hasNextPage c = (ClampPageSize n <? Z.of_nat (length rest)) /\
    (hasNextPage c = true ->
       endCursor c = position (dn ++ take (Z.to_nat (ClampPageSize n)) rest)).
Proof.
  intros Hr Hw. pose proof (ClampPageSize_range n) as Hcl. set (k := ClampPageSize n) in *.
  assert (exists sv u, decode_position (position dn) "indexed_at" = Ok (sv, u) /\
    run_query db (GetByCollectionWithKeysetCursor coll (k + 1) sv u)
    = Ok (take (Z.to_nat (k + 1)) rest)) as (sv & u & Hd & Hq).
  { unfold position, GetByCollectionWithKeysetCursor. destruct (last dn) as [r|] eqn:Hl.
    - apply last_Some in Hl as [d' ->]. rewrite <-app_assoc in Hr. cbn in Hr.
      assert (whole r) as Hwr.
      { rewrite Hr in Hw. apply Forall_app in Hw as [_ Hw]. by inversion Hw. }
      exists (format_seconds (IndexedAt r)), (URI r). split; [by apply decode_cursor_of|].
      rewrite format_seconds_nonempty. cbn [andb]. rewrite next_page_law by lia.
      destruct Hwr as [-> _]. by rewrite (rows_after coll d' r rest Hr).
    - apply last_None in Hl as ->. cbn in Hr. exists "", "". split; [done|]. cbn [is_empty andb].
      rewrite first_page_law by lia. by rewrite Hr. }
  unfold page_at, resolveRecordConnection. rewrite (prepare_plain _ _ _ Hd).
  cbn [mbind result_bind query_of pageSize isBackward sortField labelerSrcs before after].
  fold k. rewrite Hq. cbn [mbind result_bind].
  rewrite length_take. 
  assert ((k <? Z.of_nat (Z.to_nat (k + 1) `min` length rest)) = (k <? Z.of_nat (length rest))) as ->
    by (apply eq_true_iff_eq; rewrite !Z.ltb_lt; lia).
  assert ((if k <? Z.of_nat (length rest) then take (Z.to_nat k) (take (Z.to_nat (k + 1)) rest)
           else take (Z.to_nat (k + 1)) rest) = take (Z.to_nat k) rest) as ->.
  { destruct (Z.ltb_spec k (Z.of_nat (length rest))).
    - rewrite take_take. f_equal. lia.
    - rewrite !take_ge by lia. done. }
  assert (Forall whole (take (Z.to_nat k) rest)) as Hwp.
  { apply Forall_take. rewrite Hr in Hw. by apply Forall_app in Hw as [_ Hw]. }
  destruct (build_edges_whole (loadLabelsByURI db [] (take (Z.to_nat k) rest)) _ Hwp)
    as (es & He & Hc).
  rewrite He. eexists. split; [reflexivity|]. cbn [edges hasNextPage endCursor].
  split; [done|]. split; [done|]. intros Hmore%Z.ltb_lt.
  assert (last (es.*1) = last (cursor_of <$> take (Z.to_nat k) rest)) as Hlast by by rewrite Hc.
  rewrite !fmap_last in Hlast. unfold position. rewrite last_app.
  destruct (last (take (Z.to_nat k) rest)) as [r|] eqn:Hl.
  - cbn in Hlast. destruct (last es); cbn in Hlast; congruence.
  - apply last_None in Hl. apply (f_equal length) in Hl. rewrite length_take in Hl. cbn in Hl. lia.
Qed.

Lemma follow_spec fuel : forall dn rest, rows coll = dn ++ rest -> Forall whole (rows coll) ->
  (length rest < fuel)%nat ->
  exists es, follow fuel page_at (position dn) = Some es /\ es.*1 = cursor_of <$> rest.
Proof.
  induction fuel as [|f IH]; intros dn rest Hr Hw Hf; [lia|].
  destruct (page_spec dn rest Hr Hw) as (c & Hp & He & Hn & Hend).
  cbn [follow]. rewrite Hp. pose proof (ClampPageSize_range n) as Hcl.
  destruct (hasNextPage c) eqn:Hnext.
  - rewrite (Hend eq_refl). symmetry in Hn. apply Z.ltb_lt in Hn.
    destruct (IH (dn ++ take (Z.to_nat (ClampPageSize n)) rest)
                 (drop (Z.to_nat (ClampPageSize n)) rest)) as (es & -> & Hes).
    + by rewrite <-app_assoc, take_drop.
    + done.
    + rewrite length_drop. lia.
    + cbn. eexists. split; [done|]. rewrite fmap_app, He, Hes, <-fmap_app, take_drop. done.
  - exists (edges c). split; [done|]. rewrite He. symmetry in Hn. apply Z.ltb_ge in Hn.
    by rewrite take_ge by lia.
Qed.

(** C40: Take a collection whose rows the database keeps in the order of the
    default sort and answers by it ([KeysetLaws]), unchanged while a client asks
    for its pages, from no cursor on, with [first] and the [endCursor] of the page
    before as [after], as long as there is a next page. When every row makes an
    edge (its value parses and a node is built of it), its URI is valid UTF-8 and
    its time is a whole number of seconds ([whole]; a cursor keeps no more of it),
    then no page fails, the client is done after at most one page for each row and
    one more, and the edges it got are those of all rows, newest first, each once.
    Without the first condition it can be stuck: a page of which every row was
    dropped has a next page and no cursor (Example dropped_page). *)
Theorem pagination_complete : Forall whole (rows coll) ->
  exists es, follow (S (length (rows coll))) page_at "" = Some es /\
    es.*1 = cursor_of <$> rows coll.
Proof. intros Hw. apply (follow_spec _ [] (rows coll)); [done|done|lia]. Qed.
End Client.

(** ** Examples *)

Module Example_pages.
(** A codec that marks each byte and the end of each string. *)
Fixpoint put (s rest : string) : string :=
  match s with EmptyString => String "." rest | String c s' => String "-" (String c (put s' rest)) end.
Definition put_all (l : list string) : string := String "[" (foldr put "" l).
Fixpoint get (s : string) : option (list string) :=
  match s with
  | EmptyString => Some []
  | String "." s' => l ← get s'; Some ("" :: l)
  | String "-" (String c s') =>
      l ← get s'; match l with x :: l' => Some (String c x :: l') | [] => None end
  | _ => None
  end.

Lemma get_put s rest l : get rest = Some l -> get (put s rest) = Some (s :: l).
Proof. intros Hr. induction s as [|c s IH]; cbn; [by rewrite Hr|]. by rewrite IH. Qed.
Lemma get_all l : get (foldr put "" l) = Some l.
Proof. induction l as [|s l IH]; [done|]. by apply get_put. Qed.

#[local] Instance codec : CursorCodec.
Proof.
  refine {| base64_encode := fun s => s; base64_decode := Some; marshal_strings := put_all;
            unmarshal_strings := fun s => match s with String "[" s' => get s' | _ => None end |};
    try done. intros l _. apply get_all.
Defined.
#[local] Instance lib : FilterLib :=
  {| sprint_v := fun _ => "?"; json_marshal := fun _ => Ok "{}" |}.
#[local] Instance ranges : MapRange.
Proof. refine {| range := map_to_list |}. reflexivity. Defined.

Section Store.
Variable rows : list Record_.
Variable ts : string -> Z.

Definition rows_of (coll : string) : list Record_ :=
  List.filter (fun r => String.eqb (Collection r) coll) rows.
Definition uri_lt (u v : string) : bool := glen u <? glen v.
Definition limit_of (sql prefix : string) : nat :=
  match ParseInt (trim_prefix sql prefix) with Some n => Z.to_nat n | None => 0%nat end.
Definition prefix_of (sql : Z -> string) : string :=
  take_bytes (String.length (sql 0) - 1) (sql 0).
Definition run (st : statement) : result string (list Record_) :=
  match st.2 with
  | [PText coll] => Ok (take (limit_of st.1 (prefix_of first_page_sql)) (rows_of coll))
  | [PText coll; PText t; PText _; PText u] =>
      Ok (take (limit_of st.1 (prefix_of next_page_sql))
            (List.filter (fun r => (IndexedAt r <? ts t) || ((IndexedAt r =? ts t) && uri_lt (URI r) u))
               (rows_of coll)))
  | _ => Err "unknown statement"
  end.
Definition db : database :=
  {| run_query := run; GetByURIs := fun _ => Ok []; GetCollectionCount := fun _ => Ok 0 |}.

Lemma limit_of_sql sql n : sql n = prefix_of sql +:+ itoa n -> 0 <= n <= MaxPageSize + 1 ->
  limit_of (sql n) (prefix_of sql) = Z.to_nat n.
Proof.
  intros -> Hn. unfold limit_of. rewrite trim_prefix_app, ParseInt_itoa; [done|].
  unfold MaxPageSize in Hn. unfold in_int64, int64_min, int64_max. lia.
Qed.

Lemma laws : (forall coll, StronglySorted (fun a b => ((IndexedAt b <? IndexedAt a) ||
    ((IndexedAt b =? IndexedAt a) && uri_lt (URI b) (URI a))) = true) (rows_of coll)) ->
  KeysetLaws run ts uri_lt rows_of.
Proof.
  intros Hs. split; [intros u; apply Z.ltb_irrefl|unfold uri_lt; intros u v; lia|exact Hs|..].
  - intros coll limit Hl. unfold run. cbn [snd fst]. by rewrite limit_of_sql.
  - intros coll limit t u Hl. unfold run. cbn [snd fst]. by rewrite limit_of_sql.
Qed.
End Store.

(** Two rows of one collection. *)
Definition row (uri : string) (t : Z) : Record_ :=
  {| URI := uri; CID := "c"; DID := "did:plc:a"; Collection := "x.y"; JSON := "{}";
     IndexedAt := t; RKey := "k"; PDS := "" |}.
Definition unmarshal (_ : string) : result string (option obj) := Ok (Some ∅).

(** Reads the seconds of the day 2026-01-19 at 11:18. *)
Definition ts (s : string) : Z :=
  match ParseInt (take_bytes 2 (drop_bytes 17 s)) with
  | Some n => 1768821480000000 + n * 1000000 | None => 0
  end.

Definition read (rows : list Record_) (n : Z) : option (list (string * json)) :=
  follow 4 (page_at NewRegistry (db rows ts) unmarshal generic_node "x.y" n) "".

Definition seconds : list Record_ := [row "at://b" 1768821486000000; row "at://a" 1768821485000000].

(** Rows of the same second: with pages of one, the second row is never read. *)
Definition same_second : list Record_ := [row "at://b" 1768821485900000; row "at://a" 1768821485500000].
Example rows_skipped : (fun es => length es) <$> read same_second 1 = Some 1%nat.
Proof. vm_compute. reflexivity. Qed.
Example rows_read : (fun es => length es) <$> read seconds 1 = Some 2%nat.
Proof. vm_compute. reflexivity. Qed.

Lemma seconds_laws : KeysetLaws (run_query (db seconds ts)) ts uri_lt (rows_of seconds).
Proof.
  apply laws. intros coll. unfold rows_of, seconds. cbn. case_match; repeat constructor.
Qed.

Lemma pagination_complete_witness :
  exists es, follow (S (length (rows_of seconds "x.y")))
               (page_at NewRegistry (db seconds ts) unmarshal generic_node "x.y" 1) "" = Some es /\
    es.*1 = cursor_of <$> rows_of seconds "x.y".
Proof.
  apply (pagination_complete NewRegistry (db seconds ts) ts uri_lt (rows_of seconds)
           (KeysetLaws0 := seconds_laws) unmarshal generic_node "x.y" 1).
  repeat constructor; eauto.
Defined.

(** A request with authors, a search and a sort by a field of the record. *)
Definition request : obj :=
  <["first" := JNum (Num 10 0)]> (<["search" := JStr " rain "]>
    (<["orderBy" := JStr "title"]> (<["orderDirection" := JStr "ASC"]>
    {["authors" := JArr [JStr "did:plc:b"; JStr "did:plc:a"; JStr "did:plc:b"]]}))).
Definition prepared : page_request :=
  match prepare NewRegistry request "x.y" with
  | Ok req => req
  | Err _ => {| isBackward := false; pageSize := 0; sortField := ""; after := ""; before := "";
                labelerSrcs := []; query_of := None |}
  end.
Definition prepared_sql : statement := default ("", []) (query_of prepared).

Example prepared_text : prepared_sql =
  ("SELECT " +:+ recordColumns +:+ " FROM " +:+ recordTable +:+ " WHERE r.collection = $1"
   +:+ " AND r.did IN ($2, $3) AND r.search_vector @@ plainto_tsquery('english', $4)"
   +:+ " ORDER BY r.json->>'title' ASC NULLS LAST, r.uri ASC LIMIT 11",
   [PText "x.y"; PText "did:plc:a"; PText "did:plc:b"; PText "rain"]).
Proof. vm_compute. reflexivity. Qed.

(** Backward pagination without a cursor runs the query of the first page: it
    returns the first rows in reverse, not the last ones. *)
Example last_reads_first :
  query_of <$> prepare NewRegistry {["last" := JNum (Num 5 0)]} "x.y"
  = query_of <$> prepare NewRegistry {["first" := JNum (Num 5 0)]} "x.y".
Proof. vm_compute. reflexivity. Qed.

(** A page of which every row is dropped promises a next page and has no cursor
    to get there. *)
Example dropped_page :
  (fun c => (hasNextPage c, endCursor c)) <$>
    page_at NewRegistry (db seconds ts) unmarshal (fun _ _ => Ok None) "x.y" 1 ""
  = Ok (true, "").
Proof. vm_compute. reflexivity. Qed.

(** The cursor of a list sorted by a field of the record holds the time, which
    the next page's statement compares with that field. *)
Example cursor_of_other_sort :
  match page_at NewRegistry (db seconds ts) unmarshal generic_node "x.y" 1 "" with
  | Ok _ =>
      snd <$> (res ← build_edges unmarshal generic_node "title" ∅ seconds;
               match res with
               | (c, _) :: _ =>
                   match decodeCursorV2 c with Ok (f, v, _) => Ok (f, v) | Err e => Err e end
               | [] => Err CBadCursor end) = Ok "2026-01-19T11:18:06Z"
  | Err _ => False
  end.
Proof. vm_compute. reflexivity. Qed.

(** A search text cut at 500 bytes may end inside a rune. *)
Example search_cut_in_rune :
  let s := "a" +:+ Nat.iter 250 (fun s => EncodeRune 233 +:+ s) "" in
  ValidString s = true /\ ValidString (take_bytes (Z.to_nat MaxSearchLength) s) = false.
Proof. split; vm_compute; reflexivity. Qed.

Lemma request_statement_safe_witness :
  frag prepared_sql.1 (seqZ 1 4) /\ 1 <= 10 <= MaxPageSize.
Proof.
  assert (prepare NewRegistry request "x.y" = Ok prepared) as Hp by (vm_compute; reflexivity).
  destruct (request_statement_safe NewRegistry request "x.y" prepared prepared_sql.1 prepared_sql.2
              registry_inv_new ltac:(by left) Hp ltac:(vm_compute; reflexivity))
    as (Hf & Hs & _).
  split; [exact Hf|exact Hs].
Defined.
End Example_pages.
