(* ===== verification/Depth.v ===== *)
(** [internal/graphql/depth/depth.go]: the selection-depth guard that runs
    before a GraphQL query is executed. The parser is a parameter; the syntax
    tree keeps what the walk looks at. *)
From S2P Require Import Prelude GoStrings.

Local Open Scope Z_scope.

Inductive Selection :=
| Field (sub : option (list Selection))
| InlineFragment (sub : option (list Selection))
| FragmentSpread (name : option string).

Notation SelectionSet := (option (list Selection)).

Inductive Definition_ :=
| FragmentDefinition (name : option string) (set : SelectionSet)
| OperationDefinition (set : SelectionSet)
| OtherDefinition.

Inductive depth_error := ErrTooDeep (depth limit : Z).

Section Walk.
Context (frags : gmap string SelectionSet).

(** One turn of the loop over the selections of a set; [into] is the recursive
    call on the set of a fragment. The code's [seen] set is changed only around
    that call and restored after it, so it is passed down. *)
Fixpoint sel_step (into : gset string -> list Selection -> Z -> Z) (seen : gset string)
    (current depth : Z) (sel : Selection) : Z :=
  let walk sub cur :=
    match sub with None => cur | Some l => foldl (sel_step into seen cur) cur l end in
  let next := current + 1 in
  match sel with
  | Field sub =>
      let d := walk sub next in
      if depth <? d then d else if depth <? next then next else depth
  | InlineFragment sub =>
      let d := walk sub current in if depth <? d then d else depth
  | FragmentSpread None => depth
  | FragmentSpread (Some name) =>
      if bool_decide (name ∈ seen) then depth
      else match frags !! name with
           | None | Some None => depth
           | Some (Some l) =>
               let d := into ({[ name ]} ∪ seen) l current in
               if depth <? d then d else depth
           end
  end.

(** [selectionDepth]; [fuel] bounds the nesting of fragment spreads. *)
Fixpoint selectionDepth (fuel : nat) (set : SelectionSet) (seen : gset string) (current : Z) : Z :=
  match set with
  | None => current
  | Some l =>
      foldl (sel_step (fun seen' l' c =>
               match fuel with O => c | S f => selectionDepth f (Some l') seen' c end)
               seen current) current l
  end.
End Walk.

(** The map of fragment definitions: a later one of the same name wins. *)
Definition collect_fragments (defs : list Definition_) : gmap string SelectionSet :=
  foldl (fun m def => match def with
                      | FragmentDefinition (Some name) set => <[name := set]> m
                      | _ => m
                      end) ∅ defs.

Fixpoint check_definitions (frags : gmap string SelectionSet) (maxDepth : Z)
    (defs : list Definition_) : result depth_error unit :=
  match defs with
  | [] => Ok ()
  | OperationDefinition (Some l) :: rest =>
      let d := selectionDepth frags (size frags) (Some l) ∅ 0 in
      if maxDepth <? d then Err (ErrTooDeep d maxDepth) else check_definitions frags maxDepth rest
  | _ :: rest => check_definitions frags maxDepth rest
  end.

Definition Check_ (parse : string -> option (list Definition_)) (query : string) (maxDepth : Z)
  : result depth_error unit :=
  if (maxDepth <=? 0) || is_empty query then Ok ()
  else match parse query with
       | None => Ok ()
       | Some defs => check_definitions (collect_fragments defs) maxDepth defs
       end.

(** ** What the depth means *)

(** [nests frags seen l n]: following selections from [l], through inline
    fragments and spreads (a fragment is not entered again inside itself), [n]
    fields lie one inside the other. *)
Inductive nests (frags : gmap string SelectionSet) (seen : gset string)
  : list Selection -> nat -> Prop :=
| nests_here l : nests frags seen l 0
| nests_field l sub n : Field sub ∈ l -> nests frags seen (default [] sub) n ->
    nests frags seen l (S n)
| nests_inline l sub n : InlineFragment (Some sub) ∈ l -> nests frags seen sub n ->
    nests frags seen l n
| nests_spread l name sub n : FragmentSpread (Some name) ∈ l -> name ∉ seen ->
    frags !! name = Some (Some sub) -> nests frags ({[ name ]} ∪ seen) sub n ->
    nests frags seen l n.

(** [depth_is d c l]: [d] is [c] plus the longest nesting of [l]. *)
Definition depth_is frags seen (l : list Selection) (c d : Z) : Prop :=
  (exists n, nests frags seen l n /\ d = c + Z.of_nat n) /\
  forall n, nests frags seen l n -> c + Z.of_nat n <= d.

Lemma Selection_nested_ind (P : Selection -> Prop) :
  (forall sub, Forall P (default [] sub) -> P (Field sub)) ->
  (forall sub, Forall P (default [] sub) -> P (InlineFragment sub)) ->
  (forall name, P (FragmentSpread name)) -> forall s, P s.
Proof.
  intros Hf Hi Hs. fix IH 1. intros [[l|]|[l|]|name].
  - apply Hf; cbn. induction l as [|s l IHl]; constructor; [apply IH|exact IHl].
  - apply Hf. constructor.
  - apply Hi; cbn. induction l as [|s l IHl]; constructor; [apply IH|exact IHl].
  - apply Hi. constructor.
  - apply Hs.
Qed.

Lemma nests_mono frags seen l l' n : (forall s, s ∈ l -> s ∈ l') -> nests frags seen l n ->
  nests frags seen l' n.
Proof.
  intros Hsub Hn. destruct Hn; [constructor|eapply nests_field|eapply nests_inline|eapply nests_spread];
    eauto.
Qed.

Lemma nests_cons frags seen s l n : nests frags seen (s :: l) n ->
  nests frags seen [s] n \/ nests frags seen l n.
Proof.
  inversion 1 as [|? ? ? Hin|? ? ? Hin|? ? ? ? Hin]; subst; [left; constructor|..];
    apply elem_of_cons in Hin as [<-|Hin].
  1: left; eapply nests_field; [left|done].
  1: right; by eapply nests_field.
  1: left; eapply nests_inline; [left|done].
  1: right; by eapply nests_inline.
  1: left; eapply nests_spread; [left|done..].
  right; by eapply nests_spread.
Qed.

(** What one turn of the loop does to the depth found so far. *)
Definition step_is frags seen (s : Selection) (c depth d : Z) : Prop :=
  depth <= d /\ (d = depth \/ exists n, nests frags seen [s] n /\ d = c + Z.of_nat n) /\
  forall n, nests frags seen [s] n -> c + Z.of_nat n <= d.

Lemma foldl_steps frags seen (step : Z -> Selection -> Z) c l :
  Forall (fun s => forall depth, c <= depth -> step_is frags seen s c depth (step depth s)) l ->
  forall depth, c <= depth ->
    depth <= foldl step depth l /\
    (foldl step depth l = depth \/
     exists n, nests frags seen l n /\ foldl step depth l = c + Z.of_nat n) /\
    forall n, nests frags seen l n -> c + Z.of_nat n <= foldl step depth l.
Proof.
  induction 1 as [|s l Hs Hl IH]; intros depth Hd; cbn [foldl].
  - split; [lia|]. split; [by left|]. intros n Hn.
    inversion Hn as [|? ? ? Hin|? ? ? Hin|? ? ? ? Hin]; subst; [lia|..];
      by apply elem_of_nil in Hin.
  - destruct (Hs depth Hd) as (Hge & Hor & Hle).
    destruct (IH (step depth s)) as (Hge' & Hor' & Hle'); [lia|].
    split; [lia|]. split.
    + destruct Hor' as [->|(n & Hn & ->)].
      * destruct Hor as [->|(n & Hn & ->)]; [by left|]. right. exists n. split; [|done].
        eapply nests_mono; [|exact Hn]. intros x ->%list_elem_of_singleton. left.
      * right. exists n. split; [|done]. eapply nests_mono; [|exact Hn]. by right.
    + intros n [Hn|Hn]%nests_cons; [|auto]. pose proof (Hle n Hn). lia.
Qed.

Lemma foldl_depth_is frags seen (step : Z -> Selection -> Z) c l :
  Forall (fun s => forall depth, c <= depth -> step_is frags seen s c depth (step depth s)) l ->
  depth_is frags seen l c (foldl step c l).
Proof.
  intros Hl. destruct (foldl_steps _ _ _ _ _ Hl c) as (_ & Hor & Hle); [lia|].
  split; [|done]. destruct Hor as [->|Hn]; [|done]. exists 0%nat. split; [constructor|lia].
Qed.

Section Step.
Context (frags : gmap string SelectionSet) (seen : gset string)
  (into : gset string -> list Selection -> Z -> Z)
  (Hinto : forall name l c, frags !! name = Some (Some l) -> name ∉ seen ->
     depth_is frags ({[ name ]} ∪ seen) l c (into ({[ name ]} ∪ seen) l c)).

Lemma field_is c depth sub d : c <= depth -> depth_is frags seen (default [] sub) (c + 1) d ->
  step_is frags seen (Field sub) c depth
    (if depth <? d then d else if depth <? c + 1 then c + 1 else depth).
Proof using Type.
  intros Hd [(n & Hn & ->) Hle]. 
  assert (c + 1 <= c + 1 + Z.of_nat n) by lia.
  split; [repeat case_match; lia|]. split.
  - destruct (Z.ltb_spec depth (c + 1 + Z.of_nat n)).
    + right. exists (S n). split; [eapply nests_field; [left|done]|lia].
    + destruct (Z.ltb_spec depth (c + 1)); [lia|by left].
  - intros m Hm. inversion Hm as [|? ? k Hin Hk|? ? ? Hin|? ? ? ? Hin]; subst;
      [repeat case_match; lia|apply list_elem_of_singleton in Hin..]; simplify_eq.
    specialize (Hle k Hk). repeat case_match; lia.
Qed.

Lemma inline_is c depth sub d : c <= depth -> depth_is frags seen (default [] sub) c d ->
  step_is frags seen (InlineFragment sub) c depth (if depth <? d then d else depth).
Proof using Type.
  intros Hd [(n & Hn & ->) Hle]. split; [case_match; lia|]. split.
  - destruct (Z.ltb_spec depth (c + Z.of_nat n)); [|by left]. right. exists n. split; [|done].
    destruct sub; [|cbn in Hn; inversion Hn as [|? ? ? Hin|? ? ? Hin|? ? ? ? Hin];
                    [constructor|by apply elem_of_nil in Hin..]].
    eapply nests_inline; [left|done].
  - intros m Hm. inversion Hm as [|? ? k Hin Hk|? ? ? Hin Hk|? ? ? ? Hin]; subst;
      [case_match; lia|apply list_elem_of_singleton in Hin..]; simplify_eq.
    specialize (Hle m Hk). case_match; lia.
Qed.

Lemma sel_step_is s : forall c depth, c <= depth ->
  step_is frags seen s c depth (sel_step frags into seen c depth s).
Proof using Hinto.
  assert (forall c, depth_is frags seen [] c c) as Hnil.
  { intros c. split; [exists 0%nat; split; [constructor|lia]|]. intros n Hn.
    inversion Hn as [|? ? ? Hin|? ? ? Hin|? ? ? ? Hin]; [lia|by apply elem_of_nil in Hin..]. }
  induction s as [sub IH|sub IH|[name|]] using Selection_nested_ind; intros c depth Hd; cbn [sel_step].
  - apply field_is; [done|]. destruct sub as [l|]; cbn in IH |- *; [|apply Hnil].
    apply foldl_depth_is. eapply Forall_impl; [exact IH|]. auto.
  - apply inline_is; [done|]. destruct sub as [l|]; cbn in IH |- *; [|apply Hnil].
    apply foldl_depth_is. eapply Forall_impl; [exact IH|]. auto.
  - case_bool_decide as Hs; [|destruct (frags !! name) as [[l|]|] eqn:Hf].
    1,3,4: split; [lia|]; split; [by left|]; intros m Hm;
      inversion Hm as [|? ? ? Hin|? ? ? Hin|? ? ? ? Hin]; subst;
      [lia|apply list_elem_of_singleton in Hin; by simplify_eq..].
    destruct (Hinto name l c Hf Hs) as [(n & Hn & ->) Hle].
    split; [case_match; lia|]. split.
    + destruct (Z.ltb_spec depth (c + Z.of_nat n)); [|by left]. right. exists n. split; [|done].
      eapply nests_spread; [left|done..].
    + intros m Hm. inversion Hm as [|? ? k Hin Hk|? ? ? Hin Hk|? ? ? ? Hin ? Hf' Hk]; subst;
        [case_match; lia|apply list_elem_of_singleton in Hin; simplify_eq..].
      specialize (Hle m Hk). case_match; lia.
  - split; [lia|]. split; [by left|]. intros m Hm.
    inversion Hm as [|? ? ? Hin|? ? ? Hin|? ? ? ? Hin]; subst;
      [lia|apply list_elem_of_singleton in Hin; simplify_eq..].
Qed.
End Step.

Lemma selectionDepth_is frags fuel : forall seen l c,
  (size (dom frags ∖ seen) <= fuel)%nat ->
  depth_is frags seen l c (selectionDepth frags fuel (Some l) seen c).
Proof.
  induction fuel as [|fuel IH]; intros seen l c Hf; cbn [selectionDepth];
    apply foldl_depth_is, Forall_forall; intros s _ depth Hd; apply sel_step_is; try done.
  - intros name l' c' Hn Hs. apply elem_of_dom_2 in Hn.
    assert (dom frags ∖ seen = ∅) as He by (apply leibniz_equiv, size_empty_inv; lia).
    set_solver.
  - intros name l' c' Hn Hs. apply IH. apply elem_of_dom_2 in Hn.
    assert (dom frags ∖ ({[name]} ∪ seen) ⊂ dom frags ∖ seen) as Hlt%subset_size by set_solver.
    lia.
Qed.

Lemma size_dom_frags (frags : gmap string SelectionSet) : size (dom frags ∖ ∅) = size frags.
Proof. by rewrite difference_empty_L, size_dom. Qed.

(** The depth the guard computes for a selection set is the greatest number
    of fields nested one inside the other, with inline fragments and fragment
    spreads followed; the walk ends on every document, cyclic fragments
    included, and giving it more fuel changes nothing. *)
Theorem selectionDepth_longest frags l c extra :
  depth_is frags ∅ l c (selectionDepth frags (size frags) (Some l) ∅ c) /\
  selectionDepth frags (size frags + extra) (Some l) ∅ c
  = selectionDepth frags (size frags) (Some l) ∅ c.
Proof.
  destruct (selectionDepth_is frags (size frags) ∅ l c) as [(n & Hn & En) Hle];
    [by rewrite size_dom_frags|].
  destruct (selectionDepth_is frags (size frags + extra) ∅ l c) as [(m & Hm & Em) Hle'];
    [rewrite size_dom_frags; lia|].
  split; [split; [by exists n|done]|]. apply Hle' in Hn. apply Hle in Hm. lia.
Qed.

(** ** The guard *)

Lemma check_definitions_Ok frags maxDepth defs : check_definitions frags maxDepth defs = Ok () <->
  forall l n, OperationDefinition (Some l) ∈ defs -> nests frags ∅ l n -> Z.of_nat n <= maxDepth.
Proof.
  induction defs as [|d defs IH]; cbn [check_definitions].
  - split; [|done]. intros _ l n ?%elem_of_nil. done.
  - assert ((exists l, d = OperationDefinition (Some l)) \/ forall l, d <> OperationDefinition (Some l))
      as [[l ->]|Hd] by (destruct d as [?|[?|]|]; eauto; right; naive_solver).
    + destruct (selectionDepth_is frags (size frags) ∅ l 0) as [(n & Hn & En) Hle];
        [by rewrite size_dom_frags|].
      destruct (Z.ltb_spec maxDepth (selectionDepth frags (size frags) (Some l) ∅ 0)).
      * split; [done|]. intros Hall. specialize (Hall l n ltac:(left) Hn). lia.
      * rewrite IH. split.
        -- intros Hall l' m [[= ->]|Hin]%elem_of_cons Hm; [apply Hle in Hm; lia|by eapply Hall].
        -- intros Hall l' m Hin. apply Hall. by right.
    + transitivity (check_definitions frags maxDepth defs = Ok ());
        [by destruct d as [?|[l|]|]; [..|exfalso; by apply (Hd l)| |]|].
      rewrite IH. split.
      * intros Hall l m [<-|Hin]%elem_of_cons; [exfalso; by apply (Hd l)|by apply Hall].
      * intros Hall l m Hin. apply Hall. by right.
Qed.

(** With a positive limit, a query that parses is let through exactly when
    no operation of it nests more fields than the limit, through whatever
    fragments. *)
Theorem Check_spec parse query maxDepth defs :
  0 < maxDepth -> query <> "" -> parse query = Some defs ->
  Check_ parse query maxDepth = Ok () <->
  forall l n, OperationDefinition (Some l) ∈ defs ->
    nests (collect_fragments defs) ∅ l n -> Z.of_nat n <= maxDepth.
Proof.
  intros Hm Hq Hp. unfold Check_. destruct (Z.leb_spec maxDepth 0); [lia|].
  destruct query; [done|]. cbn [is_empty orb]. rewrite Hp. apply check_definitions_Ok.
Qed.

(** A query whose depth hides in a fragment: [{ ...F } fragment F { a { b } }]. *)
Definition hidden : list Definition_ :=
  [OperationDefinition (Some [FragmentSpread (Some "F")]);
   FragmentDefinition (Some "F") (Some [Field (Some [Field None; FragmentSpread (Some "F")])])].

Example hidden_rejected : Check_ (fun _ => Some hidden) "q" 1 = Err (ErrTooDeep 2 1).
Proof. by vm_compute. Qed.

Lemma Check_spec_witness :
  Check_ (fun _ => Some hidden) "q" 2 = Ok () <->
  forall l n, OperationDefinition (Some l) ∈ hidden ->
    nests (collect_fragments hidden) ∅ l n -> Z.of_nat n <= 2.
Proof. apply Check_spec; [lia|done|done]. Defined.
