(* ===== verification/PubSub.v ===== *)
(** [internal/graphql/subscription/pubsub.go]: the broker of GraphQL
    subscriptions. A channel is a bounded queue in the state, named by the ID of
    its subscriber, so that the broker and the client that reads it share it; it
    stays after the subscription is gone, for its reader to drain. *)
From S2P Require Import Prelude GoStrings Json.

Local Open Scope Z_scope.

Inductive EventType := EventCreate | EventUpdate | EventDelete.

Definition SubscriberBufferSize : Z := 100.

Record RecordEvent := {
  Type_ : EventType; URI : string; CID : string; DID : string;
  Collection : string; Record_ : option obj
}.

(** A Go channel: its buffer, oldest first, and whether it is closed. *)
Record channel := { queue : list RecordEvent; closed : bool }.

Record PubSub := {
  subscribers : gmap string string;     (* ID to collection, empty for all *)
  channels : gmap string channel;
  nextID : Z
}.

(** A send on a closed channel and a second close both panic. *)
Inductive panic := SendOnClosed (id : string) | CloseOfClosed (id : string).

Definition NewPubSub : PubSub := {| subscribers := ∅; channels := ∅; nextID := 0 |}.

Definition Subscribe (ps : PubSub) (collection : string) : PubSub * string :=
  let n := wrap64 (nextID ps + 1) in
  let id := itoa n in
  ({| subscribers := <[id := collection]> (subscribers ps);
      channels := <[id := {| queue := []; closed := false |}]> (channels ps);
      nextID := n |}, id).

Definition with_channels (ps : PubSub) (c : gmap string channel) : PubSub :=
  {| subscribers := subscribers ps; channels := c; nextID := nextID ps |}.

Definition close_channel (id : string) (ch : channel) : result panic channel :=
  if closed ch then Err (CloseOfClosed id) else Ok {| queue := queue ch; closed := true |}.

Definition Unsubscribe (ps : PubSub) (id : string) : result panic PubSub :=
  match subscribers ps !! id, channels ps !! id with
  | Some _, Some ch =>
      ch' ← close_channel id ch;
      Ok {| subscribers := delete id (subscribers ps);
            channels := <[id := ch']> (channels ps); nextID := nextID ps |}
  | _, _ => Ok ps
  end.

Definition wants (collection : string) (event : RecordEvent) : bool :=
  is_empty collection || String.eqb collection (Collection event).

(** The non-blocking send. *)
Definition send (id : string) (ch : channel) (event : RecordEvent) : result panic channel :=
  if closed ch then Err (SendOnClosed id)
  else if Z.of_nat (length (queue ch)) <? SubscriberBufferSize
  then Ok {| queue := queue ch ++ [event]; closed := false |}
  else Ok ch.

(** One turn of the loop over the subscribers. *)
Definition publish_to (event : RecordEvent) (chans : gmap string channel) (sub : string * string)
  : result panic (gmap string channel) :=
  if wants sub.2 event then
    match chans !! sub.1 with
    | Some ch => ch' ← send sub.1 ch event; Ok (<[sub.1 := ch']> chans)
    | None => Ok chans
    end
  else Ok chans.

Fixpoint publish_all (event : RecordEvent) (chans : gmap string channel)
    (subs : list (string * string)) : result panic (gmap string channel) :=
  match subs with
  | [] => Ok chans
  | sub :: rest => chans' ← publish_to event chans sub; publish_all event chans' rest
  end.

(** [Publish], with the order in which the map of subscribers is visited. *)
Definition Publish_in (subs : list (string * string)) (ps : PubSub) (event : RecordEvent)
  : result panic PubSub :=
  with_channels ps <$> publish_all event (channels ps) subs.

Definition Publish (ps : PubSub) (event : RecordEvent) : result panic PubSub :=
  Publish_in (map_to_list (subscribers ps)) ps event.

Definition SubscriberCount (ps : PubSub) : Z := Z.of_nat (size (subscribers ps)).

(** [unmarshal] gives what json.Unmarshal leaves in the variable [record]. *)
Definition PublishRecord (unmarshal : string -> option obj) (ps : PubSub) (eventType : EventType)
    (uri cid did collection recordJSON : string) : result panic PubSub :=
  if SubscriberCount ps =? 0 then Ok ps
  else
    let is_delete := match eventType with EventDelete => true | _ => false end in
    let record := if negb (is_empty recordJSON) && negb is_delete then unmarshal recordJSON else None in
    let record := (fun m : obj => <["cid" := JStr cid]> (<["uri" := JStr uri]> m)) <$> record in
    Publish ps {| Type_ := eventType; URI := uri; CID := cid; DID := did;
                  Collection := collection; Record_ := record |}.

(** A client reads its channel: the oldest event, when there is one. *)
Definition receive (ps : PubSub) (id : string) : option (RecordEvent * PubSub) :=
  match channels ps !! id with
  | Some {| queue := e :: q; closed := c |} =>
      Some (e, with_channels ps (<[id := {| queue := q; closed := c |}]> (channels ps)))
  | _ => None
  end.

(** ** The operations as a state machine *)

Inductive action :=
| ASubscribe (collection : string)
| AUnsubscribe (id : string)
| APublish (event : RecordEvent)
| AReceive (id : string) (event : RecordEvent).

Inductive step : PubSub -> action -> PubSub -> Prop :=
| step_subscribe ps c : nextID ps < int64_max ->
    step ps (ASubscribe c) (Subscribe ps c).1
| step_unsubscribe ps id ps' : Unsubscribe ps id = Ok ps' -> step ps (AUnsubscribe id) ps'
| step_publish ps subs e ps' : subs ≡ₚ map_to_list (subscribers ps) ->
    Publish_in subs ps e = Ok ps' -> step ps (APublish e) ps'
| step_receive ps id e ps' : receive ps id = Some (e, ps') -> step ps (AReceive id e) ps'.

Inductive run : list action -> PubSub -> Prop :=
| run_nil : run [] NewPubSub
| run_snoc acts ps a ps' : run acts ps -> step ps a ps' -> run (acts ++ [a]) ps'.

(** *** Publishing, channel by channel *)

Definition accept (ch : channel) (event : RecordEvent) : channel :=
  if Z.of_nat (length (queue ch)) <? SubscriberBufferSize
  then {| queue := queue ch ++ [event]; closed := closed ch |} else ch.

Lemma publish_all_spec event subs : forall chans, NoDup subs.*1 ->
  (forall id c, (id, c) ∈ subs -> exists ch, chans !! id = Some ch /\ closed ch = false) ->
  exists chans', publish_all event chans subs = Ok chans' /\
    forall id, chans' !! id =
      match chans !! id with
      | Some ch => Some (if existsb (fun s => String.eqb s.1 id && wants s.2 event) subs
                         then accept ch event else ch)
      | None => None
      end.
Proof.
  induction subs as [|[id c] subs IH]; intros chans Hnd Hopen.
  - exists chans. split; [done|]. intros id. by destruct (chans !! id).
  - cbn in Hnd. apply NoDup_cons in Hnd as [Hni Hnd]. cbn [publish_all].
    destruct (Hopen id c ltac:(left)) as (ch & Hch & Hcl).
    assert (exists chans1, publish_to event chans (id, c) = Ok chans1 /\
      (forall j, chans1 !! j = if String.eqb id j && wants c event then Some (accept ch event)
                               else chans !! j) ) as (chans1 & -> & H1).
    { unfold publish_to; cbn [fst snd]. destruct (wants c event).
      - rewrite Hch. unfold send, accept. rewrite Hcl.
        destruct (_ <? _) eqn:E; cbn; eexists; (split; [done|]); intros j; rewrite andb_true_r;
          destruct (String.eqb_spec id j) as [->|Hne];
          by rewrite ?lookup_insert_eq, ?lookup_insert_ne, ?E by done.
      - exists chans. split; [done|]. intros j. by rewrite andb_false_r. }
    cbn [mbind result_bind].
    destruct (IH chans1 Hnd) as (chans2 & -> & H2).
    { intros j d Hin. rewrite H1. destruct (String.eqb_spec id j) as [->|Hne].
      - exfalso. apply Hni. apply list_elem_of_fmap. by exists (j, d).
      - cbn. apply (Hopen j d). by right. }
    exists chans2. split; [done|]. intros j. rewrite H2, H1. cbn [existsb fst snd].
    destruct (String.eqb_spec id j) as [->|Hne]; cbn [andb orb]; [|done].
    assert (existsb (fun s => String.eqb s.1 j && wants s.2 event) subs = false) as ->.
    { apply not_true_iff_false. intros ([k d] & Hin & Hk)%existsb_elem_of. cbn in Hk.
      split_bools. apply String.eqb_eq in H; subst k. apply Hni, list_elem_of_fmap. by exists (j, d). }
    rewrite orb_false_r, Hch. by destruct (wants c event).
Qed.

(** Every subscriber has an open channel with at most 100 events that it wants;
    IDs handed out are the decimal numbers up to [nextID]. *)
Record inv (ps : PubSub) : Prop := {
  inv_open : forall id c, subscribers ps !! id = Some c ->
    exists ch, channels ps !! id = Some ch /\ closed ch = false /\
      (forall e, e ∈ queue ch -> wants c e = true);
  inv_closed : forall id ch, channels ps !! id = Some ch -> closed ch = negb (bool_decide (is_Some (subscribers ps !! id)));
  inv_bound : forall id ch, channels ps !! id = Some ch ->
    Z.of_nat (length (queue ch)) <= SubscriberBufferSize;
  inv_ids : forall id, is_Some (channels ps !! id) -> exists n, id = itoa n /\ 1 <= n <= nextID ps;
  inv_next : 0 <= nextID ps <= int64_max
}.

Lemma inv_new : inv NewPubSub.
Proof. split; cbn; try (intros ? ? []%lookup_empty_Some); [intros ? [? []%lookup_empty_Some]|unfold int64_max; lia]. Qed.

Lemma itoa_inj n m : itoa n = itoa m -> n = m.
Proof. apply (inj pretty). Qed.

Lemma Subscribe_fresh ps : inv ps -> nextID ps < int64_max ->
  wrap64 (nextID ps + 1) = nextID ps + 1 /\ channels ps !! itoa (nextID ps + 1) = None /\
  subscribers ps !! itoa (nextID ps + 1) = None.
Proof.
  intros Hi Hn. pose proof (inv_next _ Hi).
  assert (channels ps !! itoa (nextID ps + 1) = None) as Hc.
  { apply eq_None_not_Some. intros (n & Heq%itoa_inj & ?)%(inv_ids _ Hi). lia. }
  split_and!; [apply wrap64_id; unfold in_int64, int64_min, int64_max in *; lia|done|].
  destruct (subscribers ps !! _) eqn:E; [|done].
  destruct (inv_open _ Hi _ _ E) as (ch & Hch & _). congruence.
Qed.

(** What publishing does, whatever the order of the subscribers: it never
    panics, and an open channel whose subscriber wants the event gets it once at
    the end unless it is full. *)
Lemma Publish_in_spec ps subs e : inv ps -> subs ≡ₚ map_to_list (subscribers ps) ->
  exists chans, Publish_in subs ps e = Ok (with_channels ps chans) /\
    forall id, chans !! id =
      match channels ps !! id with
      | Some ch => Some match subscribers ps !! id with
                        | Some c => if wants c e then accept ch e else ch
                        | None => ch
                        end
      | None => None
      end.
Proof.
  intros Hi Hp. unfold Publish_in.
  assert (NoDup subs.*1) as Hnd by (rewrite Hp; apply NoDup_fst_map_to_list).
  assert (forall id c, (id, c) ∈ subs <-> subscribers ps !! id = Some c) as Hin
    by (intros; by rewrite Hp, elem_of_map_to_list).
  destruct (publish_all_spec e subs (channels ps) Hnd) as (chans & -> & Hc).
  { intros id c H%Hin. destruct (inv_open _ Hi _ _ H) as (ch & ? & ? & _). by exists ch. }
  exists chans. split; [done|]. intros id. rewrite Hc.
  destruct (channels ps !! id) as [ch|]; [|done]. f_equal.
  destruct (existsb _ subs) eqn:E.
  - apply existsb_elem_of in E as ([j c] & Hj & Hb). cbn in Hb. split_bools.
    apply String.eqb_eq in H; subst j. apply Hin in Hj. by rewrite Hj, H0.
  - destruct (subscribers ps !! id) as [c|] eqn:Hs; [|done].
    destruct (wants c e) eqn:Hw; [|done].
    assert (existsb (fun s => String.eqb s.1 id && wants s.2 e) subs = true); [|congruence].
    apply existsb_elem_of. exists (id, c). split; [by apply Hin|]. cbn. by rewrite String.eqb_refl.
Qed.

Lemma Unsubscribe_spec ps id : inv ps ->
  (subscribers ps !! id = None /\ Unsubscribe ps id = Ok ps) \/
  exists c ch, subscribers ps !! id = Some c /\ channels ps !! id = Some ch /\
    Unsubscribe ps id = Ok {| subscribers := delete id (subscribers ps);
      channels := <[id := {| queue := queue ch; closed := true |}]> (channels ps);
      nextID := nextID ps |}.
Proof.
  intros Hi. unfold Unsubscribe. destruct (subscribers ps !! id) as [c|] eqn:Hs; [|by left].
  right. destruct (inv_open _ Hi _ _ Hs) as (ch & Hch & Hcl & _). rewrite Hch.
  exists c, ch. unfold close_channel. by rewrite Hcl.
Qed.

Lemma accept_bound ch e : Z.of_nat (length (queue ch)) <= SubscriberBufferSize ->
  Z.of_nat (length (queue (accept ch e))) <= SubscriberBufferSize.
Proof.
  unfold accept. destruct (Z.ltb_spec (Z.of_nat (length (queue ch))) SubscriberBufferSize); [|done].
  cbn [queue]. rewrite length_app. cbn [length]. lia.
Qed.

Lemma accept_elem ch e x : x ∈ queue (accept ch e) -> x ∈ queue ch \/ x = e.
Proof. unfold accept. case_match; cbn; set_solver. Qed.

Lemma accept_closed ch e : closed (accept ch e) = closed ch.
Proof. unfold accept. by case_match. Qed.

Lemma inv_subscribe ps c : inv ps -> nextID ps < int64_max -> inv (Subscribe ps c).1.
Proof.
  intros Hi Hn. destruct (Subscribe_fresh ps Hi Hn) as (Hw & Hc & Hs).
  pose proof (inv_next _ Hi). unfold Subscribe. rewrite Hw.
  split; cbn [subscribers channels nextID fst].
  - intros id d [[<- <-]|[Hne H']]%lookup_insert_Some.
    + rewrite lookup_insert_eq. eexists. split_and!; [done..|]. by intros e ?%elem_of_nil.
    + rewrite lookup_insert_ne by done. by apply (inv_open _ Hi).
  - intros id ch [[<- <-]|[Hne H']]%lookup_insert_Some.
    + rewrite lookup_insert_eq. by rewrite bool_decide_true.
    + rewrite lookup_insert_ne by done. by apply (inv_closed _ Hi).
  - intros id ch [[<- <-]|[Hne H']]%lookup_insert_Some; [done|]. by apply (inv_bound _ Hi _ _ H').
  - intros id [ch [[<- <-]|[Hne H']]%lookup_insert_Some]; [exists (nextID ps + 1); split; [done|lia]|].
    destruct (inv_ids _ Hi id) as (n & -> & ?); [by eexists|]. exists n. split; [done|lia].
  - lia.
Qed.

Lemma inv_unsubscribe ps id ps' : inv ps -> Unsubscribe ps id = Ok ps' -> inv ps'.
Proof.
  intros Hi. destruct (Unsubscribe_spec ps id Hi) as [[_ ->]|(c & ch & Hs & Hch & ->)];
    intros [= <-]; [done|].
  split; cbn [subscribers channels nextID].
  - intros j d [Hne H']%lookup_delete_Some. rewrite lookup_insert_ne by done. by apply (inv_open _ Hi).
  - intros j k [[<- <-]|[Hne H']]%lookup_insert_Some.
    + rewrite lookup_delete_eq. by rewrite bool_decide_false by (intros [? ?]; done).
    + rewrite lookup_delete_ne by done. by apply (inv_closed _ Hi).
  - intros j k [[<- <-]|[Hne H']]%lookup_insert_Some; [|by apply (inv_bound _ Hi _ _ H')].
    by apply (inv_bound _ Hi _ _ Hch).
  - intros j [k [[<- <-]|[Hne H']]%lookup_insert_Some]; apply (inv_ids _ Hi); by eexists.
  - apply Hi.
Qed.

Lemma inv_channels ps chans : inv ps -> 
  (forall id, chans !! id = channels ps !! id \/
     exists ch ch', channels ps !! id = Some ch /\ chans !! id = Some ch' /\ closed ch' = closed ch /\
       Z.of_nat (length (queue ch')) <= SubscriberBufferSize /\
       forall e c, subscribers ps !! id = Some c -> e ∈ queue ch' -> e ∈ queue ch \/ wants c e = true) ->
  inv (with_channels ps chans).
Proof.
  intros Hi Hc. split; cbn [subscribers channels nextID with_channels].
  - intros id c Hs. destruct (inv_open _ Hi _ _ Hs) as (ch & Hch & Hcl & Hw).
    destruct (Hc id) as [->|(ch1 & ch' & H1 & -> & Hcl' & _ & He)]; [by exists ch|].
    rewrite Hch in H1; injection H1 as <-. exists ch'. split_and!; [done|congruence|].
    intros e Hin. destruct (He e c Hs Hin); auto.
  - intros id k Hk. destruct (Hc id) as [E|(ch1 & ch' & H1 & E & Hcl' & _)]; rewrite E in Hk.
    + by apply (inv_closed _ Hi).
    + injection Hk as <-. rewrite Hcl'. by apply (inv_closed _ Hi).
  - intros id k Hk. destruct (Hc id) as [E|(ch1 & ch' & H1 & E & _ & Hb & _)]; rewrite E in Hk.
    + by apply (inv_bound _ Hi _ _ Hk).
    + by injection Hk as <-.
  - intros id [k Hk]. apply (inv_ids _ Hi).
    destruct (Hc id) as [E|(ch1 & ch' & H1 & E & _)]; rewrite E in Hk; eauto.
  - apply Hi.
Qed.

Lemma inv_publish ps subs e ps' : inv ps -> subs ≡ₚ map_to_list (subscribers ps) ->
  Publish_in subs ps e = Ok ps' -> inv ps'.
Proof.
  intros Hi Hp. destruct (Publish_in_spec ps subs e Hi Hp) as (chans & -> & Hc). intros [= <-].
  apply inv_channels; [done|]. intros id. specialize (Hc id).
  destruct (channels ps !! id) as [ch|] eqn:Hch; [|by left]. right.
  exists ch. eexists. split; [done|]. split; [exact Hc|].
  pose proof (inv_bound _ Hi _ _ Hch).
  destruct (subscribers ps !! id) as [c|]; [|split_and!; auto].
  destruct (wants c e) eqn:Hw; [|split_and!; auto].
  split; [apply accept_closed|]. split; [by apply accept_bound|].
  intros x d [= <-] [?| ->]%accept_elem; auto.
Qed.

Lemma inv_receive ps id e ps' : inv ps -> receive ps id = Some (e, ps') -> inv ps'.
Proof.
  intros Hi. unfold receive. destruct (channels ps !! id) as [[[|x q] cl]|] eqn:Hch; try done.
  intros [= <- <-]. apply inv_channels; [done|]. intros j.
  destruct (decide (id = j)) as [<-|Hne]; [|left; by rewrite lookup_insert_ne]. right.
  rewrite lookup_insert_eq. do 2 eexists. split; [exact Hch|]. split; [done|]. split; [done|].
  pose proof (inv_bound _ Hi _ _ Hch). cbn in *. split; [lia|]. intros y c _ Hy. left. by right.
Qed.

Lemma inv_step ps a ps' : inv ps -> step ps a ps' -> inv ps'.
Proof.
  intros Hi Hs. destruct Hs; eauto using inv_subscribe, inv_unsubscribe, inv_publish, inv_receive.
Qed.

Lemma inv_run acts ps : run acts ps -> inv ps.
Proof. induction 1; eauto using inv_new, inv_step. Qed.

(** ** What a subscriber gets *)

(** The events offered to the subscription [id]: those its collection wants,
    published between its Subscribe and its Unsubscribe. *)
Record track := { count : Z; active : option string; offers : list RecordEvent }.

Definition track_step (id : string) (t : track) (a : action) : track :=
  match a with
  | ASubscribe c => {| count := count t + 1;
                       active := if String.eqb (itoa (count t + 1)) id then Some c else active t;
                       offers := offers t |}
  | AUnsubscribe i => {| count := count t; active := if String.eqb i id then None else active t;
                         offers := offers t |}
  | APublish e => {| count := count t; active := active t;
                     offers := match active t with
                               | Some c => if wants c e then offers t ++ [e] else offers t
                               | None => offers t
                               end |}
  | AReceive _ _ => t
  end.

Definition tracked (id : string) (acts : list action) : track :=
  foldl (track_step id) {| count := 0; active := None; offers := [] |} acts.
Definition offered (id : string) (acts : list action) : list RecordEvent := offers (tracked id acts).

Definition received (id : string) (acts : list action) : list RecordEvent :=
  omap (fun a => match a with AReceive i e => if String.eqb i id then Some e else None | _ => None end) acts.

(** Delivered so far and still to come, against what was offered. *)
Definition delivered (got offer : list RecordEvent) : Prop :=
  got `sublist_of` offer /\ (got = offer \/ SubscriberBufferSize < Z.of_nat (length offer)).

Definition history (id : string) (acts : list action) (ps : PubSub) : Prop :=
  count (tracked id acts) = nextID ps /\ active (tracked id acts) = subscribers ps !! id /\
  match channels ps !! id with
  | Some ch => delivered (received id acts ++ queue ch) (offered id acts)
  | None => received id acts = [] /\ offered id acts = []
  end.

Lemma tracked_snoc id acts a : tracked id (acts ++ [a]) = track_step id (tracked id acts) a.
Proof. unfold tracked. by rewrite foldl_snoc. Qed.

Lemma received_snoc id acts a : received id (acts ++ [a]) =
  received id acts ++ match a with
                      | AReceive i e => if String.eqb i id then [e] else []
                      | _ => []
                      end.
Proof.
  unfold received. rewrite omap_app. f_equal. destruct a; cbn; try done. by destruct (String.eqb _ _).
Qed.

Lemma delivered_offer got offer ch e : delivered (got ++ queue ch) offer ->
  Z.of_nat (length (queue ch)) <= SubscriberBufferSize ->
  delivered (got ++ queue (accept ch e)) (offer ++ [e]).
Proof.
  intros [Hs Hor] Hb. pose proof (sublist_length _ _ Hs) as Hl. rewrite length_app in Hl.
  unfold accept. destruct (Z.ltb_spec (Z.of_nat (length (queue ch))) SubscriberBufferSize); cbn [queue].
  - split; [rewrite app_assoc; by apply sublist_app|]. rewrite length_app. cbn [length].
    destruct Hor as [<-|?]; [left; by rewrite app_assoc|right; lia].
  - split; [by apply sublist_inserts_r|]. right. rewrite length_app. cbn [length]. lia.
Qed.

Lemma history_step id acts ps a ps' : inv ps -> history id acts ps -> step ps a ps' ->
  history id (acts ++ [a]) ps'.
Proof.
  intros Hi (Hn & Ha & Hd) Hs. unfold history, offered in *.
  rewrite tracked_snoc, received_snoc. destruct Hs as [ps c Hmax|ps i ps' Hu|ps subs e ps' Hp Hpub|ps i e ps' Hr];
    cbn [track_step count active offers]; rewrite ?app_nil_r.
  - destruct (Subscribe_fresh ps Hi Hmax) as (Hw & Hc & Hsub). unfold Subscribe. rewrite Hw, Hn.
    cbn [fst subscribers channels nextID]. split; [done|].
    destruct (String.eqb_spec (itoa (nextID ps + 1)) id) as [<-|Hne].
    + rewrite !lookup_insert_eq. split; [done|]. rewrite Hc in Hd. destruct Hd as [-> ->].
      split; [done|by left].
    + by rewrite !lookup_insert_ne by done.
  - destruct (Unsubscribe_spec ps i Hi) as [[Hno E]|(c & ch & Hsub & Hch & E)]; rewrite E in Hu;
      injection Hu as <-; cbn [subscribers channels nextID].
    + split; [done|]. split; [|done]. destruct (String.eqb_spec i id) as [<-|]; [by rewrite Hno|done].
    + split; [done|]. destruct (String.eqb_spec i id) as [<-|Hne].
      * rewrite lookup_delete_eq, lookup_insert_eq. rewrite Hch in Hd. by split.
      * by rewrite lookup_delete_ne, lookup_insert_ne by done.
  - destruct (Publish_in_spec ps subs e Hi Hp) as (chans & E & Hc). rewrite E in Hpub.
    injection Hpub as <-. cbn [subscribers channels nextID with_channels]. split; [done|].
    split; [done|]. rewrite Hc, Ha. destruct (channels ps !! id) as [ch|] eqn:Hch.
    + destruct (subscribers ps !! id) as [c|]; [|done]. destruct (wants c e); [|done].
      apply delivered_offer; [done|by apply (inv_bound _ Hi id)].
    + destruct (subscribers ps !! id) as [c|] eqn:Hsub; [|done].
      destruct (inv_open _ Hi _ _ Hsub) as (ch & ? & _). congruence.
  - unfold receive in Hr. destruct (channels ps !! i) as [[[|x q] cl]|] eqn:Hch; try done.
    injection Hr as -> <-. cbn [subscribers channels nextID with_channels]. split; [done|].
    split; [done|]. destruct (String.eqb_spec i id) as [<-|Hne].
    + rewrite lookup_insert_eq. rewrite Hch in Hd. cbn [queue] in *. by rewrite <-app_assoc.
    + rewrite lookup_insert_ne by done. by rewrite app_nil_r.
Qed.

Lemma history_run id acts ps : run acts ps -> history id acts ps.
Proof.
  induction 1 as [|acts ps a ps' Hr IH Hs]; [by split|]. eapply history_step; eauto using inv_run.
Qed.

(** In every run of subscribing, unsubscribing, publishing and reading, what
    a subscriber has read followed by what waits in its buffer is, in order, a
    sub-sequence of the events published to it while it was subscribed, each at
    most once; as long as no more than 100 of them were published, it is all of
    them. *)
Theorem subscriber_history acts ps id ch : run acts ps -> channels ps !! id = Some ch ->
  (received id acts ++ queue ch) `sublist_of` offered id acts /\
  (Z.of_nat (length (offered id acts)) <= SubscriberBufferSize ->
   received id acts ++ queue ch = offered id acts).
Proof.
  intros Hr Hch. destruct (history_run id _ _ Hr) as (_ & _ & Hd). rewrite Hch in Hd.
  destruct Hd as [Hs Hor]. split; [done|]. intros Hl. destruct Hor; [done|lia].
Qed.

(** The broker never panics: in every reachable state, publishing to the
    subscribers in any order and unsubscribing anyone succeed (no send on a
    closed channel, no second close); every buffer holds at most 100 events, each
    of which its subscriber wants; and a publisher never waits. *)
Theorem broker_safe acts ps : run acts ps ->
  (forall subs e, subs ≡ₚ map_to_list (subscribers ps) -> is_ok (Publish_in subs ps e) = true) /\
  (forall id, is_ok (Unsubscribe ps id) = true) /\
  (forall id ch, channels ps !! id = Some ch -> Z.of_nat (length (queue ch)) <= SubscriberBufferSize) /\
  (forall id c, subscribers ps !! id = Some c -> exists ch, channels ps !! id = Some ch /\
     closed ch = false /\ forall e, e ∈ queue ch -> wants c e = true).
Proof.
  intros Hi%inv_run. split_and!.
  - intros subs e Hp. by destruct (Publish_in_spec ps subs e Hi Hp) as (? & -> & _).
  - intros id. by destruct (Unsubscribe_spec ps id Hi) as [[_ ->]|(? & ? & _ & _ & ->)].
  - apply Hi.
  - apply Hi.
Qed.

Definition sample_event : RecordEvent :=
  {| Type_ := EventCreate; URI := "at://a"; CID := "c"; DID := "d"; Collection := "app.x"; Record_ := None |}.
Definition sample_state : PubSub :=
  match Publish (Subscribe NewPubSub "app.x").1 sample_event with Ok ps => ps | Err _ => NewPubSub end.

Lemma sample_run : run [ASubscribe "app.x"; APublish sample_event] sample_state.
Proof.
  eapply (run_snoc [ASubscribe "app.x"]).
  - eapply (run_snoc []); [constructor|]. by apply step_subscribe.
  - eapply step_publish; [reflexivity|by vm_compute].
Defined.

Lemma subscriber_history_witness :
  ([] ++ [sample_event]) `sublist_of` [sample_event] /\
  (Z.of_nat (length [sample_event]) <= SubscriberBufferSize -> [] ++ [sample_event] = [sample_event]).
Proof.
  apply (subscriber_history [ASubscribe "app.x"; APublish sample_event] sample_state "1"
           {| queue := [sample_event]; closed := false |}); [apply sample_run|by vm_compute].
Defined.

Lemma broker_safe_witness :
  (forall subs e, subs ≡ₚ map_to_list (subscribers sample_state) ->
     is_ok (Publish_in subs sample_state e) = true) /\
  (forall id, is_ok (Unsubscribe sample_state id) = true) /\
  (forall id ch, channels sample_state !! id = Some ch ->
     Z.of_nat (length (queue ch)) <= SubscriberBufferSize) /\
  (forall id c, subscribers sample_state !! id = Some c -> exists ch,
     channels sample_state !! id = Some ch /\
     closed ch = false /\ forall e, e ∈ queue ch -> wants c e = true).
Proof. apply (broker_safe [ASubscribe "app.x"; APublish sample_event]), sample_run. Defined.
