(* ===== verification/Ingestion.v ===== *)
(** [internal/ingestion]: the pipeline every consumer feeds, from one record
    event to the database, the subscriptions and the hook. Calls that leave the
    package are recorded, in order, as effects; what they answer is the
    environment. Logging and metrics are left out. *)
From S2P Require Import Prelude GoStrings Utf8 Json Registry Validator PubSub.

Local Open Scope Z_scope.

(** ** Feed ordering ([sortat.go]) *)

(** Instants in nanoseconds since the zero [time.Time]. *)
Definition instant := Z.
Definition IsZero (t : instant) : bool := t =? 0.
Definition sortAtClampWindow : Z := 5 * 60 * 1000000000.

Definition ComputeSortAt (createdAt : option instant) (now : instant) : instant :=
  match createdAt with
  | None => now
  | Some t =>
      if IsZero t then now
      else
        let clamp := now + sortAtClampWindow in
        if clamp <? t then clamp else t
  end.

(** [unmarshal] decodes the envelope to its createdAt; [parse] is time.Parse
    with RFC 3339. *)
Definition ExtractCreatedAt (unmarshal : string -> option string) (parse : string -> option instant)
    (recordJSON : string) : option instant :=
  if is_empty recordJSON then None
  else match unmarshal recordJSON with
       | None => None
       | Some createdAt => if is_empty createdAt then None else parse createdAt
       end.

(** ** The pipeline ([processor.go]) *)

Definition OpCreate : string := "create".
Definition OpUpdate : string := "update".
Definition OpDelete : string := "delete".

Record ProcessOp := {
  DID : string; URI : string; Collection : string; RKey : string; CID : string;
  Operation : string; Record_ : string; SourceEventID : option Z
}.

Inductive HookErrorPolicy := HookLogContinue | HookAbortTx.

(** How a hook ends: it may panic. *)
Inductive hook_end := HookOk | HookErr (e : string) | HookPanic (v : string).

Record RecordHook := { HookName : string; Policy : HookErrorPolicy; Fn : ProcessOp -> hook_end }.

Inductive InsertResult := Inserted | Skipped.
Record InsertParams := {
  ip_URI : string; ip_CID : string; ip_DID : string; ip_Collection : string;
  ip_JSONData : string; ip_SortAt : option instant
}.

(** The configuration: a [None] is a nil field. *)
Record RecordProcessor := {
  has_activity : bool;
  Validator_ : option (Registry * unmarshaller);
  ValMode : string;
  AllowedCollections : option (gmap string bool);
  Hook : option RecordHook;
  has_didcache : bool
}.

(** What the repositories, the DID cache and the clock answer. *)
Record environment := {
  now : instant;
  LogActivity : ProcessOp -> Z * option string;
  InsertWithParams : InsertParams -> result string InsertResult;
  Delete : string -> result string unit;
  pds_endpoint : string -> result string string;
  decode_created : string -> option string;
  parse_rfc3339 : string -> option instant
}.

Inductive effect :=
| ELogActivity (op : ProcessOp)
| EUpdateStatus (id : Z) (status : string) (errMsg : option string) (isValid : option bool)
| EResolve (did : string)
| EUpsertActor (did pds : string)
| EInsert (p : InsertParams)
| EDelete (uri : string)
| EPublish (t : EventType) (uri cid did collection json : string)
| EHook (op : ProcessOp).

Inductive ingest_error :=
| EUnknownOperation (op : string)
| EInsertFailed (e : string)
| EDeleteFailed (e : string)
| EHookFailed (name e : string).

(** Effects and an outcome. *)
Definition M (A : Type) : Type := list effect * A.
#[export] Instance M_ret : MRet M := fun A a => ([], a).
#[export] Instance M_bind : MBind M := fun A B f m => let '(es, a) := m : M A in
  let '(es', b) := f a in (es ++ es', b).
Definition emit (e : effect) : M unit := ([e], ()).

Section Process.
Context `{ValidatorLib} (p : RecordProcessor) (env : environment).

(** [resolvePDS]: empty on a miss or without a cache. *)
Definition resolvePDS (did : string) : M string :=
  if has_didcache p then
    _ ← emit (EResolve did);
    mret (match pds_endpoint env did with Ok pds => pds | Err _ => "" end)
  else mret "".

(** [runHook]: a panic becomes an error. *)
Definition runHook (hook : RecordHook) (op : ProcessOp) : M (option string) :=
  _ ← emit (EHook op);
  mret (match Fn hook op with
        | HookOk => None
        | HookErr e => Some e
        | HookPanic v => Some ("hook panic: " +:+ v)
        end).

(** The closure [updateStatus]. *)
Definition updateStatus (activityID : Z) (status : string) (errMsg : option string)
    (isValid : option bool) : M unit :=
  if has_activity p && (0 <? activityID) then emit (EUpdateStatus activityID status errMsg isValid)
  else mret ().

(** The text of one violation and of all of them. *)
Definition violation_text (v : Violation) : string :=
  if is_empty (Field v) then Message v else Field v +:+ ": " +:+ Message v.
Definition summary (vs : list Violation) : string :=
  itoa (Z.of_nat (length vs)) +:+ " violation(s): " +:+ join (violation_text <$> vs) "; ".

Definition is_write (op : ProcessOp) : bool :=
  String.eqb (Operation op) OpCreate || String.eqb (Operation op) OpUpdate.

(** The summary of a failed validation, when there is one. *)
Definition validation_failure (op : ProcessOp) : option string :=
  match Validator_ p with
  | Some (registry, unmarshal) =>
      if negb (String.eqb (ValMode p) "disabled") && is_write op then
        let result := Validate registry unmarshal (Collection op) (Record_ op) in
        if Valid result then None else Some (summary (Violations result))
      else None
  | None => None
  end.

(** [op.Record] is not the text of an object. *)
Definition not_object (record : string) : bool :=
  match TrimSpace record with String "{" _ => false | _ => true end.

Definition params_of (op : ProcessOp) : InsertParams :=
  {| ip_URI := URI op; ip_CID := CID op; ip_DID := DID op; ip_Collection := Collection op;
     ip_JSONData := Record_ op;
     ip_SortAt := Some (ComputeSortAt
       (ExtractCreatedAt (decode_created env) (parse_rfc3339 env) (Record_ op)) (now env)) |}.

(** The last switch of [ProcessRecord]: store or delete, then publish. *)
Definition apply_op (op : ProcessOp) (activityID : Z) (msg : option string) (isValid : option bool)
  : M (result ingest_error unit) :=
  if is_write op then
    pds ← resolvePDS (DID op);
    _ ← emit (EUpsertActor (DID op) pds);
    _ ← emit (EInsert (params_of op));
    match InsertWithParams env (params_of op) with
    | Err e => _ ← updateStatus activityID "error" (Some e) isValid; mret (Err (EInsertFailed e))
    | Ok _ =>
        let eventType := if String.eqb (Operation op) OpUpdate then EventUpdate else EventCreate in
        _ ← emit (EPublish eventType (URI op) (CID op) (DID op) (Collection op) (Record_ op));
        _ ← updateStatus activityID "success" msg isValid;
        mret (Ok ())
    end
  else
    _ ← emit (EDelete (URI op));
    match Delete env (URI op) with
    | Err e => _ ← updateStatus activityID "error" (Some e) None; mret (Err (EDeleteFailed e))
    | Ok _ =>
        _ ← emit (EPublish EventDelete (URI op) (CID op) (DID op) (Collection op) "");
        _ ← updateStatus activityID "success" None None;
        mret (Ok ())
    end.

Definition run_hook_stage (op : ProcessOp) : M (result ingest_error unit) :=
  match Hook p with
  | None => mret (Ok ())
  | Some hook =>
      err ← runHook hook op;
      mret (match err, Policy hook with
            | Some e, HookAbortTx => Err (EHookFailed (HookName hook) e)
            | _, _ => Ok ()
            end)
  end.

Definition known_op (op : ProcessOp) : bool := is_write op || String.eqb (Operation op) OpDelete.

Definition allowed (op : ProcessOp) : bool :=
  match AllowedCollections p with
  | None => true
  | Some m => default false (m !! Collection op)
  end.

Definition skipped_payload (op : ProcessOp) : bool :=
  negb (String.eqb (Operation op) OpDelete) && negb (is_empty (Record_ op)) && not_object (Record_ op).

Definition ProcessRecord (op : ProcessOp) : M (result ingest_error unit) :=
  if negb (known_op op) then mret (Err (EUnknownOperation (Operation op)))
  else if negb (allowed op) then mret (Ok ())
  else if skipped_payload op then mret (Ok ())
  else
    activityID ← (if has_activity p
                  then (_ ← emit (ELogActivity op); mret (LogActivity env op).1)
                  else mret 0);
    match validation_failure op with
    | Some text =>
        if String.eqb (ValMode p) "enforce" then
          _ ← updateStatus activityID "rejected" (Some text) (Some false);
          mret (Ok ())
        else
          r ← apply_op op activityID (Some text) (Some false);
          match r with Ok _ => run_hook_stage op | Err e => mret (Err e) end
    | None =>
        r ← apply_op op activityID None None;
        match r with Ok _ => run_hook_stage op | Err e => mret (Err e) end
    end.
End Process.

(** ** What the pipeline promises *)

Section Spec.
Context `{ValidatorLib} (p : RecordProcessor) (env : environment).

(** The stages an event goes through. *)
Definition processed (op : ProcessOp) : bool :=
  known_op op && allowed p op && negb (skipped_payload op).
Definition rejected (op : ProcessOp) : bool :=
  bool_decide (is_Some (validation_failure p op)) && String.eqb (ValMode p) "enforce".
Definition committed (op : ProcessOp) : bool :=
  if is_write op then is_ok (InsertWithParams env (params_of env op)) else is_ok (Delete env (URI op)).

Definition activity_id (op : ProcessOp) : Z := if has_activity p then (LogActivity env op).1 else 0.
Definition status_trace (op : ProcessOp) (s : string) (m : option string) (v : option bool)
  : list effect :=
  if has_activity p && (0 <? activity_id op) then [EUpdateStatus (activity_id op) s m v] else [].

Definition log_trace (op : ProcessOp) : list effect :=
  if has_activity p then [ELogActivity op] else [].
Definition store_trace (op : ProcessOp) : list effect :=
  if is_write op then
    (if has_didcache p then [EResolve (DID op)] else []) ++
    [EUpsertActor (DID op) (resolvePDS p env (DID op)).2; EInsert (params_of env op)]
  else [EDelete (URI op)].
Definition publish_effect (op : ProcessOp) : effect :=
  if String.eqb (Operation op) OpUpdate then
    EPublish EventUpdate (URI op) (CID op) (DID op) (Collection op) (Record_ op)
  else if String.eqb (Operation op) OpCreate then
    EPublish EventCreate (URI op) (CID op) (DID op) (Collection op) (Record_ op)
  else EPublish EventDelete (URI op) (CID op) (DID op) (Collection op) "".
Definition hook_trace (op : ProcessOp) : list effect :=
  match Hook p with Some _ => [EHook op] | None => [] end.

(** Whether the status carries a false validity, and the error text. *)
Definition invalid_flag (op : ProcessOp) : option bool :=
  match validation_failure p op with Some _ => Some false | None => None end.
Definition store_error (op : ProcessOp) : string :=
  if is_write op then match InsertWithParams env (params_of env op) with Err e => e | Ok _ => "" end
  else match Delete env (URI op) with Err e => e | Ok _ => "" end.

(** *** The pipeline stage by stage

    Its effects and answer in closed form, from its own stages; what they should
    be is stated further down by rules of their own. *)
Definition spec_trace (op : ProcessOp) : list effect :=
  if negb (processed op) then []
  else log_trace op ++
    if rejected op then status_trace op "rejected" (validation_failure p op) (Some false)
    else store_trace op ++
      if committed op
      then publish_effect op :: status_trace op "success" (validation_failure p op) (invalid_flag op)
           ++ hook_trace op
      else status_trace op "error" (Some (store_error op)) (invalid_flag op).

Definition spec_outcome (op : ProcessOp) : result ingest_error unit :=
  if negb (known_op op) then Err (EUnknownOperation (Operation op))
  else if negb (processed op) || rejected op then Ok ()
  else if committed op then (run_hook_stage p op).2
  else Err (if is_write op then EInsertFailed (store_error op) else EDeleteFailed (store_error op)).

Lemma delete_never_fails_validation op : is_write op = false -> validation_failure p op = None.
Proof. unfold validation_failure. intros ->. destruct (Validator_ p) as [[]|]; [|done]. by rewrite andb_false_r. Qed.

Lemma apply_op_spec op msg v : validation_failure p op = msg -> invalid_flag op = v ->
  known_op op = true ->
  apply_op p env op (activity_id op) msg v =
  (store_trace op ++
     (if committed op then publish_effect op :: status_trace op "success" msg v
      else status_trace op "error" (Some (store_error op)) v),
   if committed op then Ok ()
   else Err (if is_write op then EInsertFailed (store_error op) else EDeleteFailed (store_error op))).
Proof.
  intros Hm Hv Hk. unfold apply_op, committed, store_trace, store_error, publish_effect, status_trace,
    updateStatus, resolvePDS. unfold known_op in Hk.
  destruct (is_write op) eqn:Hw.
  - assert (String.eqb (Operation op) OpUpdate = false -> String.eqb (Operation op) OpCreate = true) as Hc
      by (unfold is_write in Hw; destruct (String.eqb (Operation op) OpCreate), (String.eqb (Operation op) OpUpdate); done).
    destruct (InsertWithParams env (params_of env op)) as [r|e]; cbn [is_ok];
      destruct (String.eqb (Operation op) OpUpdate), (has_didcache p), (has_activity p && _);
      cbn; rewrite ?Hc by done; reflexivity.
  - rewrite (delete_never_fails_validation op Hw) in Hm. subst msg.
    assert (v = None) as -> by (subst v; unfold invalid_flag; by rewrite (delete_never_fails_validation op Hw)).
    unfold is_write in Hw. apply orb_false_iff in Hw as [-> ->].
    destruct (Delete env (URI op)) as [[]|e], (has_activity p && _); reflexivity.
Qed.

Lemma M_bind_eq {A B} (es : list effect) (a : A) (f : A -> M B) :
  ((es, a) : M A) ≫= f = (es ++ (f a).1, (f a).2).
Proof. cbn. by destruct (f a). Qed.

Lemma hook_stage_trace op : (run_hook_stage p op).1 = hook_trace op.
Proof. unfold run_hook_stage, hook_trace. by destruct (Hook p). Qed.

Lemma ProcessRecord_spec op : ProcessRecord p env op = (spec_trace op, spec_outcome op).
Proof.
  unfold ProcessRecord, spec_trace, spec_outcome, processed.
  destruct (known_op op) eqn:Hk; cbn [negb andb]; [|done].
  destruct (allowed p op); cbn [negb andb orb]; [|done].
  destruct (skipped_payload op); cbn [negb orb]; [done|].
  assert ((if has_activity p then _ ← emit (ELogActivity op); mret (LogActivity env op).1 else mret 0)
          = (log_trace op, activity_id op)) as ->
    by (unfold log_trace, activity_id; by destruct (has_activity p)).
  rewrite M_bind_eq. unfold rejected.
  destruct (validation_failure p op) as [text|] eqn:Hf; cbn [is_Some].
  - rewrite bool_decide_true by done. cbn [andb]. destruct (String.eqb (ValMode p) "enforce"); cbn [orb].
    + unfold updateStatus, status_trace. by destruct (has_activity p && _).
    + rewrite (apply_op_spec op (Some text) (Some false) Hf ltac:(unfold invalid_flag; by rewrite Hf) Hk).
      unfold invalid_flag. rewrite Hf, M_bind_eq. destruct (committed op); cbn [fst snd].
      * rewrite hook_stage_trace. by rewrite <-!app_assoc.
      * by rewrite app_nil_r.
  - rewrite bool_decide_false by (by intros []). cbn [andb orb].
    rewrite (apply_op_spec op None None Hf ltac:(unfold invalid_flag; by rewrite Hf) Hk).
    unfold invalid_flag. rewrite Hf, M_bind_eq. destruct (committed op); cbn [fst snd].
    + rewrite hook_stage_trace. by rewrite <-!app_assoc.
    + by rewrite app_nil_r.
Qed.

Definition is_publish (e : effect) : bool := match e with EPublish _ _ _ _ _ _ => true | _ => false end.
Definition is_status (e : effect) : bool := match e with EUpdateStatus _ _ _ _ => true | _ => false end.
Definition is_report (e : effect) : bool :=
  match e with ELogActivity _ | EUpdateStatus _ _ _ _ => true | _ => false end.

Lemma is_publish_effect op : is_publish (publish_effect op) = true.
Proof. unfold publish_effect. by repeat case_match. Qed.

Lemma is_status_effect op : is_status (publish_effect op) = false.
Proof. unfold publish_effect. by repeat case_match. Qed.

Ltac trace_cases op :=
  unfold spec_trace, log_trace, store_trace, status_trace, hook_trace;
  destruct (processed op); cbn [negb andb];
  destruct (rejected op); cbn [negb andb]; destruct (committed op); cbn [negb andb];
  destruct (is_write op), (has_didcache p), (has_activity p), (0 <? activity_id op), (Hook p); cbn.

(** *** The pipeline as a specification

    Rules that say what becomes of an event, in terms of the configuration and of
    what the environment answers only; none of the definitions of the pipeline
    above is used in them, but for the calls to the validator and the text
    functions of the language. *)

Definition listed (op : ProcessOp) : Prop :=
  AllowedCollections p = None \/
  exists m, AllowedCollections p = Some m /\ m !! Collection op = Some true.

(** The record is missing or the text of an object. *)
Definition object_text (op : ProcessOp) : Prop :=
  Record_ op = "" \/ exists rest, TrimSpace (Record_ op) = String "{" rest.

Inductive accepted (op : ProcessOp) : Prop :=
| accepts_write : Operation op = "create" \/ Operation op = "update" -> listed op -> object_text op -> accepted op
| accepts_delete : Operation op = "delete" -> listed op -> accepted op.

(** What the validator says against the record of a write. *)
Inductive invalid (op : ProcessOp) : string -> Prop :=
| violates registry unmarshal vs :
    Validator_ p = Some (registry, unmarshal) -> ValMode p <> "disabled" ->
    Operation op = "create" \/ Operation op = "update" ->
    Valid (Validate registry unmarshal (Collection op) (Record_ op)) = false ->
    Violations (Validate registry unmarshal (Collection op) (Record_ op)) = vs ->
    invalid op (itoa (Z.of_nat (length vs)) +:+ " violation(s): " +:+
      join ((fun v => if decide (Field v = "") then Message v else Field v +:+ ": " +:+ Message v) <$> vs) "; ").

(** The message and the flag that go with the row of an event that is not rejected. *)
Inductive verdict (op : ProcessOp) : option string -> option bool -> Prop :=
| found_valid : (forall text, ~ invalid op text) -> verdict op None None
| only_warned text : invalid op text -> ValMode p <> "enforce" -> verdict op (Some text) (Some false).

(** The time a record claims, and its place in the feed: at most five minutes ahead. *)
Definition claimed_time (op : ProcessOp) (t : instant) : Prop :=
  Record_ op <> "" /\ t <> 0 /\
  exists text, decode_created env (Record_ op) = Some text /\ text <> "" /\ parse_rfc3339 env text = Some t.
Inductive feed_time (op : ProcessOp) : instant -> Prop :=
| claimed t : claimed_time op t -> feed_time op (Z.min t (now env + 300000000000))
| unclaimed : (forall t, ~ claimed_time op t) -> feed_time op (now env).

(** The lookup of the author's server. *)
Inductive looked_up (did : string) : list effect -> string -> Prop :=
| no_cache : has_didcache p = false -> looked_up did [] ""
| found pds : has_didcache p = true -> pds_endpoint env did = Ok pds -> looked_up did [EResolve did] pds
| missed e : has_didcache p = true -> pds_endpoint env did = Err e -> looked_up did [EResolve did] "".

(** The store, with what subscribers are told when it succeeds. *)
Inductive stores (op : ProcessOp) : list effect -> result ingest_error effect -> Prop :=
| inserts tr pds at_ r t :
    (Operation op = "create" /\ t = EventCreate) \/ (Operation op = "update" /\ t = EventUpdate) ->
    looked_up (DID op) tr pds -> feed_time op at_ ->
    let row := {| ip_URI := URI op; ip_CID := CID op; ip_DID := DID op; ip_Collection := Collection op;
                  ip_JSONData := Record_ op; ip_SortAt := Some at_ |} in
    r = match InsertWithParams env row with
        | Ok _ => Ok (EPublish t (URI op) (CID op) (DID op) (Collection op) (Record_ op))
        | Err e => Err (EInsertFailed e)
        end ->
    stores op (tr ++ [EUpsertActor (DID op) pds; EInsert row]) r
| deletes r : Operation op = "delete" ->
    r = match Delete env (URI op) with
        | Ok _ => Ok (EPublish EventDelete (URI op) (CID op) (DID op) (Collection op) "")
        | Err e => Err (EDeleteFailed e)
        end ->
    stores op [EDelete (URI op)] r.

Definition cause (e : ingest_error) : string :=
  match e with
  | EInsertFailed e | EDeleteFailed e => e
  | EUnknownOperation _ | EHookFailed _ _ => ""
  end.

(** The hook, whose panic counts as an error; only one policy lets it fail the event. *)
Inductive hooked (op : ProcessOp) : list effect -> result ingest_error unit -> Prop :=
| no_hook : Hook p = None -> hooked op [] (Ok ())
| hook_fine h : Hook p = Some h -> Fn h op = HookOk -> hooked op [EHook op] (Ok ())
| hook_logged h : Hook p = Some h -> Fn h op <> HookOk -> Policy h = HookLogContinue -> hooked op [EHook op] (Ok ())
| hook_failed h e : Hook p = Some h -> Policy h = HookAbortTx -> Fn h op = HookErr e ->
    hooked op [EHook op] (Err (EHookFailed (HookName h) e))
| hook_panicked h v : Hook p = Some h -> Policy h = HookAbortTx -> Fn h op = HookPanic v ->
    hooked op [EHook op] (Err (EHookFailed (HookName h) ("hook panic: " +:+ v))).

(** The row of the activity log, and its update when it has a number. *)
Inductive logged (op : ProcessOp) : list effect -> (string -> option string -> option bool -> list effect) -> Prop :=
| no_log : has_activity p = false -> logged op [] (fun _ _ _ => [])
| log_failed : has_activity p = true -> (LogActivity env op).1 <= 0 -> logged op [ELogActivity op] (fun _ _ _ => [])
| log_row id : has_activity p = true -> (LogActivity env op).1 = id -> 0 < id ->
    logged op [ELogActivity op] (fun status msg valid => [EUpdateStatus id status msg valid]).

(** What becomes of an event: the effects in their order, and the answer. *)
Inductive handled (op : ProcessOp) : list effect -> result ingest_error unit -> Prop :=
| h_unknown : Operation op ∉ ["create"; "update"; "delete"] ->
    handled op [] (Err (EUnknownOperation (Operation op)))
| h_unlisted : Operation op ∈ ["create"; "update"; "delete"] -> ~ listed op -> handled op [] (Ok ())
| h_no_object : Operation op ∈ ["create"; "update"] -> ~ object_text op -> handled op [] (Ok ())
| h_rejected log row text : accepted op -> logged op log row -> invalid op text -> ValMode p = "enforce" ->
    handled op (log ++ row "rejected" (Some text) (Some false)) (Ok ())
| h_not_stored log row msg valid tr e : accepted op -> logged op log row -> verdict op msg valid ->
    stores op tr (Err e) ->
    handled op (log ++ tr ++ row "error" (Some (cause e)) valid) (Err e)
| h_stored log row msg valid tr event hook r : accepted op -> logged op log row -> verdict op msg valid ->
    stores op tr (Ok event) -> hooked op hook r ->
    handled op (log ++ tr ++ [event] ++ row "success" msg valid ++ hook) r.

(** **** Each stage against its rules *)

Lemma is_write_iff op : is_write op = true <-> Operation op = "create" \/ Operation op = "update".
Proof. unfold is_write. by rewrite orb_true_iff, !String.eqb_eq. Qed.

Lemma known_op_iff op : known_op op = true <-> is_write op = true \/ Operation op = "delete".
Proof. unfold known_op. by rewrite orb_true_iff, String.eqb_eq. Qed.

Lemma not_delete op : is_write op = true -> Operation op <> "delete".
Proof. intros [-> | ->]%is_write_iff; done. Qed.

Lemma allowed_iff op : allowed p op = true <-> listed op.
Proof.
  unfold allowed, listed. destruct (AllowedCollections p) as [m|]; [|by split; [left|]].
  destruct (m !! Collection op) as [[]|] eqn:Hm; cbn; split; try done; [by right; exists m|..];
    intros [?|(m' & [= <-] & Hm')]; congruence.
Qed.

Lemma is_empty_true s : is_empty s = true <-> s = "".
Proof. by destruct s. Qed.
Lemma is_empty_decide {A} s (a b : A) : (if is_empty s then a else b) = if decide (s = "") then a else b.
Proof. destruct s; [by rewrite decide_True|by rewrite decide_False]. Qed.

Lemma skipped_iff op : skipped_payload op = false <-> Operation op = "delete" \/ object_text op.
Proof.
  unfold skipped_payload, object_text, not_object. rewrite !andb_false_iff, !negb_false_iff, String.eqb_eq, is_empty_true.
  assert (forall t, match t with String "{" _ => false | _ => true end = false <-> exists rest, t = String "{" rest) as Ht.
  { intros [|c t]; [by split; [|intros [? ?]]|]. split; [|by intros [rest [= -> ->]]].
    destruct c as [[] [] [] [] [] [] [] []]; try done. by exists t. }
  rewrite Ht. tauto.
Qed.

Lemma processed_iff op : processed op = true <-> accepted op.
Proof.
  unfold processed. rewrite !andb_true_iff, negb_true_iff, known_op_iff, allowed_iff, skipped_iff, is_write_iff.
  split; [|by intros [? ? ?|? ?]; tauto]. intros [[[Hw|Hd] Hl] Hs]; [|by apply accepts_delete].
  destruct Hs as [Hd|Hs]; [|by apply accepts_write]. by apply accepts_delete.
Qed.

Lemma validation_iff op text : validation_failure p op = Some text <-> invalid op text.
Proof.
  assert (forall v, violation_text v = if decide (Field v = "") then Message v else Field v +:+ ": " +:+ Message v) as Hv.
  { intros v. apply is_empty_decide. }
  assert (forall vs, join (violation_text <$> vs) "; " =
    join ((fun v => if decide (Field v = "") then Message v else Field v +:+ ": " +:+ Message v) <$> vs) "; ") as Hj.
  { intros vs. f_equal. by apply list_fmap_ext. }
  unfold validation_failure. split.
  - destruct (Validator_ p) as [[registry unmarshal]|] eqn:HV; [|done].
    destruct (negb _ && is_write op) eqn:Hm; [|done].
    apply andb_true_iff in Hm as [Hm%negb_true_iff%String.eqb_neq Hw%is_write_iff].
    destruct (Valid _) eqn:Hval; [done|]. intros [= <-]. unfold summary. rewrite Hj. by eapply violates.
  - intros [registry unmarshal vs -> Hm Hw Hval <-]. apply is_write_iff in Hw. apply String.eqb_neq in Hm.
    rewrite Hm, Hw. cbn [negb andb]. rewrite Hval. unfold summary. by rewrite Hj.
Qed.

Lemma feed_time_iff op t : feed_time op t <->
  t = ComputeSortAt (ExtractCreatedAt (decode_created env) (parse_rfc3339 env) (Record_ op)) (now env).
Proof.
  assert (forall t, claimed_time op t <->
    ExtractCreatedAt (decode_created env) (parse_rfc3339 env) (Record_ op) = Some t /\ t <> 0) as Hc.
  { intros u. unfold claimed_time, ExtractCreatedAt. rewrite is_empty_decide. case_decide; [naive_solver|].
    destruct (decode_created env (Record_ op)) as [text|]; [|naive_solver].
    rewrite is_empty_decide. case_decide; naive_solver. }
  assert (forall u, u <> 0 -> Z.min u (now env + 300000000000) = ComputeSortAt (Some u) (now env)) as Hmin.
  { intros u Hu. unfold ComputeSortAt, IsZero, sortAtClampWindow. destruct (Z.eqb_spec u 0); [done|].
    destruct (Z.ltb_spec (now env + 5 * 60 * 1000000000) u); lia. }
  split.
  - intros [u Hu|Hn]; [apply Hc in Hu as [-> Hu]; by apply Hmin|].
    destruct (ExtractCreatedAt _ _ _) as [u|] eqn:He; [|done]. unfold ComputeSortAt, IsZero.
    destruct (Z.eqb_spec u 0) as [|Hu]; [done|]. exfalso. by apply (Hn u), Hc.
  - intros ->. destruct (ExtractCreatedAt _ _ _) as [u|] eqn:He.
    + destruct (decide (u = 0)) as [-> |Hu].
      * change (ComputeSortAt (Some 0) (now env)) with (now env). apply unclaimed. intros t' Ht'.
        apply Hc in Ht' as [[= <-] ?]. done.
      * rewrite <-Hmin by done. by apply claimed, Hc.
    + apply unclaimed. intros t' Ht'. by apply Hc in Ht' as [? _].
Qed.

Lemma looked_up_iff did tr pds : looked_up did tr pds <-> (tr, pds) = resolvePDS p env did.
Proof.
  unfold resolvePDS. split.
  - intros [H1|x H1 H2|e H1 H2]; rewrite H1; [done|by rewrite H2..].
  - destruct (has_didcache p) eqn:Hd; cbn; [|intros [= -> ->]; by constructor].
    destruct (pds_endpoint env did) eqn:He; intros [= -> ->]; [by constructor|by eapply missed].
Qed.

Lemma stores_iff op tr r : known_op op = true -> stores op tr r <->
  tr = store_trace op /\ r = if committed op then Ok (publish_effect op)
    else Err (if is_write op then EInsertFailed (store_error op) else EDeleteFailed (store_error op)).
Proof.
  intros Hk. unfold store_trace, committed, store_error, publish_effect, OpUpdate, OpCreate.
  assert (forall did, (if has_didcache p then [EResolve did] else []) = (resolvePDS p env did).1) as Hres.
  { intros did. unfold resolvePDS. by destruct (has_didcache p). }
  rewrite Hres. split.
  - intros [tr' pds at_ r' t Hop Hl Hf row ->|r' Hop ->].
    + assert (is_write op = true) as -> by (apply is_write_iff; tauto). apply looked_up_iff in Hl. rewrite <-Hl.
      apply feed_time_iff in Hf as ->. change row with (params_of env op). split; [done|].
      destruct Hop as [[-> ->]|[-> ->]]; by destruct (InsertWithParams env _).
    + assert (is_write op = false) as -> by (unfold is_write; by rewrite Hop). split; [done|]. rewrite Hop.
      by destruct (Delete env (URI op)).
  - intros [-> ->]. apply known_op_iff in Hk as [Hw|Hd].
    + rewrite Hw. set (tp := if String.eqb (Operation op) "update" then EventUpdate else EventCreate).
      eapply (inserts op _ _ _ _ tp); [|apply looked_up_iff; by destruct (resolvePDS _ _ _)|by apply feed_time_iff|].
      * apply is_write_iff in Hw. unfold tp. destruct Hw as [-> | ->]; [by left|by right].
      * change {| ip_URI := _ |} with (params_of env op). apply is_write_iff in Hw. unfold tp.
        destruct Hw as [-> | ->]; by destruct (InsertWithParams env _).
    + assert (is_write op = false) as -> by (unfold is_write; by rewrite Hd). apply deletes; [done|]. rewrite Hd.
      by destruct (Delete env (URI op)).
Qed.

Lemma hooked_iff op tr r : hooked op tr r <-> tr = hook_trace op /\ r = (run_hook_stage p op).2.
Proof.
  unfold hook_trace, run_hook_stage, runHook. split.
  - intros [H1|h H1 H2|h H1 H2 H3|h e H1 H2 H3|h v H1 H2 H3]; rewrite H1; cbn; rewrite ?H2, ?H3; try done.
    by destruct (Fn h op).
  - intros [-> ->]. destruct (Hook p) as [h|] eqn:Hh; cbn; [|by constructor].
    destruct (Fn h op) eqn:Hf; [by eapply hook_fine|..]; destruct (Policy h) eqn:Hp;
      [by eapply hook_logged; rewrite ?Hf|by eapply hook_failed|by eapply hook_logged; rewrite ?Hf|by eapply hook_panicked].
Qed.

Lemma logged_iff op log row : logged op log row ->
  log = log_trace op /\ forall s m v, row s m v = status_trace op s m v.
Proof.
  unfold log_trace, status_trace, activity_id. intros [H1|H1 H2|id H1 H2 H3]; rewrite H1; cbn; split; try done; intros.
  - by rewrite (proj2 (Z.ltb_ge _ _)).
  - by rewrite H2, (proj2 (Z.ltb_lt _ _)).
Qed.

Lemma logged_exists op : exists log row, logged op log row.
Proof.
  destruct (has_activity p) eqn:Ha; [|by do 2 eexists; constructor].
  destruct (decide (0 < (LogActivity env op).1)); do 2 eexists; [by eapply log_row|apply log_failed; [done|lia]].
Qed.

Lemma verdict_iff op m v : rejected op = false ->
  verdict op m v <-> m = validation_failure p op /\ v = invalid_flag op.
Proof.
  unfold rejected, invalid_flag. intros Hr. split.
  - intros [Hn|text Hi Hm].
    + destruct (validation_failure p op) as [text|] eqn:Hf; [|done]. by apply validation_iff, Hn in Hf.
    + apply validation_iff in Hi. by rewrite Hi.
  - intros [-> ->]. destruct (validation_failure p op) as [text|] eqn:Hf.
    + rewrite bool_decide_true in Hr by done. apply only_warned; [by apply validation_iff|]. by apply String.eqb_neq.
    + apply found_valid. intros text Ht%validation_iff. congruence.
Qed.

Lemma verdict_not_rejected op m v : verdict op m v -> rejected op = false.
Proof.
  unfold rejected. intros [Hn|text Hi Hm].
  - rewrite bool_decide_false; [done|]. intros [text Ht]. by apply validation_iff, Hn in Ht.
  - apply String.eqb_neq in Hm. rewrite Hm. by rewrite andb_false_r.
Qed.

Lemma rejected_iff op : rejected op = true <-> exists text, invalid op text /\ ValMode p = "enforce".
Proof.
  unfold rejected. rewrite andb_true_iff, bool_decide_eq_true, String.eqb_eq. split.
  - intros [[text Ht] Hm]. exists text. by rewrite <-validation_iff.
  - intros (text & Ht%validation_iff & Hm). by rewrite Ht.
Qed.

(** The rules derive what ProcessRecord does. *)
Lemma handled_derived op : handled op (spec_trace op) (spec_outcome op).
Proof.
  destruct (logged_exists op) as (log & row & Hlog). pose proof (logged_iff op log row Hlog) as [Hl Hrow].
  unfold spec_trace, spec_outcome. destruct (processed op) eqn:Hp; cbn [negb].
  - apply processed_iff in Hp as Hacc.
    assert (known_op op = true) as Hk by (unfold processed in Hp; by apply andb_true_iff in Hp as [[? ?]%andb_true_iff _]).
    rewrite Hk, <-Hl, <-!Hrow. cbn [negb orb].
    destruct (rejected op) eqn:Hr.
    + apply rejected_iff in Hr as (text & Hi & Hm). apply validation_iff in Hi as Hv. rewrite Hv. by eapply h_rejected.
    + pose proof (proj2 (verdict_iff op _ _ Hr) (conj eq_refl eq_refl)) as Hverd.
      pose proof (proj2 (stores_iff op _ _ Hk) (conj eq_refl eq_refl)) as Hst.
      destruct (committed op).
      * eapply h_stored; [done..|]. by apply hooked_iff.
      * assert (store_error op = cause (if is_write op then EInsertFailed (store_error op) else EDeleteFailed (store_error op)))
           as He by by destruct (is_write op).
         rewrite He at 1. by eapply h_not_stored.
  - destruct (known_op op) eqn:Hk; cbn [negb orb].
    + assert (Operation op ∈ ["create"; "update"; "delete"]) as Hin.
      { apply known_op_iff in Hk as [[? | ?]%is_write_iff| ?]; set_solver. }
      unfold processed in Hp. rewrite Hk in Hp. cbn [andb] in Hp. apply andb_false_iff in Hp as [Ha|Hs].
      * apply h_unlisted; [done|]. intros Hls%allowed_iff. congruence.
      * apply negb_false_iff in Hs. apply not_false_iff_true in Hs. rewrite skipped_iff in Hs.
         apply h_no_object; [|tauto]. apply known_op_iff in Hk as [[? | ?]%is_write_iff| ?]; [set_solver..|tauto].
    + apply h_unknown. intros Hin. apply not_true_iff_false in Hk. apply Hk, known_op_iff. rewrite is_write_iff. set_solver.
Qed.

(** And nothing else. *)
Lemma handled_only op tr r : handled op tr r -> (spec_trace op, spec_outcome op) = (tr, r).
Proof.
  assert (forall op', processed op' = true -> known_op op' = true) as Hpk.
  { intros op' Hp. unfold processed in Hp. by apply andb_true_iff in Hp as [[? ?]%andb_true_iff _]. }
  unfold spec_trace, spec_outcome.
  intros [Hu|Hin Hls|Hin Ho|log' row' text Ha Hlog' Hi Hm|log' row' m v tr' e Ha Hlog' Hv Hs|log' row' m v tr' ev hk r' Ha Hlog' Hv Hs Hh];
    try (apply processed_iff in Ha; rewrite Ha, (Hpk _ Ha); apply logged_iff in Hlog' as [-> Hrow']; rewrite !Hrow'; cbn [negb orb]).
  - assert (known_op op = false) as Hk.
    { apply not_true_iff_false. rewrite known_op_iff, is_write_iff. set_solver. }
    unfold processed. by rewrite Hk.
  - assert (known_op op = true) as Hk by (rewrite known_op_iff, is_write_iff; set_solver).
    assert (allowed p op = false) as Hal by (apply not_true_iff_false; by rewrite allowed_iff).
    unfold processed. by rewrite Hk, Hal.
  - assert (is_write op = true) as Hw by (rewrite is_write_iff; set_solver).
    assert (known_op op = true) as Hk by (rewrite known_op_iff; by left).
    assert (skipped_payload op = true) as Hsk.
    { apply not_false_iff_true. rewrite skipped_iff. intros [Hd|?]; [by apply not_delete in Hw|done]. }
    unfold processed. rewrite Hk, Hsk. by rewrite andb_false_r.
  - assert (rejected op = true) as -> by (apply rejected_iff; by exists text). apply validation_iff in Hi. by rewrite Hi.
  - pose proof (verdict_not_rejected _ _ _ Hv) as Hr. apply (verdict_iff op m v Hr) in Hv as [-> ->]. rewrite Hr.
    apply stores_iff in Hs as [-> Hs]; [|by apply Hpk]. destruct (committed op); [done|]. injection Hs as ->.
    f_equal. do 4 f_equal. by destruct (is_write op).
  - pose proof (verdict_not_rejected _ _ _ Hv) as Hr. apply (verdict_iff op m v Hr) in Hv as [-> ->]. rewrite Hr.
    apply stores_iff in Hs as [-> Hs]; [|by apply Hpk]. destruct (committed op); [|done]. injection Hs as ->.
    apply hooked_iff in Hh as [-> ->]. done.
Qed.

(** C13: ProcessRecord does exactly what the rules [handled] say, for any configuration
    and whatever the environment answers: its effects and its answer are the ones
    that the rules derive, and the rules derive no others. An unknown operation is an
    error and a collection that is not listed, or a write whose record is no
    object, is passed over, all without effects; any other event is logged, then
    rejected when its record violates the lexicon in enforce mode, or stored
    (with the author's server, and a place in the feed that is its own time, at
    most five minutes ahead, or the present); a store that fails is reported and
    returned; one that succeeds is published, reported, and given to the hook,
    whose error or panic fails the event only under the aborting policy. *)
Theorem ProcessRecord_refines op tr r : ProcessRecord p env op = (tr, r) <-> handled op tr r.
Proof.
  rewrite ProcessRecord_spec. split; [intros [= <- <-]; apply handled_derived|apply handled_only].
Qed.

(** C14: subscribers hear of an event exactly when its store succeeded, once, and
    with the operation, key and body that were stored. *)
Theorem published_iff_committed op :
  List.filter is_publish (ProcessRecord p env op).1 =
  if processed op && negb (rejected op) && committed op then [publish_effect op] else [].
Proof.
  rewrite ProcessRecord_spec. cbn [fst]. pose proof (is_publish_effect op) as Hp.
  trace_cases op; by rewrite ?Hp.
Qed.

(** An activity row that was logged for a processed event never stays
    pending: exactly one status update is made, on that row, and it says success
    exactly when the event was stored, rejected when enforced validation refused
    it, and error when the store failed. *)
Theorem activity_settled op : has_activity p = true -> processed op = true ->
  0 < (LogActivity env op).1 ->
  exists msg valid, List.filter is_status (ProcessRecord p env op).1 =
    [EUpdateStatus (LogActivity env op).1
       (if rejected op then "rejected" else if committed op then "success" else "error") msg valid].
Proof.
  intros Ha Hp Hid. rewrite ProcessRecord_spec. cbn [fst].
  pose proof (is_status_effect op) as He. unfold spec_trace, log_trace, store_trace, status_trace,
    hook_trace, activity_id. rewrite Hp, Ha. apply Z.ltb_lt in Hid. rewrite Hid. cbn [negb andb].
  destruct (rejected op), (committed op), (is_write op), (has_didcache p), (Hook p); cbn;
    rewrite ?He; by eauto.
Qed.

(** In enforce mode a create or update whose record fails validation leaves
    the database, the actors, the subscribers and the hook untouched: only its
    activity row is written; and the consumer sees no error. *)
Theorem enforce_blocks_invalid op registry unmarshal :
  Validator_ p = Some (registry, unmarshal) -> ValMode p = "enforce" -> is_write op = true ->
  Valid (Validate registry unmarshal (Collection op) (Record_ op)) = false ->
  forallb is_report (ProcessRecord p env op).1 = true /\ (ProcessRecord p env op).2 = Ok ().
Proof.
  intros Hv Hm Hw Hi. rewrite ProcessRecord_spec. cbn [fst snd].
  assert (known_op op = true) as Hk by (unfold known_op; by rewrite Hw).
  assert (rejected op = true) as Hr.
  { unfold rejected, validation_failure. rewrite Hv, Hm, Hw, Hi. by vm_compute. }
  unfold spec_outcome, spec_trace. rewrite Hk, Hr, orb_true_r. split; [|done].
  unfold log_trace, status_trace. destruct (processed op); [|done].
  by destruct (has_activity p), (0 <? activity_id op).
Qed.
End Spec.

(** The feed time of a record is its own creation time when that is set and
    at most five minutes ahead of the clock; it never lies further ahead, equals
    the clock without a creation time, and keeps the order of two records that
    arrive together. *)
Theorem ComputeSortAt_clamped createdAt now :
  ComputeSortAt createdAt now <= now + sortAtClampWindow /\
  (forall t, createdAt = Some t -> t <> 0 -> t <= now + sortAtClampWindow ->
     ComputeSortAt createdAt now = t) /\
  (createdAt = None \/ createdAt = Some 0 -> ComputeSortAt createdAt now = now) /\
  (forall t u, t <> 0 -> u <> 0 -> t <= u -> ComputeSortAt (Some t) now <= ComputeSortAt (Some u) now).
Proof.
  unfold ComputeSortAt, IsZero, sortAtClampWindow. split_and!.
  - destruct createdAt as [t|]; [|lia]. repeat case_match; lia.
  - intros t -> ? ?. repeat case_match; lia.
  - by intros [-> | ->].
  - intros t u ? ? ?. repeat case_match; lia.
Qed.

(** ** Concrete events *)

Module Example_ingest.
Definition env : environment :=
  {| now := 1000; LogActivity := fun _ => (7, None); InsertWithParams := fun _ => Ok Inserted;
     Delete := fun _ => Err "locked"; pds_endpoint := fun _ => Ok "https://pds";
     decode_created := fun _ => None; parse_rfc3339 := fun _ => None |}.
Definition processor (mode : string) : RecordProcessor :=
  {| has_activity := true;
     Validator_ := Some (Validator.Example_post.registry, fun _ => Ok ∅); ValMode := mode;
     AllowedCollections := None; Hook := None; has_didcache := true |}.
Definition op : ProcessOp :=
  {| DID := "did:plc:a"; URI := "at://did:plc:a/app.post/1"; Collection := "app.post"; RKey := "1";
     CID := "c"; Operation := "create"; Record_ := "{}"; SourceEventID := None |}.
End Example_ingest.
Import Example_ingest.
#[local] Existing Instance Validator.Example_post.toy_lib.

Lemma activity_settled_witness :
  exists msg valid, List.filter is_status (ProcessRecord (processor "warn") env op).1 =
    [EUpdateStatus 7 (if rejected (processor "warn") op then "rejected"
                      else if committed env op then "success" else "error") msg valid].
Proof. apply (activity_settled (processor "warn") env op); by vm_compute. Defined.

Lemma enforce_blocks_invalid_witness :
  forallb is_report (ProcessRecord (processor "enforce") env op).1 = true /\
  (ProcessRecord (processor "enforce") env op).2 = Ok ().
Proof.
  apply (enforce_blocks_invalid (processor "enforce") env op Validator.Example_post.registry (fun _ => Ok ∅));
    by vm_compute.
Defined.

Example enforce_trace : (ProcessRecord (processor "enforce") env op).1 =
  [ELogActivity op; EUpdateStatus 7 "rejected"
     (Some "1 violation(s): text: [required] field is missing or null") (Some false)].
Proof. by vm_compute. Qed.
