(* ===== verification/Labeler.v ===== *)
(** [internal/labeler/consumer.go] and the paging loop of [backfill.go]: label
    frames become rows, a cursor and counters. What the database, the clock of
    the context and the time parser answer is given from outside; calls to the
    database are recorded in order. *)
From S2P Require Import Prelude GoStrings.

Local Open Scope Z_scope.

Definition MaxKnownVals : Z := 10000.
Definition MaxLabelValLen : Z := 128.
Definition MaxLabelSrcLen : Z := 512.
Definition MaxLabelURILen : Z := 512.
Definition MaxLabelCIDLen : Z := 256.
Definition BackfillCheckpointInterval : Z := 4.
Definition MaxBackfillPages : Z := 40000.

Record protoLabel := {
  Src : string; URI : string; CID : string; Val : string; Neg : bool; Cts : string; Exp : string
}.

Record LabelMessage := { Seq : Z; Labels : list protoLabel }.

Record Stats := {
  EventsReceived : Z; LabelsReceived : Z; LabelsPersisted : Z; LabelsRejected : Z;
  AccountLevelSkipped : Z; ReconnectAttempts : Z; OutdatedCursors : Z; LastSeq : Z
}.
Definition zero_stats : Stats := Build_Stats 0 0 0 0 0 0 0 0.

(** The memo of the definitions already ensured: a set and its insertion order. *)
Record memo := { knownVals : gset string; knownValsOrder : list string }.

Record Consumer := { cursor : Z; known : memo; stats : Stats }.
Definition NewConsumer : Consumer :=
  {| cursor := 0; known := {| knownVals := ∅; knownValsOrder := [] |}; stats := zero_stats |}.

(** A database call with its outcome. *)
Inductive effect :=
| EDefinition (src val : string) (ok : bool)
| ENegation (src uri val : string) (cts : option Z) (ok : bool)
| ELabel (src uri : string) (cid : option string) (val : string) (cts exp : option Z) (ok : bool).

(** ** One label *)

Definition validateLabel (l : protoLabel) : bool :=
  if is_empty (Src l) || is_empty (URI l) || is_empty (Val l) then false
  else if MaxLabelSrcLen <? glen (Src l) then false
  else if negb (has_prefix (URI l) "at://") || (glen (URI l) <=? glen "at://") then false
  else if MaxLabelURILen <? glen (URI l) then false
  else if negb (is_empty (CID l)) && (MaxLabelCIDLen <? glen (CID l)) then false
  else negb (MaxLabelValLen <? glen (Val l)).

Definition account_level (l : protoLabel) : bool :=
  negb (is_empty (URI l)) && negb (has_prefix (URI l) "at://").

(** What a batch meets, label by label: whether its context is done, and
    whether the two inserts fail. *)
Record batch_env := { ctx_err : nat -> bool; def_fails : nat -> bool; put_fails : nat -> bool }.

(** time.Parse with the layouts RFC3339Nano and RFC3339. *)
Class TimeParser := {
  parse_RFC3339Nano : string -> option Z;
  parse_RFC3339 : string -> option Z
}.

Section WithTimes.
Context `{TimeParser}.

Definition parseLabelTime (s : string) : option Z :=
  if is_empty s then None
  else match parse_RFC3339Nano s with Some t => Some t | None => parse_RFC3339 s end.

Definition cacheKey (src val : string) : string := src +:+ String "000" val.

(** Remembers a definition, evicting the oldest one of a full memo. *)
Definition remember (m : memo) (key : string) : memo :=
  if bool_decide (key ∈ knownVals m) then m
  else
    let m' :=
      match knownValsOrder m with
      | oldest :: rest =>
          if MaxKnownVals <=? Z.of_nat (size (knownVals m))
          then {| knownVals := knownVals m ∖ {[ oldest ]}; knownValsOrder := rest |} else m
      | [] => m
      end in
    {| knownVals := {[ key ]} ∪ knownVals m'; knownValsOrder := knownValsOrder m' ++ [key] |}.

(** The memo, the calls made and whether the definition is there. *)
Definition ensureDefinition (fails : bool) (m : memo) (src val : string)
  : memo * list effect * bool :=
  if bool_decide (cacheKey src val ∈ knownVals m) then (m, [], true)
  else if fails then (m, [EDefinition src val false], false)
  else (remember m (cacheKey src val), [EDefinition src val true], true).

(** The row written for a label whose definition is there. *)
Definition put_label (l : protoLabel) (ok : bool) : effect :=
  if Neg l then ENegation (Src l) (URI l) (Val l) (parseLabelTime (Cts l)) ok
  else ELabel (Src l) (URI l) (if is_empty (CID l) then None else Some (CID l)) (Val l)
         (parseLabelTime (Cts l)) (parseLabelTime (Exp l)) ok.

(** The variables of the loop of [upsertLabels]. *)
Record loop := { l_memo : memo; rejected : Z; accountLevelSkipped : Z; calls : list effect }.

Definition upsert_one (env : batch_env) (i : nat) (l : protoLabel) (s : loop) : loop :=
  if ctx_err env i then
    {| l_memo := l_memo s; rejected := rejected s + 1;
       accountLevelSkipped := accountLevelSkipped s; calls := calls s |}
  else
    let skipped := if account_level l then accountLevelSkipped s + 1 else accountLevelSkipped s in
    if negb (validateLabel l) then
      {| l_memo := l_memo s; rejected := rejected s + 1; accountLevelSkipped := skipped;
         calls := calls s |}
    else
      let '(m, es, ok) := ensureDefinition (def_fails env i) (l_memo s) (Src l) (Val l) in
      if negb ok then
        {| l_memo := m; rejected := rejected s + 1; accountLevelSkipped := skipped;
           calls := calls s ++ es |}
      else
        {| l_memo := m; rejected := if put_fails env i then rejected s + 1 else rejected s;
           accountLevelSkipped := skipped;
           calls := calls s ++ es ++ [put_label l (negb (put_fails env i))] |}.

Fixpoint upsert_loop (env : batch_env) (i : nat) (labels : list protoLabel) (s : loop) : loop :=
  match labels with
  | [] => s
  | l :: rest => upsert_loop env (S i) rest (upsert_one env i l s)
  end.

Definition add_skipped (n : Z) (st : Stats) : Stats :=
  {| EventsReceived := EventsReceived st; LabelsReceived := LabelsReceived st;
     LabelsPersisted := LabelsPersisted st; LabelsRejected := LabelsRejected st;
     AccountLevelSkipped := AccountLevelSkipped st + n;
     ReconnectAttempts := ReconnectAttempts st; OutdatedCursors := OutdatedCursors st;
     LastSeq := LastSeq st |}.

(** The consumer, the calls and the number of rejected labels. *)
Definition upsertLabels (env : batch_env) (c : Consumer) (labels : list protoLabel)
  : Consumer * list effect * Z :=
  let s := upsert_loop env 0 labels
             {| l_memo := known c; rejected := 0; accountLevelSkipped := 0; calls := [] |} in
  ({| cursor := cursor c; known := l_memo s;
      stats := if 0 <? accountLevelSkipped s then add_skipped (accountLevelSkipped s) (stats c)
               else stats c |}, calls s, rejected s).

(** ** One frame *)

Definition count_frame (msg : LabelMessage) (rej : Z) (st : Stats) : Stats :=
  let n := Z.of_nat (length (Labels msg)) in
  {| EventsReceived := EventsReceived st + 1; LabelsReceived := LabelsReceived st + n;
     LabelsPersisted := LabelsPersisted st + (n - rej); LabelsRejected := LabelsRejected st + rej;
     AccountLevelSkipped := AccountLevelSkipped st; ReconnectAttempts := ReconnectAttempts st;
     OutdatedCursors := OutdatedCursors st; LastSeq := Seq msg |}.

Definition handleLabelMessage (env : batch_env) (c : Consumer) (msg : LabelMessage)
  : Consumer * list effect :=
  let '(c1, es, rej) := upsertLabels env c (Labels msg) in
  let n := Z.of_nat (length (Labels msg)) in
  ({| cursor := if (cursor c1 <? Seq msg) && ((rej =? 0) || (rej <? n)) then Seq msg else cursor c1;
      known := known c1; stats := count_frame msg rej (stats c1) |}, es).

(** [processEvents]: the frames of a connection, in order. *)
Fixpoint processEvents (c : Consumer) (frames : list (batch_env * LabelMessage))
  : Consumer * list effect :=
  match frames with
  | [] => (c, [])
  | (env, msg) :: rest =>
      let '(c1, es) := handleLabelMessage env c msg in
      let '(c2, es') := processEvents c1 rest in (c2, es ++ es')
  end.

(** ** Counters and cursor *)

Lemma upsert_one_counts env i l s : exists r k, (0 <= k <= r /\ r <= 1) /\
  rejected (upsert_one env i l s) = rejected s + r /\
  accountLevelSkipped (upsert_one env i l s) = accountLevelSkipped s + k.
Proof.
  unfold upsert_one. destruct (ctx_err env i); [exists 1, 0; cbn; lia|].
  destruct (account_level l) eqn:Ha.
  - assert (validateLabel l = false) as ->.
    { unfold account_level, validateLabel in *. split_bools. rewrite H1. by repeat case_match. }
    exists 1, 1. cbn. lia.
  - destruct (negb (validateLabel l)); [exists 1, 0; cbn; lia|].
    destruct (ensureDefinition _ _ _ _) as [[m es] []]; cbn; [|exists 1, 0; lia].
    destruct (put_fails env i); [exists 1, 0|exists 0, 0]; lia.
Qed.

Lemma upsert_loop_counts env labels : forall i s, exists r k,
  (0 <= k <= r /\ r <= Z.of_nat (length labels)) /\
  rejected (upsert_loop env i labels s) = rejected s + r /\
  accountLevelSkipped (upsert_loop env i labels s) = accountLevelSkipped s + k.
Proof.
  induction labels as [|l labels IH]; intros i s; cbn [upsert_loop].
  - exists 0, 0. cbn. lia.
  - destruct (IH (S i) (upsert_one env i l s)) as (r & k & Hr & -> & ->).
    destruct (upsert_one_counts env i l s) as (r' & k' & Hr' & -> & ->).
    exists (r' + r), (k' + k). cbn [length]. lia.
Qed.

(** The counters add up. *)
Definition balanced (st : Stats) : Prop :=
  LabelsReceived st = LabelsPersisted st + LabelsRejected st /\
  0 <= LabelsPersisted st /\ 0 <= AccountLevelSkipped st <= LabelsRejected st.

(** The frame is acknowledged: something of it was stored, or it was empty. *)
Definition accepts (env : batch_env) (c : Consumer) (msg : LabelMessage) : bool :=
  let rej := (upsertLabels env c (Labels msg)).2 in
  (rej =? 0) || (rej <? Z.of_nat (length (Labels msg))).

Lemma handleLabelMessage_counts env c msg : balanced (stats c) ->
  balanced (stats (handleLabelMessage env c msg).1) /\
  EventsReceived (stats (handleLabelMessage env c msg).1) = EventsReceived (stats c) + 1 /\
  cursor (handleLabelMessage env c msg).1 =
    (if accepts env c msg then Z.max (cursor c) (Seq msg) else cursor c).
Proof.
  intros (Hr & Hp & Ha). unfold handleLabelMessage, accepts, upsertLabels.
  destruct (upsert_loop_counts env (Labels msg) 0
              {| l_memo := known c; rejected := 0; accountLevelSkipped := 0; calls := [] |})
    as (r & k & Hrk & Er & Ek).
  cbn [rejected accountLevelSkipped] in Er, Ek. rewrite Er, Ek. unfold balanced.
  cbn [fst snd cursor known stats].
  destruct (Z.ltb_spec 0 (0 + k)); cbn; (split; [lia|split; [lia|]]);
    destruct (_ || _); rewrite ?andb_true_r, ?andb_false_r; try done;
    destruct (Z.ltb_spec (cursor c) (Seq msg)); lia.
Qed.

(** The sequence numbers of the frames that are acknowledged. *)
Fixpoint accepted_seqs (c : Consumer) (frames : list (batch_env * LabelMessage)) : list Z :=
  match frames with
  | [] => []
  | (env, msg) :: rest =>
      (if accepts env c msg then [Seq msg] else []) ++
      accepted_seqs (handleLabelMessage env c msg).1 rest
  end.

Lemma processEvents_counts frames : forall c, balanced (stats c) ->
  balanced (stats (processEvents c frames).1) /\
  EventsReceived (stats (processEvents c frames).1)
    = EventsReceived (stats c) + Z.of_nat (length frames) /\
  cursor (processEvents c frames).1 = foldl Z.max (cursor c) (accepted_seqs c frames).
Proof.
  induction frames as [|[env msg] frames IH]; intros c Hb; cbn [processEvents accepted_seqs].
  - split_and!; [done|cbn; lia|done].
  - destruct (handleLabelMessage_counts env c msg Hb) as (Hb1 & He1 & Hc1).
    destruct (handleLabelMessage env c msg) as [c1 es]. cbn [fst] in *.
    destruct (IH c1 Hb1) as (Hb2 & He2 & Hc2). destruct (processEvents c1 frames) as [c2 es'].
    cbn [fst] in *. split; [done|]. split; [cbn [length]; lia|].
    rewrite Hc2, Hc1, foldl_app. by destruct (accepts env c msg).
Qed.

(** After any sequence of frames, whatever the database and the context did,
    every label received was either persisted or rejected, account-level ones
    are among the rejected, every frame was counted, and the cursor is the
    greatest sequence number of an acknowledged frame (one that was empty or of
    which something was stored): it never goes back and never counts a frame
    that was lost whole. *)
Theorem frames_accounted frames :
  balanced (stats (processEvents NewConsumer frames).1) /\
  EventsReceived (stats (processEvents NewConsumer frames).1) = Z.of_nat (length frames) /\
  cursor (processEvents NewConsumer frames).1 = foldl Z.max 0 (accepted_seqs NewConsumer frames).
Proof.
  destruct (processEvents_counts frames NewConsumer) as (Hb & He & Hc); [by vm_compute|].
  split; [exact Hb|]. split; [exact He|exact Hc].
Qed.

(** ** The memo of definitions *)

Record memo_inv (m : memo) : Prop := {
  memo_nodup : NoDup (knownValsOrder m);
  memo_set : forall k, k ∈ knownVals m <-> k ∈ knownValsOrder m;
  memo_bound : Z.of_nat (length (knownValsOrder m)) <= MaxKnownVals
}.

Lemma memo_size m : memo_inv m -> size (knownVals m) = length (knownValsOrder m).
Proof.
  intros Hi. assert (knownVals m = list_to_set (knownValsOrder m)) as ->.
  { apply set_eq. intros k. rewrite elem_of_list_to_set. apply Hi. }
  apply size_list_to_set, Hi.
Qed.

Lemma remember_inv m key : memo_inv m -> memo_inv (remember m key).
Proof.
  intros Hi. pose proof (memo_size m Hi) as Hsz. destruct Hi as [Hnd Hset Hb]. unfold remember.
  case_bool_decide as Hk; [by split|].
  assert (key ∉ knownValsOrder m) as Hk' by (by rewrite <-Hset).
  assert (memo_inv {| knownVals := {[ key ]} ∪ knownVals m; knownValsOrder := knownValsOrder m ++ [key] |}
          \/ MaxKnownVals <= Z.of_nat (size (knownVals m))) as Hroom.
  { destruct (Z.le_gt_cases MaxKnownVals (Z.of_nat (size (knownVals m)))); [by right|left].
    split; cbn [knownVals knownValsOrder].
    - apply NoDup_app. split; [done|]. split; [|apply NoDup_singleton].
      intros x Hx ->%list_elem_of_singleton. done.
    - intros k. rewrite elem_of_app, list_elem_of_singleton, elem_of_union, elem_of_singleton, Hset. tauto.
    - rewrite length_app. cbn [length]. lia. }
  destruct (knownValsOrder m) as [|oldest rest] eqn:Eo.
  { destruct Hroom as [Hr|Hr]; [by rewrite Eo|]. cbn in Hsz. unfold MaxKnownVals in Hr. lia. }
  destruct (Z.leb_spec MaxKnownVals (Z.of_nat (size (knownVals m)))) as [Hfull|Hfree].
  - cbn [knownVals knownValsOrder]. apply NoDup_cons in Hnd as [Hold Hnd].
    apply not_elem_of_cons in Hk' as [Hko Hkr]. split; cbn [knownVals knownValsOrder].
    + apply NoDup_app. split; [done|]. split; [|apply NoDup_singleton].
      intros x Hx ->%list_elem_of_singleton. done.
    + intros k. rewrite elem_of_app, list_elem_of_singleton, elem_of_union, elem_of_difference,
        !elem_of_singleton, Hset, elem_of_cons. destruct (decide (k = oldest)) as [->|]; tauto.
    + rewrite length_app. cbn [length] in *. lia.
  - destruct Hroom as [Hr|]; [|lia]. by rewrite Eo.
Qed.

Lemma remember_elem m key k : memo_inv m -> k ∈ knownVals (remember m key) -> k ∈ knownVals m \/ k = key.
Proof.
  intros _. unfold remember. case_bool_decide; [by left|]. cbn [knownVals].
  destruct (knownValsOrder m) as [|o r]; [set_solver|]. case_match; cbn; set_solver.
Qed.

(** ** Keys of the memo *)

Definition has_nul (s : string) : bool := negb (all_bytes (fun b => negb (b =? 0)) s).

Lemma cacheKey_inj src val src' val' : has_nul src = false -> has_nul val = false ->
  cacheKey src val = cacheKey src' val' -> src = src' /\ val = val'.
Proof.
  unfold cacheKey, has_nul. revert src'. induction src as [|c src IH]; intros src' Hs Hv.
  - destruct src' as [|d src']; [by intros [= ->]|].
    rewrite app_cons_str. intros [= <- Heq]. exfalso.
    change ("" +:+ val) with val in Heq. rewrite Heq, all_bytes_app in Hv. cbn in Hv.
    by rewrite andb_false_r in Hv.
  - cbn in Hs. rewrite negb_andb in Hs. apply orb_false_iff in Hs as [Hc Hs].
    destruct src' as [|d src']; rewrite ?app_cons_str.
    + intros [= -> _]. done.
    + intros [= -> Heq]. destruct (IH src' Hs Hv Heq) as [-> ->]. done.
Qed.

(** ** Every row has its definition *)

(** The database refuses text with a NUL byte (PostgreSQL's text type). *)
Definition refuses_nul (env : batch_env) (labels : list protoLabel) : Prop :=
  forall i l, labels !! i = Some l -> has_nul (Src l) || has_nul (Val l) = true -> def_fails env i = true.

Definition fits (src uri val : string) : bool :=
  negb (MaxLabelSrcLen <? glen src) && has_prefix uri "at://" && negb (MaxLabelURILen <? glen uri)
  && negb (MaxLabelValLen <? glen val).

(** Each row is of a label that fits, and is written after a definition of its
    labeler and value was; [seen] are the definitions written before. *)
Fixpoint guarded (seen : list (string * string)) (es : list effect) : Prop :=
  match es with
  | [] => True
  | EDefinition s v ok :: rest => guarded (if ok then (s, v) :: seen else seen) rest
  | ENegation s u v _ _ :: rest | ELabel s u _ v _ _ _ :: rest =>
      (s, v) ∈ seen /\ fits s u v = true /\ guarded seen rest
  end.

Definition defined (es : list effect) : list (string * string) :=
  omap (fun e => match e with EDefinition s v true => Some (s, v) | _ => None end) es.

(** What the memo remembers was written. *)
Definition memo_ok (seen : list (string * string)) (m : memo) : Prop :=
  memo_inv m /\ forall k, k ∈ knownVals m -> exists s v,
    (s, v) ∈ seen /\ has_nul s = false /\ has_nul v = false /\ k = cacheKey s v.

Lemma guarded_mono es : forall seen seen', (forall x, x ∈ seen -> x ∈ seen') -> guarded seen es -> guarded seen' es.
Proof.
  induction es as [|e es IH]; intros seen seen' Hsub; [done|].
  destruct e as [s v []|? ? ? ? ?|? ? ? ? ? ? ?]; cbn; try naive_solver.
  apply IH. intros x [->|Hx]%elem_of_cons; [left|right; auto].
Qed.

Lemma guarded_app es es' : forall seen, guarded seen es ->
  (forall seen', (forall x, x ∈ seen \/ x ∈ defined es -> x ∈ seen') -> guarded seen' es') ->
  guarded seen (es ++ es').
Proof.
  induction es as [|e es IH]; intros seen Hg Hg'; cbn [app].
  - apply Hg'. intros x [?|?%elem_of_nil]; done.
  - destruct e as [s v []|? ? ? ? ?|? ? ? ? ? ? ?]; cbn [guarded] in *.
    + apply IH; [done|]. intros seen' Hs. apply Hg'. intros x [Hx|Hx]; [apply Hs; left; by right|].
      cbn in Hx. apply elem_of_cons in Hx as [->|Hx]; [apply Hs; left; left|apply Hs; by right].
    + apply IH; [done|]. intros seen' Hs. apply Hg'. intros x [Hx|Hx]; apply Hs; auto.
    + destruct Hg as (? & ? & Hg). split_and!; [done..|]. apply IH; [done|].
      intros seen' Hs. apply Hg'. intros x [Hx|Hx]; apply Hs; auto.
    + destruct Hg as (? & ? & Hg). split_and!; [done..|]. apply IH; [done|].
      intros seen' Hs. apply Hg'. intros x [Hx|Hx]; apply Hs; auto.
Qed.

Lemma defined_app es es' : defined (es ++ es') = defined es ++ defined es'.
Proof. unfold defined. apply omap_app. Qed.

Lemma validateLabel_fits l : validateLabel l = true -> fits (Src l) (URI l) (Val l) = true.
Proof.
  unfold validateLabel, fits. destruct (_ || _ || _); [done|].
  destruct (MaxLabelSrcLen <? glen (Src l)); [done|]. destruct (has_prefix (URI l) "at://"); [|done].
  cbn [negb orb]. destruct (_ <=? _); [done|]. destruct (MaxLabelURILen <? glen (URI l)); [done|].
  destruct (_ && _); [done|]. by intros ->.
Qed.

(** The calls made so far are guarded and account for the memo. *)
Definition loop_ok (seen : list (string * string)) (s : loop) : Prop :=
  guarded seen (calls s) /\ memo_ok (seen ++ defined (calls s)) (l_memo s).

Lemma memo_ok_mono seen seen' m : (forall x, x ∈ seen -> x ∈ seen') -> memo_ok seen m -> memo_ok seen' m.
Proof. intros Hs [Hi Hm]. split; [done|]. intros k (s & v & ? & ?)%Hm. exists s, v. auto. Qed.

Lemma put_label_guarded l ok seen : (Src l, Val l) ∈ seen -> validateLabel l = true ->
  guarded seen [put_label l ok].
Proof.
  intros Hin Hv. apply validateLabel_fits in Hv. unfold put_label. by destruct (Neg l).
Qed.

Lemma put_label_defined l ok : defined [put_label l ok] = [].
Proof. unfold put_label. by destruct (Neg l). Qed.

Lemma ensureDefinition_ok fails m l seen m' es ok :
  memo_ok seen m -> (has_nul (Src l) || has_nul (Val l) = true -> fails = true) ->
  ensureDefinition fails m (Src l) (Val l) = (m', es, ok) ->
  (forall seen', guarded seen' es) /\ memo_ok (seen ++ defined es) m' /\
  (ok = true -> (Src l, Val l) ∈ seen ++ defined es).
Proof.
  intros [Hi Hm] Hnul. unfold ensureDefinition. case_bool_decide as Hk.
  - intros [= <- <- <-]. split; [done|]. cbn. rewrite app_nil_r. split; [by split|]. intros _.
    destruct (Hm _ Hk) as (s & v & Hin & Hs & Hv & Heq).
    by destruct (cacheKey_inj _ _ _ _ Hs Hv (eq_sym Heq)) as [<- <-].
  - destruct fails; intros [= <- <- <-]; (split; [done|]); cbn.
    + rewrite app_nil_r. by split.
    + split; [|intros _; apply elem_of_app; right; left]. split; [by apply remember_inv|].
      intros k [Hin|Hin]%remember_elem; [|subst k|done].
      * destruct (Hm _ Hin) as (s & v & ? & ?). exists s, v. split; [apply elem_of_app; by left|done].
      * exists (Src l), (Val l). split; [apply elem_of_app; right; left|].
        destruct (has_nul (Src l)), (has_nul (Val l)); try (exfalso; by discriminate Hnul); done.
Qed.

Lemma upsert_one_ok env i l s seen : (has_nul (Src l) || has_nul (Val l) = true -> def_fails env i = true) ->
  loop_ok seen s -> loop_ok seen (upsert_one env i l s).
Proof.
  intros Hnul [Hg Hm]. unfold upsert_one. destruct (ctx_err env i); [by split|].
  destruct (validateLabel l) eqn:Hv; cbn [negb]; [|by split].
  destruct (ensureDefinition _ _ _ _) as [[m es] ok] eqn:He.
  destruct (ensureDefinition_ok _ _ _ _ _ _ _ Hm Hnul He) as (Hges & Hm' & Hin).
  destruct ok; cbn [negb]; split; cbn [calls l_memo].
  - apply guarded_app; [done|]. intros seen' Hs. apply guarded_app; [done|]. intros seen2 Hs2.
    apply put_label_guarded; [|done]. specialize (Hin eq_refl).
    rewrite !elem_of_app in Hin. destruct Hin as [[?|?]|?]; auto.
  - rewrite !defined_app, put_label_defined, app_nil_r. by rewrite app_assoc.
  - apply guarded_app; [done|]. auto.
  - rewrite defined_app. by rewrite app_assoc.
Qed.

Lemma upsert_loop_ok env labels : forall i s seen,
  (forall j l, labels !! j = Some l -> has_nul (Src l) || has_nul (Val l) = true ->
     def_fails env (i + j) = true) ->
  loop_ok seen s -> loop_ok seen (upsert_loop env i labels s).
Proof.
  induction labels as [|l labels IH]; intros i s seen Hn Hs; [done|]. cbn [upsert_loop].
  apply IH.
  - intros j l' Hl. replace (S i + j)%nat with (i + S j)%nat by lia. by apply Hn.
  - apply upsert_one_ok; [|done]. intros Hnul. specialize (Hn 0%nat l eq_refl Hnul).
    by rewrite Nat.add_0_r in Hn.
Qed.

Lemma handleLabelMessage_ok env c msg seen : refuses_nul env (Labels msg) -> memo_ok seen (known c) ->
  guarded seen (handleLabelMessage env c msg).2 /\
  memo_ok (seen ++ defined (handleLabelMessage env c msg).2) (known (handleLabelMessage env c msg).1).
Proof.
  intros Hn Hm. unfold handleLabelMessage, upsertLabels. cbn [fst snd known].
  apply (upsert_loop_ok env (Labels msg) 0 _ seen); [exact Hn|].
  split; cbn; [done|]. by rewrite app_nil_r.
Qed.

Lemma processEvents_ok frames : forall c seen,
  Forall (fun f => refuses_nul f.1 (Labels f.2)) frames -> memo_ok seen (known c) ->
  guarded seen (processEvents c frames).2 /\
  memo_ok (seen ++ defined (processEvents c frames).2) (known (processEvents c frames).1).
Proof.
  induction frames as [|[env msg] frames IH]; intros c seen Hf Hm; cbn [processEvents].
  - cbn. by rewrite app_nil_r.
  - apply Forall_cons in Hf as [Hn Hf]. destruct (handleLabelMessage_ok env c msg seen Hn Hm) as [Hg1 Hm1].
    destruct (handleLabelMessage env c msg) as [c1 es]. cbn [fst snd] in *.
    destruct (IH c1 (seen ++ defined es) Hf Hm1) as [Hg2 Hm2].
    destruct (processEvents c1 frames) as [c2 es']. cbn [fst snd] in *. split.
    + apply guarded_app; [done|]. intros seen' Hs. eapply guarded_mono; [|exact Hg2].
      intros x [?|?]%elem_of_app; auto.
    + by rewrite defined_app, app_assoc.
Qed.

(** On a database that refuses NUL bytes, every label row (or negation) the
    consumer writes is within the length limits and of a record URI, and comes
    after a successful write of the definition of its labeler and value; the memo
    that saves repeated definitions remembers only definitions that were written,
    never more than 10,000, and each once. *)
Theorem labels_have_definitions frames :
  Forall (fun f => refuses_nul f.1 (Labels f.2)) frames ->
  guarded [] (processEvents NewConsumer frames).2 /\
  memo_ok (defined (processEvents NewConsumer frames).2) (known (processEvents NewConsumer frames).1).
Proof.
  intros Hf. apply (processEvents_ok frames NewConsumer []); [done|].
  split; [split|]; cbn; [constructor|set_solver|done|set_solver].
Qed.
End WithTimes.

Module Example_labels.
#[local] Instance no_times : TimeParser := {| parse_RFC3339Nano := fun _ => None; parse_RFC3339 := fun _ => None |}.
Definition label (uri : string) : protoLabel :=
  {| Src := "did:plc:lab"; URI := uri; CID := ""; Val := "spam"; Neg := false; Cts := ""; Exp := "" |}.
Definition env (db_down : bool) : batch_env :=
  {| ctx_err := fun _ => false; def_fails := fun _ => db_down; put_fails := fun _ => db_down |}.
Definition frames : list (batch_env * LabelMessage) :=
  [(env false, {| Seq := 4; Labels := [label "at://a/b/c"; label "at://a/b/d"] |});
   (env true, {| Seq := 5; Labels := [label "at://a/b/lost"] |});
   (env false, {| Seq := 6; Labels := [label "at://a/b/e"; label "did:plc:x"] |})].
End Example_labels.
Import Example_labels.
#[local] Existing Instance no_times.

Lemma labels_have_definitions_witness :
  guarded [] (processEvents NewConsumer frames).2 /\
  memo_ok (defined (processEvents NewConsumer frames).2) (known (processEvents NewConsumer frames).1).
Proof.
  apply (labels_have_definitions frames).
  repeat constructor; cbn; intros [|[|[|]]] l Hl; try discriminate Hl; injection Hl as <-; cbn; discriminate.
Defined.

(** The frame 5, lost whole while the database was down, is passed over by the
    cursor as soon as frame 6 is stored. *)
Example lost_frame_passed : cursor (processEvents NewConsumer frames).1 = 6.
Proof. by vm_compute. Qed.
