(* ===== verification/ConfigStore.v ===== *)
(** [internal/database/repositories/config.go]: the key-value configuration
    table, the list of administrators kept in it, and the defaults. The table is
    a map; a write that the database refuses is an error. *)
From S2P Require Import Prelude GoStrings Utf8 AtProto.

Abbreviation store := (gmap string string).

Definition DefaultRelayURL : string := "https://relay1.us-west.bsky.network".
Definition DefaultPLCDirectoryURL : string := "https://plc.directory".
Definition DefaultJetstreamURL : string := "wss://jetstream2.us-west.bsky.network/subscribe".
Definition DefaultOAuthSupportedScopes : string := "atproto transition:generic".

Inductive db_error := ENotFound (key : string) | EDatabase.

Definition Get (s : store) (key : string) : result db_error string :=
  match s !! key with Some v => Ok v | None => Err (ENotFound key) end.

Inductive RemoveAdminError := RemoveAdminLastAdmin | RemoveAdminNotFound | RemoveAdminDatabaseError.

(** [up] tells whether the database takes writes. *)
Section Writes.
Context (up : bool).

Definition Set_ (s : store) (key value : string) : result db_error store :=
  if up then Ok (<[key := value]> s) else Err EDatabase.

Definition Delete (s : store) (key : string) : result db_error store :=
  if up then Ok (delete key s) else Err EDatabase.

Definition DeleteDomainAuthority (s : store) : result db_error store := Delete s "domain_authority".

(** ** Administrators *)

(** The non-empty trimmed pieces of a list. *)
Definition trimmed_pieces (value sep : string) : list string :=
  List.filter (fun t => negb (is_empty t)) (TrimSpace <$> split value sep).

Definition GetAdminDIDs (s : store) : list string :=
  match Get s "admin_dids" with Err _ => [] | Ok value => trimmed_pieces value "," end.

Definition SetAdminDIDs (s : store) (dids : list string) : result db_error store :=
  Set_ s "admin_dids" (join dids ",").

Definition AddAdminDID (s : store) (did : string) : result db_error store :=
  let current := GetAdminDIDs s in
  if existsb (fun existing => String.eqb existing did) current then Ok s
  else Set_ s "admin_dids" (join (current ++ [did]) ",").

Definition RemoveAdminDID (s : store) (did : string) : result RemoveAdminError (store * list string) :=
  let current := GetAdminDIDs s in
  let found := existsb (fun d => String.eqb d did) current in
  let newList := List.filter (fun d => negb (String.eqb d did)) current in
  if negb found then Err RemoveAdminNotFound
  else match newList with
       | [] => Err RemoveAdminLastAdmin
       | _ => match Set_ s "admin_dids" (join newList ",") with
              | Err _ => Err RemoveAdminDatabaseError
              | Ok s' => Ok (s', newList)
              end
       end.

Definition IsAdmin (s : store) (did : string) : bool :=
  existsb (fun admin => String.eqb admin did) (GetAdminDIDs s).

Definition HasAdmins (s : store) : bool := Nat.ltb 0 (length (GetAdminDIDs s)).

(** ** Service settings *)

Definition get_or (s : store) (key fallback : string) : string :=
  match Get s key with Ok v => v | Err _ => fallback end.
Definition GetRelayURL (s : store) : string := get_or s "relay_url" DefaultRelayURL.
Definition GetJetstreamURL (s : store) : string := get_or s "jetstream_url" DefaultJetstreamURL.
Definition GetOAuthSupportedScopes (s : store) : string :=
  get_or s "oauth_supported_scopes" DefaultOAuthSupportedScopes.
Definition GetOAuthSupportedScopesList (s : store) : list string :=
  trimmed_pieces (GetOAuthSupportedScopes s) " ".
Definition SetRelayURL (s : store) (url : string) := Set_ s "relay_url" url.
Definition SetPLCDirectoryURL (s : store) (url : string) := Set_ s "plc_directory_url" url.
Definition SetJetstreamURL (s : store) (url : string) := Set_ s "jetstream_url" url.
Definition SetOAuthSupportedScopes (s : store) (scopes : string) := Set_ s "oauth_supported_scopes" scopes.

Definition defaults : list (string * string) :=
  [("relay_url", DefaultRelayURL); ("plc_directory_url", DefaultPLCDirectoryURL);
   ("jetstream_url", DefaultJetstreamURL); ("oauth_supported_scopes", DefaultOAuthSupportedScopes)].

(** The loop over the map of defaults, in any order. *)
Fixpoint init_defaults (l : list (string * string)) (s : store) : result db_error store :=
  match l with
  | [] => Ok s
  | (key, v) :: rest =>
      match Get s key with
      | Ok _ => init_defaults rest s
      | Err _ => s' ← Set_ s key v; init_defaults rest s'
      end
  end.
Definition InitializeDefaults (s : store) : result db_error store := init_defaults defaults s.
End Writes.

(** ** The list of administrators *)

Lemma valid_did_plain d : Did.IsValid d = true ->
  lacks "," d = true /\ TrimSpace d = d /\ is_empty d = false.
Proof.
  intros Hv. pose proof (Did.valid_did_id_bytes d Hv) as Hb. split_and!.
  - unfold lacks. eapply all_bytes_impl; [|exact Hb]. intros z.
    change (zb ",") with 44%Z. unfold Did.is_id_byte, Did.is_lower, Did.is_upper, Did.is_digit. lia.
  - apply TrimSpace_graphic. unfold graphic. eapply all_bytes_impl; [|exact Hb]. intros z.
    unfold Did.is_id_byte, Did.is_lower, Did.is_upper, Did.is_digit, in_range. lia.
  - by destruct d.
Qed.

Lemma map_trim_plain l : Forall (fun d => Did.IsValid d = true) l ->
  List.filter (fun t => negb (is_empty t)) (TrimSpace <$> l) = l.
Proof.
  induction 1 as [|d l Hd Hl IH]; [done|]. destruct (valid_did_plain d Hd) as (_ & Ht & He).
  cbn. rewrite Ht, He. cbn [negb]. f_equal. exact IH.
Qed.

(** What is written is what is read. *)
Lemma admins_written s dids : Forall (fun d => Did.IsValid d = true) dids ->
  GetAdminDIDs (<["admin_dids" := join dids ","]> s) = dids.
Proof.
  intros Hv. unfold GetAdminDIDs, Get. rewrite lookup_insert_eq. unfold trimmed_pieces.
  destruct dids as [|d l]; [by vm_compute|]. rewrite split_join; [by apply map_trim_plain|done|].
  eapply Forall_impl; [exact Hv|]. intros x Hx. by apply valid_did_plain.
Qed.

Lemma IsAdmin_spec s did : IsAdmin s did = true <-> did ∈ GetAdminDIDs s.
Proof.
  unfold IsAdmin. rewrite existsb_elem_of. split.
  - intros (x & Hx & ->%String.eqb_eq). done.
  - intros Hx. exists did. split; [done|apply String.eqb_refl].
Qed.

Lemma remove_filter_valid l did : Forall (fun d => Did.IsValid d = true) l ->
  Forall (fun d => Did.IsValid d = true) (List.filter (fun d => negb (String.eqb d did)) l).
Proof.
  induction 1 as [|d l Hd Hl IH]; cbn; [constructor|]. destruct (negb _); [by constructor|done].
Qed.

(** On a table whose administrators are valid DIDs, adding a valid DID makes
    it an administrator and changes nobody else; removing one takes exactly that
    one away, and is refused when it is not listed or is the only one: the list
    can never be emptied by removals, and stays one of valid DIDs. *)
Theorem admin_list_sound s did :
  Forall (fun d => Did.IsValid d = true) (GetAdminDIDs s) -> Did.IsValid did = true ->
  (exists s', AddAdminDID true s did = Ok s' /\ Forall (fun d => Did.IsValid d = true) (GetAdminDIDs s') /\
     forall d, IsAdmin s' d = true <-> IsAdmin s d = true \/ d = did) /\
  match RemoveAdminDID true s did with
  | Ok (s', l) => IsAdmin s did = true /\ HasAdmins s' = true /\ GetAdminDIDs s' = l /\
                  Forall (fun d => Did.IsValid d = true) l /\
                  forall d, IsAdmin s' d = true <-> IsAdmin s d = true /\ d <> did
  | Err RemoveAdminNotFound => IsAdmin s did = false
  | Err RemoveAdminLastAdmin => forall d, IsAdmin s d = true <-> d = did
  | Err RemoveAdminDatabaseError => False
  end.
Proof.
  intros Hv Hd. split.
  - unfold AddAdminDID. destruct (existsb _ _) eqn:E.
    + exists s. split; [done|]. split; [done|]. intros d. split; [by left|].
      intros [?| ->]; [done|exact E].
    + eexists. split; [reflexivity|].
      assert (Forall (fun d => Did.IsValid d = true) (GetAdminDIDs s ++ [did])) as Hv'
        by (apply Forall_app; split; [done|by constructor]).
      rewrite admins_written by done. split; [done|]. intros d.
      rewrite !IsAdmin_spec, admins_written by done. rewrite elem_of_app, list_elem_of_singleton. done.
  - unfold RemoveAdminDID. destruct (existsb _ _) eqn:E; cbn [negb]; [|exact E].
    pose proof (remove_filter_valid _ did Hv) as Hf.
    assert (forall d, d ∈ List.filter (fun d => negb (String.eqb d did)) (GetAdminDIDs s) <->
                      IsAdmin s d = true /\ d <> did) as Hin.
    { intros d. rewrite IsAdmin_spec, list_elem_of_In, filter_In, <-list_elem_of_In.
      rewrite negb_true_iff, String.eqb_neq. done. }
    destruct (List.filter _ _) as [|x l] eqn:El.
    + intros d. split.
      * intros Ha. destruct (decide (d = did)) as [|Hne]; [done|].
        exfalso. eapply not_elem_of_nil. by apply Hin.
      * intros ->. exact E.
    + cbn [Set_]. rewrite <-El in *. split; [exact E|]. unfold HasAdmins.
      rewrite admins_written by done. split; [by rewrite El|]. split; [done|]. split; [done|].
      intros d. rewrite IsAdmin_spec, admins_written by done. apply Hin.
Qed.

Definition sample_store : store := {[ "admin_dids" := "did:plc:aaa, did:plc:bbb" ]}.

Lemma admin_list_sound_witness :
  (exists s', AddAdminDID true sample_store "did:plc:ccc" = Ok s' /\
     Forall (fun d => Did.IsValid d = true) (GetAdminDIDs s') /\
     forall d, IsAdmin s' d = true <-> IsAdmin sample_store d = true \/ d = "did:plc:ccc") /\
  match RemoveAdminDID true sample_store "did:plc:ccc" with
  | Ok (s', l) => IsAdmin sample_store "did:plc:ccc" = true /\ HasAdmins s' = true /\
                  GetAdminDIDs s' = l /\ Forall (fun d => Did.IsValid d = true) l /\
                  forall d, IsAdmin s' d = true <-> IsAdmin sample_store d = true /\ d <> "did:plc:ccc"
  | Err RemoveAdminNotFound => IsAdmin sample_store "did:plc:ccc" = false
  | Err RemoveAdminLastAdmin => forall d, IsAdmin sample_store d = true <-> d = "did:plc:ccc"
  | Err RemoveAdminDatabaseError => False
  end.
Proof.
  apply (admin_list_sound sample_store "did:plc:ccc"); [|by vm_compute].
  replace (GetAdminDIDs sample_store) with ["did:plc:aaa"; "did:plc:bbb"] by by vm_compute.
  repeat constructor.
Defined.
