(* ===== verification/Backfill.v ===== *)
(** The cursors of [internal/labeler/consumer.go] kept in the configuration
    table, the paging loop of [internal/labeler/backfill.go] and the backfill
    that resumes from its checkpoint. The server is a function from a page
    cursor to a page or an error. *)
From S2P Require Import Prelude GoStrings ConfigStore Labeler.

Local Open Scope Z_scope.

(** ** Cursors in the configuration table *)

Section Cursors.
Context (labelerDID : string).

Definition cursorKey : string := "labeler_cursor:" +:+ labelerDID.
Definition backfillCursorKey : string := "labeler_backfill_cursor:" +:+ labelerDID.

(** [None] is any of the errors: no row, or a value that does not parse. *)
Definition loadCursor (s : store) : option Z :=
  match Get s cursorKey with
  | Err _ => None
  | Ok value => if is_empty value then Some 0 else ParseInt value
  end.

Definition saveCursor (up : bool) (s : store) (cursor : Z) : result db_error store :=
  Set_ up s cursorKey (itoa cursor).

Definition clearCursor (up : bool) (s : store) : result db_error store := Delete up s cursorKey.

(** [finalFlush]: a cursor that is not positive is not written, and an error is
    only logged. *)
Definition finalFlush (up : bool) (s : store) (cursor : Z) : store :=
  if cursor <=? 0 then s
  else match saveCursor up s cursor with Ok s' => s' | Err _ => s end.

(** One tick of [cursorFlusher]: the table and the last cursor flushed. *)
Definition flush_tick (up : bool) (s : store) (cursor lastFlushed : Z) : store * Z :=
  if lastFlushed <? cursor then
    match saveCursor up s cursor with Ok s' => (s', cursor) | Err _ => (s, lastFlushed) end
  else (s, lastFlushed).

Definition loadBackfillCursor (s : store) : string :=
  match Get s backfillCursorKey with Ok v => v | Err _ => "" end.
Definition saveBackfillCursor (up : bool) (s : store) (cursor : string) : store :=
  match Set_ up s backfillCursorKey cursor with Ok s' => s' | Err _ => s end.
Definition clearBackfillCursor (up : bool) (s : store) : store :=
  match Delete up s backfillCursorKey with Ok s' => s' | Err _ => s end.

(** ** Paging *)

Definition page : Type := list protoLabel * string.
Inductive fetch_error := EPage (e : string) | ETooManyPages.

(** [Fetch]; [fuel] is the number of pages still allowed. *)
Fixpoint Fetch_go {S} (fuel : nat) (server : string -> result string page)
    (handle : S -> page -> S) (cursor : string) (s : S) : S * result fetch_error unit :=
  match fuel with
  | O => (s, Err ETooManyPages)
  | S f =>
      match server cursor with
      | Err e => (s, Err (EPage e))
      | Ok p =>
          let s' := handle s p in
          if is_empty p.2 || String.eqb p.2 cursor then (s', Ok ())
          else Fetch_go f server handle p.2 s'
      end
  end.
Definition Fetch {S} := @Fetch_go S (Z.to_nat MaxBackfillPages).

(** ** Backfill *)

Record backfill := {
  b_consumer : Consumer; b_store : store; total : Z; totalRejected : Z; pagesSinceCheckpoint : Z;
  b_calls : list effect
}.

Section WithTimes.
Context `{TimeParser}.

(** What a page meets: the environment of its labels, and whether the
    checkpoint can be written. *)
Definition page_env : Type := batch_env * bool.

(** The page handler of [runBackfill]; [envs] gives the environment of a page by
    its cursor. *)
Definition handle_page (env : page -> page_env) (b : backfill) (p : page) : backfill :=
  let '(c, es, rej) := upsertLabels (env p).1 (b_consumer b) p.1 in
  let n := Z.of_nat (length p.1) in
  let st := stats c in
  let c' := {| cursor := cursor c; known := known c;
               stats := {| EventsReceived := EventsReceived st;
                           LabelsReceived := LabelsReceived st + n;
                           LabelsPersisted := LabelsPersisted st + (n - rej);
                           LabelsRejected := LabelsRejected st + rej;
                           AccountLevelSkipped := AccountLevelSkipped st;
                           ReconnectAttempts := ReconnectAttempts st;
                           OutdatedCursors := OutdatedCursors st; LastSeq := LastSeq st |} |} in
  let since := pagesSinceCheckpoint b + 1 in
  let save := negb (is_empty p.2) && (BackfillCheckpointInterval <=? since) in
  {| b_consumer := c';
     b_store := if save then saveBackfillCursor (env p).2 (b_store b) p.2 else b_store b;
     total := total b + n; totalRejected := totalRejected b + rej;
     pagesSinceCheckpoint := if save then 0 else since;
     b_calls := b_calls b ++ es |}.

Definition started (c : Consumer) (s : store) : backfill :=
  {| b_consumer := c; b_store := s; total := 0; totalRejected := 0; pagesSinceCheckpoint := 0; b_calls := [] |}.

Definition runBackfill (disableCursor up : bool) (env : page -> page_env)
    (server : string -> result string page) (c : Consumer) (s : store)
  : Consumer * store * list effect * result fetch_error unit :=
  let '(b, r) := Fetch server (handle_page env) (loadBackfillCursor s) (started c s) in
  match r with
  | Err e => (b_consumer b, b_store b, b_calls b, Err e)
  | Ok _ =>
      let s1 := clearBackfillCursor up (b_store b) in
      let s2 := if (0 <? total b) && negb disableCursor
                then match saveCursor up s1 (-1) with Ok s' => s' | Err _ => s1 end
                else s1 in
      (b_consumer b, s2, b_calls b, Ok ())
  end.

Definition backfillIfNeeded (skipBackfill disableCursor up : bool) (env : page -> page_env)
    (server : string -> result string page) (c : Consumer) (s : store)
  : Consumer * store * list effect :=
  if skipBackfill || disableCursor then (c, s, [])
  else if negb (default 0 (loadCursor s) =? 0) then (c, s, [])
  else let '(c', s', es, _) := runBackfill disableCursor up env server c s in (c', s', es).
End WithTimes.

(** ** Cursor round trip *)

Lemma load_save up s s' n : in_int64 n -> saveCursor up s n = Ok s' -> loadCursor s' = Some n.
Proof.
  unfold saveCursor, Set_, loadCursor, Get. destruct up; [|done]. intros Hn [= <-].
  rewrite lookup_insert_eq. pose proof (ParseInt_itoa n Hn) as Hp.
  destruct (itoa n); [by vm_compute in Hp|]. exact Hp.
Qed.

(** A cursor that was saved is the cursor that is loaded, over the whole
    64-bit range; flushing never writes a cursor that is zero or negative; a tick of
    the flusher whose last flush is what is stored leaves the consumer's cursor
    stored; and the backfill checkpoint is left alone. *)
Theorem cursor_roundtrip s n m last : in_int64 n -> 
  loadCursor (<[cursorKey := itoa n]> s) = Some n /\
  (0 < n -> loadCursor (finalFlush true s n) = Some n) /\
  (n <= 0 -> finalFlush true s n = s) /\
  (loadCursor s = Some last -> last <= n ->
     exists k, loadCursor (flush_tick true s n last).1 = Some k /\ k = n /\ (flush_tick true s n last).2 = n) /\
  loadBackfillCursor (finalFlush true s m) = loadBackfillCursor s.
Proof.
  intros Hn. assert (saveCursor true s n = Ok (<[cursorKey := itoa n]> s)) as Hs by done.
  pose proof (load_save true s _ n Hn Hs) as Hl. split_and!.
  - exact Hl.
  - intros Hp. unfold finalFlush. destruct (Z.leb_spec n 0); [lia|]. by rewrite Hs.
  - intros Hp. unfold finalFlush. by destruct (Z.leb_spec n 0); [|lia].
  - intros Hlast Hle. unfold flush_tick. destruct (Z.ltb_spec last n).
    + rewrite Hs. by exists n.
    + assert (last = n) as -> by lia. by exists n.
  - unfold finalFlush, saveCursor, Set_, loadBackfillCursor, Get. destruct (m <=? 0); [done|].
    by rewrite lookup_insert_ne.
Qed.

(** ** Pages visited *)

(** The pages the loop hands to its handler, and how it ends. *)
Fixpoint visited (fuel : nat) (server : string -> result string page) (cursor : string) : list page :=
  match fuel with
  | O => []
  | S f => match server cursor with
           | Err _ => []
           | Ok p => p :: if is_empty p.2 || String.eqb p.2 cursor then [] else visited f server p.2
           end
  end.

Fixpoint fetch_outcome (fuel : nat) (server : string -> result string page) (cursor : string)
  : result fetch_error unit :=
  match fuel with
  | O => Err ETooManyPages
  | S f => match server cursor with
           | Err e => Err (EPage e)
           | Ok p => if is_empty p.2 || String.eqb p.2 cursor then Ok () else fetch_outcome f server p.2
           end
  end.

Lemma Fetch_go_spec {S} fuel server (handle : S -> page -> S) : forall cursor s,
  Fetch_go fuel server handle cursor s = (foldl handle s (visited fuel server cursor), fetch_outcome fuel server cursor).
Proof.
  induction fuel as [|f IH]; intros cursor s; cbn [Fetch_go visited fetch_outcome]; [done|].
  destruct (server cursor) as [p|e]; [|done]. cbn [foldl]. by destruct (_ || _).
Qed.

Definition last_cursor (start : string) (d : list page) : string :=
  match last d with Some p => p.2 | None => start end.

Lemma last_cursor_cons start p d : last_cursor start (p :: d) = last_cursor p.2 d.
Proof. unfold last_cursor. rewrite last_cons. by destruct (last d). Qed.

(** When the loop fails, each page it visited had a further one. *)
Lemma visited_continue fuel server : forall cursor e, fetch_outcome fuel server cursor = Err e ->
  Forall (fun p => is_empty p.2 = false) (visited fuel server cursor).
Proof.
  induction fuel as [|f IH]; intros cursor e; cbn [visited fetch_outcome]; [constructor|].
  destruct (server cursor) as [p|]; [|constructor]. destruct (_ || _) eqn:E; [done|]. intros Hf.
  apply orb_false_iff in E as [E _]. constructor; [done|]. by eapply IH.
Qed.

(** A server that answers at least what the first one did visits the same
    pages, and goes on from there. *)
Lemma visited_resume fuel server server' d : forall r cursor e f,
  fetch_outcome fuel server cursor = Err e -> visited fuel server cursor = d ++ r ->
  (forall c p, server c = Ok p -> server' c = Ok p) ->
  visited (length d + f) server' cursor = d ++ visited f server' (last_cursor cursor d).
Proof.
  revert fuel. induction d as [|p d IH]; intros fuel r cursor e f He Hv Hs; [done|].
  destruct fuel as [|fuel]; [done|]. cbn [visited fetch_outcome] in *.
  destruct (server cursor) as [q|] eqn:Eq; [|done]. destruct (_ || _) eqn:E; [done|].
  cbn [app] in Hv. injection Hv as -> Hv. cbn [length Nat.add visited]. rewrite (Hs _ _ Eq), E.
  cbn [app]. f_equal. rewrite last_cursor_cons. by eapply IH.
Qed.

Section WithTimes.
Context `{TimeParser}.

(** Where the checkpoint stands after some pages: at the end of those before the
    last few. *)
Definition checkpointed (start : string) (pages : list page) (b : backfill) (saves : Prop) : Prop :=
  exists d r, pages = d ++ r /\ loadBackfillCursor (b_store b) = last_cursor start d /\
    0 <= pagesSinceCheckpoint b /\
    (saves -> Z.of_nat (length r) = pagesSinceCheckpoint b /\ pagesSinceCheckpoint b < BackfillCheckpointInterval).

Lemma handle_page_checkpoint env start pages b p (saves : Prop) :
  is_empty p.2 = false -> (saves -> (env p).2 = true) -> checkpointed start pages b saves ->
  checkpointed start (pages ++ [p]) (handle_page env b p) saves.
Proof.
  intros Hp Hup (d & r & -> & Hc & H0 & Hs). unfold checkpointed, handle_page.
  destruct (upsertLabels _ _ _) as [[c es] rej]. cbn [b_store pagesSinceCheckpoint]. rewrite Hp. cbn [negb andb].
  destruct (Z.leb_spec BackfillCheckpointInterval (pagesSinceCheckpoint b + 1)) as [Hi|Hi].
  - destruct ((env p).2) eqn:Eu; cbn [saveBackfillCursor Set_].
    + exists (d ++ r ++ [p]), []. split; [by rewrite app_nil_r, !app_assoc|]. split.
      * unfold loadBackfillCursor, Get. rewrite lookup_insert_eq. unfold last_cursor.
        by rewrite app_assoc, last_snoc.
      * split; [lia|]. intros _. split; [done|]. unfold BackfillCheckpointInterval. lia.
    + exists d, (r ++ [p]). split; [by rewrite app_assoc|]. split; [exact Hc|]. split; [lia|].
      intros Hsv. specialize (Hup Hsv). congruence.
  - exists d, (r ++ [p]). split; [by rewrite app_assoc|]. split; [exact Hc|]. split; [lia|].
    intros Hsv. destruct (Hs Hsv) as [Hl _]. rewrite length_app. cbn [length]. lia.
Qed.

Lemma handle_pages_checkpoint env start (saves : Prop) pages : forall before b,
  Forall (fun p => is_empty p.2 = false) pages -> (saves -> forall p, (env p).2 = true) ->
  checkpointed start before b saves ->
  checkpointed start (before ++ pages) (foldl (handle_page env) b pages) saves.
Proof.
  induction pages as [|p pages IH]; intros before b Hp Hup Hc; [by rewrite app_nil_r|].
  apply Forall_cons in Hp as [Hp Hps]. cbn [foldl].
  replace (before ++ p :: pages) with ((before ++ [p]) ++ pages) by by rewrite <-app_assoc.
  apply IH; [done..|]. apply handle_page_checkpoint; auto.
Qed.

(** The live cursor is not touched by the pages. *)
Lemma pages_keep_cursor env pages : forall b,
  loadCursor (b_store (foldl (handle_page env) b pages)) = loadCursor (b_store b).
Proof.
  induction pages as [|p pages IH]; intros b; [done|]. cbn [foldl]. rewrite IH. unfold handle_page.
  destruct (upsertLabels _ _ _) as [[c es] rej]. cbn [b_store]. destruct (_ && _); [|done].
  destruct ((env p).2); [|done]. unfold saveBackfillCursor, loadCursor, Get. cbn. by rewrite lookup_insert_ne.
Qed.

(** The pages that a run handles, whatever becomes of it. *)
Definition pages_of (server : string -> result string page) (s : store) : list page :=
  visited (Z.to_nat MaxBackfillPages) server (loadBackfillCursor s).

Lemma backfillIfNeeded_handles up env server c s : default 0 (loadCursor s) = 0 ->
  let b := foldl (handle_page env) (started c s) (pages_of server s) in
  (backfillIfNeeded false false up env server c s).1.1 = b_consumer b /\
  (backfillIfNeeded false false up env server c s).2 = b_calls b.
Proof.
  intros H0 b. unfold backfillIfNeeded. rewrite H0. cbn [orb Z.eqb negb]. unfold runBackfill, Fetch, pages_of in *.
  rewrite Fetch_go_spec. by destruct (fetch_outcome _ _ _).
Qed.

(** C39: What an interrupted labeler backfill leaves. The pages it has handled are
    [d] and [r], where [d] ends at the checkpoint in the table, and when the
    checkpoints could be written [r] has fewer than four pages; the live cursor is
    as it was. Take any later table with that checkpoint. If the live cursor in it
    is missing or zero, a consumer that neither skips backfills nor has its cursor
    disabled does run the backfill: it handles the pages from the checkpoint on,
    and when the server answers at least the pages that it answered before, [d]
    and these are the pages of a run from where the interrupted one began, so none
    is missed. If the live stream has stored a cursor in the meantime, nothing is
    done, now or later: the pages after the checkpoint are never fetched. *)
Theorem backfill_resumes disableCursor up env server c s c' s' es e :
  runBackfill disableCursor up env server c s = (c', s', es, Err e) ->
  loadCursor s' = loadCursor s /\
  exists d r, pages_of server s = d ++ r /\ loadBackfillCursor s' = last_cursor (loadBackfillCursor s) d /\
    ((forall p, (env p).2 = true) -> Z.of_nat (length r) < BackfillCheckpointInterval) /\
    forall up1 env1 server1 c1 s1, loadBackfillCursor s1 = loadBackfillCursor s' ->
      (default 0 (loadCursor s1) = 0 ->
         let b := foldl (handle_page env1) (started c1 s1) (pages_of server1 s1) in
         (backfillIfNeeded false false up1 env1 server1 c1 s1).1.1 = b_consumer b /\
         (backfillIfNeeded false false up1 env1 server1 c1 s1).2 = b_calls b /\
         ((forall cur p, server cur = Ok p -> server1 cur = Ok p) ->
          visited (length d + Z.to_nat MaxBackfillPages) server1 (loadBackfillCursor s) = d ++ pages_of server1 s1)) /\
      (default 0 (loadCursor s1) <> 0 ->
         backfillIfNeeded false false up1 env1 server1 c1 s1 = (c1, s1, [])).
Proof.
  unfold runBackfill, Fetch. rewrite Fetch_go_spec. fold (pages_of server s).
  destruct (fetch_outcome _ _ _) as [[]|e'] eqn:Eo; [done|]. intros [= <- <- <- ->].
  split; [by rewrite pages_keep_cursor|].
  destruct (handle_pages_checkpoint env (loadBackfillCursor s) (forall p, (env p).2 = true)
              (pages_of server s) [] (started c s)) as (d & r & Hv & Hc & _ & Hs).
  - by eapply visited_continue.
  - done.
  - exists [], []. by split_and!.
  - cbn [app] in Hv. exists d, r. split; [done|]. split; [done|]. split.
    { intros Hup. specialize (Hs Hup). lia. }
    intros up1 env1 server1 c1 s1 H1. split.
    + intros H0. destruct (backfillIfNeeded_handles up1 env1 server1 c1 s1 H0) as [Hb Hes].
      split; [done|]. split; [done|]. intros Hagree. unfold pages_of. rewrite H1, Hc. by eapply visited_resume.
    + intros H0. unfold backfillIfNeeded. cbn [orb]. apply Z.eqb_neq in H0. by rewrite H0.
Qed.
End WithTimes.
End Cursors.

(** ** A concrete interruption *)

Module Example_backfill.
(** Seven pages; the first server loses its connection at page 6. *)
Definition server' (c : string) : result string page :=
  if String.eqb c "" then Ok ([], "1") else if String.eqb c "1" then Ok ([], "2")
  else if String.eqb c "2" then Ok ([], "3") else if String.eqb c "3" then Ok ([], "4")
  else if String.eqb c "4" then Ok ([], "5") else Ok ([], "").
Definition server (c : string) : result string page :=
  if String.eqb c "5" then Err "reset" else server' c.
Definition env : page -> page_env :=
  fun _ => ({| ctx_err := fun _ => false; def_fails := fun _ => false; put_fails := fun _ => false |}, true).
End Example_backfill.
Import Example_backfill.
#[local] Existing Instance Labeler.Example_labels.no_times.

Example checkpoint_at_4 :
  loadBackfillCursor "did:plc:lab" (runBackfill "did:plc:lab" false true env server NewConsumer ∅).1.1.2 = "4".
Proof. by vm_compute. Qed.

Definition interrupted : store := <["labeler_backfill_cursor:did:plc:lab" := "4"]> ∅.

Lemma backfill_resumes_witness :
  exists d r, pages_of "did:plc:lab" server ∅ = d ++ r /\ Z.of_nat (length r) < BackfillCheckpointInterval /\
    visited (length d + Z.to_nat MaxBackfillPages) server' (loadBackfillCursor "did:plc:lab" ∅)
      = d ++ pages_of "did:plc:lab" server' interrupted.
Proof.
  destruct (backfill_resumes "did:plc:lab" false true env server NewConsumer ∅ NewConsumer interrupted [] (EPage "reset"))
    as (_ & d & r & Hv & _ & Hr & Hnext); [vm_compute; reflexivity|].
  exists d, r. split; [exact Hv|]. split; [by apply Hr|].
  destruct (Hnext true env server' NewConsumer interrupted eq_refl) as [H0 _].
  destruct (H0 eq_refl) as (_ & _ & Hgo). apply Hgo. intros cur p. unfold server. by destruct (String.eqb cur "5").
Defined.

(** Once the live stream has stored a cursor, the rest is never fetched. *)
Example resumption_skipped : let s := finalFlush "did:plc:lab" true interrupted 17 in
  loadBackfillCursor "did:plc:lab" s = "4" /\
  backfillIfNeeded "did:plc:lab" false false true env server' NewConsumer s = (NewConsumer, s, []).
Proof.
  intros s. split; [vm_compute; reflexivity|]. unfold backfillIfNeeded.
  assert (loadCursor "did:plc:lab" s = Some 17) as -> by (vm_compute; reflexivity). reflexivity.
Qed.

Lemma cursor_roundtrip_witness :
  loadCursor "d" (<[cursorKey "d" := itoa (-1)]> ∅) = Some (-1) /\
  (0 < -1 -> loadCursor "d" (finalFlush "d" true ∅ (-1)) = Some (-1)) /\
  (-1 <= 0 -> finalFlush "d" true ∅ (-1) = ∅) /\
  (loadCursor "d" ∅ = Some 0 -> 0 <= -1 ->
     exists k, loadCursor "d" (flush_tick "d" true ∅ (-1) 0).1 = Some k /\ k = -1 /\
       (flush_tick "d" true ∅ (-1) 0).2 = -1) /\
  loadBackfillCursor "d" (finalFlush "d" true ∅ 7) = loadBackfillCursor "d" ∅.
Proof. apply (cursor_roundtrip "d" ∅ (-1) 7 0). unfold in_int64, int64_min, int64_max. lia. Defined.
