(* ===== verification/OAuth.v ===== *)
(** [internal/oauth]: the replay cache of token identifiers
    ([jti_replay.go]), the cache of DID documents ([did_cache.go]) and scope
    strings ([scopes.go]). Instants are integers; each operation of a cache runs
    under its lock and is one step. *)
From S2P Require Import Prelude GoStrings Utf8.

Local Open Scope Z_scope.

(** ** Replay cache *)

Module Jti.

Record jtiEntry := { key : string; expiresAt : Z }.

(** What [container/heap] promises of a heap ordered by expiry: Pop takes an
    entry of least expiry out, and gives one when there is any. The contents of
    the heap are a list. *)
Class MinHeap := {
  Pop : list jtiEntry -> option (jtiEntry * list jtiEntry);
  Pop_some : forall h, h <> [] -> is_Some (Pop h);
  Pop_min : forall h e h', Pop h = Some (e, h') ->
    h ≡ₚ e :: h' /\ forall x, x ∈ h -> expiresAt e <= expiresAt x
}.

Record jtiReplayCache := { entries : gmap string Z; heap : list jtiEntry; capacity : Z }.

(** [newJTIReplayCache] panics ([None]) on a capacity that is not positive. *)
Definition newJTIReplayCache (cap : Z) : option jtiReplayCache :=
  if cap <=? 0 then None else Some {| entries := ∅; heap := []; capacity := cap |}.

Section WithHeap.
Context `{MinHeap}.

Definition drop_entry (c : jtiReplayCache) (e : jtiEntry) (h : list jtiEntry) : jtiReplayCache :=
  {| entries := delete (key e) (entries c); heap := h; capacity := capacity c |}.

(** The purge of expired entries; at most one turn per entry of the heap. *)
Fixpoint purge (fuel : nat) (now : Z) (c : jtiReplayCache) : jtiReplayCache :=
  match fuel with
  | O => c
  | S f => match Pop (heap c) with
           | None => c
           | Some (top, h) => if now <? expiresAt top then c else purge f now (drop_entry c top h)
           end
  end.

Definition evict (c : jtiReplayCache) : jtiReplayCache :=
  if capacity c <=? Z.of_nat (size (entries c)) then
    match Pop (heap c) with Some (victim, h) => drop_entry c victim h | None => c end
  else c.

Definition checkAndSet (c : jtiReplayCache) (k : string) (expires now : Z) : jtiReplayCache * bool :=
  let c1 := purge (length (heap c)) now c in
  match entries c1 !! k with
  | Some _ => (c1, false)
  | None =>
      let c2 := evict c1 in
      ({| entries := <[k := expires]> (entries c2);
          heap := heap c2 ++ [{| key := k; expiresAt := expires |}];
          capacity := capacity c2 |}, true)
  end.

Definition size_ (c : jtiReplayCache) : Z := Z.of_nat (size (entries c)).

(** *** Correctness *)

Definition pair_of (e : jtiEntry) : string * Z := (key e, expiresAt e).

(** The heap holds the entries of the map, and the capacity is kept. *)
Record inv (c : jtiReplayCache) : Prop := {
  inv_heap : pair_of <$> heap c ≡ₚ map_to_list (entries c);
  inv_size : Z.of_nat (size (entries c)) <= capacity c;
  inv_cap : 0 < capacity c
}.

Lemma new_inv cap c : newJTIReplayCache cap = Some c -> inv c /\ entries c = ∅.
Proof.
  unfold newJTIReplayCache. destruct (Z.leb_spec cap 0); [done|]. intros [= <-].
  split; [|done]. split; cbn; [done|rewrite map_size_empty; lia|lia].
Qed.

Lemma heap_entry c e : inv c -> e ∈ heap c -> entries c !! key e = Some (expiresAt e).
Proof.
  intros Hi He. apply elem_of_map_to_list. rewrite <-(inv_heap _ Hi).
  apply list_elem_of_fmap. by exists e.
Qed.

Lemma entry_heap c k x : inv c -> entries c !! k = Some x -> {| key := k; expiresAt := x |} ∈ heap c.
Proof.
  intros Hi Hk. apply elem_of_map_to_list in Hk. rewrite <-(inv_heap _ Hi) in Hk.
  apply list_elem_of_fmap in Hk as ([k' x'] & Heq & Hin). by injection Heq as <- <-.
Qed.

Lemma drop_inv c e h : inv c -> Pop (heap c) = Some (e, h) -> inv (drop_entry c e h).
Proof.
  intros Hi Hp. destruct (Pop_min _ _ _ Hp) as [Hperm _].
  pose proof (heap_entry c e Hi) as He. rewrite Hperm in He. specialize (He ltac:(left)).
  split; cbn.
  - pose proof (inv_heap _ Hi) as Hh. rewrite Hperm in Hh. cbn in Hh.
    rewrite <-(map_to_list_delete (entries c) (key e) (expiresAt e) He) in Hh.
    by apply Permutation_cons_inv in Hh.
  - rewrite map_size_delete, He. pose proof (inv_size _ Hi). lia.
  - apply Hi.
Qed.

(** What the purge keeps: exactly the entries that are still valid. *)
Lemma purge_spec fuel now : forall c, inv c -> (length (heap c) <= fuel)%nat ->
  inv (purge fuel now c) /\ capacity (purge fuel now c) = capacity c /\
  forall k x, entries (purge fuel now c) !! k = Some x <-> entries c !! k = Some x /\ now < x.
Proof.
  induction fuel as [|f IH]; intros c Hi Hf; cbn [purge].
  - split; [done|]. split; [done|]. intros k x. split; [|naive_solver].
    intros Hk%(entry_heap _ _ _ Hi). destruct (heap c); [|cbn in Hf; lia]. by apply elem_of_nil in Hk.
  - destruct (Pop (heap c)) as [[top h]|] eqn:Hp.
    + destruct (Pop_min _ _ _ Hp) as [Hperm Hmin]. destruct (Z.ltb_spec now (expiresAt top)) as [Hlt|Hge].
      * split; [done|]. split; [done|]. intros k x. split; [|naive_solver]. intros Hk. split; [done|].
        apply (entry_heap _ _ _ Hi), Hmin in Hk. cbn in Hk. lia.
      * pose proof (drop_inv _ _ _ Hi Hp) as Hi'.
        destruct (IH (drop_entry c top h) Hi') as (Hi2 & Hc2 & He2).
        { cbn. apply Permutation_length in Hperm. cbn in Hperm. lia. }
        split; [done|]. split; [done|]. intros k x. rewrite He2. cbn. rewrite lookup_delete_Some.
        split; [tauto|]. intros [Hk Hx]. split; [|done]. split; [|done]. intros <-.
        assert (entries c !! key top = Some (expiresAt top)) as Ht
          by (apply heap_entry; [done|rewrite Hperm; left]).
        rewrite Ht in Hk. injection Hk as <-. lia.
    + split; [done|]. split; [done|]. intros k x. split; [|naive_solver].
      intros Hk%(entry_heap _ _ _ Hi). destruct (decide (heap c = [])) as [E|E].
      * rewrite E in Hk. by apply elem_of_nil in Hk.
      * destruct (Pop_some _ E). congruence.
Qed.

(** Eviction makes room, at the cost of an entry of least expiry of a full
    cache. *)
Lemma evict_spec c : inv c ->
  inv (evict c) /\ capacity (evict c) = capacity c /\ Z.of_nat (size (entries (evict c))) < capacity c /\
  (Z.of_nat (size (entries c)) < capacity c -> evict c = c) /\
  (forall k x, entries (evict c) !! k = Some x -> entries c !! k = Some x) /\
  forall k x, entries c !! k = Some x -> entries (evict c) !! k = Some x \/
    forall k' x', entries c !! k' = Some x' -> x <= x'.
Proof.
  intros Hi. pose proof (inv_size _ Hi). pose proof (inv_cap _ Hi). unfold evict.
  destruct (Z.leb_spec (capacity c) (Z.of_nat (size (entries c)))) as [Hfull|Hroom].
  - destruct (Pop (heap c)) as [[v h]|] eqn:Hp.
    + destruct (Pop_min _ _ _ Hp) as [Hperm Hmin].
      assert (entries c !! key v = Some (expiresAt v)) as Hv
        by (apply heap_entry; [done|rewrite Hperm; left]).
      split; [by eapply drop_inv|]. split; [done|]. split.
      { cbn. rewrite map_size_delete, Hv. assert (size (entries c) <> 0%nat) by lia. lia. }
      split; [lia|]. split.
      * intros k x. cbn. rewrite lookup_delete_Some. tauto.
      * intros k x Hk. cbn. destruct (decide (key v = k)) as [<-|Hne].
        -- right. rewrite Hv in Hk. injection Hk as <-. intros k' x' Hk'.
           by apply (entry_heap _ _ _ Hi), Hmin in Hk'.
        -- left. by rewrite lookup_delete_ne.
    + exfalso. destruct (decide (heap c = [])) as [E|E]; [|destruct (Pop_some _ E); congruence].
      pose proof (inv_heap _ Hi) as Hh. rewrite E in Hh. cbn in Hh. symmetry in Hh.
      apply Permutation_nil_r, map_to_list_empty_iff in Hh. rewrite Hh, map_size_empty in Hfull. lia.
  - split_and!; auto.
Qed.

Lemma checkAndSet_inv c k e now : inv c ->
  inv (checkAndSet c k e now).1 /\ capacity (checkAndSet c k e now).1 = capacity c /\
  ((checkAndSet c k e now).2 = false <-> exists x, entries c !! k = Some x /\ now < x) /\
  ((checkAndSet c k e now).2 = true -> entries (checkAndSet c k e now).1 !! k = Some e) /\
  Z.of_nat (size (entries (checkAndSet c k e now).1)) <= Z.of_nat (size (entries c)) + 1 /\
  forall k' x, entries c !! k' = Some x -> now < x ->
    entries (checkAndSet c k e now).1 !! k' = Some x \/
    (checkAndSet c k e now).2 = true /\ capacity c <= Z.of_nat (size (entries c)) /\
      forall k2 x2, entries c !! k2 = Some x2 -> now < x2 -> x <= x2.
Proof.
  intros Hi. unfold checkAndSet.
  destruct (purge_spec (length (heap c)) now c Hi ltac:(done)) as (Hi1 & Hc1 & He1).
  set (c1 := purge (length (heap c)) now c) in *.
  assert (size (entries c1) <= size (entries c))%nat as Hsz.
  { apply map_subseteq_size, map_subseteq_spec. intros k' x Hk. by apply He1 in Hk as [? _]. }
  destruct (entries c1 !! k) as [x|] eqn:Hk; cbn [fst snd].
  - apply He1 in Hk. split; [done|]. split; [done|]. split; [split; [by exists x|done]|].
    split; [done|]. split; [lia|]. intros k' x' Hk' Hx'. left. by apply He1.
  - destruct (evict_spec c1 Hi1) as (Hi2 & Hc2 & Hroom & Hsame & Hsub & Hkeep).
    assert (entries (evict c1) !! k = None) as Hk2.
    { destruct (entries (evict c1) !! k) eqn:E; [|done]. apply Hsub in E. congruence. }
    split; [split; cbn|].
    + rewrite fmap_app. cbn. rewrite (inv_heap _ Hi2), map_to_list_insert by done.
      by rewrite Permutation_app_comm.
    + rewrite map_size_insert_None by done. rewrite Hc2, Hc1 in *. lia.
    + rewrite Hc2, Hc1. apply Hi.
    + cbn. split; [congruence|]. split.
      { split; [done|]. intros (x & Hx & Hlt). assert (entries c1 !! k = Some x) by (by apply He1).
        congruence. }
      split; [intros _; by rewrite lookup_insert_eq|]. split.
      { rewrite map_size_insert_None by done.
        assert (size (entries (evict c1)) <= size (entries c1))%nat; [|lia].
        apply map_subseteq_size, map_subseteq_spec. auto. }
      intros k' x Hk' Hx. assert (entries c1 !! k' = Some x) as Hin by (by apply He1).
      assert (k <> k') as Hne by congruence.
      destruct (decide (capacity c1 <= Z.of_nat (size (entries c1)))) as [Hfull|Hfree].
      * destruct (Hkeep k' x Hin) as [?|Hmin]; [left; by rewrite lookup_insert_ne|right].
        split; [done|]. split; [lia|]. intros k2 x2 H2 Hlt. apply (Hmin k2). by apply He1.
      * left. rewrite lookup_insert_ne by done. rewrite Hsame by lia. done.
Qed.

(** A run of calls. *)
Fixpoint run (c : jtiReplayCache) (ops : list (string * Z * Z)) : jtiReplayCache :=
  match ops with
  | [] => c
  | (k, e, now) :: rest => run (checkAndSet c k e now).1 rest
  end.

Lemma run_keeps ops : forall c k x, inv c -> entries c !! k = Some x ->
  Forall (fun op => op.2 < x) ops ->
  Z.of_nat (size (entries c)) + Z.of_nat (length ops) <= capacity c ->
  inv (run c ops) /\ entries (run c ops) !! k = Some x.
Proof.
  induction ops as [|[[k' e] now] ops IH]; intros c k x Hi Hk Ht Hsz; cbn [run]; [done|].
  apply Forall_cons in Ht as [Hnow Ht]. cbn in Hnow, Hsz.
  destruct (checkAndSet_inv c k' e now Hi) as (Hi' & Hc' & _ & _ & Hs' & Hkeep).
  apply IH; [done| |done|lia].
  destruct (Hkeep k x Hk Hnow) as [?|(_ & Hfull & _)]; [done|]. lia.
Qed.

(** The replay cache gives one verdict per token identifier: a call is
    refused exactly when the identifier is recorded and not expired; a call that
    is accepted records it; an unexpired record is lost only to an accepted call
    on a cache at capacity, and then only when no unexpired record expires
    earlier; so as long as the records and the calls made since fit the
    capacity, an accepted identifier is refused until it expires. *)
Theorem replay_refused c k e now : inv c ->
  ((checkAndSet c k e now).2 = false <-> exists x, entries c !! k = Some x /\ now < x) /\
  (forall k' x, entries c !! k' = Some x -> now < x ->
     entries (checkAndSet c k e now).1 !! k' = Some x \/
     (checkAndSet c k e now).2 = true /\ capacity c <= size_ c /\
       forall k2 x2, entries c !! k2 = Some x2 -> now < x2 -> x <= x2) /\
  forall ops e' now', (checkAndSet c k e now).2 = true ->
    Forall (fun op => op.2 < e) ops -> now' < e ->
    size_ (checkAndSet c k e now).1 + Z.of_nat (length ops) <= capacity c ->
    (checkAndSet (run (checkAndSet c k e now).1 ops) k e' now').2 = false.
Proof.
  intros Hi. destruct (checkAndSet_inv c k e now Hi) as (Hi' & Hc' & Hv & Hset & _ & Hkeep).
  split; [done|]. split; [done|]. intros ops e' now' Hok Ht Hnow Hsz.
  destruct (run_keeps ops _ k e Hi' (Hset Hok) Ht) as [Hir Hkr]; [unfold size_ in Hsz; lia|].
  apply (checkAndSet_inv _ k e' now' Hir). by exists e.
Qed.
End WithHeap.

(** A heap as a list from which the first least entry is taken. *)
Fixpoint take_min (h : list jtiEntry) : option (jtiEntry * list jtiEntry) :=
  match h with
  | [] => None
  | e :: h' => match take_min h' with
               | None => Some (e, [])
               | Some (m, r) => if expiresAt e <=? expiresAt m then Some (e, h') else Some (m, e :: r)
               end
  end.

Lemma take_min_spec h : (h <> [] -> is_Some (take_min h)) /\
  forall e r, take_min h = Some (e, r) -> h ≡ₚ e :: r /\ forall x, x ∈ h -> expiresAt e <= expiresAt x.
Proof.
  induction h as [|a h [IHs IH]]; [split; [done|done]|]. cbn [take_min].
  destruct (take_min h) as [[m r]|] eqn:E.
  - destruct (IH m r eq_refl) as [Hp Hm]. split; [intros _; by case_match|]. intros e r'.
    destruct (Z.leb_spec (expiresAt a) (expiresAt m)); intros [= <- <-].
    + split; [done|]. intros x [->|Hx]%elem_of_cons; [lia|]. apply Hm in Hx. lia.
    + split; [rewrite Hp; apply Permutation_swap|].
      intros x [->|Hx]%elem_of_cons; [lia|]. by apply Hm.
  - destruct h as [|b h]; [|by destruct (IHs ltac:(done))]. split; [done|]. intros e r [= <- <-].
    split; [done|]. by intros x ->%list_elem_of_singleton.
Qed.

#[export] Program Instance list_heap : MinHeap := {| Pop := take_min |}.
Next Obligation. apply take_min_spec. Qed.
Next Obligation. intros h e h'. apply take_min_spec. Qed.

Definition empty_cache : jtiReplayCache := {| entries := ∅; heap := []; capacity := 2 |}.

Lemma replay_refused_witness :
  ((checkAndSet empty_cache "a" 60 0).2 = false <-> exists x, entries empty_cache !! "a" = Some x /\ 0 < x) /\
  (forall k' x, entries empty_cache !! k' = Some x -> 0 < x ->
     entries (checkAndSet empty_cache "a" 60 0).1 !! k' = Some x \/
     (checkAndSet empty_cache "a" 60 0).2 = true /\ capacity empty_cache <= size_ empty_cache /\
       forall k2 x2, entries empty_cache !! k2 = Some x2 -> 0 < x2 -> x <= x2) /\
  forall ops e' now', (checkAndSet empty_cache "a" 60 0).2 = true ->
    Forall (fun op => op.2 < 60) ops -> now' < 60 ->
    size_ (checkAndSet empty_cache "a" 60 0).1 + Z.of_nat (length ops) <= capacity empty_cache ->
    (checkAndSet (run (checkAndSet empty_cache "a" 60 0).1 ops) "a" e' now').2 = false.
Proof. apply (replay_refused empty_cache "a" 60 0). exact (proj1 (new_inv 2 _ eq_refl)). Defined.

Example replayed : (checkAndSet (run empty_cache [("a", 60, 0); ("b", 90, 10)]) "a" 70 59).2 = false.
Proof. by vm_compute. Qed.
End Jti.

(** ** Cache of DID documents *)

Module DidCache.
Section WithDoc.
Context {DIDDocument : Type}.

Record CachedDIDDocument := { Document : DIDDocument; ExpiresAt : Z }.

Record DIDCache := { cache : gmap string CachedDIDDocument; ttl : Z }.

Definition NewDIDCache (t : Z) : DIDCache := {| cache := ∅; ttl := t |}.

(** [now.After(ExpiresAt)]. *)
Definition IsExpired (now : Z) (c : CachedDIDDocument) : bool := ExpiresAt c <? now.

Definition with_cache (c : DIDCache) (m : gmap string CachedDIDDocument) : DIDCache :=
  {| cache := m; ttl := ttl c |}.

Definition PutWithTTL (c : DIDCache) (now : Z) (did : string) (doc : DIDDocument) (t : Z) : DIDCache :=
  with_cache c (<[did := {| Document := doc; ExpiresAt := now + t |}]> (cache c)).
Definition Put (c : DIDCache) (now : Z) (did : string) (doc : DIDDocument) : DIDCache :=
  PutWithTTL c now did doc (ttl c).
Definition Invalidate (c : DIDCache) (did : string) : DIDCache := with_cache c (delete did (cache c)).
Definition Delete (c : DIDCache) (did : string) : DIDCache := Invalidate c did.
Definition Clear (c : DIDCache) : DIDCache := with_cache c ∅.

(** The number of expired entries dropped, and the cache without them. *)
Definition Cleanup (c : DIDCache) (now : Z) : DIDCache * Z :=
  let m := filter (fun kv => IsExpired now kv.2 = false) (cache c) in
  (with_cache c m, Z.of_nat (size (cache c)) - Z.of_nat (size m)).
Definition Size (c : DIDCache) : Z := Z.of_nat (size (cache c)).
Definition Contains (c : DIDCache) (did : string) : bool := bool_decide (is_Some (cache c !! did)).

(** [resolve] is what the resolver answers at the time of the call; the document
    is stored at the same time. *)
Definition resolveFresh (c : DIDCache) (now : Z) (resolve : string -> result string DIDDocument)
    (did : string) : DIDCache * result string DIDDocument :=
  match resolve did with
  | Err e => (c, Err e)
  | Ok doc => (Put c now did doc, Ok doc)
  end.

Definition GetWithInvalidate (c : DIDCache) (now : Z) (resolve : string -> result string DIDDocument)
    (did : string) (invalidateFirst : bool) : DIDCache * result string DIDDocument :=
  let c := if invalidateFirst then Invalidate c did else c in
  match cache c !! did with
  | Some cached => if negb (IsExpired now cached) then (c, Ok (Document cached))
                   else resolveFresh c now resolve did
  | None => resolveFresh c now resolve did
  end.
Definition Get (c : DIDCache) (now : Z) (resolve : string -> result string DIDDocument) (did : string) :=
  GetWithInvalidate c now resolve did false.

(** *** Freshness *)

(** The world answers [world t did] at time [t]; a run is calls at the times
    given. *)
Inductive op := OGet (did : string) (invalidate : bool) | OInvalidate (did : string) | OClear | OCleanup.

Definition step (world : Z -> string -> result string DIDDocument) (now : Z) (o : op) (c : DIDCache)
  : DIDCache :=
  match o with
  | OGet did i => (GetWithInvalidate c now (world now) did i).1
  | OInvalidate did => Invalidate c did
  | OClear => Clear c
  | OCleanup => (Cleanup c now).1
  end.

Definition run (world : Z -> string -> result string DIDDocument) (c : DIDCache) (ops : list (Z * op))
  : DIDCache := foldl (fun c '(now, o) => step world now o c) c ops.

(** Every entry is a document the world gave [ttl] before its expiry. *)
Definition genuine (world : Z -> string -> result string DIDDocument) (c : DIDCache) : Prop :=
  forall did d, cache c !! did = Some d -> world (ExpiresAt d - ttl c) did = Ok (Document d).

Lemma genuine_delete world c did : genuine world c -> genuine world (Invalidate c did).
Proof. intros Hg k d Hk. cbn in Hk. apply lookup_delete_Some in Hk as [_ Hk]. by apply Hg. Qed.

Lemma genuine_resolve world c now did : genuine world c ->
  genuine world (resolveFresh c now (world now) did).1 /\
  ttl (resolveFresh c now (world now) did).1 = ttl c /\
  (resolveFresh c now (world now) did).2 = world now did.
Proof.
  intros Hg. unfold resolveFresh. destruct (world now did) as [doc|] eqn:E; [|done]. cbn [fst snd].
  split; [|done]. intros k d Hk. cbn in Hk. apply lookup_insert_Some in Hk as [[<- <-]|[_ Hk]];
    [|by apply Hg]. cbn. by rewrite Z.add_simpl_r.
Qed.

Lemma genuine_get world c now did i : genuine world c -> 0 <= ttl c ->
  genuine world (GetWithInvalidate c now (world now) did i).1 /\
  ttl (GetWithInvalidate c now (world now) did i).1 = ttl c /\
  forall doc, (GetWithInvalidate c now (world now) did i).2 = Ok doc ->
    exists t, world t did = Ok doc /\ now <= t + ttl c /\ (i = true -> t = now).
Proof.
  intros Hg Htl. unfold GetWithInvalidate.
  set (c0 := if i then Invalidate c did else c).
  assert (genuine world c0 /\ ttl c0 = ttl c /\ (i = true -> cache c0 !! did = None)) as (Hg0 & Ht0 & Hi0).
  { subst c0. destruct i; [|done]. split; [by apply genuine_delete|]. split; [done|]. intros _. cbn.
    apply lookup_delete_eq. }
  destruct (genuine_resolve world c0 now did Hg0) as (Hgr & Htr & Hr). rewrite Ht0 in Htr.
  assert (forall doc, (resolveFresh c0 now (world now) did).2 = Ok doc ->
            exists t, world t did = Ok doc /\ now <= t + ttl c /\ (i = true -> t = now)) as Hfresh.
  { intros doc Hd. exists now. rewrite <-Hr. split; [done|]. split; [lia|done]. }
  destruct (cache c0 !! did) as [cached|] eqn:E; [|done].
  unfold IsExpired. destruct (Z.ltb_spec (ExpiresAt cached) now); cbn [negb fst snd]; [done|].
  split; [done|]. split; [done|]. intros doc [= <-]. exists (ExpiresAt cached - ttl c).
  rewrite <-Ht0. split; [by apply Hg0|]. split; [lia|]. intros Hi. specialize (Hi0 Hi). congruence.
Qed.

Lemma genuine_step world now o c : genuine world c -> 0 <= ttl c ->
  genuine world (step world now o c) /\ ttl (step world now o c) = ttl c.
Proof.
  intros Hg Ht. destruct o as [did i|did| |]; cbn [step].
  - destruct (genuine_get world c now did i Hg Ht) as (? & ? & _). done.
  - split; [by apply genuine_delete|done].
  - split; [|done]. intros k d Hk. cbn in Hk. by apply lookup_empty_Some in Hk.
  - split; [|done]. intros k d Hk. cbn in Hk. apply map_lookup_filter_Some in Hk as [Hk _]. by apply Hg.
Qed.

Lemma genuine_run world t ops : 0 <= t ->
  genuine world (run world (NewDIDCache t) ops) /\ ttl (run world (NewDIDCache t) ops) = t.
Proof.
  intros Ht. unfold run. induction ops as [|[now o] ops IH] using rev_ind.
  - split; [|done]. intros k d Hk. cbn in Hk. by apply lookup_empty_Some in Hk.
  - rewrite foldl_snoc. destruct IH as [Hg Htl].
    destruct (genuine_step world now o _ Hg ltac:(by rewrite Htl)) as [? ?]. split; [done|congruence].
Qed.

(** After any run of lookups, invalidations and cleanups, a DID document that
    a lookup returns is one the resolver gave for that DID no longer than the
    time to live ago, and at this very moment when the lookup invalidates first;
    and a cleanup drops exactly the entries that a lookup would no longer use. *)
Theorem documents_fresh world t ops now did i doc : 0 <= t ->
  (GetWithInvalidate (run world (NewDIDCache t) ops) now (world now) did i).2 = Ok doc ->
  (exists t', world t' did = Ok doc /\ now <= t' + t /\ (i = true -> t' = now)) /\
  forall k d, cache (Cleanup (run world (NewDIDCache t) ops) now).1 !! k = Some d <->
    cache (run world (NewDIDCache t) ops) !! k = Some d /\ IsExpired now d = false.
Proof.
  intros Ht Hd. destruct (genuine_run world t ops Ht) as [Hg Htl]. split.
  - destruct (genuine_get world _ now did i Hg ltac:(by rewrite Htl)) as (_ & _ & Hget).
    destruct (Hget doc Hd) as (t' & ? & ? & ?). rewrite Htl in *. by exists t'.
  - intros k d. cbn. apply map_lookup_filter_Some.
Qed.
End WithDoc.

Definition sample_world (t : Z) (did : string) : result string Z := Ok (t / 100).

Lemma documents_fresh_witness :
  (exists t', sample_world t' "did:plc:a" = Ok 0 /\ 110 <= t' + 60 /\ (false = true -> t' = 110)) /\
  forall k d, cache (Cleanup (run sample_world (NewDIDCache 60) [(70, OGet "did:plc:a" false)]) 110).1 !! k = Some d <->
    cache (run sample_world (NewDIDCache 60) [(70, OGet "did:plc:a" false)]) !! k = Some d /\ IsExpired 110 d = false.
Proof. apply (documents_fresh sample_world 60 [(70, OGet "did:plc:a" false)] 110 "did:plc:a" false 0); [lia|by vm_compute]. Defined.
End DidCache.

(** ** Scopes *)

Module Scopes.
Definition ScopeAtproto : string := "atproto".
Definition ScopeTransitionGeneric : string := "transition:generic".
Definition ScopeTransitionChatBsky : string := "transition:chat.bsky".

Definition ParseScopes (scopeString : string) : list string :=
  if is_empty scopeString then []
  else List.filter (fun p => negb (is_empty p)) (TrimSpace <$> Fields scopeString).

Definition JoinScopes (scopes : list string) : string := join scopes " ".

Definition isValidScopeChar (r : Z) : bool :=
  in_range 97 122 r || in_range 65 90 r || in_range 48 57 r ||
  (r =? 46) || (r =? 58) || (r =? 95) || (r =? 45).

Definition is_separator (b : Z) : bool := (b =? 46) || (b =? 58) || (b =? 95) || (b =? 45).

Inductive scope_error := EEmpty | EChar (r : Z) | EStart (scope : string) | EEnd (scope : string).

Definition validateSingleScope (scope : string) : result scope_error unit :=
  match first_byte scope, last_byte scope with
  | Some b, Some l =>
      match List.find (fun rn => negb (isValidScopeChar rn.1)) (runes scope) with
      | Some (r, _) => Err (EChar r)
      | None => if is_separator b then Err (EStart scope)
                else if is_separator l then Err (EEnd scope) else Ok ()
      end
  | _, _ => Err EEmpty
  end.

Fixpoint validate_all (scopes : list string) : result scope_error unit :=
  match scopes with
  | [] => Ok ()
  | scope :: rest => _ ← validateSingleScope scope; validate_all rest
  end.
Definition ValidateScopeFormat (scopeString : string) : result scope_error unit :=
  if is_empty scopeString then Ok () else validate_all (ParseScopes scopeString).

Definition ContainsScope (scopeString target : string) : bool :=
  existsb (fun s => String.eqb s target) (ParseScopes scopeString).

Definition IsScopeSubset (requestedScopes grantedScopes : string) : bool :=
  let grantedSet : gset string := list_to_set (ParseScopes grantedScopes) in
  forallb (fun s => bool_decide (s ∈ grantedSet)) (ParseScopes requestedScopes).

Definition FilterScopes (scopeString : string) (allowedScopes : list string) : string :=
  if is_empty scopeString then ""
  else
    let allowedSet : gset string := list_to_set allowedScopes in
    JoinScopes (List.filter (fun s => bool_decide (s ∈ allowedSet)) (ParseScopes scopeString)).

(** *** Parsing what was joined *)

Lemma fields_go_graphic p : forall f cur s, graphic p = true ->
  fields_go (String.length p + f) cur (p +:+ s) = fields_go f (cur +:+ p) s.
Proof.
  induction p as [|c p IH]; intros f cur s Hg; [by rewrite app_nil_r_str|].
  cbn in Hg. apply andb_true_iff in Hg as [Hc Hg]. rewrite app_cons_str.
  cbn [String.length Nat.add fields_go]. 
  rewrite DecodeRune_ascii by (unfold in_range in Hc; lia).
  rewrite graphic_not_space by done. cbn [take_bytes drop_bytes].
  change (drop_bytes 0 (p +:+ s)) with (p +:+ s). rewrite IH by done. f_equal.
  rewrite app_assoc_str. done.
Qed.

Definition scope_text (s : string) : bool := graphic s && negb (is_empty s).

Lemma fields_go_join l : Forall (fun s => scope_text s = true) l ->
  fields_go (String.length (join l " ")) "" (join l " ") = l.
Proof.
  induction 1 as [|p l Hp Hl IH]; [done|]. unfold scope_text in Hp. split_bools.
  destruct l as [|q l].
  - cbn [join]. rewrite <-(app_nil_r_str p) at 2. rewrite <-(Nat.add_0_r (String.length p)).
    rewrite fields_go_graphic by done. change ("" +:+ p) with p. cbn. by destruct p.
  - change (join (p :: q :: l) " ") with (p +:+ String " " (join (q :: l) " ")).
    rewrite length_app_str, fields_go_graphic by done. change ("" +:+ p) with p.
    cbn [String.length fields_go]. rewrite DecodeRune_ascii by done. 
    change (IsSpace (zb " ")) with true. cbn [drop_bytes].
    change (drop_bytes 0 ?x) with x. rewrite IH. by destruct p.
Qed.

Lemma parse_join l : Forall (fun s => scope_text s = true) l -> ParseScopes (JoinScopes l) = l.
Proof.
  intros Hl. unfold ParseScopes, JoinScopes.
  assert (List.filter (fun p => negb (is_empty p)) (TrimSpace <$> l) = l) as Hf.
  { induction Hl as [|p l Hp Hl IH]; [done|]. unfold scope_text in Hp. split_bools. cbn.
    rewrite TrimSpace_graphic by done. rewrite H0. cbn [negb]. f_equal. exact IH. }
  unfold Fields. rewrite fields_go_join by done. rewrite Hf.
  destruct l as [|p l]; [done|]. apply Forall_cons in Hl as [Hp _]. unfold scope_text in Hp.
  split_bools. destruct p as [|c p]; [done|]. by destruct l.
Qed.

(** *** Validated scopes *)

Lemma valid_char_graphic r : isValidScopeChar r = true -> in_range 33 126 r = true.
Proof. unfold isValidScopeChar, in_range. lia. Qed.

Lemma runes_valid_graphic s : forallb (fun rn => isValidScopeChar rn.1) (runes s) = true -> graphic s = true.
Proof.
  induction s as [s IH] using (induction_ltof1 _ String.length).
  destruct s as [|c s]; [done|]. destruct (DecodeRune (String c s)) as [r n] eqn:Hd.
  rewrite (runes_cons (String c s) r n ltac:(done) Hd). cbn [forallb fst]. intros [Hr Hs]%andb_true_iff.
  apply valid_char_graphic in Hr.
  destruct (DecodeRune_valid (String c s) r n Hd ltac:(done)) as (Hsc & Henc & Hn).
  { intros [-> _]. by vm_compute in Hr. }
  assert (n = 1%nat) as -> by (apply Hn; unfold in_range in Hr; lia).
  rewrite EncodeRune_1 in Henc by (unfold in_range in Hr; lia). cbn in Henc.
  injection Henc as Hc. unfold graphic in *. cbn [all_bytes].
  assert (zb c = r) as -> by (rewrite <-Hc; apply zb_chr; unfold in_range in Hr; lia).
  rewrite Hr. cbn [andb]. apply IH; [unfold ltof; cbn; lia|]. exact Hs.
Qed.

Lemma validateSingleScope_text scope u : validateSingleScope scope = Ok u -> scope_text scope = true.
Proof.
  unfold validateSingleScope, scope_text. destruct (first_byte scope) as [b|] eqn:Hb; [|done].
  destruct (last_byte scope); [|done]. destruct (List.find _ _) as [[r n]|] eqn:Hf; [done|]. intros _.
  apply andb_true_iff. split; [|by destruct scope].
  apply runes_valid_graphic, forallb_elem_of. intros rn Hin%list_elem_of_In.
  pose proof (List.find_none _ _ Hf rn Hin) as Hn. by apply negb_false_iff in Hn.
Qed.

Lemma validate_all_text l u : validate_all l = Ok u -> Forall (fun s => scope_text s = true) l.
Proof.
  induction l as [|s l IH]; cbn; [constructor|]. intros (u' & Hs & Hl)%bind_Ok.
  constructor; [by eapply validateSingleScope_text|by apply IH].
Qed.

Lemma validated_text s u : ValidateScopeFormat s = Ok u ->
  Forall (fun s => scope_text s = true) (ParseScopes s).
Proof.
  unfold ValidateScopeFormat, ParseScopes. destruct (is_empty s); [constructor|]. apply validate_all_text.
Qed.

Lemma filter_Forall {A} (P : A -> Prop) f (l : list A) : Forall P l -> Forall P (List.filter f l).
Proof. induction 1; cbn; [constructor|]. case_match; [by constructor|done]. Qed.

Lemma ContainsScope_spec s t : ContainsScope s t = true <-> t ∈ ParseScopes s.
Proof.
  unfold ContainsScope. rewrite existsb_elem_of. split.
  - by intros (x & Hx & ->%String.eqb_eq).
  - intros Ht. exists t. split; [done|apply String.eqb_refl].
Qed.

(** Filtering a well-formed scope string grants exactly the requested scopes
    that are allowed, in their order, and never more than was requested; the
    filtered string is well formed again as a list of scopes, and the subset test
    agrees with inclusion of the two lists. *)
Theorem FilterScopes_sound s allowed granted : ValidateScopeFormat s = Ok () ->
  ParseScopes (FilterScopes s allowed)
    = List.filter (fun t => bool_decide (t ∈ (list_to_set allowed : gset string))) (ParseScopes s) /\
  (forall t, ContainsScope (FilterScopes s allowed) t = true <-> ContainsScope s t = true /\ t ∈ allowed) /\
  IsScopeSubset (FilterScopes s allowed) s = true /\
  (IsScopeSubset s granted = true <-> forall t, ContainsScope s t = true -> ContainsScope granted t = true).
Proof.
  intros Hv. pose proof (validated_text _ _ Hv) as Ht.
  assert (ParseScopes (FilterScopes s allowed)
    = List.filter (fun t => bool_decide (t ∈ (list_to_set allowed : gset string))) (ParseScopes s)) as Hp.
  { unfold FilterScopes. destruct (is_empty s) eqn:E; [destruct s; [reflexivity|discriminate E]|].
    apply parse_join. by apply filter_Forall. }
  split; [done|].
  assert (forall t, t ∈ ParseScopes (FilterScopes s allowed) <-> t ∈ ParseScopes s /\ t ∈ allowed) as Hin.
  { intros t. rewrite Hp, list_elem_of_In, filter_In, <-list_elem_of_In, bool_decide_eq_true, elem_of_list_to_set.
    done. }
  split; [intros t; rewrite !ContainsScope_spec; apply Hin|]. split.
  - apply forallb_elem_of. intros t Hx. apply bool_decide_eq_true, elem_of_list_to_set. by apply Hin in Hx as [? _].
  - unfold IsScopeSubset. rewrite forallb_elem_of. apply forall_proper. intros t.
    rewrite bool_decide_eq_true, elem_of_list_to_set, !ContainsScope_spec. done.
Qed.

Lemma FilterScopes_sound_witness :
  ParseScopes (FilterScopes "atproto  transition:generic" ["atproto"])
    = List.filter (fun t => bool_decide (t ∈ (list_to_set ["atproto"] : gset string)))
        (ParseScopes "atproto  transition:generic") /\
  (forall t, ContainsScope (FilterScopes "atproto  transition:generic" ["atproto"]) t = true <->
     ContainsScope "atproto  transition:generic" t = true /\ t ∈ ["atproto"]) /\
  IsScopeSubset (FilterScopes "atproto  transition:generic" ["atproto"]) "atproto  transition:generic" = true /\
  (IsScopeSubset "atproto  transition:generic" "atproto" = true <->
   forall t, ContainsScope "atproto  transition:generic" t = true -> ContainsScope "atproto" t = true).
Proof. apply (FilterScopes_sound "atproto  transition:generic" ["atproto"] "atproto"). by vm_compute. Defined.
End Scopes.
