(* ===== verification/Cors.v ===== *)
(** [internal/server/cors.go]: the origin matcher of the CORS middleware and the
    headers it sets. net/url's parser is a parameter. *)
From S2P Require Import Prelude GoStrings Utf8.

Local Open Scope Z_scope.

Record URL := { Scheme : string; Hostname : string; Port : string }.

(** url.Parse: [None] on an error. *)
Class UrlParser := { url_parse : string -> option URL }.

Record wildcardOrigin := {
  scheme : string; labelPrefix : string; labelSuffix : string; hostSuffix : string; port : string
}.

Record originMatcher := { exact : gset string; wildcard : list wildcardOrigin }.

Section WithUrl.
Context `{UrlParser}.

Definition matches (w : wildcardOrigin) (origin : string) : bool :=
  match url_parse origin with
  | None => false
  | Some u =>
      if negb (String.eqb (Scheme u) (scheme w)) then false
      else if negb (String.eqb (Port u) (port w)) then false
      else match cut_at "." (Hostname u) with
           | None => false
           | Some (label, rest) =>
               if negb (String.eqb rest (hostSuffix w)) then false
               else if negb (has_prefix label (labelPrefix w)) || negb (has_suffix label (labelSuffix w))
               then false
               else negb (glen label <=? glen (labelPrefix w) + glen (labelSuffix w))
           end
  end.

(** The body of the loop of [buildOriginMatcher] for a pattern with a star. *)
Definition parse_wildcard (o : string) : option wildcardOrigin :=
  match url_parse o with
  | None => None
  | Some u =>
      if negb (String.eqb (Scheme u) "http") && negb (String.eqb (Scheme u) "https") then None
      else match cut_at "." (Hostname u) with
           | None => None
           | Some (label, rest) =>
               if is_empty rest || contains rest "*" then None
               else match cut_at "*" label with
                    | None => None
                    | Some (before, after) =>
                        match cut_at "*" after with
                        | Some _ => None
                        | None => Some {| scheme := Scheme u; labelPrefix := before;
                                          labelSuffix := after; hostSuffix := rest; port := Port u |}
                        end
                    end
           end
  end.

Definition add_origin (m : originMatcher) (raw : string) : originMatcher :=
  let o := TrimSpace raw in
  if is_empty o then m
  else if negb (contains o "*") then {| exact := {[ o ]} ∪ exact m; wildcard := wildcard m |}
  else match parse_wildcard o with
       | None => m
       | Some w => {| exact := exact m; wildcard := wildcard m ++ [w] |}
       end.

Definition buildOriginMatcher (origins : list string) : originMatcher :=
  foldl add_origin {| exact := ∅; wildcard := [] |} origins.

Definition allow (m : originMatcher) (origin : string) : bool :=
  if is_empty origin then false
  else if bool_decide (origin ∈ exact m) then true
  else existsb (fun w => matches w origin) (wildcard m).

(** ** The middleware *)

Record CORSConfig := { AllowedOrigins : list string; AllowedHeaders : list string; AdminAPIKeySet : bool }.

Inductive response := NoContent | Next.

Definition allowed_headers (cfg : CORSConfig) : string :=
  join (["Content-Type"; "Authorization"; "DPoP"] ++ AllowedHeaders cfg ++
        (if AdminAPIKeySet cfg then ["X-User-DID"] else [])) ", ".

(** The response headers set for a request, and whether it is passed on. *)
Definition CORSMiddleware (cfg : CORSConfig) (origin method : string) : gmap string string * response :=
  let matcher := buildOriginMatcher (AllowedOrigins cfg) in
  let allowAll := Nat.eqb (length (AllowedOrigins cfg)) 0 in
  let h : gmap string string :=
    if allowAll then {[ "Access-Control-Allow-Origin" := "*" ]}
    else if allow matcher origin then
      <["Vary" := "Origin"]> {[ "Access-Control-Allow-Origin" := origin ]}
    else ∅ in
  let h := <["Access-Control-Allow-Methods" := "POST, GET, OPTIONS"]> h in
  let h := <["Access-Control-Allow-Headers" := allowed_headers cfg]> h in
  let h := <["Access-Control-Expose-Headers" := "X-Query-Timeout"]> h in
  let h := <["Access-Control-Max-Age" := "86400"]> h in
  (h, if String.eqb method "OPTIONS" then NoContent else Next).

(** ** What a pattern matches *)

Definition no_byte (c : ascii) (s : string) : Prop := lacks c s = true.

Lemma cut_at_lacks c s a b : cut_at c s = Some (a, b) -> no_byte c a.
Proof.
  revert a b; induction s as [|d s IH]; intros a b; cbn; [done|].
  destruct (Ascii.eqb_spec d c) as [->|Hne]; [by intros [= <- <-]|].
  intros ([a' b'] & Hc & [= <- <-])%bind_Some. unfold no_byte, lacks in *. cbn.
  apply andb_true_iff. split; [|by eapply IH].
  apply negb_true_iff, Z.eqb_neq. intros Hz%zb_inj. done.
Qed.

Lemma has_suffix_spec s t : has_suffix s t = true <-> exists p, s = p +:+ t.
Proof.
  unfold has_suffix. split.
  - intros [Hl Hd%String.eqb_eq]%andb_true_iff. exists (take_bytes (String.length s - String.length t) s).
    rewrite <-Hd at 2. by rewrite take_drop_bytes.
  - intros [p ->]. rewrite length_app_str. apply andb_true_iff. split; [apply Nat.leb_le; lia|].
    replace (String.length p + String.length t - String.length t)%nat with (String.length p) by lia.
    rewrite drop_bytes_app. apply String.eqb_refl.
Qed.

(** A string with the given ends and more bytes than both has a middle. *)
Lemma middle_spec s p q : has_prefix s p = true -> has_suffix s q = true ->
  glen p + glen q < glen s -> exists m, m <> "" /\ s = p +:+ m +:+ q.
Proof.
  unfold has_prefix. intros [t ->]%prefix_spec [u Hu]%has_suffix_spec Hl.
  rewrite glen_app in Hl. exists (take_bytes (String.length t - String.length q) t).
  assert (drop_bytes (String.length t - String.length q) t = q) as Hq.
  { assert (String.length p + String.length t = String.length u + String.length q)%nat as Hlen
      by (rewrite <-!length_app_str; by rewrite Hu). unfold glen in Hl.
    assert (forall n a b, drop_bytes (String.length a + n) (a +:+ b) = drop_bytes n b) as Hdrop.
    { intros n a b. induction a as [|c a IH]; [done|]. exact IH. }
    rewrite <-(Hdrop _ p t), Hu.
    replace (String.length p + (String.length t - String.length q))%nat with (String.length u) by lia.
    apply drop_bytes_app. }
  split.
  - intros E. assert (t = q) as ->.
    { rewrite <-(take_drop_bytes (String.length t - String.length q) t), E. exact Hq. }
    lia.
  - f_equal. rewrite <-Hq at 2. by rewrite take_drop_bytes.
Qed.

(** [w] matches an origin of its scheme and port whose host is one label, the
    prefix and suffix around at least one more byte, and then the literal rest. *)
Definition wildcard_meaning (w : wildcardOrigin) (origin : string) : Prop :=
  exists u m, url_parse origin = Some u /\ Scheme u = scheme w /\ Port u = port w /\ m <> "" /\
    no_byte "." (labelPrefix w +:+ m +:+ labelSuffix w) /\
    Hostname u = (labelPrefix w +:+ m +:+ labelSuffix w) +:+ "." +:+ hostSuffix w.

Lemma has_suffix_app p t : has_suffix (p +:+ t) t = true.
Proof. apply has_suffix_spec. by exists p. Qed.

Lemma matches_spec w origin : matches w origin = true <-> wildcard_meaning w origin.
Proof.
  unfold matches, wildcard_meaning. split.
  - destruct (url_parse origin) as [u|]; [|done].
    destruct (String.eqb_spec (Scheme u) (scheme w)) as [Hs|]; cbn [negb]; [|done].
    destruct (String.eqb_spec (Port u) (port w)) as [Hp|]; cbn [negb]; [|done].
    destruct (cut_at "." (Hostname u)) as [[label rest]|] eqn:Hc; [|done].
    destruct (String.eqb_spec rest (hostSuffix w)) as [->|]; cbn [negb]; [|done].
    destruct (has_prefix label (labelPrefix w)) eqn:Hpre; cbn [negb orb]; [|done].
    destruct (has_suffix label (labelSuffix w)) eqn:Hsuf; cbn [negb orb]; [|done].
    intros Hlen. destruct (middle_spec label _ _ Hpre Hsuf) as (m & Hm & ->); [lia|].
    exists u, m. split_and!; try done; [by eapply cut_at_lacks|]. by apply cut_at_Some in Hc.
  - intros (u & m & -> & -> & -> & Hm & Hdot & Hh). rewrite !String.eqb_refl. cbn [negb].
    rewrite Hh. change ("." +:+ hostSuffix w) with (String "." (hostSuffix w)).
    rewrite cut_at_first by exact Hdot. rewrite String.eqb_refl. cbn [negb].
    unfold has_prefix. rewrite prefix_app. cbn [negb orb].
    rewrite <-app_assoc_str, has_suffix_app. cbn [negb orb].
    rewrite !glen_app. assert (0 < glen m) by (unfold glen; destruct m; [done|cbn; lia]). lia.
Qed.

(** What an entry of the configuration allows. *)
Definition entry_allows (raw origin : string) : Prop :=
  let o := TrimSpace raw in
  o <> "" /\
  (contains o "*" = false /\ origin = o \/
   contains o "*" = true /\ exists w, parse_wildcard o = Some w /\ wildcard_meaning w origin).

Lemma add_origin_spec m raw origin : origin <> "" ->
  allow (add_origin m raw) origin = true <-> allow m origin = true \/ entry_allows raw origin.
Proof.
  intros Ho. unfold allow, add_origin, entry_allows. destruct origin as [|c origin]; [done|].
  cbn [is_empty]. generalize (String c origin) as org. intros org.
  assert (forall m', (if bool_decide (org ∈ exact m') then true else existsb (fun w => matches w org) (wildcard m'))
    = true <-> org ∈ exact m' \/ exists w, w ∈ wildcard m' /\ wildcard_meaning w org) as Hm.
  { intros m'. setoid_rewrite <-matches_spec. rewrite <-existsb_elem_of. case_bool_decide; tauto. }
  rewrite !Hm. destruct (TrimSpace raw) as [|d t]; cbn [is_empty]; [naive_solver|].
  assert (String d t <> "") as Hne by done. revert Hne. generalize (String d t) as o. intros o Hne.
  destruct (contains o "*") eqn:Hc; cbn [negb].
  - destruct (parse_wildcard o) as [w|] eqn:Hw; cbn [exact wildcard]; [|naive_solver].
    setoid_rewrite elem_of_app. setoid_rewrite list_elem_of_singleton. naive_solver.
  - cbn [exact wildcard]. rewrite elem_of_union, elem_of_singleton. naive_solver.
Qed.

Lemma buildOriginMatcher_spec origins origin : origin <> "" ->
  allow (buildOriginMatcher origins) origin = true <-> exists raw, raw ∈ origins /\ entry_allows raw origin.
Proof.
  intros Ho. unfold buildOriginMatcher. induction origins as [|raw origins IH] using rev_ind.
  - split; [|by intros (raw & ?%elem_of_nil & _)]. unfold allow. destruct origin; [done|]. cbn.
    case_bool_decide; [|done]. by apply elem_of_empty in H0.
  - rewrite foldl_snoc, add_origin_spec, IH by done. setoid_rewrite elem_of_app.
    setoid_rewrite list_elem_of_singleton. naive_solver.
Qed.

(** With a configured list, an origin is echoed exactly when it equals an
    entry without a star, or some entry is a well-formed wildcard pattern with
    the origin's scheme and port whose star stands for at least one more byte
    inside the leftmost label of the host while everything after the first dot is
    literal; only an empty list lets every origin in; and a preflight request
    never reaches the handler. *)
Theorem CORSMiddleware_origins cfg origin method : origin <> "" ->
  let '(h, r) := CORSMiddleware cfg origin method in
  (AllowedOrigins cfg = [] -> h !! "Access-Control-Allow-Origin" = Some "*") /\
  (AllowedOrigins cfg <> [] ->
     (h !! "Access-Control-Allow-Origin" = Some origin /\ h !! "Vary" = Some "Origin" <->
        exists raw, raw ∈ AllowedOrigins cfg /\ entry_allows raw origin) /\
     (h !! "Access-Control-Allow-Origin" = None <->
        ~ exists raw, raw ∈ AllowedOrigins cfg /\ entry_allows raw origin)) /\
  (r = NoContent <-> method = "OPTIONS").
Proof.
  intros Ho. unfold CORSMiddleware. split_and!.
  - intros ->. cbn [length Nat.eqb]. by rewrite !lookup_insert_ne, lookup_singleton_eq.
  - intros Hne. destruct (AllowedOrigins cfg) as [|o l] eqn:E; [done|]. rewrite <-E in *.
    assert (Nat.eqb (length (AllowedOrigins cfg)) 0 = false) as -> by by rewrite E.
    pose proof (buildOriginMatcher_spec (AllowedOrigins cfg) origin Ho) as Hb.
    destruct (allow _ origin).
    + rewrite !lookup_insert_ne by done. rewrite lookup_singleton_eq, lookup_insert_eq.
      split; [tauto|]. split; [done|]. intros Hn. exfalso. apply Hn. by apply Hb.
    + rewrite !lookup_insert_ne by done. rewrite !lookup_empty.
      split; [|split; [|done]].
      * split; [by intros []|]. intros He%Hb. done.
      * intros _ He%Hb. done.
  - destruct (String.eqb_spec method "OPTIONS"); naive_solver.
Qed.
End WithUrl.

Module Example_cors.
#[local] Instance toy_url : UrlParser :=
  {| url_parse := fun s =>
       if has_prefix s "https://" then Some {| Scheme := "https"; Hostname := trim_prefix s "https://"; Port := "" |}
       else None |}.
Definition cfg : CORSConfig :=
  {| AllowedOrigins := ["https://app.example.com"; " https://certs-social-*.vercel.app "];
     AllowedHeaders := []; AdminAPIKeySet := true |}.
End Example_cors.
Import Example_cors.
#[local] Existing Instance toy_url.

Example preview_allowed : allow (buildOriginMatcher (AllowedOrigins cfg)) "https://certs-social-abc.vercel.app" = true.
Proof. by vm_compute. Qed.
Example nested_refused : allow (buildOriginMatcher (AllowedOrigins cfg)) "https://certs-social-a.b.vercel.app" = false.
Proof. by vm_compute. Qed.

Lemma CORSMiddleware_origins_witness :
  let '(h, r) := CORSMiddleware cfg "https://certs-social-abc.vercel.app" "OPTIONS" in
  (AllowedOrigins cfg = [] -> h !! "Access-Control-Allow-Origin" = Some "*") /\
  (AllowedOrigins cfg <> [] ->
     (h !! "Access-Control-Allow-Origin" = Some "https://certs-social-abc.vercel.app" /\
      h !! "Vary" = Some "Origin" <->
        exists raw, raw ∈ AllowedOrigins cfg /\ entry_allows raw "https://certs-social-abc.vercel.app") /\
     (h !! "Access-Control-Allow-Origin" = None <->
        ~ exists raw, raw ∈ AllowedOrigins cfg /\ entry_allows raw "https://certs-social-abc.vercel.app")) /\
  (r = NoContent <-> "OPTIONS" = "OPTIONS").
Proof. apply (CORSMiddleware_origins cfg "https://certs-social-abc.vercel.app" "OPTIONS"). done. Defined.
