(* ===== verification/TokenEndpoint.v ===== *)
(** The token endpoint: [internal/server/oauth_handlers.go] (token, revocation
    and cleanup handlers), with [internal/oauth/pkce.go], the verification of
    [internal/oauth/dpop.go], the types of [internal/oauth/types.go] and the
    tables of the repositories it calls. A handler is a program of database
    calls, so that requests can be interleaved call by call. *)
From S2P Require Import Prelude GoStrings Base64.

Local Open Scope Z_scope.

(** SHA-256, the JSON of a proof's header, and the JWT library: the claims of a token
    whose signature and registered claims hold, at the time of the call, for the
    key it was given. What the claims are is read from the token. *)
Record JWK := { Kty : string; Crv : string; X : string; Y : string }.
Record DPoPHeader := { Typ : string; Alg : string; h_JWK : option JWK }.
Record DPoPClaims :=
  { HTM : string; HTU : string; ATH : string; c_ID : string; IssuedAt : option Z }.
Class CryptoLib := {
  sha256 : string -> string;
  parse_header : string -> option DPoPHeader;
  jwt_verify : Z -> string -> string -> string -> option DPoPClaims; (* time, proof, x, y *)
  jwt_claims now now' proof x y c c' : jwt_verify now proof x y = Some c ->
    jwt_verify now' proof x y = Some c' -> c = c'
}.

(** ** PKCE and proofs of possession *)

Section Proofs.
Context `{CryptoLib}.

Definition GenerateCodeChallenge (verifier : string) : string := EncodeToString (sha256 verifier).

Definition VerifyCodeChallenge (verifier challenge method : string) : bool :=
  if String.eqb method "S256" then String.eqb (GenerateCodeChallenge verifier) challenge
  else if String.eqb method "plain" then String.eqb verifier challenge
  else false.

Inductive dpop_error :=
| ErrDPoPInvalidFormat | ErrDPoPInvalidTyp | ErrDPoPInvalidAlg | ErrDPoPMissingJWK
| ErrDPoPInvalidJWK | ErrDPoPKeyDecode | ErrDPoPInvalidSignature | ErrDPoPMethodMismatch
| ErrDPoPURLMismatch | ErrDPoPMissingJTI | ErrDPoPMissingIAT | ErrDPoPTooOld | ErrDPoPInFuture
| ErrDPoPReplay | EDPoPDatabase.

Record DPoPValidationResult := { JKT : string; JTI : string; IAT : Z; r_ATH : string }.

(** The canonical JSON of the key, hashed. *)
Definition CalculateJKTFromJWK (jwk : JWK) : string :=
  let member name value := dq +:+ name +:+ dq +:+ ":" +:+ dq +:+ value +:+ dq in
  EncodeToString (sha256 ("{" +:+ member "crv" (Crv jwk) +:+ "," +:+ member "kty" (Kty jwk) +:+ ","
              +:+ member "x" (X jwk) +:+ "," +:+ member "y" (Y jwk) +:+ "}")).

Definition need (b : bool) (e : dpop_error) : result dpop_error unit := guard_err b e.
Definition some_or {A} (o : option A) (e : dpop_error) : result dpop_error A :=
  match o with Some a => Ok a | None => Err e end.

Definition VerifyDPoPProof (now : Z) (proof method url : string) (maxAgeSeconds : Z)
  : result dpop_error DPoPValidationResult :=
  match split proof "." with
  | [p0; _; _] =>
      headerBytes ← some_or (DecodeString p0) ErrDPoPInvalidFormat;
      header ← some_or (parse_header headerBytes) ErrDPoPInvalidFormat;
      _ ← need (String.eqb (Typ header) "dpop+jwt") ErrDPoPInvalidTyp;
      _ ← need (String.eqb (Alg header) "ES256") ErrDPoPInvalidAlg;
      jwk ← some_or (h_JWK header) ErrDPoPMissingJWK;
      _ ← need (String.eqb (Kty jwk) "EC" && String.eqb (Crv jwk) "P-256") ErrDPoPInvalidJWK;
      x ← some_or (DecodeString (X jwk)) ErrDPoPKeyDecode;
      y ← some_or (DecodeString (Y jwk)) ErrDPoPKeyDecode;
      claims ← some_or (jwt_verify now proof x y) ErrDPoPInvalidSignature;
      _ ← need (String.eqb (HTM claims) method) ErrDPoPMethodMismatch;
      _ ← need (String.eqb (HTU claims) url) ErrDPoPURLMismatch;
      _ ← need (negb (is_empty (c_ID claims))) ErrDPoPMissingJTI;
      iat ← some_or (IssuedAt claims) ErrDPoPMissingIAT;
      _ ← need (negb (maxAgeSeconds <? now - iat)) ErrDPoPTooOld;
      _ ← need (negb (now + 60 <? iat)) ErrDPoPInFuture;
      Ok {| JKT := CalculateJKTFromJWK jwk; JTI := c_ID claims; IAT := iat;
            r_ATH := ATH claims |}
  | _ => Err ErrDPoPInvalidFormat
  end.

Definition DefaultMaxDPoPAge : Z := 300.
Definition DPoPJTICleanupSkewSeconds : Z := 30.
End Proofs.

(** ** Tables *)

Definition ClientPublic : string := "public".
Definition ClientConfidential : string := "confidential".
Record Client := {
  cl_ClientID : string; cl_ClientSecret : option string; cl_ClientName : string;
  cl_RedirectURIs : list string; cl_GrantTypes : list string; cl_ResponseTypes : list string;
  cl_Scope : option string; cl_TokenEndpointAuthMethod : string; cl_ClientType : string;
  cl_CreatedAt : Z; cl_UpdatedAt : Z; cl_Metadata : string; cl_AccessTokenExpiration : Z;
  cl_RefreshTokenExpiration : Z; cl_RequireRedirectExact : bool;
  cl_RegistrationAccessToken : option string; cl_JWKS : option string
}.

Record AuthorizationCode := {
  Code : string; ac_ClientID : string; ac_UserID : string; ac_SessionID : option string;
  ac_SessionIteration : option Z; RedirectURI : string; ac_Scope : option string;
  CodeChallenge : option string; CodeChallengeMethod : option string; ac_Nonce : option string;
  ac_CreatedAt : Z; ac_ExpiresAt : Z; Used : bool
}.

Record AccessToken := {
  at_Token : string; TokenType : string; at_ClientID : string; at_UserID : option string;
  at_SessionID : option string; at_Scope : option string; at_CreatedAt : Z; at_ExpiresAt : Z;
  at_Revoked : bool; at_DPoPJKT : option string
}.

Record RefreshToken := {
  rt_Token : string; rt_AccessToken : string; rt_ClientID : string; rt_UserID : string;
  rt_SessionID : option string; rt_Scope : option string; rt_CreatedAt : Z;
  rt_ExpiresAt : option Z; rt_Revoked : bool; DPoPJKT : string; OriginalIssuedAt : Z
}.

Definition code_expired (now : Z) (c : AuthorizationCode) : bool := ac_ExpiresAt c <? now.
Definition refresh_expired (now : Z) (t : RefreshToken) : bool :=
  match rt_ExpiresAt t with None => false | Some e => e <? now end.

Record store := {
  clients : gmap string Client;
  authCodes : gmap string AuthorizationCode;
  accessTokens : gmap string AccessToken;
  refreshTokens : gmap string RefreshToken;
  dpopJTIs : gmap string Z
}.

Definition use_code (c : AuthorizationCode) : AuthorizationCode :=
  {| Code := Code c; ac_ClientID := ac_ClientID c; ac_UserID := ac_UserID c;
     ac_SessionID := ac_SessionID c; ac_SessionIteration := ac_SessionIteration c;
     RedirectURI := RedirectURI c; ac_Scope := ac_Scope c; CodeChallenge := CodeChallenge c;
     CodeChallengeMethod := CodeChallengeMethod c; ac_Nonce := ac_Nonce c; ac_CreatedAt := ac_CreatedAt c; ac_ExpiresAt := ac_ExpiresAt c; Used := true |}.
Definition revoke_access (t : AccessToken) : AccessToken :=
  {| at_Token := at_Token t; TokenType := TokenType t; at_ClientID := at_ClientID t;
     at_UserID := at_UserID t; at_SessionID := at_SessionID t; at_Scope := at_Scope t;
     at_CreatedAt := at_CreatedAt t; at_ExpiresAt := at_ExpiresAt t; at_Revoked := true;
     at_DPoPJKT := at_DPoPJKT t |}.
Definition revoke_refresh (t : RefreshToken) : RefreshToken :=
  {| rt_Token := rt_Token t; rt_AccessToken := rt_AccessToken t; rt_ClientID := rt_ClientID t;
     rt_UserID := rt_UserID t; rt_SessionID := rt_SessionID t; rt_Scope := rt_Scope t;
     rt_CreatedAt := rt_CreatedAt t; rt_ExpiresAt := rt_ExpiresAt t; rt_Revoked := true;
     DPoPJKT := DPoPJKT t; OriginalIssuedAt := OriginalIssuedAt t |}.
(** [Insert] stores the creation time when no original issue time is given. *)
Definition stored_refresh (t : RefreshToken) : RefreshToken :=
  {| rt_Token := rt_Token t; rt_AccessToken := rt_AccessToken t; rt_ClientID := rt_ClientID t;
     rt_UserID := rt_UserID t; rt_SessionID := rt_SessionID t; rt_Scope := rt_Scope t;
     rt_CreatedAt := rt_CreatedAt t; rt_ExpiresAt := rt_ExpiresAt t; rt_Revoked := rt_Revoked t;
     DPoPJKT := DPoPJKT t;
     OriginalIssuedAt := if OriginalIssuedAt t =? 0 then rt_CreatedAt t else OriginalIssuedAt t |}.

(** ** Database calls and programs of them *)

Inductive cmd : Set -> Type :=
| GetClient (id : string) : cmd (option Client)
| GetCode (code : string) : cmd (option AuthorizationCode)
| MarkUsed (code : string) : cmd unit
| InsertAccess (t : AccessToken) : cmd unit
| RevokeAccess (token : string) : cmd unit
| GetRefresh (token : string) : cmd (option RefreshToken)
| InsertRefresh (t : RefreshToken) : cmd unit
| RevokeRefresh (token : string) : cmd unit
| InsertIfNew (jti : string) (createdAt : Z) : cmd bool.

Definition set_codes (s : store) (m : gmap string AuthorizationCode) : store :=
  {| clients := clients s; authCodes := m; accessTokens := accessTokens s;
     refreshTokens := refreshTokens s; dpopJTIs := dpopJTIs s |}.
Definition set_access (s : store) (m : gmap string AccessToken) : store :=
  {| clients := clients s; authCodes := authCodes s; accessTokens := m;
     refreshTokens := refreshTokens s; dpopJTIs := dpopJTIs s |}.
Definition set_refresh (s : store) (m : gmap string RefreshToken) : store :=
  {| clients := clients s; authCodes := authCodes s; accessTokens := accessTokens s;
     refreshTokens := m; dpopJTIs := dpopJTIs s |}.
Definition set_jtis (s : store) (m : gmap string Z) : store :=
  {| clients := clients s; authCodes := authCodes s; accessTokens := accessTokens s;
     refreshTokens := refreshTokens s; dpopJTIs := m |}.

Definition present {A} (o : option A) : bool := match o with Some _ => true | None => false end.

(** The operations of the repositories on working tables. An insertion fails on
    a primary key that is taken and for a client that is not there. *)
Definition authCodes_MarkUsed (code : string) (s : store) : store :=
  set_codes s (alter use_code code (authCodes s)).
Definition accessTokens_Insert (t : AccessToken) (s : store) : option unit * store :=
  if present (accessTokens s !! at_Token t) || negb (present (clients s !! at_ClientID t))
  then (None, s) else (Some tt, set_access s (<[at_Token t := t]> (accessTokens s))).
Definition accessTokens_Revoke (token : string) (s : store) : store :=
  set_access s (alter revoke_access token (accessTokens s)).
Definition refreshTokens_Insert (t : RefreshToken) (s : store) : option unit * store :=
  if present (refreshTokens s !! rt_Token t) || negb (present (clients s !! rt_ClientID t))
  then (None, s)
  else (Some tt, set_refresh s (<[rt_Token t := stored_refresh t]> (refreshTokens s))).
Definition refreshTokens_Revoke (token : string) (s : store) : store :=
  set_refresh s (alter revoke_refresh token (refreshTokens s)).
Definition InsertIfNew_ (jti : string) (createdAt : Z) (s : store) : option bool * store :=
  match dpopJTIs s !! jti with
  | Some _ => (Some false, s)
  | None => (Some true, set_jtis s (<[jti := createdAt]> (dpopJTIs s)))
  end.
Definition authCodes_DeleteExpired (before : Z) (s : store) : store :=
  set_codes s (filter (fun p => negb (ac_ExpiresAt p.2 <? before) = true) (authCodes s)).
Definition accessTokens_DeleteExpired (before : Z) (s : store) : store :=
  set_access s (filter (fun p => negb (at_ExpiresAt p.2 <? before) = true) (accessTokens s)).
Definition DeleteOlderThan (before : Z) (s : store) : store :=
  set_jtis s (filter (fun p => negb (p.2 <? before) = true) (dpopJTIs s)).
Arguments authCodes_MarkUsed code s /.
Arguments accessTokens_Insert t s /.
Arguments accessTokens_Revoke token s /.
Arguments refreshTokens_Insert t s /.
Arguments refreshTokens_Revoke token s /.
Arguments InsertIfNew_ jti createdAt s /.

(** A call on working tables: the answer and the tables after it. *)
Definition apply {B} (c : cmd B) (s : store) : option B * store :=
  match c with
  | GetClient id => (Some (clients s !! id), s)
  | GetCode code => (Some (authCodes s !! code), s)
  | MarkUsed code => (Some tt, authCodes_MarkUsed code s)
  | InsertAccess t => accessTokens_Insert t s
  | RevokeAccess token => (Some tt, accessTokens_Revoke token s)
  | GetRefresh token => (Some (refreshTokens s !! token), s)
  | InsertRefresh t => refreshTokens_Insert t s
  | RevokeRefresh token => (Some tt, refreshTokens_Revoke token s)
  | InsertIfNew jti at_ => InsertIfNew_ jti at_ s
  end.

(** What becomes of a call: it works, fails before it has any effect, or takes
    effect and its answer is lost. *)
Inductive fate := Works | Fails | AnswerLost.
Definition exec {B} (f : fate) (c : cmd B) (s : store) : option B * store :=
  match f with
  | Works => apply c s
  | Fails => (None, s)
  | AnswerLost => (None, (apply c s).2)
  end.

Record TokenResponse := {
  resp_AccessToken : string; resp_TokenType : string; ExpiresIn : Z; resp_RefreshToken : string;
  resp_Scope : option string; Sub : string
}.
(** The descriptions of errors, texts for the reader, are left out. *)
Inductive response := Issued (r : TokenResponse) | OAuthError (status : Z) (code : string) | Revoked_.

Inductive prog :=
| Ret (r : response)
| Do {B : Set} (c : cmd B) (k : option B -> prog).

Definition invalid_request : response := OAuthError 400 "invalid_request".
Definition invalid_grant : response := OAuthError 400 "invalid_grant".
Definition server_error : response := OAuthError 500 "server_error".

(** A call whose error ends the handler. *)
Definition call {B : Set} (c : cmd B) (k : B -> prog) : prog :=
  Do c (fun o => match o with Some b => k b | None => Ret server_error end).
Notation "'check' b 'or' e ';' k" := (if b then k else Ret e)
  (at level 200, b at level 100, e at level 100, k at level 200).

(** ** Handlers *)

Record OAuthHandlerConfig := {
  ExternalBaseURL : string;
  AccessTokenExpiration : Z;
  RefreshTokenExpiration : Z;
  LegacyDPoPJKTCutoff : Z
}.

(** A request: its form, its proof header (empty without one), the time at which
    it is served, and what crypto/rand gives for the two tokens. *)
Record Request := {
  form : gmap string string;
  DPoP : string;
  time : Z;
  randomAccess : option string;
  randomRefresh : option string
}.
Definition Form (r : Request) (key : string) : string := default "" (form r !! key).

Section Handlers.
Context `{CryptoLib} (h : OAuthHandlerConfig).

Definition validateDPoP (r : Request) (client : Client) (k : option string -> prog) : prog :=
  if is_empty (DPoP r) then k None
  else
    match VerifyDPoPProof (time r) (DPoP r) "POST" (ExternalBaseURL h +:+ "/oauth/token")
            DefaultMaxDPoPAge with
    | Err _ => Ret (OAuthError 400 "invalid_dpop_proof")
    | Ok res => Do (InsertIfNew (JTI res) (IAT res)) (fun o =>
                  match o with
                  | Some true => k (Some (JKT res))
                  | _ => Ret (OAuthError 400 "invalid_dpop_proof")
                  end)
    end.

Definition checkRefreshTokenDPoPBinding (token : RefreshToken) (incomingJKT : option string) : bool :=
  let incoming := default "" incomingJKT in
  if negb (is_empty (DPoPJKT token))
  then negb (is_empty incoming) && String.eqb (DPoPJKT token) incoming
  else OriginalIssuedAt token <? LegacyDPoPJKTCutoff h.

(** The check of the code verifier. *)
Definition pkce_result (c : AuthorizationCode) (codeVerifier : string) : option response :=
  match CodeChallenge c with
  | Some challenge =>
      if is_empty challenge then None
      else if is_empty codeVerifier then Some invalid_request
      else if VerifyCodeChallenge codeVerifier challenge (default "S256" (CodeChallengeMethod c))
      then None else Some invalid_grant
  | None => None
  end.

Definition token_type (jkt : option string) : string := if present jkt then "DPoP" else "Bearer".

Definition refresh_expiry (now : Z) : option Z :=
  if 0 <? RefreshTokenExpiration h then Some (now + RefreshTokenExpiration h) else None.

(** Storing the two new tokens; [k] gets their texts. *)
Definition store_tokens (r : Request) (jkt : option string)
    (mkAccess : string -> AccessToken) (mkRefresh : string -> string -> RefreshToken)
    (k : string -> string -> prog) : prog :=
  match randomAccess r with
  | None => Ret server_error
  | Some accessTokenStr =>
      match randomRefresh r with
      | None => Ret server_error
      | Some refreshTokenStr =>
          call (InsertAccess (mkAccess accessTokenStr)) (fun _ =>
          call (InsertRefresh (mkRefresh accessTokenStr refreshTokenStr)) (fun _ =>
          k accessTokenStr refreshTokenStr))
      end
  end.

Definition answer (jkt : option string) (a r : string) (scope : option string) (sub : string)
  : response :=
  Issued {| resp_AccessToken := a; resp_TokenType := token_type jkt;
            ExpiresIn := AccessTokenExpiration h; resp_RefreshToken := r; resp_Scope := scope;
            Sub := sub |}.

(** The access token of both grants. *)
Definition new_access (r : Request) (jkt : option string) (clientID user : string)
    (session scope : option string) (token : string) : AccessToken :=
  {| at_Token := token; TokenType := token_type jkt; at_ClientID := clientID;
     at_UserID := Some user; at_SessionID := session; at_Scope := scope;
     at_CreatedAt := time r; at_ExpiresAt := time r + AccessTokenExpiration h;
     at_Revoked := false; at_DPoPJKT := jkt |}.

Definition new_refresh (r : Request) (clientID user : string) (session scope : option string)
    (jkt : string) (original : Z) (access token : string) : RefreshToken :=
  {| rt_Token := token; rt_AccessToken := access; rt_ClientID := clientID; rt_UserID := user;
     rt_SessionID := session; rt_Scope := scope; rt_CreatedAt := time r;
     rt_ExpiresAt := refresh_expiry (time r); rt_Revoked := false; DPoPJKT := jkt;
     OriginalIssuedAt := original |}.

Definition handleAuthorizationCodeGrant (r : Request) : prog :=
  let codeStr := Form r "code" in
  let clientID := Form r "client_id" in
  let redirectURI := Form r "redirect_uri" in
  check negb (is_empty codeStr) or invalid_request;
  check negb (is_empty clientID) or invalid_request;
  check negb (is_empty redirectURI) or invalid_request;
  call (GetClient clientID) (fun client =>
  match client with
  | None => Ret (OAuthError 401 "invalid_client")
  | Some client =>
  call (GetCode codeStr) (fun authCode =>
  match authCode with
  | None => Ret invalid_grant
  | Some authCode =>
      check negb (Used authCode) or invalid_grant;
      check negb (code_expired (time r) authCode) or invalid_grant;
      check String.eqb (ac_ClientID authCode) clientID or invalid_grant;
      check String.eqb (RedirectURI authCode) redirectURI or invalid_grant;
      match pkce_result authCode (Form r "code_verifier") with
      | Some e => Ret e
      | None =>
          validateDPoP r client (fun dpopJKT =>
          call (MarkUsed codeStr) (fun _ =>
          store_tokens r dpopJKT
            (new_access r dpopJKT clientID (ac_UserID authCode) (ac_SessionID authCode)
               (ac_Scope authCode))
            (new_refresh r clientID (ac_UserID authCode) (ac_SessionID authCode)
               (ac_Scope authCode) (default "" dpopJKT) (time r))
            (fun a t => Ret (answer dpopJKT a t (ac_Scope authCode) (ac_UserID authCode)))))
      end
  end)
  end).

Definition handleRefreshTokenGrant (r : Request) : prog :=
  let refreshTokenStr := Form r "refresh_token" in
  let clientID := Form r "client_id" in
  check negb (is_empty refreshTokenStr) or invalid_request;
  check negb (is_empty clientID) or invalid_request;
  call (GetClient clientID) (fun client =>
  match client with
  | None => Ret (OAuthError 401 "invalid_client")
  | Some client =>
  call (GetRefresh refreshTokenStr) (fun old =>
  match old with
  | None => Ret invalid_grant
  | Some old =>
      check negb (rt_Revoked old) or invalid_grant;
      check negb (refresh_expired (time r) old) or invalid_grant;
      check String.eqb (rt_ClientID old) clientID or invalid_grant;
      validateDPoP r client (fun dpopJKT =>
      check checkRefreshTokenDPoPBinding old dpopJKT or invalid_grant;
      store_tokens r dpopJKT
        (new_access r dpopJKT clientID (rt_UserID old) (rt_SessionID old) (rt_Scope old))
        (new_refresh r clientID (rt_UserID old) (rt_SessionID old) (rt_Scope old) (DPoPJKT old)
           (OriginalIssuedAt old))
        (fun a t =>
           call (RevokeRefresh refreshTokenStr) (fun _ =>
           Ret (answer dpopJKT a t (rt_Scope old) (rt_UserID old)))))
  end)
  end).

(** A POST request whose form could be parsed. *)
Definition HandleToken (r : Request) : prog :=
  if String.eqb (Form r "grant_type") "authorization_code" then handleAuthorizationCodeGrant r
  else if String.eqb (Form r "grant_type") "refresh_token" then handleRefreshTokenGrant r
  else Ret (OAuthError 400 "unsupported_grant_type").

Definition HandleRevoke (r : Request) : prog :=
  let token := Form r "token" in
  check negb (is_empty token) or invalid_request;
  Do (RevokeAccess token) (fun _ => Do (RevokeRefresh token) (fun _ => Ret Revoked_)).
End Handlers.

(** One tick of the cleanup worker; each deletion may fail, which is logged. *)
Record works := { w_codes : bool; w_access : bool; w_jtis : bool }.
Definition cleanup (w : works) (now : Z) (s : store) : store :=
  let s1 := if w_codes w then authCodes_DeleteExpired now s else s in
  let s2 := if w_access w then accessTokens_DeleteExpired now s1 else s1 in
  if w_jtis w then DeleteOlderThan (now - DefaultMaxDPoPAge - DPoPJTICleanupSkewSeconds) s2 else s2.

(** ** Interleavings *)

(** The tables, the requests in flight and, for the statements, the codes that
    were ever issued. *)
Record config := { tables : store; threads : list prog; issued : list AuthorizationCode }.

(** A code is issued, a request arrives, one of the requests makes its next
    call, or the cleanup worker ticks. *)
Inductive step `{CryptoLib} (h : OAuthHandlerConfig) : config -> config -> Prop :=
| step_issue s ts H0 c : authCodes s !! Code c = None ->
    step h {| tables := s; threads := ts; issued := H0 |}
           {| tables := set_codes s (<[Code c := c]> (authCodes s)); threads := ts;
              issued := c :: H0 |}
| step_token s ts H0 r :
    step h {| tables := s; threads := ts; issued := H0 |}
           {| tables := s; threads := ts ++ [HandleToken h r]; issued := H0 |}
| step_revoke s ts H0 r :
    step h {| tables := s; threads := ts; issued := H0 |}
           {| tables := s; threads := ts ++ [HandleRevoke r]; issued := H0 |}
| step_call s ts H0 i (B : Set) (c : cmd B) k f : ts !! i = Some (Do c k) ->
    step h {| tables := s; threads := ts; issued := H0 |}
           {| tables := (exec f c s).2; threads := <[i := k (exec f c s).1]> ts; issued := H0 |}
| step_cleanup s ts H0 w now :
    step h {| tables := s; threads := ts; issued := H0 |}
           {| tables := cleanup w now s; threads := ts; issued := H0 |}.

(** A server that has issued nothing yet. *)
Definition started (cls : gmap string Client) : config :=
  {| tables := {| clients := cls; authCodes := ∅; accessTokens := ∅; refreshTokens := ∅;
                  dpopJTIs := ∅ |}; threads := []; issued := [] |}.

(** *** What every token stands for *)

Definition access_ok (H0 : list AuthorizationCode) (t : AccessToken) : Prop :=
  TokenType t = token_type (at_DPoPJKT t) /\
  exists c, c ∈ H0 /\ at_ClientID t = ac_ClientID c /\ at_UserID t = Some (ac_UserID c) /\
    at_SessionID t = ac_SessionID c /\ at_Scope t = ac_Scope c.
Definition refresh_ok (H0 : list AuthorizationCode) (t : RefreshToken) : Prop :=
  exists c, c ∈ H0 /\ rt_ClientID t = ac_ClientID c /\ rt_UserID t = ac_UserID c /\
    rt_SessionID t = ac_SessionID c /\ rt_Scope t = ac_Scope c.
Definition code_ok (H0 : list AuthorizationCode) (c : AuthorizationCode) : Prop :=
  exists c0, c0 ∈ H0 /\ (c = c0 \/ c = use_code c0).

Definition tables_ok (H0 : list AuthorizationCode) (s : store) : Prop :=
  map_Forall (fun _ => code_ok H0) (authCodes s) /\
  map_Forall (fun _ => access_ok H0) (accessTokens s) /\
  map_Forall (fun _ => refresh_ok H0) (refreshTokens s).

(** What a call may store, and what its answer may be. *)
Definition grants {B} (H0 : list AuthorizationCode) (c : cmd B) : Prop :=
  match c with
  | InsertAccess t => access_ok H0 t
  | InsertRefresh t => refresh_ok H0 t
  | _ => True
  end.
Definition plausible {B} (H0 : list AuthorizationCode) (c : cmd B) : option B -> Prop :=
  match c with
  | GetCode _ => fun o => forall a, o = Some (Some a) -> code_ok H0 a
  | GetRefresh _ => fun o => forall t, o = Some (Some t) -> refresh_ok H0 t
  | _ => fun _ => True
  end.

(** A program that keeps the tables so, whatever the others do meanwhile: codes
    may only be added. *)
Fixpoint safe (H0 : list AuthorizationCode) (p : prog) : Prop :=
  match p with
  | Ret _ => True
  | Do c k => grants H0 c /\ forall H1 o, H0 ⊆ H1 -> plausible H1 c o -> safe H1 (k o)
  end.

Lemma access_ok_mono H0 H1 t : H0 ⊆ H1 -> access_ok H0 t -> access_ok H1 t.
Proof. intros Hs [Hty (c & Hc & Hr)]. split; [done|]. exists c. auto. Qed.
Lemma refresh_ok_mono H0 H1 t : H0 ⊆ H1 -> refresh_ok H0 t -> refresh_ok H1 t.
Proof. intros Hs (c & Hc & Hr). exists c. auto. Qed.
Lemma code_ok_mono H0 H1 c : H0 ⊆ H1 -> code_ok H0 c -> code_ok H1 c.
Proof. intros Hs (c0 & Hc & Hr). exists c0. auto. Qed.

Lemma tables_ok_mono H0 H1 s : H0 ⊆ H1 -> tables_ok H0 s -> tables_ok H1 s.
Proof.
  intros Hs (Hc & Ha & Hr).
  split_and!; eapply map_Forall_impl; eauto using code_ok_mono, access_ok_mono, refresh_ok_mono.
Qed.

Lemma safe_mono H0 H1 p : H0 ⊆ H1 -> safe H0 p -> safe H1 p.
Proof.
  intros Hs. destruct p as [r|B c k]; [done|]. intros [Hg Hk]. split.
  - destruct c; try done; [by eapply access_ok_mono|by eapply refresh_ok_mono].
  - intros H2 o H12. apply Hk. by etrans.
Qed.

Lemma map_Forall_alter {A} (P : A -> Prop) (f : A -> A) k (m : gmap string A) :
  (forall a, P a -> P (f a)) -> map_Forall (fun _ => P) m -> map_Forall (fun _ => P) (alter f k m).
Proof.
  intros Hf Hm i a. rewrite lookup_alter_Some. intros [(-> & b & Hb & ->)|[_ Ha]]; [|eauto].
  apply Hf. eauto.
Qed.

Lemma use_code_ok H0 c : code_ok H0 c -> code_ok H0 (use_code c).
Proof. intros (c0 & Hc & [-> | ->]); exists c0; split; auto. Qed.

Lemma apply_ok {B} H0 (c : cmd B) s : tables_ok H0 s -> grants H0 c ->
  tables_ok H0 (apply c s).2 /\ plausible H0 c (apply c s).1.
Proof.
  intros Hs Hg. pose proof Hs as (Hc & Ha & Hr). destruct c; cbn in *.
  - done.
  - split; [done|]. intros a [= Hl]. eauto.
  - split; [|done]. split_and!; [|done..]. apply map_Forall_alter; [apply use_code_ok|done].
  - case_match; [done|]. split; [|done]. split_and!; [done| |done]. by apply map_Forall_insert_2.
  - split; [|done]. split_and!; [done| |done]. by apply map_Forall_alter.
  - split; [done|]. intros a [= Hl]. eauto.
  - case_match; [done|]. split; [|done]. split_and!; [done..|]. by apply map_Forall_insert_2.
  - split; [|done]. split_and!; [done..|]. by apply map_Forall_alter.
  - case_match; [done|]. by split.
Qed.

Lemma exec_ok {B} H0 f (c : cmd B) s : tables_ok H0 s -> grants H0 c ->
  tables_ok H0 (exec f c s).2 /\ plausible H0 c (exec f c s).1.
Proof.
  intros Hs Hg. destruct (apply_ok H0 c s Hs Hg) as [H1 H2].
  destruct f; cbn; [done|split; [done|]..]; by destruct c.
Qed.

Lemma cleanup_ok H0 w now s : tables_ok H0 s -> tables_ok H0 (cleanup w now s).
Proof.
  intros (Hc & Ha & Hr). destruct w as [[] [] []]; split_and!; cbn; try done;
    intros i a [Hl _]%map_lookup_filter_Some; eauto.
Qed.

Section Safety.
Context `{CryptoLib} (h : OAuthHandlerConfig).

(** Takes the branch of a check that lets the request go on. *)
Ltac checked :=
  match goal with |- safe _ (if ?b then _ else _) => destruct b; [|done] end.

Lemma safe_call (B : Set) H0 (c : cmd B) k : grants H0 c ->
  (forall H1 b, H0 ⊆ H1 -> plausible H1 c (Some b) -> safe H1 (k b)) -> safe H0 (call c k).
Proof. intros Hg Hk. split; [done|]. intros H1 [b|] Hs Hp; [auto|done]. Qed.

Lemma safe_validateDPoP H0 r client k :
  (forall H1 jkt, H0 ⊆ H1 -> safe H1 (k jkt)) -> safe H0 (validateDPoP h r client k).
Proof.
  intros Hk. unfold validateDPoP. destruct (is_empty (DPoP r)); [by apply Hk|].
  destruct (VerifyDPoPProof _ _ _ _ _); [|done]. split; [done|].
  intros H1 [[]|] Hs _; [by apply Hk|done..].
Qed.

Lemma safe_store H0 r jkt mkA mkR k :
  (forall a, access_ok H0 (mkA a)) -> (forall a t, refresh_ok H0 (mkR a t)) ->
  (forall H1 a t, safe H1 (k a t)) -> safe H0 (store_tokens r jkt mkA mkR k).
Proof.
  intros Ha Hr Hk. unfold store_tokens. destruct (randomAccess r); [|done].
  destruct (randomRefresh r); [|done].
  apply safe_call; [apply Ha|]. intros H1 _ H01 _. apply safe_call; [|by intros].
  by eapply refresh_ok_mono.
Qed.

Lemma safe_code_grant H0 r : safe H0 (handleAuthorizationCodeGrant h r).
Proof.
  unfold handleAuthorizationCodeGrant. do 3 checked.
  apply safe_call; [done|]. intros G1 [client|] _ _; [|done].
  apply safe_call; [done|]. intros G2 [c|] _ Hp; [|done].
  destruct (Hp c eq_refl) as (c0 & Hc0 & Hcc).
  do 2 checked.
  destruct (String.eqb_spec (ac_ClientID c) (Form r "client_id")) as [Hid|]; [|done].
  checked. destruct (pkce_result _ _); [done|].
  apply safe_validateDPoP. intros G3 jkt G23. apply safe_call; [done|]. intros G4 _ G34 _.
  assert (c0 ∈ G4) by auto.
  apply safe_store; [| |done].
  - intros a. split; [done|]. exists c0. cbn. rewrite <-Hid. by destruct Hcc as [-> | ->].
  - intros a t. exists c0. cbn. rewrite <-Hid. by destruct Hcc as [-> | ->].
Qed.

Lemma safe_refresh_grant H0 r : safe H0 (handleRefreshTokenGrant h r).
Proof.
  unfold handleRefreshTokenGrant. do 2 checked.
  apply safe_call; [done|]. intros G1 [client|] _ _; [|done].
  apply safe_call; [done|]. intros G2 [old|] _ Hp; [|done].
  destruct (Hp old eq_refl) as (c0 & Hc0 & Hid & Hu & Hse & Hsc).
  do 2 checked.
  destruct (String.eqb_spec (rt_ClientID old) (Form r "client_id")) as [Hcl|]; [|done].
  apply safe_validateDPoP. intros G3 jkt G23. checked.
  assert (c0 ∈ G3) by auto.
  apply safe_store.
  - intros a. split; [done|]. exists c0. cbn. rewrite <-Hcl. by rewrite Hu.
  - intros a t. exists c0. cbn. by rewrite <-Hcl.
  - intros G4 a t. by apply safe_call.
Qed.

Lemma safe_token H0 r : safe H0 (HandleToken h r).
Proof.
  unfold HandleToken. destruct (String.eqb _ _); [apply safe_code_grant|].
  destruct (String.eqb _ _); [apply safe_refresh_grant|done].
Qed.

Lemma safe_revoke H0 r : safe H0 (HandleRevoke r).
Proof.
  unfold HandleRevoke. checked. split; [done|]. intros G1 o _ _. by split.
Qed.

Definition config_ok (c : config) : Prop :=
  tables_ok (issued c) (tables c) /\ Forall (safe (issued c)) (threads c).

Lemma step_ok c c' : step h c c' -> config_ok c -> config_ok c'.
Proof.
  intros Hs [Ht Hp]. destruct Hs as [s ts H0 c Hf|s ts H0 r|s ts H0 r|s ts H0 i B c k f Hi|];
    cbn in *; unfold config_ok; cbn [tables threads issued].
  - assert (H0 ⊆ c :: H0) as Hsub by set_solver. split.
    + destruct (tables_ok_mono _ _ _ Hsub Ht) as (H1 & H2 & H3). split_and!; [|done..].
      apply map_Forall_insert_2; [|done]. exists c. split; [by left|by left].
    + eapply Forall_impl; [exact Hp|]. intros p. by apply safe_mono.
  - split; [done|]. apply Forall_app. split; [done|]. by repeat constructor; apply safe_token.
  - split; [done|]. apply Forall_app. split; [done|]. by repeat constructor; apply safe_revoke.
  - destruct (Forall_lookup_1 _ _ _ _ Hp Hi) as [Hg Hk].
    destruct (exec_ok H0 f c s Ht Hg) as [Ht' Ho]. split; [done|].
    apply Forall_insert; [done|]. by apply Hk.
  - split; [by apply cleanup_ok|done].
Qed.

End Safety.

(** In every interleaving of issuing codes, token requests, revocations and
    the cleanup worker, with calls failing or losing their answers at any point,
    every access and refresh token in the tables stands for an authorization
    code that was issued: it has its client, user, session and scope, never a
    wider one through any chain of refreshes; and an access token is of the type
    DPoP exactly when it is bound to a key. *)
Theorem tokens_derive `{CryptoLib} h cls c : rtc (step h) (started cls) c ->
  (forall k t, accessTokens (tables c) !! k = Some t -> access_ok (issued c) t) /\
  (forall k t, refreshTokens (tables c) !! k = Some t -> refresh_ok (issued c) t).
Proof.
  intros Hr. assert (config_ok c) as [(_ & Ha & Ht) _]; [|by split; intros k t; [apply Ha|apply Ht]].
  assert (config_ok (started cls)) as H0
    by (split; [repeat (split; [apply map_Forall_empty|]); apply map_Forall_empty|by constructor]).
  revert H0. induction Hr as [|c1 c2 c3 Hs _ IH]; [done|]. intros Hc. by apply IH, (step_ok h c1).
Qed.

(** ** Requests served one at a time *)

(** The calls of a program with their fates in order; those without one work. *)
Fixpoint run (p : prog) (fs : list fate) (s : store) : response * store :=
  match p with
  | Ret r => (r, s)
  | Do c k => let a := exec (default Works (head fs)) c s in run (k a.1) (tail fs) a.2
  end.

Definition is_issued (r : response) : bool := match r with Issued _ => true | _ => false end.

Lemma run_call (B : Set) (c : cmd B) k fs s : is_issued (run (call c k) fs s).1 = true ->
  exists b, apply c s = (Some b, (apply c s).2) /\
    run (call c k) fs s = run (k b) (tail fs) (apply c s).2.
Proof.
  unfold call. cbn [run]. destruct (default Works (head fs)); cbn [exec fst snd]; [|done|done].
  destruct (apply c s) as [[b|] s']; [|done]. intros _. by exists b.
Qed.

(** What the proof of possession of a request is worth: the key it proves, if
    it has one, and the tables after it is recorded. *)
Definition proof_key `{CryptoLib} (h : OAuthHandlerConfig) (r : Request) (s : store)
  : option (option string * store) :=
  if is_empty (DPoP r) then Some (None, s)
  else match VerifyDPoPProof (time r) (DPoP r) "POST" (ExternalBaseURL h +:+ "/oauth/token")
               DefaultMaxDPoPAge with
       | Ok res => match dpopJTIs s !! JTI res with
                   | None => Some (Some (JKT res), set_jtis s (<[JTI res := IAT res]> (dpopJTIs s)))
                   | Some _ => None
                   end
       | Err _ => None
       end.

(** Computes what a repository does. *)
Ltac work := cbn [apply authCodes_MarkUsed accessTokens_Insert accessTokens_Revoke
  refreshTokens_Insert refreshTokens_Revoke InsertIfNew_] in *.

Section Sequential.
Context `{CryptoLib} (h : OAuthHandlerConfig).

Lemma run_validateDPoP r client k fs s : is_issued (run (validateDPoP h r client k) fs s).1 = true ->
  exists jkt s' fs', proof_key h r s = Some (jkt, s') /\
    run (validateDPoP h r client k) fs s = run (k jkt) fs' s'.
Proof.
  unfold validateDPoP, proof_key. destruct (is_empty (DPoP r)); [by eauto 10|].
  destruct (VerifyDPoPProof _ _ _ _ _) as [res|]; [|done]. cbn [run].
  destruct (default Works (head fs)); cbn [exec fst snd]; [|done|done]. work.
  destruct (dpopJTIs s !! JTI res); cbn [fst snd]; [done|]. by eauto 10.
Qed.

Lemma run_store_tokens r jkt mkA mkR k fs s :
  is_issued (run (store_tokens r jkt mkA mkR k) fs s).1 = true ->
  exists a t fs', randomAccess r = Some a /\ randomRefresh r = Some t /\
    accessTokens s !! at_Token (mkA a) = None /\ refreshTokens s !! rt_Token (mkR a t) = None /\
    run (store_tokens r jkt mkA mkR k) fs s = run (k a t) fs'
      (set_refresh (set_access s (<[at_Token (mkA a) := mkA a]> (accessTokens s)))
         (<[rt_Token (mkR a t) := stored_refresh (mkR a t)]> (refreshTokens s))).
Proof.
  unfold store_tokens. destruct (randomAccess r) as [a|]; [|done].
  destruct (randomRefresh r) as [t|]; [|done]. intros Hi.
  destruct (run_call _ _ _ _ _ Hi) as (u & Ha & Hr). rewrite Hr in Hi |- *. work.
  destruct (accessTokens s !! at_Token (mkA a)) eqn:Ea; cbn [present orb] in *; [done|].
  destruct (negb (present (clients s !! at_ClientID (mkA a)))); [done|]. cbn [fst snd] in *.
  destruct (run_call _ _ _ _ _ Hi) as (v & Hb & Hr2). rewrite Hr2. work.
  change (refreshTokens (set_access s ?m)) with (refreshTokens s) in *.
  destruct (refreshTokens s !! rt_Token (mkR a t)) eqn:Et; cbn [present orb] in *; [done|].
  destruct (negb (present (clients (set_access s _) !! _))); [done|]. cbn [fst snd] in *.
  by eauto 10.
Qed.

(** The verifier matches the challenge that the code was asked for with. *)
Definition pkce_ok (c : AuthorizationCode) (verifier : string) : Prop :=
  match CodeChallenge c with
  | None => True
  | Some challenge => challenge = "" \/
      verifier <> "" /\
      VerifyCodeChallenge verifier challenge (default "S256" (CodeChallengeMethod c)) = true
  end.

Lemma is_empty_spec s : is_empty s = true <-> s = "".
Proof. by destruct s. Qed.
Lemma not_empty_spec s : negb (is_empty s) = true <-> s <> "".
Proof. by destruct s. Qed.

Lemma pkce_result_None c v : pkce_result c v = None <-> pkce_ok c v.
Proof.
  unfold pkce_result, pkce_ok. destruct (CodeChallenge c) as [ch|]; [|done].
  destruct (is_empty ch) eqn:He; [apply is_empty_spec in He; naive_solver|].
  destruct (is_empty v) eqn:Hv.
  { apply is_empty_spec in Hv. split; [done|]. intros [-> |[? _]]; done. }
  destruct (VerifyCodeChallenge _ _ _) eqn:Hc; [|split; [done|]; intros [-> |[_ ?]]; done].
  split; [|done]. intros _. right. split; [|done]. by intros ->.
Qed.

Lemma pkce_result_Some c v e : pkce_result c v = Some e -> is_issued e = false.
Proof. unfold pkce_result. intros He. by repeat case_match; simplify_eq. Qed.

(** The conditions on the request, its client and its code. *)
Definition redeemable (r : Request) (s : store) (c : AuthorizationCode) : Prop :=
  authCodes s !! Form r "code" = Some c /\ Form r "code" <> "" /\
  Form r "client_id" <> "" /\ Form r "redirect_uri" <> "" /\
  is_Some (clients s !! Form r "client_id") /\
  Used c = false /\ time r <= ac_ExpiresAt c /\ ac_ClientID c = Form r "client_id" /\
  RedirectURI c = Form r "redirect_uri" /\ pkce_ok c (Form r "code_verifier").

(** The two new tokens, with texts that are not taken. *)
Definition fresh_tokens (r : Request) (s : store) (a t : string) : Prop :=
  randomAccess r = Some a /\ randomRefresh r = Some t /\
  accessTokens s !! a = None /\ refreshTokens s !! t = None.

Definition with_tokens (s : store) (a t : string) (acc : AccessToken) (ref : RefreshToken) : store :=
  set_refresh (set_access s (<[a := acc]> (accessTokens s)))
    (<[t := stored_refresh ref]> (refreshTokens s)).

(** The tables after a redemption. *)
Definition redeemed (r : Request) (c : AuthorizationCode) (jkt : option string) (a t : string)
    (s1 : store) : store :=
  with_tokens (set_codes s1 (alter use_code (Form r "code") (authCodes s1))) a t
    (new_access h r jkt (ac_ClientID c) (ac_UserID c) (ac_SessionID c) (ac_Scope c) a)
    (new_refresh h r (ac_ClientID c) (ac_UserID c) (ac_SessionID c) (ac_Scope c)
       (default "" jkt) (time r) a t).

Lemma proof_key_tables r s jkt s1 : proof_key h r s = Some (jkt, s1) ->
  clients s1 = clients s /\ authCodes s1 = authCodes s /\ accessTokens s1 = accessTokens s /\
  refreshTokens s1 = refreshTokens s.
Proof. unfold proof_key. intros Hp. repeat case_match; by simplify_eq. Qed.

(** Takes the branch of a check that the issued answer went through. *)
Ltac passed Hi Hb :=
  match type of Hi with
  | is_issued (run (if ?b then _ else _) _ _).1 = true => destruct b eqn:Hb; [|done]
  end.

Lemma code_grant_issued r fs s :
  is_issued (run (handleAuthorizationCodeGrant h r) fs s).1 = true ->
  exists c jkt s1 a t, redeemable r s c /\ proof_key h r s = Some (jkt, s1) /\
    fresh_tokens r s a t /\
    run (handleAuthorizationCodeGrant h r) fs s
    = (answer h jkt a t (ac_Scope c) (ac_UserID c), redeemed r c jkt a t s1).
Proof.
  unfold handleAuthorizationCodeGrant. intros Hi.
  passed Hi Hb1. passed Hi Hb2. passed Hi Hb3.
  destruct (run_call _ _ _ _ _ Hi) as (cl & Hcl & Hr). rewrite Hr in Hi |- *. clear Hr.
  work; cbn [fst snd] in *. injection Hcl as Hcl. destruct cl as [client|]; [|done].
  destruct (run_call _ _ _ _ _ Hi) as (co & Hco & Hr). rewrite Hr in Hi |- *. clear Hr.
  work; cbn [fst snd] in *. injection Hco as Hco. destruct co as [c|]; [|done].
  passed Hi Hused. passed Hi Hexp. passed Hi Hid. passed Hi Huri.
  destruct (pkce_result c _) eqn:Hpk; [by apply pkce_result_Some in Hpk; cbn in Hi; rewrite Hpk in Hi|].
  destruct (run_validateDPoP _ _ _ _ _ Hi) as (jkt & s1 & fs1 & Hkey & Hr).
  rewrite Hr in Hi |- *. clear Hr.
  destruct (run_call _ _ _ _ _ Hi) as (u & _ & Hr). rewrite Hr in Hi |- *. clear Hr.
  destruct (run_store_tokens _ _ _ _ _ _ _ Hi) as (a & t & fs2 & Ha & Ht & Hfa & Hft & Hr).
  rewrite Hr. clear Hr Hi. cbn [run].
  destruct (proof_key_tables _ _ _ _ Hkey) as (_ & _ & Ea & Et). cbn in Hfa, Hft.
  rewrite Ea in Hfa. rewrite Et in Hft.
  apply String.eqb_eq in Hid. apply String.eqb_eq in Huri. apply pkce_result_None in Hpk.
  exists c, jkt, s1, a, t. split; [|split; [done|split; [done|]]].
  - apply negb_true_iff in Hused. apply negb_true_iff, Z.ltb_ge in Hexp.
    rewrite not_empty_spec in Hb1, Hb2, Hb3. unfold redeemable. by rewrite Hcl.
  - unfold redeemed, with_tokens. by rewrite Hid.
Qed.
Lemma run_validateDPoP_works r client k s jkt s1 : proof_key h r s = Some (jkt, s1) ->
  run (validateDPoP h r client k) [] s = run (k jkt) [] s1.
Proof.
  unfold proof_key, validateDPoP. destruct (is_empty (DPoP r)); [by intros [= <- <-]|].
  destruct (VerifyDPoPProof _ _ _ _ _) as [res|]; [|done]. cbn.
  destruct (dpopJTIs s !! JTI res); [done|]. by intros [= <- <-].
Qed.

Lemma run_store_tokens_works r jkt mkA mkR k s a t : randomAccess r = Some a ->
  randomRefresh r = Some t -> at_Token (mkA a) = a -> rt_Token (mkR a t) = t ->
  accessTokens s !! a = None -> refreshTokens s !! t = None ->
  is_Some (clients s !! at_ClientID (mkA a)) -> is_Some (clients s !! rt_ClientID (mkR a t)) ->
  run (store_tokens r jkt mkA mkR k) [] s = run (k a t) [] (with_tokens s a t (mkA a) (mkR a t)).
Proof.
  intros Ha Ht Ea Et Hfa Hft [c1 H1] [c2 H2]. unfold store_tokens. rewrite Ha, Ht.
  cbn. rewrite Ea, Hfa, H1. cbn. by rewrite Et, Hft, H2.
Qed.

(** On working tables the code grant answers with tokens exactly when the
    code is there, unused, unexpired and of this client and redirect URI, the
    verifier matches its challenge, a proof of possession, if there is one, is
    valid and new, and the new tokens are; the answer carries the scope and user
    of the code, the code is used up, and the two tokens are stored, bound to the
    proved key. *)
Theorem code_redemption r s resp s' :
  (run (handleAuthorizationCodeGrant h r) [] s = (resp, s') /\ is_issued resp = true) <->
  exists c jkt s1 a t, redeemable r s c /\ proof_key h r s = Some (jkt, s1) /\
    fresh_tokens r s a t /\ resp = answer h jkt a t (ac_Scope c) (ac_UserID c) /\
    s' = redeemed r c jkt a t s1.
Proof.
  split.
  - intros [Hr Hi]. destruct (code_grant_issued r [] s) as (c & jkt & s1 & a & t & H1 & H2 & H3 & H4);
      [by rewrite Hr|]. rewrite Hr in H4. simplify_eq. eauto 10.
  - intros (c & jkt & s1 & a & t & Hc & Hp & (Ha & Ht & Hfa & Hft) & -> & ->). split; [|done].
    destruct Hc as (Hc & Hn1 & Hn2 & Hn3 & [cl Hcl] & Hu & Hx & Hid & Huri & Hpk).
    destruct (proof_key_tables _ _ _ _ Hp) as (Ecl & Eco & Ea & Et).
    apply not_empty_spec in Hn1, Hn2, Hn3. apply pkce_result_None in Hpk.
    unfold handleAuthorizationCodeGrant. rewrite Hn1, Hn2, Hn3. cbn [run call exec apply head tail default fst snd].
    cbn. rewrite Hcl. cbn. rewrite Hc, Hu. unfold code_expired.
    replace (ac_ExpiresAt c <? time r) with false by lia. cbn [negb].
    rewrite Hid, Huri, !String.eqb_refl, Hpk.
    rewrite (run_validateDPoP_works _ _ _ _ _ _ Hp). cbn [run call exec apply head tail default fst snd].
    cbn. rewrite (run_store_tokens_works _ _ _ _ _ _ a t); try done.
    + unfold redeemed. by rewrite Hid.
    + cbn. by rewrite Ea.
    + cbn. by rewrite Et.
    + cbn. by rewrite Ecl, Hcl.
    + cbn. by rewrite Ecl, Hcl.
Qed.
(** The conditions on a refresh: a token of this client that is neither revoked
    nor expired, and the key it is bound to, or none before the cutoff. *)
Definition refreshable (r : Request) (s : store) (old : RefreshToken) : Prop :=
  refreshTokens s !! Form r "refresh_token" = Some old /\ Form r "refresh_token" <> "" /\
  Form r "client_id" <> "" /\ is_Some (clients s !! Form r "client_id") /\
  rt_Revoked old = false /\ (forall e, rt_ExpiresAt old = Some e -> time r <= e) /\
  rt_ClientID old = Form r "client_id".
Definition bound_to (old : RefreshToken) (jkt : option string) : Prop :=
  if is_empty (DPoPJKT old) then OriginalIssuedAt old < LegacyDPoPJKTCutoff h
  else jkt = Some (DPoPJKT old).

(** The tables after a refresh: the new tokens are those of the old one, with
    its binding and its original issue time, and the old one is revoked. *)
Definition rotated (r : Request) (old : RefreshToken) (jkt : option string) (a t : string)
    (s1 : store) : store :=
  let s2 := with_tokens s1 a t
    (new_access h r jkt (rt_ClientID old) (rt_UserID old) (rt_SessionID old) (rt_Scope old) a)
    (new_refresh h r (rt_ClientID old) (rt_UserID old) (rt_SessionID old) (rt_Scope old)
       (DPoPJKT old) (OriginalIssuedAt old) a t) in
  set_refresh s2 (alter revoke_refresh (Form r "refresh_token") (refreshTokens s2)).

Lemma checkRefreshTokenDPoPBinding_spec old jkt :
  checkRefreshTokenDPoPBinding h old jkt = true <-> bound_to old jkt.
Proof.
  unfold checkRefreshTokenDPoPBinding, bound_to. destruct (is_empty (DPoPJKT old)) eqn:He; cbn.
  - apply Z.ltb_lt.
  - rewrite andb_true_iff, not_empty_spec, String.eqb_eq. destruct jkt as [j|]; cbn; [|naive_solver].
    split; [intros [_ <-]; done|]. intros [= ->]. split; [|done]. by destruct (DPoPJKT old).
Qed.

Lemma refresh_expired_spec now t :
  refresh_expired now t = false <-> forall e, rt_ExpiresAt t = Some e -> now <= e.
Proof.
  unfold refresh_expired. destruct (rt_ExpiresAt t) as [e|]; [|naive_solver].
  rewrite Z.ltb_ge. naive_solver.
Qed.

Lemma refresh_grant_issued r fs s :
  is_issued (run (handleRefreshTokenGrant h r) fs s).1 = true ->
  exists old jkt s1 a t, refreshable r s old /\ proof_key h r s = Some (jkt, s1) /\
    bound_to old jkt /\ fresh_tokens r s a t /\
    run (handleRefreshTokenGrant h r) fs s
    = (answer h jkt a t (rt_Scope old) (rt_UserID old), rotated r old jkt a t s1).
Proof.
  unfold handleRefreshTokenGrant. intros Hi. passed Hi Hb1. passed Hi Hb2.
  destruct (run_call _ _ _ _ _ Hi) as (cl & Hcl & Hr). rewrite Hr in Hi |- *. clear Hr.
  work; cbn [fst snd] in *. injection Hcl as Hcl. destruct cl as [client|]; [|done].
  destruct (run_call _ _ _ _ _ Hi) as (ro & Hro & Hr). rewrite Hr in Hi |- *. clear Hr.
  work; cbn [fst snd] in *. injection Hro as Hro. destruct ro as [old|]; [|done].
  passed Hi Hrev. passed Hi Hexp. passed Hi Hid.
  destruct (run_validateDPoP _ _ _ _ _ Hi) as (jkt & s1 & fs1 & Hkey & Hr).
  rewrite Hr in Hi |- *. clear Hr. passed Hi Hbind.
  destruct (run_store_tokens _ _ _ _ _ _ _ Hi) as (a & t & fs2 & Ha & Ht & Hfa & Hft & Hr).
  rewrite Hr in Hi |- *. clear Hr.
  destruct (run_call _ _ _ _ _ Hi) as (u & _ & Hr). rewrite Hr. clear Hr Hi. cbn [run].
  destruct (proof_key_tables _ _ _ _ Hkey) as (_ & _ & Ea & Et). cbn in Hfa, Hft.
  rewrite Ea in Hfa. rewrite Et in Hft. apply String.eqb_eq in Hid.
  exists old, jkt, s1, a, t. split; [|split; [done|split; [|split; [done|]]]].
  - apply negb_true_iff in Hrev, Hexp. pose proof (proj1 (refresh_expired_spec _ _) Hexp).
    rewrite not_empty_spec in Hb1, Hb2. unfold refreshable. by rewrite Hcl.
  - by apply checkRefreshTokenDPoPBinding_spec.
  - unfold rotated, with_tokens. by rewrite Hid.
Qed.

(** On working tables the refresh grant answers with tokens exactly when the
    refresh token is there, unrevoked, unexpired and of this client, and the
    request proves the key it is bound to, or it is unbound and older than the
    cutoff. The new tokens have its client, user, session and scope; the new
    refresh token keeps its binding and its original issue time, so a rotation
    neither rebinds nor rejuvenates it; and the old one is revoked. *)
Theorem refresh_rotation r s resp s' :
  (run (handleRefreshTokenGrant h r) [] s = (resp, s') /\ is_issued resp = true) <->
  exists old jkt s1 a t, refreshable r s old /\ proof_key h r s = Some (jkt, s1) /\
    bound_to old jkt /\ fresh_tokens r s a t /\
    resp = answer h jkt a t (rt_Scope old) (rt_UserID old) /\ s' = rotated r old jkt a t s1.
Proof.
  split.
  - intros [Hr Hi]. destruct (refresh_grant_issued r [] s) as (old & jkt & s1 & a & t & H1 & H2 & H3 & H4 & H5);
      [by rewrite Hr|]. rewrite Hr in H5. simplify_eq. by exists old, jkt, s1, a, t.
  - intros (old & jkt & s1 & a & t & Ho & Hp & Hb & (Ha & Ht & Hfa & Hft) & -> & ->). split; [|done].
    destruct Ho as (Ho & Hn1 & Hn2 & [cl Hcl] & Hrev & Hexp & Hid).
    destruct (proof_key_tables _ _ _ _ Hp) as (Ecl & _ & Ea & Et).
    apply not_empty_spec in Hn1, Hn2. apply (proj2 (refresh_expired_spec _ _)) in Hexp.
    apply checkRefreshTokenDPoPBinding_spec in Hb.
    unfold handleRefreshTokenGrant. rewrite Hn1, Hn2. cbn. rewrite Hcl. cbn.
    rewrite Ho, Hrev, Hexp, Hid, String.eqb_refl. cbn [negb].
    rewrite (run_validateDPoP_works _ _ _ _ _ _ Hp), Hb.
    rewrite (run_store_tokens_works _ _ _ _ _ _ a t); try done.
    + cbn. unfold rotated. by rewrite Hid.
    + by rewrite Ea.
    + by rewrite Et.
    + cbn. by rewrite Ecl, Hcl.
    + cbn. by rewrite Ecl, Hcl.
Qed.

(** *** What can be used once *)

(** What happens to the server, one thing after the other. *)
Inductive event :=
| EIssue (c : AuthorizationCode)
| EToken (r : Request) (fs : list fate)
| ERevoke (r : Request) (fs : list fate)
| EClean (w : works) (now : Z).
Definition serve (e : event) (s : store) : store :=
  match e with
  | EIssue c => if present (authCodes s !! Code c) then s
                else set_codes s (<[Code c := c]> (authCodes s))
  | EToken r fs => (run (HandleToken h r) fs s).2
  | ERevoke r fs => (run (HandleRevoke r) fs s).2
  | EClean w now => cleanup w now s
  end.
Definition serve_all (es : list event) (s : store) : store := fold_left (fun s e => serve e s) es s.

(** What each call and each event leave true, whatever they are. *)
Lemma program_keeps (P : store -> Prop) p fs s :
  (forall B (c : cmd B) s, P s -> P (apply c s).2) -> P s -> P (run p fs s).2.
Proof.
  intros Hc. revert fs s. induction p as [r|B c k IH]; intros fs s Hs; [done|]. cbn [run].
  apply IH. destruct (default Works (head fs)); cbn; auto.
Qed.

Lemma serve_all_keeps (P : store -> Prop) (allowed : event -> Prop) es s :
  (forall B (c : cmd B) s, P s -> P (apply c s).2) ->
  (forall c s, allowed (EIssue c) -> P s -> P (serve (EIssue c) s)) ->
  (forall w now s, allowed (EClean w now) -> P s -> P (cleanup w now s)) ->
  Forall allowed es -> P s -> P (serve_all es s).
Proof.
  intros Hc Hi Hn Hes. revert s. unfold serve_all.
  induction Hes as [|e es He _ IH]; intros s Hs; [done|]. cbn [fold_left]. apply IH.
  destruct e as [c|r fs|r fs|w now]; [by apply Hi| | |by apply Hn]; cbn [serve]; by apply program_keeps.
Qed.

(** A code without an unused row, a refresh token whose row is revoked, and an
    identifier that is recorded or whose proofs are too old. *)
Definition code_dead (code : string) (s : store) : Prop :=
  forall c, authCodes s !! code = Some c -> Used c = true.
Definition refresh_dead (token : string) (s : store) : Prop :=
  exists t, refreshTokens s !! token = Some t /\ rt_Revoked t = true.
Definition jti_dead (now : Z) (jti : string) (iat : Z) (s : store) : Prop :=
  dpopJTIs s !! jti = Some iat \/ DefaultMaxDPoPAge < now - iat.

Lemma code_dead_apply code B (c : cmd B) s : code_dead code s -> code_dead code (apply c s).2.
Proof.
  intros Hd. destruct c; cbn; try case_match; cbn; try done. intros c'. cbn.
  rewrite lookup_alter_Some. intros [(-> & c0 & Hc & ->)|[_ Hc]]; [done|by apply Hd].
Qed.

Lemma refresh_dead_apply token B (c : cmd B) s :
  refresh_dead token s -> refresh_dead token (apply c s).2.
Proof.
  intros (t & Ht & Hr). destruct c as [| | | | | |n|tok|]; cbn; try case_match; cbn;
    try (by exists t).
  - exists t. split; [|done]. cbn. rewrite lookup_insert_ne; [done|]. intros Heq.
    by rewrite Heq, Ht in *.
  - destruct (decide (tok = token)) as [->|Hne].
    + exists (revoke_refresh t). cbn. rewrite lookup_alter_eq, Ht. done.
    + exists t. cbn. by rewrite lookup_alter_ne.
Qed.

Lemma jti_dead_apply now jti iat B (c : cmd B) s :
  jti_dead now jti iat s -> jti_dead now jti iat (apply c s).2.
Proof.
  intros [Hj|Ho]; [|by right]. left. destruct c; cbn; try case_match; cbn; try done.
  rewrite lookup_insert_ne; [done|]. by intros ->; simplify_eq.
Qed.

Lemma jti_dead_cleanup now jti iat w t s : t <= now ->
  jti_dead now jti iat s -> jti_dead now jti iat (cleanup w t s).
Proof.
  intros Ht [Hj|Ho]; [|by right]. unfold jti_dead.
  destruct w as [[] [] []]; cbn; try by left.
  all: destruct (decide (iat < t - DefaultMaxDPoPAge - DPoPJTICleanupSkewSeconds)) as [|Hge];
    [right; unfold DPoPJTICleanupSkewSeconds in *; lia|left].
  all: apply map_lookup_filter_Some; split; [done|]; cbn; by rewrite negb_true_iff, Z.ltb_ge; lia.
Qed.

Lemma some_or_Ok A (o : option A) e a : some_or o e = Ok a <-> o = Some a.
Proof. destruct o; cbn; split; congruence. Qed.

(** The coordinates of the key in the header of a proof. *)
Definition proof_point (proof : string) : option (string * string) :=
  p0 ← head (split proof "."); headerBytes ← DecodeString p0; header ← parse_header headerBytes;
  jwk ← h_JWK header; x ← DecodeString (X jwk); y ← DecodeString (Y jwk); Some (x, y).

(** A proof that is accepted is not too old, and the same proof proves the same
    identifier at any time. *)
Lemma Verify_Ok now proof m u age res : VerifyDPoPProof now proof m u age = Ok res ->
  exists x y c, proof_point proof = Some (x, y) /\ jwt_verify now proof x y = Some c /\
    JTI res = c_ID c /\ IssuedAt c = Some (IAT res) /\ now - IAT res <= age.
Proof.
  unfold VerifyDPoPProof, proof_point, need. intros Hv.
  destruct (split proof ".") as [|p0 [|p1 [|p2 [|]]]]; try done.
  rewrite !bind_Ok in Hv. destruct Hv as (hb & Hhb & Hv). rewrite bind_Ok in Hv.
  destruct Hv as (hd & Hhd & Hv). do 2 (rewrite bind_Ok in Hv; destruct Hv as ([] & _ & Hv)).
  rewrite bind_Ok in Hv. destruct Hv as (jwk & Hjwk & Hv).
  rewrite bind_Ok in Hv. destruct Hv as ([] & _ & Hv).
  rewrite bind_Ok in Hv. destruct Hv as (x & Hx & Hv).
  rewrite bind_Ok in Hv. destruct Hv as (y & Hy & Hv).
  rewrite bind_Ok in Hv. destruct Hv as (c & Hc & Hv).
  do 3 (rewrite bind_Ok in Hv; destruct Hv as ([] & _ & Hv)).
  rewrite bind_Ok in Hv. destruct Hv as (iat & Hiat & Hv).
  rewrite bind_Ok in Hv. destruct Hv as ([] & Hage & Hv).
  rewrite bind_Ok in Hv. destruct Hv as ([] & _ & [= <-]).
  rewrite some_or_Ok in *. rewrite guard_err_Ok, negb_true_iff, Z.ltb_ge in Hage.
  exists x, y, c. split_and!; [|done..]. cbn. rewrite Hhb. cbn. rewrite Hhd. cbn. rewrite Hjwk. cbn.
  rewrite Hx. cbn. by rewrite Hy.
Qed.

Lemma same_proof now1 now2 proof m1 u1 age1 m2 u2 age2 r1 r2 :
  VerifyDPoPProof now1 proof m1 u1 age1 = Ok r1 -> VerifyDPoPProof now2 proof m2 u2 age2 = Ok r2 ->
  JTI r2 = JTI r1 /\ now2 - IAT r1 <= age2.
Proof.
  intros (x & y & c & Hp & Hc & -> & Hi & _)%Verify_Ok (x' & y' & c' & Hp' & Hc' & -> & Hi' & Ha)%Verify_Ok.
  rewrite Hp in Hp'. injection Hp' as <- <-. rewrite (jwt_claims _ _ _ _ _ _ _ Hc Hc') in *.
  rewrite Hi in Hi'. injection Hi' as ->. done.
Qed.

(** What an answer with tokens uses up. *)
Definition grant (r : Request) : string := Form r "grant_type".

Lemma token_grants r fs s : is_issued (run (HandleToken h r) fs s).1 = true ->
  (grant r = "authorization_code" /\
   is_issued (run (handleAuthorizationCodeGrant h r) fs s).1 = true /\
   run (HandleToken h r) fs s = run (handleAuthorizationCodeGrant h r) fs s) \/
  (grant r = "refresh_token" /\
   is_issued (run (handleRefreshTokenGrant h r) fs s).1 = true /\
   run (HandleToken h r) fs s = run (handleRefreshTokenGrant h r) fs s).
Proof.
  unfold HandleToken, grant. destruct (String.eqb_spec (Form r "grant_type") "authorization_code");
    [by left|]. destruct (String.eqb_spec (Form r "grant_type") "refresh_token"); [by right|done].
Qed.

Lemma code_used_up r fs s : is_issued (run (HandleToken h r) fs s).1 = true ->
  grant r = "authorization_code" ->
  ~ code_dead (Form r "code") s /\ code_dead (Form r "code") (run (HandleToken h r) fs s).2.
Proof.
  intros [(_ & Hi & ->)|(-> & _)]%token_grants Hg; [clear Hg|done].
  destruct (code_grant_issued _ _ _ Hi) as (c & jkt & s1 & a & t & Hc & Hp & _ & ->).
  destruct Hc as (Hc & _ & _ & _ & _ & Hu & _). split.
  - intros Hd. by rewrite (Hd c Hc) in Hu.
  - intros c'. cbn. rewrite lookup_alter_eq.
    by intros (c0 & _ & ->)%fmap_Some.
Qed.

Lemma refresh_used_up r fs s : is_issued (run (HandleToken h r) fs s).1 = true ->
  grant r = "refresh_token" ->
  ~ refresh_dead (Form r "refresh_token") s /\
  refresh_dead (Form r "refresh_token") (run (HandleToken h r) fs s).2.
Proof.
  intros [(-> & _)|(_ & Hi & ->)]%token_grants Hg; [done|clear Hg].
  destruct (refresh_grant_issued _ _ _ Hi) as (old & jkt & s1 & a & t & Ho & Hp & _ & Hf & ->).
  destruct Ho as (Ho & _ & _ & _ & Hr & _), Hf as (_ & _ & _ & Hf). split.
  - intros (t' & Ht & Hr'). rewrite Ho in Ht. injection Ht as <-. by rewrite Hr in Hr'.
  - destruct (proof_key_tables _ _ _ _ Hp) as (_ & _ & _ & Et).
    exists (revoke_refresh old). split; [|done]. cbn. rewrite lookup_alter_eq.
    rewrite lookup_insert_ne by (intros ->; by rewrite Ho in Hf). by rewrite Et, Ho.
Qed.

Lemma proof_used_up r fs s : is_issued (run (HandleToken h r) fs s).1 = true -> DPoP r <> "" ->
  exists res, VerifyDPoPProof (time r) (DPoP r) "POST" (ExternalBaseURL h +:+ "/oauth/token")
                DefaultMaxDPoPAge = Ok res /\
    dpopJTIs s !! JTI res = None /\
    dpopJTIs (run (HandleToken h r) fs s).2 !! JTI res = Some (IAT res).
Proof.
  intros Hi Hd%not_empty_spec%negb_true_iff.
  assert (exists jkt s1, proof_key h r s = Some (jkt, s1) /\
            dpopJTIs (run (HandleToken h r) fs s).2 = dpopJTIs s1) as (jkt & s1 & Hp & ->).
  { apply token_grants in Hi as [(_ & Hi & ->)|(_ & Hi & ->)].
    - destruct (code_grant_issued _ _ _ Hi) as (? & jkt & s1 & ? & ? & _ & Hp & _ & ->). eauto.
    - destruct (refresh_grant_issued _ _ _ Hi) as (? & jkt & s1 & ? & ? & _ & Hp & _ & _ & ->). eauto. }
  unfold proof_key in Hp. rewrite Hd in Hp.
  destruct (VerifyDPoPProof _ _ _ _ _) as [res|]; [|done].
  destruct (dpopJTIs s !! JTI res) eqn:Hj; [done|]. injection Hp as <- <-.
  exists res. split_and!; [done..|]. cbn. apply lookup_insert_eq.
Qed.

(** C32: requests served one after the other, with calls failing or losing their
    answers, other requests, revocations and cleanup in between: once the token
    endpoint has answered with tokens, the code or refresh token it was given
    yields no tokens again, and neither does any request with the same proof of
    possession, although the worker deletes the identifiers it recorded. *)
Theorem single_use s r1 fs1 es r2 fs2 :
  let s1 := (run (HandleToken h r1) fs1 s).2 in
  is_issued (run (HandleToken h r1) fs1 s).1 = true ->
  Forall (fun e => match e with
                   | EIssue c => Code c <> Form r1 "code"
                   | EClean _ now => now <= time r2
                   | _ => True
                   end) es ->
  is_issued (run (HandleToken h r2) fs2 (serve_all es s1)).1 = true ->
  (grant r1 = "authorization_code" -> grant r2 = "authorization_code" ->
   Form r1 "code" <> Form r2 "code") /\
  (grant r1 = "refresh_token" -> grant r2 = "refresh_token" ->
   Form r1 "refresh_token" <> Form r2 "refresh_token") /\
  (DPoP r1 <> "" -> DPoP r1 <> DPoP r2).
Proof.
  intros s1 H1 Hes H2. split_and!.
  - intros Hg1 Hg2 Heq. apply (proj1 (code_used_up _ _ _ H2 Hg2)). rewrite <-Heq.
    refine (serve_all_keeps (code_dead (Form r1 "code")) _ es s1 (code_dead_apply _) _ _ Hes _);
      [| |by apply code_used_up].
    + intros c s' Hc Hd. cbn. destruct (present _); [done|]. intros c'. cbn.
      rewrite lookup_insert_ne by done. apply Hd.
    + intros [[] [] []] now s' _ Hd c' Hl; cbn in Hl;
        try (apply map_lookup_filter_Some in Hl as [Hl _]); by apply Hd.
  - intros Hg1 Hg2 Heq. apply (proj1 (refresh_used_up _ _ _ H2 Hg2)). rewrite <-Heq.
    refine (serve_all_keeps (refresh_dead (Form r1 "refresh_token")) _ es s1 (refresh_dead_apply _)
              _ _ Hes _); [| |by apply refresh_used_up].
    + intros c s' _ Hd. cbn. by destruct (present _).
    + by intros [[] [] []] now s' _ Hd.
  - intros Hd1 Heq. destruct (proof_used_up _ _ _ H1 Hd1) as (res1 & Hv1 & _ & Hj1).
    destruct (proof_used_up _ _ _ H2) as (res2 & Hv2 & Hj2 & _); [by rewrite <-Heq|].
    rewrite <-Heq in Hv2. destruct (same_proof _ _ _ _ _ _ _ _ _ _ _ Hv1 Hv2) as [Hjti Hage].
    assert (jti_dead (time r2) (JTI res1) (IAT res1) (serve_all es s1)) as Hdead;
      [|destruct Hdead as [Hl|Ho]; [by rewrite Hjti, Hl in Hj2|lia]].
    refine (serve_all_keeps _ _ es s1 (jti_dead_apply _ _ _) _ _ Hes _).
    + intros c s' _ Hd. cbn. by destruct (present _).
    + intros w now s' Hn. by apply jti_dead_cleanup.
    + by left.
Qed.
End Sequential.

(** ** A server *)

(** The requests in flight make their calls in the order of a schedule. *)
Definition advance `{CryptoLib} (i : nat) (c : config) : config :=
  match threads c !! i with
  | Some (Do d k) =>
      let a := exec Works d (tables c) in
      {| tables := a.2; threads := <[i := k a.1]> (threads c); issued := issued c |}
  | _ => c
  end.
Definition schedule `{CryptoLib} (order : list nat) (c : config) : config :=
  fold_left (fun c i => advance i c) order c.

Lemma schedule_steps `{CryptoLib} h order c : rtc (step h) c (schedule order c).
Proof.
  revert c. induction order as [|i order IH]; intros c; [reflexivity|]. cbn.
  transitivity (advance i c); [|apply IH]. unfold advance.
  destruct (threads c !! i) as [[r|B d k]|] eqn:Hi; [reflexivity| |reflexivity].
  apply rtc_once. destruct c as [s ts H0]. by apply step_call.
Qed.

Module Example_tokens.

(** A library whose hash is the identity and whose tokens name their own
    identifier and were issued at time 1000. *)
#[local] Program Instance toy : CryptoLib := {|
  sha256 s := s;
  parse_header s := Some {| Typ := "dpop+jwt"; Alg := "ES256";
    h_JWK := Some {| Kty := "EC"; Crv := "P-256"; X := "eA"; Y := "eQ" |} |};
  jwt_verify now proof x y := Some {| HTM := "POST"; HTU := "https://i/oauth/token"; ATH := "";
    c_ID := proof; IssuedAt := Some 1000 |}
|}.
Next Obligation. intros. by simplify_eq. Qed.

Definition handlers : OAuthHandlerConfig :=
  {| ExternalBaseURL := "https://i"; AccessTokenExpiration := 3600;
     RefreshTokenExpiration := 1209600; LegacyDPoPJKTCutoff := 500 |}.
Definition app : Client :=
  {| cl_ClientID := "app"; cl_ClientSecret := None; cl_ClientName := "App";
     cl_RedirectURIs := ["https://app/cb"]; cl_GrantTypes := ["authorization_code"; "refresh_token"];
     cl_ResponseTypes := ["code"]; cl_Scope := Some "atproto"; cl_TokenEndpointAuthMethod := "none";
     cl_ClientType := ClientPublic; cl_CreatedAt := 100; cl_UpdatedAt := 100; cl_Metadata := "{}";
     cl_AccessTokenExpiration := 3600; cl_RefreshTokenExpiration := 2592000;
     cl_RequireRedirectExact := true; cl_RegistrationAccessToken := None; cl_JWKS := None |}.
Definition code : AuthorizationCode :=
  {| Code := "code"; ac_ClientID := "app"; ac_UserID := "did:plc:a"; ac_SessionID := None;
     ac_SessionIteration := None; ac_Nonce := None; RedirectURI := "https://app/cb"; ac_Scope := Some "atproto"; CodeChallenge := Some (EncodeToString "verifier");
     CodeChallengeMethod := Some "S256"; ac_CreatedAt := 900; ac_ExpiresAt := 1500;
     Used := false |}.
Definition with_code : config :=
  {| tables := {| clients := {["app" := app]}; authCodes := {["code" := code]};
                  accessTokens := ∅; refreshTokens := ∅; dpopJTIs := ∅ |};
     threads := []; issued := [code] |}.
Definition redeem (proof access refresh : string) : Request :=
  {| form := list_to_map [("grant_type", "authorization_code"); ("code", "code");
       ("client_id", "app"); ("redirect_uri", "https://app/cb"); ("code_verifier", "verifier")];
     DPoP := proof; time := 1010; randomAccess := Some access; randomRefresh := Some refresh |}.
Definition refresh (token proof access refresh : string) : Request :=
  {| form := list_to_map [("grant_type", "refresh_token"); ("refresh_token", token);
       ("client_id", "app")];
     DPoP := proof; time := 1020; randomAccess := Some access; randomRefresh := Some refresh |}.

Definition serve_two (order : list nat) (r1 r2 : Request) : config :=
  schedule order {| tables := tables with_code;
                 threads := [HandleToken handlers r1; HandleToken handlers r2];
                 issued := issued with_code |}.
Definition answers (c : config) : list (option response) :=
  map (fun p => match p with Ret r => Some r | Do _ _ => None end) (threads c).

(** Two requests at the same time redeem one code: both read it before either
    marks it used, and marking does not look at the mark. *)
Definition both : config :=
  serve_two [0; 0; 1; 1; 0; 0; 0; 1; 1; 1]%nat (redeem "" "A1" "R1") (redeem "" "A2" "R2").
Example double_redemption :
  forallb (fun o => match o with Some r => is_issued r | None => false end) (answers both) = true /\
  map_to_list (fmap at_Scope (accessTokens (tables both)))
  ≡ₚ [("A1", Some "atproto"); ("A2", Some "atproto")].
Proof. split; [reflexivity|]. vm_compute. by constructor. Qed.

(** One after the other, the second is refused. *)
Example second_refused : answers (serve_two [0; 0; 0; 0; 0; 1; 1; 1; 1; 1]%nat
    (redeem "" "A1" "R1") (redeem "" "A2" "R2")) !! 1%nat = Some (Some invalid_grant).
Proof. reflexivity. Qed.

Lemma start_both : rtc (step handlers) (started {["app" := app]}) both.
Proof.
  etransitivity; [|apply schedule_steps].
  eapply rtc_l; [by apply (step_issue _ _ _ _ code)|].
  eapply rtc_l; [apply (step_token _ _ _ _ (redeem "" "A1" "R1"))|].
  eapply rtc_l; [apply (step_token _ _ _ _ (redeem "" "A2" "R2"))|]. reflexivity.
Qed.

Lemma tokens_derive_witness :
  (forall k t, accessTokens (tables both) !! k = Some t -> access_ok (issued both) t) /\
  (forall k t, refreshTokens (tables both) !! k = Some t -> refresh_ok (issued both) t).
Proof. exact (tokens_derive handlers {["app" := app]} both start_both). Defined.

(** The tokens of a redemption are refreshed with another proof. *)
Lemma single_use_witness :
  ("authorization_code" = "authorization_code" -> "refresh_token" = "authorization_code" ->
   "code" <> "") /\
  ("authorization_code" = "refresh_token" -> "refresh_token" = "refresh_token" -> "" <> "R1") /\
  ("YQ.b.c" <> "" -> "YQ.b.c" <> "YQ.b.d").
Proof.
  refine (single_use handlers (tables with_code) (redeem "YQ.b.c" "A1" "R1") []
            [EClean {| w_codes := true; w_access := false; w_jtis := true |} 1015; EToken (redeem "" "A2" "R2") []; ERevoke (refresh "R9" "" "" "") [Fails]]
            (refresh "R1" "YQ.b.d" "A3" "R3") [Works] _ _ _).
  - reflexivity.
  - repeat constructor. cbn. lia.
  - reflexivity.
Defined.
End Example_tokens.
