(* ===== verification/Reconnect.v ===== *)
(** What the stream consumers share: the reconnection loop of
    [internal/consumer/backoff.go], the cursor flusher of
    [internal/cursor/flusher.go] and the rate-limited error log of
    [internal/tap/consumer.go] and [internal/jetstream/consumer.go] (two copies
    of one type). Durations and times are in nanoseconds. *)
From Stdlib Require Import Sorted.
From S2P Require Import Prelude.

Local Open Scope Z_scope.

Definition second : Z := 1000000000.

(** ** Reconnection *)

Module Backoff.
Record BackoffOpts := { MinBackoff : Z; MaxBackoff : Z; StableAfter : Z }.

Definition defaults (o : BackoffOpts) : BackoffOpts :=
  {| MinBackoff := if MinBackoff o =? 0 then second else MinBackoff o;
     MaxBackoff := if MaxBackoff o =? 0 then 120 * second else MaxBackoff o;
     StableAfter := if StableAfter o =? 0 then 30 * second else StableAfter o |}.

(** One turn of the loop: how long the connection was up, and whether the
    context was found cancelled after it and while waiting. *)
Record attempt := { uptime : Z; stopped : bool; stopped_waiting : bool }.

Definition stable (o : BackoffOpts) (a : attempt) : bool := StableAfter o <? uptime a.

(** The delays waited for, and whether the loop has returned. *)
Fixpoint reconnect (o : BackoffOpts) (backoff : Z) (script : list attempt) : list Z * bool :=
  match script with
  | [] => ([], false)
  | a :: rest =>
      if stopped a then ([], true)
      else
        let backoff := if stable o a then MinBackoff o else backoff in
        if stopped_waiting a then ([backoff], true)
        else
          let next := wrap64 (backoff * 2) in
          let next := if MaxBackoff o <? next then MaxBackoff o else next in
          let r := reconnect o next rest in
          (backoff :: r.1, r.2)
  end.
Definition RunWithReconnect (script : list attempt) (opts : BackoffOpts) : list Z * bool :=
  reconnect (defaults opts) (MinBackoff (defaults opts)) script.

(** *** The delays in closed form *)

(** How many turns ago the backoff was last at its minimum, for each turn. *)
Fixpoint streaks (o : BackoffOpts) (k : Z) (script : list attempt) : list Z :=
  match script with
  | [] => []
  | a :: rest => let k := if stable o a then 0 else k in k :: streaks o (k + 1) rest
  end.
Definition delay (o : BackoffOpts) (k : Z) : Z := Z.min (MaxBackoff o) (MinBackoff o * 2 ^ k).

Definition ongoing (a : attempt) : Prop := stopped a = false /\ stopped_waiting a = false.

(** Options that make sense, and whose doubled maximum is a duration. *)
Definition sound (o : BackoffOpts) : Prop :=
  0 < MinBackoff o <= MaxBackoff o /\ MaxBackoff o < 2 ^ 62.

Lemma delay_range o k : sound o -> 0 <= k -> MinBackoff o <= delay o k <= MaxBackoff o.
Proof.
  intros [Hm Hx] Hk. unfold delay. pose proof (Z.pow_pos_nonneg 2 k ltac:(lia) Hk). nia.
Qed.

Lemma delay_next o k : sound o -> 0 <= k ->
  (if MaxBackoff o <? wrap64 (delay o k * 2) then MaxBackoff o else wrap64 (delay o k * 2))
  = delay o (k + 1).
Proof.
  intros Hs Hk. pose proof (delay_range o k Hs Hk) as Hd. destruct Hs as [Hm Hx].
  rewrite wrap64_id by (unfold in_int64, int64_min, int64_max; lia).
  unfold delay in *. rewrite Z.pow_add_r by lia. case_match; lia.
Qed.

Lemma reconnect_delays o script : forall k tail, sound o -> 0 <= k -> Forall ongoing script ->
  reconnect o (delay o k) (script ++ tail) =
  let r := reconnect o (delay o (match last (streaks o k script) with
                                 | Some j => j + 1 | None => k end)) tail in
  ((delay o <$> streaks o k script) ++ r.1, r.2).
Proof.
  induction script as [|a script IH]; intros k tail Hs Hk Ho; [by cbn; destruct (reconnect _ _ tail)|].
  inversion Ho as [|? ? [H1 H2] Hr]; subst. cbn [reconnect app streaks]. rewrite H1, H2.
  assert (delay o 0 = MinBackoff o) as H0 by (destruct Hs; unfold delay; lia).
  assert ((if stable o a then MinBackoff o else delay o k)
          = delay o (if stable o a then 0 else k)) as -> by (rewrite <-H0; by destruct (stable o a)).
  set (j := if stable o a then 0 else k). assert (0 <= j) by (unfold j; case_match; lia).
  rewrite delay_next by done. rewrite IH by (done || lia). cbn.
  rewrite last_cons. by destruct (last (streaks o (j + 1) script)).
Qed.

(** With options that make sense the loop waits, after each connection, for
    the minimum doubled once for every connection since the last stable one and
    never for more than the maximum, without overflow; it goes on through any
    number of failures, and returns at the turn at which the context is found
    cancelled. *)
Theorem RunWithReconnect_delays opts script last_turn rest : sound (defaults opts) ->
  Forall ongoing script ->
  let o := defaults opts in
  RunWithReconnect script opts = (delay o <$> streaks o 0 script, false) /\
  (stopped last_turn = true ->
   RunWithReconnect (script ++ last_turn :: rest) opts = (delay o <$> streaks o 0 script, true)) /\
  (stopped last_turn = false -> stopped_waiting last_turn = true ->
   RunWithReconnect (script ++ last_turn :: rest) opts
   = (delay o <$> streaks o 0 (script ++ [last_turn]), true)).
Proof.
  intros Hs Ho o. unfold RunWithReconnect. fold o.
  assert (MinBackoff o = delay o 0) as -> by (destruct Hs; unfold delay, o; lia).
  split; [|split].
  - rewrite <-(app_nil_r script) at 1. rewrite reconnect_delays by (done || lia). cbn.
    by rewrite app_nil_r.
  - intros Hl. rewrite reconnect_delays by (done || lia). cbn. rewrite Hl. cbn. by rewrite app_nil_r.
  - intros H1 H2. rewrite reconnect_delays by (done || lia). cbn. rewrite H1, H2. cbn.
    assert (forall k l, streaks o k (l ++ [last_turn]) = streaks o k l ++
      [if stable o last_turn then 0 else match last (streaks o k l) with Some j => j + 1 | None => k end])
      as ->.
    { intros k l. revert k. induction l as [|a l IH]; intros k; [done|]. cbn. rewrite IH.
      set (j := if stable o a then 0 else k). rewrite last_cons. by destruct (last (streaks o (j + 1) l)). }
    assert (delay o 0 = MinBackoff o) as H0 by (destruct Hs; unfold delay, o; lia).
    rewrite fmap_app. cbn [fmap list_fmap]. by destruct (stable o last_turn); rewrite ?H0.
Qed.

Lemma RunWithReconnect_delays_witness :
  let script := [{| uptime := 1; stopped := false; stopped_waiting := false |};
                 {| uptime := 2; stopped := false; stopped_waiting := false |};
                 {| uptime := 60 * second; stopped := false; stopped_waiting := false |}] in
  RunWithReconnect (script ++ [{| uptime := 1; stopped := true; stopped_waiting := false |}])
    {| MinBackoff := 0; MaxBackoff := 0; StableAfter := 0 |}
  = ([second; 2 * second; second], true).
Proof.
  intros script. eapply (RunWithReconnect_delays {| MinBackoff := 0; MaxBackoff := 0; StableAfter := 0 |}
           script {| uptime := 1; stopped := true; stopped_waiting := false |} []).
  - split; cbn; unfold second; lia.
  - by repeat constructor.
  - reflexivity.
Defined.
End Backoff.

(** ** The error log *)

Module ErrLog.
Record rateLimitedErrLogger := {
  loudCount : Z; loudLimit : Z; throttleEvery : Z; suppressed : Z; lastEmit : Z
}.
Definition defaultErrLogLoudLimit : Z := 5.
Definition defaultErrLogThrottle : Z := 60 * second.
Definition new_logger (limit every : Z) : rateLimitedErrLogger :=
  {| loudCount := 0; loudLimit := limit; throttleEvery := every; suppressed := 0; lastEmit := 0 |}.

(** A line of the log: an error, or a summary with the number of errors since
    the last line. *)
Inductive line := Loud | Summary (occurrences : Z).

(** One caller at a time, as in both consumers: the exchange never fails. *)
Definition log (now : Z) (l : rateLimitedErrLogger) : option line * rateLimitedErrLogger :=
  if loudCount l <? loudLimit l then
    (Some Loud, {| loudCount := wrap64 (loudCount l + 1); loudLimit := loudLimit l;
                   throttleEvery := throttleEvery l; suppressed := suppressed l;
                   lastEmit := lastEmit l |})
  else
    let count := wrap64 (suppressed l + 1) in
    if throttleEvery l <=? wrap64 (now - lastEmit l) then
      (Some (Summary count), {| loudCount := loudCount l; loudLimit := loudLimit l;
                                throttleEvery := throttleEvery l; suppressed := 0;
                                lastEmit := now |})
    else (None, {| loudCount := loudCount l; loudLimit := loudLimit l;
                   throttleEvery := throttleEvery l; suppressed := count;
                   lastEmit := lastEmit l |}).

Fixpoint logs (times : list Z) (l : rateLimitedErrLogger)
  : list (option line) * rateLimitedErrLogger :=
  match times with
  | [] => ([], l)
  | now :: times => let a := log now l in let r := logs times a.2 in (a.1 :: r.1, r.2)
  end.

(** The errors a line speaks of. *)
Definition errors_of (o : option line) : Z :=
  match o with None => 0 | Some Loud => 1 | Some (Summary n) => n end.
Definition loud (o : option line) : Z := match o with Some Loud => 1 | _ => 0 end.
Definition total (f : option line -> Z) (ls : list (option line)) : Z := foldr (fun o z => f o + z) 0 ls.

(** A logger in use: small counters, and a last line not in the future. *)
Definition logger_ok (l : rateLimitedErrLogger) (times : list Z) : Prop :=
  0 <= loudCount l <= loudLimit l /\ loudLimit l < 2 ^ 62 /\ 0 < throttleEvery l /\
  0 <= suppressed l /\ suppressed l + Z.of_nat (length times) < 2 ^ 63 /\ 0 <= lastEmit l /\
  Forall (fun t => lastEmit l <= t < 2 ^ 63) times.

Lemma wrap64_small z : 0 <= z < 2 ^ 63 -> wrap64 z = z.
Proof. intros Hz. apply wrap64_id. unfold in_int64, int64_min, int64_max. lia. Qed.

Lemma log_ok now times l : StronglySorted Z.le (now :: times) -> logger_ok l (now :: times) ->
  logger_ok (log now l).2 times /\ loudLimit (log now l).2 = loudLimit l /\
  throttleEvery (log now l).2 = throttleEvery l /\
  errors_of (log now l).1 + suppressed (log now l).2 = suppressed l + 1 /\
  loudCount (log now l).2 = loudCount l + loud (log now l).1 /\
  loud (log now l).1 = (if loudCount l <? loudLimit l then 1 else 0) /\
  lastEmit l <= lastEmit (log now l).2 /\
  (forall n, (log now l).1 = Some (Summary n) ->
     throttleEvery l <= now - lastEmit l /\ lastEmit (log now l).2 = now).
Proof.
  intros Hs (H1 & H2 & H3 & H4 & H5 & H6 & Ht).
  inversion Ht as [|? ? Hn Hr]; subst. inversion Hs as [|? ? _ Hle]; subst.
  cbn [length] in H5. unfold log, logger_ok.
  rewrite (wrap64_small (now - _)), (wrap64_small (suppressed l + 1)) by lia.
  destruct (loudCount l <? loudLimit l) eqn:Hl; cbn.
  - rewrite wrap64_small by lia. repeat split; try lia; done.
  - destruct (throttleEvery l <=? now - lastEmit l) eqn:He; cbn;
      (repeat split; try lia; try done; try (intros; discriminate)).
    apply Forall_forall. intros t Hin. rewrite Forall_forall in Hr, Hle.
    specialize (Hr t Hin). specialize (Hle t Hin). lia.
Qed.

Lemma logs_accounted times : forall l, StronglySorted Z.le times -> logger_ok l times ->
  let r := logs times l in
  total errors_of r.1 + suppressed r.2 = suppressed l + Z.of_nat (length times) /\
  total loud r.1 = Z.min (Z.of_nat (length times)) (loudLimit l - loudCount l).
Proof.
  induction times as [|now times IH]; intros l Hs Hl r; subst r; cbn [logs total foldr fst snd length].
  - split; [lia|]. destruct Hl as (? & _). lia.
  - destruct (log_ok _ _ _ Hs Hl) as (Hl' & Hlim & _ & He & Hc & Hld & _ & _).
    inversion Hs; subst. destruct (IH _ ltac:(done) Hl') as [Ha Hb]. unfold total in *.
    destruct Hl as (? & _). split; [lia|]. rewrite Hb, Hlim, Hc, Hld. case_match; lia.
Qed.

(** A summary is at least one interval younger than the last one. *)
Lemma logs_spacing times : forall l i n t, StronglySorted Z.le times -> logger_ok l times ->
  (logs times l).1 !! i = Some (Some (Summary n)) -> times !! i = Some t ->
  throttleEvery l <= t - lastEmit l.
Proof.
  induction times as [|now times IH]; intros l i n t Hs Hl Hi Ht; [done|].
  destruct (log_ok _ _ _ Hs Hl) as (Hl' & _ & Hth & _ & _ & _ & Hmono & Hsum).
  inversion Hs; subst. destruct i as [|i]; cbn in Hi, Ht.
  - injection Hi as Hi. injection Ht as <-. by apply (Hsum n).
  - specialize (IH _ i n t ltac:(done) Hl' Hi Ht). lia.
Qed.

(** Of any errors reported in the order of time, the first ones up to the
    limit are logged one by one; every later one is counted, either in a summary
    line or in the counter of the next one, so that none is lost; and two summary
    lines are at least one interval apart. *)
Theorem errors_accounted limit every times i j n m t u : 0 <= limit < 2 ^ 62 -> 0 < every ->
  Z.of_nat (length times) < 2 ^ 63 -> Forall (fun t => 0 <= t < 2 ^ 63) times ->
  StronglySorted Z.le times ->
  let r := logs times (new_logger limit every) in
  total loud r.1 = Z.min (Z.of_nat (length times)) limit /\
  total errors_of r.1 + suppressed r.2 = Z.of_nat (length times) /\
  ((i < j)%nat -> r.1 !! i = Some (Some (Summary n)) -> r.1 !! j = Some (Some (Summary m)) ->
   times !! i = Some t -> times !! j = Some u -> t + every <= u).
Proof.
  intros Hlim Hev Hlen Ht Hs r.
  assert (logger_ok (new_logger limit every) times) as Hl
    by (unfold logger_ok; cbn; repeat split; lia || done).
  destruct (logs_accounted times _ Hs Hl) as [Ha Hb]. fold r in Ha, Hb. cbn in Ha, Hb.
  split; [lia|]. split; [lia|]. clear Ha Hb. subst r.
  change every with (throttleEvery (new_logger limit every)) at 3.
  revert i j Hs Hl. generalize (new_logger limit every) as l. clear Ht Hlen.
  induction times as [|now times IH]; intros l i j Hs Hl Hij Hi Hj Hti Htj; [done|].
  destruct (log_ok _ _ _ Hs Hl) as (Hl' & _ & Hth & _ & _ & _ & _ & Hsum).
  inversion Hs; subst. destruct j as [|j]; [lia|]. cbn in Hj, Htj.
  destruct i as [|i]; cbn in Hi, Hti.
  - injection Hi as Hi. injection Hti as <-. destruct (Hsum n Hi) as [_ He].
    pose proof (logs_spacing times _ j m u ltac:(done) Hl' Hj Htj). lia.
  - rewrite <-Hth. apply (IH _ i j); done || lia.
Qed.

(** Two errors aloud, then one summary a minute. *)
Lemma errors_accounted_witness :
  let times := [100 * second; 101 * second; 102 * second; 103 * second; 170 * second] in
  let r := logs times (new_logger 2 (60 * second)) in
  r.1 = [Some Loud; Some Loud; Some (Summary 1); None; Some (Summary 2)] /\
  total loud r.1 = 2 /\ total errors_of r.1 + suppressed r.2 = 5 /\
  102 * second + 60 * second <= 170 * second.
Proof.
  intros times r. split; [reflexivity|].
  destruct (errors_accounted 2 (60 * second) times 2 4 1 2 (102 * second) (170 * second))
    as (H1 & H2 & H3); [lia|unfold second; lia|cbn; lia| |
     repeat constructor; unfold second; lia|].
  - repeat constructor; unfold second; lia.
  - split_and!; [exact H1|exact H2|]. apply H3; [lia|reflexivity..].
Defined.
End ErrLog.

(** ** The cursor flusher *)

Module Flusher.
(** Where a goroutine of [Run] is: between ticks, or in a call of [Save] at a
    tick or for the last time. *)
Inductive run_state :=
| Idle (lastFlushed : Z)
| Saving (current lastFlushed : Z)
| LastSave (current : Z)
| Finished.

(** The cursor, what [Save] last stored, and the goroutines of [Run]. *)
Record Flusher := { cursor : Z; saved : option Z; runs : list run_state }.

Definition NewFlusher (stored : option Z) : Flusher := {| cursor := 0; saved := stored; runs := [] |}.

Inductive action :=
| SetCurrent (v : Z)
| Run
| Tick (i : nat)
| SaveReturns (i : nat) (ok : bool)
| Cancelled (i : nat).

Definition set_run (f : Flusher) (i : nat) (r : run_state) : Flusher :=
  {| cursor := cursor f; saved := saved f; runs := <[i := r]> (runs f) |}.
Definition store_if (ok : bool) (v : Z) (f : Flusher) : Flusher :=
  {| cursor := cursor f; saved := if ok then Some v else saved f; runs := runs f |}.

(** What an action does, where the goroutine it names is ready for it. *)
Definition perform (f : Flusher) (a : action) : option Flusher :=
  match a with
  | SetCurrent v => Some {| cursor := v; saved := saved f; runs := runs f |}
  | Run => Some {| cursor := cursor f; saved := saved f; runs := runs f ++ [Idle 0] |}
  | Tick i =>
      match runs f !! i with
      | Some (Idle last) =>
          Some (if last <? cursor f then set_run f i (Saving (cursor f) last) else f)
      | _ => None
      end
  | SaveReturns i ok =>
      match runs f !! i with
      | Some (Saving v last) => Some (set_run (store_if ok v f) i (Idle (if ok then v else last)))
      | Some (LastSave v) => Some (set_run (store_if ok v f) i Finished)
      | _ => None
      end
  | Cancelled i =>
      match runs f !! i with
      | Some (Idle _) =>
          Some (set_run f i (if cursor f <=? 0 then Finished else LastSave (cursor f)))
      | _ => None
      end
  end.
Fixpoint performed (f : Flusher) (acts : list action) : option Flusher :=
  match acts with [] => Some f | a :: acts => f' ← perform f a; performed f' acts end.

(** The cursors that were set, and how many goroutines were started. *)
Definition sets (acts : list action) : list Z :=
  omap (fun a => match a with SetCurrent v => Some v | _ => None end) acts.
Definition starts (acts : list action) : nat :=
  length (List.filter (fun a => match a with Run => true | _ => false end) acts).

Lemma performed_app f acts1 acts2 :
  performed f (acts1 ++ acts2) = (f' ← performed f acts1; performed f' acts2).
Proof. revert f. induction acts1 as [|a acts1 IH]; intros f; [done|]. cbn.
  destruct (perform f a); [apply IH|done].
Qed.

(** Everything in the flusher was set by somebody, [G] being what was. *)
Definition carries (G : Z -> Prop) (r : run_state) : Prop :=
  match r with
  | Idle l => 0 <= l
  | Saving v l => G v /\ 0 <= l
  | LastSave v => G v
  | Finished => True
  end.
Definition honest (G : Z -> Prop) (f : Flusher) : Prop :=
  (cursor f = 0 \/ G (cursor f)) /\ (forall v, saved f = Some v -> G v) /\
  Forall (carries G) (runs f).

(** With one goroutine: what is stored lies behind what is being stored, and
    that behind the cursor, or the cursor is not set yet. *)
Definition behind (floor : Z) (f : Flusher) : Prop :=
  let s := default floor (saved f) in
  (length (runs f) <= 1)%nat /\ floor <= s /\ (cursor f = 0 /\ s = floor \/ s <= cursor f) /\
  Forall (fun r => match r with
                   | Saving v _ | LastSave v => s <= v <= cursor f
                   | _ => True
                   end) (runs f).

Lemma perform_honest (G : Z -> Prop) f a f' : (forall v, G v -> 0 <= v) ->
  (forall v, a = SetCurrent v -> G v) -> honest G f -> perform f a = Some f' -> honest G f'.
Proof.
  intros HG Hset (Hc & Hs & Hr) Hp. destruct a as [v| |i|i ok|i]; cbn in Hp.
  - injection Hp as <-. split_and!; cbn; [right; by apply Hset|done..].
  - injection Hp as <-. split_and!; cbn; [done..|]. apply Forall_app. split; [done|]. by constructor; [|constructor].
  - destruct (runs f !! i) as [[l| | |]|] eqn:Hi; try done. injection Hp as <-. case_match; [|done].
    pose proof (Forall_lookup_1 _ _ _ _ Hr Hi) as Hl. cbn in Hl.
    split_and!; cbn; [done..|]. apply Forall_insert; [done|]. cbn. split; [destruct Hc; [lia|done]|done].
  - destruct (runs f !! i) as [[|v l|v|]|] eqn:Hi; try done; injection Hp as <-;
      pose proof (Forall_lookup_1 _ _ _ _ Hr Hi) as Hv; cbn in Hv; destruct ok;
      (split_and!; cbn; [done|naive_solver|apply Forall_insert; [done|cbn; naive_solver]]).
  - destruct (runs f !! i) as [[l| | |]|] eqn:Hi; try done. injection Hp as <-.
    split_and!; cbn; [done..|]. apply Forall_insert; [done|]. case_match; [done|]. cbn.
    destruct Hc; [lia|done].
Qed.

Lemma performed_honest G acts : forall f f', (forall v, G v -> 0 <= v) -> Forall G (sets acts) ->
  honest G f -> performed f acts = Some f' -> honest G f'.
Proof.
  induction acts as [|a acts IH]; intros f f' HG Ha Hh Hp; [by injection Hp as <-|].
  cbn in Hp. destruct (perform f a) as [f1|] eqn:H1; [|done]. cbn in Hp.
  apply (IH f1); [done| | |done].
  - destruct a; cbn in Ha; [by inversion Ha|done..].
  - apply (perform_honest G f a); [done| |done|done]. intros v ->. by inversion Ha.
Qed.

Lemma perform_behind floor f a f' : 0 <= floor -> honest (fun v => 0 <= v) f -> behind floor f ->
  (starts [a] + length (runs f) <= 1)%nat ->
  (forall v, a = SetCurrent v -> floor <= v /\ cursor f <= v) -> perform f a = Some f' ->
  behind floor f' /\ default floor (saved f) <= default floor (saved f').
Proof.
  intros Hf (_ & _ & Hh) (Hn & Hfl & Hc & Hr) Hst Hset Hp. unfold behind.
  destruct a as [v| |i|i ok|i]; cbn in Hp.
  - injection Hp as <-. destruct (Hset v eq_refl) as [H1 H2]. cbn. split; [|lia].
    split_and!; [done..|right; destruct Hc; lia|].
    eapply Forall_impl; [exact Hr|]. intros [] ?; lia.
  - injection Hp as <-. cbn in *. split; [|lia]. rewrite length_app. cbn.
    split_and!; [lia|done..|]. apply Forall_app. split; [done|]. by constructor; [|constructor].
  - destruct (runs f !! i) as [[l| | |]|] eqn:Hi; try done. injection Hp as <-. case_match; [|by split].
    pose proof (Forall_lookup_1 _ _ _ _ Hh Hi) as Hl. cbn in Hl |- *. split; [|lia].
    rewrite length_insert. split_and!; [done..|]. apply Forall_insert; [done|]. lia.
  - destruct (runs f) as [|r [|r2 l]] eqn:Hl; [done| |cbn in Hn; lia].
    destruct i as [|i]; [|done]. cbn in Hp. apply Forall_cons in Hr as [Hv _].
    destruct r as [|v l|v|]; try done; injection Hp as <-; destruct ok; cbn; rewrite Hl; cbn;
      (split; [|lia]); split_and!; try done; try lia; by repeat constructor.
  - destruct (runs f !! i) as [[l| | |]|] eqn:Hi; try done. injection Hp as <-. cbn. split; [|lia].
    rewrite length_insert. split_and!; [done..|]. apply Forall_insert; [done|].
    destruct (cursor f <=? 0) eqn:?; [done|]. lia.
Qed.

(** Cursors in their order, none before what was stored. *)
Definition rising (floor : Z) (acts : list action) : Prop := StronglySorted Z.le (floor :: sets acts).

Lemma perform_runs f a f' : perform f a = Some f' ->
  length (runs f') = (starts [a] + length (runs f))%nat /\
  ((forall v, a <> SetCurrent v) -> cursor f' = cursor f).
Proof.
  intros Hp. destruct a; cbn in Hp; repeat (case_match; try done); simplify_eq; cbn;
    rewrite ?length_insert, ?length_app; cbn; (split; [lia|naive_solver]).
Qed.

Lemma performed_behind floor acts acts' : forall f f', 0 <= floor -> honest (fun v => 0 <= v) f ->
  behind floor f -> (starts (acts ++ acts') + length (runs f) <= 1)%nat ->
  StronglySorted Z.le (Z.max floor (cursor f) :: sets (acts ++ acts')) ->
  performed f acts = Some f' ->
  behind floor f' /\ default floor (saved f) <= default floor (saved f') /\
  honest (fun v => 0 <= v) f' /\ (starts acts' + length (runs f') <= 1)%nat /\
  StronglySorted Z.le (Z.max floor (cursor f') :: sets acts').
Proof.
  induction acts as [|a acts IH]; intros f f' Hf Hh Hb Hst Hs Hp; [injection Hp as <-; by split_and!|].
  cbn in Hp. destruct (perform f a) as [f1|] eqn:H1; [|done]. cbn in Hp.
  assert (forall v, a = SetCurrent v -> floor <= v /\ cursor f <= v) as Hset.
  { intros v ->. inversion Hs as [|? ? _ Hle]; subst. apply Forall_cons in Hle as [Hle _]. lia. }
  assert (starts ((a :: acts) ++ acts') = starts [a] + starts (acts ++ acts'))%nat as Ha by (by destruct a).
  destruct (perform_behind floor f a f1) as [Hb1 Hle1]; [done|done|done|lia|done|done|].
  destruct (perform_runs _ _ _ H1) as [Hlen Hcur].
  destruct (IH f1 f') as (Hb' & Hle' & Hrest); [done| |done|lia| |done|split_and!; [done|lia|apply Hrest..]].
  - apply (perform_honest _ f a); [done| |done|done]. intros v ->. specialize (Hset v eq_refl). lia.
  - destruct a as [v| | | |]; [|rewrite Hcur by done; done..].
    injection H1 as <-. cbn in *. inversion Hs; subst.
    specialize (Hset v eq_refl). by replace (Z.max floor v) with v by lia.
Qed.

(** Whatever goroutines run, a stored cursor is one that was set. With one
    goroutine and cursors that rise, the stored cursor never goes back and never
    passes the cursor; and when the goroutine's last save works, what is stored
    is the cursor it found when its context was cancelled. *)
Theorem flushed_cursor stored acts acts' f f' :
  Forall (fun v => 0 <= v) (sets (acts ++ acts')) -> 0 <= default 0 stored ->
  performed (NewFlusher stored) acts = Some f -> performed f acts' = Some f' ->
  (forall v, saved f = Some v -> v ∈ sets acts \/ stored = Some v) /\
  ((starts (acts ++ acts') <= 1)%nat -> rising (default 0 stored) (acts ++ acts') ->
   default (default 0 stored) (saved f) <= default (default 0 stored) (saved f') /\
   (acts' = [Cancelled 0; SaveReturns 0 true] -> 0 < cursor f -> saved f' = Some (cursor f))).
Proof.
  intros Hpos Hst Hp Hp'. split.
  - assert (honest (fun v => v ∈ sets acts \/ stored = Some v) f) as (_ & Hs & _); [|done].
    assert (forall v, v ∈ sets acts -> 0 <= v) as Hpos'.
    { intros v Hv. rewrite Forall_forall in Hpos. apply Hpos. unfold sets. rewrite omap_app.
      apply elem_of_app. by left. }
    eapply performed_honest; [| | |exact Hp].
    + intros v [Hv| ->]; [by apply Hpos'|done].
    + apply Forall_forall. by left.
    + split_and!; cbn; [by left|by right|constructor].
  - intros Hn Hr. set (floor := default 0 stored) in *.
    destruct (performed_behind floor acts acts' (NewFlusher stored) f) as (Hb & _ & Hh & Hn' & Hs');
      [done| | |cbn; lia| |done|].
    + split_and!; cbn; [by left| |constructor]. intros v Hv. unfold floor in Hst. by rewrite Hv in Hst.
    + unfold behind. cbn. fold floor. split_and!; [lia| | |constructor]; unfold floor; destruct stored; cbn; lia.
    + cbn. by replace (Z.max floor 0) with floor by lia.
    + rewrite <-(app_nil_r acts') in Hn', Hs'.
      destruct (performed_behind floor acts' [] f f') as (Hb' & Hle & _); [done..|]. split.
      * done.
      * intros -> Hc. cbn in Hp'. destruct (runs f !! 0%nat) as [[l| | |]|] eqn:Hi; try done.
        replace (cursor f <=? 0) with false in Hp' by lia. cbn in Hp'.
        rewrite list_lookup_insert_eq in Hp' by (by eapply lookup_lt_Some). by injection Hp' as <-.
Qed.

(** Two goroutines, as after a reconnection: the second loads a cursor, the first
    stores a later one, and the second overwrites it. *)
Example stored_cursor_goes_back : exists f f',
  performed (NewFlusher None) [Run; Run; SetCurrent 10; Tick 1; SetCurrent 20; Tick 0;
                               SaveReturns 0 true] = Some f /\
  perform f (SaveReturns 1 true) = Some f' /\ saved f = Some 20 /\ saved f' = Some 10.
Proof. do 2 eexists. split_and!; [reflexivity..]. Qed.

Lemma flushed_cursor_witness : exists f f',
  performed (NewFlusher (Some 7)) [Run; SetCurrent 10; Tick 0; SetCurrent 20; SaveReturns 0 false]
    = Some f /\
  performed f [Cancelled 0; SaveReturns 0 true] = Some f' /\
  (10 ∈ [10; 20] \/ Some 7 = Some 10) /\ 7 <= 20 /\ saved f' = Some (cursor f).
Proof.
  do 2 eexists. split_and!; [reflexivity|reflexivity|left; by left|lia|].
  refine (proj2 (proj2 (flushed_cursor (Some 7)
    [Run; SetCurrent 10; Tick 0; SetCurrent 20; SaveReturns 0 false] [Cancelled 0; SaveReturns 0 true]
    _ _ _ _ _ _) _ _) _ _); try reflexivity; cbn; try lia.
  - repeat constructor; lia.
  - unfold rising. cbn. repeat constructor; lia.
Defined.
End Flusher.
