(* ===== verification/Tap.v ===== *)
(** [internal/tap]: the consumer that acknowledges what it has processed. One
    connection is a script of frames with what the network, the clock and the
    repositories do at each; the pipeline is that of [Ingestion]. The redial loop
    is [Reconnect.Backoff], the error log [Reconnect.ErrLog]. *)
From S2P Require Import Prelude GoStrings Registry Validator Ingestion.

Local Open Scope Z_scope.

Definition EventTypeRecord : string := "record".
Definition EventTypeIdentity : string := "identity".

Record RecordEvent := {
  Live : bool; Rev : string; r_DID : string; r_Collection : string; r_RKey : string;
  Action : string; r_CID : string; r_Record : string
}.
Record IdentityEvent := { i_DID : string; Handle : string; IsActive : bool; Status : string }.
Record Event := {
  ID : Z; Type_ : string; e_Record : option RecordEvent; Identity : option IdentityEvent
}.

Record ConsumerConfig := { TapURL : string; DisableAcks : bool; MaxRetries : Z }.
Definition NewConsumer (config : ConsumerConfig) : ConsumerConfig :=
  if MaxRetries config =? 0
  then {| TapURL := TapURL config; DisableAcks := DisableAcks config; MaxRetries := 3 |}
  else config.

Inductive tap_effect :=
| Ingest (e : effect)
| UpsertHandle (did handle : string)
| Ack (text : string).

Inductive tap_error :=
| EIngest (e : ingest_error) | EUpsert (e : string) | EPanic (v : string) | ECancelled
| EReadDeadline | ERead | EWriteDeadline | EWriteAck.

(** What happens during one attempt: the handler ends, with the repositories
    answering so, or panics after some effects. *)
Inductive attempt :=
| Completes (env : environment) (upsert : result string unit)
| Panics (v : string) (before : list tap_effect).
(** One turn of the retry loop: whether the context is found cancelled while
    waiting for it, and the attempt. *)
Record turn := { cancelled : bool; outcome : attempt }.

(** What the network does at one turn of the read loop. *)
Record frame := {
  f_cancelled : bool; f_deadline : bool; f_read : option string; f_turns : nat -> turn;
  f_write_deadline : bool; f_write : bool
}.

Section Tap.
Context `{ValidatorLib} (p : RecordProcessor) (ParseEvent : string -> option Event)
  (config : ConsumerConfig).

(** ** The handler ([handler.go]) *)

Definition op_of (event : RecordEvent) (sourceEventID : Z) : ProcessOp :=
  {| DID := r_DID event;
     URI := "at://" +:+ r_DID event +:+ "/" +:+ r_Collection event +:+ "/" +:+ r_RKey event;
     Collection := r_Collection event; RKey := r_RKey event; CID := r_CID event;
     Operation := Action event; Record_ := r_Record event; SourceEventID := Some sourceEventID |}.

Definition HandleRecord (env : environment) (event : RecordEvent) (sourceEventID : Z)
  : list tap_effect * result tap_error unit :=
  let r := ProcessRecord p env (op_of event sourceEventID) in
  (Ingest <$> r.1, match r.2 with Ok _ => Ok () | Err e => Err (EIngest e) end).

Definition HandleIdentity (upsert : result string unit) (event : IdentityEvent)
  : list tap_effect * result tap_error unit :=
  ([UpsertHandle (i_DID event) (Handle event)],
   match upsert with Ok _ => Ok () | Err e => Err (EUpsert e) end).

(** ** The consumer ([consumer.go]) *)

Definition handleEvent (env : environment) (upsert : result string unit) (event : Event)
  : list tap_effect * result tap_error unit :=
  if String.eqb (Type_ event) EventTypeRecord then
    match e_Record event with None => ([], Ok ()) | Some r => HandleRecord env r (ID event) end
  else if String.eqb (Type_ event) EventTypeIdentity then
    match Identity event with None => ([], Ok ()) | Some i => HandleIdentity upsert i end
  else ([], Ok ()).

(** The retry loop from attempt [i] on, with [n] attempts left. *)
Fixpoint attempts (n i : nat) (turns : nat -> turn) (event : Event) (lastErr : option tap_error)
  : list tap_effect * option tap_error :=
  match n with
  | O => ([], lastErr)
  | S n =>
      if Nat.ltb 0 i && cancelled (turns i) then ([], Some ECancelled)
      else
        match outcome (turns i) with
        | Panics v before => (before, Some (EPanic v))
        | Completes env upsert =>
            let r := handleEvent env upsert event in
            match r.2 with
            | Ok _ => (r.1, None)
            | Err e => let r' := attempts n (S i) turns event (Some e) in (r.1 ++ r'.1, r'.2)
            end
        end
  end.
Definition dispatch (turns : nat -> turn) (event : Event) : list tap_effect * option tap_error :=
  attempts (Z.to_nat (MaxRetries config + 1)) 0 turns event None.

(** One turn of the read loop: its effects, and the error that ends the
    connection. *)
Definition read_turn (f : frame) : list tap_effect * option tap_error :=
  if f_cancelled f then ([], Some ECancelled)
  else if negb (f_deadline f) then ([], Some EReadDeadline)
  else match f_read f with
       | None => ([], Some ERead)
       | Some data =>
           match ParseEvent data with
           | None => ([], None)
           | Some event =>
               let r := dispatch (f_turns f) event in
               match r.2 with
               | Some _ => (r.1, None)
               | None =>
                   if DisableAcks config then (r.1, None)
                   else if negb (f_write_deadline f) then (r.1, Some EWriteDeadline)
                   else if f_write f then (r.1 ++ [Ack (itoa (ID event))], None)
                   else (r.1, Some EWriteAck)
               end
           end
       end.

(** The loop of [runOnce] after a successful dial; [None] while it goes on. *)
Fixpoint runOnce (frames : list frame) : list tap_effect * option tap_error :=
  match frames with
  | [] => ([], None)
  | f :: frames =>
      let r := read_turn f in
      match r.2 with
      | Some e => (r.1, Some e)
      | None => let r' := runOnce frames in (r.1 ++ r'.1, r'.2)
      end
  end.

(** ** What is acknowledged *)

Definition is_ack (e : tap_effect) : bool := match e with Ack _ => true | _ => false end.

(** Handlers do not write to the connection. *)
Definition quiet (turns : nat -> turn) : Prop :=
  forall i v before, outcome (turns i) = Panics v before -> List.filter is_ack before = [].

Lemma filter_ingest es : List.filter is_ack (Ingest <$> es) = [].
Proof. by induction es. Qed.

Lemma handleEvent_quiet env upsert event : List.filter is_ack (handleEvent env upsert event).1 = [].
Proof.
  unfold handleEvent, HandleRecord, HandleIdentity.
  repeat case_match; cbn; try done; apply filter_ingest.
Qed.

Lemma attempts_quiet turns event : quiet turns -> forall n i last,
  List.filter is_ack (attempts n i turns event last).1 = [].
Proof.
  intros Hq. induction n as [|n IH]; intros i last; [done|]. cbn [attempts].
  destruct (_ && _); [done|].
  destruct (outcome (turns i)) as [env upsert|v before] eqn:Ho; [|by eapply Hq].
  pose proof (handleEvent_quiet env upsert event) as Hh.
  destruct (handleEvent env upsert event).2; [done|]. cbn. by rewrite List.filter_app, Hh, IH.
Qed.

(** An attempt that makes the handler succeed, and one after which the loop
    goes on. *)
Definition succeeds (t : turn) (event : Event) : Prop :=
  exists env upsert, outcome t = Completes env upsert /\ (handleEvent env upsert event).2 = Ok ().
Definition fails (t : turn) (event : Event) : Prop :=
  exists env upsert e, outcome t = Completes env upsert /\ (handleEvent env upsert event).2 = Err e.

Lemma attempts_ok turns event : forall n i last, (0 < n)%nat \/ last <> None ->
  ((attempts n i turns event last).2 = None <->
   exists k, (k < n)%nat /\ succeeds (turns (i + k)%nat) event /\
     (forall j, (j < k)%nat -> fails (turns (i + j)%nat) event) /\
     (forall j, (j <= k)%nat -> (0 < i + j)%nat -> cancelled (turns (i + j)%nat) = false)).
Proof.
  induction n as [|n IH]; intros i last Hl; cbn [attempts].
  { destruct Hl; [lia|]. split; [done|]. intros (k & Hk & _). lia. }
  destruct (Nat.ltb 0 i && cancelled (turns i)) eqn:Hc.
  { apply andb_true_iff in Hc as [Hi%Nat.ltb_lt Hc]. split; [done|].
    intros (k & _ & _ & _ & Hnc). specialize (Hnc 0%nat). rewrite Nat.add_0_r, Hc in Hnc.
    specialize (Hnc ltac:(lia) Hi). done. }
  assert ((0 < i)%nat -> cancelled (turns i) = false) as Hnc.
  { intros Hi%Nat.ltb_lt. by rewrite Hi in Hc. }
  destruct (outcome (turns i)) as [env upsert|v before] eqn:Ho.
  - destruct (handleEvent env upsert event).2 as [[]|e] eqn:Hh.
    + split; [|done]. intros _. exists 0%nat. rewrite Nat.add_0_r.
      split_and!; [lia|by exists env, upsert|lia|]. intros j Hj. by replace j with 0%nat by lia; rewrite Nat.add_0_r.
    + cbn. rewrite IH by (by right). split.
      * intros (k & Hk & Hs & Hf & Hn). exists (S k). rewrite Nat.add_succ_r. split_and!; [lia|done| |].
        -- intros [|j] Hj; [rewrite Nat.add_0_r; by exists env, upsert, e|].
           rewrite Nat.add_succ_r. apply Hf. lia.
        -- intros [|j] Hj; [by rewrite Nat.add_0_r|]. rewrite Nat.add_succ_r. intros _.
           apply (Hn j); lia.
      * intros ([|k] & Hk & Hs & Hf & Hn).
        -- rewrite Nat.add_0_r in Hs. destruct Hs as (env' & up' & Ho' & Hh').
           rewrite Ho in Ho'. injection Ho' as <- <-. by rewrite Hh in Hh'.
        -- exists k. rewrite Nat.add_succ_r in Hs. split_and!; [lia|done| |].
           ++ intros j Hj. specialize (Hf (S j) ltac:(lia)). by rewrite Nat.add_succ_r in Hf.
           ++ intros j Hj _. specialize (Hn (S j) ltac:(lia)). rewrite Nat.add_succ_r in Hn.
              apply Hn. lia.
  - split; [done|]. intros ([|k] & _ & Hs & Hf & _).
    + rewrite Nat.add_0_r in Hs. destruct Hs as (? & ? & Ho' & _). by rewrite Ho in Ho'.
    + destruct (Hf 0%nat ltac:(lia)) as (? & ? & ? & Ho' & _). rewrite Nat.add_0_r in Ho'.
      by rewrite Ho in Ho'.
Qed.

(** A record event is settled by the pipeline: it was none of its business, or
    enforced validation refused it, or it was stored and published. *)
Definition settled (env : environment) (op : ProcessOp) : Prop :=
  known_op op = true /\
  (processed p op = true -> rejected p op = true \/ committed env op = true).

Lemma HandleRecord_Ok env event id : (HandleRecord env event id).2 = Ok () ->
  settled env (op_of event id).
Proof.
  unfold HandleRecord. rewrite ProcessRecord_spec. cbn [snd]. unfold spec_outcome, settled.
  destruct (known_op _); [|done]. cbn [negb]. intros Hr. split; [done|]. intros Hp.
  rewrite Hp in Hr. cbn in Hr. destruct (rejected p _); [by left|right].
  cbn in Hr. by destruct (committed env _).
Qed.

(** C16: For handlers that do not write to the connection themselves ([quiet]; the
    code gives them no connection): an acknowledgement is sent for an event only
    after an attempt at it that went through, within the configured number of
    retries, all earlier attempts having failed without a panic and the context
    not cancelled in between; or the number of retries is negative, which nothing
    checks (TAP_MAX_RETRIES), and the event is acknowledged without any attempt at
    it (Example negative_retries). What went through is, for a record, a pipeline
    run that settled it: stored, or rejected, or none of the indexer's business;
    and for an identity, an update of the actor that succeeded. *)
Theorem ack_means_settled f text : quiet (f_turns f) -> Ack text ∈ (read_turn f).1 ->
  exists data event,
  f_read f = Some data /\ ParseEvent data = Some event /\ text = itoa (ID event) /\
  (MaxRetries config < 0 /\ dispatch (f_turns f) event = ([], None) \/
   exists k env upsert,
    Z.of_nat k <= MaxRetries config /\ outcome (f_turns f k) = Completes env upsert /\
    (forall j, (j < k)%nat -> fails (f_turns f j) event) /\
    (forall j, (0 < j <= k)%nat -> cancelled (f_turns f j) = false) /\
    (Type_ event = EventTypeRecord -> forall r, e_Record event = Some r ->
     settled env (op_of r (ID event))) /\
    (Type_ event = EventTypeIdentity -> forall i, Identity event = Some i -> is_ok upsert = true)).
Proof.
  intros Hq Ha. unfold read_turn in Ha.
  destruct (f_cancelled f); [by apply elem_of_nil in Ha|].
  destruct (f_deadline f); [|by apply elem_of_nil in Ha]. cbn in Ha.
  destruct (f_read f) as [data|] eqn:Hr; [|by apply elem_of_nil in Ha].
  destruct (ParseEvent data) as [event|] eqn:Hp; [|by apply elem_of_nil in Ha].
  pose proof (attempts_quiet _ event Hq (Z.to_nat (MaxRetries config + 1)) 0 None) as Hn.
  fold (dispatch (f_turns f) event) in Hn.
  assert (Ack text ∈ (dispatch (f_turns f) event).1 -> False) as Hno.
  { intros Hin%list_elem_of_In. assert (In (Ack text) (List.filter is_ack (dispatch (f_turns f) event).1)) as Hf
      by (by apply filter_In). by rewrite Hn in Hf. }
  destruct (dispatch (f_turns f) event).2 eqn:Hd; [done|].
  destruct (DisableAcks config); [done|]. destruct (f_write_deadline f); [|done]. cbn in Ha.
  destruct (f_write f); [|done]. apply elem_of_app in Ha as [Ha|Ha]; [done|].
  apply list_elem_of_singleton in Ha. injection Ha as ->.
  exists data, event. split_and!; [done..|].
  destruct (decide (MaxRetries config < 0)) as [Hm|Hm].
  { left. split; [done|]. unfold dispatch. by rewrite Z2Nat.nonpos by lia. }
  right. apply (attempts_ok (f_turns f) event) in Hd as (k & Hk & (env & up & Ho & Hh) & Hf & Hc);
    [|left; lia]. exists k, env, up. cbn in Ho.
  split_and!; [lia|done|exact Hf|intros j ?; apply (Hc j); lia| |].
  - intros Ht r Her. unfold handleEvent in Hh. rewrite Ht, Her in Hh. by apply HandleRecord_Ok.
  - intros Ht i Hei. unfold handleEvent in Hh. rewrite Ht, Hei in Hh. cbn in Hh. by destruct up.
Qed.

(** The acknowledgement a frame is due. *)
Definition due (f : frame) : list tap_effect :=
  match f_read f ≫= ParseEvent with
  | Some event =>
      match (dispatch (f_turns f) event).2 with
      | None => if DisableAcks config then [] else [Ack (itoa (ID event))]
      | Some _ => []
      end
  | None => []
  end.
Definition goes_on (f : frame) : Prop := (read_turn f).2 = None.

Lemma read_turn_acks f : quiet (f_turns f) ->
  List.filter is_ack (read_turn f).1 = if (read_turn f).2 then [] else due f.
Proof.
  intros Hq. unfold read_turn, due. destruct (f_cancelled f); [done|].
  destruct (f_deadline f); [|done]. cbn. destruct (f_read f) as [data|]; [|done]. cbn.
  destruct (ParseEvent data) as [event|]; [|done].
  pose proof (attempts_quiet _ event Hq (Z.to_nat (MaxRetries config + 1)) 0 None) as Hn.
  fold (dispatch (f_turns f) event) in Hn.
  destruct (dispatch (f_turns f) event).2; [done|]. destruct (DisableAcks config); [done|].
  destruct (f_write_deadline f), (f_write f); cbn; rewrite ?List.filter_app, ?Hn; done.
Qed.

End Tap.

(** ** Concrete frames *)

Module Example_tap.
#[local] Existing Instance Validator.Example_post.toy_lib.

Definition down : environment :=
  {| now := 1000; LogActivity := fun _ => (7, None); InsertWithParams := fun _ => Err "down";
     Delete := fun _ => Err "down"; pds_endpoint := fun _ => Ok "https://pds";
     decode_created := fun _ => None; parse_rfc3339 := fun _ => None |}.
Definition post : Event :=
  {| ID := 41; Type_ := "record"; Identity := None;
     e_Record := Some {| Live := true; Rev := "1"; r_DID := "did:plc:a"; r_Collection := "app.post";
                         r_RKey := "1"; Action := "create"; r_CID := "c"; r_Record := "{}" |} |}.
Definition parse (data : string) : option Event := if String.eqb data "post" then Some post else None.
Definition processor : RecordProcessor := Ingestion.Example_ingest.processor "warn".
Definition config (retries : Z) : ConsumerConfig :=
  NewConsumer {| TapURL := "wss://tap"; DisableAcks := false; MaxRetries := retries |}.
(** The database is down during the first [n] attempts. *)
Definition frame_of (data : option string) (n : nat) : frame :=
  {| f_cancelled := false; f_deadline := true; f_read := data;
     f_turns := fun i => {| cancelled := false;
       outcome := Completes (if Nat.ltb i n then down else Ingestion.Example_ingest.env) (Ok ()) |};
     f_write_deadline := true; f_write := true |}.

Lemma quiet_frame data n : quiet (f_turns (frame_of data n)).
Proof. by intros i v before. Qed.

Lemma ack_means_settled_witness :
  exists k env upsert, outcome (f_turns (frame_of (Some "post") 2) k) = Completes env upsert /\
    settled processor env (op_of {| Live := true; Rev := "1"; r_DID := "did:plc:a";
      r_Collection := "app.post"; r_RKey := "1"; Action := "create"; r_CID := "c";
      r_Record := "{}" |} 41).
Proof.
  destruct (ack_means_settled processor parse (config 0) (frame_of (Some "post") 2) "41")
    as (data & event & Hr & Hp & _ & [[? _]|(k & env & upsert & _ & Ho & _ & _ & Hs & _)]).
  - apply quiet_frame.
  - apply list_elem_of_In. vm_compute. tauto.
  - done.
  - injection Hr as <-. injection Hp as <-. exists k, env, upsert. split; [done|]. by apply Hs.
Defined.


(** With a negative limit of retries the loop makes no attempt and reports
    success: an event that was never handled is acknowledged. *)
Example negative_retries :
  (runOnce processor parse (config (-1)) [frame_of (Some "post") 9]).1 = [Ack "41"].
Proof. reflexivity. Qed.
End Example_tap.
