(* ===== verification/Jetstream.v ===== *)
(** [internal/jetstream]: the client that reads events from a websocket into a
    bounded channel, and the consumer that processes them, keeps the cursor and
    reconnects. The pipeline is that of [Ingestion], the redial loop and the
    cursor flusher those of [Reconnect]; logging, metrics and pings are left
    out. *)
From S2P Require Import Prelude GoStrings Registry Validator Ingestion ConfigStore.

Local Open Scope Z_scope.

(** ** Events ([event.go]) *)

Definition EventTypeCommit : string := "commit".

Record CommitEvent := {
  Rev : string; c_Operation : string; c_Collection : string; c_RKey : string; c_Record : string;
  c_CID : string
}.
Record Event := { e_DID : string; TimeUS : Z; Kind : string; Commit : option CommitEvent }.

Definition commit_URI (c : CommitEvent) (did : string) : string :=
  "at://" +:+ did +:+ "/" +:+ c_Collection c +:+ "/" +:+ c_RKey c.

(** [IsCommit], with the commit it guards. *)
Definition IsCommit (e : Event) : option CommitEvent :=
  if String.eqb (Kind e) EventTypeCommit then Commit e else None.

(** ** Processing ([processEvents] of [consumer.go]) *)

Record Stats := {
  EventsReceived : Z; RecordsCreated : Z; RecordsUpdated : Z; RecordsDeleted : Z; Errors : Z
}.
Definition no_stats : Stats :=
  {| EventsReceived := 0; RecordsCreated := 0; RecordsUpdated := 0; RecordsDeleted := 0; Errors := 0 |}.

Definition incr (z : Z) : Z := wrap64 (z + 1).
Definition count_received (s : Stats) : Stats :=
  {| EventsReceived := incr (EventsReceived s); RecordsCreated := RecordsCreated s;
     RecordsUpdated := RecordsUpdated s; RecordsDeleted := RecordsDeleted s; Errors := Errors s |}.
Definition count_error (s : Stats) : Stats :=
  {| EventsReceived := EventsReceived s; RecordsCreated := RecordsCreated s;
     RecordsUpdated := RecordsUpdated s; RecordsDeleted := RecordsDeleted s;
     Errors := incr (Errors s) |}.
Definition count_operation (operation : string) (s : Stats) : Stats :=
  let if_op op z := if String.eqb operation op then incr z else z in
  {| EventsReceived := EventsReceived s; RecordsCreated := if_op OpCreate (RecordsCreated s);
     RecordsUpdated := if_op OpUpdate (RecordsUpdated s);
     RecordsDeleted := if_op OpDelete (RecordsDeleted s); Errors := Errors s |}.

Section Processing.
Context `{ValidatorLib} (p : RecordProcessor).

Definition op_of (e : Event) (commit : CommitEvent) : ProcessOp :=
  {| DID := e_DID e; URI := commit_URI commit (e_DID e); Collection := c_Collection commit;
     RKey := c_RKey commit; CID := c_CID commit; Operation := c_Operation commit;
     Record_ := c_Record commit; SourceEventID := Some (TimeUS e) |}.

(** One turn of the loop, with what the repositories answer during it; the state
    is the counters and the cursor given to the flusher. *)
Definition process_event (env : environment) (e : Event) (s : Stats * Z)
  : list effect * (Stats * Z) :=
  let stats := count_received s.1 in
  match IsCommit e with
  | Some commit =>
      let r := ProcessRecord p env (op_of e commit) in
      match r.2 with
      | Err _ => (r.1, (count_error stats, s.2))
      | Ok _ => (r.1, (count_operation (c_Operation commit) stats, TimeUS e))
      end
  | None => ([], (stats, TimeUS e))
  end.

Fixpoint processEvents (l : list (environment * Event)) (s : Stats * Z)
  : list effect * (Stats * Z) :=
  match l with
  | [] => ([], s)
  | (env, e) :: l =>
      let r := process_event env e s in
      let r' := processEvents l r.2 in (r.1 ++ r'.1, r'.2)
  end.

(** What becomes of an event, by the specification of the pipeline. *)
Definition failed (x : environment * Event) : bool :=
  match IsCommit x.2 with
  | Some c => negb (is_ok (spec_outcome p x.1 (op_of x.2 c)))
  | None => false
  end.
Definition went_through (operation : string) (x : environment * Event) : bool :=
  negb (failed x) &&
  match IsCommit x.2 with Some c => String.eqb (c_Operation c) operation | None => false end.
Definition trace_of (x : environment * Event) : list effect :=
  match IsCommit x.2 with Some c => spec_trace p x.1 (op_of x.2 c) | None => [] end.

Definition how_many {A} (f : A -> bool) (l : list A) : Z := Z.of_nat (length (List.filter f l)).

(** Counters that are far from their maximum. *)
Definition room (s : Stats) (n : Z) : Prop :=
  let ok z := 0 <= z /\ z + n < 2 ^ 63 in
  ok (EventsReceived s) /\ ok (RecordsCreated s) /\ ok (RecordsUpdated s) /\
  ok (RecordsDeleted s) /\ ok (Errors s).

Lemma incr_small z : 0 <= z -> z + 1 < 2 ^ 63 -> incr z = z + 1.
Proof. intros. apply wrap64_id. unfold in_int64, int64_min, int64_max. lia. Qed.

Lemma how_many_cons {A} (f : A -> bool) x l : how_many f (x :: l) = (if f x then 1 else 0) + how_many f l.
Proof. unfold how_many. cbn. destruct (f x); cbn [length]; lia. Qed.

(** One event, in terms of the specification. *)
Lemma process_event_spec env e s :
  process_event env e s =
  (trace_of (env, e),
   (if failed (env, e) then count_error (count_received s.1)
    else match IsCommit e with
         | Some c => count_operation (c_Operation c) (count_received s.1)
         | None => count_received s.1
         end,
    if failed (env, e) then s.2 else TimeUS e)).
Proof.
  unfold process_event, trace_of, failed. cbn [fst snd]. destruct (IsCommit e) as [c|]; [|done].
  rewrite ProcessRecord_spec. cbn [fst snd]. by destruct (spec_outcome _ _ _).
Qed.

(** One event moves each counter by what it is. *)
Definition ind (b : bool) : Z := if b then 1 else 0.
Lemma process_event_counts env e s n : 0 <= n -> room s.1 (n + 1) ->
  let s1 := (process_event env e s).2.1 in
  EventsReceived s1 = EventsReceived s.1 + 1 /\
  RecordsCreated s1 = RecordsCreated s.1 + ind (went_through OpCreate (env, e)) /\
  RecordsUpdated s1 = RecordsUpdated s.1 + ind (went_through OpUpdate (env, e)) /\
  RecordsDeleted s1 = RecordsDeleted s.1 + ind (went_through OpDelete (env, e)) /\
  Errors s1 = Errors s.1 + ind (failed (env, e)) /\ room s1 n.
Proof.
  intros Hn (H1 & H2 & H3 & H4 & H5) s1. subst s1. rewrite process_event_spec. cbn [fst snd].
  unfold went_through, room. cbn [fst snd].
  assert (failed (env, e) = true -> IsCommit e <> None) as Hf
    by (unfold failed; cbn; by destruct (IsCommit e)).
  destruct (failed (env, e)), (IsCommit e) as [c|]; cbn;
    repeat (case_match; cbn); rewrite ?incr_small by lia; unfold ind; split_and!; lia || naive_solver.
Qed.

(** Whatever the repositories answer, the consumer runs the pipeline exactly
    once for each commit, in the order of arrival; every event is counted once,
    as received and as created, updated, deleted or failed by what the pipeline
    said; and the cursor is the time of the last event that did not fail. *)
Theorem events_accounted l s : room s.1 (Z.of_nat (length l)) ->
  let r := processEvents l s in
  r.1 = concat (trace_of <$> l) /\
  EventsReceived r.2.1 = EventsReceived s.1 + Z.of_nat (length l) /\
  RecordsCreated r.2.1 = RecordsCreated s.1 + how_many (went_through OpCreate) l /\
  RecordsUpdated r.2.1 = RecordsUpdated s.1 + how_many (went_through OpUpdate) l /\
  RecordsDeleted r.2.1 = RecordsDeleted s.1 + how_many (went_through OpDelete) l /\
  Errors r.2.1 = Errors s.1 + how_many failed l /\
  r.2.2 = match last (List.filter (fun x => negb (failed x)) l) with
          | Some x => TimeUS x.2
          | None => s.2
          end.
Proof.
  revert s. induction l as [|[env e] l IH]; intros s Hs; cbn zeta.
  { cbn. unfold how_many. cbn. split_and!; (done || lia). }
  cbn [length] in Hs.
  destruct (process_event_counts env e s (Z.of_nat (length l))) as (C1 & C2 & C3 & C4 & C5 & Hr);
    [lia|by rewrite Nat2Z.inj_succ in Hs|].
  destruct (IH _ Hr) as (I1 & I2 & I3 & I4 & I5 & I6 & I7). cbn [processEvents].
  cbn [fst snd]. rewrite !how_many_cons. fold (ind (failed (env, e))).
  split_and!; [by rewrite I1, process_event_spec|cbn [length]; lia|unfold ind in *; lia..|].
  rewrite I7, process_event_spec. cbn [List.filter fst snd].
  destruct (failed (env, e)); cbn [negb]; [done|]. rewrite last_cons. by destruct (last _).
Qed.
End Processing.

(** ** The stored cursor ([loadCursor], [saveCursor]) *)

Module Cursor.
(** encoding/json on a 64-bit integer: a blank-padded canonical decimal text, or
    null, which leaves the zero value. *)
Definition json_blank (c : ascii) : bool :=
  let z := zb c in (z =? 32) || (z =? 9) || (z =? 10) || (z =? 13).
Fixpoint trim_left (s : string) : string :=
  match s with String c s' => if json_blank c then trim_left s' else s | EmptyString => "" end.
Fixpoint trim_right (s : string) : string :=
  match s with
  | String c s' => let t := trim_right s' in
                   if is_empty t && json_blank c then "" else String c t
  | EmptyString => ""
  end.
Definition Unmarshal_int64 (s : string) : option Z :=
  let t := trim_right (trim_left s) in
  if String.eqb t "null" then Some 0
  else match ParseInt t with
       | Some z => if String.eqb (itoa z) t || String.eqb t "-0" then Some z else None
       | None => None
       end.

Definition loadCursor (s : ConfigStore.store) : option Z :=
  match ConfigStore.Get s "jetstream_cursor" with
  | Err _ => None
  | Ok value => if is_empty value then Some 0 else Unmarshal_int64 value
  end.
Definition saveCursor (up : bool) (s : ConfigStore.store) (cur : Z)
  : result ConfigStore.db_error ConfigStore.store :=
  ConfigStore.Set_ up s "jetstream_cursor" (itoa cur).

(** The request of a client ([NewClient], [buildURL] of [client.go]): the values
    of the query, over those the configured URL already has. *)
Record ClientConfig := {
  URL : string; Collections : list string; Cursor : Z; DisableCursor : bool
}.
Definition DefaultJetstreamURL : string := "wss://jetstream2.us-west.bsky.network/subscribe".
Definition NewClient (config : ClientConfig) : ClientConfig :=
  if is_empty (URL config)
  then {| URL := DefaultJetstreamURL; Collections := Collections config; Cursor := Cursor config;
          DisableCursor := DisableCursor config |}
  else config.
Definition buildURL (config : ClientConfig) (q : query) : query :=
  let q := fold_left (fun q col => q_Add q "wantedCollections" col) (Collections config) q in
  if (0 <? Cursor config) && negb (DisableCursor config)
  then q_Set q "cursor" (itoa (Cursor config)) else q.

(** The client that [startInternal] makes: a cursor that cannot be loaded is
    none. *)
Definition start_client (url : string) (collections : list string) (disable : bool)
    (s : ConfigStore.store) : ClientConfig :=
  NewClient {| URL := url; Collections := collections;
               Cursor := default 0 (loadCursor s); DisableCursor := disable |}.

Lemma itoa_no_blank z : all_bytes (fun b => negb ((b =? 32) || (b =? 9) || (b =? 10) || (b =? 13))) (itoa z) = true.
Proof. eapply all_bytes_impl; [|apply itoa_bytes]. cbn. intros b Hb. lia. Qed.

Lemma trim_right_id s : all_bytes (fun b => negb ((b =? 32) || (b =? 9) || (b =? 10) || (b =? 13))) s = true ->
  trim_right s = s.
Proof.
  induction s as [|c s IH]; cbn; [done|]. intros [Hc Hs]%andb_true_iff. rewrite IH by done.
  unfold json_blank. apply negb_true_iff in Hc. by rewrite Hc, andb_false_r.
Qed.

Lemma trim_itoa z : trim_right (trim_left (itoa z)) = itoa z.
Proof.
  pose proof (itoa_no_blank z) as Hb. rewrite <-(trim_right_id (itoa z)) at 2 by done. f_equal.
  destruct (itoa z) as [|c s]; [done|]. cbn in *. apply andb_true_iff in Hb as [Hc%negb_true_iff _].
  unfold json_blank. by rewrite Hc.
Qed.

Lemma Unmarshal_itoa z : in_int64 z -> Unmarshal_int64 (itoa z) = Some z.
Proof.
  intros Hz. unfold Unmarshal_int64. rewrite trim_itoa, ParseInt_itoa, String.eqb_refl by done.
  destruct (String.eqb_spec (itoa z) "null") as [He|]; [|done].
  pose proof (itoa_bytes z) as Hb. by rewrite He in Hb.
Qed.

Lemma wanted_collections cols q :
  fold_left (fun q col => q_Add q "wantedCollections" col) cols q !! "wantedCollections"
  = match cols with [] => q !! "wantedCollections" | _ => Some (default [] (q !! "wantedCollections") ++ cols) end /\
  forall k, k <> "wantedCollections" ->
    fold_left (fun q col => q_Add q "wantedCollections" col) cols q !! k = q !! k.
Proof.
  revert q. induction cols as [|c cols IH]; intros q; [done|]. cbn [fold_left].
  destruct (IH (q_Add q "wantedCollections" c)) as [H1 H2]. split.
  - rewrite H1. unfold q_Add. rewrite lookup_insert_eq. cbn. destruct cols; [done|]. by rewrite <-app_assoc.
  - intros k Hk. rewrite H2 by done. unfold q_Add. by rewrite lookup_insert_ne.
Qed.

(** A cursor that was saved is the one the next connection asks to resume
    from, over the whole range of positive 64-bit integers, along with exactly
    the configured collections in their order; without a stored cursor, with one
    that is not positive, or with cursors disabled, it asks for none. *)
Theorem resumes_from_saved up s s' cur url cols disable : in_int64 cur ->
  saveCursor up s cur = Ok s' ->
  let q := buildURL (start_client url cols disable s') ∅ in
  loadCursor s' = Some cur /\
  q !! "cursor" = (if (0 <? cur) && negb disable then Some [itoa cur] else None) /\
  q !! "wantedCollections" = (match cols with [] => None | _ => Some cols end) /\
  (forall s0, loadCursor s0 = None ->
     buildURL (start_client url cols disable s0) ∅ !! "cursor" = None).
Proof.
  intros Hc Hs q. unfold saveCursor, ConfigStore.Set_ in Hs. destruct up; [|done]. injection Hs as <-.
  assert (loadCursor (<["jetstream_cursor":=itoa cur]> s) = Some cur) as Hl.
  { unfold loadCursor, ConfigStore.Get. rewrite lookup_insert_eq.
    destruct (is_empty (itoa cur)) eqn:He; [|by apply Unmarshal_itoa].
    assert (itoa cur = "") as He' by (by destruct (itoa cur)).
    pose proof (ParseInt_itoa cur Hc) as Hp. by rewrite He' in Hp. }
  split; [done|]. subst q. unfold start_client. rewrite Hl. cbn [default].
  destruct (wanted_collections cols ∅) as [W1 W2]. rewrite lookup_empty in W1. cbn in W1.
  assert (forall c, Cursor (NewClient c) = Cursor c /\ DisableCursor (NewClient c) = DisableCursor c /\
                    Collections (NewClient c) = Collections c) as Hn
    by (intros c; unfold NewClient; by destruct (is_empty _)).
  split_and!.
  - unfold buildURL. rewrite !(proj1 (Hn _)), (proj1 (proj2 (Hn _))), (proj2 (proj2 (Hn _))). cbn.
    destruct (_ && _); unfold q_Set; [by rewrite lookup_insert_eq|]. by rewrite W2.
  - unfold buildURL. rewrite !(proj1 (Hn _)), (proj1 (proj2 (Hn _))), (proj2 (proj2 (Hn _))). cbn.
    destruct (_ && _); unfold q_Set; [rewrite lookup_insert_ne by done|]; rewrite W1; by destruct cols.
  - intros s0 H0. unfold buildURL. rewrite H0.
    rewrite !(proj1 (Hn _)), (proj2 (proj2 (Hn _))). cbn. by rewrite W2.
Qed.

Lemma resumes_from_saved_witness :
  let s' : ConfigStore.store := <["jetstream_cursor" := itoa 1750]> ∅ in
  buildURL (start_client "" ["app.post"] false s') ∅ !! "cursor" = Some [itoa 1750] /\
  itoa 1750 = "1750" /\ loadCursor ∅ = None.
Proof.
  intros s'. split; [|done].
  refine (proj1 (proj2 (resumes_from_saved true ∅ s' 1750 "" ["app.post"] false _ _))).
  - unfold in_int64, int64_min, int64_max. lia.
  - reflexivity.
Defined.
End Cursor.

(** ** Clients, loops and shutdown ([client.go], [consumer.go])

    Everything that runs at the same time: the reader of each client ([Run]),
    the processor behind it ([processEvents]), the redial loop of each context,
    and the callers of [Stop] and [UpdateCollections]. *)

Module Clients.
Definition EventChannelBufferSize : Z := 1000.

(** Where [Run] is: at the top of its loop, waiting for a message, about to send
    an event to the channel; returned, or crashed. *)
Inductive reader := AtTop | Reading | AtSend (e : Event) | Returned | Panicked.

(** A client: its channel, whether it was stopped ([done] and [events] are closed
    together), its reader once [Run] was called, and the context it runs in. For
    the statements, the events its reader has parsed and the processor has taken. *)
Record client := {
  queue : list Event; stopped : bool; reader_of : option reader; in_ctx : nat;
  parsed : list Event; taken : list Event
}.
Definition new_client (g : nat) (connected : bool) : client :=
  {| queue := []; stopped := false; reader_of := if connected then Some AtTop else None;
     in_ctx := g; parsed := []; taken := [] |}.
Definition Stop (c : client) : client :=
  {| queue := queue c; stopped := true; reader_of := reader_of c; in_ctx := in_ctx c;
     parsed := parsed c; taken := taken c |}.
Definition set_reader (r : reader) (c : client) : client :=
  {| queue := queue c; stopped := stopped c; reader_of := Some r; in_ctx := in_ctx c;
     parsed := parsed c; taken := taken c |}.
Definition parse (e : Event) (c : client) : client :=
  {| queue := queue c; stopped := stopped c; reader_of := Some (AtSend e); in_ctx := in_ctx c;
     parsed := parsed c ++ [e]; taken := taken c |}.
Definition enqueue (e : Event) (c : client) : client :=
  {| queue := queue c ++ [e]; stopped := stopped c; reader_of := Some AtTop; in_ctx := in_ctx c;
     parsed := parsed c; taken := taken c |}.
Definition take (e : Event) (q : list Event) (c : client) : client :=
  {| queue := q; stopped := stopped c; reader_of := reader_of c; in_ctx := in_ctx c;
     parsed := parsed c; taken := taken c ++ [e] |}.

(** The steps of [Run] and of the processor of one client, in a context that is
    cancelled or not. *)
Inductive client_step (cancelled : bool) : client -> client -> Prop :=
| cs_leave c : reader_of c = Some AtTop -> cancelled || stopped c = true ->
    client_step cancelled c (set_reader Returned c)
| cs_read c : reader_of c = Some AtTop -> cancelled = false -> stopped c = false ->
    client_step cancelled c (set_reader Reading c)
| cs_message c e : reader_of c = Some Reading -> stopped c = false ->
    client_step cancelled c (parse e c)
| cs_unparsed c : reader_of c = Some Reading -> client_step cancelled c (set_reader AtTop c)
| cs_read_error c : reader_of c = Some Reading -> client_step cancelled c (set_reader Returned c)
| cs_send c e : reader_of c = Some (AtSend e) -> stopped c = false ->
    Z.of_nat (length (queue c)) < EventChannelBufferSize -> client_step cancelled c (enqueue e c)
| cs_send_closed c e : reader_of c = Some (AtSend e) -> stopped c = true ->
    client_step cancelled c (set_reader Panicked c)
| cs_give_up c e : reader_of c = Some (AtSend e) -> cancelled = true ->
    client_step cancelled c (set_reader Returned c)
| cs_take c e q : queue c = e :: q -> client_step cancelled c (take e q c).

(** The redial loop of a context: between two connections, in [Run] of a client,
    or returned. *)
Inductive loop := Waiting | Running (k : nat) | Ended.

(** The consumer: all clients there ever were, the current one, and for each
    context whether it is cancelled and where its loop is; the last context is
    the consumer's. *)
Record world := {
  clients : list client; current : option nat; ctxs : list (bool * loop)
}.
Definition started : world := {| clients := []; current := None; ctxs := [(false, Waiting)] |}.

Definition stop_current (w : world) : list client :=
  match current w with Some k => alter Stop k (clients w) | None => clients w end.
Definition set_loop (g : nat) (l : loop) (ctxs : list (bool * loop)) : list (bool * loop) :=
  alter (fun x => (x.1, l)) g ctxs.
Definition cancel_last (ctxs : list (bool * loop)) : list (bool * loop) :=
  alter (fun x => (true, x.2)) (pred (length ctxs)) ctxs.

(** [startInternal]: the old client is stopped, and a new one connects or not. *)
Definition startInternal (g : nat) (connected : bool) (w : world) : world :=
  {| clients := stop_current w ++ [new_client g connected];
     current := Some (length (clients w));
     ctxs := set_loop g (if connected then Running (length (clients w)) else Waiting) (ctxs w) |}.

(** The steps of the program on its own, and those its callers ask for. *)
Inductive auto_step : world -> world -> Prop :=
| as_connect w g x connected : ctxs w !! g = Some (x, Waiting) ->
    auto_step w (startInternal g connected w)
| as_run_returned w g x k c : ctxs w !! g = Some (x, Running k) -> clients w !! k = Some c ->
    reader_of c = Some Returned ->
    auto_step w {| clients := clients w; current := current w;
                   ctxs := set_loop g (if x : bool then Ended else Waiting) (ctxs w) |}
| as_client w k c x l c' : clients w !! k = Some c -> ctxs w !! in_ctx c = Some (x, l) ->
    client_step x c c' ->
    auto_step w {| clients := <[k := c']> (clients w); current := current w; ctxs := ctxs w |}
| as_cancelled w : (* the context that [Start] was given *)
    auto_step w {| clients := clients w; current := current w; ctxs := cancel_last (ctxs w) |}.
Inductive caller_step : world -> world -> Prop :=
| cs_stop w :
    caller_step w {| clients := stop_current w; current := current w; ctxs := cancel_last (ctxs w) |}
| cs_update_stop w : (* [UpdateCollections], first the old client *)
    caller_step w {| clients := stop_current w; current := current w; ctxs := ctxs w |}
| cs_update_restart w : (* and then a new context with a loop of its own *)
    caller_step w {| clients := clients w; current := current w;
                     ctxs := cancel_last (ctxs w) ++ [(false, Waiting)] |}.
Definition step (w w' : world) : Prop := auto_step w w' \/ caller_step w w'.

(** *** No event is reordered, and none is dropped while the reader lives *)

Definition in_hand (c : client) : list Event :=
  match reader_of c with Some (AtSend e) => [e] | _ => [] end.
Definition alive (c : client) : bool :=
  match reader_of c with Some Returned | Some Panicked => false | _ => true end.
Definition fifo (c : client) : Prop :=
  Z.of_nat (length (queue c)) <= EventChannelBufferSize /\
  (taken c ++ queue c) `prefix_of` parsed c /\
  (alive c = true -> parsed c = taken c ++ queue c ++ in_hand c).

Lemma fifo_new g b : fifo (new_client g b).
Proof. unfold fifo, EventChannelBufferSize. cbn. split_and!; [lia|done|by destruct b]. Qed.
Lemma fifo_Stop c : fifo c -> fifo (Stop c).
Proof. by intros. Qed.

Lemma fifo_client_step x c c' : client_step x c c' -> fifo c -> fifo c'.
Proof.
  intros Hs (Hl & Hp & Ha). destruct Hs as [c Hr|c Hr|c e Hr|c Hr|c Hr|c e Hr|c e Hr|c e Hr|c e q Hq];
    unfold fifo, alive, in_hand in *; cbn.
  1-8: rewrite Hr in Ha; specialize (Ha eq_refl).
  - done.
  - done.
  - split_and!; [done| |intros _]; rewrite Ha, app_nil_r; [|by rewrite <-app_assoc].
    by apply prefix_app_r.
  - done.
  - done.
  - rewrite length_app. cbn. by split_and!; [lia| |intros _]; rewrite Ha, ?app_nil_r.
  - done.
  - done.
  - rewrite Hq in *. cbn in Hl. split_and!; [lia|by rewrite <-app_assoc|].
    intros Hal. rewrite <-app_assoc. by apply Ha.
Qed.

(** *** Reconnecting never crashes *)

(** The reader of a client is not running, so the client may be stopped. *)
Definition at_rest (c : client) : Prop := reader_of c = None \/ reader_of c = Some Returned.
(** With the loop of one context: every client is at rest but the one whose
    [Run] the loop is in, which was not stopped. *)
Definition orderly (w : world) : Prop :=
  exists x l, ctxs w = [(x, l)] /\
    forall k c, clients w !! k = Some c ->
      in_ctx c = 0%nat /\ fifo c /\
      (at_rest c \/ l = Running k /\ stopped c = false /\ reader_of c <> Some Panicked).

Lemma client_step_orderly x c c' : client_step x c c' -> in_ctx c' = in_ctx c /\
  (at_rest c -> at_rest c' /\ stopped c' = stopped c) /\
  (stopped c = false -> reader_of c <> Some Panicked ->
   stopped c' = false /\ reader_of c' <> Some Panicked).
Proof.
  unfold at_rest. destruct 1; cbn; split_and!; try done; intros; try (by destruct_or!; congruence).
  all: split; congruence.
Qed.

Lemma alter_lookup {A} (f : A -> A) k i (l : list A) a : alter f k l !! i = Some a ->
  exists b, l !! i = Some b /\ a = if decide (k = i) then f b else b.
Proof.
  destruct (decide (k = i)) as [->|Hne].
  - rewrite list_lookup_alter_eq. by intros (b & Hb & ->)%fmap_Some; exists b.
  - rewrite list_lookup_alter_ne by done. eauto.
Qed.

Lemma auto_step_orderly w w' : auto_step w w' -> orderly w -> orderly w'.
Proof.
  intros Hs (x & l & Hx & Hc).
  destruct Hs as [w g y b Hg|w g y k c Hg Hk Hr|w k c y m c' Hk Hg Hcs|w]; rewrite ?Hx in *.
  - destruct g as [|g]; [|done]. injection Hg as -> ->. unfold startInternal, orderly. cbn.
    rewrite Hx. do 2 eexists. split; [reflexivity|]. intros k c Hk.
    apply lookup_app_Some in Hk as [Hk|[Hlen Hk]].
    + assert (exists c0, clients w !! k = Some c0 /\ (c = c0 \/ c = Stop c0)) as (c0 & Hk0 & Hc0).
      { unfold stop_current in Hk. destruct (current w) as [j|]; [|eauto].
        apply alter_lookup in Hk as (c0 & Hk0 & ->). exists c0. case_decide; eauto. }
      destruct (Hc k c0 Hk0) as (Hi & Hf & Hor). assert (at_rest c0) as Hrest by (by destruct Hor as [|(? & _)]).
      split_and!; [by destruct Hc0 as [-> | ->]|by destruct Hc0 as [-> | ->]|left; by destruct Hc0 as [-> | ->]].
    + apply list_lookup_singleton_Some in Hk as [Hk0 <-].
      assert (k = length (clients w)) as ->.
      { unfold stop_current in *. destruct (current w); rewrite ?length_alter in *; lia. }
      split_and!; [done|apply fifo_new|]. destruct b; [right|by left; left]. by split_and!.
  - destruct g as [|g]; [|done]. injection Hg as -> ->. do 2 eexists. split; [reflexivity|].
    intros j c0 Hj. cbn in Hj. destruct (Hc j c0 Hj) as (Hi & Hf & Hor). split_and!; [done..|].
    destruct Hor as [|([= ->] & _)]; [by left|]. rewrite Hk in Hj. injection Hj as <-. by left; right.
  - do 2 eexists. split; [reflexivity|]. intros j c0 Hj. cbn in Hj.
    destruct (client_step_orderly _ _ _ Hcs) as (Hi' & Hrest & Hrun).
    destruct (decide (k = j)) as [<-|Hne].
    + rewrite list_lookup_insert_eq in Hj by (by eapply lookup_lt_Some). injection Hj as <-.
      destruct (Hc k c Hk) as (Hi & Hf & Hor). split_and!; [by rewrite Hi'|by eapply fifo_client_step|].
      destruct Hor as [Hr|(-> & Hst & Hnp)]; [by left; apply Hrest|right].
      split; [done|]. by apply Hrun.
    + rewrite list_lookup_insert_ne in Hj by done. by apply Hc.
  - do 2 eexists. split; [reflexivity|]. exact Hc.
Qed.

(** C37: as long as nobody calls [Stop] or [UpdateCollections], a reader never
    sends on a closed channel, through any number of reconnections and
    cancellation; and every client gives the processor the events it parsed, in
    their order, without a gap and through a channel of bounded length: what is
    taken, queued and in the reader's hand is all that it parsed. *)
Theorem reconnections_safe w k c : rtc auto_step started w -> clients w !! k = Some c ->
  reader_of c <> Some Panicked /\
  Z.of_nat (length (queue c)) <= EventChannelBufferSize /\
  (taken c ++ queue c) `prefix_of` parsed c /\
  (alive c = true -> parsed c = taken c ++ queue c ++ in_hand c).
Proof.
  intros Hr Hk. assert (orderly w) as (x & l & _ & Hc).
  { assert (orderly started) as H0 by (by exists false, Waiting).
    revert H0. clear Hk. induction Hr as [|w1 w2 w3 Hs _ IH]; [done|]. intros H0.
    by apply IH, (auto_step_orderly w1). }
  destruct (Hc k c Hk) as (_ & Hf & Hor). split; [|done].
  destruct Hor as [[H1|H1]|(_ & _ & ?)]; [by rewrite H1..|done].
Qed.

(** *** A crash on a change of collections *)

Definition sample : Event := {| e_DID := "did:plc:a"; TimeUS := 5; Kind := "identity"; Commit := None |}.

(** One client step of client 0 in the consumer's first context. *)
Lemma client_0 w c c' x l : clients w = [c] -> ctxs w = [(x, l)] -> in_ctx c = 0%nat ->
  client_step x c c' ->
  auto_step w {| clients := [c']; current := current w; ctxs := ctxs w |}.
Proof.
  intros Hc Hx Hi Hs. assert ([c'] = <[0%nat := c']> (clients w)) as -> by (by rewrite Hc).
  apply (as_client w 0 c x l); [by rewrite Hc|by rewrite Hi, Hx|done].
Qed.

Definition reading (r : reader) (ps q : list Event) : world :=
  {| clients := [{| queue := q; stopped := false; reader_of := Some r; in_ctx := 0; parsed := ps;
                    taken := [] |}];
     current := Some 0%nat; ctxs := [(false, Running 0)] |}.

Lemma reaches_send : rtc auto_step started (reading (AtSend sample) [sample] []).
Proof.
  eapply rtc_l; [apply (as_connect started 0 false true); reflexivity|].
  eapply rtc_l; [eapply client_0; [reflexivity..|by apply cs_read]|].
  eapply rtc_l; [eapply client_0; [reflexivity..|by apply (cs_message _ _ sample)]|]. reflexivity.
Qed.

(** [UpdateCollections] stops the client, which closes its channel, while the
    reader holds an event that it then sends: the process panics. *)
Example update_crashes : exists w c,
  rtc step started w /\ clients w !! 0%nat = Some c /\ reader_of c = Some Panicked.
Proof.
  do 2 eexists. split; [|split; [|shelve]].
  - etransitivity; [eapply rtc_subrel; [|apply reaches_send]; by left|].
    eapply rtc_l; [right; apply cs_update_stop|].
    eapply rtc_l; [left; eapply client_0; [reflexivity..|by apply (cs_send_closed _ _ sample)]|].
    reflexivity.
  - reflexivity.
  Unshelve. reflexivity.
Qed.

Lemma reconnections_safe_witness :
  let c := {| queue := [sample]; stopped := false; reader_of := Some AtTop; in_ctx := 0;
              parsed := [sample]; taken := [] |} in
  reader_of c <> Some Panicked /\ parsed c = taken c ++ queue c ++ in_hand c.
Proof.
  intros c. destruct (reconnections_safe (reading AtTop [sample] [sample]) 0 c) as (H1 & _ & _ & H2).
  - etransitivity; [apply reaches_send|]. eapply rtc_l; [|reflexivity].
    eapply client_0; [reflexivity..|].
    by apply (cs_send false {| queue := []; stopped := false; reader_of := Some (AtSend sample);
                               in_ctx := 0; parsed := [sample]; taken := [] |} sample).
  - reflexivity.
  - split; [exact H1|]. by apply H2.
Defined.
End Clients.

(** ** Concrete events *)

Module Example_jetstream.
#[local] Existing Instance Validator.Example_post.toy_lib.

Definition post (time : Z) (operation : string) : Event :=
  {| e_DID := "did:plc:a"; TimeUS := time; Kind := "commit";
     Commit := Some {| Rev := "1"; c_Operation := operation; c_Collection := "app.post";
                       c_RKey := "1"; c_Record := "{}"; c_CID := "c" |} |}.
Definition processor : RecordProcessor := Ingestion.Example_ingest.processor "warn".
Definition env : environment := Ingestion.Example_ingest.env.

(** A deletion that the database refuses is not retried: the next event moves
    the cursor past it. *)
Example failed_event_passed :
  (processEvents processor [(env, post 10 "create"); (env, post 11 "delete"); (env, post 12 "update")]
     (no_stats, 0)).2
  = ({| EventsReceived := 3; RecordsCreated := 1; RecordsUpdated := 1; RecordsDeleted := 0;
        Errors := 1 |}, 12).
Proof. by vm_compute. Qed.

Lemma events_accounted_witness :
  Errors (processEvents processor [(env, post 10 "create"); (env, post 11 "delete")] (no_stats, 0)).2.1
  = 0 + how_many (failed processor) [(env, post 10 "create"); (env, post 11 "delete")].
Proof.
  refine (proj1 (proj2 (proj2 (proj2 (proj2 (proj2 (events_accounted processor
    [(env, post 10 "create"); (env, post 11 "delete")] (no_stats, 0) _))))))).
  unfold room. cbn. lia.
Defined.
End Example_jetstream.
