(* ===== verification/Purge.v ===== *)
(** The two-step destructive operations of [internal/graphql/admin/purge.go]:
    the signed single-use confirmation tokens, the purge of one actor and the
    reset of the index, over the tables they delete from. Times are Unix
    nanoseconds; logging and metrics are left out. *)
From S2P Require Import Prelude GoStrings Base64 AtProto Reconnect.

Local Open Scope Z_scope.

(** ** Tokens *)

Definition purgeTokenTTL : Z := 5 * 60 * second.
Definition ScopeActorPurge : string := "actor_purge".
Definition ScopeResetAll : string := "reset_all".
Definition maxUsedSigs : Z := 4096.
Definition purgeTokenVersion : Z := 2.

Record purgeTokenClaims := {
  V : Z; Scope : string; AdminDID : string; TargetDID : string; RecordCount : Z; Exp : Z
}.

(** Strings that JSON writes as they are. *)
Definition json_plain (s : string) : bool :=
  all_bytes (fun z => (32 <=? z) && (z <=? 126) && negb ((z =? 34) || (z =? 92) || (z =? 60) ||
                                                         (z =? 62) || (z =? 38))) s.
Definition plain_claims (c : purgeTokenClaims) : Prop :=
  json_plain (Scope c) = true /\ json_plain (AdminDID c) = true /\ json_plain (TargetDID c) = true /\
  in_int64 (V c) /\ in_int64 (RecordCount c) /\ in_int64 (Exp c).

(** HMAC-SHA-256, and encoding/json on the claims. *)
Class PurgeLib := {
  hmac_sha256 : string -> string -> string;
  marshal_claims : purgeTokenClaims -> string;
  unmarshal_claims : string -> option purgeTokenClaims;
  claims_inverse c : plain_claims c -> unmarshal_claims (marshal_claims c) = Some c
}.

(** The signer: its key and the texts of the signatures that were redeemed, with
    the Unix time at which they expire. *)
Record PurgeTokenSigner := { secret : string; usedSigs : gmap string Z }.
Definition unix (now : Z) : Z := now / second.

Definition NewPurgeTokenSigner (key : string) : option PurgeTokenSigner :=
  if is_empty key then None else Some {| secret := key; usedSigs := ∅ |}.
Definition with_used (s : PurgeTokenSigner) (m : gmap string Z) : PurgeTokenSigner :=
  {| secret := secret s; usedSigs := m |}.

(** Entries whose time has come are dropped. *)
Definition prune (now : Z) (m : gmap string Z) : gmap string Z :=
  filter (fun p => negb (p.2 <=? unix now) = true) m.

(** [sweepExpired]; [order] is the order of iteration over the remaining keys,
    of which the first ones are dropped while there are too many. *)
Definition sweepExpired (now : Z) (order : list string) (s : PurgeTokenSigner) : PurgeTokenSigner :=
  let m := prune now (usedSigs s) in
  let excess := Z.of_nat (size m) - maxUsedSigs in
  with_used s (foldr delete m (take (Z.to_nat excess) order)).

Inductive purge_token_error :=
| ErrPurgeTokenInvalid | ErrPurgeTokenExpired | ErrPurgeTokenAlreadyUsed | ErrPurgeTokenCountDrift.

Section Tokens.
Context `{PurgeLib}.

Definition hmac (s : PurgeTokenSigner) (payload : string) : string := hmac_sha256 (secret s) payload.

Definition Sign (now : Z) (s : PurgeTokenSigner) (scope adminDID targetDID : string) (recordCount : Z)
  : string * Z :=
  let exp := now + purgeTokenTTL in
  let payload := marshal_claims
    {| V := purgeTokenVersion; Scope := scope; AdminDID := adminDID; TargetDID := targetDID;
       RecordCount := recordCount; Exp := unix exp |} in
  (EncodeToString payload +:+ "." +:+ EncodeToString (hmac s payload), exp).

Definition invalid : string * purge_token_error := ("invalid", ErrPurgeTokenInvalid).

(** The checks of [VerifyReason] that need no lock: the claims, and the text of
    the signature. *)
Definition check_token (now : Z) (s : PurgeTokenSigner) (token scope adminDID targetDID : string)
    (recordCount : Z) : result (string * purge_token_error) (purgeTokenClaims * string) :=
  match cut_at "." token with
  | None => Err invalid
  | Some (part0, part1) =>
      match DecodeString part0, DecodeString part1 with
      | Some payload, Some sig =>
          _ ← guard_err (String.eqb (hmac s payload) sig) invalid;
          match unmarshal_claims payload with
          | None => Err invalid
          | Some claims =>
              _ ← guard_err (V claims =? purgeTokenVersion) invalid;
              _ ← guard_err (String.eqb (Scope claims) scope) ("scope_mismatch", ErrPurgeTokenInvalid);
              _ ← guard_err (String.eqb (AdminDID claims) adminDID) ("wrong_admin", ErrPurgeTokenInvalid);
              _ ← guard_err (String.eqb (TargetDID claims) targetDID) ("wrong_target", ErrPurgeTokenInvalid);
              _ ← guard_err (RecordCount claims =? recordCount) ("count_drift", ErrPurgeTokenCountDrift);
              _ ← guard_err (unix now <? Exp claims) ("expired", ErrPurgeTokenExpired);
              Ok (claims, part1)
          end
      | _, _ => Err invalid
      end
  end.

Definition VerifyReason (now : Z) (s : PurgeTokenSigner) (token scope adminDID targetDID : string)
    (recordCount : Z) : result (string * purge_token_error) unit * PurgeTokenSigner :=
  match check_token now s token scope adminDID targetDID recordCount with
  | Err e => (Err e, s)
  | Ok (claims, sigKey) =>
      let m := prune now (usedSigs s) in
      match m !! sigKey with
      | Some _ => (Err ("already_used", ErrPurgeTokenAlreadyUsed), with_used s m)
      | None => (Ok (), with_used s (<[sigKey := Exp claims]> m))
      end
  end.

(** *** Tokens of the server itself *)

Lemma Sign_parts now s scope admin target n : let p := marshal_claims
    {| V := purgeTokenVersion; Scope := scope; AdminDID := admin; TargetDID := target;
       RecordCount := n; Exp := unix (now + purgeTokenTTL) |} in
  cut_at "." (Sign now s scope admin target n).1 = Some (EncodeToString p, EncodeToString (hmac s p)).
Proof. cbn. apply cut_at_first. apply encode_lacks_dot. Qed.

(** The verdict on a token that the server signed, from the two requests. *)
Definition verdict (exp now : Z) (used : bool) (scope admin target : string) (n : Z)
    (scope' admin' target' : string) (n' : Z) : result (string * purge_token_error) unit :=
  if negb (String.eqb scope scope') then Err ("scope_mismatch", ErrPurgeTokenInvalid)
  else if negb (String.eqb admin admin') then Err ("wrong_admin", ErrPurgeTokenInvalid)
  else if negb (String.eqb target target') then Err ("wrong_target", ErrPurgeTokenInvalid)
  else if negb (n =? n') then Err ("count_drift", ErrPurgeTokenCountDrift)
  else if negb (unix now <? exp) then Err ("expired", ErrPurgeTokenExpired)
  else if used then Err ("already_used", ErrPurgeTokenAlreadyUsed)
  else Ok ().

Definition redeemed (now : Z) (s : PurgeTokenSigner) (token : string) : bool :=
  match cut_at "." token with
  | Some (_, sig) => match prune now (usedSigs s) !! sig with Some _ => true | None => false end
  | None => false
  end.

Lemma verify_signed t s scope admin target n now s' scope' admin' target' n' :
  secret s' = secret s ->
  plain_claims {| V := purgeTokenVersion; Scope := scope; AdminDID := admin; TargetDID := target;
                  RecordCount := n; Exp := unix (t + purgeTokenTTL) |} ->
  let token := (Sign t s scope admin target n).1 in
  (VerifyReason now s' token scope' admin' target' n').1
  = verdict (unix (t + purgeTokenTTL)) now (redeemed now s' token) scope admin target n
      scope' admin' target' n'.
Proof.
  intros Hk Hp token. unfold VerifyReason, check_token, redeemed. subst token.
  rewrite Sign_parts, !decode_encode. set (p := marshal_claims _).
  assert (hmac s' p = hmac s p) as -> by (unfold hmac; by rewrite Hk).
  rewrite String.eqb_refl. unfold p at 1. rewrite claims_inverse by done.
  cbn [V Scope AdminDID TargetDID RecordCount Exp guard_err mbind result_bind]. unfold verdict.
  destruct (String.eqb scope scope'); cbn; [|done]. destruct (String.eqb admin admin'); cbn; [|done].
  destruct (String.eqb target target'); cbn; [|done]. destruct (n =? n'); cbn; [|done].
  destruct (unix now <? unix (t + purgeTokenTTL)); cbn; [|done].
  by destruct (prune now (usedSigs s') !! EncodeToString (hmac s p)).
Qed.

(** *** Single use *)

Inductive signer_op :=
| OVerify (now : Z) (token scope adminDID targetDID : string) (recordCount : Z)
| OSweep (now : Z) (order : list string).
Definition at_time (o : signer_op) : Z :=
  match o with OVerify now _ _ _ _ _ | OSweep now _ => now end.
Definition perform (s : PurgeTokenSigner) (o : signer_op) : PurgeTokenSigner :=
  match o with
  | OVerify now token scope admin target n => (VerifyReason now s token scope admin target n).2
  | OSweep now order => sweepExpired now order s
  end.

(** No sweep finds more live entries than the signer keeps. *)
Fixpoint roomy (s : PurgeTokenSigner) (ops : list signer_op) : Prop :=
  match ops with
  | [] => True
  | o :: ops =>
      match o with
      | OSweep now _ => Z.of_nat (size (prune now (usedSigs s))) <= maxUsedSigs
      | OVerify _ _ _ _ _ _ => True
      end /\ roomy (perform s o) ops
  end.

(** The entry is there, or its time has come. *)
Definition spent (T : Z) (sig : string) (exp : Z) (s : PurgeTokenSigner) : Prop :=
  usedSigs s !! sig = Some exp \/ exp <= unix T.

Lemma unix_mono a b : a <= b -> unix a <= unix b.
Proof. intros. unfold unix. apply Z.div_le_mono; [unfold second|]; lia. Qed.

Lemma prune_spent T sig exp now m : now <= T -> m !! sig = Some exp ->
  prune now m !! sig = Some exp \/ exp <= unix T.
Proof.
  intros Ht Hm. destruct (decide (exp <= unix now)) as [He|He].
  - right. pose proof (unix_mono _ _ Ht). lia.
  - left. apply map_lookup_filter_Some. split; [done|]. cbn. by rewrite negb_true_iff, Z.leb_gt; lia.
Qed.

Lemma perform_spent T sig exp o s : at_time o <= T -> roomy s [o] -> spent T sig exp s ->
  spent T sig exp (perform s o) /\ secret (perform s o) = secret s.
Proof.
  intros Ht [Hr _] Hs. destruct o as [now token scope admin target n|now order]; cbn in *.
  - unfold VerifyReason. destruct (check_token _ _ _ _ _ _ _) as [[c k]|e]; [|done].
    destruct (prune now (usedSigs s) !! k) eqn:Hk; cbn; split; try done;
      (destruct Hs as [Hs|Hs]; [|by right]); destruct (prune_spent T sig exp now _ Ht Hs) as [Hp|Hp];
      try (by right); left; cbn; [done|].
    rewrite lookup_insert_ne; [done|]. intros ->. by rewrite Hk in Hp.
  - split; [|done]. destruct Hs as [Hs|Hs]; [|by right].
    destruct (prune_spent T sig exp now _ Ht Hs) as [Hp|Hp]; [|by right]. left. cbn.
    replace (Z.to_nat _) with 0%nat by lia. by destruct order.
Qed.

Lemma performs_spent T sig exp ops : forall s, Forall (fun o => at_time o <= T) ops -> roomy s ops ->
  spent T sig exp s ->
  spent T sig exp (fold_left perform ops s) /\ secret (fold_left perform ops s) = secret s.
Proof.
  induction ops as [|o ops IH]; intros s Ht Hr Hs; [done|]. cbn [fold_left].
  apply Forall_cons in Ht as [Ho Ht]. destruct Hr as [Hr1 Hr2].
  destruct (perform_spent T sig exp o s Ho (conj Hr1 I) Hs) as [H1 H2].
  destruct (IH _ Ht Hr2 H1) as [H3 H4]. split; [done|]. by rewrite H4.
Qed.

(** A token whose verification succeeded does so never again, for any
    request, whatever other tokens are verified and however often expired entries
    are swept in between, as long as the table of redeemed signatures is not over
    its limit. *)
Theorem token_single_use now s token scope admin target n s1 ops now2 scope2 admin2 target2 n2 :
  VerifyReason now s token scope admin target n = (Ok (), s1) ->
  Forall (fun o => at_time o <= now2) ops -> roomy s1 ops ->
  is_ok (VerifyReason now2 (fold_left perform ops s1) token scope2 admin2 target2 n2).1 = false.
Proof.
  intros Hv Ht Hr. unfold VerifyReason in Hv.
  destruct (check_token now s token scope admin target n) as [[c k]|e] eqn:Hc; [|done].
  destruct (prune now (usedSigs s) !! k); [done|]. injection Hv as <-.
  destruct (performs_spent now2 k (Exp c) ops _ Ht Hr) as [Hs Hk]; [left; apply lookup_insert_eq|].
  set (s2 := fold_left _ _ _) in *. cbn in Hk. unfold VerifyReason.
  destruct (check_token now2 s2 token scope2 admin2 target2 n2) as [[c2 k2]|e] eqn:Hc2; [|done].
  assert (c2 = c /\ k2 = k /\ unix now2 < Exp c2) as (-> & -> & Hexp).
  { unfold check_token in Hc, Hc2. unfold hmac in *. rewrite Hk in Hc2.
    destruct (cut_at "." token) as [[p0 p1]|]; [|done].
    destruct (DecodeString p0) as [p|]; [|done]. destruct (DecodeString p1) as [sg|]; [|done].
    destruct (String.eqb _ sg); [|done]. cbn in Hc, Hc2.
    destruct (unmarshal_claims p) as [c0|]; [|done].
    repeat (autorewrite with results in Hc, Hc2; destruct Hc as (? & ? & Hc), Hc2 as (? & ? & Hc2)).
    rewrite guard_err_Ok in *. simplify_eq. split_and!; [done..|]. lia. }
  destruct Hs as [Hs|Hs]; [|lia].
  destruct (prune now2 (usedSigs s2) !! k) eqn:Hp; [done|].
  destruct (prune_spent now2 k (Exp c) now2 _ ltac:(lia) Hs) as [Hp'|Hp']; [by rewrite Hp in Hp'|lia].
Qed.
End Tokens.

(** ** The purge of one actor *)

(** The rows a purge is about: record URIs with their author, and actors. *)
Record db := { records : gmap string string; actors : gmap string string }.

Definition CountByDID (did : string) (d : db) : Z :=
  Z.of_nat (size (filter (fun p => p.2 = did) (records d))).
Definition records_DeleteByDIDTx (did : string) (d : db) : Z * db :=
  (CountByDID did d,
   {| records := filter (fun p => p.2 <> did) (records d); actors := actors d |}).
Definition actors_DeleteByDIDTx (did : string) (d : db) : Z * db :=
  (if decide (is_Some (actors d !! did)) then 1 else 0,
   {| records := records d; actors := delete did (actors d) |}).

(** Who asks ([requireAdmin] and the DID of the context). *)
Record caller := { isAdmin : bool; userDID : string }.

(** What the clock, the database and the sidecar do during a request; other
    writers change the tables between the count and the transaction. *)
Record purge_env := {
  clock : Z; count_works : bool; meanwhile : db -> db; begin_works : bool;
  delete_records_works : bool; delete_actor_works : bool; commit : commit_end;
  tapRemover : option bool
}.

Inductive admin_error :=
| ENotAdmin | ENotConfigured | ENoToken | EInvalidDID | ENoAdminDID | EGetActor | ECount
| EToken (reason : string) (e : purge_token_error) | EBegin | EDelete | ECommit.

Record Purged := { did_ : string; recordsDeleted : Z; actorRowsDeleted : Z; tapStatus : string }.
Record Preview := {
  p_did : string; p_recordCount : Z; confirmToken : string; tokenExpiresAt : Z; actorExists : bool
}.

Section Actor.
Context `{PurgeLib}.

(** [get_works] is false for any error but a missing row. *)
Definition PreviewPurgeActor (who : caller) (signer : option PurgeTokenSigner) (now : Z)
    (get_works count_works : bool) (d : db) (did : string) : result admin_error Preview :=
  _ ← guard_err (isAdmin who) ENotAdmin;
  match signer with
  | None => Err ENotConfigured
  | Some s =>
      _ ← guard_err (Did.IsValid did) EInvalidDID;
      _ ← guard_err (negb (is_empty (userDID who))) ENoAdminDID;
      _ ← guard_err get_works EGetActor;
      _ ← guard_err count_works ECount;
      let '(token, exp) := Sign now s ScopeActorPurge (userDID who) did (CountByDID did d) in
      Ok {| p_did := did; p_recordCount := CountByDID did d; confirmToken := token;
            tokenExpiresAt := exp; actorExists := bool_decide (is_Some (actors d !! did)) |}
  end.

(** The transaction: the answer and the tables after it. *)
Definition purge_tx (env : purge_env) (did : string) (d : db)
  : result admin_error (Z * Z) * db :=
  if negb (begin_works env) then (Err EBegin, d)
  else if negb (delete_records_works env) then (Err EDelete, d)
  else
    let '(deletedRecords, d1) := records_DeleteByDIDTx did d in
    if negb (delete_actor_works env) then (Err EDelete, d)
    else
      let '(deletedActor, d2) := actors_DeleteByDIDTx did d1 in
      match commit env with
      | Committed => (Ok (deletedRecords, deletedActor), d2)
      | RolledBack => (Err ECommit, d)
      | CommitLost => (Err ECommit, d2)
      end.

(** The answer, the signer, the tables, and the DIDs whose removal was asked of
    the sidecar. *)
Definition PurgeActor (who : caller) (signer : option PurgeTokenSigner) (env : purge_env) (d : db)
    (did token : string)
  : result admin_error Purged * option PurgeTokenSigner * db * list string :=
  let fail e := (Err e, signer, d, []) in
  if negb (isAdmin who) then fail ENotAdmin
  else match signer with
  | None => fail ENotConfigured
  | Some s =>
      if is_empty token then fail ENoToken
      else if negb (Did.IsValid did) then fail EInvalidDID
      else if is_empty (userDID who) then fail ENoAdminDID
      else if negb (count_works env) then fail ECount
      else
        let '(v, s') := VerifyReason (clock env) s token ScopeActorPurge (userDID who) did
                          (CountByDID did d) in
        match v with
        | Err (reason, e) => (Err (EToken reason e), Some s', d, [])
        | Ok _ =>
            let '(r, d') := purge_tx env did (meanwhile env d) in
            match r with
            | Err e => (Err e, Some s', d', [])
            | Ok (nr, na) =>
                let status := match tapRemover env with
                              | None => "skipped"
                              | Some ok => if ok then "removed" else "failed"
                              end in
                (Ok {| did_ := did; recordsDeleted := nr; actorRowsDeleted := na; tapStatus := status |},
                 Some s', d', match tapRemover env with None => [] | Some _ => [did] end)
            end
        end
  end.

(** The tables without anything of an actor. *)
Definition without (did : string) (d : db) : db :=
  {| records := filter (fun p => p.2 <> did) (records d); actors := delete did (actors d) |}.

Lemma purge_tx_spec env did d :
  match purge_tx env did d with
  | (Ok (nr, na), d') => d' = without did d /\ nr = CountByDID did d /\
                         na = (if decide (is_Some (actors d !! did)) then 1 else 0)
  | (Err e, d') => d' = d \/ commit env = CommitLost /\ e = ECommit /\ d' = without did d
  end.
Proof.
  unfold purge_tx. destruct (begin_works env), (delete_records_works env); cbn; try by left.
  destruct (delete_actor_works env); cbn; [|by left]. destruct (commit env); cbn; [done|by left|by right].
Qed.

(** Whatever the token, a purge that succeeds was asked for by an
    administrator with a valid token for this actor and the number of records
    counted, deletes all records and the row of this actor and nothing else,
    reports their true number, and only then tells the sidecar. A purge that
    fails leaves the tables as other writers left them, except when the answer
    of a commit is lost, and does not tell the sidecar; a token that was
    verified stays used up. *)
Theorem purge_sound who signer env d did token :
  let '(r, signer', d', removed) := PurgeActor who signer env d did token in
  match r with
  | Ok out => exists s s', signer = Some s /\ signer' = Some s' /\ isAdmin who = true /\
      userDID who <> "" /\ Did.IsValid did = true /\
      VerifyReason (clock env) s token ScopeActorPurge (userDID who) did (CountByDID did d) = (Ok (), s') /\
      d' = without did (meanwhile env d) /\ did_ out = did /\
      recordsDeleted out = CountByDID did (meanwhile env d) /\
      removed = (if tapRemover env then [did] else [])
  | Err e => removed = [] /\
      (d' = d \/ d' = meanwhile env d \/ commit env = CommitLost /\ e = ECommit /\
                 d' = without did (meanwhile env d)) /\
      (d' <> d -> exists s s', signer = Some s /\ signer' = Some s' /\
        VerifyReason (clock env) s token ScopeActorPurge (userDID who) did (CountByDID did d) = (Ok (), s'))
  end.
Proof.
  destruct (PurgeActor who signer env d did token) as [[[r signer'] d'] removed] eqn:Hr. revert Hr.
  unfold PurgeActor. destruct (isAdmin who); cbn; [|intros [= <- <- <- <-]; naive_solver].
  destruct signer as [s|]; [|intros [= <- <- <- <-]; naive_solver].
  destruct (is_empty token); [intros [= <- <- <- <-]; naive_solver|].
  destruct (Did.IsValid did); cbn; [|intros [= <- <- <- <-]; naive_solver].
  destruct (is_empty (userDID who)) eqn:Hu; [intros [= <- <- <- <-]; naive_solver|].
  destruct (count_works env); cbn; [|intros [= <- <- <- <-]; naive_solver].
  destruct (VerifyReason _ _ _ _ _ _ _) as [[[]|[reason e]] s'] eqn:Hv;
    [|intros [= <- <- <- <-]; naive_solver].
  pose proof (purge_tx_spec env did (meanwhile env d)) as Htx.
  destruct (purge_tx env did (meanwhile env d)) as [[[nr na]|e] d2].
  - intros [= <- <- <- <-]. destruct Htx as (-> & -> & ->). exists s, s'. cbn.
    split_and!; try done; by intros Hz; rewrite Hz in Hu.
  - intros [= <- <- <- <-]. split; [done|]. split; [|by exists s, s'].
    destruct Htx as [->|(? & ? & ?)]; [by right; left|by right; right].
Qed.

Lemma did_plain s : Did.IsValid s = true -> json_plain s = true.
Proof.
  intros Hs%Did.valid_did_bytes. eapply all_bytes_impl; [|exact Hs].
  intros b. cbn. unfold Did.is_quoting_byte. lia.
Qed.

(** The token of a preview is accepted by a purge exactly when the same
    administrator purges the same actor, the actor has as many records as were
    previewed, the five minutes are not over and the token was not redeemed. *)
Theorem preview_then_purge who s now d did pre who' s' env d' did' :
  PreviewPurgeActor who (Some s) now true true d did = Ok pre ->
  Did.IsValid (userDID who) = true -> 0 <= now < 2 ^ 62 -> CountByDID did d < 2 ^ 63 ->
  secret s' = secret s -> isAdmin who' = true -> userDID who' <> "" -> Did.IsValid did' = true ->
  count_works env = true ->
  p_recordCount pre = CountByDID did d /\
  (is_ok (VerifyReason (clock env) s' (confirmToken pre) ScopeActorPurge (userDID who') did'
            (CountByDID did' d')).1 = true <->
   userDID who' = userDID who /\ did' = did /\ CountByDID did' d' = p_recordCount pre /\
   unix (clock env) < unix (now + purgeTokenTTL) /\
   redeemed (clock env) s' (confirmToken pre) = false) /\
  (is_ok (PurgeActor who' (Some s') env d' did' (confirmToken pre)).1.1.1 = true <->
   is_ok (VerifyReason (clock env) s' (confirmToken pre) ScopeActorPurge (userDID who') did'
            (CountByDID did' d')).1 = true /\
   is_ok (purge_tx env did' (meanwhile env d')).1 = true).
Proof.
  intros Hp Hadm Hnow Hcnt Hk Hw Hu Hd Hcw. unfold PreviewPurgeActor in Hp.
  apply bind_Ok in Hp as (? & _ & Hp). apply bind_Ok in Hp as (? & Hdid & Hp).
  apply guard_err_Ok in Hdid. do 3 (apply bind_Ok in Hp as (? & _ & Hp)).
  assert (exists tok, tok = (Sign now s ScopeActorPurge (userDID who) did (CountByDID did d)).1 /\
            confirmToken pre = tok /\ p_recordCount pre = CountByDID did d) as (tok & Htok & Hc & Hn).
  { destruct (Sign _ _ _ _ _ _) as [tok exp] eqn:Hs. injection Hp as <-. by exists tok. }
  rewrite Hc, Hn. split; [done|]. split.
  - rewrite Htok, (verify_signed now s _ _ _ _ (clock env) s'); [|done|].
    + rewrite <-Htok. unfold verdict. rewrite String.eqb_refl. cbn [negb].
      destruct (String.eqb_spec (userDID who) (userDID who')); cbn; [|naive_solver].
      destruct (String.eqb_spec did did'); cbn; [|naive_solver].
      destruct (Z.eqb_spec (CountByDID did d) (CountByDID did' d')); cbn; [|naive_solver].
      destruct (unix (clock env) <? unix (now + purgeTokenTTL)) eqn:He; cbn; [|split; [done|lia]].
      destruct (redeemed _ _ _); cbn; [naive_solver|]. split; [|done]. intros _. split_and!; done || lia.
    + unfold plain_claims. cbn. split_and!; [done|by apply did_plain..|done| |].
      * unfold in_int64, int64_min, int64_max, CountByDID in *. lia.
      * unfold in_int64, int64_min, int64_max, unix, purgeTokenTTL, second.
        Z.div_mod_to_equations. lia.
  - unfold PurgeActor. rewrite Hw, Hd, Hcw. cbn.
    assert (is_empty tok = false) as ->.
    { rewrite Htok. cbn. by destruct (EncodeToString _). }
    assert (is_empty (userDID who') = false) as -> by (by destruct (userDID who')).
    destruct (VerifyReason _ _ _ _ _ _ _) as [[[]|[reason e]] s2]; cbn; [|naive_solver].
    destruct (purge_tx _ _ _) as [[[nr na]|e] d2]; cbn; naive_solver.
Qed.
End Actor.

(** ** The reset of the index *)

Definition resetAllTables : list string :=
  ["notification_participant"; "notification"; "actor_state";
   "actor_label_preference"; "label"; "report";
   "oauth_authorization_code"; "oauth_atp_request"; "oauth_atp_session"; "oauth_auth_request";
   "oauth_dpop_jti"; "oauth_dpop_nonce"; "oauth_par_request"; "oauth_refresh_token";
   "oauth_access_token"; "admin_session"; "jetstream_activity"; "record"; "actor"].

(** The tables by their number of rows, and the foreign keys of the migrations
    that delete the child's rows with the parent's. *)
Abbreviation tables := (gmap string nat).
Definition cascades : list (string * string) :=
  [("notification_participant", "notification"); ("oauth_access_token", "oauth_client");
   ("oauth_refresh_token", "oauth_client"); ("oauth_par_request", "oauth_client");
   ("oauth_auth_request", "oauth_client")].

Definition children_of (name : string) : list string :=
  omap (fun fk => if String.eqb fk.2 name then Some fk.1 else None) cascades.

(** DELETE FROM a table: the rows it reports, without those of the children. *)
Definition delete_from (name : string) (t : tables) : option (Z * tables) :=
  match t !! name with
  | None => None
  | Some n =>
      Some (Z.of_nat n, foldr (fun child t => alter (fun _ => 0%nat) child t) (<[name := 0%nat]> t)
                          (children_of name))
  end.

Record reset_env := {
  r_clock : Z; r_count_works : string -> bool; r_meanwhile : tables -> tables; r_begin_works : bool;
  r_delete_works : string -> bool; r_rows_known : string -> bool; r_commit : commit_end
}.

(** [resetAllCounts]. *)
Fixpoint count_tables (works : string -> bool) (names : list string) (t : tables)
  : option (list (string * Z) * Z) :=
  match names with
  | [] => Some ([], 0)
  | name :: names =>
      match t !! name with
      | Some n => if works name then
                    '(l, total) ← count_tables works names t;
                    Some ((name, Z.of_nat n) :: l, Z.of_nat n + total)
                  else None
      | None => None
      end
  end.
Definition resetAllCounts (works : string -> bool) (t : tables) : option (list (string * Z) * Z) :=
  count_tables works resetAllTables t.

(** The deletions of the transaction. *)
Fixpoint delete_tables (env : reset_env) (names : list string) (t : tables) : option (Z * tables) :=
  match names with
  | [] => Some (0, t)
  | name :: names =>
      if r_delete_works env name then
        '(n, t1) ← delete_from name t;
        '(total, t2) ← delete_tables env names t1;
        Some ((if r_rows_known env name then n else 0) + total, t2)
      else None
  end.

Section Reset.
Context `{PurgeLib}.

Definition PreviewResetAll (who : caller) (signer : option PurgeTokenSigner) (now : Z)
    (works : string -> bool) (t : tables) : result admin_error (Z * string * Z) :=
  _ ← guard_err (isAdmin who) ENotAdmin;
  match signer with
  | None => Err ENotConfigured
  | Some s =>
      _ ← guard_err (negb (is_empty (userDID who))) ENoAdminDID;
      match resetAllCounts works t with
      | None => Err ECount
      | Some (_, total) =>
          let '(token, exp) := Sign now s ScopeResetAll (userDID who) "" total in
          Ok (total, token, exp)
      end
  end.

Definition ResetAll (who : caller) (signer : option PurgeTokenSigner) (env : reset_env) (t : tables)
    (token : string) : result admin_error Z * option PurgeTokenSigner * tables :=
  let fail e := (Err e, signer, t) in
  if negb (isAdmin who) then fail ENotAdmin
  else match signer with
  | None => fail ENotConfigured
  | Some s =>
      if is_empty token then fail ENoToken
      else if is_empty (userDID who) then fail ENoAdminDID
      else match resetAllCounts (r_count_works env) t with
      | None => fail ECount
      | Some (_, totalRows) =>
          let '(v, s') := VerifyReason (r_clock env) s token ScopeResetAll (userDID who) "" totalRows in
          match v with
          | Err (reason, e) => (Err (EToken reason e), Some s', t)
          | Ok _ =>
              let t0 := r_meanwhile env t in
              if negb (r_begin_works env) then (Err EBegin, Some s', t0)
              else match delete_tables env resetAllTables t0 with
                   | None => (Err EDelete, Some s', t0)
                   | Some (totalDeleted, t1) =>
                       match r_commit env with
                       | Committed => (Ok totalDeleted, Some s', t1)
                       | RolledBack => (Err ECommit, Some s', t0)
                       | CommitLost => (Err ECommit, Some s', t1)
                       end
                   end
          end
      end
  end.
End Reset.

(** *** What a reset deletes *)

(** Children are deleted before their parents. *)
Fixpoint ordered (before names : list string) : bool :=
  match names with
  | [] => true
  | name :: names =>
      forallb (fun fk => negb (String.eqb fk.2 name) || existsb (String.eqb fk.1) before) cascades
      && negb (existsb (String.eqb name) before) && ordered (name :: before) names
  end.
Example reset_order : ordered [] resetAllTables = true.
Proof. reflexivity. Qed.

Definition rows (t : tables) (name : string) : Z := Z.of_nat (default 0%nat (t !! name)).
Definition total_rows (names : list string) (t : tables) : Z :=
  foldr (fun name z => rows t name + z) 0 names.

(** After some tables were emptied. *)
Definition emptied (before : list string) (t0 t : tables) : Prop :=
  forall x, t !! x = if existsb (String.eqb x) before then (fun _ => 0%nat) <$> t0 !! x else t0 !! x.
Definition all_known (env : reset_env) (names : list string) : Prop :=
  forall x, x ∈ names -> r_rows_known env x = true.

Lemma delete_from_emptied before name t0 t n t1 :
  forallb (fun fk => negb (String.eqb fk.2 name) || existsb (String.eqb fk.1) before) cascades = true ->
  existsb (String.eqb name) before = false ->
  emptied before t0 t -> delete_from name t = Some (n, t1) ->
  n = rows t0 name /\ emptied (name :: before) t0 t1.
Proof.
  intros Hc Hb He Hd. unfold delete_from in Hd. destruct (t !! name) as [k|] eqn:Hk; [|done].
  injection Hd as <- <-. pose proof (He name) as Hn. rewrite Hb, Hk in Hn.
  split; [unfold rows; by rewrite <-Hn|].
  assert (Forall (fun c => existsb (String.eqb c) before = true) (children_of name)) as Hch.
  { apply Forall_forall. intros c (fk & Hin & Hf)%list_elem_of_omap.
    rewrite forallb_elem_of in Hc. specialize (Hc fk Hin).
    destruct (String.eqb fk.2 name); [|done]. injection Hf as <-. done. }
  assert (emptied (name :: before) t0 (<[name := 0%nat]> t)) as H0.
  { intros x. cbn. destruct (String.eqb_spec x name) as [->|Hne]; cbn.
    - by rewrite lookup_insert_eq, <-Hn.
    - rewrite lookup_insert_ne by done. apply He. }
  induction Hch as [|c l Hc' _ IH]; [done|]. cbn [foldr]. intros x.
  destruct (decide (c = x)) as [<-|Hne].
  - rewrite lookup_alter_eq, (IH c). cbn. rewrite Hc', orb_true_r. by destruct (t0 !! c).
  - rewrite lookup_alter_ne by done. apply IH.
Qed.

Lemma delete_tables_emptied env t0 names : forall before t total t1,
  ordered before names = true -> emptied before t0 t -> delete_tables env names t = Some (total, t1) ->
  emptied (rev names ++ before) t0 t1 /\
  (all_known env names -> total = total_rows names t0).
Proof.
  induction names as [|name names IH]; intros before t total t1 Ho He Hd; [by injection Hd as <- <-|].
  cbn [ordered] in Ho. split_bools. cbn [delete_tables] in Hd. destruct (r_delete_works env name); [|done].
  destruct (delete_from name t) as [[n t2]|] eqn:Hf; [|done]. cbn in Hd.
  destruct (delete_from_emptied before name t0 t n t2) as [Hn He2]; [done..|].
  destruct (delete_tables env names t2) as [[m t3]|] eqn:Hr; [|done]. injection Hd as <- <-.
  destruct (IH (name :: before) t2 m t3) as [H1' H2']; [done..|].
  cbn [rev]. rewrite <-app_assoc. split; [done|]. intros Hk.
  rewrite (Hk name) by (by left). rewrite H2' by (intros x Hx; apply Hk; by right).
  by rewrite Hn.
Qed.

(** A reset that succeeds was asked for by an administrator with a valid
    token for it and for the number of rows counted; it empties exactly the listed
    tables and leaves every other, such as the configuration and the lexicons, as
    it was, and because children are deleted before their parents the number of
    rows it reports is exact. A reset that fails leaves the tables as other
    writers left them, except when the answer of a commit is lost. *)
Theorem reset_sound `{PurgeLib} who signer env t token :
  let '(r, _, t') := ResetAll who signer env t token in
  let t0 := r_meanwhile env t in
  match r with
  | Ok deleted => exists s s' names total, signer = Some s /\ isAdmin who = true /\ userDID who <> "" /\
      resetAllCounts (r_count_works env) t = Some (names, total) /\
      VerifyReason (r_clock env) s token ScopeResetAll (userDID who) "" total = (Ok (), s') /\
      (forall x, x ∈ resetAllTables -> rows t' x = 0) /\
      (forall x, x ∉ resetAllTables -> t' !! x = t0 !! x) /\
      (all_known env resetAllTables -> deleted = total_rows resetAllTables t0)
  | Err e => t' = t \/ t' = t0 \/ r_commit env = CommitLost /\ e = ECommit
  end.
Proof.
  destruct (ResetAll who signer env t token) as [[r signer'] t'] eqn:Hr. intros t0.
  unfold ResetAll in Hr. destruct (isAdmin who); cbn [negb] in Hr; [|injection Hr as <- <- <-; by left].
  destruct signer as [s|]; [|injection Hr as <- <- <-; by left].
  destruct (is_empty token); [injection Hr as <- <- <-; by left|].
  destruct (is_empty (userDID who)) eqn:Hu; [injection Hr as <- <- <-; by left|].
  destruct (resetAllCounts _ t) as [[names total]|] eqn:Hc; [|injection Hr as <- <- <-; by left].
  destruct (VerifyReason _ _ _ _ _ _ _) as [[[]|[reason e]] s'] eqn:Hv; [|injection Hr as <- <- <-; by left].
  destruct (r_begin_works env); cbn [negb] in Hr; [|injection Hr as <- <- <-; by right; left].
  fold t0 in Hr. destruct (delete_tables env resetAllTables t0) as [[n t1]|] eqn:Hd;
    [|injection Hr as <- <- <-; by right; left].
  destruct (r_commit env); injection Hr as <- <- <-; [|by right; left|by right; right].
  destruct (delete_tables_emptied env t0 resetAllTables [] t0 n t1) as [He Hn];
    [reflexivity|by intros x|done|].
  rewrite app_nil_r in He. assert (forall x, existsb (String.eqb x) (rev resetAllTables) = true <-> x ∈ resetAllTables) as Hin.
  { intros x. rewrite existsb_elem_of. setoid_rewrite list_elem_of_In. setoid_rewrite <-in_rev.
    split; [by intros (y & Hy & ->%String.eqb_eq)|]. intros Hx. exists x. by rewrite String.eqb_refl. }
  exists s, s', names, total. split_and!; try done.
  - by intros Hz; rewrite Hz in Hu.
  - intros x Hx%Hin. unfold rows. rewrite (He x), Hx. by destruct (t0 !! x).
  - intros x Hx. rewrite (He x). destruct (existsb _ _) eqn:Hxx; [|done]. by apply Hin in Hxx.
Qed.

(** ** Concrete tokens *)

Module Example_purge.

(** The JSON of claims whose strings need no escaping, and a toy HMAC. *)
Definition number (z : Z) (stop : ascii) : string := ":" +:+ itoa z +:+ String stop "".
Definition pieces (c : purgeTokenClaims) : list string :=
  ["{"; "v"; number (V c) ","; "scope"; ":"; Scope c; ","; "admin_did"; ":"; AdminDID c; ",";
   "target_did"; ":"; TargetDID c; ","; "record_count"; number (RecordCount c) ","; "exp";
   number (Exp c) "}"].
Definition read_number (s : string) (stop : ascii) : option Z :=
  '(t, _) ← cut_at stop (drop_bytes 1 s); ParseInt t.
Definition read_claims (s : string) : option purgeTokenClaims :=
  match split s dq with
  | [_; _; v; _; _; scope; _; _; _; admin; _; _; _; target; _; _; n; _; e] =>
      v ← read_number v ","; n ← read_number n ","; e ← read_number e "}";
      Some {| V := v; Scope := scope; AdminDID := admin; TargetDID := target; RecordCount := n;
              Exp := e |}
  | _ => None
  end.

Lemma itoa_lacks z c : ((48 <=? zb c) && (zb c <=? 57)) || (zb c =? 45) = false -> lacks c (itoa z) = true.
Proof. intros Hc. eapply all_bytes_impl; [|apply itoa_bytes]. cbn. intros b Hb. lia. Qed.

Lemma read_number_number z c : ((48 <=? zb c) && (zb c <=? 57)) || (zb c =? 45) = false ->
  in_int64 z -> read_number (number z c) c = Some z.
Proof.
  intros Hc Hz. unfold read_number, number. cbn [drop_bytes]. change (":" +:+ ?s) with (String ":" s).
  cbn [drop_bytes]. rewrite cut_at_first by (by apply itoa_lacks). cbn. by apply ParseInt_itoa.
Qed.

Lemma number_lacks z c d : ((48 <=? zb d) && (zb d <=? 57)) || (zb d =? 45) = false -> zb d <> 58 ->
  zb d <> zb c -> lacks d (number z c) = true.
Proof.
  intros Hd H1 H2. unfold number, lacks. rewrite !all_bytes_app.
  pose proof (itoa_lacks z d Hd) as Hi. unfold lacks in Hi. rewrite Hi. cbn [all_bytes].
  change (zb ":") with 58. lia.
Qed.

Lemma plain_lacks s : json_plain s = true -> lacks (ascii_of_nat 34) s = true.
Proof.
  intros Hs. eapply all_bytes_impl; [|exact Hs]. intros b Hb. cbn beta in Hb.
  change (zb (ascii_of_nat 34)) with 34. lia.
Qed.

Lemma read_claims_inverse c : plain_claims c -> read_claims (join (pieces c) dq) = Some c.
Proof.
  intros (H1 & H2 & H3 & H4 & H5 & H6). unfold read_claims, dq. rewrite split_join.
  - unfold pieces. rewrite !read_number_number by done. by destruct c.
  - done.
  - repeat (apply Forall_cons; split); try done; try (by apply plain_lacks); by apply number_lacks.
Qed.

#[local] Instance toy : PurgeLib := {|
  hmac_sha256 key payload := key +:+ payload;
  marshal_claims c := join (pieces c) dq;
  unmarshal_claims := read_claims;
  claims_inverse := read_claims_inverse
|}.

Definition signer : PurgeTokenSigner := {| secret := "k"; usedSigs := ∅ |}.
Definition index : db :=
  {| records := {["at://did:plc:spammer/app.post/1" := "did:plc:spammer"]};
     actors := {["did:plc:spammer" := "spam"]} |}.
Definition admin : caller := {| isAdmin := true; userDID := "did:plc:admin" |}.
Definition token : string := (Sign 0 signer ScopeActorPurge "did:plc:admin" "did:plc:spammer" 1).1.
Definition env (time : Z) : purge_env :=
  {| clock := time; count_works := true; meanwhile := fun d => d; begin_works := true;
     delete_records_works := true; delete_actor_works := true; commit := Committed;
     tapRemover := Some true |}.

(** The table of redeemed tokens is keyed by the text of the signature, and the
    decoder skips line breaks: a redeemed token with a line break at its end is
    accepted again. *)
Definition newline : string := String (ascii_of_nat 10) "".
Definition verify (s : PurgeTokenSigner) (tok : string) :=
  VerifyReason second s tok ScopeActorPurge "did:plc:admin" "did:plc:spammer" 1.
Example redeemed_twice :
  (verify signer token).1 = Ok () /\
  (verify (verify signer token).2 token).1 = Err ("already_used", ErrPurgeTokenAlreadyUsed) /\
  (verify (verify signer token).2 (token +:+ newline)).1 = Ok ().
Proof. by vm_compute. Qed.

(** A token for one scope is not accepted in the other. *)
Example no_cross_scope :
  (VerifyReason second signer token ScopeResetAll "did:plc:admin" "" 1).1
  = Err ("scope_mismatch", ErrPurgeTokenInvalid).
Proof. by vm_compute. Qed.

Lemma token_single_use_witness :
  is_ok (VerifyReason (3 * second)
           (fold_left perform [OSweep (2 * second) []; OVerify (2 * second) "x.y" "" "" "" 0]
              (verify signer token).2)
           token ScopeActorPurge "did:plc:admin" "did:plc:spammer" 1).1 = false.
Proof.
  refine (token_single_use second signer token ScopeActorPurge "did:plc:admin" "did:plc:spammer" 1
            (verify signer token).2 _ (3 * second) _ _ _ _ _ _ _).
  - apply injective_projections; [apply redeemed_twice|reflexivity].
  - repeat constructor; unfold second; cbn; lia.
  - split; [|by split]. apply Z.leb_le. by vm_compute.
Defined.

Lemma preview_then_purge_witness : exists pre,
  PreviewPurgeActor admin (Some signer) 0 true true index "did:plc:spammer" = Ok pre /\
  p_recordCount pre = 1.
Proof.
  eexists. split; [reflexivity|].
  refine (proj1 (preview_then_purge admin signer 0 index "did:plc:spammer" _ admin signer (env second)
                   index "did:plc:spammer" eq_refl _ _ _ _ _ _ _ _)); try done.
Defined.
End Example_purge.
