(* ===== verification/RecordStore.v ===== *)
(** The writes of [internal/database/repositories/records.go] and the queries the
    backfill makes before them, on the table [record] itself: inserts that keep
    an unchanged row, inserts of many rows in one transaction, lookups in batches
    of query parameters, and the walk over all rows. *)
From stdpp Require Import sorting.
From S2P Require Import Prelude GoStrings Ingestion.

Local Open Scope Z_scope.

Definition BatchInsertSize : nat := 100.
Definition SQLParamBatchSize : nat := 900.
Definition DefaultIterateBatchSize : nat := 1000.

(** ** Batches *)

(** The slices [l\[i:end\]] of the batch loops. *)
Fixpoint chunk_go {A} (fuel n : nat) (l : list A) : list (list A) :=
  match fuel, l with
  | S f, _ :: _ => take n l :: chunk_go f n (drop n l)
  | _, _ => []
  end.
Definition chunks {A} (n : nat) (l : list A) : list (list A) := chunk_go (length l) n l.

Lemma chunk_go_concat {A} n : (0 < n)%nat -> forall fuel (l : list A), (length l <= fuel)%nat ->
  concat (chunk_go fuel n l) = l /\ Forall (fun b => (0 < length b <= n)%nat) (chunk_go fuel n l).
Proof.
  intros Hn. induction fuel as [|f IH]; intros [|x l] Hf; try by (split; [|constructor]). 1: cbn in Hf; lia.
  destruct (IH (drop n (x :: l))) as [IHc IHf]; [rewrite length_drop; cbn in *; lia|].
  cbn [chunk_go concat]. rewrite IHc, take_drop. split; [done|].
  constructor; [|done]. rewrite length_take. cbn in *; lia.
Qed.

Lemma chunks_concat {A} n (l : list A) : (0 < n)%nat -> concat (chunks n l) = l.
Proof. intros. by apply chunk_go_concat. Qed.
Lemma chunks_sizes {A} n (l : list A) : (0 < n)%nat -> Forall (fun b => (0 < length b <= n)%nat) (chunks n l).
Proof. intros. by apply chunk_go_concat. Qed.

(** ** The table *)

(** A row; [rkey] is generated from the URI. *)
Record row := {
  w_cid : string; w_did : string; w_collection : string; w_json : string;
  w_indexed_at : instant; w_sort_at : option instant
}.
Abbreviation table := (gmap string row).

Definition new_row (now : instant) (p : InsertParams) : row :=
  {| w_cid := ip_CID p; w_did := ip_DID p; w_collection := ip_Collection p;
     w_json := ip_JSONData p; w_indexed_at := now; w_sort_at := ip_SortAt p |}.

(** [ON CONFLICT(uri) DO UPDATE SET]: author and collection are not in the list. *)
Definition updated (now : instant) (p : InsertParams) (old : row) : row :=
  {| w_cid := ip_CID p; w_did := w_did old; w_collection := w_collection old;
     w_json := ip_JSONData p; w_indexed_at := now;
     w_sort_at := match ip_SortAt p with Some s => Some s | None => w_sort_at old end |}.

(** The row that is written; none while the CID is the same. *)
Definition upsert (now : instant) (t : table) (p : InsertParams) : option row :=
  match t !! ip_URI p with
  | None => Some (new_row now p)
  | Some old => if String.eqb (w_cid old) (ip_CID p) then None else Some (updated now p old)
  end.
Definition put (now : instant) (t : table) (p : InsertParams) : table :=
  match upsert now t p with Some w => <[ip_URI p := w]> t | None => t end.

Section Writes.
(** Whether the database accepts a text as [jsonb]. *)
Context (jsonb : string -> bool).

(** The call fails, with nothing written, when the database does not answer or
    refuses the text. *)
Definition InsertWithParams (works : bool) (now : instant) (t : table) (p : InsertParams)
  : result unit InsertResult * table :=
  if works && jsonb (ip_JSONData p) then
    match upsert now t p with
    | Some w => (Ok Inserted, <[ip_URI p := w]> t)
    | None => (Ok Skipped, t)
    end
  else (Err (), t).

Definition Insert (works : bool) (now : instant) (t : table) (uri cid did collection jsonData : string) :=
  InsertWithParams works now t
    {| ip_URI := uri; ip_CID := cid; ip_DID := did; ip_Collection := collection;
       ip_JSONData := jsonData; ip_SortAt := None |}.

(** The rows of one statement: it cannot write a row twice. *)
Fixpoint insert_rows (now : instant) (written : gset string) (recs : list InsertParams) (t : table)
  : option table :=
  match recs with
  | [] => Some t
  | p :: recs =>
      if decide (ip_URI p ∈ written) then None
      else match upsert now t p with
           | Some w => insert_rows now ({[ip_URI p]} ∪ written) recs (<[ip_URI p := w]> t)
           | None => insert_rows now written recs t
           end
  end.
Definition insertBatchTx (works : bool) (now : instant) (recs : list InsertParams) (t : table)
  : option table :=
  if works && forallb (fun p => jsonb (ip_JSONData p)) recs then insert_rows now ∅ recs t else None.

(** What the database answers during a [BatchInsert]. *)
Record batch_env := {
  b_now : instant; b_begin : bool; b_works : nat -> bool; b_commit : commit_end
}.

Fixpoint insert_batches (env : batch_env) (i : nat) (bs : list (list InsertParams)) (t : table)
  : option table :=
  match bs with
  | [] => Some t
  | b :: bs =>
      match insertBatchTx (b_works env i) (b_now env) b t with
      | None => None
      | Some t' => insert_batches env (S i) bs t'
      end
  end.

Definition BatchInsert (env : batch_env) (recs : list InsertParams) (t : table)
  : result unit unit * table :=
  match recs with
  | [] => (Ok (), t)
  | _ =>
      if negb (b_begin env) then (Err (), t)
      else match insert_batches env 0 (chunks BatchInsertSize recs) t with
           | None => (Err (), t)
           | Some t' =>
               match b_commit env with
               | Committed => (Ok (), t')
               | RolledBack => (Err (), t)
               | CommitLost => (Err (), t')
               end
           end
  end.

(** *** A batch is its inserts one by one *)

Definition puts (now : instant) (recs : list InsertParams) (t : table) : table := foldl (put now) t recs.

Lemma insert_rows_puts now recs : forall written t, NoDup (ip_URI <$> recs) ->
  (forall p, p ∈ recs -> ip_URI p ∉ written) -> insert_rows now written recs t = Some (puts now recs t).
Proof.
  induction recs as [|p recs IH]; intros written t Hd Hw; [done|]. cbn in Hd. apply NoDup_cons in Hd as [Hp Hd].
  cbn [insert_rows puts foldl]. rewrite decide_False by (apply Hw; left). unfold put at 2.
  destruct (upsert now t p); apply IH; try done.
  - intros q Hq [Hx%elem_of_singleton|Hx]%elem_of_union; [|by eapply Hw; [right|]].
    apply Hp. rewrite <-Hx. by apply list_elem_of_fmap_2.
  - intros q Hq. apply Hw. by right.
Qed.

Lemma insert_rows_some now recs : forall written t t', insert_rows now written recs t = Some t' ->
  t' = puts now recs t.
Proof.
  induction recs as [|p recs IH]; intros written t t'; cbn [insert_rows puts foldl]; [by intros [= ->]|].
  case_decide; [done|]. unfold put at 2. destruct (upsert now t p); apply IH.
Qed.

Lemma puts_app now a b t : puts now (a ++ b) t = puts now b (puts now a t).
Proof. apply foldl_app. Qed.

Lemma insert_batches_some env bs : forall i t t', insert_batches env i bs t = Some t' ->
  t' = puts (b_now env) (concat bs) t.
Proof.
  induction bs as [|b bs IH]; intros i t t'; cbn [insert_batches concat]; [by intros [= ->]|].
  destruct (insertBatchTx _ _ b t) as [t1|] eqn:Hb; [|done]. intros ->%IH. rewrite puts_app. f_equal.
  unfold insertBatchTx in Hb. case_match; [|done]. by apply insert_rows_some in Hb as ->.
Qed.

Lemma insert_batches_works env bs : (forall i, b_works env i = true) ->
  NoDup (ip_URI <$> concat bs) -> Forall (fun p => jsonb (ip_JSONData p) = true) (concat bs) ->
  forall i t, insert_batches env i bs t = Some (puts (b_now env) (concat bs) t).
Proof.
  intros Hw. induction bs as [|b bs IH]; intros Hd Hj i t; [done|]. cbn [concat] in *.
  rewrite fmap_app in Hd. apply NoDup_app in Hd as (Hb & _ & Hbs). apply Forall_app in Hj as [Hjb Hjbs].
  cbn [insert_batches]. unfold insertBatchTx. rewrite Hw.
  replace (forallb _ b) with true by (symmetry; apply forallb_elem_of; by apply Forall_forall).
  cbn [andb]. rewrite insert_rows_puts by set_solver. rewrite IH by done. by rewrite puts_app.
Qed.

(** The rows after a sequence of inserts with different URIs. *)
Lemma puts_lookup now recs : forall t, NoDup (ip_URI <$> recs) ->
  (forall p, p ∈ recs -> puts now recs t !! ip_URI p =
    match upsert now t p with Some w => Some w | None => t !! ip_URI p end) /\
  (forall u, u ∉ ip_URI <$> recs -> puts now recs t !! u = t !! u).
Proof.
  induction recs as [|p recs IH]; intros t Hd; [split; [by intros p ?%not_elem_of_nil|done]|].
  cbn in Hd. apply NoDup_cons in Hd as [Hp Hd]. destruct (IH (put now t p) Hd) as [IHin IHout].
  assert (forall u, u <> ip_URI p -> put now t p !! u = t !! u) as Hput.
  { intros u Hu. unfold put. destruct (upsert now t p); [by rewrite lookup_insert_ne|done]. }
  change (puts now (p :: recs) t) with (puts now recs (put now t p)). split.
  - intros q [->|Hq]%elem_of_cons.
    + rewrite IHout by done. unfold put. destruct (upsert now t p); [by rewrite lookup_insert_eq|done].
    + assert (ip_URI q <> ip_URI p) as Hne by (intros He; apply Hp; rewrite <-He; by apply list_elem_of_fmap_2).
      rewrite IHin by done. unfold upsert. by rewrite (Hput _ Hne).
  - intros u Hu. cbn in Hu. apply not_elem_of_cons in Hu as [Hu1 Hu2]. by rewrite IHout, Hput.
Qed.

Lemma put_row now t p u w : put now t p !! u = Some w ->
  t !! u = Some w \/ u = ip_URI p /\ w_cid w = ip_CID p /\ w_json w = ip_JSONData p.
Proof.
  unfold put. destruct (upsert now t p) as [w'|] eqn:Hu; [|by left].
  intros [[<- <-]|[_ ?]]%lookup_insert_Some; [right|by left]. unfold upsert in Hu.
  destruct (t !! ip_URI p); [case_match; [done|]|]; injection Hu as <-; done.
Qed.

(** A batch insert that succeeds writes every record, as single inserts in the
    same order would, whatever the batches; one that fails writes nothing, unless
    the answer to a commit is lost. *)
Lemma BatchInsert_spec env recs t :
  let r := BatchInsert env recs t in
  match r.1 with
  | Ok _ => r.2 = puts (b_now env) recs t
  | Err _ => r.2 = t \/ b_commit env = CommitLost /\ r.2 = puts (b_now env) recs t
  end.
Proof.
  unfold BatchInsert. destruct recs as [|p recs]; [done|]. destruct (b_begin env); [|by left].
  cbn [negb]. destruct (insert_batches _ _ _ t) as [t'|] eqn:Hb; [|by left].
  apply insert_batches_some in Hb as ->. rewrite chunks_concat by (unfold BatchInsertSize; lia).
  destruct (b_commit env); cbn; auto.
Qed.

Definition all_works (env : batch_env) : Prop :=
  b_begin env = true /\ (forall i, b_works env i = true) /\ b_commit env = Committed.

Lemma BatchInsert_works env recs t : all_works env -> NoDup (ip_URI <$> recs) ->
  Forall (fun p => jsonb (ip_JSONData p) = true) recs ->
  BatchInsert env recs t = (Ok (), puts (b_now env) recs t).
Proof.
  intros (Hb & Hw & Hc) Hd Hj. unfold BatchInsert. destruct recs as [|p recs]; [done|].
  rewrite Hb, Hc. cbn [negb]. rewrite insert_batches_works; [|done| |];
    rewrite ?chunks_concat by (unfold BatchInsertSize; lia); done.
Qed.
End Writes.

(** ** Lookups in batches of parameters *)

(** [look i] is the table the query of batch [i] sees; [None] when it fails. *)
Definition batched {A} (query : A -> list string -> table -> A) (look : nat -> option table)
  : nat -> list (list string) -> A -> option A :=
  fix go i bs acc :=
    match bs with
    | [] => Some acc
    | b :: bs => match look i with None => None | Some t => go (S i) bs (query acc b t) end
    end.

Definition cids_of (acc : gmap string string) (uris : list string) (t : table) : gmap string string :=
  foldl (fun m u => match t !! u with Some w => <[u := w_cid w]> m | None => m end) acc uris.
Definition GetCIDsByURIs (look : nat -> option table) (uris : list string) : option (gmap string string) :=
  batched cids_of look 0 (chunks SQLParamBatchSize uris) ∅.

Definition has_cid (t : table) (c : string) : bool :=
  existsb (fun kw => String.eqb (w_cid kw.2) c) (map_to_list t).
Definition existing_of (acc : gset string) (cids : list string) (t : table) : gset string :=
  acc ∪ list_to_set (List.filter (has_cid t) cids).
Definition GetExistingCIDs (look : nat -> option table) (cids : list string) : option (gset string) :=
  batched existing_of look 0 (chunks SQLParamBatchSize cids) ∅.

Lemma batched_some {A} (query : A -> list string -> table -> A) look t bs :
  (forall i, look i = Some t) -> forall i acc,
  batched query look i bs acc = Some (foldl (fun acc b => query acc b t) acc bs).
Proof. intros Hl. induction bs as [|b bs IH]; intros i acc; cbn; [done|]. by rewrite Hl, IH. Qed.

Lemma has_cid_spec t c : has_cid t c = true <-> exists u w, t !! u = Some w /\ w_cid w = c.
Proof.
  unfold has_cid. rewrite existsb_elem_of. split.
  - intros ([u w] & Hw%elem_of_map_to_list & Hc%String.eqb_eq). eauto.
  - intros (u & w & Hw & Hc). exists (u, w). rewrite elem_of_map_to_list. split; [done|]. by apply String.eqb_eq.
Qed.

(** While the table stands still, the batches do not show. *)
Lemma GetCIDsByURIs_spec look t uris : (forall i, look i = Some t) ->
  exists m, GetCIDsByURIs look uris = Some m /\
    forall u, m !! u = if decide (u ∈ uris) then w_cid <$> t !! u else None.
Proof.
  intros Hl. unfold GetCIDsByURIs. rewrite (batched_some _ _ t) by done. eexists; split; [done|].
  assert (forall us acc u, cids_of acc us t !! u =
    if decide (u ∈ us) then match t !! u with Some w => Some (w_cid w) | None => acc !! u end
    else acc !! u) as Hone.
  { unfold cids_of. induction us as [|v us IH]; intros acc u; cbn [foldl].
    { by rewrite decide_False by apply not_elem_of_nil. }
    rewrite IH. destruct (decide (u = v)) as [->|Hne].
    - rewrite (decide_True (P := v ∈ v :: us)) by left. destruct (t !! v) eqn:Hv.
      + rewrite lookup_insert_eq. by case_decide.
      + by case_decide.
    - destruct (decide (u ∈ us)) as [Hu|Hu].
      + rewrite decide_True by (by right). destruct (t !! u); [done|]. destruct (t !! v); [|done].
        by rewrite lookup_insert_ne.
      + rewrite decide_False by set_solver. destruct (t !! v); [|done]. by rewrite lookup_insert_ne. }
  assert (forall bs acc u, foldl (fun acc b => cids_of acc b t) acc bs !! u =
    if decide (u ∈ concat bs) then match t !! u with Some w => Some (w_cid w) | None => acc !! u end
    else acc !! u) as Hall.
  { induction bs as [|b bs IH]; intros acc u; cbn [foldl concat]; [by rewrite decide_False by apply not_elem_of_nil|].
    rewrite IH, !Hone. destruct (t !! u), (decide (u ∈ b)), (decide (u ∈ concat bs)), (decide (u ∈ b ++ concat bs));
      set_solver. }
  intros u. rewrite Hall, chunks_concat by (unfold SQLParamBatchSize; lia).
  case_decide; [|done]. by destruct (t !! u).
Qed.

Lemma GetExistingCIDs_spec look t cids : (forall i, look i = Some t) ->
  exists s, GetExistingCIDs look cids = Some s /\ forall c, c ∈ s <-> c ∈ cids /\ has_cid t c = true.
Proof.
  intros Hl. unfold GetExistingCIDs. rewrite (batched_some _ _ t) by done. eexists; split; [done|].
  assert (forall bs acc c, c ∈ foldl (fun acc b => existing_of acc b t) acc bs <->
    c ∈ acc \/ c ∈ concat bs /\ has_cid t c = true) as Hall.
  { induction bs as [|b bs IH]; intros acc c; cbn [foldl concat]; [set_solver|].
    rewrite IH. unfold existing_of. rewrite elem_of_union, elem_of_list_to_set, elem_of_app.
    setoid_rewrite list_elem_of_In. rewrite filter_In. tauto. }
  intros c. rewrite Hall, chunks_concat by (unfold SQLParamBatchSize; lia). set_solver.
Qed.

(** ** The walk over all rows *)

Section Iterate.
(** The order of the database on URIs. *)
Context (before : relation string) `{!RelDecision before, !StrictOrder before, !Trichotomy before}.

Definition not_after (a b : string * row) : Prop := ~ before b.1 a.1.
#[local] Instance not_after_dec : RelDecision not_after := fun a b => _.

(** [ORDER BY r.uri], then [WHERE r.uri > $1 ... LIMIT n]. *)
Definition by_uri (t : table) : list (string * row) := merge_sort not_after (map_to_list t).
Definition page_after (last : string) (n : nat) (t : table) : list (string * row) :=
  take n (if is_empty last then by_uri t else filter (fun kw => before last kw.1) (by_uri t)).

(** One batch given to the callback: the state it leaves, the rows processed, the
    last URI, and the error that stops the walk. *)
Fixpoint each {S} (fn : S -> string * row -> S * option string) (rows : list (string * row))
    (s : S) (total : Z) (last : string) : S * Z * string * option string :=
  match rows with
  | [] => (s, total, last, None)
  | kw :: rows =>
      match fn s kw with
      | (s', Some e) => (s', total, last, Some e)
      | (s', None) => each fn rows s' (total + 1) kw.1
      end
  end.

(** [IterateAll]: [look i] is the table query [i] sees, [None] when it fails; [None]
    while the loop goes on after [fuel] queries. *)
Fixpoint iterate {S} (fuel : nat) (look : nat -> option table) (i n : nat)
    (fn : S -> string * row -> S * option string) (s : S) (total : Z) (last : string)
  : option (S * Z * option string) :=
  match fuel with
  | O => None
  | Datatypes.S f =>
      match look i with
      | None => Some (s, total, Some "query")
      | Some t =>
          let rows := page_after last n t in
          match rows with
          | [] => Some (s, total, None)
          | _ =>
              let '(s', total', last', err) := each fn rows s total last in
              match err with
              | Some e => Some (s', total', Some e)
              | None =>
                  if (length rows <? n)%nat then Some (s', total', None)
                  else iterate f look (Datatypes.S i) n fn s' total' last'
              end
          end
      end
  end.
Definition IterateAll {S} (fuel : nat) (look : nat -> option table) (batchSize : Z)
    (fn : S -> string * row -> S * option string) (s : S) : option (S * Z * option string) :=
  let n := if batchSize <=? 0 then DefaultIterateBatchSize else Z.to_nat batchSize in
  iterate fuel look 0 n fn s 0 "".

(** *** What it visits *)

Definition after (last u : string) : Prop := last = "" \/ before last u.
#[local] Instance after_dec last u : Decision (after last u) := _.
Definition candidates (last : string) (t : table) : list (string * row) :=
  if is_empty last then by_uri t else filter (fun kw => before last kw.1) (by_uri t).

Lemma by_uri_elem t u w : (u, w) ∈ by_uri t <-> t !! u = Some w.
Proof. unfold by_uri. by rewrite merge_sort_Permutation, elem_of_map_to_list. Qed.

#[local] Instance not_after_total : Total not_after.
Proof.
  intros a b. unfold not_after. destruct (trichotomy before a.1 b.1) as [H|[H|H]].
  - left. intros H'. by apply (irreflexivity before a.1); transitivity b.1.
  - rewrite H. left. apply irreflexivity, _.
  - right. intros H'. by apply (irreflexivity before a.1); transitivity b.1.
Qed.
#[local] Instance not_after_trans : Transitive not_after.
Proof.
  intros a b c Hab Hbc Hca. unfold not_after in *.
  destruct (trichotomy before b.1 a.1) as [H|[H|H]]; [done| |].
  - by rewrite H in Hbc.
  - apply Hbc. by transitivity a.1.
Qed.

Lemma by_uri_sorted t : StronglySorted before (by_uri t).*1.
Proof.
  pose proof (StronglySorted_merge_sort not_after (map_to_list t)) as Hs. fold (by_uri t) in Hs.
  assert (NoDup (by_uri t).*1) as Hd.
  { unfold by_uri. rewrite merge_sort_Permutation. apply NoDup_fst_map_to_list. }
  induction Hs as [|a l Hs IH Ha]; cbn in *; [constructor|]. apply NoDup_cons in Hd as [Hn Hd].
  constructor; [by apply IH|]. rewrite Forall_fmap, Forall_forall in *. intros b Hb. cbn.
  destruct (trichotomy before a.1 b.1) as [H|[H|H]]; [done| |by destruct (Ha _ Hb)].
  destruct Hn. rewrite H. by apply list_elem_of_fmap_2.
Qed.

Lemma StronglySorted_filter_fst (P : string * row -> Prop) `{!forall x, Decision (P x)} l :
  StronglySorted before l.*1 -> StronglySorted before (filter P l).*1.
Proof.
  induction l as [|x l IH]; [done|]. rewrite filter_cons. cbn [fmap list_fmap].
  inversion 1 as [|? ? Hs Hf]; subst. case_decide; [|by apply IH]. cbn [fmap list_fmap]. constructor; [by apply IH|].
  rewrite Forall_fmap, Forall_forall in *. intros y [_ Hy]%list_elem_of_filter. by apply Hf.
Qed.

Lemma candidates_spec last t : StronglySorted before (candidates last t).*1 /\
  forall u w, (u, w) ∈ candidates last t <-> t !! u = Some w /\ after last u.
Proof.
  unfold candidates, after. destruct (is_empty last) eqn:Hl.
  - destruct last; [|done]. split; [apply by_uri_sorted|]. intros u w. rewrite by_uri_elem. naive_solver.
  - split; [apply StronglySorted_filter_fst, by_uri_sorted|]. intros u w.
    rewrite list_elem_of_filter, by_uri_elem. cbn. split; [naive_solver|].
    intros [? [->|?]]; done.
Qed.

(** A page: sorted, past the last URI, from the table, and complete up to its end. *)
Lemma keyset_page_spec last n t : let rows := page_after last n t in
  StronglySorted before rows.*1 /\
  Forall (fun kw => t !! kw.1 = Some kw.2 /\ after last kw.1) rows /\
  (forall u, is_Some (t !! u) -> after last u ->
     u ∈ rows.*1 \/ length rows = n /\ Forall (fun v => before v u) rows.*1).
Proof.
  intros rows. destruct (candidates_spec last t) as [Hs Hin].
  change rows with (take n (candidates last t)). rewrite fmap_take. split_and!.
  - rewrite <-(take_drop n (candidates last t).*1) in Hs. by apply StronglySorted_app in Hs as (_ & ? & _).
  - apply Forall_take, Forall_forall. intros [u w] Hk. by apply Hin.
  - intros u [w Hw] Ha. assert (u ∈ (candidates last t).*1) as Hu.
    { apply list_elem_of_fmap. exists (u, w). split; [done|]. by apply Hin. }
    rewrite <-(take_drop n (candidates last t).*1) in Hu. apply elem_of_app in Hu as [?|Hu]; [by left|right].
    split.
    + rewrite length_take. rewrite <-fmap_drop in Hu. apply list_elem_of_fmap in Hu as (x & _ & Hx).
      assert (length (drop n (candidates last t)) <> 0%nat) as Hd.
      { intros Hz%length_zero_iff_nil. rewrite Hz in Hx. by apply not_elem_of_nil in Hx. }
      rewrite length_drop in Hd. lia.
    + rewrite <-(take_drop n (candidates last t).*1) in Hs. apply StronglySorted_app in Hs as (Hs & _ & _).
      apply Forall_forall. intros v Hv. by apply Hs.
Qed.

Lemma each_spec {S} (fn : S -> string * row -> S * option string) rows :
  (forall s kw, (fn s kw).2 = None) -> forall s total lst,
  each fn rows s total lst = (foldl (fun s kw => (fn s kw).1) s rows, total + Z.of_nat (length rows),
                              List.last rows.*1 lst, None).
Proof.
  intros Hfn. induction rows as [|kw rows IH]; intros s total lst; cbn [each foldl length].
  - by rewrite Z.add_0_r.
  - pose proof (Hfn s kw) as He. destruct (fn s kw) as [s' e]. cbn in He |- *. subst e. rewrite IH.
    do 2 f_equal; [f_equal; lia|]. destruct rows as [|kw' rows]; [done|]. cbn. clear.
    generalize kw'. induction rows; intros; [done|]. cbn. done.
Qed.

(** What a run of the loop from [last] visited. *)
Record walk (look : nat -> option table) (last : string) (visited : list (string * row))
    (err : option string) : Prop := {
  walk_sorted : StronglySorted before visited.*1;
  walk_after : Forall (fun kw => after last kw.1) visited;
  walk_rows : Forall (fun kw => exists i t, look i = Some t /\ t !! kw.1 = Some kw.2) visited;
  walk_complete : err = None -> forall u, (forall i t, look i = Some t -> is_Some (t !! u)) ->
    (exists i, is_Some (look i)) -> after last u -> u ∈ visited.*1;
  walk_works : (forall i, is_Some (look i)) -> err = None
}.

Lemma after_trans a b u : after a b -> b <> "" -> after b u -> after a u.
Proof. intros [->|Hab] Hb [->|Hbu]; [done| |done|]; [by left|right; by transitivity b]. Qed.

Lemma last_spec (l : list string) d : l <> [] -> StronglySorted before l ->
  List.last l d ∈ l /\ forall v, v ∈ l -> v = List.last l d \/ before v (List.last l d).
Proof.
  induction l as [|x l IH]; [done|]. intros _. inversion 1 as [|? ? Hs Hf]; subst.
  destruct l as [|y l]; [cbn; set_solver|]. destruct (IH ltac:(done) Hs) as [Hin Hle].
  change (List.last (x :: y :: l) d) with (List.last (y :: l) d). split; [by right|].
  intros v [->|Hv]%elem_of_cons; [|by apply Hle]. right. rewrite Forall_forall in Hf. by apply Hf.
Qed.

Lemma iterate_walks {S} (fn : S -> string * row -> S * option string) look n (U : gset string) :
  (0 < n)%nat -> (forall s kw, (fn s kw).2 = None) -> "" ∉ U ->
  (forall i t, look i = Some t -> dom t ⊆ U) ->
  forall fuel i s total last, (size (filter (after last) U) < fuel)%nat ->
  exists visited err, walk look last visited err /\
    iterate fuel look i n fn s total last =
      Some (foldl (fun s kw => (fn s kw).1) s visited, total + Z.of_nat (length visited), err).
Proof.
  intros Hn Hfn HU Hdom. induction fuel as [|f IH]; intros i s total last Hf; [lia|]. cbn [iterate].
  destruct (look i) as [t|] eqn:Ht; last first.
  { exists [], (Some "query"). split; [split; [constructor..|done|]|by rewrite Z.add_0_r].
    intros Hw. destruct (Hw i) as [x Hx]. congruence. }
  destruct (keyset_page_spec last n t) as (Hs & Hrows & Hall). set (rows := page_after last n t) in *.
  destruct rows as [|kw rows'] eqn:Hr.
  { exists [], None. split; [split; [constructor..| |done]|by rewrite Z.add_0_r].
    intros _ u Hu _ Ha. destruct (Hall u (Hu i t Ht) Ha) as [?|[? _]]; [done|cbn in *; lia]. }
  rewrite <-Hr in *. rewrite each_spec by done.
  assert (rows.*1 <> []) as Hne by (by rewrite Hr).
  destruct (last_spec _ last Hne Hs) as [Hlin Hlle]. set (lst := List.last rows.*1 last) in *.
  assert (Forall (fun kw => exists i t, look i = Some t /\ t !! kw.1 = Some kw.2) rows) as Hfrom.
  { eapply Forall_impl; [exact Hrows|]. intros x [Hx _]. eauto. }
  destruct (length rows <? n)%nat eqn:Hlen.
  - apply Nat.ltb_lt in Hlen. exists rows, None. split; [split; try done|done].
    + eapply Forall_impl; [exact Hrows|]. by intros x [_ ?].
    + intros _ u Hu _ Ha. destruct (Hall u (Hu i t Ht) Ha) as [?|[? _]]; [done|lia].
  - assert (after last lst /\ lst ∈ U) as [Hal HlU].
    { apply list_elem_of_fmap in Hlin as (x & Hx & Hxin). rewrite Forall_forall in Hrows.
      destruct (Hrows x Hxin) as [Hxt Hxa]. rewrite Hx. split; [done|].
      eapply Hdom; [exact Ht|]. by apply elem_of_dom_2 in Hxt. }
    assert (lst <> "") as Hl0 by (by intros Hz; rewrite Hz in HlU).
    destruct (IH (Datatypes.S i) (foldl (fun s kw => (fn s kw).1) s rows)
                (total + Z.of_nat (length rows)) lst) as (visited & err & Hw & Heq).
    { enough (size (filter (after lst) U) < size (filter (after last) U))%nat by lia.
      apply subset_size. split.
      - intros u. rewrite !elem_of_filter. intros [Hu ?]. split; [|done]. by eapply after_trans.
      - intros Hsub. specialize (Hsub lst). rewrite !elem_of_filter in Hsub.
        destruct (Hsub (conj Hal HlU)) as [[Hz|Hz] _]; [done|]. by apply (irreflexivity before lst). }
    exists (rows ++ visited), err. split.
    + destruct Hw as [Hws Hwa Hwr Hwc Hww]. split; [| | | |done].
      * rewrite fmap_app. apply StronglySorted_app. split_and!; [|done|done].
        intros v w Hv Hw. apply list_elem_of_fmap in Hw as (x & -> & Hx).
        rewrite Forall_forall in Hwa. destruct (Hwa x Hx) as [?|Hlx]; [done|].
        destruct (Hlle v Hv) as [->|Hvl]; [done|by transitivity lst].
      * apply Forall_app. split; [eapply Forall_impl; [exact Hrows|]; by intros x [_ ?]|].
        eapply Forall_impl; [exact Hwa|]. intros x Hx. by eapply after_trans.
      * by apply Forall_app.
      * intros He u Hu Hi Ha. rewrite fmap_app, elem_of_app.
        destruct (Hall u (Hu i t Ht) Ha) as [?|[_ Hlt]]; [by left|right]. apply Hwc; [done..|].
        right. rewrite Forall_forall in Hlt. by apply Hlt.
    + rewrite Heq, foldl_app, length_app. do 2 f_equal. f_equal. lia.
Qed.

(** The walk over all rows ends, for every batch size and while other writers
    change the table between its queries: it calls the callback on rows of the
    table in the order of their URIs, never twice for a URI, and, unless a query
    fails, for every URI that stays in the table throughout. The count is the
    number of calls. *)
Theorem IterateAll_complete {S} (fn : S -> string * row -> S * option string) look batchSize s (U : gset string) :
  (forall s kw, (fn s kw).2 = None) -> "" ∉ U -> (forall i t, look i = Some t -> dom t ⊆ U) ->
  exists visited err,
    IterateAll (Datatypes.S (size U)) look batchSize fn s =
      Some (foldl (fun s kw => (fn s kw).1) s visited, Z.of_nat (length visited), err) /\
    StronglySorted before visited.*1 /\
    Forall (fun kw => exists i t, look i = Some t /\ t !! kw.1 = Some kw.2) visited /\
    ((forall i, is_Some (look i)) -> err = None /\
       forall u, (forall i t, look i = Some t -> is_Some (t !! u)) -> u ∈ visited.*1).
Proof.
  intros Hfn HU Hdom. unfold IterateAll. set (n := if batchSize <=? 0 then _ else _).
  assert (0 < n)%nat as Hn by (unfold n, DefaultIterateBatchSize; destruct (batchSize <=? 0) eqn:?; lia).
  destruct (iterate_walks fn look n U Hn Hfn HU Hdom (Datatypes.S (size U)) 0 s 0 "")
    as (visited & err & [Hs _ Hr Hc Hw] & Heq).
  { enough (size (filter (after "") U) <= size U)%nat by lia. apply subseteq_size.
    intros u. rewrite elem_of_filter. by intros [_ ?]. }
  exists visited, err. split_and!; [done|done|done|]. intros Hl. split; [by apply Hw|].
  intros u Hu. apply Hc; [by apply Hw|done|by exists 0%nat|by left].
Qed.
End Iterate.

(** ** A concrete table *)

Module Example_store.
Definition p (uri cid : string) : InsertParams :=
  {| ip_URI := uri; ip_CID := cid; ip_DID := "did:plc:a"; ip_Collection := "app.post";
     ip_JSONData := "{}"; ip_SortAt := None |}.
Definition index : table := puts 7 [p "at://a/1" "c1"; p "at://a/2" "c2"] ∅.
Definition env : batch_env :=
  {| b_now := 9; b_begin := true; b_works := fun _ => true; b_commit := Committed |}.

(** A row with the same CID is left alone, also its time. *)
Example unchanged_kept :
  w_indexed_at <$> (BatchInsert (fun _ => true) env [p "at://a/1" "c1"; p "at://a/2" "c3"] index).2 !! "at://a/1"
  = Some 7.
Proof. reflexivity. Qed.

(** One statement cannot write a row twice, two statements can. *)
Example twice_in_a_batch :
  (BatchInsert (fun _ => true) env [p "at://a/3" "c1"; p "at://a/3" "c2"] index).1 = Err ().
Proof. reflexivity. Qed.

(** Any strict total order will do for the walk. *)
Definition before (a b : string) : Prop := (encode a < encode b)%positive.
#[export] Instance before_dec : RelDecision before.
Proof. intros a b. unfold before. apply _. Defined.
#[export] Instance before_strict : StrictOrder before.
Proof. split; [intros a H; by apply Pos.lt_irrefl in H|intros a b c H1 H2; by eapply Pos.lt_trans]. Qed.
#[export] Instance before_trichotomy : Trichotomy before.
Proof.
  intros a b. unfold before. destruct (Pos.lt_total (encode a) (encode b)) as [H|[H|H]]; auto.
  right; left. by apply (inj encode).
Qed.

Definition collect (l : list string) (kw : string * row) : list string * option string := (l ++ [kw.1], None).

Lemma IterateAll_complete_witness : exists visited err,
  IterateAll before 3 (fun _ => Some index) 1 collect [] =
    Some (foldl (fun s kw => (collect s kw).1) [] visited, Z.of_nat (length visited), err) /\
  err = None /\ "at://a/2" ∈ visited.*1.
Proof.
  destruct (IterateAll_complete before collect (fun _ => Some index) 1 [] (dom index))
    as (visited & err & Heq & _ & _ & Hall); [done| | |].
  - apply not_elem_of_dom. reflexivity.
  - by intros i t [= <-].
  - exists visited, err. destruct Hall as [-> Hin]; [by eauto|]. split_and!; [exact Heq|done|].
    apply Hin. intros i t [= <-]. eexists. reflexivity.
Defined.
End Example_store.
