(* ===== verification/RepoClient.v ===== *)
(** [internal/backfill/client.go]: the requests of the backfill to the relay, the
    PLC directory and the servers of the actors, the paging loops around them, the
    filter over a downloaded repository, and its conversion from CBOR to JSON. *)
From S2P Require Import Prelude GoStrings Json Base64 Validator.

Local Open Scope Z_scope.

Definition DefaultRelayURL : string := "https://relay1.us-west.bsky.network".
Definition DefaultPLCURL : string := "https://plc.directory".
Definition StatusOK : Z := 200.

(** ** Connection limits and retries *)

Definition clamp (lo hi x : Z) : Z :=
  let x := if x <? lo then lo else x in if hi <? x then hi else x.

(** [MaxIdleConns], [MaxIdleConnsPerHost] and [MaxConnsPerHost]. *)
Definition newTransport (maxConcurrent : Z) : Z * Z * Z :=
  (clamp 10 200 (wrap64 (maxConcurrent * 2)), clamp 2 20 (Z.quot maxConcurrent 5),
   clamp 4 30 (Z.quot maxConcurrent 3)).

(** Whether to retry; [response] is [None] after a connection error. *)
Definition retryPolicy (cancelled : bool) (response : option Z) : bool :=
  if cancelled then false
  else match response with
       | None => true
       | Some status => (status =? 429) || (status =? 503) || (status =? 504)
       end.

Record Client := { relayURL : string; plcURL : string; transport : Z * Z * Z }.
Definition NewClient (relay plc : string) (maxConcurrent : option Z) : Client :=
  {| relayURL := if is_empty relay then DefaultRelayURL else relay;
     plcURL := if is_empty plc then DefaultPLCURL else plc;
     transport := match maxConcurrent with
                  | Some n => if 0 <? n then newTransport n else newTransport 50
                  | None => newTransport 50
                  end |}.

(** ** Requests *)

Inductive client_error := EURL | ERequest | EStatus (code : Z) | EDecode.

Record ListRecordsRecord := { lr_URI : string; lr_CID : string; lr_Value : string }.
Record AtprotoData := { a_DID : string; a_Handle : string; a_PDS : string }.
Record PLCService := { svc_ID : string; svc_Type : string; ServiceEndpoint : string }.
Record PLCDocument := { Service : list PLCService; AlsoKnownAs : list string }.

(** [ToAtprotoData]: the first matching service, the first handle. *)
Definition is_pds (s : PLCService) : bool := String.eqb (svc_Type s) "AtprotoPersonalDataServer".
Definition is_handle (aka : string) : bool := (5 <? glen aka) && String.eqb (take_bytes 5 aka) "at://".
Definition ToAtprotoData (d : PLCDocument) (did : string) : AtprotoData :=
  {| a_DID := did;
     a_Handle := match List.find is_handle (AlsoKnownAs d) with
               | Some aka => drop_bytes 5 aka | None => did end;
     a_PDS := match List.find is_pds (Service d) with
            | Some s => ServiceEndpoint s | None => "https://bsky.social" end |}.

Section Requests.
Context (c : Client).
(** The network: what request [i] to a URL with a query answers, a status and a
    body or nothing; and the decoders of the bodies. *)
Context (url_ok : string -> bool) (http : nat -> string -> query -> option (Z * string)).
Context (decode_repos : string -> option (list string * string)).
Context (decode_records : string -> option (list ListRecordsRecord * string)).
Context (decode_plc : string -> option PLCDocument).

(** A request, its status check and the decoding of its body. *)
Definition request {A} (decode : string -> option A) (i : nat) (u : string) (q : query)
  : result client_error A :=
  if negb (url_ok u) then Err EURL
  else match http i u q with
       | None => Err ERequest
       | Some (status, body) =>
           if negb (status =? StatusOK) then Err (EStatus status)
           else match decode body with None => Err EDecode | Some a => Ok a end
       end.

Definition with_cursor (cursor : string) (q : query) : query :=
  if is_empty cursor then q else q_Set q "cursor" cursor.

Definition listReposByCollectionPage (collection : string) (i : nat) (cursor : string)
  : result client_error (list string * string) :=
  request decode_repos i (relayURL c +:+ "/xrpc/com.atproto.sync.listReposByCollection")
    (with_cursor cursor (q_Set (q_Set ∅ "collection" collection) "limit" "1000")).

Definition listRecordsPage (pdsURL repoDID collection : string) (i : nat) (cursor : string)
  : result client_error (list ListRecordsRecord * string) :=
  request decode_records i (pdsURL +:+ "/xrpc/com.atproto.repo.listRecords")
    (with_cursor cursor (q_Set (q_Set (q_Set ∅ "repo" repoDID) "collection" collection) "limit" "100")).

Definition ResolveDID (i : nat) (did : string) : result client_error AtprotoData :=
  doc ← request decode_plc i (plcURL c +:+ "/" +:+ did) ∅; Ok (ToAtprotoData doc did).

Definition maxBackfillPages : nat := Z.to_nat 10000.

(** The loop of [ListReposByCollection]: it stops quietly at the last allowed
    page. *)
Fixpoint repos_loop (collection : string) (pages i : nat) (cursor : string) (allRepos : list string)
  : result client_error (list string) :=
  match pages with
  | O => Ok allRepos
  | S pages =>
      match listReposByCollectionPage collection i cursor with
      | Err e => Err e
      | Ok (repos, nextCursor) =>
          if is_empty nextCursor then Ok (allRepos ++ repos)
          else repos_loop collection pages (S i) nextCursor (allRepos ++ repos)
      end
  end.
Definition ListReposByCollection (collection : string) : result client_error (list string) :=
  repos_loop collection maxBackfillPages 0 "" [].

(** The loop of [ListRecords], which has no last page; [None] while it goes on
    after [fuel] requests. *)
Fixpoint records_loop (pdsURL repoDID collection : string) (fuel i : nat) (cursor : string)
    (allRecords : list ListRecordsRecord) : option (result client_error (list ListRecordsRecord)) :=
  match fuel with
  | O => None
  | S fuel =>
      match listRecordsPage pdsURL repoDID collection i cursor with
      | Err e => Some (Err e)
      | Ok (records, nextCursor) =>
          if is_empty nextCursor then Some (Ok (allRecords ++ records))
          else records_loop pdsURL repoDID collection fuel (S i) nextCursor (allRecords ++ records)
      end
  end.
Definition ListRecords (fuel : nat) (pdsURL repoDID collection : string)
  : option (result client_error (list ListRecordsRecord)) :=
  records_loop pdsURL repoDID collection fuel 0 "" [].
End Requests.

(** ** What the paging loops return *)

Section Paging.
Context {A : Type} (fetch : nat -> string -> result client_error (list A * string)).

(** From request [i] with cursor [cur], the pages [ps] were read, each with a
    cursor for more; the last of these is [next]. *)
Inductive reads : nat -> string -> list (list A) -> string -> Prop :=
| reads_none i cur : reads i cur [] cur
| reads_page i cur p next ps fin : fetch i cur = Ok (p, next) -> next <> "" ->
    reads (S i) next ps fin -> reads i cur (p :: ps) fin.

(** Either loop, with what it has when its pages run out. *)
Fixpoint loop (fuel i : nat) (cur : string) (acc : list A) : list A + result client_error (list A) :=
  match fuel with
  | O => inl acc
  | S fuel =>
      match fetch i cur with
      | Err e => inr (Err e)
      | Ok (p, next) => if is_empty next then inr (Ok (acc ++ p)) else loop fuel (S i) next (acc ++ p)
      end
  end.

(** How a run of at most [fuel] requests ends. *)
Definition stops (fuel i : nat) (acc : list A) (r : list A + result client_error (list A))
    (ps : list (list A)) (fin : string) : Prop :=
  match r with
  | inl l => length ps = fuel /\ l = acc ++ concat ps
  | inr r => (length ps < fuel)%nat /\
      match r with
      | Err e => fetch (i + length ps) fin = Err e
      | Ok l => exists p, fetch (i + length ps) fin = Ok (p, "") /\ l = acc ++ concat ps ++ p
      end
  end.
Definition ends (fuel i : nat) (cur : string) (acc : list A)
    (r : list A + result client_error (list A)) : Prop :=
  exists ps fin, reads i cur ps fin /\ stops fuel i acc r ps fin.

Lemma is_empty_str s : is_empty s = true <-> s = "".
Proof. by destruct s. Qed.

Lemma loop_ends fuel : forall i cur acc, ends fuel i cur acc (loop fuel i cur acc).
Proof.
  induction fuel as [|f IH]; intros i cur acc; cbn [loop].
  { exists [], cur. split; [constructor|]. cbn. by rewrite app_nil_r. }
  destruct (fetch i cur) as [[p next]|e] eqn:Hf; last first.
  { exists [], cur. split; [constructor|]. cbn. rewrite Nat.add_0_r. split; [lia|done]. }
  destruct (is_empty next) eqn:Hn.
  { apply is_empty_str in Hn as ->. exists [], cur. split; [constructor|]. cbn. rewrite Nat.add_0_r.
    split; [lia|]. by exists p. }
  assert (next <> "") as Hne by (by intros ->).
  destruct (IH (S i) next (acc ++ p)) as (ps & fin & Hr & He).
  exists (p :: ps), fin. split; [by econstructor|].
  destruct (loop f (S i) next (acc ++ p)) as [l|[l|e]]; cbn [stops length concat] in *;
    replace (i + S (length ps))%nat with (S i + length ps)%nat by lia.
  - destruct He as [-> ->]. by rewrite <-app_assoc.
  - destruct He as [Hl (q & Hq & ->)]. split; [lia|]. exists q. split; [done|]. by rewrite <-!app_assoc.
  - destruct He as [Hl He]. split; [lia|done].
Qed.

(** The server decides how: two runs that read as many pages read the same. *)
Lemma reads_unique i cur ps fin : reads i cur ps fin -> forall ps' fin', reads i cur ps' fin' ->
  length ps = length ps' -> ps = ps' /\ fin = fin'.
Proof.
  induction 1 as [i cur|i cur p next ps fin Hf Hn Hr IH]; intros ps' fin' Hr' Hl.
  - destruct ps'; [|done]. by inversion Hr'.
  - destruct ps' as [|p' ps']; [done|]. inversion Hr' as [|? ? ? next' ? ? Hf' Hn' Hr'']; subst.
    rewrite Hf in Hf'. injection Hf' as <- <-. injection Hl as Hl.
    destruct (IH _ _ Hr'' Hl) as [-> ->]. done.
Qed.

Lemma reads_stop i cur ps fin : reads i cur ps fin -> forall qs fin', reads i cur qs fin' ->
  (length ps < length qs)%nat -> exists p next, fetch (i + length ps) fin = Ok (p, next) /\ next <> "".
Proof.
  induction 1 as [i cur|i cur p next ps fin Hf Hn Hr IH]; intros qs fin' Hr' Hl.
  - destruct qs as [|q qs]; [cbn in *; lia|]. inversion Hr'; subst. rewrite Nat.add_0_r. eauto.
  - destruct qs as [|q qs]; [cbn in *; lia|]. inversion Hr' as [|? ? ? next' ? ? Hf' Hn' Hr'']; subst.
    rewrite Hf in Hf'. injection Hf' as <- <-. cbn [length] in *.
    replace (i + S (length ps))%nat with (S i + length ps)%nat by lia. eapply IH; [done|lia].
Qed.

Lemma stops_first fuel i cur acc r r' ps fin ps' fin' : reads i cur ps fin -> reads i cur ps' fin' ->
  stops fuel i acc r ps fin -> stops fuel i acc r' ps' fin' -> (length ps' <= length ps)%nat.
Proof.
  intros Hr Hr' Hs Hs'. destruct (le_lt_dec (length ps') (length ps)) as [?|Hl]; [done|exfalso].
  destruct (reads_stop _ _ _ _ Hr _ _ Hr' Hl) as (p & next & Hf & Hn).
  assert (length ps' <= fuel)%nat as Hle by (destruct r'; cbn in Hs'; destruct Hs'; lia).
  destruct r as [l|[l|e]]; cbn in Hs; [lia| |]; destruct Hs as [_ Hs]; [destruct Hs as (q & Hq & _)|]; congruence.
Qed.

Lemma ends_unique fuel i cur acc r r' : ends fuel i cur acc r -> ends fuel i cur acc r' -> r = r'.
Proof.
  intros (ps & fin & Hr & Hs) (ps' & fin' & Hr' & Hs').
  assert (length ps = length ps') as Hl by (apply Nat.le_antisymm; by eapply stops_first).
  destruct (reads_unique _ _ _ _ Hr _ _ Hr' Hl) as [-> ->].
  destruct r as [l|[l|e]], r' as [l'|[l'|e']]; cbn in Hs, Hs'; destruct Hs as [H1 H2], Hs' as [H1' H2'];
    try lia; try congruence; try (destruct H2 as (p & Hp & ->)); try (destruct H2' as (p' & Hp' & ->)); congruence.
Qed.
End Paging.

Section Listings.
Context (c : Client) (url_ok : string -> bool) (http : nat -> string -> query -> option (Z * string)).
Context (decode_repos : string -> option (list string * string)).
Context (decode_records : string -> option (list ListRecordsRecord * string)).

Lemma repos_loop_eq collection fuel : forall i cur acc,
  repos_loop c url_ok http decode_repos collection fuel i cur acc =
  match loop (listReposByCollectionPage c url_ok http decode_repos collection) fuel i cur acc with
  | inl l => Ok l | inr r => r end.
Proof.
  induction fuel as [|f IH]; intros i cur acc; cbn [repos_loop loop]; [done|].
  destruct (listReposByCollectionPage _ _ _ _ _ _ _) as [[p next]|e]; [|done].
  destruct (is_empty next); [done|]. apply IH.
Qed.

Lemma records_loop_eq pds did collection fuel : forall i cur acc,
  records_loop url_ok http decode_records pds did collection fuel i cur acc =
  match loop (listRecordsPage url_ok http decode_records pds did collection) fuel i cur acc with
  | inl _ => None | inr r => Some r end.
Proof.
  induction fuel as [|f IH]; intros i cur acc; cbn [records_loop loop]; [done|].
  destruct (listRecordsPage _ _ _ _ _ _ _ _) as [[p next]|e]; [|done].
  destruct (is_empty next); [done|]. apply IH.
Qed.

(** The list of the relay is the concatenation of its pages up to the first
    without a cursor, in order, or of the first ten thousand of them; a page that
    fails fails the whole listing. It always ends. *)
Theorem ListReposByCollection_spec collection r :
  let fetch := listReposByCollectionPage c url_ok http decode_repos collection in
  ListReposByCollection c url_ok http decode_repos collection = r <->
  exists ps fin, reads fetch 0 "" ps fin /\
    match r with
    | Ok l =>
        length ps = maxBackfillPages /\ l = concat ps \/
        (length ps < maxBackfillPages)%nat /\ exists p, fetch (length ps) fin = Ok (p, "") /\ l = concat ps ++ p
    | Err e => (length ps < maxBackfillPages)%nat /\ fetch (length ps) fin = Err e
    end.
Proof.
  intros fetch. unfold ListReposByCollection. rewrite repos_loop_eq. fold fetch.
  pose proof (loop_ends fetch maxBackfillPages 0 "" []) as He. split.
  - intros <-. destruct He as (ps & fin & Hr & Hs). exists ps, fin. split; [done|].
    destruct (loop _ _ _ _ _) as [l|[l|e]]; cbn in Hs; [by left|by right|done].
  - intros (ps & fin & Hr & Hs). destruct r as [l|e].
    + destruct Hs as [[Hl ->]|[Hl (p & Hp & ->)]].
      * rewrite (ends_unique _ _ _ _ _ _ (inl (concat ps)) He); [done|]. by exists ps, fin.
      * rewrite (ends_unique _ _ _ _ _ _ (inr (Ok (concat ps ++ p))) He); [done|].
        exists ps, fin. split; [done|]. split; [done|]. by exists p.
    + rewrite (ends_unique _ _ _ _ _ _ (inr (Err e)) He); [done|]. exists ps, fin. by split.
Qed.

(** The list of the records of an actor ends after [fuel] requests exactly
    when one of these has no further cursor or fails, and is then the
    concatenation of the pages before, in order, or the error: for a server that
    always gives a cursor it never ends. *)
Theorem ListRecords_spec pds did collection fuel r :
  let fetch := listRecordsPage url_ok http decode_records pds did collection in
  ListRecords url_ok http decode_records fuel pds did collection = r <->
  exists ps fin, reads fetch 0 "" ps fin /\
    match r with
    | None => length ps = fuel
    | Some r => (length ps < fuel)%nat /\
        match r with
        | Ok l => exists p, fetch (length ps) fin = Ok (p, "") /\ l = concat ps ++ p
        | Err e => fetch (length ps) fin = Err e
        end
    end.
Proof.
  intros fetch. unfold ListRecords. rewrite records_loop_eq. fold fetch.
  pose proof (loop_ends fetch fuel 0 "" []) as He. split.
  - intros <-. destruct He as (ps & fin & Hr & Hs). exists ps, fin. split; [done|].
    destruct (loop _ _ _ _ _) as [l|[l|e]]; cbn in Hs; [by destruct Hs|done|done].
  - intros (ps & fin & Hr & Hs). destruct r as [r|].
    + rewrite (ends_unique _ _ _ _ _ _ (inr r) He); [done|]. exists ps, fin. by split.
    + rewrite (ends_unique _ _ _ _ _ _ (inl (concat ps)) He); [done|]. by exists ps, fin.
Qed.
End Listings.

(** ** A downloaded repository *)

Record CARRecord := { c_URI : string; c_CID : string; c_Collection : string; c_RKey : string; c_Value : string }.

(** An entry of a repository: its path, and the CID and bytes of its record
    where they can be read. *)
Abbreviation car_entry := (string * option (string * string))%type.

(** The callback of [ForEach]. *)
Definition extract (did : string) (collections : list string) (e : car_entry) : option CARRecord :=
  match cut_at "/" e.1 with
  | None => None
  | Some (collection, rkey) =>
      if match collections with [] => false | _ => true end
         && negb (existsb (String.eqb collection) collections) then None
      else match e.2 with
           | None => None
           | Some (cid, value) =>
               Some {| c_URI := "at://" +:+ did +:+ "/" +:+ collection +:+ "/" +:+ rkey;
                       c_CID := cid; c_Collection := collection; c_RKey := rkey; c_Value := value |}
           end
  end.

(** The repository library: the entries of a file in their order, and whether
    going over them ends without an error. *)
Definition GetRepo (answer : option (Z * string))
    (read_car : string -> option (list car_entry * bool)) (did : string) (collections : list string)
  : result client_error (list CARRecord) :=
  match answer with
  | None => Err ERequest
  | Some (status, body) =>
      if negb (status =? StatusOK) then Err (EStatus status)
      else match read_car body with
           | None => Err EDecode
           | Some (entries, ends_well) =>
               if ends_well then Ok (omap (extract did collections) entries) else Err EDecode
           end
  end.

Lemma extract_spec did collections path bytes r : extract did collections (path, bytes) = Some r <->
  exists cid value, bytes = Some (cid, value) /\ cut_at "/" path = Some (c_Collection r, c_RKey r) /\
    (collections = [] \/ c_Collection r ∈ collections) /\
    c_CID r = cid /\ c_Value r = value /\
    c_URI r = "at://" +:+ did +:+ "/" +:+ path.
Proof.
  unfold extract. cbn [fst snd]. destruct (cut_at "/" path) as [[col rk]|] eqn:Hc.
  2:{ split; [done|]. by intros (? & ? & _ & ? & _). }
  assert ((match collections with [] => false | _ => true end && negb (existsb (String.eqb col) collections)) = false
          <-> collections = [] \/ col ∈ collections) as Hsel.
  { destruct collections as [|x l]; [naive_solver|]. cbn [andb].
    rewrite negb_false_iff, existsb_elem_of. split.
    - intros (y & Hy & ->%String.eqb_eq). by right.
    - intros [?|Hy]; [done|]. exists col. split; [done|]. apply String.eqb_refl. }
  apply cut_at_Some in Hc as Hp. destruct (_ && _) eqn:Hb.
  { split; [done|]. intros (? & ? & _ & [= -> ->] & Hs & _). apply Hsel in Hs. congruence. }
  destruct bytes as [[cid value]|]; [|naive_solver]. split.
  - intros [= <-]. cbn. exists cid, value. split_and!; try done; [by apply Hsel|].
    by rewrite Hp.
  - intros (? & ? & [= <- <-] & [= -> ->] & _ & Hcid & Hv & Hu). destruct r as [u ci co rk v]; cbn in *.
    by subst.
Qed.

(** ** From CBOR to JSON *)

(** What the CBOR library decodes a value to: a tag it does not know becomes a
    [cbor.Tag], a number that is not finite is [None]. Entries of a map are in
    the order Go ranges over it. *)
Inductive value :=
| VNil | VBool (b : bool) | VInt (z : Z) | VFloat (n : option num) | VText (s : string) | VBytes (s : string)
| VTag (number : Z) (content : value)
| VSlice (l : list value)
| VAnyMap (m : list (value * value))   (* map[interface{}]interface{} *)
| VMap (m : list (string * value)).    (* map[string]interface{} *)

(** [m\[k\] = v]. *)
Fixpoint set_entry (k : string) (v : value) (m : list (string * value)) : list (string * value) :=
  match m with
  | [] => [(k, v)]
  | (k', v') :: m => if String.eqb k k' then (k, v) :: m else (k', v') :: set_entry k v m
  end.

Section Convert.
(** [fmt.Sprintf] of a key with the verb %v, where it is not a string. *)
Context (sprint : value -> string).
Definition key_text (k : value) : string := match k with VText s => s | _ => sprint k end.

Fixpoint convertCBORTypes (v : value) : value :=
  match v with
  | VAnyMap m => VMap (fold_left (fun r kv => set_entry (key_text kv.1) (convertCBORTypes kv.2) r) m [])
  | VSlice l => VSlice (map convertCBORTypes l)
  | _ => v
  end.

(** [json.Marshal]: the JSON value of the text; [None] for an unsupported value. *)
Definition StdEncoding (s : string) : string :=
  let fix std s := match s with
    | EmptyString => EmptyString
    | String c s => String (if Ascii.eqb c "-" then "+" else if Ascii.eqb c "_" then "/" else c)%char (std s) end in
  std (EncodeToString s) +:+ match (glen s mod 3) with 1 => "==" | 2 => "=" | _ => "" end.

Fixpoint Marshal (v : value) : option json :=
  match v with
  | VNil => Some JNull
  | VBool b => Some (JBool b)
  | VInt z => Some (JNum (Num z 0))
  | VFloat n => JNum <$> n
  | VText s => Some (JStr s)
  | VBytes s => Some (JStr (StdEncoding s))
  | VTag n c => j ← Marshal c; Some (JObj (<["Number" := JNum (Num n 0)]> {["Content" := j]}))
  | VSlice l => JArr <$> (fix go l := match l with [] => Some [] | x :: l => j ← Marshal x; js ← go l; Some (j :: js) end) l
  | VAnyMap _ => None
  | VMap m => JObj <$> (fix go m := match m with
      | [] => Some ∅ | (k, x) :: m => j ← Marshal x; o ← go m; Some (<[k := j]> o) end) m
  end.

(** [CBORToJSON]; [decode] is the CBOR library, [render] the text of a value. *)
Definition CBORToJSON (decode : string -> option value) (render : json -> string) (data : string)
  : option string :=
  v ← decode data; j ← Marshal (convertCBORTypes v); Some (render j).
End Convert.

(** A link of a record is tag 42 in CBOR. It becomes an object without the
    [$link] field that the link has in the JSON of every other source, and a map
    inside a tag cannot be converted at all. *)
Example link_without_link (sprint : value -> string) :
  let link := VTag 42 (VBytes (String (ascii_of_nat 0) "cid")) in
  exists o, (v ← Some (VAnyMap [(VText "ref", link)]); Marshal (convertCBORTypes sprint v)) =
      Some (JObj {["ref" := JObj o]}) /\
    o !! "$link" = None /\ o !! "Content" = Some (JStr "AGNpZA==").
Proof. eexists. split; [reflexivity|]. by split. Qed.
Example map_in_tag (sprint : value -> string) :
  Marshal (convertCBORTypes sprint (VTag 1 (VAnyMap []))) = None.
Proof. reflexivity. Qed.
