(* ===== verification/RecordBackfill.v ===== *)
(** [internal/backfill/backfill.go]: the historical backfill of one repository, as a
    downloaded file or record by record, the two entry points around it, and the
    whole run over the network. Timestamps of [internal/atproto/time.go]. *)
From S2P Require Import Prelude GoStrings Utf8 AtProto Json Registry Validator Ingestion RecordStore.
From S2P Require Import RepoClient Records OAuth.

Local Open Scope Z_scope.

(** ** Timestamps of records *)

Section Timestamps.
(** [time.Parse], and [json.Unmarshal] into a map. *)
Context (parse : string -> string -> option instant) (unmarshal : string -> option obj).

Definition TimestampFormats : list string :=
  ["2006-01-02T15:04:05.999999999Z07:00"; "2006-01-02T15:04:05Z07:00";
   "2006-01-02T15:04:05.999999Z07:00"; "2006-01-02T15:04:05.999999Z"; "2006-01-02T15:04:05";
   "2006-01-02 15:04:05.999999-07"; "2006-01-02 15:04:05.999999+00"; "2006-01-02 15:04:05.999999";
   "2006-01-02 15:04:05-07"; "2006-01-02 15:04:05+00"; "2006-01-02 15:04:05"].
Definition createdAtFields : list string :=
  ["createdAt"; "$createdAt"; "created_at"; "timestamp"; "indexedAt"].

Fixpoint first_some {A B} (f : A -> option B) (l : list A) : option B :=
  match l with [] => None | x :: l => match f x with Some y => Some y | None => first_some f l end end.

(** The zero time when no format matches. *)
Definition ParseTimestamp (s : string) : instant :=
  default 0 (first_some (fun format => parse format s) TimestampFormats).

Definition ExtractCreatedAt (recordJSON : string) (fallback : instant) : instant :=
  match unmarshal recordJSON with
  | None => fallback
  | Some data =>
      default fallback (first_some (fun field =>
        match data !! field with
        | Some (JStr val) => let t := ParseTimestamp val in if IsZero t then None else Some t
        | _ => None
        end) createdAtFields)
  end.
End Timestamps.

(** ** State *)

Record Stats := {
  ReposDiscovered : Z; ReposProcessed : Z; RecordsInserted : Z; RecordsSkipped : Z; Errors : Z
}.
Definition no_stats : Stats :=
  {| ReposDiscovered := 0; ReposProcessed := 0; RecordsInserted := 0; RecordsSkipped := 0; Errors := 0 |}.

(** [atomic.AddInt64] on one of the counters. *)
Definition add_processed (s : Stats) : Stats :=
  {| ReposDiscovered := ReposDiscovered s; ReposProcessed := wrap64 (ReposProcessed s + 1);
     RecordsInserted := RecordsInserted s; RecordsSkipped := RecordsSkipped s; Errors := Errors s |}.
Definition add_inserted (n : Z) (s : Stats) : Stats :=
  {| ReposDiscovered := ReposDiscovered s; ReposProcessed := ReposProcessed s;
     RecordsInserted := wrap64 (RecordsInserted s + n); RecordsSkipped := RecordsSkipped s; Errors := Errors s |}.
Definition add_skipped (n : Z) (s : Stats) : Stats :=
  {| ReposDiscovered := ReposDiscovered s; ReposProcessed := ReposProcessed s;
     RecordsInserted := RecordsInserted s; RecordsSkipped := wrap64 (RecordsSkipped s + n); Errors := Errors s |}.
Definition add_error (s : Stats) : Stats :=
  {| ReposDiscovered := ReposDiscovered s; ReposProcessed := ReposProcessed s;
     RecordsInserted := RecordsInserted s; RecordsSkipped := RecordsSkipped s; Errors := wrap64 (Errors s + 1) |}.

(** A row of the activity log. *)
Record ActivityEntry := {
  ae_Timestamp : instant; ae_Operation : string; ae_Collection : string; ae_DID : string;
  ae_RKey : string; ae_EventJSON : string; ae_Status : string
}.

(** What the backfill changes: the records, the log, the counters, and the free
    slots of the semaphore over HTTP requests. *)
Record state := { st_table : table; st_log : list ActivityEntry; st_stats : Stats; st_free : Z }.
Definition count (f : Stats -> Stats) (s : state) : state :=
  {| st_table := st_table s; st_log := st_log s; st_stats := f (st_stats s); st_free := st_free s |}.
Definition with_table (t : table) (s : state) : state :=
  {| st_table := t; st_log := st_log s; st_stats := st_stats s; st_free := st_free s |}.
Definition with_log (l : list ActivityEntry) (s : state) : state :=
  {| st_table := st_table s; st_log := l; st_stats := st_stats s; st_free := st_free s |}.

(** [b.httpSem <- struct{}{}], which blocks while no slot is free, and [<-b.httpSem]. *)
Definition acquire (s : state) : option state :=
  if 0 <? st_free s
  then Some {| st_table := st_table s; st_log := st_log s; st_stats := st_stats s; st_free := st_free s - 1 |}
  else None.
Definition release (s : state) : state :=
  {| st_table := st_table s; st_log := st_log s; st_stats := st_stats s; st_free := st_free s + 1 |}.

(** The part of [Backfiller] that stays fixed. *)
Record Backfiller := {
  Collections_ : list string; validator : option (Registry * unmarshaller); valMode : string;
  has_activityRepo : bool
}.

(** A call of the client: it answers or panics. *)
Inductive fetch (A : Type) := Answers (r : result client_error A) | Panics.
Arguments Answers {A} r.
Arguments Panics {A}.

(** What the processing of one repository meets. The reads before an insert see
    tables of their own, and other writers change the table before each insert. *)
Record repo_env := {
  e_car : fetch (list CARRecord);
  e_listing : string -> fetch (list ListRecordsRecord);
  e_cids : nat -> option table;
  e_existing : nat -> option table;
  e_before_batch : table -> table;
  e_batch : batch_env;
  e_before : string -> table -> table;   (* by the URI that is inserted next *)
  e_works : string -> bool;
  e_now : instant;
  e_log_works : string -> bool
}.

Section Repo.
Context `{ValidatorLib} (b : Backfiller).
(** [jsonb] is the cast of the database, [cbor_json] is [RepoClient.CBORToJSON]. *)
Context (jsonb : string -> bool) (cbor_json : string -> option string).
Context (parse : string -> string -> option instant) (unmarshal : string -> option obj).

Definition params_of (r : Record_) : InsertParams :=
  {| ip_URI := URI r; ip_CID := CID r; ip_DID := DID r; ip_Collection := Collection r;
     ip_JSONData := JSON r; ip_SortAt := None |}.

(** Records whose bytes do not convert are dropped. *)
Definition db_record (did : string) (rec : CARRecord) : option Record_ :=
  jsonStr ← cbor_json (c_Value rec);
  Some {| URI := c_URI rec; CID := c_CID rec; DID := did; Collection := c_Collection rec;
          JSON := jsonStr; IndexedAt := 0; RKey := c_RKey rec; PDS := "" |}.

(** Validation lets a record through, also an invalid one outside enforce mode. *)
Definition accepts (collection json : string) : bool :=
  match validator b with
  | Some (registry, unm) =>
      if negb (String.eqb (valMode b) "disabled") then
        Valid (Validate registry unm collection json) || negb (String.eqb (valMode b) "enforce")
      else true
  | None => true
  end.

(** [LogActivityWithStatus] for an inserted record; an error is only logged. *)
Definition event_json (json : string) : string := if is_empty (TrimSpace json) then "null" else json.
Definition log_inserted (works : bool) (now : instant) (collection did rkey json : string) (s : state) : state :=
  if has_activityRepo b && works then
    with_log (st_log s ++ [{| ae_Timestamp := ExtractCreatedAt parse unmarshal json now;
                              ae_Operation := "create"; ae_Collection := collection; ae_DID := did;
                              ae_RKey := rkey; ae_EventJSON := event_json json; ae_Status := "success" |}]) s
  else s.

(** ** Duplicates *)

Definition dedup_keeps (byURI : gmap string string) (existing : gset string) (r : Record_) : bool :=
  match byURI !! URI r with
  | Some existingCID =>
      if String.eqb existingCID (CID r) then false else negb (bool_decide (CID r ∈ existing))
  | None => negb (bool_decide (CID r ∈ existing))
  end.

(** The records to insert and the number skipped. *)
Definition filterByExistingCIDs (env : repo_env) (records : list Record_) : list Record_ * Z :=
  match records with
  | [] => ([], 0)
  | _ =>
      match GetCIDsByURIs (e_cids env) (URI <$> records) with
      | None => (records, 0)
      | Some byURI =>
          let existing := default ∅ (GetExistingCIDs (e_existing env) (dedup_go ∅ (CID <$> records))) in
          let kept := List.filter (dedup_keeps byURI existing) records in
          (kept, Z.of_nat (length records) - Z.of_nat (length kept))
      end
  end.

(** ** One repository *)

(** The number of records inserted, or a panic. *)
Inductive task_end := Done (count : Z) | Panicked.

Definition extractRKeyFromURI (uri : string) : string :=
  let parts := split uri "/" in
  if (5 <=? length parts)%nat then List.last parts "" else "".

(** One record of a listing: the state, and whether it was inserted. *)
Definition legacy_record (env : repo_env) (did collection : string) (rec : ListRecordsRecord) (s : state)
  : state * bool :=
  if negb (accepts collection (lr_Value rec)) then (count (add_skipped 1) s, false)
  else
    match Insert jsonb (e_works env (lr_URI rec)) (e_now env) (e_before env (lr_URI rec) (st_table s))
            (lr_URI rec) (lr_CID rec) did collection (lr_Value rec) with
    | (Err _, t) => (count add_error (with_table t s), false)
    | (Ok Skipped, t) => (with_table t s, false)
    | (Ok Inserted, t) =>
        (log_inserted (e_log_works env (lr_URI rec)) (e_now env) collection did
           (extractRKeyFromURI (lr_URI rec)) (lr_Value rec) (count (add_inserted 1) (with_table t s)), true)
    end.
Fixpoint legacy_records (env : repo_env) (did collection : string) (recs : list ListRecordsRecord)
    (s : state) (total : Z) : state * Z :=
  match recs with
  | [] => (s, total)
  | rec :: recs =>
      let '(s', ins) := legacy_record env did collection rec s in
      legacy_records env did collection recs s' (if ins then total + 1 else total)
  end.

(** [None] when the semaphore has no free slot. *)
Fixpoint legacy_collections (env : repo_env) (did : string) (collections : list string) (s : state) (total : Z)
  : option (task_end * state) :=
  match collections with
  | [] => Some (Done total, count add_processed s)
  | collection :: collections =>
      s1 ← acquire s;
      match e_listing env collection with
      | Panics => Some (Panicked, s1)
      | Answers (Err _) => legacy_collections env did collections (count add_error (release s1)) total
      | Answers (Ok records) =>
          let '(s2, total') := legacy_records env did collection records (release s1) total in
          legacy_collections env did collections s2 total'
      end
  end.
Definition processRepoLegacy (env : repo_env) (data : AtprotoData) (s : state) : option (task_end * state) :=
  legacy_collections env (a_DID data) (Collections_ b) s 0.

Fixpoint log_all (env : repo_env) (recs : list Record_) (s : state) : state :=
  match recs with
  | [] => s
  | r :: recs =>
      log_all env recs (log_inserted (e_log_works env (URI r)) (e_now env) (Collection r) (DID r) (RKey r) (JSON r) s)
  end.

Definition processRepo (env : repo_env) (data : AtprotoData) (s : state) : option (task_end * state) :=
  s1 ← acquire s;
  match e_car env with
  | Panics => Some (Panicked, s1)
  | Answers (Err _) => processRepoLegacy env data (release s1)
  | Answers (Ok carRecords) =>
      let s2 := release s1 in
      match omap (db_record (a_DID data)) carRecords with
      | [] => Some (Done 0, count add_processed s2)
      | dbRecords =>
          let '(filtered, skipped) := filterByExistingCIDs env dbRecords in
          let valid := List.filter (fun r => accepts (Collection r) (JSON r)) filtered in
          let s3 := count (add_skipped (Z.of_nat (length filtered) - Z.of_nat (length valid)))
                      (count (add_skipped skipped) s2) in
          match valid with
          | [] => Some (Done 0, count add_processed s3)
          | _ =>
              match BatchInsert jsonb (e_batch env) (params_of <$> valid) (e_before_batch env (st_table s3)) with
              | (Err _, t) => Some (Done 0, count add_processed (count add_error (with_table t s3)))
              | (Ok _, t) =>
                  let n := Z.of_nat (length valid) in
                  Some (Done n, count add_processed (log_all env valid (count (add_inserted n) (with_table t s3))))
              end
          end
      end
  end.

(** [safeProcessRepo]: a panic is an error and no records. *)
Definition safeProcessRepo (env : repo_env) (data : AtprotoData) (s : state) : option (Z * state) :=
  match processRepo env data s with
  | None => None
  | Some (Done n, s') => Some (n, s')
  | Some (Panicked, s') => Some (0, count add_error s')
  end.

(** ** One actor ([BackfillActor]) *)

Inductive actor_end := ActorDone (count : Z) | ActorFailed | ActorPanicked.

Definition actor_record (env : repo_env) (did collection : string) (rec : ListRecordsRecord) (s : state)
  : state * bool :=
  match Insert jsonb (e_works env (lr_URI rec)) (e_now env) (e_before env (lr_URI rec) (st_table s))
          (lr_URI rec) (lr_CID rec) did collection (lr_Value rec) with
  | (Err _, t) | (Ok Skipped, t) => (with_table t s, false)
  | (Ok Inserted, t) =>
      (log_inserted (e_log_works env (lr_URI rec)) (e_now env) collection did
         (extractRKeyFromURI (lr_URI rec)) (lr_Value rec) (with_table t s), true)
  end.
Fixpoint actor_records (env : repo_env) (did collection : string) (recs : list ListRecordsRecord)
    (s : state) (total : Z) : state * Z :=
  match recs with
  | [] => (s, total)
  | rec :: recs =>
      let '(s', ins) := actor_record env did collection rec s in
      actor_records env did collection recs s' (if ins then total + 1 else total)
  end.
Fixpoint actor_collections (env : repo_env) (did : string) (collections : list string) (s : state) (total : Z)
  : actor_end * state :=
  match collections with
  | [] => (ActorDone total, s)
  | collection :: collections =>
      match e_listing env collection with
      | Panics => (ActorPanicked, s)
      | Answers (Err _) => actor_collections env did collections s total
      | Answers (Ok records) =>
          let '(s', total') := actor_records env did collection records s total in
          actor_collections env did collections s' total'
      end
  end.
Definition backfillActorLegacy (env : repo_env) (data : AtprotoData) (s : state) : actor_end * state :=
  actor_collections env (a_DID data) (Collections_ b) s 0.

(** [resolved] is the answer of [ResolveDID]; the actor's own row is not part of
    the state. *)
Definition BackfillActor (env : repo_env) (resolved : result client_error AtprotoData) (s : state)
  : actor_end * state :=
  match resolved with
  | Err _ => (ActorFailed, s)
  | Ok data =>
      match e_car env with
      | Panics => (ActorPanicked, s)
      | Answers (Err _) => backfillActorLegacy env data s
      | Answers (Ok carRecords) =>
          match omap (db_record (a_DID data)) carRecords with
          | [] => (ActorDone 0, s)
          | dbRecords =>
              match (filterByExistingCIDs env dbRecords).1 with
              | [] => (ActorDone 0, s)
              | filtered =>
                  match BatchInsert jsonb (e_batch env) (params_of <$> filtered) (e_before_batch env (st_table s)) with
                  | (Err _, t) => (ActorFailed, with_table t s)
                  | (Ok _, t) =>
                      (ActorDone (Z.of_nat (length filtered)), log_all env filtered (with_table t s))
                  end
              end
          end
      end
  end.

(** ** What is kept of duplicates *)

Definition quiet_reads (env : repo_env) (t : table) : Prop :=
  (forall i, e_cids env i = Some t) /\ (forall i, e_existing env i = Some t).

(** With both lookups, the records kept are those whose content is nowhere in the
    table, and every record is kept or counted. *)
Lemma filter_keeps env t records : quiet_reads env t ->
  filterByExistingCIDs env records =
    (List.filter (fun r => negb (has_cid t (CID r))) records,
     Z.of_nat (length (List.filter (fun r => has_cid t (CID r)) records))).
Proof.
  intros [Hc He].
  assert (filterByExistingCIDs env records =
    match GetCIDsByURIs (e_cids env) (URI <$> records) with
    | None => (records, 0)
    | Some byURI =>
        let existing := default ∅ (GetExistingCIDs (e_existing env) (dedup_go ∅ (CID <$> records))) in
        let kept := List.filter (dedup_keeps byURI existing) records in
        (kept, Z.of_nat (length records) - Z.of_nat (length kept))
    end) as -> by (by destruct records).
  destruct (GetCIDsByURIs_spec (e_cids env) t (URI <$> records) Hc) as (m & -> & Hm).
  destruct (GetExistingCIDs_spec (e_existing env) t (dedup_go ∅ (CID <$> records)) He) as (ex & -> & Hex).
  assert (forall r, r ∈ records -> dedup_keeps m ex r = negb (has_cid t (CID r))) as Hk.
  { intros r Hr. assert (bool_decide (CID r ∈ ex) = has_cid t (CID r)) as Hb.
    { apply eq_true_iff_eq. rewrite bool_decide_eq_true, Hex. split; [by intros [_ ?]|].
      intros ?. split; [|done]. apply (proj2 (dedup_go_spec (CID <$> records) ∅)).
      split; [by apply list_elem_of_fmap_2|set_solver]. }
    unfold dedup_keeps. rewrite Hm, Hb, decide_True by (by apply list_elem_of_fmap_2).
    destruct (t !! URI r) as [w|] eqn:Hw; [|done]. cbn.
    destruct (String.eqb_spec (w_cid w) (CID r)) as [Heq|]; [|done].
    symmetry. apply negb_false_iff, has_cid_spec. eauto. }
  change (default ∅ (Some ex)) with ex. cbv zeta.
  assert (List.filter (dedup_keeps m ex) records = List.filter (fun r => negb (has_cid t (CID r))) records) as ->.
  { clear -Hk. induction records as [|r rs IH]; [done|]. cbn. rewrite Hk by left.
    rewrite IH; [done|]. intros r' Hr'. apply Hk. by right. }
  f_equal. clear. induction records as [|r rs IH]; [done|]. cbn.
  destruct (has_cid t (CID r)); cbn [negb length]; lia.
Qed.

(** ** A quiet backfill of one repository *)

(** The answers while nothing fails and nobody else writes. *)
Record quiet (env : repo_env) (t : table) : Prop := {
  q_reads : quiet_reads env t;
  q_batch : all_works (e_batch env);
  q_before : forall t, e_before_batch env t = t
}.

(** The records of a downloaded repository, those that are new, and of these the
    ones that are stored. *)
Definition db_records (did : string) (recs : list CARRecord) : list Record_ := omap (db_record did) recs.
Definition fresh (t : table) (dbs : list Record_) : list Record_ :=
  List.filter (fun r => negb (has_cid t (CID r))) dbs.
Definition stored (t : table) (dbs : list Record_) : list Record_ :=
  List.filter (fun r => accepts (Collection r) (JSON r)) (fresh t dbs).

Lemma stored_elem t dbs r : r ∈ stored t dbs <->
  r ∈ dbs /\ has_cid t (CID r) = false /\ accepts (Collection r) (JSON r) = true.
Proof.
  unfold stored, fresh. rewrite !list_elem_of_In, !filter_In, negb_true_iff. tauto.
Qed.

Lemma NoDup_filter_fmap {A B} (g : A -> B) (f : A -> bool) l : NoDup (g <$> l) -> NoDup (g <$> List.filter f l).
Proof.
  induction l as [|x l IH]; [done|]. cbn. rewrite NoDup_cons. intros [Hx Hl].
  destruct (f x); [|by apply IH]. cbn. rewrite NoDup_cons. split; [|by apply IH].
  intros (y & Hy & Hyl)%list_elem_of_fmap. apply Hx. rewrite Hy. apply list_elem_of_fmap_2.
  rewrite list_elem_of_In in *. by apply filter_In in Hyl as [? _].
Qed.

Lemma stored_nodup t dbs : NoDup (URI <$> dbs) -> NoDup (ip_URI <$> (params_of <$> stored t dbs)).
Proof.
  intros Hd. rewrite <-list_fmap_compose. by apply (NoDup_filter_fmap URI), (NoDup_filter_fmap URI).
Qed.

Lemma log_all_keeps env recs : forall s, let s' := log_all env recs s in
  st_table s' = st_table s /\ st_stats s' = st_stats s /\ st_free s' = st_free s.
Proof.
  induction recs as [|r recs IH]; intros s; [done|]. cbn [log_all]. destruct (IH (log_inserted
    (e_log_works env (URI r)) (e_now env) (Collection r) (DID r) (RKey r) (JSON r) s)) as (-> & -> & ->).
  unfold log_inserted. by destruct (_ && _).
Qed.

Definition stats_ok (s : Stats) : Prop :=
  in_int64 (ReposProcessed s) /\ in_int64 (RecordsInserted s) /\ in_int64 (RecordsSkipped s) /\ in_int64 (Errors s).
Definition counted (processed inserted skipped : Z) (s : Stats) : Stats :=
  {| ReposDiscovered := ReposDiscovered s; ReposProcessed := wrap64 (ReposProcessed s + processed);
     RecordsInserted := wrap64 (RecordsInserted s + inserted);
     RecordsSkipped := wrap64 (RecordsSkipped s + skipped); Errors := Errors s |}.

(** The result of a quiet run. *)
Lemma processRepo_quiet env data s recs : let t := st_table s in let dbs := db_records (a_DID data) recs in
  e_car env = Answers (Ok recs) -> quiet env t -> NoDup (URI <$> dbs) ->
  Forall (fun r => jsonb (JSON r) = true) dbs -> 0 < st_free s -> stats_ok (st_stats s) ->
  exists s', processRepo env data s = Some (Done (Z.of_nat (length (stored t dbs))), s') /\
    st_table s' = puts (b_now (e_batch env)) (params_of <$> stored t dbs) t /\
    st_free s' = st_free s /\
    st_stats s' = counted 1 (Z.of_nat (length (stored t dbs)))
                    (Z.of_nat (length dbs) - Z.of_nat (length (stored t dbs))) (st_stats s).
Proof.
  intros t dbs Hcar [Hq Hb Hbe] Hd Hj Hfree (Hp & Hi & Hk & _).
  pose proof (stored_nodup t dbs Hd) as Hsd.
  assert (Forall (fun p => jsonb (ip_JSONData p) = true) (params_of <$> stored t dbs)) as Hsj.
  { rewrite Forall_fmap, Forall_forall in *. intros r Hr. apply Hj. by apply stored_elem in Hr as (? & _). }
  unfold processRepo, acquire. destruct (0 <? st_free s) eqn:Hf; [|lia]. cbn [mbind option_bind].
  rewrite Hcar. fold (db_records (a_DID data) recs). fold dbs.
  assert (Hfr : forall x, x - 1 + 1 = x) by lia.
  destruct dbs as [|r0 rs] eqn:Hdbs.
  { eexists. split; [reflexivity|]. cbn. split_and!; [done|by rewrite Hfr|].
    unfold counted, add_processed. f_equal; cbn; rewrite Z.add_0_r; by rewrite wrap64_id. }
  rewrite (filter_keeps env t) by done. rewrite <-Hdbs in *.
  fold (fresh t dbs). fold (stored t dbs).
  assert (Z.of_nat (length (List.filter (fun r => has_cid t (CID r)) dbs)) =
          Z.of_nat (length dbs) - Z.of_nat (length (fresh t dbs))) as ->.
  { unfold fresh. clear. induction dbs as [|r rs IH]; [done|]. cbn. destruct (has_cid t (CID r)); cbn [negb length]; lia. }
  destruct (stored t dbs) as [|v vs] eqn:Hv.
  - eexists. split; [reflexivity|]. cbn. split_and!; [done|by rewrite Hfr|].
    unfold counted, add_processed, add_skipped. f_equal; cbn;
      rewrite ?wrap64_add, ?Z.add_0_r, ?wrap64_id by done; [done|]. f_equal. lia.
  - rewrite <-Hv in *. rewrite Hbe, BatchInsert_works by done. cbn [st_table count release with_table].
    eexists. split; [reflexivity|].
    match goal with |- context [log_all env ?l ?x] => destruct (log_all_keeps env l x) as (Ht & Hs & Hfq) end.
    cbn [count st_table st_free st_stats]. rewrite Ht, Hs, Hfq. cbn. split_and!; [done|by rewrite Hfr|].
    unfold counted, add_processed, add_inserted, add_skipped. f_equal; cbn; rewrite ?wrap64_add; f_equal; lia.
Qed.

(** A stored record is in the table under its URI. *)
Lemma stored_rows now t dbs r : NoDup (URI <$> dbs) -> r ∈ stored t dbs ->
  exists w, puts now (params_of <$> stored t dbs) t !! URI r = Some w /\ w_cid w = CID r /\ w_json w = JSON r.
Proof.
  intros Hd Hr. destruct (puts_lookup now (params_of <$> stored t dbs) t (stored_nodup t dbs Hd)) as [Hin _].
  specialize (Hin (params_of r) ltac:(by apply list_elem_of_fmap_2)).
  change (ip_URI (params_of r)) with (URI r) in Hin. rewrite Hin. unfold upsert. cbn [params_of ip_URI ip_CID].
  apply stored_elem in Hr as (_ & Hn & _). destruct (t !! URI r) as [old|] eqn:Ho; [|by eexists].
  destruct (String.eqb_spec (w_cid old) (CID r)) as [He|]; [|by eexists].
  rewrite (proj2 (has_cid_spec t (CID r))) in Hn by eauto. done.
Qed.

(** With no failures and no other writer, the backfill of a downloaded
    repository stores exactly the records of it that validation lets through and
    whose content is nowhere in the index, each under its own URI, leaves every
    other row alone, gives the HTTP slot back, and counts every record it
    converted as inserted or skipped. *)
Theorem processRepo_stores env data s recs : let t := st_table s in let dbs := db_records (a_DID data) recs in
  e_car env = Answers (Ok recs) -> quiet env t -> NoDup (URI <$> dbs) ->
  Forall (fun r => jsonb (JSON r) = true) dbs -> 0 < st_free s -> stats_ok (st_stats s) ->
  exists s' n, processRepo env data s = Some (Done n, s') /\ n = Z.of_nat (length (stored t dbs)) /\
    (forall r, r ∈ dbs -> has_cid t (CID r) = false -> accepts (Collection r) (JSON r) = true ->
       exists w, st_table s' !! URI r = Some w /\ w_cid w = CID r /\ w_json w = JSON r) /\
    (forall u, (forall r, r ∈ dbs -> URI r = u -> has_cid t (CID r) = true \/ accepts (Collection r) (JSON r) = false) ->
       st_table s' !! u = t !! u) /\
    st_free s' = st_free s /\ st_stats s' = counted 1 n (Z.of_nat (length dbs) - n) (st_stats s).
Proof.
  intros t dbs Hcar Hq Hd Hj Hf Hs. destruct (processRepo_quiet env data s recs Hcar Hq Hd Hj Hf Hs)
    as (s' & Heq & Ht & Hfree & Hst). fold t dbs in Heq, Ht, Hst.
  exists s', (Z.of_nat (length (stored t dbs))). split_and!; try done.
  - intros r Hr Hc Ha. rewrite Ht. apply stored_rows; [done|]. by apply stored_elem.
  - intros u Hu. rewrite Ht. apply (puts_lookup _ _ _ (stored_nodup t dbs Hd)).
    rewrite <-list_fmap_compose. intros (r & -> & Hr)%list_elem_of_fmap.
    apply stored_elem in Hr as (Hr & Hc & Ha). destruct (Hu r Hr eq_refl); congruence.
Qed.

(** A repository that was backfilled without overwriting a row is not written
    again: the same download after it inserts nothing and leaves the table as it
    is. *)
Theorem second_run_idle env env2 data s s' recs n : let t := st_table s in let dbs := db_records (a_DID data) recs in
  e_car env = Answers (Ok recs) -> quiet env t -> NoDup (URI <$> dbs) ->
  Forall (fun r => jsonb (JSON r) = true) dbs -> 0 < st_free s -> stats_ok (st_stats s) ->
  (forall r, r ∈ dbs -> has_cid t (CID r) = false -> t !! URI r = None) ->
  processRepo env data s = Some (Done n, s') ->
  e_car env2 = Answers (Ok recs) -> quiet env2 (st_table s') ->
  exists s2, processRepo env2 data s' = Some (Done 0, s2) /\ st_table s2 = st_table s'.
Proof.
  intros t dbs Hcar Hq Hd Hj Hf Hs Hnew Hrun Hcar2 Hq2.
  destruct (processRepo_quiet env data s recs Hcar Hq Hd Hj Hf Hs) as (s1 & Heq & Ht & Hfree & Hst).
  rewrite Hrun in Heq. injection Heq as -> <-. fold t dbs in Ht, Hst.
  destruct (processRepo_quiet env2 data s' recs Hcar2 Hq2 Hd Hj) as (s2 & Heq2 & Ht2 & _ & _).
  { by rewrite Hfree. }
  { rewrite Hst. destruct Hs as (_ & _ & _ & He). unfold stats_ok. cbn. auto using wrap64_range. }
  assert (stored (st_table s') dbs = []) as Hnil.
  { destruct (stored (st_table s') dbs) as [|r rs] eqn:Hst'; [done|exfalso].
    assert (r ∈ stored (st_table s') dbs) as Hr by (rewrite Hst'; left).
    apply stored_elem in Hr as (Hr & Hc & Ha). destruct (has_cid t (CID r)) eqn:Hct.
    - apply has_cid_spec in Hct as (u & w & Hu & Hw).
      enough (has_cid (st_table s') (CID r) = true) by congruence. apply has_cid_spec. exists u, w. split; [|done].
      rewrite Ht. rewrite (proj2 (puts_lookup _ _ _ (stored_nodup t dbs Hd))); [done|].
      rewrite <-list_fmap_compose. intros (q & -> & Hqs)%list_elem_of_fmap. apply stored_elem in Hqs as (Hqd & Hqc & _).
      pose proof (Hnew q Hqd Hqc) as Hno. change (params_of q).(ip_URI) with (URI q) in Hu. cbn in Hu. congruence.
    - assert (r ∈ stored t dbs) as Hrs by (by apply stored_elem).
      destruct (stored_rows (b_now (e_batch env)) t dbs r Hd Hrs) as (w & Hw & Hwc & _). rewrite <-Ht in Hw.
      rewrite (proj2 (has_cid_spec _ _)) in Hc by eauto. done. }
  fold dbs in Heq2, Ht2. rewrite Hnil in Heq2, Ht2. by exists s2.
Qed.

(** ** The semaphore *)

Lemma legacy_records_free env did c recs : forall s total,
  st_free (legacy_records env did c recs s total).1 = st_free s.
Proof.
  induction recs as [|rec recs IH]; intros s total; cbn [legacy_records]; [done|].
  destruct (legacy_record env did c rec s) as [s1 ins] eqn:Hl. rewrite IH. unfold legacy_record in Hl.
  destruct (accepts c (lr_Value rec)); cbn [negb] in Hl; [|by injection Hl as <- <-].
  destruct (Insert _ _ _ _ _ _ _ _ _) as [[[]|] t]; injection Hl as <- <-; try done.
  unfold log_inserted. by destruct (_ && _).
Qed.

Lemma acquire_some s : 0 < st_free s -> exists s1, acquire s = Some s1 /\ st_free s1 = st_free s - 1 /\
  st_table s1 = st_table s.
Proof. intros Hs. unfold acquire. destruct (0 <? st_free s) eqn:Hf; [by eexists|lia]. Qed.

Lemma legacy_collections_free env did cs : forall s total, 0 < st_free s ->
  exists r s', legacy_collections env did cs s total = Some (r, s') /\
    st_free s' = st_free s - match r with Panicked => 1 | Done _ => 0 end.
Proof.
  induction cs as [|c cs IH]; intros s total Hs; cbn [legacy_collections].
  { eexists _, _. split; [done|]. cbn. lia. }
  destruct (acquire_some s Hs) as (s1 & -> & Hf1 & _). cbn [mbind option_bind].
  destruct (e_listing env c) as [[recs|e]|].
  - destruct (legacy_records env did c recs (release s1) total) as [s2 total'] eqn:Hl.
    assert (st_free s2 = st_free s) as Hf2.
    { replace s2 with (legacy_records env did c recs (release s1) total).1 by (by rewrite Hl).
      rewrite legacy_records_free. cbn. lia. }
    destruct (IH s2 total' ltac:(lia)) as (r & s' & -> & Hr). exists r, s'. split; [done|]. lia.
  - destruct (IH (count add_error (release s1)) total) as (r & s' & -> & Hr); [cbn; lia|].
    exists r, s'. split; [done|]. cbn in Hr. lia.
  - eexists _, _. split; [done|]. cbn. lia.
Qed.

(** Every slot is given back unless the client panics, which loses one for good;
    the processing waits exactly when none is free. *)
Lemma processRepo_slots env data s :
  (processRepo env data s = None <-> st_free s <= 0) /\
  forall r s', processRepo env data s = Some (r, s') ->
    st_free s' = st_free s - match r with Panicked => 1 | Done _ => 0 end.
Proof.
  destruct (Z_lt_le_dec 0 (st_free s)) as [Hs|Hs]; last first.
  { unfold processRepo, acquire. destruct (0 <? st_free s) eqn:Hf; [lia|]. by split. }
  destruct (acquire_some s Hs) as (s1 & Ha & Hf1 & _).
  enough (exists r s', processRepo env data s = Some (r, s') /\
    st_free s' = st_free s - match r with Panicked => 1 | Done _ => 0 end) as (r & s' & Heq & Hr).
  { rewrite Heq. split; [split; [done|lia]|]. by intros ? ? [= <- <-]. }
  unfold processRepo. rewrite Ha. cbn [mbind option_bind].
  destruct (e_car env) as [[recs|e]|]; [| |eexists _, _; split; [done|cbn; lia]].
  - destruct (omap (db_record (a_DID data)) recs); [eexists _, _; split; [done|cbn; lia]|].
    destruct (filterByExistingCIDs _ _) as [filtered sk].
    destruct (List.filter _ filtered); [eexists _, _; split; [done|cbn; lia]|].
    destruct (BatchInsert _ _ _ _) as [[] t]; eexists _, _; (split; [done|]); [|cbn; lia].
    cbn [count st_free].
    match goal with |- context [log_all env ?l ?x] => destruct (log_all_keeps env l x) as (_ & _ & ->) end. cbn; lia.
  - destruct (legacy_collections_free env (a_DID data) (Collections_ b) (release s1) 0) as (r & s' & Heq & Hr); [cbn; lia|].
    exists r, s'. split; [exact Heq|]. cbn in Hr. lia.
Qed.

(** ** The index stays filed and validated *)

Definition slash : ascii := "/".
Definition filed (u did collection : string) : Prop :=
  lacks slash did = true /\ lacks slash collection = true /\
  exists rkey, u = "at://" +:+ did +:+ "/" +:+ collection +:+ "/" +:+ rkey.
Definition validated (collection json : string) : Prop :=
  valMode b = "enforce" -> forall registry unm, validator b = Some (registry, unm) ->
  Valid (Validate registry unm collection json) = true.
Definition row_ok (u : string) (w : row) : Prop :=
  filed u (w_did w) (w_collection w) /\ validated (w_collection w) (w_json w).
Definition index_ok (t : table) : Prop := map_Forall row_ok t.
Definition params_ok (p : InsertParams) : Prop :=
  filed (ip_URI p) (ip_DID p) (ip_Collection p) /\ validated (ip_Collection p) (ip_JSONData p).

Lemma accepts_validated c json : accepts c json = true -> validated c json.
Proof.
  unfold accepts, validated. intros Ha Hm registry unm Hv. rewrite Hm, Hv in Ha. cbn in Ha.
  by rewrite orb_false_r in Ha.
Qed.

Lemma cut_app_lacks s t : lacks slash s = true -> cut_at slash (s +:+ "/" +:+ t) = Some (s, t).
Proof. apply (cut_at_first slash). Qed.

Lemma filed_unique u did did' c c' : filed u did c -> filed u did' c' -> did = did' /\ c = c'.
Proof.
  intros (Hd & Hc & k & ->) (Hd' & Hc' & k' & Heq). cbn in Heq. injection Heq as Heq.
  assert (Some (did, c +:+ "/" +:+ k) = Some (did', c' +:+ "/" +:+ k')) as [= -> Heq'].
  { rewrite <-!cut_app_lacks by done. by f_equal. }
  assert (Some (c, k) = Some (c', k')) as [= -> _]; [|done].
  rewrite <-!cut_app_lacks by done. by f_equal.
Qed.

Lemma put_ok now t p : index_ok t -> params_ok p -> index_ok (put now t p).
Proof.
  intros Ht [Hf Ha]. unfold put. destruct (upsert now t p) as [w|] eqn:Hu; [|done].
  apply map_Forall_insert_2; [|done]. unfold upsert in Hu. destruct (t !! ip_URI p) as [old|] eqn:Ho.
  - case_match; [done|]. injection Hu as <-. destruct (Ht _ _ Ho) as [Hfo _].
    destruct (filed_unique _ _ _ _ _ Hf Hfo) as [_ Hc]. split; cbn; [done|]. by rewrite <-Hc.
  - injection Hu as <-. by split.
Qed.

Lemma puts_ok now recs : forall t, index_ok t -> Forall params_ok recs -> index_ok (puts now recs t).
Proof.
  induction recs as [|p recs IH]; intros t Ht Hf; [done|]. inversion Hf; subst.
  cbn. apply IH; [by apply put_ok|done].
Qed.

Lemma Insert_ok works now t uri cid did c json : index_ok t -> filed uri did c -> validated c json ->
  index_ok (Insert jsonb works now t uri cid did c json).2.
Proof.
  intros Ht Hf Ha. unfold Insert, InsertWithParams. cbn [ip_JSONData]. destruct (_ && _); [|done].
  pose proof (put_ok now t {| ip_URI := uri; ip_CID := cid; ip_DID := did; ip_Collection := c;
       ip_JSONData := json; ip_SortAt := None |} Ht (conj Hf Ha)) as Hp. unfold put in Hp.
  by destruct (upsert _ _ _).
Qed.

Lemma BatchInsert_ok env recs t : index_ok t -> Forall params_ok recs -> index_ok (BatchInsert jsonb env recs t).2.
Proof.
  intros Ht Hf. pose proof (BatchInsert_spec jsonb env recs t) as Hs. cbv zeta in Hs.
  destruct (BatchInsert jsonb env recs t).1; [rewrite Hs|destruct Hs as [->|[_ ->]]]; auto using puts_ok.
Qed.

(** What the environment must be for it: other writers keep the index so, and the
    records of the download come out of [GetRepo]. *)
Record sound_env (env : repo_env) (did : string) : Prop := {
  se_did : lacks slash did = true;
  se_before : forall t, index_ok t -> index_ok (e_before_batch env t);
  se_before_one : forall u t, index_ok t -> index_ok (e_before env u t);
  se_car : forall recs, e_car env = Answers (Ok recs) ->
    exists entries, recs = omap (extract did (Collections_ b)) entries
}.
(** And of the fallback: the server lists records of the actor and the collection
    it was asked for. *)
Definition honest_listings (env : repo_env) (did : string) : Prop :=
  forall c recs, c ∈ Collections_ b -> e_listing env c = Answers (Ok recs) ->
  Forall (fun r => filed (lr_URI r) did c) recs.

Lemma db_records_filed env did recs : sound_env env did -> e_car env = Answers (Ok recs) ->
  Forall (fun r => filed (URI r) (DID r) (Collection r)) (db_records did recs).
Proof.
  intros [Hd _ _ Hc] Hcar. destruct (Hc recs Hcar) as [entries ->]. apply Forall_forall. intros r Hr.
  apply list_elem_of_omap in Hr as (cr & Hcr & Hr). apply list_elem_of_omap in Hcr as ([path bytes] & _ & Hx).
  apply extract_spec in Hx as (cid & v & _ & Hcut & _ & _ & _ & Hu).
  unfold db_record in Hr. destruct (cbor_json _); [|done]. injection Hr as <-. cbn. split_and!; [done| |].
  - clear -Hcut. revert Hcut. generalize (c_Collection cr), (c_RKey cr). induction path as [|x path IH]; intros c k; cbn; [done|].
    destruct (Ascii.eqb_spec x "/") as [->|Hx]; [by intros [= <- _]|].
    destruct (cut_at "/" path) as [[a d]|]; [|done]. intros [= <- <-]. specialize (IH _ _ eq_refl).
    unfold lacks in *. cbn. rewrite IH, andb_true_r. apply negb_true_iff, Z.eqb_neq. intros Hz. by apply Hx, zb_inj.
  - exists (c_RKey cr). apply cut_at_Some in Hcut. by rewrite Hu, Hcut.
Qed.

Lemma legacy_record_ok env did c rec s : sound_env env did -> filed (lr_URI rec) did c ->
  index_ok (st_table s) -> index_ok (st_table (legacy_record env did c rec s).1).
Proof.
  intros [_ _ Hb _] Hf Ht. unfold legacy_record. destruct (accepts c (lr_Value rec)) eqn:Ha; cbn [negb]; [|done].
  pose proof (Insert_ok (e_works env (lr_URI rec)) (e_now env) (e_before env (lr_URI rec) (st_table s))
                (lr_URI rec) (lr_CID rec) did c (lr_Value rec) ltac:(by apply Hb) Hf (accepts_validated _ _ Ha)) as Hi.
  destruct (Insert _ _ _ _ _ _ _ _ _) as [[[]|] t]; cbn in *; try done.
  unfold log_inserted. by destruct (_ && _).
Qed.

Lemma legacy_records_ok env did c recs : sound_env env did -> Forall (fun r => filed (lr_URI r) did c) recs ->
  forall s total, index_ok (st_table s) -> index_ok (st_table (legacy_records env did c recs s total).1).
Proof.
  intros Hs. induction 1 as [|rec recs Hr _ IH]; intros s total Ht; cbn [legacy_records]; [done|].
  pose proof (legacy_record_ok env did c rec s Hs Hr Ht) as H1. destruct (legacy_record env did c rec s). by apply IH.
Qed.

Lemma legacy_ok env did cs : sound_env env did ->
  (forall c recs, c ∈ cs -> e_listing env c = Answers (Ok recs) -> Forall (fun r => filed (lr_URI r) did c) recs) ->
  forall s total r s', index_ok (st_table s) -> legacy_collections env did cs s total = Some (r, s') ->
  index_ok (st_table s').
Proof.
  intros Hs. induction cs as [|c cs IH]; intros Hl s total r s' Ht; cbn [legacy_collections]; [by intros [= _ <-]|].
  unfold acquire. destruct (0 <? st_free s); [|done]. cbn [mbind option_bind].
  destruct (e_listing env c) as [[recs|e]|] eqn:He; [| |by intros [= _ <-]].
  - match goal with |- context [legacy_records env did c recs ?x total] =>
      pose proof (legacy_records_ok env did c recs Hs (Hl c recs ltac:(left) He) x total Ht) as H1;
      destruct (legacy_records env did c recs x total) as [s2 total'] end.
    apply IH; [|done]. intros ? ? ?. apply Hl. by right.
  - apply IH; [|done]. intros ? ? ?. apply Hl. by right.
Qed.

Lemma filter_sub env records x : x ∈ (filterByExistingCIDs env records).1 -> x ∈ records.
Proof.
  unfold filterByExistingCIDs. destruct records; [done|]. destruct (GetCIDsByURIs _ _); [|done]. cbn [fst].
  rewrite !list_elem_of_In, filter_In. by intros [? _].
Qed.

Lemma processRepo_ok env data s r s' : sound_env env (a_DID data) -> honest_listings env (a_DID data) ->
  index_ok (st_table s) -> processRepo env data s = Some (r, s') -> index_ok (st_table s').
Proof.
  intros Hs Hh Ht. unfold processRepo, acquire. destruct (0 <? st_free s); [|done]. cbn [mbind option_bind].
  destruct (e_car env) as [[recs|e]|] eqn:Hc; [|by apply legacy_ok|by intros [= _ <-]].
  pose proof (db_records_filed env _ recs Hs Hc) as Hf. unfold db_records in Hf.
  destruct (omap (db_record (a_DID data)) recs) as [|r0 dbs] eqn:Ho; [by intros [= _ <-]|].
  destruct (filterByExistingCIDs env (r0 :: dbs)) as [filtered sk] eqn:Hfl.
  set (valid := List.filter (fun r => accepts (Collection r) (JSON r)) filtered).
  assert (Forall params_ok (params_of <$> valid)) as Hv.
  { rewrite Forall_fmap, Forall_forall in *. intros x Hx. unfold valid in Hx. rewrite list_elem_of_In, filter_In in Hx.
    destruct Hx as [Hx Ha]. split; [|by apply accepts_validated]. apply Hf, (filter_sub env). by rewrite Hfl, list_elem_of_In. }
  clearbody valid. destruct valid as [|v vs]; [by intros [= _ <-]|].
  match goal with |- context [BatchInsert jsonb ?e ?l ?t0] =>
    pose proof (BatchInsert_ok e l t0 ltac:(by apply se_before with (a_DID data)) Hv) as Hb;
    destruct (BatchInsert jsonb e l t0) as [[] t] end;
  cbn in Hb; intros [= _ <-]; cbn [count st_table with_table]; [|done].
  match goal with |- context [log_all env ?l ?x] => destruct (log_all_keeps env l x) as (-> & _ & _) end.
  unfold log_inserted. by destruct (_ && _).
Qed.

(** ** The counter of repositories *)

Lemma legacy_records_processed env did c recs : forall s total,
  ReposProcessed (st_stats (legacy_records env did c recs s total).1) = ReposProcessed (st_stats s) /\
  ReposDiscovered (st_stats (legacy_records env did c recs s total).1) = ReposDiscovered (st_stats s).
Proof.
  induction recs as [|rec recs IH]; intros s total; cbn [legacy_records]; [done|].
  destruct (legacy_record env did c rec s) as [s1 ins] eqn:Hl.
  destruct (IH s1 (if ins then total + 1 else total)) as [-> ->]. unfold legacy_record in Hl.
  destruct (accepts c (lr_Value rec)); cbn [negb] in Hl; [|by injection Hl as <- <-].
  destruct (Insert _ _ _ _ _ _ _ _ _) as [[[]|] t]; injection Hl as <- <-; try done.
  unfold log_inserted. by destruct (_ && _).
Qed.

Definition one_processed (r : task_end) (s s' : state) : Prop :=
  ReposProcessed (st_stats s') =
    match r with Done _ => wrap64 (ReposProcessed (st_stats s) + 1) | Panicked => ReposProcessed (st_stats s) end /\
  ReposDiscovered (st_stats s') = ReposDiscovered (st_stats s).

Lemma legacy_processed env did cs : forall s total r s',
  legacy_collections env did cs s total = Some (r, s') -> one_processed r s s'.
Proof.
  induction cs as [|c cs IH]; intros s total r s'; cbn [legacy_collections]; [by intros [= <- <-]|].
  unfold acquire. destruct (0 <? st_free s); [|done]. cbn [mbind option_bind].
  destruct (e_listing env c) as [[recs|e]|]; [| |by intros [= <- <-]].
  - match goal with |- context [legacy_records env did c recs ?x total] =>
      destruct (legacy_records_processed env did c recs x total) as [H1 H2];
      destruct (legacy_records env did c recs x total) as [s2 total'] end.
    intros [E1 E2]%IH. cbn in H1, H2. unfold one_processed. by rewrite E1, E2, H1, H2.
  - intros [E1 E2]%IH. unfold one_processed. by rewrite E1, E2.
Qed.

Lemma processRepo_processed env data s r s' : processRepo env data s = Some (r, s') -> one_processed r s s'.
Proof.
  unfold processRepo, acquire. destruct (0 <? st_free s); [|done]. cbn [mbind option_bind].
  destruct (e_car env) as [[recs|e]|]; [|by apply legacy_processed|by intros [= <- <-]].
  destruct (omap (db_record (a_DID data)) recs) as [|r0 dbs]; [by intros [= <- <-]|].
  destruct (filterByExistingCIDs env (r0 :: dbs)) as [filtered sk].
  destruct (List.filter _ filtered) as [|v vs]; [by intros [= <- <-]|].
  match goal with |- context [BatchInsert jsonb ?e ?l ?t0] => destruct (BatchInsert jsonb e l t0) as [[] t] end;
    intros [= <- <-]; [|done]. unfold one_processed. cbn [count st_stats log_all].
  match goal with |- context [log_all env ?l ?x] => destruct (log_all_keeps env l x) as (_ & -> & _) end.
  unfold log_inserted. by destruct (_ && _).
Qed.
End Repo.

(** ** The whole run *)

(** [DefaultConfig] and [NewConfigFromApp]. *)
Record Config := {
  RelayURL : string; PLCURL : string; cfg_Collections : list string; MaxHTTPConcurrent : Z;
  MaxPDSWorkers : Z; MaxConcurrentPerPDS : Z; MaxConcurrentRepos : Z
}.
Definition DefaultConfig : Config :=
  {| RelayURL := DefaultRelayURL; PLCURL := DefaultPLCURL; cfg_Collections := []; MaxHTTPConcurrent := 50;
     MaxPDSWorkers := 10; MaxConcurrentPerPDS := 6; MaxConcurrentRepos := 50 |}.
Record AppConfig := {
  BackfillRelayURL : string; BackfillPLCURL : string; BackfillCollections : string;
  BackfillMaxHTTPConcurrent : Z; BackfillMaxPDSWorkers : Z; BackfillMaxPerPDS : Z; BackfillMaxRepos : Z
}.
Definition or_default (d s : string) : string := if is_empty s then d else s.
Definition or_positive (d n : Z) : Z := if 0 <? n then n else d.
Definition NewConfigFromApp (cfg : AppConfig) : Config :=
  let c := DefaultConfig in
  {| RelayURL := or_default (RelayURL c) (BackfillRelayURL cfg);
     PLCURL := or_default (PLCURL c) (BackfillPLCURL cfg);
     cfg_Collections := Collections.ParseCollections (BackfillCollections cfg);
     MaxHTTPConcurrent := or_positive (MaxHTTPConcurrent c) (BackfillMaxHTTPConcurrent cfg);
     MaxPDSWorkers := or_positive (MaxPDSWorkers c) (BackfillMaxPDSWorkers cfg);
     MaxConcurrentPerPDS := or_positive (MaxConcurrentPerPDS c) (BackfillMaxPerPDS cfg);
     MaxConcurrentRepos := or_positive (MaxConcurrentRepos c) (BackfillMaxRepos cfg) |}.

Lemma NewConfigFromApp_positive cfg : let c := NewConfigFromApp cfg in
  0 < MaxHTTPConcurrent c /\ 0 < MaxPDSWorkers c /\ 0 < MaxConcurrentPerPDS c /\ 0 < MaxConcurrentRepos c.
Proof.
  assert (forall d n, 0 < d -> 0 < or_positive d n) as H by (intros d n; unfold or_positive; destruct (0 <? n) eqn:?; lia).
  cbn. by split_and!; apply H.
Qed.

(** The identity of an actor, from the document of the cache ([oauth/did.go]). *)
Definition GetPDSEndpoint (d : PLCDocument) : string :=
  match List.find is_pds (Service d) with Some s => ServiceEndpoint s | None => "" end.
Definition GetHandle (d : PLCDocument) : string :=
  match List.find (fun aka => has_prefix aka "at://") (AlsoKnownAs d) with
  | Some aka => trim_prefix aka "at://" | None => "" end.
Definition data_of (did : string) (doc : PLCDocument) : AtprotoData :=
  {| a_DID := did;
     a_Handle := if is_empty (GetHandle doc) then did else GetHandle doc;
     a_PDS := if is_empty (GetPDSEndpoint doc) then "https://bsky.social" else GetPDSEndpoint doc |}.

Section Run.
Context `{ValidatorLib} (b : Backfiller) (jsonb : string -> bool) (cbor_json : string -> option string).
Context (parse : string -> string -> option instant) (unmarshal : string -> option obj).
(** The relay, the resolver over time, and what each repository meets. *)
Context (list_repos : string -> result client_error (list string)).
Context (world : Z -> string -> result string PLCDocument) (env_of : AtprotoData -> repo_env).
(** The orders in which the goroutines run: resolutions with the times of their
    two lookups, and repositories. *)
Context (resolution_order : gset string -> list (string * Z * Z)).
Context (task_order : list AtprotoData -> list AtprotoData).

(** Step 1: the repositories of all collections; a collection that cannot be
    listed is an error and is left out. *)
Fixpoint discover (collections : list string) (allRepos : gset string) (s : state) : gset string * state :=
  match collections with
  | [] => (allRepos, s)
  | c :: cs =>
      match list_repos c with
      | Err _ => discover cs allRepos (count add_error s)
      | Ok repos => discover cs (allRepos ∪ list_to_set repos) s
      end
  end.

(** Step 2: one lookup in the cache, another past it when that fails. *)
Definition resolve_one (c : OAuth.DidCache.DIDCache) (did : string) (t1 t2 : Z)
  : OAuth.DidCache.DIDCache * option PLCDocument :=
  let r1 := OAuth.DidCache.Get c t1 (world t1) did in
  match r1.2 with
  | Ok doc => (r1.1, Some doc)
  | Err _ =>
      let r2 := OAuth.DidCache.GetWithInvalidate r1.1 t2 (world t2) did true in
      (r2.1, match r2.2 with Ok doc => Some doc | Err _ => None end)
  end.

(** [groups] by the URL of the server. *)
Fixpoint resolve_all (order : list (string * Z * Z)) (c : OAuth.DidCache.DIDCache)
    (groups : gmap string (list AtprotoData)) (s : state) : gmap string (list AtprotoData) * state :=
  match order with
  | [] => (groups, s)
  | (did, t1, t2) :: order =>
      match resolve_one c did t1 t2 with
      | (c, None) => resolve_all order c groups (count add_error s)
      | (c, Some doc) =>
          let data := data_of did doc in
          resolve_all order c (<[a_PDS data := default [] (groups !! a_PDS data) ++ [data]]> groups) s
      end
  end.
Definition resolveAndGroupByPDS (repos : gset string) (c : OAuth.DidCache.DIDCache) (s : state) :=
  resolve_all (resolution_order repos) c ∅ s.

(** Step 3: every repository of every group. *)
Definition members (groups : gmap string (list AtprotoData)) : list AtprotoData :=
  concat (map_to_list groups).*2.
Fixpoint process_all (tasks : list AtprotoData) (s : state) (total : Z) : option (state * Z) :=
  match tasks with
  | [] => Some (s, total)
  | data :: tasks =>
      match safeProcessRepo b jsonb cbor_json parse unmarshal (env_of data) data s with
      | None => None
      | Some (n, s') => process_all tasks s' (total + n)
      end
  end.
Definition processReposByPDS (groups : gmap string (list AtprotoData)) (s : state) : option (state * Z) :=
  process_all (task_order (members groups)) s 0.

Definition discovered_stats (n : Z) (s : Stats) : Stats :=
  {| ReposDiscovered := n; ReposProcessed := ReposProcessed s; RecordsInserted := RecordsInserted s;
     RecordsSkipped := RecordsSkipped s; Errors := Errors s |}.

(** [Run]; [None] when it waits for ever for a slot. *)
Definition Run (c : OAuth.DidCache.DIDCache) (s : state) : option state :=
  let '(allRepos, s1) := discover (Collections_ b) ∅ (count (fun _ => no_stats) s) in
  let s2 := count (discovered_stats (Z.of_nat (size allRepos))) s1 in
  if decide (allRepos = ∅) then Some s2
  else
    let '(groups, s3) := resolveAndGroupByPDS allRepos c s2 in
    fst <$> processReposByPDS groups s3.

(** *** Every repository is counted *)

Lemma discover_spec cs : forall acc s, let r := discover cs acc s in
  (forall did, did ∈ r.1 <-> did ∈ acc \/ exists c l, c ∈ cs /\ list_repos c = Ok l /\ did ∈ l) /\
  ReposProcessed (st_stats r.2) = ReposProcessed (st_stats s) /\ st_free r.2 = st_free s.
Proof.
  induction cs as [|c cs IH]; intros acc s; cbn [discover].
  { cbn. split; [|done]. intros did. split; [by left|]. intros [?|(? & ? & ?%not_elem_of_nil & _)]; done. }
  destruct (list_repos c) as [repos|e] eqn:Hl.
  - destruct (IH (acc ∪ list_to_set repos) s) as (Hd & Hp & Hf). cbv zeta in *. split; [|done].
    intros did. rewrite Hd, elem_of_union, elem_of_list_to_set. split.
    + intros [[?|?]|(c' & l & ? & ? & ?)]; [by left|right; exists c, repos; by split; [left|]|].
      right. exists c', l. by split; [right|].
    + intros [?|(c' & l & [->|Hc]%elem_of_cons & Hl' & Hin)]; [by left; left| |by right; eauto].
      rewrite Hl in Hl'. injection Hl' as <-. by left; right.
  - destruct (IH acc (count add_error s)) as (Hd & Hp & Hf). cbv zeta in *. split; [|done].
    intros did. rewrite Hd. split; (intros [?|(c' & l & Hc & Hl' & Hin)]; [by left|right; exists c', l]).
    + by split; [right|].
    + apply elem_of_cons in Hc as [->|Hc]; [congruence|done].
Qed.

Lemma members_add (g : gmap string (list AtprotoData)) k x :
  members (<[k := default [] (g !! k) ++ [x]]> g) ≡ₚ members g ++ [x].
Proof.
  unfold members. destruct (g !! k) as [l|] eqn:Hk; cbn [default id].
  - rewrite <-(insert_delete_id g k l Hk) at 2. rewrite <-insert_delete_eq.
    rewrite !map_to_list_insert by apply lookup_delete_eq. cbn. rewrite <-!app_assoc.
    apply Permutation_app_head. by rewrite Permutation_app_comm.
  - rewrite map_to_list_insert by done. cbn. by rewrite Permutation_app_comm.
Qed.

(** The data of an actor are of a document the resolver gave for it. *)
Definition resolved_ok (data : AtprotoData) : Prop :=
  exists t doc, world t (a_DID data) = Ok doc /\ data = data_of (a_DID data) doc.

Lemma resolve_all_spec order : forall c groups s,
  OAuth.DidCache.genuine world c -> 0 <= OAuth.DidCache.ttl c ->
  let r := resolve_all order c groups s in
  exists resolved unresolved, (a_DID <$> resolved) ++ unresolved ≡ₚ order.*1.*1 /\
    Forall resolved_ok resolved /\ members r.1 ≡ₚ members groups ++ resolved /\
    ReposProcessed (st_stats r.2) = ReposProcessed (st_stats s) /\
    ReposDiscovered (st_stats r.2) = ReposDiscovered (st_stats s) /\
    st_free r.2 = st_free s /\ st_table r.2 = st_table s.
Proof.
  induction order as [|[[did t1] t2] order IH]; intros c groups s Hg Ht; cbn [resolve_all].
  { exists [], []. cbn. split_and!; try done. by rewrite app_nil_r. }
  assert (exists c' o, resolve_one c did t1 t2 = (c', o) /\ OAuth.DidCache.genuine world c' /\
            0 <= OAuth.DidCache.ttl c' /\ (forall doc, o = Some doc -> exists t, world t did = Ok doc))
    as (c' & o & Ho & Hg' & Ht' & Hdoc).
  { unfold resolve_one. destruct (OAuth.DidCache.genuine_get world c t1 did false Hg Ht) as (G1 & T1 & D1).
    fold (OAuth.DidCache.Get c t1 (world t1) did) in G1, T1, D1.
    destruct (OAuth.DidCache.Get c t1 (world t1) did) as [c1 [doc|e]]; cbn [fst snd] in *.
    - exists c1, (Some doc). split_and!; [done|done|lia|]. intros doc' [= <-]. destruct (D1 doc eq_refl) as (t & ? & _). eauto.
    - destruct (OAuth.DidCache.genuine_get world c1 t2 did true G1 ltac:(lia)) as (G2 & T2 & D2).
      destruct (OAuth.DidCache.GetWithInvalidate c1 t2 (world t2) did true) as [c2 [doc|e']]; cbn [fst snd] in *.
      + exists c2, (Some doc). split_and!; [done|done|lia|]. intros doc' [= <-]. destruct (D2 doc eq_refl) as (t & ? & _). eauto.
      + exists c2, None. split_and!; [done|done|lia|done]. }
  rewrite Ho. destruct o as [doc|].
  - destruct (IH c' (<[a_PDS (data_of did doc) := default [] (groups !! a_PDS (data_of did doc)) ++ [data_of did doc]]> groups) s Hg' Ht')
      as (resolved & unresolved & Hp & Hr & Hm & Hs). exists (data_of did doc :: resolved), unresolved.
    split_and!; try apply Hs; cbn.
    + by apply perm_skip.
    + constructor; [|done]. destruct (Hdoc doc eq_refl) as [t Hw]. by exists t, doc.
    + rewrite Hm, members_add, <-app_assoc. done.
  - destruct (IH c' groups (count add_error s) Hg' Ht') as (resolved & unresolved & Hp & Hr & Hm & Hs).
    exists resolved, (did :: unresolved). split_and!; try apply Hs; try done. cbn.
    rewrite <-Hp. by rewrite Permutation_middle.
Qed.

(** The client may panic on a repository. *)
Definition may_panic (data : AtprotoData) : Prop :=
  e_car (env_of data) = Panics \/ exists c, e_listing (env_of data) c = Panics.

Lemma legacy_panics env did cs : forall s total s',
  legacy_collections b jsonb parse unmarshal env did cs s total = Some (Panicked, s') ->
  exists c, e_listing env c = Panics.
Proof.
  induction cs as [|c cs IH]; intros s total s'; cbn [legacy_collections]; [done|].
  destruct (acquire s); [|done]. cbn [mbind option_bind]. destruct (e_listing env c) as [[recs|e]|] eqn:He; [|apply IH|by eauto].
  destruct (legacy_records _ _ _ _ _ _ _ _ _ _). apply IH.
Qed.

Lemma processRepo_panics data s s' :
  processRepo b jsonb cbor_json parse unmarshal (env_of data) data s = Some (Panicked, s') -> may_panic data.
Proof.
  unfold processRepo, may_panic. destruct (acquire s); [|done]. cbn [mbind option_bind].
  destruct (e_car (env_of data)) as [[recs|e]|]; [| |by left].
  - destruct (omap _ recs); [done|]. destruct (filterByExistingCIDs _ _).
    destruct (List.filter _ _); [done|]. destruct (BatchInsert _ _ _ _) as [[] t]; done.
  - intros Hl%legacy_panics. by right.
Qed.

Lemma safe_spec data s : let r := safeProcessRepo b jsonb cbor_json parse unmarshal (env_of data) data s in
  (r = None -> st_free s <= 0) /\
  forall n s', r = Some (n, s') -> exists panicked : bool, (panicked = true -> may_panic data) /\
    st_free s' = st_free s - (if panicked then 1 else 0) /\
    ReposProcessed (st_stats s') =
      (if panicked then ReposProcessed (st_stats s) else wrap64 (ReposProcessed (st_stats s) + 1)) /\
    ReposDiscovered (st_stats s') = ReposDiscovered (st_stats s).
Proof.
  unfold safeProcessRepo.
  destruct (processRepo_slots b jsonb cbor_json parse unmarshal (env_of data) data s) as [Hnone Hfree].
  destruct (processRepo _ _ _ _ _ _ _ _) as [[[n|] s1]|] eqn:Hp; cbn.
  - split; [done|]. intros ? ? [= <- <-]. exists false. destruct (processRepo_processed _ _ _ _ _ _ _ _ _ _ Hp) as [H1 H2].
    rewrite (Hfree _ _ eq_refl), H1, H2. done.
  - split; [done|]. intros ? ? [= <- <-]. exists true. destruct (processRepo_processed _ _ _ _ _ _ _ _ _ _ Hp) as [H1 H2].
    cbn. rewrite (Hfree _ _ eq_refl), H1, H2. split_and!; try done. intros _. by eapply processRepo_panics.
  - split; [|done]. intros _. by apply Hnone.
Qed.

Lemma process_all_spec tasks : forall s total, 0 <= ReposProcessed (st_stats s) ->
  ReposProcessed (st_stats s) + Z.of_nat (length tasks) < 2 ^ 63 ->
  (Forall (fun d => ~ may_panic d) tasks -> 0 < st_free s -> process_all tasks s total <> None) /\
  forall s' total', process_all tasks s total = Some (s', total') ->
    exists completed panicked, tasks ≡ₚ completed ++ panicked /\ Forall may_panic panicked /\
      ReposProcessed (st_stats s') = ReposProcessed (st_stats s) + Z.of_nat (length completed) /\
      ReposDiscovered (st_stats s') = ReposDiscovered (st_stats s).
Proof.
  induction tasks as [|data tasks IH]; intros s total H0 Hlt; cbn [process_all].
  { split; [done|]. intros ? ? [= <- <-]. exists [], []. cbn. split_and!; [done|constructor|lia|done]. }
  destruct (safe_spec data s) as [Hnone Hsome]. cbv zeta in *. cbn [length] in Hlt.
  destruct (safeProcessRepo _ _ _ _ _ _ _ _) as [[n s1]|].
  2:{ split; [|done]. intros _ Hf. specialize (Hnone eq_refl). lia. }
  destruct (Hsome n s1 eq_refl) as (pk & Hpk & Hfree & Hproc & Hdisc).
  rewrite wrap64_id in Hproc by (unfold in_int64, int64_min, int64_max; lia).
  destruct (IH s1 (total + n)) as [IHn IHs]; [destruct pk; lia..|]. split.
  - intros Hall Hf. apply Forall_cons in Hall as [Hd Hall]. destruct pk; [by destruct (Hd (Hpk eq_refl))|].
    apply IHn; [done|lia].
  - intros s' total' (completed & panicked & Hp & Hf & Hc & Hd)%IHs. destruct pk.
    + exists completed, (data :: panicked). split_and!; [|constructor; [by apply Hpk|done]|lia|congruence].
      rewrite Hp. by rewrite Permutation_middle.
    + exists (data :: completed), panicked. split_and!; [by rewrite Hp|done|cbn [length]; lia|congruence].
Qed.

Definition scheduled : Prop :=
  (forall repos, (resolution_order repos).*1.*1 ≡ₚ elements repos) /\ (forall l, task_order l ≡ₚ l).
Definition repositories : gset string := (discover (Collections_ b) ∅ (count (fun _ => no_stats)
  {| st_table := ∅; st_log := []; st_stats := no_stats; st_free := 0 |})).1.

Lemma discover_repos cs : forall acc s s', (discover cs acc s).1 = (discover cs acc s').1.
Proof.
  induction cs as [|c cs IH]; intros acc s s'; cbn [discover]; [done|]. destruct (list_repos c); apply IH.
Qed.

(** In every order of the goroutines, a run looks up every repository that some
    collection lists, once; those that resolve are processed once each, with the
    server of their own document, and are counted as processed unless the client
    panicked on them; a run without panics ends. *)
Theorem run_accounts ttl s : scheduled -> 0 <= ttl -> Z.of_nat (size repositories) < 2 ^ 63 ->
  (forall did, did ∈ repositories <-> exists c l, c ∈ Collections_ b /\ list_repos c = Ok l /\ did ∈ l) /\
  exists resolved unresolved, (a_DID <$> resolved) ++ unresolved ≡ₚ elements repositories /\
    Forall resolved_ok resolved /\
    (Forall (fun d => ~ may_panic d) resolved -> 0 < st_free s ->
       Run (OAuth.DidCache.NewDIDCache ttl) s <> None) /\
    forall s', Run (OAuth.DidCache.NewDIDCache ttl) s = Some s' ->
      ReposDiscovered (st_stats s') = Z.of_nat (size repositories) /\
      exists completed panicked, resolved ≡ₚ completed ++ panicked /\ Forall may_panic panicked /\
        ReposProcessed (st_stats s') = Z.of_nat (length completed).
Proof.
  intros [Hro Hto] Ht Hsz. unfold Run.
  destruct (discover_spec (Collections_ b) ∅ (count (fun _ => no_stats) s)) as (Hd & Hp & Hf).
  pose proof (discover_repos (Collections_ b) ∅ (count (fun _ => no_stats) s) (count (fun _ => no_stats)
    {| st_table := ∅; st_log := []; st_stats := no_stats; st_free := 0 |})) as He. fold repositories in He.
  destruct (discover (Collections_ b) ∅ _) as [repos s1]. cbn [fst snd] in *. subst repos.
  split. { intros did. rewrite Hd. set_solver. }
  destruct (decide (repositories = ∅)) as [Hz|Hz].
  { exists [], []. rewrite Hz, elements_empty. split_and!; [done|constructor|done|].
    intros s' [= <-]. cbn. split; [done|]. exists [], []. split_and!; [done|constructor|]. cbn in Hp. by rewrite Hp. }
  unfold resolveAndGroupByPDS.
  destruct (resolve_all_spec (resolution_order repositories) (OAuth.DidCache.NewDIDCache ttl) ∅
    (count (discovered_stats (Z.of_nat (size repositories))) s1)) as (resolved & unresolved & Hpm & Hr & Hm & Hrp & Hrd & Hrf & _).
  { intros k d Hk. cbn in Hk. by apply lookup_empty_Some in Hk. } { done. }
  destruct (resolve_all _ _ _ _) as [groups s3]. cbn [fst snd] in *.
  rewrite Hro in Hpm. change (members ∅ ++ resolved) with resolved in Hm. unfold processReposByPDS.
  assert (Z.of_nat (length resolved) <= Z.of_nat (size repositories)) as Hlen.
  { apply Permutation_length in Hpm. rewrite length_app, length_fmap in Hpm.
    change (length (elements repositories)) with (size repositories) in Hpm. lia. }
  assert (task_order (members groups) ≡ₚ resolved) as Htask by (by rewrite Hto).
  cbn in Hrp, Hrd, Hrf, Hf. cbn in Hp.
  destruct (process_all_spec (task_order (members groups)) s3 0) as [Hnone Hsome].
  { rewrite Hrp, Hp. done. }
  { rewrite Hrp, Hp, Htask. cbn. lia. }
  exists resolved, unresolved. split_and!; [done|done| |].
  - intros Hall Hfree. destruct (process_all _ _ _) as [[? ?]|] eqn:E; [done|]. exfalso. apply Hnone; [by rewrite Htask|lia|done].
  - intros s' Hs'. destruct (process_all _ _ _) as [[s4 tot]|]; [|done]. injection Hs' as <-.
    destruct (Hsome s4 tot eq_refl) as (completed & panicked & Hc & Hpk & Hcount & Hdisc).
    split; [by rewrite Hdisc, Hrd|]. exists completed, panicked. rewrite Htask in Hc.
    split_and!; [done|done|]. rewrite Hcount, Hrp, Hp. cbn. lia.
Qed.

(** *** The index after a run *)

Lemma discover_table cs : forall acc s, st_table (discover cs acc s).2 = st_table s.
Proof.
  induction cs as [|c cs IH]; intros acc s; cbn [discover]; [done|]. destruct (list_repos c); by rewrite IH.
Qed.

Lemma process_all_ok tasks : (forall data, data ∈ tasks ->
    sound_env b (env_of data) (a_DID data) /\ honest_listings b (env_of data) (a_DID data)) ->
  forall s total s' total', index_ok b (st_table s) -> process_all tasks s total = Some (s', total') ->
  index_ok b (st_table s').
Proof.
  induction tasks as [|data tasks IH]; intros He s total s' total' Ht; cbn [process_all]; [by intros [= <- _]|].
  destruct (He data ltac:(left)) as [Hse Hhl]. unfold safeProcessRepo.
  destruct (processRepo _ _ _ _ _ _ _ _) as [[r s1]|] eqn:Hp; [|done].
  pose proof (processRepo_ok _ _ _ _ _ _ _ _ _ _ Hse Hhl Ht Hp) as H1.
  destruct r; (apply IH; [|done]; intros ? ?; apply He; by right).
Qed.

(** C17: A run of the backfill keeps an index filed and validated: when every row
    has the author and the collection its URI names, and in enforce mode a value
    that its lexicon accepts ([index_ok]), then so it is after the run, whatever
    calls fail, whatever the lookups answer and in every order in which the
    goroutines are scheduled ([scheduled]). This needs of the environment that the
    cache of DID documents has no negative TTL; that other writers keep the index
    so too, that DIDs have no slash, and that what a download answers was
    extracted by GetRepo ([sound_env]); and that in the fallback the servers list
    only records of the actor and the collection they were asked for
    ([honest_listings]). The last is not checked by the code, so a server that
    lies gets a foreign row overwritten (Example foreign_record_overwritten), and
    BackfillActor, which is no run, stores records that enforce mode refuses
    (Example actor_backfill_unvalidated). *)
Theorem run_keeps_index ttl s s' : scheduled -> 0 <= ttl ->
  (forall data, a_DID data ∈ repositories ->
     sound_env b (env_of data) (a_DID data) /\ honest_listings b (env_of data) (a_DID data)) ->
  index_ok b (st_table s) -> Run (OAuth.DidCache.NewDIDCache ttl) s = Some s' -> index_ok b (st_table s').
Proof.
  intros [Hro Hto] Ht He Hok. unfold Run.
  pose proof (discover_table (Collections_ b) ∅ (count (fun _ => no_stats) s)) as Htab.
  pose proof (discover_repos (Collections_ b) ∅ (count (fun _ => no_stats) s) (count (fun _ => no_stats)
    {| st_table := ∅; st_log := []; st_stats := no_stats; st_free := 0 |})) as Hrep. fold repositories in Hrep.
  destruct (discover (Collections_ b) ∅ _) as [repos s1]. cbn [fst snd] in *. subst repos.
  destruct (decide (repositories = ∅)); [intros [= <-]; cbn; by rewrite Htab|].
  unfold resolveAndGroupByPDS.
  destruct (resolve_all_spec (resolution_order repositories) (OAuth.DidCache.NewDIDCache ttl) ∅
    (count (discovered_stats (Z.of_nat (size repositories))) s1)) as (resolved & unresolved & Hpm & _ & Hm & _ & _ & _ & Hrt).
  { intros k d Hk. cbn in Hk. by apply lookup_empty_Some in Hk. } { done. }
  destruct (resolve_all _ _ _ _) as [groups s3]. cbn [fst snd] in *. unfold processReposByPDS.
  destruct (process_all _ _ _) as [[s4 tot]|] eqn:Hp; [|done]. intros [= <-].
  eapply process_all_ok; [|by rewrite Hrt; cbn; rewrite Htab|exact Hp].
  intros data Hdata. apply He. rewrite Hto, Hm in Hdata. change (members ∅ ++ resolved) with resolved in Hdata.
  apply elem_of_elements. rewrite <-Hro, <-Hpm. apply elem_of_app. left. by apply list_elem_of_fmap_2.
Qed.
End Run.

(** ** Concrete repositories *)

Module Example_backfill.
#[local] Existing Instance Validator.Example_post.toy_lib.

Definition did : string := "did:plc:a".
Definition bf (mode : string) : Backfiller :=
  {| Collections_ := ["app.post"]; validator := Some (Validator.Example_post.registry, fun _ => Ok ∅);
     valMode := mode; has_activityRepo := true |}.
Definition all_json (_ : string) : bool := true.
Definition to_json (data : string) : option string := Some data.
Definition no_parse (_ _ : string) : option instant := None.
Definition no_unmarshal (_ : string) : option obj := None.

Definition entry (rkey cid : string) : car_entry := ("app.post/" +:+ rkey, Some (cid, "{}")).
Definition download (entries : list car_entry) : fetch (list CARRecord) :=
  Answers (Ok (omap (extract did ["app.post"]) entries)).
Definition batch : batch_env :=
  {| b_now := 9; b_begin := true; b_works := fun _ => true; b_commit := Committed |}.
Definition env (car : fetch (list CARRecord)) (listing : fetch (list ListRecordsRecord)) (t : table) : repo_env :=
  {| e_car := car; e_listing := fun _ => listing; e_cids := fun _ => Some t; e_existing := fun _ => Some t;
     e_before_batch := fun t => t; e_batch := batch; e_before := fun _ t => t; e_works := fun _ => true;
     e_now := 9; e_log_works := fun _ => true |}.
Definition start (t : table) : state :=
  {| st_table := t; st_log := []; st_stats := no_stats; st_free := 1 |}.
Definition data : AtprotoData := {| a_DID := did; a_Handle := "a.example"; a_PDS := "https://pds" |}.
Definition uri (rkey : string) : string := "at://did:plc:a/app.post/" +:+ rkey.
Definition row_of (cid : string) : row :=
  {| w_cid := cid; w_did := did; w_collection := "app.post"; w_json := "{}"; w_indexed_at := 1; w_sort_at := None |}.
Definition run (mode : string) (e : repo_env) (t : table) :=
  processRepo (bf mode) all_json to_json no_parse no_unmarshal e data (start t).
Definition cid_at (u : string) (r : option (task_end * state)) : option string :=
  r' ← r; w_cid <$> st_table r'.2 !! u.

(** A record whose content moved to another key, while the old key got new
    content: the row of the old key is overwritten and the new key is skipped as a
    duplicate of it, so the content is nowhere in the index. *)
Example moved_record_lost :
  let t : table := {[uri "1" := row_of "c1"]} in
  let r := run "warn" (env (download [entry "1" "c2"; entry "2" "c1"]) (Answers (Ok [])) t) t in
  cid_at (uri "1") r = Some "c2" /\ cid_at (uri "2") r = None.
Proof. split; reflexivity. Qed.

(** In the fallback the server names the URI: it overwrites the value of a record
    of another actor, which stays listed under that actor. *)
Example foreign_record_overwritten :
  let victim := "at://did:plc:b/app.post/1" in
  let old := {| w_cid := "c1"; w_did := "did:plc:b"; w_collection := "app.post"; w_json := "{}";
                w_indexed_at := 1; w_sort_at := None |} in
  let r := run "warn" (env (Answers (Err ERequest))
             (Answers (Ok [{| lr_URI := victim; lr_CID := "c9"; lr_Value := "forged" |}])) {[victim := old]}) {[victim := old]} in
  (r' ← r; (fun w => (w_did w, w_json w)) <$> st_table r'.2 !! victim) = Some ("did:plc:b", "forged").
Proof. reflexivity. Qed.

(** The backfill of one actor does not validate: in enforce mode it stores the
    record that a run refuses. *)
Example actor_backfill_unvalidated :
  let e := env (download [entry "1" "c1"]) (Answers (Ok [])) ∅ in
  cid_at (uri "1") (run "enforce" e ∅) = None /\
  st_table (BackfillActor (bf "enforce") all_json to_json no_parse no_unmarshal e (Ok data) (start ∅)).2 !! uri "1"
    <> None.
Proof. split; [reflexivity|]. by vm_compute. Qed.

(** A panic in the client loses its slot; the next repository waits for ever. *)
Example panic_loses_slot :
  match safeProcessRepo (bf "warn") all_json to_json no_parse no_unmarshal (env Panics (Answers (Ok [])) ∅) data (start ∅) with
  | Some (_, s) => processRepo (bf "warn") all_json to_json no_parse no_unmarshal (env (download []) (Answers (Ok [])) ∅) data s
  | None => Some (Done 0, start ∅)
  end = None.
Proof. reflexivity. Qed.

Definition two : list car_entry := [entry "1" "c1"; entry "2" "c2"].

Lemma processRepo_stores_witness : exists s' n,
  run "warn" (env (download two) (Answers (Ok [])) ∅) ∅ = Some (Done n, s') /\ n = 2 /\
  exists w, st_table s' !! uri "2" = Some w /\ w_cid w = "c2".
Proof.
  destruct (processRepo_stores (bf "warn") all_json to_json no_parse no_unmarshal
    (env (download two) (Answers (Ok [])) ∅) data (start ∅) (omap (extract did ["app.post"]) two))
    as (s' & n & Heq & Hn & Hin & _).
  - reflexivity.
  - by repeat split.
  - by apply NoDup_compute; vm_compute.
  - by repeat constructor.
  - done.
  - unfold stats_ok, in_int64. cbn. unfold int64_min, int64_max. lia.
  - exists s', n. split; [exact Heq|]. split; [by rewrite Hn; vm_compute|].
    destruct (Hin {| URI := uri "2"; CID := "c2"; DID := did; Collection := "app.post"; JSON := "{}";
                     IndexedAt := 0; RKey := "2"; PDS := "" |}) as (w & Hw & Hc & _).
    + vm_compute. right. left.
    + reflexivity.
    + by vm_compute.
    + by exists w.
Defined.

Lemma second_run_idle_witness : exists s', run "warn" (env (download two) (Answers (Ok [])) ∅) ∅ = Some (Done 2, s') /\
  exists s2, processRepo (bf "warn") all_json to_json no_parse no_unmarshal
    (env (download two) (Answers (Ok [])) (st_table s')) data s' = Some (Done 0, s2) /\ st_table s2 = st_table s'.
Proof.
  eexists. split; [reflexivity|].
  refine (second_run_idle (bf "warn") all_json to_json no_parse no_unmarshal
    (env (download two) (Answers (Ok [])) ∅) _ data (start ∅) _ (omap (extract did ["app.post"]) two) 2
    _ _ _ _ _ _ _ _ _ _).
  - reflexivity.
  - by repeat split.
  - by apply NoDup_compute; vm_compute.
  - by repeat constructor.
  - done.
  - unfold stats_ok, in_int64. cbn. unfold int64_min, int64_max. lia.
  - intros r _ _. apply lookup_empty.
  - reflexivity.
  - reflexivity.
  - by repeat split.
Defined.

Definition relay (_ : string) : result client_error (list string) := Ok [did].
Definition directory (_ : Z) (_ : string) : result string PLCDocument :=
  Ok {| Service := [{| svc_ID := "#pds"; svc_Type := "AtprotoPersonalDataServer"; ServiceEndpoint := "https://pds" |}];
        AlsoKnownAs := ["at://a.example"] |}.
Definition met (_ : AtprotoData) : repo_env := env (download two) (Answers (Ok [])) ∅.
Definition in_order (repos : gset string) : list (string * Z * Z) := (fun d => (d, 0, 0)) <$> elements repos.

Lemma in_order_scheduled : scheduled in_order (fun l => l).
Proof. split; [|done]. intros repos. unfold in_order. rewrite <-!list_fmap_compose. cbn. by rewrite list_fmap_id. Qed.

Lemma repositories_one x : x ∈ repositories (bf "warn") relay -> x = did.
Proof. unfold repositories. cbn. set_solver. Qed.

Lemma run_accounts_witness :
  Run (bf "warn") all_json to_json no_parse no_unmarshal relay directory met in_order (fun l => l)
    (OAuth.DidCache.NewDIDCache 3600) (start ∅) <> None.
Proof.
  destruct (run_accounts (bf "warn") all_json to_json no_parse no_unmarshal relay directory met in_order (fun l => l)
    3600 (start ∅) in_order_scheduled ltac:(lia)) as [_ (resolved & unresolved & _ & _ & Hends & _)].
  - enough (size (repositories (bf "warn") relay) <= 1)%nat by lia.
    etrans; [|apply Nat.eq_le_incl, (size_singleton (C := gset string) did)]. apply subseteq_size.
    intros x ->%repositories_one. by apply elem_of_singleton.
  - apply Hends; [|done]. apply Forall_forall. intros d _ [Hp|[c Hp]]; done.
Defined.

Lemma run_keeps_index_witness : exists s',
  Run (bf "warn") all_json to_json no_parse no_unmarshal relay directory met in_order (fun l => l)
    (OAuth.DidCache.NewDIDCache 3600) (start ∅) = Some s' /\ index_ok (bf "warn") (st_table s').
Proof.
  eexists. split; [reflexivity|].
  eapply (run_keeps_index (bf "warn") all_json to_json no_parse no_unmarshal relay directory met in_order (fun l => l)
    3600 (start ∅) _ in_order_scheduled ltac:(lia)); [| |reflexivity].
  - intros d ->%repositories_one. split.
    + split; try done. intros recs [= <-]. by exists two.
    + by intros c recs _ [= <-].
  - apply map_Forall_empty.
Defined.
End Example_backfill.
