(* ===== verification/Dpop.v ===== *)
(** [internal/oauth/dpop.go], the half that makes keys and proofs: key pairs and
    their JSON Web Keys, thumbprints, proofs of possession, and their verification
    together with the hash of an access token. The other half, the verification of
    a proof, is in TokenEndpoint. *)
From S2P Require Import Prelude GoStrings Utf8 Base64 TokenEndpoint.

Local Open Scope Z_scope.

#[export] Instance JWK_eq_dec : EqDecision JWK.
Proof. solve_decision. Defined.
#[export] Instance DPoPHeader_eq_dec : EqDecision DPoPHeader.
Proof. solve_decision. Defined.
#[export] Instance DPoPClaims_eq_dec : EqDecision DPoPClaims.
Proof. solve_decision. Defined.

(** ** Numbers as bytes, as math/big writes and reads them *)

Fixpoint bytes_go (fuel : nat) (z : Z) (acc : string) : string :=
  match fuel with
  | O => acc
  | S fuel => if z =? 0 then acc else bytes_go fuel (z / 256) (String (byte (z mod 256)) acc)
  end.
(** [Bytes]: the shortest big-endian text; a number has at most one byte for
    each bit. *)
Definition Bytes (z : Z) : string := bytes_go (Z.to_nat (Z.log2 z + 1)) z "".
Fixpoint SetBytes_go (acc : Z) (s : string) : Z :=
  match s with EmptyString => acc | String c s => SetBytes_go (acc * 256 + zb c) s end.
Definition SetBytes (s : string) : Z := SetBytes_go 0 s.

Lemma bytes_go_spec fuel : forall z acc, 0 <= z < 2 ^ Z.of_nat fuel ->
  SetBytes_go 0 (bytes_go fuel z acc) = SetBytes_go z acc.
Proof.
  induction fuel as [|fuel IH]; intros z acc Hz; [cbn in *; by replace z with 0 by lia|].
  cbn [bytes_go]. destruct (Z.eqb_spec z 0) as [->|Hn]; [done|].
  rewrite IH.
  - cbn [SetBytes_go]. rewrite zb_byte by (apply Z.mod_pos_bound; lia). f_equal.
    pose proof (Z.div_mod z 256). lia.
  - split; [apply Z.div_pos; lia|]. apply Z.div_lt_upper_bound; [lia|].
    rewrite Nat2Z.inj_succ, Z.pow_succ_r in Hz by lia. lia.
Qed.

Lemma SetBytes_Bytes z : 0 <= z -> SetBytes (Bytes z) = z.
Proof.
  intros Hz. unfold SetBytes, Bytes. rewrite bytes_go_spec; [done|].
  destruct (Z.eq_dec z 0) as [->|Hn]; [cbn; lia|].
  pose proof (Z.log2_nonneg z). rewrite Z2Nat.id by lia.
  destruct (Z.log2_spec z) as [_ Hl]; [lia|]. split; [done|]. by rewrite Z.add_1_r.
Qed.

Lemma Bytes_nonempty z : 0 < z -> is_empty (EncodeToString (Bytes z)) = false.
Proof.
  intros Hz. destruct (EncodeToString (Bytes z)) eqn:He; [|done].
  assert (DecodeString (EncodeToString (Bytes z)) = DecodeString "") as Hd by by rewrite He.
  rewrite decode_encode in Hd. injection Hd as Hd.
  pose proof (SetBytes_Bytes z ltac:(lia)) as Hs. rewrite Hd in Hs. cbn in Hs. lia.
Qed.

#[local] Opaque Bytes SetBytes EncodeToString DecodeString.

(** ** Keys *)

Record DPoPKeyPair := { pub_X : Z; pub_Y : Z; PrivateKey : option Z }.
(** A JWK with its private component, empty in a public key. *)
Record PrivateJWK := { public : JWK; D : string }.

Definition ToJWK (kp : DPoPKeyPair) : JWK :=
  {| Kty := "EC"; Crv := "P-256"; X := EncodeToString (Bytes (pub_X kp));
     Y := EncodeToString (Bytes (pub_Y kp)) |}.
(** A pair without private key panics. *)
Definition ToPrivateJWK (kp : DPoPKeyPair) : option PrivateJWK :=
  d ← PrivateKey kp; Some {| public := ToJWK kp; D := EncodeToString (Bytes d) |}.

Definition CalculateJKT `{CryptoLib} (kp : DPoPKeyPair) : string := CalculateJKTFromJWK (ToJWK kp).

(** encoding/json on keys, whose fields are text of the base64 alphabet. *)
Definition plain_jwk (j : PrivateJWK) : Prop :=
  Forall (fun s => graphic s = true) [Kty (public j); Crv (public j); X (public j); Y (public j); D j].
Class JwkJson := {
  jwk_marshal : PrivateJWK -> string;
  jwk_unmarshal : string -> option PrivateJWK;
  jwk_read j : plain_jwk j -> jwk_unmarshal (jwk_marshal j) = Some j
}.

Inductive key_error := EKeyJSON | ErrDPoPUnsupportedKey | EDecodeX | EDecodeY | EDecodeD.

Section Keys.
Context `{JwkJson}.

Definition ToPrivateJSON (kp : DPoPKeyPair) : option string := jwk_marshal <$> ToPrivateJWK kp.

Definition ParseDPoPKeyPair (jwkJSON : string) : result key_error DPoPKeyPair :=
  match jwk_unmarshal jwkJSON with
  | None => Err EKeyJSON
  | Some j =>
      let jwk := public j in
      _ ← guard_err (String.eqb (Kty jwk) "EC" && String.eqb (Crv jwk) "P-256") ErrDPoPUnsupportedKey;
      xBytes ← match DecodeString (X jwk) with Some b => Ok b | None => Err EDecodeX end;
      yBytes ← match DecodeString (Y jwk) with Some b => Ok b | None => Err EDecodeY end;
      let kp d := {| pub_X := SetBytes xBytes; pub_Y := SetBytes yBytes; PrivateKey := d |} in
      if is_empty (D j) then Ok (kp None)
      else match DecodeString (D j) with
           | Some dBytes => Ok (kp (Some (SetBytes dBytes)))
           | None => Err EDecodeD
           end
  end.

Lemma encode_graphic s : graphic (EncodeToString s) = true.
Proof.
  apply encode_bytes. intros n Hn. unfold sextet in Hn.
  assert (forallb (fun k => in_range 33 126 (zb (enc_char (Z.of_nat k)))) (seq 0 64) = true) as Hall
    by reflexivity.
  rewrite forallb_forall in Hall. specialize (Hall (Z.to_nat n)). rewrite Z2Nat.id in Hall by lia.
  apply Hall, in_seq. lia.
Qed.

(** The key that HandleAuthorize stores is the key that HandleCallback reads. *)
Theorem key_roundtrip kp d json : PrivateKey kp = Some d -> 0 <= pub_X kp -> 0 <= pub_Y kp -> 0 < d ->
  ToPrivateJSON kp = Some json -> ParseDPoPKeyPair json = Ok kp.
Proof.
  intros Hd Hx Hy Hpos. unfold ToPrivateJSON, ToPrivateJWK, ParseDPoPKeyPair. rewrite Hd. cbn.
  intros [= <-]. rewrite jwk_read by (repeat constructor; cbn; try done; apply encode_graphic).
  cbn. rewrite !decode_encode, Bytes_nonempty by done. cbn.
  rewrite !SetBytes_Bytes by lia. rewrite <-Hd. by destruct kp.
Qed.
End Keys.

(** ** Making proofs *)

(** The JWT library signing: a compact token whose header can be read back, and
    whose claims verify, at any time, with the coordinates of the key. *)
Class Signer `{CryptoLib} := {
  sign : DPoPKeyPair -> DPoPHeader -> DPoPClaims -> string -> option string; (* key, header, claims, nonce *)
  sign_shape kp h c nonce t : sign kp h c nonce = Some t ->
    exists hb payload sig, t = EncodeToString hb +:+ "." +:+ EncodeToString payload +:+ "."
                               +:+ EncodeToString sig /\ parse_header hb = Some h;
  sign_verifies kp h c nonce t now : sign kp h c nonce = Some t ->
    jwt_verify now t (Bytes (pub_X kp)) (Bytes (pub_Y kp)) = Some c
}.

Inductive proof_error := ErrDPoPMissingPrivateKey | EGenerateJTI | ESign.

Section Making.
Context `{Signer}.

(** The hash of an access token, when there is one. *)
Definition ath_of (accessToken : string) : string :=
  if is_empty accessToken then "" else EncodeToString (sha256 accessToken).

(** [jti] is what the random generator gives. *)
Definition GenerateDPoPProof (now : Z) (jti : option string) (kp : DPoPKeyPair)
    (method url accessToken nonce : string) : result proof_error string :=
  match PrivateKey kp with
  | None => Err ErrDPoPMissingPrivateKey
  | Some _ =>
      match jti with
      | None => Err EGenerateJTI
      | Some jti =>
          let claims := {| HTM := method; HTU := url; ATH := ath_of accessToken; c_ID := jti;
                           IssuedAt := Some now |} in
          match sign kp {| Typ := "dpop+jwt"; Alg := "ES256"; h_JWK := Some (ToJWK kp) |} claims nonce with
          | Some signedToken => Ok signedToken
          | None => Err ESign
          end
      end
  end.

Inductive ath_error := EProof (e : dpop_error) | ErrDPoPATHMismatch.
Definition VerifyDPoPProofWithATH (now : Z) (proof method url accessToken : string)
    (maxAgeSeconds : Z) : result ath_error DPoPValidationResult :=
  match VerifyDPoPProof now proof method url maxAgeSeconds with
  | Err e => Err (EProof e)
  | Ok res =>
      if negb (is_empty accessToken) && negb (String.eqb (r_ATH res) (EncodeToString (sha256 accessToken)))
      then Err ErrDPoPATHMismatch else Ok res
  end.

Lemma split_compact a b c : lacks "." a = true -> lacks "." b = true -> lacks "." c = true ->
  split (a +:+ "." +:+ b +:+ "." +:+ c) "." = [a; b; c].
Proof.
  intros Ha Hb Hc. exact (split_join "." [a; b; c] ltac:(done) ltac:(by repeat constructor)).
Qed.

(** A proof that GenerateDPoPProof makes is accepted by
    VerifyDPoPProofWithATH for its method, URL and access token exactly while it is
    not older than the allowed age (nor made more than a minute ahead of the
    verifier's clock), and what the verifier learns is the thumbprint of the key
    that made it, its identifier and its time. *)
Theorem proof_roundtrip kp made jti method url accessToken nonce proof now maxAge :
  jti <> "" -> GenerateDPoPProof made (Some jti) kp method url accessToken nonce = Ok proof ->
  VerifyDPoPProofWithATH now proof method url accessToken maxAge
  = if (now - made <=? maxAge) && (made <=? now + 60)
    then Ok {| JKT := CalculateJKT kp; JTI := jti; IAT := made; r_ATH := ath_of accessToken |}
    else Err (EProof (if now - made <=? maxAge then ErrDPoPInFuture else ErrDPoPTooOld)).
Proof.
  intros Hj. unfold GenerateDPoPProof. destruct (PrivateKey kp); [|done].
  destruct (sign _ _ _ _) as [t|] eqn:Hs; [|done]. intros [= ->].
  destruct (sign_shape _ _ _ _ _ Hs) as (hb & pl & sg & Ht & Hh).
  pose proof (sign_verifies _ _ _ _ _ now Hs) as Hv.
  assert (split proof "." = [EncodeToString hb; EncodeToString pl; EncodeToString sg]) as Hsp
    by (rewrite Ht; apply split_compact; apply encode_lacks_dot).
  unfold VerifyDPoPProofWithATH, VerifyDPoPProof, need. rewrite Hsp, decode_encode. cbn.
  rewrite Hh. cbn. rewrite !decode_encode. cbn. rewrite Hv. cbn.
  rewrite !String.eqb_refl. cbn. destruct jti as [|a s]; [done|]. cbn.
  destruct (Z.leb_spec (now - made) maxAge), (Z.leb_spec made (now + 60)),
    (Z.ltb_spec maxAge (now - made)), (Z.ltb_spec (now + 60) made); try lia; cbn; try done.
  unfold ath_of. destruct (is_empty accessToken); [done|]. cbn. by rewrite String.eqb_refl.
Qed.
End Making.

Module Example_dpop.

(** A library that knows one key, one header and one proof. *)
Definition key : DPoPKeyPair := {| pub_X := 5; pub_Y := 7; PrivateKey := Some 9 |}.
Definition header : DPoPHeader := {| Typ := "dpop+jwt"; Alg := "ES256"; h_JWK := Some (ToJWK key) |}.
Definition claims : DPoPClaims :=
  {| HTM := "POST"; HTU := "https://i/oauth/token"; ATH := EncodeToString "token"; c_ID := "j1";
     IssuedAt := Some 1000 |}.
Definition text : string := EncodeToString "h" +:+ "." +:+ EncodeToString "c" +:+ "." +:+ EncodeToString "s".
#[local] Program Instance one_key : CryptoLib := {|
  sha256 s := s;
  parse_header s := if String.eqb s "h" then Some header else None;
  jwt_verify now proof x y :=
    if String.eqb proof text && String.eqb x (Bytes 5) && String.eqb y (Bytes 7) then Some claims else None
|}.
Next Obligation. intros now now' proof x y c c' Hc Hc'. cbn in *. rewrite Hc in Hc'. by injection Hc'. Qed.
#[local] Program Instance one_signer : Signer := {|
  sign kp h c nonce :=
    if bool_decide (pub_X kp = 5 /\ pub_Y kp = 7 /\ h = header /\ c = claims) then Some text else None
|}.
Next Obligation. intros kp h c n t. cbn. case_bool_decide as Hc; [|done]. destruct Hc as (_ & _ & -> & _). intros [= <-]. by exists "h", "c", "s". Qed.
Next Obligation. intros kp h c n t now. cbn. case_bool_decide as Hc; [|done]. destruct Hc as (-> & -> & _ & ->). intros [= <-]. by rewrite !String.eqb_refl. Qed.

Lemma proof_roundtrip_witness : "j1" <> "" /\
  VerifyDPoPProofWithATH 1100 text "POST" "https://i/oauth/token" "token" DefaultMaxDPoPAge
  = (if (1100 - 1000 <=? DefaultMaxDPoPAge) && (1000 <=? 1100 + 60)
     then Ok {| JKT := CalculateJKT key; JTI := "j1"; IAT := 1000; r_ATH := ath_of "token" |}
     else Err (EProof (if 1100 - 1000 <=? DefaultMaxDPoPAge then ErrDPoPInFuture else ErrDPoPTooOld))).
Proof.
  split; [done|].
  eapply (proof_roundtrip key 1000 "j1" "POST" "https://i/oauth/token" "token" "" text 1100 DefaultMaxDPoPAge);
    [done|reflexivity].
Defined.

(** RFC 7518 asks for coordinates of 32 octets; a coordinate with a leading zero
    byte, one key in 128, is written shorter. *)
Example short_coordinate :
  let kp := {| pub_X := 2 ^ 248 - 1; pub_Y := 2 ^ 256 - 1; PrivateKey := None |} in
  (String.length <$> DecodeString (X (ToJWK kp))) = Some 31%nat /\
  (String.length <$> DecodeString (Y (ToJWK kp))) = Some 32%nat.
Proof. split; vm_compute; reflexivity. Qed.
End Example_dpop.
