(* ===== verification/Bridge.v ===== *)
(** [internal/oauth/did.go] and [internal/oauth/bridge.go]: resolution of DIDs and
    handles with the guard against requests to private hosts, discovery of the
    authorization server of an account, and the token requests to it. The network
    is an environment that sees what was asked before; every look-up of a name and
    every request is an event. *)
From S2P Require Import Prelude GoStrings Utf8 Base64 AtProto TokenEndpoint Dpop.

Local Open Scope Z_scope.

(** ** URLs and host names: net/url and net *)

Fixpoint until (stop : Z -> bool) (s : string) : string :=
  match s with
  | EmptyString => ""
  | String c s => if stop (zb c) then "" else String c (until stop s)
  end.
(** What follows the last [c], or all of the text without one. *)
Fixpoint after_last (c : ascii) (s : string) : string :=
  match s with
  | EmptyString => ""
  | String d r => if Ascii.eqb c d then after_last c r
                  else if lacks c s then s else after_last c r
  end.
(** Around the last [c]. *)
Fixpoint cut_last (c : ascii) (s : string) : option (string * string) :=
  match s with
  | EmptyString => None
  | String d r =>
      match cut_last c r with
      | Some (a, b) => Some (String d a, b)
      | None => if Ascii.eqb c d then Some ("", r) else None
      end
  end.

Definition hex (c : ascii) : option Z :=
  let z := zb c in
  if (48 <=? z) && (z <=? 57) then Some (z - 48)
  else if (97 <=? z) && (z <=? 102) then Some (z - 87)
  else if (65 <=? z) && (z <=? 70) then Some (z - 55)
  else None.
(** [url.PathUnescape]. *)
Fixpoint PathUnescape (s : string) : option string :=
  match s with
  | EmptyString => Some ""
  | String c r =>
      if Ascii.eqb c "%" then
        match r with
        | String a (String b r') =>
            x ← hex a; y ← hex b; t ← PathUnescape r'; Some (String (byte (16 * x + y)) t)
        | _ => None
        end
      else t ← PathUnescape r; Some (String c t)
  end.

Definition is_alnum (b : Z) : bool := Did.is_lower b || Did.is_upper b || Did.is_digit b.
Definition hex_digit (n : Z) : ascii := byte (if n <? 10 then 48 + n else 55 + n).
Fixpoint QueryEscape (s : string) : string :=
  match s with
  | EmptyString => ""
  | String c r =>
      let z := zb c in
      if is_alnum z || existsb (Z.eqb z) [45; 95; 46; 126] then String c (QueryEscape r)
      else if z =? 32 then String "+" (QueryEscape r)
      else String "%" (String (hex_digit (z / 16)) (String (hex_digit (z mod 16)) (QueryEscape r)))
  end.

Record URL := { Scheme : string; Host : string }.

Definition lower_byte (b : Z) : Z := if Did.is_upper b then b + 32 else b.
Fixpoint lower_ascii (s : string) : string :=
  match s with EmptyString => "" | String c s => String (byte (lower_byte (zb c))) (lower_ascii s) end.

(** The scheme of a URL and what follows it. *)
Fixpoint getScheme (first : bool) (s : string) : option (string * string) :=
  match s with
  | EmptyString => None
  | String c r =>
      let z := zb c in
      if (Did.is_lower z || Did.is_upper z) || (negb first && (Did.is_digit z || existsb (Z.eqb z) [43; 45; 46]))
      then '(a, b) ← getScheme false r; Some (String c a, b)
      else if negb first && (z =? 58) then Some ("", r) else None
  end.

(** [url.Parse] as far as its scheme and host go; [url_valid] tells the texts it
    does not refuse. *)
Definition Parse (url_valid : string -> bool) (u : string) : option URL :=
  if url_valid u then
    let '(scheme, rest) := default ("", u) (getScheme true u) in
    let authority := until (fun b => existsb (Z.eqb b) [47; 63; 35]) (drop_bytes 2 rest) in
    Some {| Scheme := lower_ascii scheme;
            Host := if has_prefix rest "//"
                    then let h := after_last "@" authority in default h (PathUnescape h) else "" |}
  else None.

(** [net.SplitHostPort]. *)
Definition SplitHostPort (hostport : string) : option (string * string) :=
  '(before, port) ← cut_last ":" hostport;
  match hostport with
  | String "[" inside =>
      '(host, after) ← cut_at "]" inside;
      if negb (String.eqb before ("[" +:+ host +:+ "]")) then None
      else if lacks "[" inside && lacks "]" after then Some (host, port) else None
  | _ => if lacks ":" before && lacks "[" hostport && lacks "]" hostport
         then Some (before, port) else None
  end.

(** ** Addresses *)

(** An IP address as net.IP has it: 4 or 16 bytes. *)
Definition ip := list Z.
Definition To4 (a : ip) : option ip :=
  match a with
  | [_; _; _; _] => Some a
  | _ => match a with
         | [0; 0; 0; 0; 0; 0; 0; 0; 0; 0; 255; 255; w; x; y; z] => Some [w; x; y; z]
         | _ => None
         end
  end.
Definition v6_loopback : ip := [0; 0; 0; 0; 0; 0; 0; 0; 0; 0; 0; 0; 0; 0; 0; 1].
Definition v6_zero : ip := repeat 0 16.

Definition IsLoopback (a : ip) : bool :=
  match To4 a with Some (w :: _) => w =? 127 | _ => bool_decide (a = v6_loopback) end.
Definition IsUnspecified (a : ip) : bool :=
  match To4 a with Some b => bool_decide (b = [0; 0; 0; 0]) | None => bool_decide (a = v6_zero) end.
Definition IsPrivate (a : ip) : bool :=
  match To4 a with
  | Some (w :: x :: _) => (w =? 10) || ((w =? 172) && (Z.land x 240 =? 16)) || ((w =? 192) && (x =? 168))
  | _ => match a with w :: _ => (length a =? 16)%nat && (Z.land w 254 =? 252) | [] => false end
  end.
Definition IsLinkLocalUnicast (a : ip) : bool :=
  match To4 a with
  | Some (w :: x :: _) => (w =? 169) && (x =? 254)
  | _ => match a with w :: x :: _ => (length a =? 16)%nat && (w =? 254) && (Z.land x 192 =? 128)
         | _ => false end
  end.
Definition IsLinkLocalMulticast (a : ip) : bool :=
  match To4 a with
  | Some (w :: x :: y :: _) => (w =? 224) && (x =? 0) && (y =? 0)
  | _ => match a with w :: x :: _ => (length a =? 16)%nat && (w =? 255) && (Z.land x 15 =? 2)
         | _ => false end
  end.
Definition IsMulticast (a : ip) : bool :=
  match To4 a with
  | Some (w :: _) => Z.land w 240 =? 224
  | _ => match a with w :: _ => (length a =? 16)%nat && (w =? 255) | [] => false end
  end.
Definition IsInterfaceLocalMulticast (a : ip) : bool :=
  match a with w :: x :: _ => (length a =? 16)%nat && (w =? 255) && (Z.land x 15 =? 1) | _ => false end.

(** The addresses that [rejectPrivateHost] does not accept. *)
Definition disallowed (a : ip) : bool :=
  IsLoopback a || IsUnspecified a || IsPrivate a || IsLinkLocalUnicast a || IsLinkLocalMulticast a
  || IsMulticast a || IsInterfaceLocalMulticast a.

(** ** The network *)

Record http_request := {
  r_Method : string; r_URL : string; r_Body : query; r_DPoP : option string
}.
Inductive event := ELookup (host : string) | ESend (r : http_request).

(** What the server at a URL answers: nothing, a redirection (which keeps method
    and body or not), or a status with the DPoP-Nonce header and a body, which is
    [None] when reading it fails. *)
Inductive hop :=
| NoAnswer
| Redirect (keep : bool) (location : string)
| Answer (StatusCode : Z) (DPoPNonce : string) (body : option string).

(** Names and servers answer as they like, knowing all that was asked before. *)
Class Net := {
  LookupIP : list event -> string -> option (list ip);
  serve : list event -> http_request -> hop;
  url_valid : string -> bool
}.

(** A computation that adds to the events and may fail. *)
Definition M (E A : Type) := list event -> result E A * list event.
#[export] Instance M_ret {E} : MRet (M E) := fun A a tr => (Ok a, tr).
#[export] Instance M_bind {E} : MBind (M E) := fun A B f m tr =>
  let r := m tr in match r.1 with Ok a => f a r.2 | Err e => (Err e, r.2) end.
Definition fail {E A} (e : E) : M E A := fun tr => (Err e, tr).
Definition lift {E A} (r : result E A) : M E A := fun tr => (r, tr).
Definition wrap {E F A} (f : E -> F) (m : M E A) : M F A := fun tr =>
  let r := m tr in (match r.1 with Ok a => Ok a | Err e => Err (f e) end, r.2).
Definition require {E} (b : bool) (e : E) : M E unit := lift (guard_err b e).
Definition from {E A} (o : option A) (e : E) : M E A :=
  lift (match o with Some a => Ok a | None => Err e end).

Record VerificationMethod := { vm_ID : string; vm_Type : string; Controller : string; PublicKeyMultibase : string }.
Record Service := { svc_ID : string; svc_Type : string; ServiceEndpoint : string }.
Record DIDDocument := {
  doc_ID : string; AlsoKnownAs : list string; doc_Service : list Service;
  doc_VerificationMethod : list VerificationMethod
}.

Inductive did_error :=
| EUnsupportedMethod | EEncoding | ELoopbackName | ENoAddress | EDisallowed (a : ip)
| ERedirects | EBlocked (e : did_error) | ERequest | ENotFound | EStatus (code : Z) | EBody | EParse
| EMissingID | EIDMismatch | EMissingDID.

(** [net/http] following redirections, with the [CheckRedirect] of the client: at
    most ten requests, so nine redirections. *)
Definition maxRedirects : nat := 9.

Section Net.
Context `{Net}.

Definition lookup_ip (host : string) : M did_error (list ip) := fun tr =>
  (match LookupIP tr host with Some ips => Ok ips | None => Err ENoAddress end, tr ++ [ELookup host]).
(** A request to a text that is no URL is never made. *)
Definition send (r : http_request) : M did_error hop := fun tr =>
  if url_valid (r_URL r) then (Ok (serve tr r), tr ++ [ESend r]) else (Err ERequest, tr).

Definition redirected (r : http_request) (keep : bool) (location : string) : http_request :=
  let keep := keep || String.eqb (r_Method r) "GET" in
  {| r_Method := if keep then r_Method r else "GET"; r_URL := location;
     r_Body := if keep then r_Body r else ∅; r_DPoP := r_DPoP r |}.

Fixpoint follow (policy : string -> M did_error unit) (n : nat) (r : http_request)
  : M did_error (Z * string * option string) :=
  h ← send r;
  match h with
  | NoAnswer => fail ERequest
  | Answer status nonce body => mret (status, nonce, body)
  | Redirect keep location =>
      match n with
      | O => fail ERedirects
      | S n => _ ← policy location; follow policy n (redirected r keep location)
      end
  end.
Definition Get (policy : string -> M did_error unit) (u : string) :=
  follow policy maxRedirects {| r_Method := "GET"; r_URL := u; r_Body := ∅; r_DPoP := None |}.

(** ** The guard *)

Definition strip_port (host : string) : string :=
  match SplitHostPort host with Some (h, _) => h | None => host end.

(** [strings.ToLower] compared with an ASCII text: two letters outside ASCII have
    an ASCII lower case. *)
Definition lower_rune (r : Z) : Z :=
  if Did.is_upper r then r + 32 else if r =? 304 then 105 else if r =? 8490 then 107 else r.
Definition lowers_to (s t : string) : bool :=
  bool_decide (map (fun p => lower_rune p.1) (runes s) = map fst (runes t)).

Definition rejectPrivateHost (host : string) : M did_error unit :=
  let hostOnly := strip_port host in
  _ ← require (negb (lowers_to hostOnly "localhost" || lowers_to hostOnly "localhost.localdomain"))
        ELoopbackName;
  ips ← lookup_ip hostOnly;
  match ips with
  | [] => fail ENoAddress
  | _ => match List.find disallowed ips with Some a => fail (EDisallowed a) | None => mret tt end
  end.

(** The [CheckRedirect] of NewDIDResolver. *)
Definition CheckRedirect (location : string) : M did_error unit :=
  match Parse url_valid location with
  | None => fail ERequest
  | Some u => wrap EBlocked (rejectPrivateHost (Host u))
  end.

(** ** Documents *)

Context (unmarshal_doc : string -> option DIDDocument) (unmarshal_did : string -> option string).
Context (plcDirectoryURL : string).

Definition maxDIDDocumentBytes : Z := 256 * 1024.
Definition readBounded (body : option string) : M did_error string :=
  b ← from body EBody; _ ← require (glen b <=? maxDIDDocumentBytes) EBody; mret b.

Definition parseDIDDocument (data expectedDID : string) : M did_error DIDDocument :=
  doc ← from (unmarshal_doc data) EParse;
  _ ← require (negb (is_empty (doc_ID doc))) EMissingID;
  _ ← require (is_empty expectedDID || String.eqb (doc_ID doc) expectedDID) EIDMismatch;
  mret doc.

(** What [resolvePLCDID] and [resolveWebDID] do with an answer. *)
Definition read_document (did : string) (r : Z * string * option string) : M did_error DIDDocument :=
  let '(status, _, b) := r in
  _ ← require (negb (status =? 404)) ENotFound;
  _ ← require (status =? 200) (EStatus status);
  body ← readBounded b;
  parseDIDDocument body did.

Definition resolvePLCDID (did : string) : M did_error DIDDocument :=
  resp ← Get CheckRedirect (plcDirectoryURL +:+ "/" +:+ did);
  read_document did resp.

Definition resolveWebDID (did : string) : M did_error DIDDocument :=
  domain ← from (PathUnescape (trim_prefix did "did:web:")) EEncoding;
  _ ← rejectPrivateHost domain;
  resp ← Get CheckRedirect ("https://" +:+ domain +:+ "/.well-known/did.json");
  read_document did resp.

Definition ResolveDID (did : string) : M did_error DIDDocument :=
  if has_prefix did "did:plc:" then resolvePLCDID did
  else if has_prefix did "did:web:" then resolveWebDID did
  else fail EUnsupportedMethod.

Definition ResolveHandleToDID (handle : string) : M did_error string :=
  '(status, _, b) ← Get CheckRedirect
    ("https://bsky.social/xrpc/com.atproto.identity.resolveHandle?handle=" +:+ QueryEscape handle);
  _ ← require (status =? 200) (EStatus status);
  body ← readBounded b;
  did ← from (unmarshal_did body) EParse;
  _ ← require (negb (is_empty did)) EMissingDID;
  mret did.
End Net.

Definition endpoint_of (type : string) (doc : DIDDocument) : string :=
  match List.find (fun s => String.eqb (svc_Type s) type) (doc_Service doc) with
  | Some s => ServiceEndpoint s | None => "" end.
Definition GetPDSEndpoint (doc : DIDDocument) : string := endpoint_of "AtprotoPersonalDataServer" doc.
Definition GetLabelerEndpoint (doc : DIDDocument) : string := endpoint_of "AtprotoLabeler" doc.
Definition AtprotoSigningKey (doc : DIDDocument) : option VerificationMethod :=
  List.find (fun vm => String.eqb (vm_Type vm) "Multikey" && has_suffix (vm_ID vm) "#atproto")
    (doc_VerificationMethod doc).
Definition GetHandle (doc : DIDDocument) : string :=
  match List.find (fun aka => has_prefix aka "at://") (AlsoKnownAs doc) with
  | Some aka => trim_prefix aka "at://" | None => "" end.

(** ** The bridge to authorization servers *)

(** The fields of the metadata that the program reads. *)
Record AuthorizationServerMetadata := { Issuer : string; AuthorizationEndpoint : string }.
Record ProtectedResourceMetadata := { AuthorizationServers : list string }.
Record UpstreamTokens := {
  up_AccessToken : string; up_TokenType : string; up_ExpiresIn : Z; up_RefreshToken : string;
  up_Scope : option string; up_Sub : string
}.
Record PARResponse := { RequestURI : string; par_ExpiresIn : Z }.

(** The types of a BridgeError. *)
Inductive bridge_error :=
| ErrTypeDIDResolution (e : did_error) | ErrTypePDSNotFound | ErrTypeTokenExchange | ErrTypeHTTP
| ErrTypeInvalidResponse | ErrTypeMetadataFetch | ErrTypePAR.

Definition maxBridgeResponseBytes : Z := 2 ^ 20.
(** A body is cut at the limit without an error. *)
Definition limitBody (b : string) : string :=
  if glen b <=? maxBridgeResponseBytes then b else take_bytes (Z.to_nat maxBridgeResponseBytes) b.

Definition trim_suffix (s p : string) : string :=
  if has_suffix s p then take_bytes (String.length s - String.length p) s else s.

Definition BuildAuthorizationURL (Encode : query -> string) (authEndpoint : string) (params : query)
  : string :=
  if contains authEndpoint "?" then authEndpoint +:+ "&" +:+ Encode params
  else authEndpoint +:+ "?" +:+ Encode params.

Record ExchangeCodeRequest := {
  x_TokenEndpoint : string; x_Issuer : string; x_Code : string; CodeVerifier : string;
  x_RedirectURI : string; DPoPKey : DPoPKeyPair
}.

Section Bridge.
Context `{Net} `{Signer}.
Context (unmarshal_doc : string -> option DIDDocument)
  (unmarshal_prm : string -> option ProtectedResourceMetadata)
  (unmarshal_asm : string -> option AuthorizationServerMetadata)
  (unmarshal_tokens : string -> option UpstreamTokens)
  (unmarshal_error : string -> option string)
  (unmarshal_par : string -> option PARResponse).
(** The configuration: the client, its callback and, when there is a signing key,
    the assertion it makes for an audience. *)
Context (clientID callbackURL : string) (signing : option (string -> option string)).
(** The time, and the identifiers for two proofs, from the random generator. *)
Context (now : Z) (jti jti' : option string).

Definition requireHTTPSEndpoint (endpoint : string) : result bridge_error unit :=
  if is_empty endpoint then Err ErrTypeHTTP
  else match Parse url_valid endpoint with
       | None => Err ErrTypeHTTP
       | Some u =>
           if negb (String.eqb (Scheme u) "https") then Err ErrTypeHTTP
           else if is_empty (Host u) then Err ErrTypeHTTP else Ok tt
       end.

(** The client of the bridge follows redirections anywhere. *)
Definition Do (r : http_request) : M bridge_error (Z * string * option string) :=
  wrap (fun _ => ErrTypeHTTP) (follow (fun _ => mret tt) maxRedirects r).

(** The two metadata documents are fetched the same way. *)
Definition fetch_metadata {A} (decode : string -> option A) (path endpoint : string)
  : M bridge_error A :=
  _ ← lift (requireHTTPSEndpoint endpoint);
  '(status, _, b) ← Do {| r_Method := "GET"; r_URL := trim_suffix endpoint "/" +:+ path; r_Body := ∅;
                          r_DPoP := None |};
  _ ← require (status =? 200) ErrTypeMetadataFetch;
  from (b ≫= decode ∘ limitBody) ErrTypeInvalidResponse.
Definition FetchProtectedResourceMetadata : string -> M bridge_error ProtectedResourceMetadata :=
  fetch_metadata unmarshal_prm "/.well-known/oauth-protected-resource".
Definition FetchAuthorizationServerMetadata : string -> M bridge_error AuthorizationServerMetadata :=
  fetch_metadata unmarshal_asm "/.well-known/oauth-authorization-server".

Definition ResolveAuthServer (did : string) : M bridge_error (AuthorizationServerMetadata * string) :=
  didDoc ← wrap ErrTypeDIDResolution (ResolveDID unmarshal_doc "https://plc.directory" did);
  let pdsEndpoint := GetPDSEndpoint didDoc in
  _ ← require (negb (is_empty pdsEndpoint)) ErrTypePDSNotFound;
  prm ← FetchProtectedResourceMetadata pdsEndpoint;
  authServerEndpoint ← from (head (AuthorizationServers prm)) ErrTypeMetadataFetch;
  asm ← FetchAuthorizationServerMetadata authServerEndpoint;
  mret (asm, pdsEndpoint).

(** The body with the client assertion. *)
Definition asserted (issuer : string) (body : query) : M bridge_error query :=
  match signing with
  | None => mret body
  | Some createClientAssertion =>
      assertion ← from (createClientAssertion issuer) ErrTypeTokenExchange;
      mret (q_Set (q_Set body "client_assertion" assertion) "client_assertion_type"
              "urn:ietf:params:oauth:client-assertion-type:jwt-bearer")
  end.

(** One request for tokens; the answer is read in [fetchTokens]. *)
Definition token_request (id : option string) (tokenURL : string) (body : query) (key : DPoPKeyPair)
    (nonce : string) : M bridge_error (Z * string * string) :=
  proof ← from (match GenerateDPoPProof now id key "POST" tokenURL "" nonce with
                | Ok p => Some p | Err _ => None end) ErrTypeTokenExchange;
  '(status, header, b) ← Do {| r_Method := "POST"; r_URL := tokenURL; r_Body := body;
                               r_DPoP := Some proof |};
  respBody ← from (limitBody <$> b) ErrTypeHTTP;
  mret (status, header, respBody).

Definition read_tokens (respBody : string) : M bridge_error UpstreamTokens :=
  from (unmarshal_tokens respBody) ErrTypeInvalidResponse.

Definition fetchTokens (tokenURL : string) (body : query) (key : DPoPKeyPair) (issuer : string)
  : M bridge_error UpstreamTokens :=
  body ← asserted issuer body;
  '(status, dpopNonce, respBody) ← token_request jti tokenURL body key "";
  if status =? 200 then read_tokens respBody
  else if (status =? 400) && bool_decide (unmarshal_error respBody = Some "use_dpop_nonce") then
    if is_empty dpopNonce then fail ErrTypeTokenExchange
    else
      body ← asserted issuer body;
      '(status, _, respBody) ← token_request jti' tokenURL body key dpopNonce;
      if status =? 200 then read_tokens respBody else fail ErrTypeTokenExchange
  else fail ErrTypeTokenExchange.

Definition values (l : list (string * string)) : query :=
  foldr (fun p q => q_Set q p.1 p.2) ∅ l.

Definition ExchangeCode (req : ExchangeCodeRequest) : M bridge_error UpstreamTokens :=
  fetchTokens (x_TokenEndpoint req)
    (values [("grant_type", "authorization_code"); ("code", x_Code req);
             ("redirect_uri", x_RedirectURI req); ("client_id", clientID);
             ("code_verifier", CodeVerifier req)])
    (DPoPKey req) (x_Issuer req).

Definition RefreshTokens (tokenEndpoint issuer refreshToken : string) (key : DPoPKeyPair)
  : M bridge_error UpstreamTokens :=
  fetchTokens tokenEndpoint
    (values [("grant_type", "refresh_token"); ("refresh_token", refreshToken); ("client_id", clientID)])
    key issuer.

Definition PushAuthorizationRequest (parEndpoint : string) (params : query) (key : option DPoPKeyPair)
  : M bridge_error PARResponse :=
  proof ← match key with
          | None => mret None
          | Some k => p ← from (match GenerateDPoPProof now jti k "POST" parEndpoint "" "" with
                                | Ok p => Some p | Err _ => None end) ErrTypePAR;
                      mret (Some p)
          end;
  '(status, _, b) ← Do {| r_Method := "POST"; r_URL := parEndpoint; r_Body := params; r_DPoP := proof |};
  _ ← require ((status =? 201) || (status =? 200)) ErrTypePAR;
  from (b ≫= unmarshal_par ∘ limitBody) ErrTypeInvalidResponse.
End Bridge.

(** ** The guard keeps requests away from private hosts *)

(** The IPv4 ranges that are not accepted, also as IPv4-mapped addresses. *)
Lemma disallowed_v4 w x y z : 0 <= w < 256 -> 0 <= x < 256 -> 0 <= y < 256 -> 0 <= z < 256 ->
  disallowed [w; x; y; z] = true <->
    w = 127 \/ [w; x; y; z] = [0; 0; 0; 0] \/ w = 10 \/ (w = 172 /\ 16 <= x <= 31) \/
    (w = 192 /\ x = 168) \/ (w = 169 /\ x = 254) \/ 224 <= w <= 239.
Proof.
  intros Hw Hx Hy Hz. unfold disallowed, IsLoopback, IsUnspecified, IsPrivate, IsLinkLocalUnicast,
    IsLinkLocalMulticast, IsMulticast, IsInterfaceLocalMulticast. cbn [To4 length Nat.eqb andb].
  assert (forall a, 0 <= a < 256 -> Z.land a 240 = 16 * (a / 16)) as Hl.
  { intros a Ha. assert (forallb (fun n => Z.land (Z.of_nat n) 240 =? 16 * (Z.of_nat n / 16)) (seq 0 256) = true)
      as Hall by reflexivity.
    rewrite forallb_forall in Hall. specialize (Hall (Z.to_nat a)). rewrite Z2Nat.id in Hall by lia.
    apply Z.eqb_eq, Hall, in_seq. lia. }
  rewrite !Hl by done. rewrite !orb_true_iff, !andb_true_iff, bool_decide_eq_true.
  assert (16 * (w / 16) = 224 <-> 224 <= w <= 239) as Hw' by (Z.div_mod_to_equations; lia).
  assert (16 * (x / 16) = 16 <-> 16 <= x <= 31) as Hx' by (Z.div_mod_to_equations; lia).
  rewrite !Z.eqb_eq, Hw', Hx'. split; [|tauto].
  intros Hd. repeat match goal with
    | Hd : _ \/ _ |- _ => destruct Hd as [Hd|Hd]
    | Hd : _ /\ _ |- _ => destruct Hd as [? Hd]
    end; try tauto; lia.
Qed.

Section Guard.
Context `{Net}.

(** Every request of a trace either is one of [own] or goes to a host whose name
    was looked up just before, with no disallowed address in the answer. *)
Inductive guarded (own : http_request -> Prop) : list event -> Prop :=
| guarded_nil : guarded own []
| guarded_lookup tr h : guarded own tr -> guarded own (tr ++ [ELookup h])
| guarded_own tr r : own r -> guarded own tr -> guarded own (tr ++ [ESend r])
| guarded_send tr r u ips : guarded own tr -> Parse url_valid (r_URL r) = Some u ->
    LookupIP tr (strip_port (Host u)) = Some ips -> ips <> [] ->
    Forall (fun a => disallowed a = false) ips ->
    guarded own ((tr ++ [ELookup (strip_port (Host u))]) ++ [ESend r]).

Lemma find_none {A} (f : A -> bool) l : List.find f l = None -> Forall (fun a => f a = false) l.
Proof. intros Hf. apply Forall_forall. intros a Ha. apply list_elem_of_In in Ha. by apply (find_none f l). Qed.

Lemma rejectPrivateHost_spec own host tr : guarded own tr ->
  guarded own (rejectPrivateHost host tr).2 /\
  ((rejectPrivateHost host tr).1 = Ok tt -> exists ips,
     (rejectPrivateHost host tr).2 = tr ++ [ELookup (strip_port host)] /\
     LookupIP tr (strip_port host) = Some ips /\ ips <> [] /\
     Forall (fun a => disallowed a = false) ips).
Proof.
  intros Hg. pose proof (guarded_lookup own tr (strip_port host) Hg) as Hl.
  unfold rejectPrivateHost, require, lift, lookup_ip, mbind, M_bind.
  destruct (lowers_to _ _ || lowers_to _ _); cbn; [done|].
  destruct (LookupIP tr _) as [[|a ips]|]; cbn; [done| |done].
  destruct (disallowed a) eqn:Ha; cbn; [done|]. destruct (List.find disallowed ips) eqn:Hf; cbn; [done|].
  split; [done|]. intros _. exists (a :: ips). split_and!; [done..|].
  apply Forall_cons. split; [done|]. by apply find_none.
Qed.

Lemma follow_guarded own n : forall r tr, guarded own tr -> guarded own (tr ++ [ESend r]) ->
  guarded own (follow CheckRedirect n r tr).2.
Proof.
  induction n as [|n IH]; intros r tr Hg Hs; cbn [follow]; unfold send; unfold mbind, M_bind;
    (destruct (url_valid (r_URL r)); [|done]); cbn [fst snd];
    destruct (serve tr r) as [|keep loc|st nc b]; try done; cbn -[CheckRedirect follow].
  unfold CheckRedirect, wrap. destruct (Parse url_valid loc) as [u|] eqn:Hu; [|done].
  destruct (rejectPrivateHost_spec own (Host u) _ Hs) as [Hg' Hok].
  destruct (rejectPrivateHost (Host u) _) as [[[]|e] tr'] eqn:Hr; cbn -[follow] in *; [|done].
  destruct (Hok eq_refl) as (ips & -> & Hl & Hne & Hall). apply IH; [done|].
  eapply guarded_send; eauto.
Qed.

Lemma bind_trace {E A B} (m : M E A) (f : A -> M E B) (P : list event -> Prop) tr :
  P (m tr).2 -> (forall a, (m tr).1 = Ok a -> P (f a (m tr).2).2) -> P ((m ≫= f) tr).2.
Proof.
  unfold mbind, M_bind. intros Hp Hf. destruct (m tr) as [[a|e] tr'] eqn:Hm; cbn in *; [|done]. by apply Hf.
Qed.

(** *** Hosts of the requests *)

Lemma until_app stop d c r : all_bytes (fun b => negb (stop b)) d = true -> stop (zb c) = true ->
  until stop (d +:+ String c r) = d.
Proof.
  intros Hd Hc. induction d as [|a d IH]; [change ("" +:+ ?x) with x; cbn [until]; by rewrite Hc|].
  cbn [all_bytes] in Hd.
  apply andb_true_iff in Hd as [Ha Hd]. rewrite app_cons_str. cbn [until].
  apply negb_true_iff in Ha. by rewrite Ha, IH.
Qed.

Lemma after_last_lacks c s : lacks c s = true -> after_last c s = s.
Proof.
  destruct s as [|d s]; [done|]. intros Hl. cbn [after_last]. rewrite Hl.
  unfold lacks in Hl. cbn in Hl. apply andb_true_iff in Hl as [Hd _].
  destruct (Ascii.eqb_spec c d) as [->|]; [by rewrite Z.eqb_refl in Hd|done].
Qed.

Lemma PathUnescape_plain s : lacks "%" s = true -> PathUnescape s = Some s.
Proof.
  unfold lacks. induction s as [|c s IH]; [done|]. cbn [all_bytes PathUnescape].
  intros [Hc Hs]%andb_true_iff. destruct (Ascii.eqb_spec c "%") as [->|]; [done|]. by rewrite IH.
Qed.

(** A domain without the bytes that end or split the authority of a URL. *)
Definition plain_byte (b : Z) : bool := negb (existsb (Z.eqb b) [37; 64; 47; 63; 35]).
Definition plain_domain (d : string) : bool := all_bytes plain_byte d.

Lemma Parse_well_known d u : plain_domain d = true ->
  Parse url_valid ("https://" +:+ d +:+ "/.well-known/did.json") = Some u -> Host u = d.
Proof.
  intros Hd. unfold Parse. destruct (url_valid _); [|done].
  change (getScheme true ("https://" +:+ d +:+ "/.well-known/did.json"))
    with (Some ("https", "//" +:+ d +:+ "/.well-known/did.json")).
  cbn [default]. intros [= <-]. cbn [Host].
  change ("" +:+ ?x) with x. unfold has_prefix. rewrite prefix_nil.
  change ("/.well-known/did.json") with (String "/" ".well-known/did.json").
  assert (all_bytes (fun b => negb (existsb (Z.eqb b) [47; 63; 35])) d = true) as H1.
  { eapply all_bytes_impl; [|exact Hd]. unfold plain_byte. cbn. intros b. rewrite !negb_true_iff, !orb_false_iff. tauto. }
  assert (forall c, existsb (Z.eqb (zb c)) [37; 64; 47; 63; 35] = true -> lacks c d = true) as Hlacks.
  { intros c Hc. eapply all_bytes_impl; [|exact Hd]. unfold plain_byte. intros b Hb.
    destruct (Z.eqb_spec b (zb c)) as [->|]; [by rewrite Hc in Hb|done]. }
  rewrite until_app by done. rewrite after_last_lacks, PathUnescape_plain by by apply Hlacks.
  done.
Qed.
End Guard.

Section Resolution.
Context `{Net} (unmarshal_doc : string -> option DIDDocument) (unmarshal_did : string -> option string).
Context (plcDirectoryURL : string).

(** The requests that are made without looking at the host: to the directory
    and to the handle service. *)
Definition configured (did : string) (r : http_request) : Prop :=
  r_URL r = plcDirectoryURL +:+ "/" +:+ did \/
  has_prefix (r_URL r) "https://bsky.social/xrpc/" = true.

Lemma read_document_trace did resp tr : (read_document unmarshal_doc did resp tr).2 = tr.
Proof.
  destruct resp as [[st nc] b]. unfold read_document, readBounded, parseDIDDocument, require, from, lift.
  unfold mbind, M_bind. cbn. repeat (case_match; cbn in *; simplify_eq; try done).
Qed.

(** A DID whose decoded domain holds none of the bytes % @ / ? #: every DID that
    passes the check of internal/atproto/did. *)
Definition plain_did (did : string) : Prop := forall d,
  has_prefix did "did:web:" = true -> PathUnescape (trim_prefix did "did:web:") = Some d ->
  plain_domain d = true.

Lemma valid_did_domain did : Did.IsValid did = true -> plain_did did.
Proof.
  intros Hv%Did.valid_did_id_bytes d Hp Hu. apply prefix_spec in Hp as [t ->].
  rewrite trim_prefix_app in Hu. rewrite all_bytes_app in Hv. apply andb_true_iff in Hv as [_ Hv].
  assert (forall f : Z -> bool, (forall b, Did.is_id_byte b = true -> f b = true) -> all_bytes f t = true) as Hb
    by (intros f Hf; by eapply all_bytes_impl).
  rewrite PathUnescape_plain in Hu.
  - injection Hu as <-. apply Hb. intros b. unfold plain_byte, Did.is_id_byte, Did.is_lower, Did.is_upper, Did.is_digit.
    cbn. lia.
  - apply Hb. intros b. change (zb "%") with 37.
    unfold Did.is_id_byte, Did.is_lower, Did.is_upper, Did.is_digit. lia.
Qed.

(** No request of a DID resolution reaches a private host by a redirection or
    by the domain of a did:web: apart from the configured directory, every request
    goes to a host that was looked up just before, and whose every address is
    outside the loopback, private, link-local, multicast and unspecified ranges.
    It holds for the DIDs that the program validates ([valid_did_domain]); the
    resolver itself does not check that the domain is one (guard_passed_by). *)
Theorem resolution_guarded did tr :
  plain_did did -> guarded (configured did) tr ->
  guarded (configured did) (ResolveDID unmarshal_doc plcDirectoryURL did tr).2.
Proof.
  intros Hd Hg. unfold ResolveDID. destruct (has_prefix did "did:plc:").
  - unfold resolvePLCDID. apply bind_trace; [|intros resp _; rewrite read_document_trace];
      (apply follow_guarded; [done|]; apply guarded_own; [by left|done]).
  - unfold plain_did in Hd. destruct (has_prefix did "did:web:"); [|done]. unfold resolveWebDID.
    destruct (PathUnescape _) as [d|]; [|done]. specialize (Hd d eq_refl eq_refl).
    apply bind_trace; [done|]. cbn [from lift fst snd]. intros d' [= <-].
    destruct (rejectPrivateHost_spec (configured did) d tr Hg) as [Hg' Hok].
    apply bind_trace; [done|]. intros [] Ha. destruct (Hok Ha) as (ips & Ht & Hl & Hne & Hall).
    rewrite Ht in *. apply bind_trace; [|intros resp _; rewrite read_document_trace].
    all: unfold Get; destruct (Parse url_valid ("https://" +:+ d +:+ "/.well-known/did.json")) as [u|] eqn:Hu.
    2,4: unfold Parse in Hu; cbn [follow maxRedirects]; unfold send, mbind, M_bind; cbn [r_URL];
      by destruct (url_valid _).
    all: pose proof (Parse_well_known d u Hd Hu) as Hh; apply follow_guarded; [done|];
      subst d; by eapply guarded_send.
Qed.
End Resolution.

(** ** What a discovery found *)

Lemma M_bind_Ok {E A B} (m : M E A) (f : A -> M E B) tr b : ((m ≫= f) tr).1 = Ok b <->
  exists a, (m tr).1 = Ok a /\ (f a (m tr).2).1 = Ok b.
Proof.
  unfold mbind, M_bind. destruct (m tr) as [[a|e] tr']; cbn; [naive_solver|].
  split; [done|]. by intros (a & ? & _).
Qed.
Lemma wrapped_Ok {E F A} (f : E -> F) (m : M E A) tr a : (wrap f m tr).1 = Ok a <-> (m tr).1 = Ok a.
Proof. unfold wrap. destruct (m tr) as [[b|e] tr']; cbn; split; congruence. Qed.
Lemma from_Ok {E A} (o : option A) (e : E) tr a : (from o e tr).1 = Ok a <-> o = Some a.
Proof. unfold from, lift. destruct o; cbn; split; congruence. Qed.
Lemma require_Ok {E} (b : bool) (e : E) tr u : (require b e tr).1 = Ok u <-> b = true.
Proof. unfold require, lift. cbn. apply guard_err_Ok. Qed.

Lemma ResolveDID_id `{Net} unmarshal_doc plc did tr doc :
  (ResolveDID unmarshal_doc plc did tr).1 = Ok doc -> did <> "" -> doc_ID doc = did.
Proof.
  intros Hr Hne. assert (exists resp tr', (read_document unmarshal_doc did resp tr').1 = Ok doc)
    as ([[st nc] b] & tr' & Hd).
  { unfold ResolveDID in Hr. destruct (has_prefix did "did:plc:").
    - apply M_bind_Ok in Hr as (resp & _ & Hr). eauto.
    - destruct (has_prefix did "did:web:"); [|done].
      apply M_bind_Ok in Hr as (d & _ & Hr). apply M_bind_Ok in Hr as ([] & _ & Hr).
      apply M_bind_Ok in Hr as (resp & _ & Hr). eauto. }
  unfold read_document in Hd. apply M_bind_Ok in Hd as ([] & _ & Hd).
  apply M_bind_Ok in Hd as ([] & _ & Hd). apply M_bind_Ok in Hd as (body & _ & Hd).
  apply M_bind_Ok in Hd as (doc' & _ & Hd). apply M_bind_Ok in Hd as ([] & _ & Hd).
  apply M_bind_Ok in Hd as ([] & Hid & [= <-]). apply require_Ok in Hid.
  destruct did; [done|]. cbn [is_empty orb] in Hid. by apply String.eqb_eq.
Qed.

(** A metadata document came from a request to an https endpoint with a host. *)
Definition metadata_of `{Net} {A} (decode : string -> option A) (path endpoint : string) (a : A) : Prop :=
  requireHTTPSEndpoint endpoint = Ok tt /\
  exists tr header body,
    (Do {| r_Method := "GET"; r_URL := trim_suffix endpoint "/" +:+ path; r_Body := ∅;
           r_DPoP := None |} tr).1 = Ok (200, header, Some body) /\ decode (limitBody body) = Some a.

Lemma fetch_metadata_Ok `{Net} {A} (decode : string -> option A) path endpoint tr a :
  (fetch_metadata decode path endpoint tr).1 = Ok a -> metadata_of decode path endpoint a.
Proof.
  unfold fetch_metadata. intros Hf. apply M_bind_Ok in Hf as ([] & Hh & Hf).
  apply M_bind_Ok in Hf as ([[st nc] b] & Hd & Hf). apply M_bind_Ok in Hf as ([] & Hs & Hf).
  apply require_Ok, Z.eqb_eq in Hs as ->. apply from_Ok, bind_Some in Hf as (body & -> & Hb).
  split; [done|]. eauto.
Qed.

(** What ResolveAuthServer returns for a DID was found by the steps of the
    protocol: a document with that very DID as its id, its first PDS service, the
    protected-resource metadata at that endpoint, and the metadata of the first
    authorization server it lists; both endpoints are https URLs with a host. The
    issuer is not among the conclusions: nothing compares it with the endpoint
    that the metadata came from. *)
Theorem ResolveAuthServer_sound `{Net} unmarshal_doc unmarshal_prm unmarshal_asm did tr asm pds :
  did <> "" ->
  (ResolveAuthServer unmarshal_doc unmarshal_prm unmarshal_asm did tr).1 = Ok (asm, pds) ->
  exists doc prm server rest, doc_ID doc = did /\ pds = GetPDSEndpoint doc /\
    (exists tr', (ResolveDID unmarshal_doc "https://plc.directory" did tr').1 = Ok doc) /\
    metadata_of unmarshal_prm "/.well-known/oauth-protected-resource" pds prm /\
    AuthorizationServers prm = server :: rest /\
    metadata_of unmarshal_asm "/.well-known/oauth-authorization-server" server asm.
Proof.
  intros Hne Hr. unfold ResolveAuthServer in Hr. apply M_bind_Ok in Hr as (doc & Hd & Hr).
  apply wrapped_Ok in Hd. apply M_bind_Ok in Hr as ([] & _ & Hr).
  apply M_bind_Ok in Hr as (prm & Hp & Hr). apply M_bind_Ok in Hr as (s & Hs & Hr).
  apply from_Ok in Hs. apply M_bind_Ok in Hr as (m & Hm & [= <- <-]).
  destruct (AuthorizationServers prm) as [|s' rest] eqn:Hl; [done|]. injection Hs as ->.
  exists doc, prm, s, rest. split_and!; [by eapply ResolveDID_id|done|by exists tr| |done|].
  - by eapply fetch_metadata_Ok.
  - by eapply fetch_metadata_Ok.
Qed.

(** ** Examples *)

Module Example_bridge.

(** A world with one public name, whose servers serve every document. *)
#[local] Instance world : Net := {|
  LookupIP _ host := if String.eqb host "evil.com" then Some [[93; 184; 216; 34]]
                     else if String.eqb host "127.0.0.1" then Some [[127; 0; 0; 1]] else None;
  serve _ r := Answer 200 "" (Some (r_URL r));
  url_valid _ := true
|}.
Definition document (did pds : string) (body : string) : option DIDDocument :=
  Some {| doc_ID := did; AlsoKnownAs := []; doc_VerificationMethod := [];
          doc_Service := [{| svc_ID := "#atproto_pds"; svc_Type := "AtprotoPersonalDataServer";
                             ServiceEndpoint := pds |}] |}.

(** A DID whose domain decodes to [evil.com:443@127.0.0.1], as a relay may list it:
    the guard takes [evil.com] for the host and [443@127.0.0.1] for the port, while
    the request goes to 127.0.0.1 with user [evil.com]. *)
Definition rebound : string := "did:web:evil.com%3A443%40127.0.0.1".
Example guard_passed_by :
  let tr := (ResolveDID (document rebound "https://evil.com") "https://plc.directory" rebound []).2 in
  map (fun e => match e with
                | ELookup h => ("lookup", h)
                | ESend r => ("request", default "" (Host <$> Parse url_valid (r_URL r)))
                end) tr
  = [("lookup", "evil.com"); ("request", "127.0.0.1")] /\
  (rejectPrivateHost "127.0.0.1" []).1 = Err (EDisallowed [127; 0; 0; 1]).
Proof. split; vm_compute; reflexivity. Qed.

(** The authorization server of an account names any issuer, also one that is
    not https; the tokens are then asked for there (see Authorize). *)
Example issuer_unchecked :
  let asm _ := Some {| Issuer := "http://10.0.0.1"; AuthorizationEndpoint := "https://evil.com/a" |} in
  fst <$> (match (ResolveAuthServer (document "did:web:evil.com" "https://evil.com")
           (fun _ => Some {| AuthorizationServers := ["https://evil.com"] |}) asm "did:web:evil.com" []).1
     with Ok r => Some r | Err _ => None end)
  = asm "".
Proof. vm_compute. reflexivity. Qed.

Lemma resolution_guarded_witness :
  plain_did "did:web:evil.com" /\
  guarded (configured "https://plc.directory" "did:web:evil.com")
    (ResolveDID (document "did:web:evil.com" "https://evil.com") "https://plc.directory"
       "did:web:evil.com" []).2.
Proof.
  assert (plain_did "did:web:evil.com") as Hd by (apply valid_did_domain; reflexivity).
  split; [exact Hd|].
  apply (resolution_guarded (document "did:web:evil.com" "https://evil.com") "https://plc.directory"
           "did:web:evil.com" [] Hd). constructor.
Defined.

Lemma ResolveAuthServer_sound_witness :
  "did:web:evil.com" <> "" /\
  exists doc prm server rest, doc_ID doc = "did:web:evil.com" /\ "https://evil.com" = GetPDSEndpoint doc /\
    (exists tr', (ResolveDID (document "did:web:evil.com" "https://evil.com") "https://plc.directory"
                    "did:web:evil.com" tr').1 = Ok doc) /\
    metadata_of (fun _ => Some {| AuthorizationServers := ["https://evil.com"] |})
      "/.well-known/oauth-protected-resource" "https://evil.com" prm /\
    AuthorizationServers prm = server :: rest /\
    metadata_of (fun _ => Some {| Issuer := "https://evil.com"; AuthorizationEndpoint := "https://evil.com/a" |})
      "/.well-known/oauth-authorization-server" server
      {| Issuer := "https://evil.com"; AuthorizationEndpoint := "https://evil.com/a" |}.
Proof.
  split; [done|].
  apply (ResolveAuthServer_sound (document "did:web:evil.com" "https://evil.com") _ _ "did:web:evil.com" []);
    [done|]. vm_compute. reflexivity.
Defined.
End Example_bridge.
