(* ===== verification/Authorize.v ===== *)
(** The authorization flow: [internal/server/oauth_handlers.go] (authorize and
    callback handlers), [oauth_par.go] and [oauth_register.go], the client
    management of [internal/graphql/admin/resolvers_oauth_clients.go] and the
    tables behind them, run together with the handlers of TokenEndpoint and
    against the bridge of Bridge. *)
From S2P Require Import Prelude GoStrings Base64 AtProto TokenEndpoint Dpop Bridge.

Local Open Scope Z_scope.

(** ** Rows *)

Record AuthRequest := {
  SessionID : string; a_ClientID : string; a_RedirectURI : string; a_Scope : option string;
  State : option string; a_CodeChallenge : option string; a_CodeChallengeMethod : option string;
  ResponseType : string; a_Nonce : option string; LoginHint : option string;
  a_CreatedAt : Z; a_ExpiresAt : Z
}.
Record ATPRequest := {
  OAuthState : string; AuthorizationServer : string; Nonce : string; PKCEVerifier : string;
  SigningPublicKey : string; DPoPPrivateKey : string; p_CreatedAt : Z; p_ExpiresAt : Z
}.
Record ATPSession := {
  s_SessionID : string; Iteration : Z; s_DID : option string; SessionCreatedAt : Z;
  ATPOAuthState : string; SigningKeyJKT : string; s_DPoPKey : string;
  s_AccessToken : option string; s_RefreshToken : option string;
  AccessTokenCreatedAt : option Z; AccessTokenExpiresAt : option Z;
  AccessTokenScopes : option string; SessionExchangedAt : option Z; ExchangeError : option string
}.
Record PARRequest := {
  par_RequestURI : string; AuthorizationRequest : gmap string string; par_ClientID : string;
  par_CreatedAt : Z; par_ExpiresAt : Z; Subject : option string; par_Metadata : string
}.
Definition atp_expired (now : Z) (p : ATPRequest) : bool := p_ExpiresAt p <? now.

Record server := {
  tables : store;
  authRequests : gmap string AuthRequest;
  atpRequests : gmap string ATPRequest;
  atpSessions : gmap (string * Z) ATPSession;
  parRequests : gmap string PARRequest
}.

Definition with_tables (s : server) (t : store) : server :=
  {| tables := t; authRequests := authRequests s; atpRequests := atpRequests s;
     atpSessions := atpSessions s; parRequests := parRequests s |}.
Definition with_auth (s : server) (m : gmap string AuthRequest) : server :=
  {| tables := tables s; authRequests := m; atpRequests := atpRequests s;
     atpSessions := atpSessions s; parRequests := parRequests s |}.
Definition with_atp (s : server) (m : gmap string ATPRequest) : server :=
  {| tables := tables s; authRequests := authRequests s; atpRequests := m;
     atpSessions := atpSessions s; parRequests := parRequests s |}.
Definition with_sessions (s : server) (m : gmap (string * Z) ATPSession) : server :=
  {| tables := tables s; authRequests := authRequests s; atpRequests := atpRequests s;
     atpSessions := m; parRequests := parRequests s |}.
Definition with_par (s : server) (m : gmap string PARRequest) : server :=
  {| tables := tables s; authRequests := authRequests s; atpRequests := atpRequests s;
     atpSessions := atpSessions s; parRequests := m |}.
Definition set_clients (t : store) (m : gmap string Client) : store :=
  {| clients := m; authCodes := authCodes t; accessTokens := accessTokens t;
     refreshTokens := refreshTokens t; dpopJTIs := dpopJTIs t |}.

(** ** Operations of the tables *)

(** An insertion under a primary key; [ok] stands for the other constraints. *)
Definition insert_new {K A} `{Countable K} (ok : bool) (k : K) (a : A) (m : gmap K A)
    (put : gmap K A -> server) (s : server) : option unit * server :=
  if ok && negb (present (m !! k)) then (Some tt, put (<[k := a]> m)) else (None, s).

(** Which texts PostgreSQL casts to jsonb. *)
Class Jsonb := { jsonb : string -> bool; jsonb_empty : jsonb "" = false; jsonb_braces : jsonb "{}" = true }.

Section Tables.
Context `{Jsonb}.

Definition client_there (s : server) (id : string) : bool := present (clients (tables s) !! id).

Definition authCodes_Insert (c : AuthorizationCode) (s : server) : option unit * server :=
  insert_new true (Code c) c (authCodes (tables s))
    (fun m => with_tables s (set_codes (tables s) m)) s.
Definition authRequests_Insert (a : AuthRequest) (s : server) : option unit * server :=
  insert_new (client_there s (a_ClientID a)) (SessionID a) a (authRequests s) (with_auth s) s.
Definition authRequests_Delete (sessionID : string) (s : server) : server :=
  with_auth s (delete sessionID (authRequests s)).
Definition atpRequests_Insert (p : ATPRequest) (s : server) : option unit * server :=
  insert_new true (OAuthState p) p (atpRequests s) (with_atp s) s.
Definition atpRequests_Delete (oauthState : string) (s : server) : server :=
  with_atp s (delete oauthState (atpRequests s)).
Definition atpSessions_Insert (x : ATPSession) (s : server) : option unit * server :=
  insert_new true (s_SessionID x, Iteration x) x (atpSessions s) (with_sessions s) s.
(** [ORDER BY iteration DESC LIMIT 1]. *)
Definition later_iteration (o : option ATPSession) (x : ATPSession) : option ATPSession :=
  match o with Some y => if Iteration y <? Iteration x then Some x else o | None => Some x end.
Definition GetLatest (sessionID : string) (s : server) : option ATPSession :=
  fold_left later_iteration
    (filter (fun x => s_SessionID x = sessionID) ((map_to_list (atpSessions s)).*2)) None.
Definition exchanged (x y : ATPSession) : ATPSession :=
  {| s_SessionID := s_SessionID y; Iteration := Iteration y; s_DID := s_DID x;
     SessionCreatedAt := SessionCreatedAt y; ATPOAuthState := ATPOAuthState y;
     SigningKeyJKT := SigningKeyJKT y; s_DPoPKey := s_DPoPKey y; s_AccessToken := s_AccessToken x;
     s_RefreshToken := s_RefreshToken x; AccessTokenCreatedAt := AccessTokenCreatedAt x;
     AccessTokenExpiresAt := AccessTokenExpiresAt x; AccessTokenScopes := AccessTokenScopes x;
     SessionExchangedAt := SessionExchangedAt x; ExchangeError := ExchangeError x |}.
Definition atpSessions_Update (x : ATPSession) (s : server) : server :=
  with_sessions s (alter (exchanged x) (s_SessionID x, Iteration x) (atpSessions s)).
Definition parRequests_Insert (p : PARRequest) (s : server) : option unit * server :=
  insert_new (client_there s (par_ClientID p) && jsonb (par_Metadata p)) (par_RequestURI p) p
    (parRequests s) (with_par s) s.

(** A column of type jsonb takes NULL or a text that can be cast. *)
Definition jsonb_column (o : option string) : bool := match o with Some t => jsonb t | None => true end.
Definition clients_Insert (c : Client) (s : server) : option unit * server :=
  insert_new (jsonb (cl_Metadata c) && jsonb_column (cl_JWKS c)) (cl_ClientID c) c (clients (tables s))
    (fun m => with_tables s (set_clients (tables s) m)) s.
Definition updated_client (c old : Client) : Client :=
  {| cl_ClientID := cl_ClientID old; cl_ClientSecret := cl_ClientSecret c;
     cl_ClientName := cl_ClientName c; cl_RedirectURIs := cl_RedirectURIs c;
     cl_GrantTypes := cl_GrantTypes c; cl_ResponseTypes := cl_ResponseTypes c; cl_Scope := cl_Scope c;
     cl_TokenEndpointAuthMethod := cl_TokenEndpointAuthMethod c; cl_ClientType := cl_ClientType old;
     cl_CreatedAt := cl_CreatedAt old; cl_UpdatedAt := cl_UpdatedAt c; cl_Metadata := cl_Metadata c;
     cl_AccessTokenExpiration := cl_AccessTokenExpiration c;
     cl_RefreshTokenExpiration := cl_RefreshTokenExpiration c;
     cl_RequireRedirectExact := cl_RequireRedirectExact c;
     cl_RegistrationAccessToken := cl_RegistrationAccessToken old; cl_JWKS := cl_JWKS c |}.
Definition clients_Update (c : Client) (s : server) : option unit * server :=
  if jsonb (cl_Metadata c) && jsonb_column (cl_JWKS c)
  then (Some tt, with_tables s (set_clients (tables s)
                   (alter (updated_client c) (cl_ClientID c) (clients (tables s)))))
  else (None, s).
(** The deletion of a client takes its tokens, requests and pushed requests with
    it (ON DELETE CASCADE), but not its codes. *)
Definition clients_Delete (id : string) (s : server) : server :=
  let t := tables s in
  {| tables := {| clients := delete id (clients t); authCodes := authCodes t;
                  accessTokens := filter (fun p => at_ClientID p.2 <> id) (accessTokens t);
                  refreshTokens := filter (fun p => rt_ClientID p.2 <> id) (refreshTokens t);
                  dpopJTIs := dpopJTIs t |};
     authRequests := filter (fun p => a_ClientID p.2 <> id) (authRequests s);
     atpRequests := atpRequests s; atpSessions := atpSessions s;
     parRequests := filter (fun p => par_ClientID p.2 <> id) (parRequests s) |}.
End Tables.

(** ** Programs *)

(** What the bridge answers at some moment. *)
Record network := {
  n_handle : string -> option string;
  n_server : string -> option AuthorizationServerMetadata;
  n_exchange : ExchangeCodeRequest -> option UpstreamTokens
}.

Inductive call_ : Set -> Type :=
| Table {B : Set} (c : cmd B) : call_ B
| InsertCode (c : AuthorizationCode) : call_ unit
| InsertAuth (a : AuthRequest) : call_ unit
| GetAuth (sessionID : string) : call_ (option AuthRequest)
| DeleteAuth (sessionID : string) : call_ unit
| InsertATP (p : ATPRequest) : call_ unit
| GetATP (oauthState : string) : call_ (option ATPRequest)
| DeleteATP (oauthState : string) : call_ unit
| InsertSession (x : ATPSession) : call_ unit
| LatestSession (sessionID : string) : call_ (option ATPSession)
| UpdateSession (x : ATPSession) : call_ unit
| InsertPAR (p : PARRequest) : call_ unit
| InsertClient (c : Client) : call_ unit
| UpdateClient (c : Client) : call_ unit
| DeleteClient (id : string) : call_ unit
| ResolveHandle (handle : string) : call_ string
| FindServer (did : string) : call_ AuthorizationServerMetadata
| Exchange (x : ExchangeCodeRequest) : call_ UpstreamTokens.

Definition perform `{Jsonb} {B} (w : network) (c : call_ B) (s : server) : option B * server :=
  match c with
  | Table c => let r := apply c (tables s) in (r.1, with_tables s r.2)
  | InsertCode c => authCodes_Insert c s
  | InsertAuth a => authRequests_Insert a s
  | GetAuth id => (Some (authRequests s !! id), s)
  | DeleteAuth id => (Some tt, authRequests_Delete id s)
  | InsertATP p => atpRequests_Insert p s
  | GetATP st => (Some (atpRequests s !! st), s)
  | DeleteATP st => (Some tt, atpRequests_Delete st s)
  | InsertSession x => atpSessions_Insert x s
  | LatestSession id => (Some (GetLatest id s), s)
  | UpdateSession x => (Some tt, atpSessions_Update x s)
  | InsertPAR p => parRequests_Insert p s
  | InsertClient c => clients_Insert c s
  | UpdateClient c => clients_Update c s
  | DeleteClient id => (Some tt, clients_Delete id s)
  | ResolveHandle h => (n_handle w h, s)
  | FindServer did => (n_server w did, s)
  | Exchange x => (n_exchange w x, s)
  end.

(** Answers of the handlers. The descriptions of errors are left out. *)
Inductive reply :=
| Fault (status : Z) (code : string)
| RedirectTo (uri : string) (set : list (string * string)) (* with these parameters set *)
| ToServer (url : string)
| Registered (c : Client)
| Pushed (requestURI : string) (expiresIn : Z)
| AdminDone | AdminFailed
| TokenReply (r : response)
| Crashed.

Inductive program :=
| Return (r : reply)
| Call {B : Set} (c : call_ B) (k : option B -> program).

(** A handler of the token endpoint among the others. *)
Fixpoint embed (p : prog) : program :=
  match p with
  | Ret r => Return (TokenReply r)
  | TokenEndpoint.Do c k => Call (Table c) (fun o => embed (k o))
  end.

(** A call whose error is answered with [e]. *)
Definition try_ {B : Set} (c : call_ B) (e : reply) (k : B -> program) : program :=
  Call c (fun o => match o with Some b => k b | None => Return e end).
Notation "'ensure' b 'else' e ';' k" := (if b then k else Return e)
  (at level 200, b at level 100, e at level 100, k at level 200).
Notation "x '<<' c 'else' e ';' k" := (try_ c e (fun x => k))
  (at level 200, c at level 100, e at level 100, k at level 200).

(** ** Handlers *)

(** The configuration that these handlers read. *)
Record FlowConfig := {
  f_ClientID : string; CallbackURL : string; AuthorizationCodeExpiration : Z
}.

(** [nil] for an empty text. *)
Definition ptrString (s : string) : option string := if is_empty s then None else Some s.

Definition isValidRedirectURI (uri : string) (registeredURIs : list string) : bool :=
  existsb (String.eqb uri) registeredURIs.

(** A request to authorize: its parameters, the time, and what the random
    generator gives for the session, the state, the key and the verifier. *)
Record AuthorizeInput := {
  params : gmap string string;
  i_time : Z;
  newSession : option string;
  newState : option string;
  newKey : option DPoPKeyPair;
  newVerifier : option string
}.
Definition param (i : AuthorizeInput) (key : string) : string := default "" (params i !! key).

(** A callback: its query, the times of the expiry check, of the answer to the
    exchange and of the new code, and the text of the new code. *)
Record CallbackInput := {
  q_params : gmap string string;
  c_time : Z; c_answered : Z; c_issued : Z;
  newCode : option string
}.
Definition qparam (i : CallbackInput) (key : string) : string := default "" (q_params i !! key).

Section Handlers.
Context `{CryptoLib, JwkJson} (h : FlowConfig).
(** net/url: the texts that parse, and the encoding of a query. *)
Context (parses : string -> bool) (Encode : query -> string).

(** The parameters that [redirectWithError] sets, apart from the description. *)
Definition redirectWithError (redirectURI errorCode state : string) : reply :=
  if parses redirectURI
  then RedirectTo redirectURI (("error", errorCode) :: if is_empty state then [] else [("state", state)])
  else Fault 400 "invalid_request".

Definition scope_or (scope : string) (client : Client) : string :=
  let s := if is_empty scope then default "" (cl_Scope client) else scope in
  if is_empty s then "atproto" else s.

Definition authorization_url (i : AuthorizeInput) (endpoint state verifier scope did : string) : string :=
  BuildAuthorizationURL Encode endpoint (values
    [("client_id", f_ClientID h); ("redirect_uri", CallbackURL h); ("response_type", "code");
     ("code_challenge", GenerateCodeChallenge verifier); ("code_challenge_method", "S256");
     ("state", state); ("scope", scope); ("login_hint", did)]).

Definition new_auth_request (i : AuthorizeInput) (sessionID method : string) : AuthRequest :=
  {| SessionID := sessionID; a_ClientID := param i "client_id"; a_RedirectURI := param i "redirect_uri";
     a_Scope := ptrString (param i "scope"); State := ptrString (param i "state");
     a_CodeChallenge := ptrString (param i "code_challenge"); a_CodeChallengeMethod := ptrString method;
     ResponseType := param i "response_type"; a_Nonce := ptrString (param i "nonce");
     LoginHint := ptrString (param i "login_hint"); a_CreatedAt := i_time i;
     a_ExpiresAt := i_time i + AuthorizationCodeExpiration h |}.

(** From the DID on: find the server of the account and store the three rows. *)
Definition start_flow (i : AuthorizeInput) (client : Client) (method did : string) : program :=
  let fault code := redirectWithError (param i "redirect_uri") code (param i "state") in
  authServer << FindServer did else fault "server_error";
  match newSession i with None => Return (fault "server_error") | Some sessionID =>
  _ << InsertAuth (new_auth_request i sessionID method) else fault "server_error";
  match newState i with None => Return (fault "server_error") | Some atpOAuthState =>
  match newKey i with None => Return (fault "server_error") | Some dpopKey =>
  let dpopKeyJSON := default "" (ToPrivateJSON dpopKey) in
  match newVerifier i with None => Return (fault "server_error") | Some pkceVerifier =>
  _ << InsertATP {| OAuthState := atpOAuthState; AuthorizationServer := Issuer authServer;
                    Nonce := sessionID; PKCEVerifier := pkceVerifier;
                    SigningPublicKey := CalculateJKT dpopKey; DPoPPrivateKey := dpopKeyJSON;
                    p_CreatedAt := i_time i;
                    p_ExpiresAt := i_time i + AuthorizationCodeExpiration h |} else fault "server_error";
  _ << InsertSession {| s_SessionID := sessionID; Iteration := 0; s_DID := Some did;
                        SessionCreatedAt := i_time i; ATPOAuthState := atpOAuthState;
                        SigningKeyJKT := CalculateJKT dpopKey; s_DPoPKey := dpopKeyJSON;
                        s_AccessToken := None; s_RefreshToken := None; AccessTokenCreatedAt := None;
                        AccessTokenExpiresAt := None; AccessTokenScopes := None;
                        SessionExchangedAt := None; ExchangeError := None |} else fault "server_error";
  Return (ToServer (authorization_url i (AuthorizationEndpoint authServer) atpOAuthState pkceVerifier
                      (scope_or (param i "scope") client) did))
  end end end end.

(** A GET or POST request whose form could be parsed. *)
Definition HandleAuthorize (i : AuthorizeInput) : program :=
  let redirectURI := param i "redirect_uri" in
  let fault code := redirectWithError redirectURI code (param i "state") in
  ensure negb (is_empty (param i "client_id")) else Fault 400 "invalid_request";
  ensure negb (is_empty redirectURI) else Fault 400 "invalid_request";
  client << Table (GetClient (param i "client_id")) else Fault 500 "server_error";
  match client with None => Return (Fault 400 "invalid_client") | Some client =>
  ensure isValidRedirectURI redirectURI (cl_RedirectURIs client) else Fault 400 "invalid_request";
  ensure String.eqb (param i "response_type") "code" else fault "unsupported_response_type";
  ensure negb (is_empty (param i "code_challenge")) else fault "invalid_request";
  let m := param i "code_challenge_method" in
  ensure String.eqb m "S256" || is_empty m else fault "invalid_request";
  let method := if is_empty m then "S256" else m in
  let loginHint := param i "login_hint" in
  ensure negb (is_empty loginHint) else fault "invalid_request";
  if Did.IsValid loginHint then start_flow i client method loginHint
  else did << ResolveHandle loginHint else fault "invalid_request"; start_flow i client method did
  end.

(** The session row after an exchange. *)
Definition exchanged_session (now : Z) (t : UpstreamTokens) (x : ATPSession) : ATPSession :=
  {| s_SessionID := s_SessionID x; Iteration := Iteration x; s_DID := Some (up_Sub t);
     SessionCreatedAt := SessionCreatedAt x; ATPOAuthState := ATPOAuthState x;
     SigningKeyJKT := SigningKeyJKT x; s_DPoPKey := s_DPoPKey x;
     s_AccessToken := Some (up_AccessToken t); s_RefreshToken := Some (up_RefreshToken t);
     AccessTokenCreatedAt := Some now; AccessTokenExpiresAt := Some (wrap64 (now + up_ExpiresIn t));
     AccessTokenScopes := match up_Scope t with Some s => Some s | None => AccessTokenScopes x end;
     SessionExchangedAt := Some now; ExchangeError := ExchangeError x |}.

Definition new_code (i : CallbackInput) (a : AuthRequest) (t : UpstreamTokens)
    (sessionID code : string) : AuthorizationCode :=
  {| Code := code; ac_ClientID := a_ClientID a; ac_UserID := up_Sub t;
     ac_SessionID := Some sessionID; ac_SessionIteration := Some 0;
     RedirectURI := a_RedirectURI a; ac_Scope := a_Scope a; CodeChallenge := a_CodeChallenge a;
     CodeChallengeMethod := a_CodeChallengeMethod a; ac_Nonce := a_Nonce a;
     ac_CreatedAt := c_answered i; ac_ExpiresAt := c_issued i + AuthorizationCodeExpiration h;
     Used := false |}.

(** The end of a callback: the code, the clean-up, the redirection. The parse
    error of the redirect URI is dropped, and its result then dereferenced. *)
Definition issue_code (i : CallbackInput) (atpState : string) (a : AuthRequest) (t : UpstreamTokens)
    (sessionID : string) : program :=
  let clientState := default "" (State a) in
  let fault code := redirectWithError (a_RedirectURI a) code clientState in
  match newCode i with None => Return (fault "server_error") | Some clientCode =>
  _ << InsertCode (new_code i a t sessionID clientCode) else fault "server_error";
  Call (DeleteATP atpState) (fun _ => Call (DeleteAuth sessionID) (fun _ =>
  Return (if parses (a_RedirectURI a)
          then RedirectTo (a_RedirectURI a)
                 (("code", clientCode) :: if is_empty clientState then [] else [("state", clientState)])
          else Crashed)))
  end.

Definition HandleCallback (i : CallbackInput) : program :=
  let atpState := qparam i "state" in
  atpReq << GetATP atpState else Fault 500 "server_error";
  match atpReq with None => Return (Fault 400 "invalid_request") | Some atpReq =>
  if atp_expired (c_time i) atpReq
  then Call (DeleteATP atpState) (fun _ => Return (Fault 400 "invalid_request"))
  else
    let sessionID := Nonce atpReq in
    authReq << GetAuth sessionID else Fault 500 "server_error";
    match authReq with None => Return (Fault 400 "invalid_request") | Some a =>
    let fault code := redirectWithError (a_RedirectURI a) code (default "" (State a)) in
    ensure is_empty (qparam i "error") else fault (qparam i "error");
    ensure negb (is_empty (qparam i "code")) else fault "invalid_request";
    match ParseDPoPKeyPair (DPoPPrivateKey atpReq) with
    | Err _ => Return (fault "server_error")
    | Ok dpopKey =>
        t << Exchange {| x_TokenEndpoint := AuthorizationServer atpReq +:+ "/oauth/token";
                         x_Issuer := AuthorizationServer atpReq; x_Code := qparam i "code";
                         CodeVerifier := PKCEVerifier atpReq; x_RedirectURI := CallbackURL h;
                         DPoPKey := dpopKey |} else fault "server_error";
        Call (LatestSession sessionID) (fun o =>
        match o with
        | Some (Some x) =>
            Call (UpdateSession (exchanged_session (c_answered i) t x)) (fun _ =>
            issue_code i atpState a t sessionID)
        | _ => issue_code i atpState a t sessionID
        end)
    end
    end
  end.

(** ** Pushed requests and registration *)

(** A pushed request: its form, the time and the random part of its URI. *)
Record PARInput := { par_form : gmap string string; par_time : Z; par_random : string }.
Definition pform (i : PARInput) (key : string) : string := default "" (par_form i !! key).

(** The request as JSON, an object of texts: the optional parameters that are
    not empty and the three others. *)
Definition pushed_fields (i : PARInput) : gmap string string :=
  foldr (fun key m => if is_empty (pform i key) then m else <[key := pform i key]> m)
    (<["response_type" := pform i "response_type"]> (<["client_id" := pform i "client_id"]>
      {["redirect_uri" := pform i "redirect_uri"]}))
    ["scope"; "state"; "code_challenge"; "code_challenge_method"; "login_hint"; "nonce"].

Definition HandlePAR (i : PARInput) : program :=
  let clientID := pform i "client_id" in
  ensure negb (is_empty clientID) else Fault 400 "invalid_request";
  client << Table (GetClient clientID) else Fault 500 "server_error";
  match client with None => Return (Fault 401 "invalid_client") | Some client =>
  ensure negb (is_empty (pform i "response_type")) else Fault 400 "invalid_request";
  ensure negb (is_empty (pform i "redirect_uri")) else Fault 400 "invalid_request";
  ensure isValidRedirectURI (pform i "redirect_uri") (cl_RedirectURIs client)
    else Fault 400 "invalid_request";
  let requestURI := "urn:ietf:params:oauth:request_uri:" +:+ par_random i in
  let p := {| par_RequestURI := requestURI; AuthorizationRequest := pushed_fields i;
              par_ClientID := clientID; par_CreatedAt := par_time i; par_ExpiresAt := par_time i + 60;
              Subject := None; par_Metadata := "{}" |} in
  _ << InsertPAR p else Fault 500 "server_error";
  Return (Pushed requestURI 60)
  end.
End Handlers.

(** The fields of a registration request that the handler reads. *)
Record RegistrationRequest := {
  ClientName : string; RedirectURIs : list string; GrantTypes : list string;
  ResponseTypes : list string; TokenEndpointAuthMethod : string; Scope : string
}.

Definition keep_known (known l : list string) : list string :=
  filter (fun t => existsb (String.eqb t) known = true) l.
Definition parseGrantTypes (types : list string) : list string :=
  keep_known ["authorization_code"; "refresh_token"; "client_credentials"] types.
Definition parseResponseTypes (types : list string) : list string := keep_known ["code"; "token"] types.
Definition parseAuthMethod (method : string) : string :=
  if existsb (String.eqb method) ["client_secret_basic"; "client_secret_post"; "private_key_jwt"]
  then method else "none".
Definition or_default {A} (l d : list A) : list A := match l with [] => d | _ => l end.

(** [Hostname]: the host without port and brackets. *)
Definition Hostname (host : string) : string :=
  let h := match cut_last ":" host with
           | Some (a, port) => if all_bytes Did.is_digit port then a else host
           | None => host end in
  if has_prefix h "[" && has_suffix h "]" then take_bytes (String.length h - 2) (drop_bytes 1 h) else h.

Section Registration.
Context `{Net}.

Definition validateRedirectURI (uri : string) : bool :=
  match Parse url_valid uri with
  | None => false
  | Some u =>
      let host := lower_ascii (Hostname (Host u)) in
      negb (is_empty (Bridge.Scheme u)) &&
      (String.eqb (Bridge.Scheme u) "https" || existsb (String.eqb host) ["localhost"; "127.0.0.1"; "[::1]"]) &&
      match cut_at "#" uri with Some (_, fragment) => is_empty fragment | None => true end
  end.

(** A registration: the decoded body, the time and the random texts. *)
Record RegisterInput := {
  request : option RegistrationRequest; reg_time : Z; randomID : string; randomSecret : string
}.

Definition registered_client (i : RegisterInput) (req : RegistrationRequest) : Client :=
  let authMethod := parseAuthMethod (TokenEndpointAuthMethod req) in
  let clientType := if String.eqb authMethod "none" then ClientPublic else ClientConfidential in
  {| cl_ClientID := "client_" +:+ randomID i;
     cl_ClientSecret := if String.eqb clientType ClientConfidential then Some (randomSecret i) else None;
     cl_ClientName := if is_empty (ClientName req) then "OAuth Client" else ClientName req;
     cl_RedirectURIs := RedirectURIs req;
     cl_GrantTypes := or_default (parseGrantTypes (GrantTypes req)) ["authorization_code"; "refresh_token"];
     cl_ResponseTypes := or_default (parseResponseTypes (ResponseTypes req)) ["code"];
     cl_Scope := Some (if is_empty (Scope req) then "atproto" else Scope req);
     cl_TokenEndpointAuthMethod := authMethod; cl_ClientType := clientType;
     cl_CreatedAt := reg_time i; cl_UpdatedAt := reg_time i; cl_Metadata := "";
     cl_AccessTokenExpiration := 3600; cl_RefreshTokenExpiration := 2592000;
     cl_RequireRedirectExact := true; cl_RegistrationAccessToken := None; cl_JWKS := None |}.

Definition HandleRegister (i : RegisterInput) : program :=
  match request i with
  | None => Return (Fault 400 "invalid_request")
  | Some req =>
      ensure negb (bool_decide (RedirectURIs req = [])) else Fault 400 "invalid_request";
      ensure forallb validateRedirectURI (RedirectURIs req) else Fault 400 "invalid_request";
      let client := registered_client i req in
      _ << InsertClient client else Fault 500 "server_error";
      Return (Registered client)
  end.
End Registration.

(** ** The clients of the administrators *)

Record AdminInput := { admin_time : Z; randomHexID : option string; randomHexSecret : option string }.

Definition CreateOAuthClient (i : AdminInput) (clientName clientType : string)
    (redirectURIs : list string) : program :=
  match randomHexID i with None => Return AdminFailed | Some clientID =>
  let confidential := String.eqb clientType ClientConfidential in
  if confidential && negb (present (randomHexSecret i)) then Return AdminFailed
  else
    _ << InsertClient
      {| cl_ClientID := clientID; cl_ClientSecret := if confidential then randomHexSecret i else None;
         cl_ClientName := clientName; cl_RedirectURIs := redirectURIs;
         cl_GrantTypes := ["authorization_code"; "refresh_token"]; cl_ResponseTypes := ["code"];
         cl_Scope := None;
         cl_TokenEndpointAuthMethod := if String.eqb clientType ClientPublic then "none" else "client_secret_basic";
         cl_ClientType := clientType; cl_CreatedAt := admin_time i; cl_UpdatedAt := admin_time i;
         cl_Metadata := "{}"; cl_AccessTokenExpiration := 3600;
         cl_RefreshTokenExpiration := 86400 * 30; cl_RequireRedirectExact := true;
         cl_RegistrationAccessToken := None; cl_JWKS := None |} else AdminFailed;
    Return AdminDone
  end.

Definition renamed (i : AdminInput) (clientName : string) (redirectURIs : list string) (c : Client) : Client :=
  {| cl_ClientID := cl_ClientID c; cl_ClientSecret := cl_ClientSecret c; cl_ClientName := clientName;
     cl_RedirectURIs := redirectURIs; cl_GrantTypes := cl_GrantTypes c;
     cl_ResponseTypes := cl_ResponseTypes c; cl_Scope := cl_Scope c;
     cl_TokenEndpointAuthMethod := cl_TokenEndpointAuthMethod c; cl_ClientType := cl_ClientType c;
     cl_CreatedAt := cl_CreatedAt c; cl_UpdatedAt := admin_time i; cl_Metadata := cl_Metadata c;
     cl_AccessTokenExpiration := cl_AccessTokenExpiration c;
     cl_RefreshTokenExpiration := cl_RefreshTokenExpiration c;
     cl_RequireRedirectExact := cl_RequireRedirectExact c;
     cl_RegistrationAccessToken := cl_RegistrationAccessToken c; cl_JWKS := cl_JWKS c |}.

Definition UpdateOAuthClient (i : AdminInput) (clientID clientName : string)
    (redirectURIs : list string) : program :=
  client << Table (GetClient clientID) else AdminFailed;
  match client with None => Return AdminFailed | Some client =>
  _ << UpdateClient (renamed i clientName redirectURIs client) else AdminFailed;
  Return AdminDone
  end.

Definition DeleteOAuthClient (clientID : string) : program :=
  ensure negb (String.eqb clientID "admin") else AdminFailed;
  _ << DeleteClient clientID else AdminFailed;
  Return AdminDone.

(** ** The cleanup worker *)

Record worked := { w_auth : bool; w_atp : bool; w_tables : works }.
Definition clean (w : worked) (now : Z) (s : server) : server :=
  let s1 := if w_auth w
            then with_auth s (filter (fun p => negb (a_ExpiresAt p.2 <? now) = true) (authRequests s)) else s in
  let s2 := if w_atp w
            then with_atp s1 (filter (fun p => negb (p_ExpiresAt p.2 <? now) = true) (atpRequests s1)) else s1 in
  with_tables s2 (cleanup (w_tables w) now (tables s2)).

(** ** Interleavings *)

(** What happened, for the statements: rows that were read or stored and answers
    that were received. *)
Inductive fact :=
| FClient (c : Client) (* was in the table when it was read *)
| FAsked (a : AuthRequest)
| FOutbound (p : ATPRequest)
| FHandle (handle did : string)
| FServer (did : string) (m : AuthorizationServerMetadata)
| FTokens (x : ExchangeCodeRequest) (t : UpstreamTokens)
| FCode (c : AuthorizationCode).

Definition note {B} (c : call_ B) : option B -> list fact :=
  match c with
  | Table c => match c with
               | GetClient _ => fun o => match o with Some (Some cl) => [FClient cl] | _ => [] end
               | _ => fun _ => []
               end
  | InsertAuth a => fun o => if present o then [FAsked a] else []
  | InsertATP p => fun o => if present o then [FOutbound p] else []
  | InsertCode c => fun o => if present o then [FCode c] else []
  | ResolveHandle hd => fun o => match o with Some d => [FHandle hd d] | None => [] end
  | FindServer did => fun o => match o with Some m => [FServer did m] | None => [] end
  | Exchange x => fun o => match o with Some t => [FTokens x t] | None => [] end
  | _ => fun _ => []
  end.

(** The fate of a call as in TokenEndpoint, and what there is to note of it. *)
Definition execute `{Jsonb} {B} (f : fate) (w : network) (c : call_ B) (s : server)
  : option B * server * list fact :=
  match f with
  | Works => let r := perform w c s in (r.1, r.2, note c r.1)
  | Fails => (None, s, [])
  | AnswerLost => let r := perform w c s in (None, r.2, note c r.1)
  end.

(** Session identifiers are random: none is used for two requests. *)
Definition new_session {B} (H0 : list fact) (c : call_ B) : Prop :=
  match c with
  | InsertAuth a => forall b, FAsked b ∈ H0 -> SessionID b <> SessionID a
  | _ => True
  end.

Record system := { state : server; running : list program; history : list fact }.

(** A handler with its request. *)
Inductive arrival :=
| AAuthorize (i : AuthorizeInput) | ACallback (i : CallbackInput) | APAR (i : PARInput)
| ARegister (i : RegisterInput) | AToken (r : Request) | ARevoke (r : Request)
| ACreate (i : AdminInput) (name type : string) (uris : list string)
| AUpdate (i : AdminInput) (id name : string) (uris : list string) | ADelete (id : string).

Section System.
Context `{CL : CryptoLib, JJ : JwkJson, NN : Net, JB : Jsonb} (h : FlowConfig) (ht : OAuthHandlerConfig).
Context (parses : string -> bool) (Encode : query -> string).
(** The answers that the network may give. *)
Context (answers : network -> Prop).

Definition handler (a : arrival) : program :=
  match a with
  | AAuthorize i => HandleAuthorize h parses Encode i
  | ACallback i => HandleCallback h parses i
  | APAR i => HandlePAR i
  | ARegister i => HandleRegister i
  | AToken r => embed (HandleToken ht r)
  | ARevoke r => embed (HandleRevoke r)
  | ACreate i n t us => CreateOAuthClient i n t us
  | AUpdate i id n us => UpdateOAuthClient i id n us
  | ADelete id => DeleteOAuthClient id
  end.

(** A request arrives, one of the requests makes its next call, or the cleanup
    worker ticks. *)
Inductive moves : system -> system -> Prop :=
| moves_arrive s ts H0 a :
    moves {| state := s; running := ts; history := H0 |}
          {| state := s; running := ts ++ [handler a]; history := H0 |}
| moves_call s ts H0 i (B : Set) (c : call_ B) k f w :
    ts !! i = Some (Call c k) -> answers w -> new_session H0 c ->
    let e := execute f w c s in
    moves {| state := s; running := ts; history := H0 |}
          {| state := e.1.2; running := <[i := k e.1.1]> ts; history := e.2 ++ H0 |}
| moves_clean s ts H0 w now :
    moves {| state := s; running := ts; history := H0 |}
          {| state := clean w now s; running := ts; history := H0 |}.
End System.

Definition empty_store (cls : gmap string Client) : store :=
  {| clients := cls; authCodes := ∅; accessTokens := ∅; refreshTokens := ∅; dpopJTIs := ∅ |}.
Definition fresh_system (cls : gmap string Client) : system :=
  {| state := {| tables := empty_store cls; authRequests := ∅; atpRequests := ∅; atpSessions := ∅;
                 parRequests := ∅ |}; running := []; history := [] |}.

(** *** What stands behind a code *)

(** An authorization request that was let through: its client had exactly this
    redirect URI registered, and it has a challenge and the method S256. *)
Definition asked_ok (H0 : list fact) (a : AuthRequest) : Prop :=
  (exists cl, FClient cl ∈ H0 /\ cl_ClientID cl = a_ClientID a /\ a_RedirectURI a ∈ cl_RedirectURIs cl) /\
  ResponseType a = "code" /\ a_CodeChallengeMethod a = Some "S256" /\
  (exists ch, a_CodeChallenge a = Some ch /\ ch <> "") /\ (exists hint, LoginHint a = Some hint).

(** The DID of a login hint. *)
Definition hint_of (H0 : list fact) (hint did : string) : Prop :=
  (hint = did /\ Did.IsValid did = true) \/ FHandle hint did ∈ H0.

(** An upstream request: for the server of the DID of some request. *)
Definition outbound_ok (H0 : list fact) (p : ATPRequest) : Prop :=
  exists a hint did m, FAsked a ∈ H0 /\ SessionID a = Nonce p /\ LoginHint a = Some hint /\
    hint_of H0 hint did /\ FServer did m ∈ H0 /\ AuthorizationServer p = Issuer m.

(** A code: of the request, with the subject that the upstream server named. *)
Definition code_of (H0 : list fact) (c : AuthorizationCode) : Prop :=
  exists a p x t, FAsked a ∈ H0 /\ FOutbound p ∈ H0 /\ SessionID a = Nonce p /\ FTokens x t ∈ H0 /\
    x_TokenEndpoint x = AuthorizationServer p +:+ "/oauth/token" /\ CodeVerifier x = PKCEVerifier p /\
    ac_ClientID c = a_ClientID a /\ RedirectURI c = a_RedirectURI a /\ ac_Scope c = a_Scope a /\
    CodeChallenge c = a_CodeChallenge a /\ CodeChallengeMethod c = a_CodeChallengeMethod a /\
    ac_SessionID c = Some (SessionID a) /\ ac_UserID c = up_Sub t.

Definition codes (H0 : list fact) : list AuthorizationCode :=
  omap (fun f => match f with FCode c => Some c | _ => None end) H0.

Lemma codes_mono H0 H1 : H0 ⊆ H1 -> codes H0 ⊆ codes H1.
Proof.
  intros Hs c. unfold codes. rewrite !list_elem_of_omap. intros (f & Hf & He). exists f. auto.
Qed.
Lemma codes_elem H0 c : c ∈ codes H0 <-> FCode c ∈ H0.
Proof.
  unfold codes. rewrite list_elem_of_omap. split; [|intros Hc; by exists (FCode c)].
  intros (f & Hf & He). by destruct f; simplify_eq.
Qed.

Lemma asked_ok_mono H0 H1 a : H0 ⊆ H1 -> asked_ok H0 a -> asked_ok H1 a.
Proof. intros Hs ((cl & Hc & ?) & ?). split; [exists cl; auto|done]. Qed.
Lemma hint_of_mono H0 H1 hint did : H0 ⊆ H1 -> hint_of H0 hint did -> hint_of H1 hint did.
Proof. intros Hs [?|Hf]; [by left|right; auto]. Qed.
Lemma outbound_ok_mono H0 H1 p : H0 ⊆ H1 -> outbound_ok H0 p -> outbound_ok H1 p.
Proof.
  intros Hs (a & hint & did & m & Ha & Hn & Hl & Hh & Hm & He).
  exists a, hint, did, m. split_and!; eauto using hint_of_mono.
Qed.
Lemma code_of_mono H0 H1 c : H0 ⊆ H1 -> code_of H0 c -> code_of H1 c.
Proof. intros Hs (a & p & x & t & Ha & Hp & Hn & Ht & ?). exists a, p, x, t. split_and!; auto; tauto. Qed.

(** *** The invariant *)

Section Invariant.
Context `{CL : CryptoLib, JJ : JwkJson, NN : Net, JB : Jsonb} (h : FlowConfig) (ht : OAuthHandlerConfig).
Context (parses : string -> bool) (Encode : query -> string) (answers : network -> Prop).

Definition fact_ok (H0 : list fact) (f : fact) : Prop :=
  match f with
  | FClient _ => True
  | FAsked a => asked_ok H0 a
  | FOutbound p => outbound_ok H0 p
  | FHandle hd did => exists w, answers w /\ n_handle w hd = Some did
  | FServer did m => exists w, answers w /\ n_server w did = Some m
  | FTokens x t => exists w, answers w /\ n_exchange w x = Some t
  | FCode c => code_of H0 c
  end.
Lemma fact_ok_mono H0 H1 f : H0 ⊆ H1 -> fact_ok H0 f -> fact_ok H1 f.
Proof. intros Hs. destruct f; cbn; eauto using asked_ok_mono, outbound_ok_mono, code_of_mono. Qed.

Definition one_session (H0 : list fact) : Prop :=
  forall a b, FAsked a ∈ H0 -> FAsked b ∈ H0 -> SessionID a = SessionID b -> a = b.

Definition history_ok (H0 : list fact) : Prop := Forall (fact_ok H0) H0 /\ one_session H0.

Definition keyed {A} (key : A -> string) (P : A -> Prop) (m : gmap string A) : Prop :=
  map_Forall (fun k a => key a = k /\ P a) m.

Definition server_ok (H0 : list fact) (s : server) : Prop :=
  tables_ok (codes H0) (tables s) /\ keyed cl_ClientID (fun _ => True) (clients (tables s)) /\
  keyed SessionID (fun a => FAsked a ∈ H0) (authRequests s) /\
  keyed OAuthState (fun p => FOutbound p ∈ H0) (atpRequests s).

Lemma keyed_impl {A} key (P Q : A -> Prop) m : (forall a, P a -> Q a) -> keyed key P m -> keyed key Q m.
Proof. intros Hpq Hm k a Ha. destruct (Hm k a Ha). auto. Qed.

Lemma server_ok_mono H0 H1 s : H0 ⊆ H1 -> server_ok H0 s -> server_ok H1 s.
Proof.
  intros Hs (Ht & Hc & Ha & Hp). split_and!; [by eapply tables_ok_mono; [apply codes_mono|]|done| |].
  - eapply keyed_impl; [|exact Ha]. auto.
  - eapply keyed_impl; [|exact Hp]. auto.
Qed.

(** What a call may store, and what its answer may be, once noted. *)
Definition may {B} (H0 : list fact) (c : call_ B) : Prop :=
  match c with
  | Table c => grants (codes H0) c
  | InsertCode c => code_of H0 c
  | InsertAuth a => asked_ok H0 a
  | InsertATP p => outbound_ok H0 p
  | UpdateClient _ => True
  | _ => True
  end.
Definition answered {B} (H0 : list fact) (c : call_ B) : option B -> Prop :=
  match c with
  | Table c => fun o => plausible (codes H0) c o /\
      match c in cmd B' return option B' -> Prop with
      | GetClient id => fun o => forall cl, o = Some (Some cl) -> FClient cl ∈ H0 /\ cl_ClientID cl = id
      | _ => fun _ => True
      end o
  | InsertAuth a => fun o => is_Some o -> FAsked a ∈ H0
  | InsertATP p => fun o => is_Some o -> FOutbound p ∈ H0
  | GetAuth sid => fun o => forall a, o = Some (Some a) -> FAsked a ∈ H0 /\ SessionID a = sid
  | GetATP st => fun o => forall p, o = Some (Some p) -> FOutbound p ∈ H0 /\ OAuthState p = st
  | ResolveHandle hd => fun o => forall d, o = Some d -> FHandle hd d ∈ H0
  | FindServer did => fun o => forall m, o = Some m -> FServer did m ∈ H0
  | Exchange x => fun o => forall t, o = Some t -> FTokens x t ∈ H0
  | _ => fun _ => True
  end.

(** A redirection goes to a registered redirect URI, or to the authorization
    endpoint of the server of a DID. *)
Definition reply_ok (H0 : list fact) (r : reply) : Prop :=
  match r with
  | RedirectTo uri _ => exists cl, FClient cl ∈ H0 /\ uri ∈ cl_RedirectURIs cl
  | ToServer url => exists did m ps, FServer did m ∈ H0 /\
      url = BuildAuthorizationURL Encode (AuthorizationEndpoint m) ps
  | _ => True
  end.

Fixpoint sound (H0 : list fact) (p : program) : Prop :=
  match p with
  | Return r => reply_ok H0 r
  | Call c k => may H0 c /\ forall H1 o, H0 ⊆ H1 -> history_ok H1 -> answered H1 c o -> sound H1 (k o)
  end.

Lemma may_mono {B} H0 H1 (c : call_ B) : H0 ⊆ H1 -> may H0 c -> may H1 c.
Proof.
  intros Hs. destruct c; cbn; eauto using asked_ok_mono, outbound_ok_mono, code_of_mono.
  destruct c; cbn; eauto using access_ok_mono, refresh_ok_mono, codes_mono.
Qed.
Lemma reply_ok_mono H0 H1 r : H0 ⊆ H1 -> reply_ok H0 r -> reply_ok H1 r.
Proof.
  intros Hs. destruct r; cbn; [done|intros (cl & ? & ?); exists cl; auto| |done..].
  intros (d & m & ps & ? & ?). exists d, m, ps. auto.
Qed.
Lemma sound_mono H0 H1 p : H0 ⊆ H1 -> sound H0 p -> sound H1 p.
Proof.
  intros Hs. destruct p as [r|B c k]; [by apply reply_ok_mono|]. intros [Hm Hk].
  split; [by eapply may_mono|]. intros H2 o H12. apply Hk. by etrans.
Qed.

(** Performing a call keeps the tables and makes its answer true of the history
    with the note of it. *)
Lemma keyed_insert {A} key (P : A -> Prop) (a : A) m :
  P a -> keyed key P m -> keyed key P (<[key a := a]> m).
Proof. intros Ha Hm. by apply map_Forall_insert_2. Qed.
Lemma keyed_delete {A} key (P : A -> Prop) k m : keyed key P m -> keyed key P (delete k m).
Proof. intros Hm i a Ha%lookup_delete_Some. apply Hm. naive_solver. Qed.
Lemma keyed_filter {A} key (P : A -> Prop) (Q : string * A -> Prop) `{forall x, Decision (Q x)} m :
  keyed key P m -> keyed key P (filter Q m).
Proof. intros Hm i a [Ha _]%map_lookup_filter_Some. by apply Hm. Qed.
Lemma map_Forall_filter_impl {A} (P : A -> Prop) (Q : string * A -> Prop) `{forall x, Decision (Q x)} (m : gmap string A) :
  map_Forall (fun _ => P) m -> map_Forall (fun _ => P) (filter Q m).
Proof. intros Hm i a [Ha _]%map_lookup_filter_Some. by eapply Hm. Qed.

Lemma apply_clients {B} (c : cmd B) t : clients (apply c t).2 = clients t.
Proof. by destruct c; cbn; repeat case_match. Qed.

Definition fresh_fact (H0 : list fact) (f : fact) : Prop :=
  match f with FAsked a => forall b, FAsked b ∈ H0 -> SessionID b <> SessionID a | _ => True end.

Lemma history_add H0 f : history_ok H0 -> fact_ok H0 f -> fresh_fact H0 f -> history_ok (f :: H0).
Proof.
  intros [Hf Ho] Hk Hn. assert (H0 ⊆ f :: H0) as Hs by set_solver. split.
  - constructor; [by eapply fact_ok_mono|]. eapply Forall_impl; [exact Hf|]. intros g. by apply fact_ok_mono.
  - intros a b Ha Hb Heq. apply elem_of_cons in Ha, Hb. destruct Ha as [<-|Ha], Hb as [Hb|Hb].
    + by simplify_eq.
    + by destruct (Hn b Hb).
    + subst f. by destruct (Hn a Ha).
    + by apply Ho.
Qed.

Lemma answered_None {B} H0 (c : call_ B) : answered H0 c None.
Proof. destruct c; cbn; try done; try by intros [? ?]. split; [by destruct c|by destruct c]. Qed.

Lemma insert_new_cases {K A} `{Countable K} ok (k : K) (a : A) m put s (o : option unit) (s' : server) :
  insert_new ok k a m put s = (o, s') ->
  (o = None /\ s' = s) \/ (o = Some tt /\ ok = true /\ s' = put (<[k := a]> m)).
Proof. unfold insert_new. destruct ok, (present (m !! k)); cbn; intros [= <- <-]; auto. Qed.

Lemma client_Table {B} H0 (c : cmd B) t : tables_ok (codes H0) t -> grants (codes H0) c ->
  keyed cl_ClientID (fun _ => True) (clients t) ->
  tables_ok (codes H0) (apply c t).2 /\ keyed cl_ClientID (fun _ => True) (clients (apply c t).2) /\
  answered (note (Table c) (apply c t).1 ++ H0) (Table c) (apply c t).1.
Proof.
  intros Ht Hg Hc. destruct (apply_ok _ c t Ht Hg) as [Ht' Hp].
  assert (H0 ⊆ note (Table c) (apply c t).1 ++ H0) as Hs by set_solver.
  split_and!; [done|by rewrite apply_clients|]. cbn [answered]. split.
  - by destruct c.
  - destruct c; cbn; try done. intros cl [= Hcl]. rewrite Hcl. split; [by left|].
    by destruct (Hc _ _ Hcl).
Qed.

Ltac inserted := match goal with
  | |- context [insert_new ?ok ?k ?a ?m ?put ?s] =>
      let E := fresh "E" in let o := fresh "o" in let s' := fresh "s'" in
      destruct (insert_new ok k a m put s) as [o s'] eqn:E; apply insert_new_cases in E as
        [[-> ->]|(-> & E & ->)]; cbn
  end.

Lemma perform_ok {B} H0 w (c : call_ B) s : answers w -> new_session H0 c -> history_ok H0 ->
  server_ok H0 s -> may H0 c ->
  let r := perform w c s in let H1 := note c r.1 ++ H0 in
  history_ok H1 /\ server_ok H1 r.2 /\ answered H1 c r.1.
Proof.
  intros Hw Hn Hh Hs Hm. pose proof Hs as (Ht & Hc & Ha & Hp). destruct c; cbn in Hm, Hn.
  - destruct (client_Table H0 c (tables s) Ht Hm Hc) as (Ht' & Hc' & Hans). cbn [perform fst snd].
    split; [|split; [|exact Hans]].
    + destruct c; cbn; try done. destruct (clients (tables s) !! id); [|done]. by apply history_add.
    + eapply (server_ok_mono H0); [set_solver|]. by split_and!.
  - cbn. unfold authCodes_Insert. inserted; [done|]. split; [|split; [|done]].
    + by apply history_add.
    + assert (H0 ⊆ FCode c :: H0) as Hsub by set_solver.
      destruct (server_ok_mono _ _ _ Hsub Hs) as ((H1 & H2 & H3) & H4 & H5 & H6).
      split_and!; try done. split_and!; try done. cbn. apply map_Forall_insert_2; [|done].
      exists c. split; by left.
  - cbn. unfold authRequests_Insert. inserted.
    { split_and!; [done..|]. by intros [? ?]. }
    split; [by apply history_add|]. split; [|intros _; by left].
    assert (H0 ⊆ FAsked a :: H0) as Hsub by set_solver.
    destruct (server_ok_mono _ _ _ Hsub Hs) as (H1 & H2 & H3 & H4). split_and!; try done.
    cbn. apply keyed_insert; [by left|done].
  - cbn. split_and!; [done..|]. intros a [= Hl]. by destruct (Ha _ _ Hl).
  - cbn. split_and!; try done. split_and!; try done. by apply keyed_delete.
  - cbn. unfold atpRequests_Insert. inserted.
    { split_and!; [done..|]. by intros [? ?]. }
    split; [by apply history_add|]. split; [|intros _; by left].
    assert (H0 ⊆ FOutbound p :: H0) as Hsub by set_solver.
    destruct (server_ok_mono _ _ _ Hsub Hs) as (H1 & H2 & H3 & H4). split_and!; try done.
    cbn. apply keyed_insert; [by left|done].
  - cbn. split_and!; [done..|]. intros p [= Hl]. by destruct (Hp _ _ Hl).
  - cbn. split_and!; try done. split_and!; try done. by apply keyed_delete.
  - cbn. unfold atpSessions_Insert. by inserted.
  - by cbn.
  - by cbn.
  - cbn. unfold parRequests_Insert. by inserted.
  - cbn. unfold clients_Insert. inserted; [done|]. split; [done|]. split; [|done]. split_and!; try done.
    cbn. by apply keyed_insert.
  - cbn. unfold clients_Update. destruct (_ && _); cbn; [|done]. split; [done|]. split; [|done].
    split_and!; try done. cbn. intros k cl. rewrite lookup_alter_Some.
    intros [(<- & cl0 & Hcl & ->)|[_ Hcl]]; [|by apply Hc]. cbn. by destruct (Hc _ _ Hcl).
  - cbn. split; [done|]. split; [|done]. destruct Ht as (Ht1 & Ht2 & Ht3).
    split_and!; cbn; [split_and!; cbn|..]; try by apply keyed_delete.
    + done.
    + by apply map_Forall_filter_impl.
    + by apply map_Forall_filter_impl.
    + by apply keyed_filter.
    + done.
  - cbn. destruct (n_handle w handle) as [d|] eqn:Hd; cbn; [|by split_and!].
    split; [apply history_add; [done| |done]; cbn; eauto|]. split; [|intros d' [= <-]; by left].
    eapply server_ok_mono; [|exact Hs]. set_solver.
  - cbn. destruct (n_server w did) as [d|] eqn:Hd; cbn; [|by split_and!].
    split; [apply history_add; [done| |done]; cbn; eauto|]. split; [|intros d' [= <-]; by left].
    eapply server_ok_mono; [|exact Hs]. set_solver.
  - cbn. destruct (n_exchange w x) as [d|] eqn:Hd; cbn; [|by split_and!].
    split; [apply history_add; [done| |done]; cbn; eauto|]. split; [|intros d' [= <-]; by left].
    eapply server_ok_mono; [|exact Hs]. set_solver.
Qed.

Lemma execute_ok {B} H0 f w (c : call_ B) s : answers w -> new_session H0 c -> history_ok H0 ->
  server_ok H0 s -> may H0 c ->
  let e := execute f w c s in
  history_ok (e.2 ++ H0) /\ server_ok (e.2 ++ H0) e.1.2 /\ answered (e.2 ++ H0) c e.1.1.
Proof.
  intros Hw Hn Hh Hs Hm. destruct (perform_ok H0 w c s Hw Hn Hh Hs Hm) as (H1 & H2 & H3).
  destruct f; cbn; [done|split_and!; [done..|apply answered_None]|split_and!; [done..|apply answered_None]].
Qed.

Lemma clean_ok H0 w now s : server_ok H0 s -> server_ok H0 (clean w now s).
Proof.
  intros (Ht & Hc & Ha & Hp). destruct w as [[] [] w]; split_and!; cbn;
    try (by apply cleanup_ok); try (by destruct w as [[] [] []]); try done; by apply keyed_filter.
Qed.

Lemma embed_sound p : forall H0, safe (codes H0) p -> sound H0 (embed p).
Proof.
  induction p as [r|B c k IH]; intros H0 Hp; [done|]. destruct Hp as [Hg Hk]. split; [done|].
  intros H1 o Hs _ [Ho _]. apply IH, Hk; [by apply codes_mono|done].
Qed.

Lemma sound_try (B : Set) H0 (c : call_ B) e k : may H0 c ->
  (forall H1, H0 ⊆ H1 -> reply_ok H1 e) ->
  (forall H1 b, H0 ⊆ H1 -> history_ok H1 -> answered H1 c (Some b) -> sound H1 (k b)) ->
  sound H0 (try_ c e k).
Proof. intros Hm He Hk. split; [done|]. intros H1 [b|] Hs Ho Ha; [by apply Hk|by apply He]. Qed.

Definition registered_uri (H0 : list fact) (uri : string) : Prop :=
  exists cl, FClient cl ∈ H0 /\ uri ∈ cl_RedirectURIs cl.
Lemma registered_mono H0 H1 uri : H0 ⊆ H1 -> registered_uri H0 uri -> registered_uri H1 uri.
Proof. intros Hs (cl & ? & ?). exists cl. auto. Qed.
Lemma fault_ok H0 uri code st : registered_uri H0 uri -> reply_ok H0 (redirectWithError parses uri code st).
Proof. intros Hr. unfold redirectWithError. by destruct (parses uri). Qed.
Lemma asked_registered H0 a : history_ok H0 -> FAsked a ∈ H0 -> registered_uri H0 (a_RedirectURI a).
Proof. intros [Hf _] Ha. rewrite Forall_forall in Hf. destruct (Hf _ Ha) as [(cl & ? & _ & ?) _]. by exists cl. Qed.

Lemma isValidRedirectURI_spec uri l : isValidRedirectURI uri l = true <-> uri ∈ l.
Proof.
  unfold isValidRedirectURI. rewrite existsb_elem_of. split; [|intros Hu; exists uri; split; [done|apply String.eqb_refl]].
  by intros (x & Hx & ->%String.eqb_eq).
Qed.

Lemma ptrString_some s : s <> "" -> ptrString s = Some s.
Proof. by destruct s. Qed.

Ltac granted := match goal with |- sound _ (if ?b then _ else _) => destruct b eqn:?; [|] end.

Lemma sound_start_flow H0 i client method did :
  registered_uri H0 (param i "redirect_uri") ->
  asked_ok H0 (new_auth_request h i "" method) -> hint_of H0 (param i "login_hint") did ->
  param i "login_hint" <> "" ->
  sound H0 (start_flow h parses Encode i client method did).
Proof.
  intros Hreg Hask Hhint Hne. unfold start_flow.
  apply sound_try; [done|intros; by apply fault_ok; eapply registered_mono|].
  intros H1 m H01 _ Hm. specialize (Hm m eq_refl).
  assert (registered_uri H1 (param i "redirect_uri")) as Hreg1 by by eapply registered_mono.
  destruct (newSession i) as [sid|]; [|by apply fault_ok].
  apply sound_try.
  { eapply asked_ok_mono in Hask; [|exact H01]. exact Hask. }
  { intros; by apply fault_ok; eapply registered_mono. }
  intros H2 [] H12 _ Ha. specialize (Ha ltac:(eauto)).
  assert (registered_uri H2 (param i "redirect_uri")) as Hreg2 by by eapply registered_mono.
  destruct (newState i) as [st|]; [|by apply fault_ok].
  destruct (newKey i) as [key|]; [|by apply fault_ok].
  destruct (newVerifier i) as [ver|]; [|by apply fault_ok].
  apply sound_try.
  { exists (new_auth_request h i sid method), (param i "login_hint"), did, m. split_and!; cbn; auto.
    - by apply ptrString_some.
    - eapply hint_of_mono; [|exact Hhint]. by etrans. }
  { intros; by apply fault_ok; eapply registered_mono. }
  intros H3 [] H23 _ _. apply sound_try; [done|intros; apply fault_ok; eapply registered_mono; [|exact Hreg2]; by etrans|].
  intros H4 [] H34 _ _. cbn. exists did, m. eexists. split; [|done]. auto.
Qed.

Lemma sound_authorize H0 i : sound H0 (HandleAuthorize h parses Encode i).
Proof.
  unfold HandleAuthorize. granted; [|done]. granted; [|done].
  apply sound_try; [done..|]. intros H1 [cl|] _ _ [_ Hcl]; [|done].
  destruct (Hcl cl eq_refl) as [Hin Hid].
  destruct (isValidRedirectURI _ _) eqn:Huri; [|done]. apply isValidRedirectURI_spec in Huri.
  assert (registered_uri H1 (param i "redirect_uri")) as Hreg by by exists cl.
  granted; [|by apply fault_ok]. granted; [|by apply fault_ok].
  granted; [|by apply fault_ok]. granted; [|by apply fault_ok].
  set (method := if is_empty _ then "S256" else _).
  assert (method = "S256") as Hm.
  { unfold method. destruct (is_empty (param i "code_challenge_method")) eqn:He; [done|].
    by rewrite orb_false_r in *; apply String.eqb_eq. }
  assert (param i "login_hint" <> "") as Hhint by by apply not_empty_spec.
  assert (asked_ok H1 (new_auth_request h i "" method)) as Hask.
  { split; [by exists cl|]. cbn. rewrite Hm. split_and!; [by apply String.eqb_eq|done| |].
    - eexists. split; [by apply ptrString_some, not_empty_spec|by apply not_empty_spec].
    - eexists. by apply ptrString_some. }
  destruct (Did.IsValid (param i "login_hint")) eqn:Hv.
  - apply sound_start_flow; [done..| |done]. by left.
  - apply sound_try; [done|intros; by apply fault_ok; eapply registered_mono|].
    intros H2 did H12 _ Hd. apply sound_start_flow; [by eapply registered_mono|by eapply asked_ok_mono| |done].
    right. by apply Hd.
Qed.

Lemma sound_issue_code H0 i st a p x t :
  FAsked a ∈ H0 -> FOutbound p ∈ H0 -> SessionID a = Nonce p -> FTokens x t ∈ H0 ->
  x_TokenEndpoint x = AuthorizationServer p +:+ "/oauth/token" -> CodeVerifier x = PKCEVerifier p ->
  registered_uri H0 (a_RedirectURI a) ->
  sound H0 (issue_code h parses i st a t (Nonce p)).
Proof.
  intros Ha Hp Hn Ht Hx Hv Hr. unfold issue_code. destruct (newCode i) as [code|]; [|by apply fault_ok].
  apply sound_try.
  - exists a, p, x, t. split_and!; cbn; try done. by rewrite Hn.
  - intros; by apply fault_ok; eapply registered_mono.
  - intros H1 [] H01 _ _. split; [done|]. intros H2 o H12 _ _. split; [done|]. intros H3 o' H23 _ _.
    cbn. destruct (parses _); [|done]. eapply registered_mono; [|exact Hr]. by do 2 etrans.
Qed.

Lemma sound_callback H0 i : sound H0 (HandleCallback h parses i).
Proof.
  unfold HandleCallback. apply sound_try; [done..|]. intros H1 [p|] _ _ Hp; [|done].
  destruct (Hp p eq_refl) as [Hp1 _]. destruct (atp_expired _ _); [by split|].
  apply sound_try; [done..|]. intros H2 [a|] H12 Hh Ha; [|done].
  destruct (Ha a eq_refl) as [Ha1 Hn]. pose proof (asked_registered _ _ Hh Ha1) as Hr.
  granted; [|by apply fault_ok]. granted; [|by apply fault_ok].
  destruct (ParseDPoPKeyPair _) as [key|]; [|by apply fault_ok].
  set (x := {| x_TokenEndpoint := _ |}).
  apply sound_try; [done|intros; by apply fault_ok; eapply registered_mono|].
  intros H3 t H23 _ Ht. specialize (Ht t eq_refl).
  assert (registered_uri H3 (a_RedirectURI a)) as Hr3 by by eapply registered_mono.
  assert (forall H4, H3 ⊆ H4 -> sound H4 (issue_code h parses i (qparam i "state") a t (Nonce p))) as Hi.
  { intros H4 H34. apply sound_issue_code with x; auto. by eapply registered_mono. }
  split; [done|]. intros H4 o H34 _ _. destruct o as [[xs|]|]; [|by apply Hi|by apply Hi].
  split; [done|]. intros H5 o H45 _ _. apply Hi. by etrans.
Qed.

Lemma sound_handler H0 a : sound H0 (handler h ht parses Encode a).
Proof.
  destruct a as [i|i|i|i|r|r|i n t us|i id n us|id]; cbn [handler].
  - apply sound_authorize.
  - apply sound_callback.
  - unfold HandlePAR. granted; [|done]. apply sound_try; [done..|]. intros H1 [cl|] _ _ _; [|done].
    do 3 (granted; [|done]). by apply sound_try.
  - unfold HandleRegister. destruct (request i); [|done]. do 2 (granted; [|done]). by apply sound_try.
  - apply embed_sound, safe_token.
  - apply embed_sound, safe_revoke.
  - unfold CreateOAuthClient. destruct (randomHexID i); [|done]. destruct (_ && _); [done|]. by apply sound_try.
  - unfold UpdateOAuthClient. apply sound_try; [done..|]. intros H1 [cl|] _ _ _; [|done]. by apply sound_try.
  - unfold DeleteOAuthClient. granted; [|done]. by apply sound_try.
Qed.

Definition system_ok (y : system) : Prop :=
  history_ok (history y) /\ server_ok (history y) (state y) /\ Forall (sound (history y)) (running y).

Lemma moves_ok y y' : moves h ht parses Encode answers y y' -> system_ok y -> system_ok y'.
Proof.
  intros Hm (Hh & Hs & Hp). destruct Hm as [s ts H0 a|s ts H0 i B c k f w Hi Hw Hn e|s ts H0 w now];
    cbn in *; unfold system_ok; cbn [state running history].
  - split_and!; [done..|]. apply Forall_app. split; [done|]. repeat constructor. apply sound_handler.
  - destruct (Forall_lookup_1 _ _ _ _ Hp Hi) as [Hmay Hk].
    destruct (execute_ok H0 f w c s Hw Hn Hh Hs Hmay) as (H1 & H2 & H3). fold e in H1, H2, H3.
    split_and!; [done..|]. assert (H0 ⊆ e.2 ++ H0) as Hsub by set_solver.
    apply Forall_insert; [|by apply Hk]. eapply Forall_impl; [exact Hp|]. intros p. by apply sound_mono.
  - split_and!; [done|by apply clean_ok|done].
Qed.

Lemma system_ok_start cls : keyed cl_ClientID (fun _ => True) cls -> system_ok (fresh_system cls).
Proof.
  intros Hc. split; [by split; [constructor|intros ? ? ?%elem_of_nil]|]. split; [|constructor].
  split_and!; cbn; [split_and!; cbn; apply map_Forall_empty|done|apply map_Forall_empty..].
Qed.

Lemma reachable_ok cls y : keyed cl_ClientID (fun _ => True) cls ->
  rtc (moves h ht parses Encode answers) (fresh_system cls) y -> system_ok y.
Proof.
  intros Hc Hr. pose proof (system_ok_start cls Hc) as H0. revert H0.
  induction Hr as [|y1 y2 y3 Hs _ IH]; [done|]. intros Hy. by apply IH, (moves_ok y1).
Qed.

(** Everything that stands behind a code that was stored, in full: the request [a]
    of the client [cl] that it was stored for, the upstream request [p] made for it
    with the server [m] of the account of its login hint, and the answer [t] of
    that server's token endpoint to the exchange [x]. *)
Definition traced (H0 : list fact) (c : AuthorizationCode) : Prop :=
  FCode c ∈ H0 /\
  exists a cl hint did m p x t,
    FAsked a ∈ H0 /\ ac_ClientID c = a_ClientID a /\ RedirectURI c = a_RedirectURI a /\
    ac_Scope c = a_Scope a /\ CodeChallenge c = a_CodeChallenge a /\ ac_SessionID c = Some (SessionID a) /\
    (FClient cl ∈ H0 /\ cl_ClientID cl = ac_ClientID c /\ RedirectURI c ∈ cl_RedirectURIs cl) /\
    ((exists ch, CodeChallenge c = Some ch /\ ch <> "") /\ CodeChallengeMethod c = Some "S256") /\
    (LoginHint a = Some hint /\
     ((hint = did /\ Did.IsValid did = true) \/ exists w, answers w /\ n_handle w hint = Some did)) /\
    (exists w, answers w /\ n_server w did = Some m) /\
    (FOutbound p ∈ H0 /\ Nonce p = SessionID a /\ AuthorizationServer p = Issuer m) /\
    (x_TokenEndpoint x = Issuer m +:+ "/oauth/token" /\ CodeVerifier x = PKCEVerifier p /\
     exists w, answers w /\ n_exchange w x = Some t) /\
    ac_UserID c = up_Sub t.

Lemma code_traced H0 c : history_ok H0 -> FCode c ∈ H0 -> traced H0 c.
Proof.
  intros [Hf Ho] Hc. pose proof Hf as Hf'. rewrite Forall_forall in Hf'.
  destruct (Hf' _ Hc) as (a & p & x & t & Ha & Hp & Hn & Ht & Hx & Hver & Hid & Huri & Hsc & Hch & Hme & Hse & Hu).
  destruct (Hf' _ Hp) as (a' & hint & did & m & Ha' & Hn' & Hl & Hh & Hm & He).
  assert (a' = a) as -> by (apply Ho; [done..|congruence]).
  destruct (Hf' _ Ha) as ((cl & Hcl & Hcid & Hcuri) & _ & Hmethod & (ch & Hcch & Hne) & _).
  split; [done|]. exists a, cl, hint, did, m, p, x, t. split_and!; try done.
  - congruence.
  - by rewrite Huri.
  - exists ch. by rewrite Hch.
  - by rewrite Hme.
  - destruct Hh as [Hh|Hh]; [by left|right]. exact (Hf' _ Hh).
  - exact (Hf' _ Hm).
  - by rewrite Hx, He.
  - exact (Hf' _ Ht).
Qed.

(** C29: Start with no requests under way and a table of clients under their IDs, and
    take any interleaving of authorizations, callbacks, pushed requests,
    registrations, token requests, revocations, changes to the clients and the
    cleanup worker, with calls failing or losing their answers at any point;
    session identifiers are random, so that none is stored twice. Every code in the
    table is one that a callback stored, used or not, and every access and refresh
    token stands for such a code, with its client, user, session and scope. And
    every such code ([traced]) was stored for one authorization request that was
    let through: for its client, redirect URI, scope, session and challenge, where
    the client had that redirect URI registered when it was checked and the
    challenge is not empty, of the method S256; its login hint is a DID or a handle
    that resolved to one; the issuer of the server found for that DID was asked, in
    the upstream request of this session, and its token endpoint took the exchange
    with the verifier of that request. The user is the subject that server named. *)
Theorem tokens_trace_back cls y : keyed cl_ClientID (fun _ => True) cls ->
  rtc (moves h ht parses Encode answers) (fresh_system cls) y ->
  (forall k c, authCodes (tables (state y)) !! k = Some c ->
     exists c0, traced (history y) c0 /\ (c = c0 \/ c = use_code c0)) /\
  (forall k t, accessTokens (tables (state y)) !! k = Some t -> exists c,
     traced (history y) c /\ at_ClientID t = ac_ClientID c /\ at_UserID t = Some (ac_UserID c) /\
     at_SessionID t = ac_SessionID c /\ at_Scope t = ac_Scope c) /\
  (forall k t, refreshTokens (tables (state y)) !! k = Some t -> exists c,
     traced (history y) c /\ rt_ClientID t = ac_ClientID c /\ rt_UserID t = ac_UserID c /\
     rt_SessionID t = ac_SessionID c /\ rt_Scope t = ac_Scope c).
Proof.
  intros Hc Hr. destruct (reachable_ok cls y Hc Hr) as (Hh & ((Hco & Ha & Ht) & _) & _).
  split_and!; intros k t Hl.
  - destruct (Hco _ _ Hl) as (c & Hcc & ?). exists c. split; [|done]. by apply code_traced, codes_elem.
  - destruct (Ha _ _ Hl) as [_ (c & Hcc & ?)]. exists c. split; [|done]. by apply code_traced, codes_elem.
  - destruct (Ht _ _ Hl) as (c & Hcc & ?). exists c. split; [|done]. by apply code_traced, codes_elem.
Qed.

(** C30: no answer of a handler redirects anywhere but to a redirect URI that was
    registered for a client when it was checked, or to the authorization endpoint
    of the server that was found for a DID. *)
Theorem redirects_registered cls y i r : keyed cl_ClientID (fun _ => True) cls ->
  rtc (moves h ht parses Encode answers) (fresh_system cls) y ->
  running y !! i = Some (Return r) ->
  match r with
  | RedirectTo uri _ => exists cl, FClient cl ∈ history y /\ uri ∈ cl_RedirectURIs cl
  | ToServer url => exists did m ps w, answers w /\ n_server w did = Some m /\
      url = BuildAuthorizationURL Encode (AuthorizationEndpoint m) ps
  | _ => True
  end.
Proof.
  intros Hc Hr Hi. destruct (reachable_ok cls y Hc Hr) as ([Hf _] & _ & Hp).
  pose proof (Forall_lookup_1 _ _ _ _ Hp Hi) as Hok. cbn in Hok. destruct r; try done.
  destruct Hok as (did & m & ps & Hm & ->). rewrite Forall_forall in Hf.
  destruct (Hf _ Hm) as (w & Hw & Hn). by exists did, m, ps, w.
Qed.

(** On the tables of any reachable state, a code grant that answers with
    tokens was given the verifier of the challenge that came with the
    authorization request of its code, and the redirect URI of that request, which
    was registered: a code alone, however it leaked, is worth nothing. *)
Theorem redemption_needs_verifier cls y r fs : keyed cl_ClientID (fun _ => True) cls ->
  rtc (moves h ht parses Encode answers) (fresh_system cls) y ->
  is_issued (run (handleAuthorizationCodeGrant ht r) fs (tables (state y))).1 = true ->
  exists a cl, FAsked a ∈ history y /\ a_ClientID a = Form r "client_id" /\
    a_CodeChallenge a = Some (GenerateCodeChallenge (Form r "code_verifier")) /\
    Form r "code_verifier" <> "" /\
    FClient cl ∈ history y /\ cl_ClientID cl = Form r "client_id" /\
    a_RedirectURI a = Form r "redirect_uri" /\ Form r "redirect_uri" ∈ cl_RedirectURIs cl.
Proof.
  intros Hc Hr Hi. destruct (reachable_ok cls y Hc Hr) as (Hh & ((Hcodes & _) & _) & _).
  destruct (code_grant_issued ht r fs _ Hi) as (c & _ & _ & _ & _ & Hred & _).
  destruct Hred as (Hl & _ & _ & _ & _ & _ & _ & Hid & Huri & Hpk).
  destruct (Hcodes _ _ Hl) as (c0 & Hc0%codes_elem & Hcc).
  assert (ac_ClientID c = ac_ClientID c0 /\ RedirectURI c = RedirectURI c0 /\
          CodeChallenge c = CodeChallenge c0 /\ CodeChallengeMethod c = CodeChallengeMethod c0)
    as (E1 & E2 & E3 & E4) by by destruct Hcc as [-> | ->].
  destruct (code_traced _ _ Hh Hc0) as (_ & a & cl & _ & _ & _ & _ & _ & _ & Ha & A1 & A2 & _ & A3 & _ &
    (C1 & C2 & C3) & ((ch & Hch & Hne) & Hm) & _).
  unfold pkce_ok in Hpk. rewrite E3, Hch, E4, Hm in Hpk. destruct Hpk as [->|[Hv Hver]]; [done|].
  apply String.eqb_eq in Hver. exists a, cl. split_and!; try done; congruence.
Qed.
End Invariant.

(** ** The bridge as the network *)

(** The decoders of the bodies that the bridge reads. *)
Record decoders := {
  d_doc : string -> option DIDDocument; d_did : string -> option string;
  d_prm : string -> option ProtectedResourceMetadata;
  d_asm : string -> option AuthorizationServerMetadata;
  d_tokens : string -> option UpstreamTokens; d_error : string -> option string
}.
Definition answer_of {E A} (r : result E A * list event) : option A :=
  match r.1 with Ok a => Some a | Err _ => None end.

(** What the bridge answers after some events, at some time, with some
    identifiers for its proofs. *)
Definition bridge_network `{Net, Signer} (js : decoders) (h : FlowConfig)
    (signing : option (string -> option string)) (tr : list event) (now : Z) (jti jti' : option string)
  : network :=
  {| n_handle hd := answer_of (ResolveHandleToDID (d_did js) hd tr);
     n_server did := fst <$> answer_of (ResolveAuthServer (d_doc js) (d_prm js) (d_asm js) did tr);
     n_exchange x := answer_of (ExchangeCode (d_tokens js) (d_error js) (f_ClientID h) signing now jti jti'
                                  x tr) |}.
Definition bridge_answers `{Net, Signer} (js : decoders) (h : FlowConfig)
    (signing : option (string -> option string)) (w : network) : Prop :=
  exists tr now jti jti', w = bridge_network js h signing tr now jti jti'.

(** ** A server *)

(** One request served to its end, its calls working and the network answering
    [w]; [None] when its session identifier was used before. *)
Definition session_fresh (H0 : list fact) {B} (c : call_ B) : bool :=
  match c with
  | InsertAuth a => forallb (fun f => match f with FAsked b => negb (String.eqb (SessionID b) (SessionID a))
                                              | _ => true end) H0
  | _ => true
  end.
Fixpoint serve_program `{Jsonb} (w : network) (p : program) (s : server) (H0 : list fact)
  : option (reply * server * list fact) :=
  match p with
  | Return r => Some (r, s, H0)
  | Call c k =>
      if session_fresh H0 c
      then let e := execute Works w c s in serve_program w (k e.1.1) e.1.2 (e.2 ++ H0)
      else None
  end.

Lemma session_fresh_spec H0 {B} (c : call_ B) : session_fresh H0 c = true -> new_session H0 c.
Proof.
  destruct c; cbn; try done. rewrite forallb_forall. intros Hf b Hb.
  apply list_elem_of_In in Hb. specialize (Hf _ Hb). cbn in Hf.
  by apply negb_true_iff, String.eqb_neq in Hf.
Qed.

Section Serving.
Context `{CL : CryptoLib, JJ : JwkJson, NN : Net, JB : Jsonb} (h : FlowConfig) (ht : OAuthHandlerConfig).
Context (parses : string -> bool) (Encode : query -> string) (answers : network -> Prop).

Lemma serve_moves w p : forall s ts H0 r s' H1, answers w ->
  serve_program w p s H0 = Some (r, s', H1) ->
  rtc (moves h ht parses Encode answers)
    {| state := s; running := ts ++ [p]; history := H0 |}
    {| state := s'; running := ts ++ [Return r]; history := H1 |}.
Proof.
  induction p as [r0|B c k IH]; intros s ts H0 r s' H1 Hw; cbn [serve_program].
  { intros [= <- <- <-]. reflexivity. }
  destruct (session_fresh H0 c) eqn:Hf; [|done]. intros Hs.
  eapply rtc_l; [|by apply IH; [|exact Hs]].
  pose proof (moves_call h ht parses Encode answers s (ts ++ [Call c k]) H0 (length ts) B c k Works w
                (list_lookup_middle _ _ _ _ eq_refl) Hw (session_fresh_spec _ _ Hf)) as Hm.
  cbv zeta in Hm. rewrite insert_app_r_alt, Nat.sub_diag in Hm by lia. exact Hm.
Qed.

(** Requests served one after the other. *)
Fixpoint serve_arrivals (l : list (arrival * network)) (s : server) (H0 : list fact)
  : option (list reply * server * list fact) :=
  match l with
  | [] => Some ([], s, H0)
  | (a, w) :: l =>
      '(r, s', H1) ← serve_program w (handler h ht parses Encode a) s H0;
      '(rs, s'', H2) ← serve_arrivals l s' H1; Some (r :: rs, s'', H2)
  end.

Lemma serve_arrivals_moves l : forall s ts H0 rs s' H1, Forall (fun p => answers p.2) l ->
  serve_arrivals l s H0 = Some (rs, s', H1) ->
  rtc (moves h ht parses Encode answers)
    {| state := s; running := ts; history := H0 |}
    {| state := s'; running := ts ++ map Return rs; history := H1 |}.
Proof.
  induction l as [|[a w] l IH]; intros s ts H0 rs s' H1 Hl; cbn [serve_arrivals].
  { intros [= <- <- <-]. rewrite app_nil_r. reflexivity. }
  apply Forall_cons in Hl as [Hw Hl]. destruct (serve_program _ _ _ _) as [[[r s1] H2]|] eqn:Hp; [|done].
  cbn. destruct (serve_arrivals l s1 H2) as [[[rs' s2] H3]|] eqn:Hs; [|done]. cbn. intros [= <- <- <-].
  eapply rtc_l; [apply (moves_arrive h ht parses Encode answers s ts H0 a)|].
  etransitivity; [by apply (serve_moves w _ _ _ _ _ _ _ Hw Hp)|].
  pose proof (IH s1 (ts ++ [Return r]) H2 rs' s2 H3 Hl Hs) as Hm. by rewrite <-app_assoc in Hm.
Qed.
End Serving.

(** The registration endpoint leaves the metadata of its client empty, which is no
    JSON and which the column refuses: whatever is asked, no client is registered. *)
Lemma registration_fails `{Net, Jsonb} i w s past :
  serve_program w (HandleRegister i) s past = Some (Fault 400 "invalid_request", s, past) \/
  serve_program w (HandleRegister i) s past = Some (Fault 500 "server_error", s, past).
Proof.
  unfold HandleRegister. destruct (request i) as [req|]; [|by left].
  destruct (negb _); [|by left]. destruct (forallb _ _); [|by left]. right. cbn.
  unfold clients_Insert, insert_new. cbn. by rewrite jsonb_empty.
Qed.

Module Example_flow.

(** Keys as their fields with blanks between, which no field has. *)
Lemma graphic_lacks s : Utf8.graphic s = true -> lacks " " s = true.
Proof.
  intros Hs. eapply all_bytes_impl; [|exact Hs]. intros b. unfold Utf8.in_range. change (zb " ") with 32. lia.
Qed.
Definition blank_write (j : PrivateJWK) : string :=
  join [Kty (public j); Crv (public j); X (public j); Y (public j); D j] " ".
Definition blank_read (s : string) : option PrivateJWK :=
  match split s " " with
  | [k; c; x; y; d] => Some {| public := {| Kty := k; Crv := c; X := x; Y := y |}; D := d |}
  | _ => None
  end.
Lemma blank_read_write j : plain_jwk j -> blank_read (blank_write j) = Some j.
Proof.
  destruct j as [[k c x y] d]. intros Hj. unfold blank_read, blank_write. cbn [Kty Crv X Y public D].
  change " " with (String " " "").
  rewrite split_join; [done|done|]. eapply Forall_impl; [exact Hj|]. intros s. apply graphic_lacks.
Qed.
#[local] Instance blank_json : JwkJson :=
  {| jwk_marshal := blank_write; jwk_unmarshal := blank_read; jwk_read := blank_read_write |}.

#[local] Program Instance some_jsonb : Jsonb := {| jsonb s := negb (is_empty s) |}.
Next Obligation. done. Qed.
Next Obligation. done. Qed.

(** One key and the proof it makes for the token URL of the attacker's server. *)
Definition key : DPoPKeyPair := {| pub_X := 5; pub_Y := 7; PrivateKey := Some 9 |}.
Definition header : DPoPHeader := {| Typ := "dpop+jwt"; Alg := "ES256"; h_JWK := Some (ToJWK key) |}.
Definition proof_text : string := EncodeToString "h" +:+ "." +:+ EncodeToString "c" +:+ "." +:+ EncodeToString "s".
Definition token_url : string := "http://mallory.example/oauth/token".
Definition claims : DPoPClaims :=
  {| HTM := "POST"; HTU := token_url; ATH := ""; c_ID := "j1"; IssuedAt := Some 1000 |}.
#[local] Program Instance toy_crypto : CryptoLib := {|
  sha256 s := s;
  parse_header s := Some header;
  jwt_verify now proof x y := Some claims
|}.
Next Obligation. intros. by simplify_eq. Qed.
#[local] Program Instance toy_signer : Signer := {|
  sign kp h c nonce :=
    if bool_decide (pub_X kp = 5 /\ pub_Y kp = 7 /\ h = header /\ c = claims) then Some proof_text else None
|}.
Next Obligation.
  intros kp h c n t. cbn. case_bool_decide as Hc; [|done]. destruct Hc as (_ & _ & -> & _).
  intros [= <-]. by exists "h", "c", "s".
Qed.
Next Obligation.
  intros kp h c n t now. cbn. case_bool_decide as Hc; [|done]. by destruct Hc as (_ & _ & _ & ->).
Qed.

(** The servers of the attacker did:plc:mallory, with an issuer that is not https
    and names did:plc:alice as the subject of its tokens. *)
#[local] Instance world : Net := {|
  LookupIP _ _ := Some [[93; 184; 216; 34]];
  serve _ r := Answer 200 "" (Some (r_URL r));
  url_valid _ := true
|}.
Definition js : decoders := {|
  d_doc _ := Some {| doc_ID := "did:plc:mallory"; AlsoKnownAs := []; doc_VerificationMethod := [];
                     doc_Service := [{| svc_ID := "#atproto_pds"; svc_Type := "AtprotoPersonalDataServer";
                                        ServiceEndpoint := "https://mallory.example" |}] |};
  d_did _ := None;
  d_prm _ := Some {| AuthorizationServers := ["https://mallory.example"] |};
  d_asm _ := Some {| Issuer := "http://mallory.example";
                     AuthorizationEndpoint := "https://mallory.example/authorize" |};
  d_tokens body := if String.eqb body token_url
                   then Some {| up_AccessToken := "a"; up_TokenType := "DPoP"; up_ExpiresIn := 60;
                                up_RefreshToken := "r"; up_Scope := None; up_Sub := "did:plc:alice" |}
                   else None;
  d_error _ := None
|}.
Definition flow : FlowConfig :=
  {| f_ClientID := "https://i/oauth-client-metadata.json"; CallbackURL := "https://i/oauth/callback";
     AuthorizationCodeExpiration := 600 |}.
Definition net : network := bridge_network js flow None [] 1000 (Some "j1") (Some "j2").
Definition app := TokenEndpoint.Example_tokens.app.
Definition token_config := TokenEndpoint.Example_tokens.handlers.

(** Mallory logs in as herself. *)
Definition requests : list (arrival * network) :=
  [(AAuthorize {| params := list_to_map [("client_id", "app"); ("redirect_uri", "https://app/cb");
        ("response_type", "code"); ("code_challenge", GenerateCodeChallenge "verifier");
        ("login_hint", "did:plc:mallory"); ("state", "xyz")];
      i_time := 900; newSession := Some "session"; newState := Some "state"; newKey := Some key;
      newVerifier := Some "v" |}, net);
   (ACallback {| q_params := list_to_map [("state", "state"); ("code", "upstream")];
      c_time := 950; c_answered := 1000; c_issued := 1000; newCode := Some "code" |}, net);
   (AToken (TokenEndpoint.Example_tokens.redeem "" "A1" "R1"), net)].
Definition outcome := serve_arrivals flow token_config (fun _ => true) (fun _ => "q") requests
  (state (fresh_system {["app" := app]})) [].

(** The program gives her the tokens of Alice: the callback takes the subject that
    her own server names, and never compares it with the DID it started from. *)
Example impersonation :
  match outcome with
  | Some (rs, s, H0) =>
      map (fun r => match r with
                    | ToServer u => u
                    | RedirectTo u ps => u +:+ " " +:+ join (map (fun p => p.1 +:+ "=" +:+ p.2) ps) "&"
                    | TokenReply (Issued t) => "token for " +:+ Sub t
                    | _ => ""
                    end) rs
      = ["https://mallory.example/authorize?q"; "https://app/cb code=code&state=xyz";
         "token for did:plc:alice"] /\
      s_DID <$> GetLatest "session" s = Some (Some "did:plc:alice")
  | None => False
  end.
Proof. vm_compute. split; reflexivity. Qed.

(** The loopback address in brackets is among the hosts that need no https, but
    it is compared without its brackets. *)
Example loopback_v6_refused : map validateRedirectURI ["http://localhost:8080/cb"; "http://127.0.0.1/cb"; "http://[::1]/cb"]
  = [true; true; false].
Proof. vm_compute. reflexivity. Qed.

(** *** Witnesses *)

Definition start : system := fresh_system {["app" := app]}.
Definition serve_requests (l : list (arrival * network)) : system :=
  match serve_arrivals flow token_config (fun _ => true) (fun _ => "q") l (state start) [] with
  | Some (rs, s, H0) => {| state := s; running := map Return rs; history := H0 |}
  | None => start
  end.
Definition may_happen := moves flow token_config (fun _ => true) (fun _ => "q") (bridge_answers js flow None).

Lemma requests_reached l : Forall (fun p => p.2 = net) l -> rtc may_happen start (serve_requests l).
Proof.
  intros Hl. unfold serve_requests. destruct (serve_arrivals _ _ _ _ _ _ _) as [[[rs s] H0]|] eqn:E; [|reflexivity].
  refine (serve_arrivals_moves flow token_config (fun _ => true) (fun _ => "q")
            (bridge_answers js flow None) l _ [] [] rs s H0 _ E).
  eapply Forall_impl; [exact Hl|]. cbn. intros [a w] ->. by exists [], 1000, (Some "j1"), (Some "j2").
Qed.
Lemma start_keyed : keyed cl_ClientID (fun _ => True) {["app" := app]}.
Proof. intros k c [<- <-]%lookup_singleton_Some. done. Qed.

Lemma tokens_trace_back_witness :
  (forall k c, authCodes (tables (state (serve_requests requests))) !! k = Some c ->
     exists c0, traced (bridge_answers js flow None) (history (serve_requests requests)) c0 /\
       (c = c0 \/ c = use_code c0)) /\
  (forall k t, accessTokens (tables (state (serve_requests requests))) !! k = Some t -> exists c,
     traced (bridge_answers js flow None) (history (serve_requests requests)) c /\
     at_ClientID t = ac_ClientID c /\ at_UserID t = Some (ac_UserID c) /\
     at_SessionID t = ac_SessionID c /\ at_Scope t = ac_Scope c) /\
  (forall k t, refreshTokens (tables (state (serve_requests requests))) !! k = Some t -> exists c,
     traced (bridge_answers js flow None) (history (serve_requests requests)) c /\
     rt_ClientID t = ac_ClientID c /\ rt_UserID t = ac_UserID c /\
     rt_SessionID t = ac_SessionID c /\ rt_Scope t = ac_Scope c).
Proof.
  apply (tokens_trace_back flow token_config (fun _ => true) (fun _ => "q") (bridge_answers js flow None)
           {["app" := app]}); [exact start_keyed|].
  apply requests_reached. repeat constructor.
Defined.

Lemma redirects_registered_witness : exists cl,
  FClient cl ∈ history (serve_requests requests) /\ "https://app/cb" ∈ cl_RedirectURIs cl.
Proof.
  apply (redirects_registered flow token_config (fun _ => true) (fun _ => "q") (bridge_answers js flow None)
           {["app" := app]} (serve_requests requests) 1 (RedirectTo "https://app/cb" [("code", "code"); ("state", "xyz")]));
    [exact start_keyed| |vm_compute; reflexivity].
  apply requests_reached. repeat constructor.
Defined.

Lemma redemption_needs_verifier_witness : exists a cl,
  FAsked a ∈ history (serve_requests (take 2 requests)) /\ a_ClientID a = "app" /\
  a_CodeChallenge a = Some (GenerateCodeChallenge "verifier") /\ "verifier" <> "" /\
  FClient cl ∈ history (serve_requests (take 2 requests)) /\ cl_ClientID cl = "app" /\
  a_RedirectURI a = "https://app/cb" /\ "https://app/cb" ∈ cl_RedirectURIs cl.
Proof.
  apply (redemption_needs_verifier flow token_config (fun _ => true) (fun _ => "q") (bridge_answers js flow None)
           {["app" := app]} (serve_requests (take 2 requests))
           (TokenEndpoint.Example_tokens.redeem "" "A1" "R1") []);
    [exact start_keyed| |vm_compute; reflexivity].
  apply requests_reached. repeat constructor.
Defined.
End Example_flow.
