(* ===== verification/Access.v ===== *)
(** Who may do what: [internal/oauth/middleware.go], which authenticates requests
    with the tokens of TokenEndpoint; [internal/graphql/admin/handler.go] up to the
    execution of the query, with [requireAdmin] of schema.go; and the settings and
    administrators that [internal/graphql/admin/resolvers.go] changes. *)
From S2P Require Import Prelude GoStrings Utf8 AtProto ConfigStore OAuth TokenEndpoint Bridge Depth.

Local Open Scope Z_scope.

(** ** The middleware *)

Inductive auth_error :=
| ErrMissingAuth | ErrInvalidAuthFormat | ErrInvalidAuthScheme | ErrMissingDPoPProof
| EInvalidProof (e : dpop_error) | EReplay | ErrTokenNotDPoPBound | ErrDPoPRequired
| ErrInvalidToken | ErrTokenExpired | ErrTokenRevoked | ErrTokenNoUser | ErrServerError
| ErrInsufficientScope.
Definition HTTPStatus (e : auth_error) : Z :=
  match e with ErrInsufficientScope => 403 | ErrServerError => 500 | _ => 401 end.

Record http_in := {
  Method : string; Path : string; RawQuery : string; Authorization : string; DPoPHeaderText : string;
  X_User_DID : string; arrived : Z
}.

Record AuthResult := { UserID : string; Token : AccessToken; Scopes_ : list string }.

Record AuthMiddleware := { maxDPoPAge : Z; resourceURL : string }.
Definition NewAuthMiddleware (url : string) : AuthMiddleware :=
  {| maxDPoPAge := DefaultMaxDPoPAge; resourceURL := trim_suffix url "/" |}.
Definition WithMaxDPoPAge (m : AuthMiddleware) (seconds : Z) : AuthMiddleware :=
  {| maxDPoPAge := seconds; resourceURL := resourceURL m |}.

Section Middleware.
Context `{CryptoLib} (m : AuthMiddleware).

Definition resource_of (r : http_in) : string :=
  resourceURL m +:+ Path r +:+ (if is_empty (RawQuery r) then "" else "?" +:+ RawQuery r).

Definition token_expired (now : Z) (t : AccessToken) : bool := at_ExpiresAt t <? now.

(** The checks of a token that was read; [binding] is the check of its key. *)
Definition check_token (now : Z) (binding : option string -> option auth_error)
    (answer : option (option AccessToken)) : result auth_error AuthResult :=
  match answer with
  | None => Err ErrServerError
  | Some None => Err ErrInvalidToken
  | Some (Some t) =>
      if token_expired now t then Err ErrTokenExpired
      else if at_Revoked t then Err ErrTokenRevoked
      else match binding (at_DPoPJKT t) with
           | Some e => Err e
           | None => match at_UserID t with
                     | None => Err ErrTokenNoUser
                     | Some u => Ok {| UserID := u; Token := t;
                                       Scopes_ := match at_Scope t with
                                                  | Some s => Scopes.ParseScopes s | None => [] end |}
                     end
           end
  end.

(** Reading a token has no effect, so its call works or it does not. *)
Definition get_token (up : bool) (token : string) (s : store) : option (option AccessToken) :=
  if up then Some (accessTokens s !! token) else None.

Definition bound (jkt : string) (o : option string) : option auth_error :=
  match o with
  | None => Some ErrTokenNotDPoPBound
  | Some k => if String.eqb k jkt then None else Some ErrInvalidToken
  end.
Definition unbound (o : option string) : option auth_error :=
  if present o then Some ErrDPoPRequired else None.

Definition validateDPoPToken (r : http_in) (token : string) (f : fate) (up : bool) (s : store)
  : result auth_error AuthResult * store :=
  if is_empty (DPoPHeaderText r) then (Err ErrMissingDPoPProof, s)
  else match VerifyDPoPProof (arrived r) (DPoPHeaderText r) (Method r) (resource_of r) (maxDPoPAge m) with
       | Err e => (Err (EInvalidProof e), s)
       | Ok res =>
           let a := exec f (InsertIfNew (JTI res) (IAT res)) s in
           match a.1 with
           | None => (Err ErrServerError, a.2)
           | Some false => (Err EReplay, a.2)
           | Some true => (check_token (arrived r) (bound (JKT res)) (get_token up token a.2), a.2)
           end
       end.

Definition validateBearerToken (r : http_in) (token : string) (up : bool) (s : store)
  : result auth_error AuthResult :=
  check_token (arrived r) unbound (get_token up token s).

Definition ValidateRequest (r : http_in) (f : fate) (up : bool) (s : store)
  : result auth_error AuthResult * store :=
  if is_empty (Authorization r) then (Err ErrMissingAuth, s)
  else match cut_at " " (Authorization r) with
       | None => (Err ErrInvalidAuthFormat, s)
       | Some (scheme, token) =>
           if String.eqb scheme "DPoP" then validateDPoPToken r token f up s
           else if String.eqb scheme "Bearer" then (validateBearerToken r token up s, s)
           else (Err ErrInvalidAuthScheme, s)
       end.

(** What the wrapped handlers get: an error status, or the context values, which
    are absent when the optional authentication did not succeed. *)
Definition RequireAuth (r : http_in) (f : fate) (up : bool) (s : store) : result Z AuthResult * store :=
  let v := ValidateRequest r f up s in
  (match v.1 with Ok res => Ok res | Err e => Err (HTTPStatus e) end, v.2).
Definition OptionalAuth (r : http_in) (f : fate) (up : bool) (s : store) : option AuthResult * store :=
  let v := ValidateRequest r f up s in
  (match v.1 with Ok res => Some res | Err _ => None end, v.2).
Definition RequireScope (requiredScopes : list string) (ctx : option AuthResult) : result Z unit :=
  match ctx with
  | None => Err 403
  | Some res =>
      let scopeSet : gset string := list_to_set (Scopes_ res) in
      guard_err (forallb (fun s => bool_decide (s ∈ scopeSet)) requiredScopes) 403
  end.
Definition UserIDFromContext (ctx : option AuthResult) : string :=
  match ctx with Some res => UserID res | None => "" end.

(** *** What is accepted *)

(** A token that is in its table, not expired, not revoked, and has a user. *)
Definition live (now : Z) (s : store) (token : string) (t : AccessToken) (user : string) : Prop :=
  accessTokens s !! token = Some t /\ now <= at_ExpiresAt t /\ at_Revoked t = false /\
  at_UserID t = Some user.

Lemma check_token_Ok now binding s token res :
  check_token now binding (get_token true token s) = Ok res <->
  exists t user, live now s token t user /\ binding (at_DPoPJKT t) = None /\
    res = {| UserID := user; Token := t;
             Scopes_ := match at_Scope t with Some x => Scopes.ParseScopes x | None => [] end |}.
Proof.
  unfold check_token, get_token, token_expired, live. split.
  - destruct (accessTokens s !! token) as [t|]; [|done].
    destruct (Z.ltb_spec (at_ExpiresAt t) now); [done|]. destruct (at_Revoked t) eqn:Hr; [done|].
    destruct (binding _) eqn:Hb; [done|]. destruct (at_UserID t) as [u|] eqn:Hu; [|done].
    intros [= <-]. exists t, u. split_and!; done.
  - intros (t & u & (-> & He & -> & Hu) & Hb & ->). destruct (Z.ltb_spec (at_ExpiresAt t) now); [lia|].
    by rewrite Hb, Hu.
Qed.

Lemma cut_blank_spec s scheme token : lacks " " scheme = true ->
  cut_at " " s = Some (scheme, token) <-> s = scheme +:+ " " +:+ token.
Proof.
  intros Hl. split; [by intros ->%cut_at_Some|]. intros ->. by apply cut_at_first.
Qed.

(** C33: on working tables a request is authenticated exactly when its header names
    a live token, in one of two ways: as a bearer token that is bound to no key, or
    with a proof of possession for its method and URL, not seen before, by the very
    key the token is bound to; and the user and scopes are those of the token. A
    token bound to a key is never accepted as a bearer token. *)
Theorem ValidateRequest_spec r s res :
  (ValidateRequest r Works true s).1 = Ok res <->
  exists token t user, live (arrived r) s token t user /\
    res = {| UserID := user; Token := t;
             Scopes_ := match at_Scope t with Some x => Scopes.ParseScopes x | None => [] end |} /\
    ((Authorization r = "Bearer " +:+ token /\ at_DPoPJKT t = None) \/
     (Authorization r = "DPoP " +:+ token /\ DPoPHeaderText r <> "" /\
      exists p, VerifyDPoPProof (arrived r) (DPoPHeaderText r) (Method r) (resource_of r) (maxDPoPAge m) = Ok p /\
        dpopJTIs s !! JTI p = None /\ at_DPoPJKT t = Some (JKT p))).
Proof.
  unfold ValidateRequest. split.
  - destruct (is_empty (Authorization r)); [done|].
    destruct (cut_at " " (Authorization r)) as [[scheme token]|] eqn:Hc; [|done].
    apply cut_at_Some in Hc. destruct (String.eqb_spec scheme "DPoP") as [->|Hd].
    + unfold validateDPoPToken. destruct (is_empty (DPoPHeaderText r)) eqn:Hp; [done|].
      destruct (VerifyDPoPProof _ _ _ _ _) as [p|] eqn:Hv; [|done]. cbn [exec]. cbn [apply]. unfold InsertIfNew_.
      destruct (dpopJTIs s !! JTI p) eqn:Hj; [done|]. cbn [fst snd].
      intros (t & u & Hl & Hb & ->)%check_token_Ok. exists token, t, u. split_and!; [done..|].
      right. split; [done|]. split; [by intros He; rewrite He in Hp|]. exists p. split_and!; [done..|].
      unfold bound in Hb. destruct (at_DPoPJKT t) as [k|]; [|done].
      destruct (String.eqb_spec k (JKT p)); [by f_equal|done].
    + destruct (String.eqb_spec scheme "Bearer") as [->|]; [|done]. unfold validateBearerToken. cbn [fst].
      intros (t & u & Hl & Hb & ->)%check_token_Ok. exists token, t, u. split_and!; [done..|].
      left. split; [done|]. unfold unbound in Hb. by destruct (at_DPoPJKT t).
  - intros (token & t & u & Hl & -> & [[Ha Hb]|(Ha & Hd & p & Hv & Hj & Hk)]); rewrite Ha.
    + change (is_empty ("Bearer " +:+ token)) with false.
      assert (cut_at " " ("Bearer " +:+ token) = Some ("Bearer", token)) as -> by by apply (cut_blank_spec _ "Bearer").
      cbn [String.eqb Ascii.eqb Bool.eqb]. change (String.eqb "Bearer" "DPoP") with false. cbn [fst].
      apply check_token_Ok. exists t, u. split_and!; [done| |done]. unfold unbound. by rewrite Hb.
    + change (is_empty ("DPoP " +:+ token)) with false.
      assert (cut_at " " ("DPoP " +:+ token) = Some ("DPoP", token)) as -> by by apply (cut_blank_spec _ "DPoP").
      change (String.eqb "DPoP" "DPoP") with true. unfold validateDPoPToken.
      apply not_empty_spec, negb_true_iff in Hd. rewrite Hd, Hv. cbn [exec apply]. unfold InsertIfNew_. rewrite Hj. cbn [fst snd].
      apply check_token_Ok. exists t, u. split_and!; [done| |done]. unfold bound. by rewrite Hk, String.eqb_refl.
Qed.

(** *** A proof is accepted once *)

(** The middleware next to the token endpoint: both record the identifiers of
    proofs in one table. *)
Inductive happening := Served (e : TokenEndpoint.event) | Asked (r : http_in) (f : fate) (up : bool).
Definition happen (h : OAuthHandlerConfig) (s : store) (e : happening) : store :=
  match e with Served e => TokenEndpoint.serve h e s | Asked r f up => (ValidateRequest r f up s).2 end.

Lemma exec_keeps (P : store -> Prop) B (c : cmd B) f s :
  (forall B (c : cmd B) s, P s -> P (apply c s).2) -> P s -> P (exec f c s).2.
Proof. intros Hc Hs. destruct f; [by apply Hc|done|by apply Hc]. Qed.

Lemma ValidateRequest_keeps (P : store -> Prop) r f up s :
  (forall B (c : cmd B) s, P s -> P (apply c s).2) -> P s -> P (ValidateRequest r f up s).2.
Proof.
  intros Hc Hs. unfold ValidateRequest, validateDPoPToken. repeat case_match; try done.
  all: by apply (exec_keeps P).
Qed.

Lemma happens_jti_dead h now jti iat es s :
  Forall (fun e => match e with Served (EClean _ t) => t <= now | _ => True end) es ->
  jti_dead now jti iat s -> jti_dead now jti iat (fold_left (happen h) es s).
Proof.
  intros Hes. revert s. induction Hes as [|e es He _ IH]; intros s Hs; [done|]. cbn [fold_left].
  apply IH. destruct e as [e|r f up]; [|apply (ValidateRequest_keeps (jti_dead now jti iat)); [apply jti_dead_apply|done]].
  refine (serve_all_keeps h _ (fun e => match e with EClean _ t => t <= now | _ => True end) [e] s
            (jti_dead_apply _ _ _) _ _ _ Hs).
  - intros c s' _ Hd. cbn. by destruct (present _).
  - intros w t s' Ht. by apply jti_dead_cleanup.
  - by repeat constructor.
Qed.

Lemma proof_accepted r f up s res : (ValidateRequest r f up s).1 = Ok res -> at_DPoPJKT (Token res) <> None ->
  exists p, VerifyDPoPProof (arrived r) (DPoPHeaderText r) (Method r) (resource_of r) (maxDPoPAge m) = Ok p /\
    dpopJTIs s !! JTI p = None /\ dpopJTIs (ValidateRequest r f up s).2 !! JTI p = Some (IAT p).
Proof.
  unfold ValidateRequest. destruct (is_empty _); [done|]. destruct (cut_at _ _) as [[scheme token]|]; [|done].
  destruct (String.eqb scheme "DPoP").
  - unfold validateDPoPToken. destruct (is_empty _); [done|]. destruct (VerifyDPoPProof _ _ _ _ _) as [p|]; [|done].
    destruct f; cbn [exec apply]; unfold InsertIfNew_; destruct (dpopJTIs s !! JTI p) eqn:Hj; try done.
    intros _ _. exists p. split_and!; [done..|]. cbn. apply lookup_insert_eq.
  - destruct (String.eqb scheme "Bearer"); [|done]. cbn [fst]. unfold validateBearerToken.
    destruct up; [|done]. intros (t & u & _ & Hb & ->)%check_token_Ok. cbn. unfold unbound in Hb.
    by destruct (at_DPoPJKT t).
Qed.

(** A proof of possession that the middleware accepted is never accepted again,
    for any method, URL or token, whatever the middleware and the token endpoint are
    asked in between and however the worker cleans the tables up to then, provided
    the middleware takes proofs no older than the age the worker keeps them for. *)
Theorem proof_once h r1 f1 up1 s es r2 f2 up2 res1 res2 :
  maxDPoPAge m <= DefaultMaxDPoPAge ->
  let v1 := ValidateRequest r1 f1 up1 s in
  let v2 := ValidateRequest r2 f2 up2 (fold_left (happen h) es v1.2) in
  Forall (fun e => match e with Served (EClean _ t) => t <= arrived r2 | _ => True end) es ->
  v1.1 = Ok res1 -> at_DPoPJKT (Token res1) <> None ->
  v2.1 = Ok res2 -> at_DPoPJKT (Token res2) <> None ->
  DPoPHeaderText r1 <> DPoPHeaderText r2.
Proof.
  intros Hage v1 v2 Hes H1 Hb1 H2 Hb2 Heq.
  destruct (proof_accepted _ _ _ _ _ H1 Hb1) as (p1 & Hv1 & _ & Hj1).
  destruct (proof_accepted _ _ _ _ _ H2 Hb2) as (p2 & Hv2 & Hj2 & _). rewrite <-Heq in Hv2.
  destruct (same_proof _ _ _ _ _ _ _ _ _ _ _ Hv1 Hv2) as [Hjti Hold].
  destruct (happens_jti_dead h (arrived r2) (JTI p1) (IAT p1) es v1.2 Hes) as [Hl|Ho]; [by left| |lia].
  by rewrite Hjti, Hl in Hj2.
Qed.

(** *** A token is refused once it is revoked *)

(** Its row is there, revoked; [expiry] is when it expires. *)
Definition token_dead (token : string) (expiry : Z) (s : store) : Prop :=
  exists t, accessTokens s !! token = Some t /\ at_Revoked t = true /\ at_ExpiresAt t = expiry.

Lemma token_dead_apply token expiry B (c : cmd B) s :
  token_dead token expiry s -> token_dead token expiry (apply c s).2.
Proof.
  intros (t & Ht & Hr & He). destruct c as [| | |n|tok| | | |]; cbn; try case_match; cbn; try by exists t.
  - exists t. split; [|done]. cbn. rewrite lookup_insert_ne; [done|]. intros Heq. by rewrite Heq, Ht in *.
  - destruct (decide (tok = token)) as [->|Hne].
    + exists (revoke_access t). cbn. by rewrite lookup_alter_eq, Ht.
    + exists t. cbn. by rewrite lookup_alter_ne.
Qed.

Lemma token_dead_happens h token expiry es s :
  Forall (fun e => match e with Served (EClean _ t) => t <= expiry | _ => True end) es ->
  token_dead token expiry s -> token_dead token expiry (fold_left (happen h) es s).
Proof.
  intros Hes. revert s. induction Hes as [|e es He _ IH]; intros s Hs; [done|]. cbn [fold_left].
  apply IH. destruct e as [e|r f up]; [|apply (ValidateRequest_keeps (token_dead token expiry)); [apply token_dead_apply|done]].
  refine (serve_all_keeps h _ (fun e => match e with EClean _ t => t <= expiry | _ => True end) [e] s
            (token_dead_apply _ _) _ _ _ Hs).
  - intros c s' _ Hd. cbn. by destruct (present _).
  - intros w t s' Ht (x & Hx & Hr & He'). exists x. split; [|done].
    destruct w as [[] [] []]; cbn; try done; apply map_lookup_filter_Some; (split; [done|]); cbn; lia.
  - by repeat constructor.
Qed.

Lemma accepted_live r f up s res : (ValidateRequest r f up s).1 = Ok res ->
  exists scheme token, Authorization r = scheme +:+ " " +:+ token /\
    (scheme = "DPoP" \/ scheme = "Bearer" /\ at_DPoPJKT (Token res) = None) /\
    live (arrived r) s token (Token res) (UserID res).
Proof.
  unfold ValidateRequest. destruct (is_empty _); [done|].
  destruct (cut_at _ _) as [[scheme token]|] eqn:Hc; [|done].
  destruct (String.eqb_spec scheme "DPoP") as [->|_].
  - unfold validateDPoPToken. destruct (is_empty _); [done|]. destruct (VerifyDPoPProof _ _ _ _ _) as [p|]; [|done].
    destruct f, up; cbn [exec apply]; unfold InsertIfNew_; destruct (dpopJTIs s !! JTI p) eqn:Hj; try done.
    intros (t & u & Hl & _ & ->)%check_token_Ok.
    exists "DPoP", token. split_and!; [by apply cut_blank_spec|by left|done].
  - destruct (String.eqb_spec scheme "Bearer") as [->|_]; [|done]. cbn [fst]. unfold validateBearerToken.
    destruct up; [|done]. intros (t & u & Hl & Hb & ->)%check_token_Ok.
    exists "Bearer", token. split_and!; [by apply cut_blank_spec| |done]. right. split; [done|].
    unfold unbound in Hb. cbn. by destruct (at_DPoPJKT t).
Qed.

(** Once the revocation of an access token has reached its row, no request that
    presents the token, in either way, is authenticated again while the row lives:
    whatever the token endpoint and the middleware are asked in between, and
    however the tables are cleaned before the token expires. *)
Theorem revoked_refused h req fs s t es r f up scheme :
  Form req "token" <> "" -> accessTokens s !! Form req "token" = Some t -> head fs <> Some Fails ->
  Forall (fun e => match e with Served (EClean _ now) => now <= at_ExpiresAt t | _ => True end) es ->
  Authorization r = scheme +:+ " " +:+ Form req "token" -> lacks " " scheme = true ->
  forall res, (ValidateRequest r f up
                 (fold_left (happen h) es (run (HandleRevoke req) fs s).2)).1 <> Ok res.
Proof.
  intros Hne Ht Hf Hes Ha Hl res Hv.
  assert (token_dead (Form req "token") (at_ExpiresAt t) (run (HandleRevoke req) fs s).2) as Hd.
  { unfold HandleRevoke. apply not_empty_spec in Hne. rewrite Hne. cbn [run].
    pose (x := default Works (head fs)). fold x. assert (x <> Fails) as Hx by (subst x; by destruct fs as [|[] ?]).
    assert (token_dead (Form req "token") (at_ExpiresAt t) (exec x (RevokeAccess (Form req "token")) s).2) as H1.
    { exists (revoke_access t). destruct x; [|done|]; cbn; by rewrite lookup_alter_eq, Ht. }
    destruct (default Works (head (tail fs))); cbn [exec snd]; [|done|]; by apply token_dead_apply. }
  apply (token_dead_happens h _ _ es) in Hd; [|done]. destruct Hd as (t' & Ht' & Hr' & _).
  apply accepted_live in Hv as (scheme' & token' & Ha' & Hsch & Hx & _ & Hr & _). rewrite Ha in Ha'.
  assert (lacks " " scheme' = true) as Hl' by by destruct Hsch as [-> |[-> _]].
  assert (scheme = scheme' /\ Form req "token" = token') as [_ <-].
  { apply (cut_blank_spec _ scheme') in Ha'; [|done].
    assert (cut_at " " (scheme +:+ " " +:+ Form req "token") = Some (scheme, Form req "token")) as Hc
      by by apply cut_blank_spec. rewrite Ha' in Hc. by simplify_eq. }
  rewrite Ht' in Hx. injection Hx as ->. by rewrite Hr' in Hr.
Qed.

Lemma RequireScope_spec required ctx :
  RequireScope required ctx = Ok () <-> exists res, ctx = Some res /\ forall x, x ∈ required -> x ∈ Scopes_ res.
Proof.
  unfold RequireScope, guard_err. destruct ctx as [res|]; [|split; [done|by intros (? & [=] & _)]]. split.
  - destruct (forallb _ _) eqn:Hf; [|done]. intros _. exists res. split; [done|]. intros x Hx.
    rewrite forallb_forall in Hf. specialize (Hf x (proj1 (list_elem_of_In _ _) Hx)).
    apply bool_decide_eq_true in Hf. by apply elem_of_list_to_set in Hf.
  - intros (r & [= <-] & Hr). replace (forallb _ _) with true; [done|]. symmetry. apply forallb_forall.
    intros x Hx%list_elem_of_In. apply bool_decide_eq_true, elem_of_list_to_set. auto.
Qed.
End Middleware.

(** ** The admin endpoint *)

Definition maxAdminQueryDepth : Z := 20.

(** What the resolvers find in the context of a request. *)
Record AuthContext := { userDID : string; isAdmin : bool; adminDIDs : list string }.

(** The list of administrators as the admin package reads it. *)
Definition admin_pieces (value : string) : list string :=
  if is_empty value then [] else TrimSpace <$> split value ",".

Section Gate.
Context `{CryptoLib} (adminAPIKey : string) (parse : string -> option (list Definition_)).

Definition validAPIKey (r : http_in) : bool :=
  if is_empty adminAPIKey then true
  else has_prefix (Authorization r) "Bearer " && String.eqb (drop_bytes 7 (Authorization r)) adminAPIKey.

(** Whom the request acts as, and whether it is by the key. *)
Definition acting (ctx : option AuthResult) (r : http_in) : string * bool :=
  let user := UserIDFromContext ctx in
  if is_empty user && negb (is_empty adminAPIKey) && validAPIKey r
  then (if negb (is_empty (X_User_DID r)) && Did.IsValid (X_User_DID r) then X_User_DID r else user, true)
  else (user, false).

(** [Err] is the status of a refusal; otherwise the query is executed in the
    context. [query] is the query of the body, if it is read and decoded, and
    [reads] tells whether the configuration can be read. *)
Definition ServeHTTP (ctx : option AuthResult) (r : http_in) (query : option string) (reads : bool)
    (config : ConfigStore.store) : result Z AuthContext :=
  if negb (String.eqb (Method r) "POST") then Err 405
  else
    let '(user, apiKeyAuth) := acting ctx r in
    if is_empty user && negb apiKeyAuth then Err 401
    else match query with
         | None => Err 400
         | Some q =>
             match Check_ parse q maxAdminQueryDepth with
             | Err _ => Err 400
             | Ok _ =>
                 let adminDidsStr := if reads then default "" (config !! "admin_dids") else "" in
                 let dids := admin_pieces adminDidsStr in
                 Ok {| userDID := user; isAdmin := existsb (fun d => String.eqb d user) dids; adminDIDs := dids |}
             end
         end.

(** The endpoint as it is mounted: behind the optional authentication. *)
Definition endpoint (m : AuthMiddleware) (r : http_in) (query : option string) (f : fate) (up reads : bool)
    (s : store) (config : ConfigStore.store) : result Z AuthContext * store :=
  let o := OptionalAuth m r f up s in (ServeHTTP o.1 r query reads config, o.2).

Definition requireAdmin (a : AuthContext) : result string unit :=
  guard_err (isAdmin a) "admin privileges required".
End Gate.

(** ** Settings *)

Inductive settings_error :=
| ENotAdmin (text : string) | EInvalidDID | ENoAdmins | ELastAdmin | EAdminUnknown | EInvalidSetting (key : string)
| EStore.

Section Settings.
Context (url_valid : string -> bool).

Definition validateOperatorURL (raw : string) : bool :=
  match Parse url_valid raw with
  | None => false
  | Some u => String.eqb (Scheme u) "https" && negb (is_empty (Host u))
  end.
Definition validateJetstreamURL (raw : string) : bool :=
  match Parse url_valid raw with
  | None => false
  | Some u => (String.eqb (Scheme u) "wss" || String.eqb (Scheme u) "https") && negb (is_empty (Host u))
  end.
Definition validAdminDids (value : string) : bool :=
  forallb (fun raw => let d := TrimSpace raw in is_empty d || Did.IsValid d) (split value ",").

(** Whether the configuration can be read, and which keys can be written: a
    mutation writes a key at most once. *)
Record config_io := { reads : bool; writes : string -> bool }.
Context (io : config_io).

Definition read (config : ConfigStore.store) (key : string) : string :=
  if reads io then default "" (config !! key) else "".

Definition AddAdmin (config : ConfigStore.store) (did : string)
  : result settings_error bool * ConfigStore.store :=
  if negb (Did.IsValid did) then (Err EInvalidDID, config)
  else
    let dids := admin_pieces (read config "admin_dids") in
    if existsb (fun d => String.eqb d did) dids then (Ok true, config)
    else match Set_ (writes io "admin_dids") config "admin_dids" (join (dids ++ [did]) ",") with
         | Err _ => (Err EStore, config)
         | Ok config' => (Ok true, config')
         end.

Definition RemoveAdmin (config : ConfigStore.store) (did : string)
  : result settings_error bool * ConfigStore.store :=
  if negb (Did.IsValid did) then (Err EInvalidDID, config)
  else if is_empty (read config "admin_dids") then (Err ENoAdmins, config)
  else
    let dids := admin_pieces (read config "admin_dids") in
    if Nat.leb (length dids) 1 then (Err ELastAdmin, config)
    else if negb (existsb (fun d => String.eqb d did) dids) then (Err EAdminUnknown, config)
    else match Set_ (writes io "admin_dids") config "admin_dids"
                 (join (List.filter (fun d => negb (String.eqb d did)) dids) ",") with
         | Err _ => (Err EStore, config)
         | Ok config' => (Ok true, config')
         end.

Record SettingsInput := {
  domainAuthority : option string; adminDids : option string; relayURL : option string;
  plcDirectoryURL : option string; jetstreamURL : option string; oauthScopes : option string
}.

(** One field of [UpdateSettings], written as soon as it is found valid. *)
Definition update (key : string) (arg : option string) (valid : string -> bool) (config : ConfigStore.store)
  : result settings_error unit * ConfigStore.store :=
  match arg with
  | None => (Ok tt, config)
  | Some v =>
      if negb (valid v) then (Err (EInvalidSetting key), config)
      else match Set_ (writes io key) config key v with
           | Err _ => (Err EStore, config)
           | Ok config' => (Ok tt, config')
           end
  end.
Fixpoint update_all (l : list (string * option string * (string -> bool))) (config : ConfigStore.store)
  : result settings_error unit * ConfigStore.store :=
  match l with
  | [] => (Ok tt, config)
  | (key, arg, valid) :: rest =>
      match update key arg valid config with
      | (Ok _, config') => update_all rest config'
      | failed => failed
      end
  end.
Definition settings_fields (i : SettingsInput) : list (string * option string * (string -> bool)) :=
  [("domain_authority", domainAuthority i, fun _ => true); ("admin_dids", adminDids i, validAdminDids);
   ("relay_url", relayURL i, validateOperatorURL); ("plc_directory_url", plcDirectoryURL i, validateOperatorURL);
   ("jetstream_url", jetstreamURL i, validateJetstreamURL); ("oauth_supported_scopes", oauthScopes i, fun _ => true)].

Record SettingsView := {
  v_domainAuthority : string; v_adminDids : list string; relayUrl : string; plcDirectoryUrl : string;
  jetstreamUrl : string; oauthSupportedScopes : string
}.
Definition Settings (config : ConfigStore.store) : SettingsView :=
  {| v_domainAuthority := read config "domain_authority"; v_adminDids := admin_pieces (read config "admin_dids");
     relayUrl := read config "relay_url"; plcDirectoryUrl := read config "plc_directory_url";
     jetstreamUrl := read config "jetstream_url"; oauthSupportedScopes := read config "oauth_supported_scopes" |}.
Definition UpdateSettings (config : ConfigStore.store) (i : SettingsInput)
  : result settings_error SettingsView * ConfigStore.store :=
  match update_all (settings_fields i) config with
  | (Err e, config') => (Err e, config')
  | (Ok _, config') => (Ok (Settings config'), config')
  end.
End Settings.

Inductive mutation := MAddAdmin (did : string) | MRemoveAdmin (did : string) | MUpdateSettings (i : SettingsInput).

(** An argument that is absent or empty leaves its setting alone. *)
Definition given (o : option string) : option string :=
  match o with Some v => if is_empty v then None else Some v | None => None end.
Definition supplied (i : SettingsInput) : SettingsInput :=
  {| domainAuthority := given (domainAuthority i); adminDids := given (adminDids i); relayURL := given (relayURL i);
     plcDirectoryURL := given (plcDirectoryURL i); jetstreamURL := given (jetstreamURL i);
     oauthScopes := given (oauthScopes i) |}.

(** A mutation field of the schema. *)
Definition resolve (url_valid : string -> bool) (a : AuthContext) (io : config_io) (config : ConfigStore.store)
    (m : mutation) : result settings_error unit * ConfigStore.store :=
  match requireAdmin a with
  | Err t => (Err (ENotAdmin t), config)
  | Ok _ =>
      let drop {A} (p : result settings_error A * ConfigStore.store) :=
        (match p.1 with Ok _ => Ok tt | Err e => Err e end, p.2) in
      match m with
      | MAddAdmin did => drop (AddAdmin io config did)
      | MRemoveAdmin did => drop (RemoveAdmin io config did)
      | MUpdateSettings i => drop (UpdateSettings url_valid io config (supplied i))
      end
  end.

(** ** Who is an administrator *)

(** C34: The endpoint lets a request act as an administrator only when it is a POST
    whose user is in the list of the configuration, which could be read, and only
    as one of three: the user of an access token in the tables that the request
    presents, not expired when it arrived and not revoked, which as a bearer token
    is bound to no key; with the API key, which must be configured, the DID of its
    X-User-DID header, when that is one; or, with the API key and no such DID, the
    empty user, which is an administrator when the list has an empty piece
    (Example nameless_admin). *)
Theorem admin_identity `{CryptoLib} key parse m r query f up reads s config a :
  (endpoint key parse m r query f up reads s config).1 = Ok a -> requireAdmin a = Ok () ->
  Method r = "POST" /\ reads = true /\ userDID a ∈ admin_pieces (default "" (config !! "admin_dids")) /\
  ((exists scheme token t, Authorization r = scheme +:+ " " +:+ token /\
      (scheme = "DPoP" \/ scheme = "Bearer" /\ at_DPoPJKT t = None) /\
      accessTokens s !! token = Some t /\ arrived r <= at_ExpiresAt t /\
      at_Revoked t = false /\ at_UserID t = Some (userDID a)) \/
   (key <> "" /\ Authorization r = "Bearer " +:+ key /\
    (userDID a = X_User_DID r /\ Did.IsValid (userDID a) = true \/ userDID a = ""))).
Proof.
  unfold endpoint, ServeHTTP, requireAdmin, guard_err. cbn [fst].
  destruct (String.eqb_spec (Method r) "POST") as [Hp|]; [|done]. cbn [negb].
  destruct (acting key _ r) as [user by_key] eqn:Hact. destruct (is_empty user && negb by_key) eqn:He; [done|].
  destruct query as [q|]; [|done]. destruct (Check_ _ _ _); [|done]. intros [= <-]. cbn [isAdmin userDID].
  destruct (existsb _ _) eqn:Hadm; [|done]. intros _.
  apply existsb_elem_of in Hadm as (d & Hd & ->%String.eqb_eq).
  destruct reads; [|by apply elem_of_nil in Hd]. split_and!; [done..|].
  unfold acting, OptionalAuth in Hact. cbn [fst] in Hact.
  destruct (is_empty (UserIDFromContext _) && negb (is_empty key) && validAPIKey key r) eqn:Hk.
  - apply andb_true_iff in Hk as [[Hu Hkey]%andb_true_iff Hv]. right.
    assert (key <> "" /\ Authorization r = "Bearer " +:+ key) as [? ?].
    { split; [by apply not_empty_spec|]. unfold validAPIKey in Hv.
      destruct (is_empty key) eqn:Hek; [done|]. apply andb_true_iff in Hv as [(t & Ha)%prefix_spec Ht].
      change (drop_bytes 7) with (drop_bytes (String.length "Bearer ")) in Ht.
      rewrite Ha, drop_bytes_app in Ht. by apply String.eqb_eq in Ht as ->. }
    split_and!; [done..|]. destruct (negb (is_empty (X_User_DID r)) && _) eqn:Hx.
    + injection Hact as <- _. apply andb_true_iff in Hx as [_ Hx]. by left.
    + injection Hact as <- _. right. by apply is_empty_spec in Hu.
  - injection Hact as <- <-. rewrite andb_true_r in He. left.
    destruct (ValidateRequest m r f up s).1 as [res|] eqn:Hv; [|done].
    apply accepted_live in Hv as (scheme & token & Ha & Hs & Hl & Hx & Hr & Hu). by exists scheme, token, (Token res).
Qed.

(** *** The settings stay well formed *)

Definition pieces_ok (l : list string) : Prop := Forall (fun d => d = "" \/ Did.IsValid d = true) l.
Definition holds_for (config : ConfigStore.store) (key : string) (valid : string -> bool) : Prop :=
  forall v, config !! key = Some v -> valid v = true.
Definition settings_ok (url_valid : string -> bool) (config : ConfigStore.store) : Prop :=
  Forall (fun '(key, _, valid) => holds_for config key valid)
    (settings_fields url_valid (Build_SettingsInput None None None None None None)).

Lemma pieces_ok_snoc l did : pieces_ok l -> Did.IsValid did = true -> pieces_ok (l ++ [did]).
Proof. intros Hl Hd. apply Forall_app. split; [done|]. constructor; [by right|constructor]. Qed.

Lemma pieces_ok_filter l f : pieces_ok l -> pieces_ok (List.filter f l).
Proof.
  unfold pieces_ok. rewrite !Forall_forall. intros Hl d [Hd _]%list_elem_of_In%filter_In.
  by apply Hl, list_elem_of_In.
Qed.

Lemma pieces_ok_plain l : pieces_ok l -> Forall (fun d => lacks "," d = true /\ TrimSpace d = d) l.
Proof.
  intros Hl. eapply Forall_impl; [exact Hl|]. intros d [->|Hd]; [done|].
  destruct (ConfigStore.valid_did_plain d Hd) as (? & ? & _). done.
Qed.

Lemma validAdminDids_pieces v : validAdminDids v = true <-> pieces_ok (admin_pieces v).
Proof.
  unfold validAdminDids, admin_pieces, pieces_ok. destruct (is_empty v) eqn:He.
  - apply is_empty_spec in He as ->. split; [constructor|done].
  - rewrite forallb_forall, Forall_fmap, Forall_forall. setoid_rewrite <- list_elem_of_In. cbn.
    split; intros Hv d Hd; specialize (Hv d Hd).
    + apply orb_true_iff in Hv as [Hv|Hv]; [left; by apply is_empty_spec|by right].
    + apply orb_true_iff. destruct Hv as [Hv|Hv]; [left; by apply is_empty_spec|by right].
Qed.

(** What is written is what is read, but for a lone empty piece. *)
Lemma pieces_join l : pieces_ok l -> join l "," <> "" -> admin_pieces (join l ",") = l.
Proof.
  intros Hl Hne. unfold admin_pieces. apply not_empty_spec, negb_true_iff in Hne. rewrite Hne.
  apply pieces_ok_plain in Hl. rewrite split_join.
  - clear Hne. induction Hl as [|d l [_ Hd] _ IH]; [done|]. cbn. rewrite Hd. f_equal. exact IH.
  - by intros ->.
  - eapply Forall_impl; [exact Hl|]. by intros d [? _].
Qed.

Lemma elem_of_written l d : pieces_ok l -> Did.IsValid d = true ->
  d ∈ admin_pieces (join l ",") <-> d ∈ l.
Proof.
  intros Hl Hd. destruct (decide (join l "," = "")) as [He|Hne]; [|by rewrite pieces_join].
  rewrite He. cbn. split; [by intros ?%elem_of_nil|]. intros Hin. exfalso.
  destruct l as [|x [|y l]]; [by apply elem_of_nil in Hin| |].
  - apply list_elem_of_singleton in Hin as ->. change (join [x] ",") with x in He. by subst.
  - change (join (x :: y :: l) ",") with (x +:+ "," +:+ join (y :: l) ",") in He. by destruct x.
Qed.

Lemma pieces_ok_written l : pieces_ok l -> validAdminDids (join l ",") = true.
Proof.
  intros Hl. apply validAdminDids_pieces. destruct (decide (join l "," = "")) as [->|Hne]; [constructor|].
  by rewrite pieces_join.
Qed.

Lemma pieces_ok_read url_valid io config : settings_ok url_valid config ->
  pieces_ok (admin_pieces (read io config "admin_dids")).
Proof.
  intros Hs. unfold settings_ok, settings_fields in Hs. rewrite !Forall_cons in Hs. destruct Hs as (_ & Hs & _).
  unfold read. destruct (reads io); [|constructor]. destruct (config !! "admin_dids") as [v|] eqn:Hv; [|constructor].
  by apply validAdminDids_pieces, Hs.
Qed.

Lemma settings_ok_insert url_valid config key valid v :
  (key, None, valid) ∈ settings_fields url_valid (Build_SettingsInput None None None None None None) ->
  valid v = true -> settings_ok url_valid config -> settings_ok url_valid (<[key := v]> config).
Proof.
  intros Hin Hv Hs. unfold settings_ok in *. rewrite Forall_forall in *. intros [[k arg] valid'] Hin'.
  specialize (Hs _ Hin'). cbn in Hs. intros x Hx. apply lookup_insert_Some in Hx as [[<- <-]|[_ Hx]]; [|by apply Hs].
  apply list_elem_of_In in Hin, Hin'. cbn in Hin, Hin'.
  destruct_or! Hin; destruct_or! Hin'; congruence.
Qed.

Lemma write_list_ok url_valid config io l (r : result settings_error bool) : settings_ok url_valid config -> pieces_ok l ->
  settings_ok url_valid
    (match Set_ (writes io "admin_dids") config "admin_dids" (join l ",") with
     | Err _ => (Err EStore, config) | Ok config' => (r, config') end).2.
Proof.
  intros Hs Hl. unfold Set_. destruct (writes io _); [|done].
  apply (settings_ok_insert _ _ _ (fun v => validAdminDids v)); [|by apply pieces_ok_written|done].
  right. left.
Qed.

Lemma update_all_ok url_valid io l config :
  Forall (fun '(key, _, valid) =>
     (key, None, valid) ∈ settings_fields url_valid (Build_SettingsInput None None None None None None)) l ->
  settings_ok url_valid config -> settings_ok url_valid (update_all io l config).2.
Proof.
  intros Hl. revert config. induction Hl as [|[[key arg] valid] l Hk _ IH]; intros config Hs; [done|].
  cbn [update_all].
  assert (settings_ok url_valid (update io key arg valid config).2) as H1.
  { unfold update. destruct arg as [v|]; [|done]. destruct (valid v) eqn:Hv; [|done]. cbn [negb].
    unfold Set_. destruct (writes io key); [|done]. cbn [snd]. by eapply settings_ok_insert. }
  destruct (update io key arg valid config) as [[[]|] config']; [|done]. by apply IH.
Qed.

Definition mutations_run (url_valid : string -> bool) (l : list (AuthContext * config_io * mutation))
    (config : ConfigStore.store) : ConfigStore.store :=
  fold_left (fun config '(a, io, m) => (resolve url_valid a io config m).2) l config.

(** Whatever mutations of the settings are asked, by whom, and whichever reads
    and writes of the configuration fail on the way, the list of administrators
    stays one of valid DIDs and empty pieces, and the addresses of the relay, of the
    directory and of the jetstream stay https (or wss) URLs with a host. *)
Theorem settings_kept url_valid l config :
  settings_ok url_valid config -> settings_ok url_valid (mutations_run url_valid l config).
Proof.
  revert config. induction l as [|[[a io] m] l IH]; intros config Hs; [done|]. apply IH.
  unfold resolve. destruct (requireAdmin a); [|done].
  pose proof (pieces_ok_read url_valid io config Hs) as Hp.
  destruct m as [did|did|i]; cbn [snd].
  - unfold AddAdmin. destruct (Did.IsValid did) eqn:Hd; [|done]. cbn [negb]. destruct (existsb _ _); [done|].
    apply write_list_ok; [done|]. by apply pieces_ok_snoc.
  - unfold RemoveAdmin. destruct (negb _); [done|]. destruct (is_empty _); [done|]. destruct (Nat.leb _ _); [done|].
    destruct (negb _); [done|]. apply write_list_ok; [done|]. by apply pieces_ok_filter.
  - unfold UpdateSettings.
    assert (settings_ok url_valid (update_all io (settings_fields url_valid (supplied i)) config).2) as Hu.
    { apply update_all_ok; [|done]. repeat constructor; apply list_elem_of_In; cbn; tauto. }
    by destruct (update_all _ _ _) as [[[]|] config'].
Qed.

(** What adding and removing administrators does to a well-formed list: adding
    a valid DID makes it an administrator and nobody else changes; a removal takes
    away exactly its target, who was one of at least two pieces; a refusal changes
    nothing. *)
Theorem administrators_change url_valid config did d :
  settings_ok url_valid config -> Did.IsValid did = true -> Did.IsValid d = true ->
  let io := {| reads := true; writes := fun _ => true |} in
  let admin c := d ∈ admin_pieces (default "" (c !! "admin_dids")) in
  let added := AddAdmin io config did in
  let removed := RemoveAdmin io config did in
  (added.1 = Ok true /\ (admin added.2 <-> admin config \/ d = did)) /\
  match removed.1 with
  | Ok _ => did ∈ admin_pieces (default "" (config !! "admin_dids")) /\ (admin removed.2 <-> admin config /\ d <> did)
  | Err _ => removed.2 = config
  end.
Proof.
  intros Hs Hdid Hd io admin added removed.
  pose proof (pieces_ok_read url_valid io config Hs) as Hp. unfold read in Hp. cbn in Hp.
  subst added removed admin; unfold AddAdmin, RemoveAdmin, read, Set_. rewrite Hdid. cbn [negb reads writes io].
  set (dids := admin_pieces (default "" (config !! "admin_dids"))) in *.
  assert (existsb (fun x => String.eqb x did) dids = true <-> did ∈ dids) as Hin.
  { rewrite existsb_elem_of. split; [by intros (x & Hx & ->%String.eqb_eq)|].
    intros Hx. exists did. by rewrite String.eqb_refl. }
  split.
  - destruct (existsb _ dids).
    + split; [done|]. cbn [snd]. fold dids. split; [by left|]. intros [?| ->]; [done|by apply Hin].
    + split; [done|]. cbn [snd]. rewrite lookup_insert_eq. simpl default. rewrite elem_of_written; [|..|done].
      * rewrite elem_of_app, list_elem_of_singleton. done.
      * by apply pieces_ok_snoc.
  - destruct (is_empty _); [done|]. destruct (Nat.leb _ _); [done|]. destruct (existsb _ dids); [|done].
    cbn [negb fst snd]. split; [by apply Hin|]. rewrite lookup_insert_eq. simpl default. rewrite elem_of_written; [|..|done].
    + rewrite list_elem_of_In, filter_In, <-list_elem_of_In, negb_true_iff, String.eqb_neq. done.
    + by apply pieces_ok_filter.
Qed.

(** ** A server *)

Module Example_access.

(** A library whose hash is the identity and whose proofs name their own identifier
    and were issued at time 1000. *)
#[local] Program Instance toy : CryptoLib := {|
  sha256 s := s;
  parse_header s := Some {| Typ := "dpop+jwt"; Alg := "ES256";
    h_JWK := Some {| Kty := "EC"; Crv := "P-256"; X := "eA"; Y := "eQ" |} |};
  jwt_verify now proof x y := Some {| HTM := "POST"; HTU := "https://i/admin/graphql"; ATH := "";
    c_ID := proof; IssuedAt := Some 1000 |}
|}.
Next Obligation. intros. by simplify_eq. Qed.

Definition toy_parse (q : string) : option (list Definition_) := Some [OperationDefinition (Some [Field None])].
Definition guard : AuthMiddleware := NewAuthMiddleware "https://i/".
Definition bound_to : string :=
  match VerifyDPoPProof 1010 "eA.q.r" "POST" "https://i/admin/graphql" DefaultMaxDPoPAge with
  | Ok p => JKT p | Err _ => "" end.
Definition alice : string := "did:plc:a".
Definition held (token : string) (key : option string) : AccessToken :=
  {| at_Token := token; TokenType := if key then "DPoP" else "Bearer"; at_ClientID := "app"; at_UserID := Some alice;
     at_SessionID := None; at_Scope := Some "atproto"; at_CreatedAt := 900;
     at_ExpiresAt := 5000; at_Revoked := false; at_DPoPJKT := key |}.
Definition tables : TokenEndpoint.store :=
  {| clients := ∅; authCodes := ∅;
     accessTokens := {["t" := held "t" (Some bound_to); "b" := held "b" None]};
     refreshTokens := ∅; dpopJTIs := ∅ |}.
Definition asks (auth proof did : string) : http_in :=
  {| Method := "POST"; Path := "/admin/graphql"; RawQuery := ""; Authorization := auth; DPoPHeaderText := proof;
     X_User_DID := did; arrived := 1010 |}.
Definition handlers : OAuthHandlerConfig :=
  {| ExternalBaseURL := "https://i"; AccessTokenExpiration := 3600;
     RefreshTokenExpiration := 1209600; LegacyDPoPJKTCutoff := 500 |}.

(** Two requests by one token with two proofs are accepted. *)
Lemma proof_once_witness :
  let r1 := asks "DPoP t" "eA.q.r" "" in let r2 := asks "DPoP t" "eA.q.s" "" in
  let es := [Served (EClean {| w_codes := true; w_access := true; w_jtis := true |} 1010)] in
  (exists res1 res2, (ValidateRequest guard r1 Works true tables).1 = Ok res1 /\
     (ValidateRequest guard r2 Works true
        (fold_left (happen guard handlers) es (ValidateRequest guard r1 Works true tables).2)).1 = Ok res2) /\
  DPoPHeaderText r1 <> DPoPHeaderText r2.
Proof.
  intros r1 r2 es. split; [eexists _, _; split; vm_compute; reflexivity|].
  eapply (proof_once guard handlers r1 Works true tables es r2 Works true); [done| | | | |].
  - by repeat constructor.
  - vm_compute. reflexivity.
  - done.
  - vm_compute. reflexivity.
  - done.
Defined.

Definition revocation : Request :=
  {| form := {["token" := "b"]}; DPoP := ""; time := 1005; randomAccess := None; randomRefresh := None |}.
Lemma revoked_refused_witness :
  let r := asks "Bearer b" "" "" in
  (exists res, (ValidateRequest guard r Works true tables).1 = Ok res) /\
  forall res, (ValidateRequest guard r Works true (run (HandleRevoke revocation) [] tables).2).1 <> Ok res.
Proof.
  intros r. split; [eexists; vm_compute; reflexivity|].
  apply (revoked_refused guard handlers revocation [] tables (held "b" None) [] r Works true "Bearer");
    try done; try constructor; vm_compute; reflexivity.
Defined.

Definition settings : ConfigStore.store := {["admin_dids" := alice]}.

Lemma admin_identity_witness :
  let a := {| userDID := alice; isAdmin := true; adminDIDs := [alice] |} in
  let r := asks "Bearer secret" "" alice in
  (endpoint "secret" toy_parse guard r (Some "{ x }") Works true true tables settings).1 = Ok a /\
  Method r = "POST" /\ alice ∈ admin_pieces (default "" (settings !! "admin_dids")).
Proof.
  intros a r. split; [vm_compute; reflexivity|].
  destruct (admin_identity "secret" toy_parse guard r (Some "{ x }") Works true true tables settings a)
    as (Hm & _ & Hin & _).
  - vm_compute. reflexivity.
  - reflexivity.
  - split; [exact Hm|exact Hin].
Defined.

(** With an empty piece in the list, the bearer of the API key needs no DID at all
    to be an administrator. *)
Example nameless_admin :
  (endpoint "secret" toy_parse guard (asks "Bearer secret" "" "") (Some "{ x }") Works true true tables
     {["admin_dids" := alice +:+ ","]}).1 = Ok {| userDID := ""; isAdmin := true; adminDIDs := [alice; ""] |}.
Proof. vm_compute. reflexivity. Qed.

Definition all_work : config_io := {| reads := true; writes := fun _ => true |}.
Definition admin : AuthContext := {| userDID := alice; isAdmin := true; adminDIDs := [alice] |}.

(** The administrators after a mutation by one of them. *)
Definition after (value : string) (io : config_io) (m : mutation) : option string :=
  (resolve (fun _ => true) admin io {["admin_dids" := value]} m).2 !! "admin_dids".

(** The only administrator, written twice or before a comma, can be removed; a list
    of a comma alone is accepted; and when the list cannot be read for a moment,
    adding an administrator replaces it. *)
Example last_admin_removed :
  after (alice +:+ "," +:+ alice) all_work (MRemoveAdmin alice) = Some "" /\
  after (alice +:+ ",") all_work (MRemoveAdmin alice) = Some "".
Proof. split; vm_compute; reflexivity. Qed.
Example locked_out :
  after alice all_work (MUpdateSettings (Build_SettingsInput None (Some ",") None None None None)) = Some ",".
Proof. vm_compute. reflexivity. Qed.
Example list_forgotten :
  after alice {| reads := false; writes := fun _ => true |} (MAddAdmin "did:plc:b") = Some "did:plc:b".
Proof. vm_compute. reflexivity. Qed.

Lemma settings_start : settings_ok (fun _ => true) settings.
Proof.
  repeat constructor; intros v Hv; vm_compute in Hv; try done. injection Hv as <-. vm_compute. reflexivity.
Defined.

Lemma settings_kept_witness :
  settings_ok (fun _ => true)
    (mutations_run (fun _ => true)
       [(admin, all_work, MAddAdmin "did:plc:b"); (admin, all_work, MRemoveAdmin alice);
        (admin, all_work, MUpdateSettings (Build_SettingsInput None None (Some "https://relay") None None None))]
       settings).
Proof. apply settings_kept. exact settings_start. Defined.

Lemma administrators_change_witness :
  (AddAdmin all_work settings "did:plc:b").1 = Ok true /\
  ("did:plc:b" ∈ admin_pieces (default "" ((AddAdmin all_work settings "did:plc:b").2 !! "admin_dids")) <->
   "did:plc:b" ∈ admin_pieces (default "" (settings !! "admin_dids")) \/ "did:plc:b" = "did:plc:b").
Proof.
  apply (administrators_change (fun _ => true) settings "did:plc:b" "did:plc:b"); [exact settings_start|reflexivity|reflexivity].
Defined.
End Example_access.
