(* ===== verification/ServiceAuth.v ===== *)
(** [internal/oauth], service authentication: the verification of AT Protocol
    service tokens ([serviceauth.go]), of secp256k1 signatures
    ([serviceauth_es256k.go]), the parsing of signing keys
    ([serviceauth_pubkey.go]) and the middleware ([serviceauth_middleware.go]).
    Instants are nanoseconds since the year 1, as package time counts them. *)
From S2P Require Import Prelude GoStrings Utf8 Base64 AtProto OAuth Dpop Bridge.

Local Open Scope Z_scope.

Definition second : Z := 1000000000.
Definition serviceAuthMaxLifetime : Z := 60 * second.
Definition serviceAuthMaxSkew : Z := 30 * second.
Definition serviceAuthMaxJWTBytes : Z := 8 * 1024.
Definition jtiCacheCapacity : Z := 100000.

(** [time.Unix(sec, 0)]: the addition is one of 64 bits. *)
Definition unixToInternal : Z := 62135596800.
Definition Unix (sec : Z) : Z := wrap64 (sec + unixToInternal) * second.

Inductive service_error :=
| ErrMissingHeader | ErrMalformedHeader | ErrJWTTooLarge | ErrUnsupportedAlg | ErrBadAudience | ErrBadLxm
| ErrMissingJTI | ErrExpired | ErrFutureIAT | ErrResolveTimeout | ErrResolveNotFound | ErrResolveNetwork
| ErrResolveUnavailable | ErrUnsupportedDIDMethod | ErrVerificationMethodMissing | ErrMalformedMultibase
| ErrKeyParseFailed | ErrBadSignature | ErrReplay | ErrThrottled
| EOther (* an error that is none of the sentinels *).
#[export] Instance service_error_eq_dec : EqDecision service_error.
Proof. solve_decision. Defined.

Record serviceAuthClaims := { Iss : string; Aud : string; Exp : Z; Iat : Z; Jti_ : string; Lxm : string }.

(** ** Signing keys *)

(** The two curves of the libraries: decoding of compressed points, and the check
    of a signature over the hash of a text. [order] is that of the group of
    secp256k1. *)
Class Curves := {
  P256Key : Type;
  K1Key : Type;
  UnmarshalCompressed : string -> option P256Key;
  at_infinity : P256Key -> bool;
  ParsePubKey : string -> option K1Key;
  IsOnCurve : K1Key -> bool;
  order : Z;
  k1_verify : string -> Z -> Z -> K1Key -> bool;
  p256_verify : string -> string -> P256Key -> bool;
  (** go-multibase (the data after the prefix) and go-varint *)
  multibase_Decode : string -> option string;
  FromUvarint : string -> option (Z * nat)
}.

Definition multicodecP256Pub : Z := 4608.
Definition multicodecSecp256k1Pub : Z := 231.
Definition compressedPointLen : nat := 33.
Definition es256kAlg : string := "ES256K".

Section Keys.
Context `{Curves}.

Inductive parsedSigningKey := P256 (k : P256Key) | Secp256k1 (k : K1Key).

Definition parsePublicKeyMultibase (mb : string) : result service_error parsedSigningKey :=
  match mb with
  | EmptyString => Err ErrMalformedMultibase
  | String c _ =>
      if negb (Ascii.eqb c "z") then Err ErrMalformedMultibase
      else match multibase_Decode mb with
           | None => Err ErrMalformedMultibase
           | Some raw =>
               match FromUvarint raw with
               | None => Err ErrMalformedMultibase
               | Some (codec, n) =>
                   if Nat.ltb 3 n then Err ErrMalformedMultibase
                   else
                     let body := drop_bytes n raw in
                     if negb (Nat.eqb (String.length body) compressedPointLen) then Err ErrMalformedMultibase
                     else if negb (has_prefix body (String (byte 2) "") || has_prefix body (String (byte 3) ""))
                     then Err ErrMalformedMultibase
                     else if codec =? multicodecP256Pub then
                       match UnmarshalCompressed body with
                       | None => Err ErrKeyParseFailed
                       | Some k => if at_infinity k then Err ErrKeyParseFailed else Ok (P256 k)
                       end
                     else if codec =? multicodecSecp256k1Pub then
                       match ParsePubKey body with
                       | None => Err ErrKeyParseFailed
                       | Some k => if IsOnCurve k then Ok (Secp256k1 k) else Err ErrKeyParseFailed
                       end
                     else Err ErrMalformedMultibase
               end
           end
  end.

(** The [Verify] of the signing method for secp256k1. *)
Definition es256k_Verify (signingString sig : string) (key : parsedSigningKey) : result service_error unit :=
  match key with
  | P256 _ => Err ErrKeyParseFailed
  | Secp256k1 pub =>
      if negb (Nat.eqb (String.length sig) 64) then Err ErrBadSignature
      else
        let r := SetBytes (take_bytes 32 sig) in
        let s := SetBytes (drop_bytes 32 sig) in
        if order <=? r then Err ErrBadSignature
        else if order <=? s then Err ErrBadSignature
        else if (r =? 0) || (s =? 0) then Err ErrBadSignature
        else guard_err (k1_verify signingString r s pub) ErrBadSignature
  end.

Definition method_Verify (alg signingString sig : string) (key : parsedSigningKey) : bool :=
  if String.eqb alg es256kAlg then is_ok (es256k_Verify signingString sig key)
  else match key with P256 k => p256_verify signingString sig k | Secp256k1 _ => false end.
End Keys.

(** ** The JWT library *)

Inductive jwt_kind := TokenExpired | TokenUsedBeforeIssued | TokenSignatureInvalid | TokenMalformed | TokenUnverifiable.
#[export] Instance jwt_kind_eq_dec : EqDecision jwt_kind.
Proof. solve_decision. Defined.

(** An error of the parser: the sentinels of this package and those of the library
    that it wraps. *)
Record parse_failure := { wraps : list service_error; kinds : list jwt_kind }.

Definition split3 (token : string) : option (string * string * string) :=
  '(a, r) ← cut_at "." token; '(b, c) ← cut_at "." r; Some (a, b, c).

Lemma split3_Some token a b s : split3 token = Some (a, b, s) -> token = a +:+ "." +:+ b +:+ "." +:+ s.
Proof.
  unfold split3. intros ([x r] & H1 & ([y z] & H2 & [= <- <- <-])%bind_Some)%bind_Some.
  apply cut_at_Some in H1, H2. by subst.
Qed.

(** [jwt.ParseWithClaims] with the methods ES256 and ES256K and a required
    expiry: what it accepts has three parts, the claims that its second part is
    the text of, one of the two methods, the key that [keyFunc] gives, a signature
    by it over the first two parts, and an expiry that is later than now. *)
Class Jwt `{Curves} := {
  ParseWithClaims : (serviceAuthClaims -> string -> result (list service_error) parsedSigningKey) ->
    Z -> string -> result parse_failure serviceAuthClaims;
  header_typ : string -> option string;
  (** base64 and encoding/json: the claims of the second part of a token *)
  decode_claims : string -> option serviceAuthClaims;
  parse_accepts : forall keyFunc now token c, ParseWithClaims keyFunc now token = Ok c ->
    exists a b s sig alg key, split3 token = Some (a, b, s) /\ decode_claims b = Some c /\
      DecodeString s = Some sig /\ alg ∈ ["ES256"; es256kAlg] /\ keyFunc c alg = Ok key /\
      method_Verify alg (a +:+ "." +:+ b) sig key = true /\ Exp c <> 0 /\ now < Unix (Exp c);
  (** a refusal wraps, of our errors, only those of [keyFunc] and of [Verify] *)
  parse_wraps : forall keyFunc now token f e, ParseWithClaims keyFunc now token = Err f -> e ∈ wraps f ->
    (exists c alg l, keyFunc c alg = Err l /\ e ∈ l) \/ e ∈ [ErrBadSignature; ErrKeyParseFailed]
}.

(** The claims of a token are those of its text. *)
Lemma parse_claims `{Jwt} f1 now1 f2 now2 token c1 c2 :
  ParseWithClaims f1 now1 token = Ok c1 -> ParseWithClaims f2 now2 token = Ok c2 -> c1 = c2.
Proof.
  intros (a & b & s & ? & ? & ? & Ht & Hc & _)%parse_accepts (a' & b' & s' & ? & ? & ? & Ht' & Hc' & _)%parse_accepts.
  rewrite Ht in Ht'. injection Ht' as <- <- <-. congruence.
Qed.

Definition allServiceAuthSentinels : list service_error :=
  [ErrMissingHeader; ErrBadAudience; ErrBadLxm; ErrExpired; ErrFutureIAT; ErrMissingJTI; ErrJWTTooLarge;
   ErrUnsupportedAlg; ErrBadSignature; ErrMalformedHeader; ErrMalformedMultibase; ErrKeyParseFailed;
   ErrResolveTimeout; ErrResolveNotFound; ErrResolveNetwork; ErrResolveUnavailable; ErrUnsupportedDIDMethod;
   ErrVerificationMethodMissing; ErrReplay; ErrThrottled].

Definition mapParseError (f : parse_failure) : service_error :=
  let wrapped k := bool_decide (k ∈ kinds f) in
  match List.find (fun e => bool_decide (e ∈ wraps f)) allServiceAuthSentinels with
  | Some sentinel => sentinel
  | None =>
      if wrapped TokenExpired then ErrExpired
      else if wrapped TokenUsedBeforeIssued then ErrFutureIAT
      else if wrapped TokenSignatureInvalid then ErrBadSignature
      else if wrapped TokenMalformed then ErrMalformedHeader
      else ErrBadSignature
  end.

(** The sentinel of an error of the resolver, by its text. *)
Definition classifyResolveError (msg : string) : service_error :=
  if contains msg "timeout" || contains msg "deadline" then ErrResolveTimeout
  else if contains msg "not found" || contains msg "404" then ErrResolveNotFound
  else ErrResolveNetwork.

Definition synthReplayKey (c : serviceAuthClaims) (token : string) : string :=
  let sig := match split3 token with Some (_, _, s) => s | None => "" end in
  "synth:" +:+ Iss c +:+ ":" +:+ Aud c +:+ ":" +:+ itoa (Exp c) +:+ ":" +:+ itoa (Iat c) +:+ ":" +:+ sig.

(** ** The verifier *)

Section Verifier.
Context `{CU : Curves, JW : !Jwt, MH : Jti.MinHeap} (Audience : string).

(** What the resolver answers during one call: a document or the text of an error. *)
Definition resolver := string -> result string DIDDocument.

Definition keyFunc (ResolveDID : resolver) (c : serviceAuthClaims) (alg : string)
  : result (list service_error) parsedSigningKey :=
  if is_empty (Iss c) then Err [ErrMalformedHeader]
  else if negb (Did.IsValid (Iss c)) then Err [ErrUnsupportedDIDMethod]
  else match ResolveDID (Iss c) with
       | Err msg => Err [classifyResolveError msg]
       | Ok doc =>
           match AtprotoSigningKey doc with
           | None => Err [ErrVerificationMethodMissing]
           | Some vm =>
               match parsePublicKeyMultibase (PublicKeyMultibase vm) with
               | Err e => Err [e]
               | Ok parsed =>
                   match parsed with
                   | P256 _ => if String.eqb alg "ES256" then Ok parsed
                               else if String.eqb alg es256kAlg then Err [ErrBadSignature] else Err [ErrUnsupportedAlg]
                   | Secp256k1 _ => if String.eqb alg "ES256" then Err [ErrBadSignature]
                                    else if String.eqb alg es256kAlg then Ok parsed else Err [ErrUnsupportedAlg]
                   end
               end
           end
       end.

Definition checkTypHeader (token : string) : result service_error unit :=
  match split3 token with
  | None => Err ErrMalformedHeader
  | Some (p0, _, _) =>
      match DecodeString p0 ≫= header_typ with
      | None => Err ErrMalformedHeader
      | Some typ => guard_err (is_empty typ || String.eqb typ "JWT" || String.eqb typ "at+jwt") ErrMalformedHeader
      end
  end.

(** The checks of the claims, up to the replay cache. *)
Definition check_claims (c : serviceAuthClaims) (expectedLxm : string) (now : Z) : result service_error unit :=
  _ ← guard_err (String.eqb (Aud c) Audience) ErrBadAudience;
  _ ← guard_err (negb (Exp c =? 0)) ErrExpired;
  _ ← guard_err (now - serviceAuthMaxSkew <? Unix (Exp c)) ErrExpired;
  _ ← guard_err (Unix (Exp c) <=? now + (serviceAuthMaxLifetime + serviceAuthMaxSkew)) ErrExpired;
  _ ← guard_err ((Iat c =? 0) || (Unix (Iat c) <=? now + serviceAuthMaxSkew)) ErrFutureIAT;
  _ ← guard_err (String.eqb (Lxm c) expectedLxm) ErrBadLxm;
  guard_err (negb (is_empty (Jti_ c) && (Iat c =? 0))) ErrMissingJTI.

Definition replay_key (c : serviceAuthClaims) (token : string) : string :=
  Iss c +:+ "|" +:+ (if is_empty (Jti_ c) then synthReplayKey c token else Jti_ c).

(** A call: its arguments, what the resolver answers during it, and the times at
    which the library and the verifier look at the clock. *)
Record call := { token : string; expectedLxm : string; resolves : resolver; parse_now : Z; now : Z }.

(** What comes before the replay cache. *)
Definition authenticate (q : call) : result service_error serviceAuthClaims :=
  _ ← guard_err (negb (is_empty (expectedLxm q))) EOther;
  _ ← guard_err (negb (is_empty (token q))) ErrMalformedHeader;
  _ ← guard_err (glen (token q) <=? serviceAuthMaxJWTBytes) ErrJWTTooLarge;
  _ ← checkTypHeader (token q);
  match ParseWithClaims (keyFunc (resolves q)) (parse_now q) (token q) with
  | Err f => Err (mapParseError f)
  | Ok c => _ ← check_claims c (expectedLxm q) (now q); Ok c
  end.

Definition Verify (q : call) (cache : Jti.jtiReplayCache) : result service_error string * Jti.jtiReplayCache :=
  match authenticate q with
  | Err e => (Err e, cache)
  | Ok c =>
      let r := Jti.checkAndSet cache (replay_key c (token q)) (Unix (Exp c) + serviceAuthMaxSkew) (now q) in
      (if r.2 then Ok (Iss c) else Err ErrReplay, r.1)
  end.

Definition verify_all (qs : list call) (cache : Jti.jtiReplayCache) : Jti.jtiReplayCache :=
  fold_left (fun cache q => (Verify q cache).2) qs cache.

(** *** What is accepted *)

Lemma authenticate_Ok q c : authenticate q = Ok c <->
  expectedLxm q <> "" /\ token q <> "" /\ glen (token q) <= serviceAuthMaxJWTBytes /\
  checkTypHeader (token q) = Ok () /\
  ParseWithClaims (keyFunc (resolves q)) (parse_now q) (token q) = Ok c /\
  check_claims c (expectedLxm q) (now q) = Ok ().
Proof.
  unfold authenticate. rewrite !guarded_Ok, Z.leb_le.
  assert (forall s, negb (is_empty s) = true <-> s <> "") as Hne by (intros []; cbn; split; congruence).
  rewrite !Hne. destruct (checkTypHeader (token q)) as [[]|]; cbn; [|naive_solver].
  destruct (ParseWithClaims _ _ _) as [c'|]; cbn; [|naive_solver].
  destruct (check_claims c' _ _) as [[]|] eqn:Hc; cbn; split.
  - intros (? & ? & ? & [= <-]). by split_and!.
  - intros (? & ? & ? & _ & [= <-] & _). by split_and!.
  - by intros (_ & _ & _ & ?).
  - intros (_ & _ & _ & _ & [= <-] & ?). by rewrite Hc in *.
Qed.

Lemma check_claims_Ok c lxm t : check_claims c lxm t = Ok () <->
  Aud c = Audience /\ Lxm c = lxm /\ Exp c <> 0 /\ t - serviceAuthMaxSkew < Unix (Exp c) /\
  Unix (Exp c) <= t + (serviceAuthMaxLifetime + serviceAuthMaxSkew) /\
  (Iat c = 0 \/ Unix (Iat c) <= t + serviceAuthMaxSkew) /\ (Jti_ c <> "" \/ Iat c <> 0).
Proof.
  unfold check_claims. rewrite !guarded_Ok, guard_err_Ok, !String.eqb_eq, negb_true_iff, Z.eqb_neq, Z.ltb_lt, Z.leb_le,
    orb_true_iff, Z.eqb_eq, Z.leb_le, negb_true_iff, andb_false_iff, Z.eqb_neq.
  assert (is_empty (Jti_ c) = false <-> Jti_ c <> "") as -> by (destruct (Jti_ c); cbn; split; congruence).
  naive_solver.
Qed.

(** The key of the token's curve in the document of its issuer. *)
Lemma keyFunc_Ok res c alg key : keyFunc res c alg = Ok key ->
  Did.IsValid (Iss c) = true /\
  (exists doc vm, res (Iss c) = Ok doc /\ AtprotoSigningKey doc = Some vm /\
     parsePublicKeyMultibase (PublicKeyMultibase vm) = Ok key) /\
  match key with P256 _ => alg = "ES256" | Secp256k1 _ => alg = es256kAlg end.
Proof.
  unfold keyFunc. destruct (is_empty _); [done|]. destruct (Did.IsValid _); [|done]. cbn [negb].
  destruct (res (Iss c)) as [doc|]; [|done]. destruct (AtprotoSigningKey doc) as [vm|] eqn:Hvm; [|done].
  destruct (parsePublicKeyMultibase _) as [k|] eqn:Hk; [|done]. intros Hm. split; [done|].
  assert (k = key /\ match key with P256 _ => alg = "ES256" | Secp256k1 _ => alg = es256kAlg end) as [<- ?].
  { destruct k; destruct (String.eqb_spec alg "ES256"); try done; try (by injection Hm as <-);
      destruct (String.eqb_spec alg es256kAlg); try done; by injection Hm as <-. }
  split; [|done]. by exists doc, vm.
Qed.


(** *** Once *)

Lemma Verify_keeps q cache k x : Jti.inv cache -> Jti.entries cache !! k = Some x -> now q < x ->
  Jti.size_ cache < Jti.capacity cache ->
  Jti.inv (Verify q cache).2 /\ Jti.entries (Verify q cache).2 !! k = Some x /\
  Jti.capacity (Verify q cache).2 = Jti.capacity cache /\ Jti.size_ (Verify q cache).2 <= Jti.size_ cache + 1.
Proof.
  intros Hi Hk Hn Hs. unfold Verify. destruct (authenticate q) as [c|]; [|cbn; split_and!; [done..|lia]].
  cbn [snd]. destruct (Jti.checkAndSet_inv cache (replay_key c (token q)) (Unix (Exp c) + serviceAuthMaxSkew) (now q) Hi)
    as (Hi' & Hc' & _ & _ & Hs' & Hkeep).
  split_and!; [done| |done|done]. destruct (Hkeep k x Hk Hn) as [?|(_ & Hfull & _)]; [done|]. unfold Jti.size_ in Hs. lia.
Qed.

Lemma verify_all_keeps qs : forall cache k x, Jti.inv cache -> Jti.entries cache !! k = Some x ->
  Forall (fun q => now q < x) qs -> Jti.size_ cache + Z.of_nat (length qs) <= Jti.capacity cache ->
  Jti.inv (verify_all qs cache) /\ Jti.entries (verify_all qs cache) !! k = Some x.
Proof.
  induction qs as [|q qs IH]; intros cache k x Hi Hk Hn Hs; [done|]. apply Forall_cons in Hn as [Hn1 Hn].
  cbn [length] in Hs. destruct (Verify_keeps q cache k x Hi Hk Hn1 ltac:(lia)) as (Hi' & Hk' & Hc' & Hs').
  apply IH; [done..|]. rewrite Hc'. lia.
Qed.

(** An accepted token is not accepted again, for any method, whatever other
    tokens are presented in between and whatever the resolver answers, as long as
    the cache has room for them: it is refused as a replay until it has expired,
    and as expired from then on. *)
Theorem service_token_once q qs q' cache iss : Jti.inv cache -> (Verify q cache).1 = Ok iss ->
  token q' = token q -> Forall (fun p => now p <= now q') qs ->
  Jti.size_ (Verify q cache).2 + Z.of_nat (length qs) <= Jti.capacity cache ->
  forall iss', (Verify q' (verify_all qs (Verify q cache).2)).1 <> Ok iss'.
Proof.
  intros Hi Hv Ht Hn Hs iss' Hv'. unfold Verify in Hv, Hs, Hv'.
  destruct (authenticate q) as [c|] eqn:Ha; [|done]. destruct (authenticate q') as [c'|] eqn:Ha'; [|done].
  apply authenticate_Ok in Ha as (_ & _ & _ & _ & Hp & _). apply authenticate_Ok in Ha' as (_ & _ & _ & _ & Hp' & Hc').
  rewrite Ht in Hp'. pose proof (parse_claims _ _ _ _ _ _ _ Hp Hp') as <-. rewrite Ht in Hv'.
  apply check_claims_Ok in Hc' as (_ & _ & _ & Hexp & _).
  set (k := replay_key c (token q)) in *. set (e := Unix (Exp c) + serviceAuthMaxSkew) in *. cbn [fst snd] in Hv, Hs, Hv'.
  destruct (Jti.checkAndSet_inv cache k e (now q) Hi) as (Hi1 & Hc1 & _ & Hset & _).
  assert ((Jti.checkAndSet cache k e (now q)).2 = true) as Hacc by (by destruct (_.2)).
  destruct (verify_all_keeps qs (Jti.checkAndSet cache k e (now q)).1 k e) as [Hi2 Hk2]; [done|by apply Hset| |lia|].
  - eapply Forall_impl; [exact Hn|]. cbn. intros p Hp1. subst e. lia.
  - unfold Verify in Hk2, Hi2, Hv'. 
    destruct (Jti.checkAndSet_inv _ k e (now q') Hi2) as (_ & _ & Href & _).
    assert ((Jti.checkAndSet (verify_all qs (Jti.checkAndSet cache k e (now q)).1) k e (now q')).2 = false) as Hno.
    { apply Href. exists e. split; [done|]. subst e. lia. }
    by rewrite Hno in Hv'.
Qed.

(** *** A replay is one *)

Lemma did_no_bar d : Did.IsValid d = true -> lacks "|" d = true.
Proof.
  intros Hv%Did.valid_did_id_bytes. eapply all_bytes_impl; [|exact Hv]. intros z.
  change (zb "|") with 124. unfold Did.is_id_byte, Did.is_lower, Did.is_upper, Did.is_digit. lia.
Qed.

Lemma authenticate_did q c : authenticate q = Ok c -> Did.IsValid (Iss c) = true.
Proof.
  intros (_ & _ & _ & _ & Hp & _)%authenticate_Ok.
  destruct (parse_accepts _ _ _ _ Hp) as (? & ? & ? & ? & alg & key & _ & _ & _ & _ & Hk & _).
  by destruct (keyFunc_Ok _ _ _ _ Hk).
Qed.

Lemma replay_key_inj c1 t1 c2 t2 : Did.IsValid (Iss c1) = true -> Did.IsValid (Iss c2) = true ->
  replay_key c1 t1 = replay_key c2 t2 ->
  Iss c1 = Iss c2 /\ (if is_empty (Jti_ c1) then synthReplayKey c1 t1 else Jti_ c1) =
                     (if is_empty (Jti_ c2) then synthReplayKey c2 t2 else Jti_ c2).
Proof.
  intros H1%did_no_bar H2%did_no_bar Heq. unfold replay_key in Heq. apply (f_equal (cut_at "|")) in Heq.
  change ("|" +:+ ?x) with (String "|" x) in Heq. rewrite !cut_at_first in Heq by done. by injection Heq.
Qed.

(** The records of the cache come from tokens that were accepted. *)
Definition recorded (qs : list call) (k : string) : Prop :=
  exists q c, q ∈ qs /\ authenticate q = Ok c /\ k = replay_key c (token q).

Lemma Verify_records qs q cache : Jti.inv cache -> (forall k, is_Some (Jti.entries cache !! k) -> recorded qs k) ->
  Jti.inv (Verify q cache).2 /\
  forall k, is_Some (Jti.entries (Verify q cache).2 !! k) -> recorded (qs ++ [q]) k.
Proof.
  intros Hi Hr. assert (forall k, recorded qs k -> recorded (qs ++ [q]) k) as Hmono.
  { intros k (q0 & c & Hq & ?). exists q0, c. split; [|done]. apply elem_of_app. by left. }
  unfold Verify. destruct (authenticate q) as [c|] eqn:Ha; [|cbn; auto]. cbn [snd].
  destruct (Jti.checkAndSet_inv cache (replay_key c (token q)) (Unix (Exp c) + serviceAuthMaxSkew) (now q) Hi) as [Hi' _].
  split; [done|]. intros k. unfold Jti.checkAndSet.
  destruct (Jti.purge_spec (length (Jti.heap cache)) (now q) cache Hi ltac:(done)) as (Hi1 & _ & Hp).
  set (c1 := Jti.purge (length (Jti.heap cache)) (now q) cache) in *.
  assert (forall k, is_Some (Jti.entries c1 !! k) -> is_Some (Jti.entries cache !! k)) as Hsub.
  { intros k' [x Hx]. apply Hp in Hx as [Hx _]. by exists x. }
  destruct (Jti.entries c1 !! replay_key c (token q)) as [x|] eqn:Hx; [intros Hk; apply Hmono, Hr, Hsub, Hk|].
  cbn. intros [y Hy]. apply lookup_insert_Some in Hy as [[<- _]|[_ Hy]].
  - exists q, c. split; [|done]. apply elem_of_app. right. by apply list_elem_of_singleton.
  - apply Hmono, Hr, Hsub. exists y. by apply (Jti.evict_spec c1 Hi1).
Qed.

Lemma verify_all_records qs : forall qs0 cache, Jti.inv cache ->
  (forall k, is_Some (Jti.entries cache !! k) -> recorded qs0 k) ->
  Jti.inv (verify_all qs cache) /\ forall k, is_Some (Jti.entries (verify_all qs cache) !! k) -> recorded (qs0 ++ qs) k.
Proof.
  induction qs as [|q qs IH]; intros qs0 cache Hi Hr; [by rewrite app_nil_r|].
  destruct (Verify_records qs0 q cache Hi Hr) as [Hi' Hr']. rewrite cons_middle, app_assoc. by apply IH.
Qed.

Lemma key_errors mb : parsePublicKeyMultibase mb <> Err ErrReplay.
Proof. unfold parsePublicKeyMultibase. by repeat case_match. Qed.

Lemma keyFunc_errors res c alg l : keyFunc res c alg = Err l -> ErrReplay ∉ l.
Proof.
  unfold keyFunc, classifyResolveError. intros Hk Hl. pose proof key_errors as Hke.
  repeat case_match; simplify_eq/=; apply list_elem_of_singleton in Hl; try done. by eapply Hke; rewrite <-Hl in *.
Qed.

Lemma authenticate_no_replay q : authenticate q <> Err ErrReplay.
Proof.
  unfold authenticate. destruct (guard_err (negb (is_empty (expectedLxm q))) _) as [[]|] eqn:G1; cbn.
  2: { by unfold guard_err in G1; case_match; simplify_eq. }
  destruct (guard_err (negb (is_empty (token q))) _) as [[]|] eqn:G2; cbn.
  2: { by unfold guard_err in G2; case_match; simplify_eq. }
  destruct (guard_err (glen _ <=? _) _) as [[]|] eqn:G3; cbn.
  2: { by unfold guard_err in G3; case_match; simplify_eq. }
  destruct (checkTypHeader (token q)) as [[]|] eqn:G4; cbn.
  2: { intros [= ->]. unfold checkTypHeader, guard_err in G4. repeat case_match; by simplify_eq. }
  destruct (ParseWithClaims _ _ _) as [c|f] eqn:Hp.
  - destruct (check_claims c _ _) as [[]|] eqn:G5; cbn; [done|]. intros [= ->].
    unfold check_claims, guard_err in G5. repeat (case_match; cbn in G5); by simplify_eq.
  - intros [= Hm]. unfold mapParseError in Hm. destruct (List.find _ _) as [e|] eqn:Hf.
    + subst e. apply find_some in Hf as [_ Hf%bool_decide_eq_true].
      destruct (parse_wraps _ _ _ _ _ Hp Hf) as [(c & alg & l & Hk & Hl)|Hl]; [|by apply list_elem_of_In in Hl as [|[|[]]]].
      by apply keyFunc_errors in Hk.
    + by repeat case_match.
Qed.

(** Starting from an empty cache, a token is refused as a replay only when an
    earlier token of the same issuer, itself genuine, had the same identifier, or,
    for tokens without one, the same claims and signature text: nobody can get
    another issuer's token refused. *)
Theorem replay_own_issuer qs q cache cap : Jti.newJTIReplayCache cap = Some cache ->
  (Verify q (verify_all qs cache)).1 = Err ErrReplay ->
  exists c q0 c0, authenticate q = Ok c /\ q0 ∈ qs /\ authenticate q0 = Ok c0 /\ Iss c0 = Iss c /\
    (if is_empty (Jti_ c0) then synthReplayKey c0 (token q0) else Jti_ c0) =
    (if is_empty (Jti_ c) then synthReplayKey c (token q) else Jti_ c).
Proof.
  intros [Hi He]%Jti.new_inv Hv. destruct (verify_all_records qs [] cache Hi) as [Hi' Hr].
  { rewrite He. intros k. rewrite lookup_empty. by intros []. }
  unfold Verify in Hv. destruct (authenticate q) as [c|] eqn:Ha; [|injection Hv as ->; by apply authenticate_no_replay in Ha].
  set (k := replay_key c (token q)) in *.
  destruct (Jti.checkAndSet_inv _ k (Unix (Exp c) + serviceAuthMaxSkew) (now q) Hi') as (_ & _ & Href & _).
  cbn [fst] in Hv. destruct (Jti.checkAndSet _ k _ _).2 eqn:Hs; [done|].
  destruct (proj1 Href eq_refl) as (x & Hx & _).
  destruct (Hr k (ex_intro _ _ Hx)) as (q0 & c0 & Hq0 & Ha0 & Hk).
  destruct (replay_key_inj c (token q) c0 (token q0)) as [Hiss Hbody]; [by eapply authenticate_did..|done|].
  by exists c, q0, c0.
Qed.
End Verifier.

Definition ReasonFor (e : option service_error) : string :=
  match e with
  | None => ""
  | Some ErrMissingHeader => "missing_header" | Some ErrMalformedHeader => "malformed_header"
  | Some ErrJWTTooLarge => "too_large" | Some ErrUnsupportedAlg => "unsupported_alg"
  | Some ErrBadAudience => "bad_audience" | Some ErrBadLxm => "bad_lxm" | Some ErrMissingJTI => "missing_jti"
  | Some ErrExpired => "expired" | Some ErrFutureIAT => "future_iat"
  | Some ErrResolveTimeout => "did_resolve_timeout" | Some ErrResolveNotFound => "did_resolve_not_found"
  | Some ErrResolveNetwork => "did_resolve_network" | Some ErrResolveUnavailable => "did_resolve_unavailable"
  | Some ErrUnsupportedDIDMethod => "unsupported_did_method"
  | Some ErrVerificationMethodMissing => "verification_method_not_found"
  | Some ErrMalformedMultibase => "malformed_multibase" | Some ErrKeyParseFailed => "key_parse_failed"
  | Some ErrBadSignature => "bad_signature" | Some ErrReplay => "replay" | Some ErrThrottled => "throttled"
  | Some EOther => "other"
  end.

(** ** The middleware *)

Definition extractBearer (header : string) : result service_error string :=
  if is_empty header then Err ErrMissingHeader
  else if (glen header <? 7) || negb (String.eqb (lower_ascii (take_bytes 7 header)) "bearer ")
  then Err ErrMalformedHeader
  else let token := TrimSpace (drop_bytes 7 header) in
       if is_empty token then Err ErrMalformedHeader else Ok token.

Section Middleware.
Context `{CU : Curves, JW : !Jwt, MH : Jti.MinHeap} (Audience : string).

(** What the wrapped handler finds in its context, or the refusal: the reason and
    the error of the WWW-Authenticate header. *)
Definition ServiceAuthMiddleware (lxm header : string) (res : resolver) (parse_now now : Z)
    (cache : Jti.jtiReplayCache) : result (string * string) string * Jti.jtiReplayCache :=
  match extractBearer header with
  | Err e => (Err (ReasonFor (Some e), "invalid_request"), cache)
  | Ok token =>
      let v := Verify Audience {| token := token; expectedLxm := lxm; resolves := res; parse_now := parse_now;
                                  now := now |} cache in
      (match v.1 with Err e => Err (ReasonFor (Some e), "invalid_token") | Ok did => Ok did end, v.2)
  end.
Definition ActingDIDFromContext (ctx : option string) : option string :=
  match ctx with Some did => if is_empty did then None else Some did | None => None end.
End Middleware.

(** ** A server *)

Module Example_service.

(** The curve of secp256k1 with its order, on which the key of the issuer has made
    one signature, (1, 2), which like every signature of the curve is as good with
    the negation of its second half; other keys cannot be parsed. *)
Definition group_order : Z := 115792089237316195423570985008687907852837564279074904382605163141518161494337.
Definition point : string := String (byte 2) (EncodeToString "xxxxxxxxxxxxxxxxxxxxxxxx").
#[local] Instance toy_curves : Curves := {|
  P256Key := unit; K1Key := unit;
  UnmarshalCompressed _ := None; at_infinity _ := false;
  ParsePubKey s := if String.eqb s point then Some () else None;
  IsOnCurve _ := true; order := group_order;
  k1_verify _ r s _ := (r =? 1) && ((s =? 2) || (s =? group_order - 2));
  p256_verify _ _ _ := false;
  multibase_Decode s := Some (drop_bytes 1 s);
  FromUvarint s := Some (multicodecSecp256k1Pub, 0%nat)
|}.

(** The payload is the identifier of the token; [n] is a token without one and [f]
    one that was issued in the far future. *)
Definition expiry : Z := 1000060.
Definition payload_claims (b : string) : serviceAuthClaims :=
  {| Iss := "did:plc:a"; Aud := "did:web:indexer"; Exp := expiry;
     Iat := if String.eqb b "f" then 2 ^ 63 - 1 else 1000000;
     Jti_ := if String.eqb b "n" then "" else b; Lxm := "list" |}.
Definition toy_parse (keyFunc : serviceAuthClaims -> string -> result (list service_error) parsedSigningKey)
    (now : Z) (token : string) : result parse_failure serviceAuthClaims :=
  let malformed := {| wraps := []; kinds := [TokenMalformed] |} in
  match split3 token with
  | Some (a, b, s) =>
      let c := payload_claims b in
      match DecodeString s with
      | None => Err malformed
      | Some sig =>
          match keyFunc c es256kAlg with
          | Err l => Err {| wraps := l; kinds := [TokenUnverifiable] |}
          | Ok key =>
              if method_Verify es256kAlg (a +:+ "." +:+ b) sig key
              then if now <? Unix expiry then Ok c else Err {| wraps := []; kinds := [TokenExpired] |}
              else Err {| wraps := [ErrBadSignature]; kinds := [TokenSignatureInvalid] |}
          end
      end
  | None => Err malformed
  end.

Lemma toy_accepts keyFunc now token c : toy_parse keyFunc now token = Ok c ->
  exists a b s sig key, split3 token = Some (a, b, s) /\ DecodeString s = Some sig /\ c = payload_claims b /\
    keyFunc c es256kAlg = Ok key /\ method_Verify es256kAlg (a +:+ "." +:+ b) sig key = true /\ now < Unix expiry.
Proof.
  unfold toy_parse. destruct (split3 token) as [[[a b] s]|]; [|done].
  destruct (DecodeString s) as [sig|] eqn:Hs; [|done]. destruct (keyFunc _ _) as [key|] eqn:Hk; [|done].
  destruct (method_Verify _ _ _ _) eqn:Hv; [|done]. destruct (Z.ltb_spec now (Unix expiry)); [|done].
  intros [= <-]. by exists a, b, s, sig, key.
Qed.

#[local] Program Instance toy_jwt : Jwt := {| ParseWithClaims := toy_parse; header_typ s := Some "";
  decode_claims b := Some (payload_claims b) |}.
Next Obligation.
  intros keyFunc now token c (a & b & s & sig & key & Ht & Hs & -> & Hk & Hv & Hn)%toy_accepts.
  exists a, b, s, sig, es256kAlg, key. split_and!; try done. by right; left.
Qed.
Next Obligation.
  intros keyFunc now token f e. unfold toy_parse. intros Hp He.
  destruct (split3 token) as [[[a b] sg]|]; [|by injection Hp as <-; apply elem_of_nil in He].
  destruct (DecodeString sg) as [sig|]; [|by injection Hp as <-; apply elem_of_nil in He].
  destruct (keyFunc _ _) as [key|l] eqn:Hk; [|injection Hp as <-; left; by eexists _, _, _].
  destruct (method_Verify _ _ _ _); [|injection Hp as <-; right; cbn in He; set_solver].
  destruct (now <? Unix expiry); [done|]. by injection Hp as <-; apply elem_of_nil in He.
Qed.
(** A heap as in [OAuth.Jti]. *)
#[local] Program Instance list_heap : Jti.MinHeap := {| Jti.Pop := Jti.take_min |}.
Next Obligation. intros h Hh. by apply Jti.take_min_spec. Qed.
Next Obligation. intros h e h' Hp. by apply Jti.take_min_spec. Qed.

Fixpoint zeros (n : nat) : string := match n with O => "" | S n => String (byte 0) (zeros n) end.
Definition pad32 (z : Z) : string := zeros (32 - String.length (Bytes z)) +:+ Bytes z.
Definition signature (s : Z) : string := EncodeToString (pad32 1 +:+ pad32 s).
Definition service_token (payload sig : string) : string := "eA." +:+ payload +:+ "." +:+ sig.
Definition document : DIDDocument :=
  {| doc_ID := "did:plc:a"; AlsoKnownAs := []; doc_Service := [];
     doc_VerificationMethod := [{| vm_ID := "did:plc:a#atproto"; vm_Type := "Multikey"; Controller := "did:plc:a";
                               PublicKeyMultibase := "z" +:+ point |}] |}.
Definition at_time (seconds : Z) : Z := (seconds + unixToInternal) * second.
Definition presents (token : string) (seconds : Z) : call :=
  {| token := token; expectedLxm := "list"; resolves _ := Ok document; parse_now := at_time seconds;
     now := at_time seconds |}.
Definition fresh_cache : Jti.jtiReplayCache := {| Jti.entries := ∅; Jti.heap := []; Jti.capacity := jtiCacheCapacity |}.
Definition verdicts (qs : list call) : list (result service_error string) :=
  (fold_left (fun '(vs, cache) q => let v := Verify "did:web:indexer" q cache in (vs ++ [v.1], v.2)) qs
     ([], fresh_cache)).1.

(** The same token twice. *)
Example replayed_token : let t := service_token "j" (signature 2) in
  verdicts [presents t 1000010; presents t 1000011] = [Ok "did:plc:a"; Err ErrReplay].
Proof. vm_compute. reflexivity. Qed.

(** A token without identifier is accepted again with the second half of its
    signature negated, and again with other unused bits in the last character of
    its signature, which anyone can do. *)
Definition with_last (s : string) (c : ascii) : string := take_bytes (String.length s - 1) s +:+ String c "".
Example resigned_tokens :
  verdicts [presents (service_token "n" (signature 2)) 1000010;
            presents (service_token "n" (signature (group_order - 2))) 1000011;
            presents (service_token "n" (with_last (signature 2) "h")) 1000012]
  = [Ok "did:plc:a"; Ok "did:plc:a"; Ok "did:plc:a"].
Proof. vm_compute. reflexivity. Qed.

(** The addition in [time.Unix] overflows for an issue time in the far future,
    which then lies in the past. *)
Example far_future : verdicts [presents (service_token "f" (signature 2)) 1000010] = [Ok "did:plc:a"].
Proof. vm_compute. reflexivity. Qed.

Definition first : call := presents (service_token "j" (signature 2)) 1000010.


Lemma fresh_inv : Jti.newJTIReplayCache jtiCacheCapacity = Some fresh_cache.
Proof. reflexivity. Defined.

Lemma service_token_once_witness : (Verify "did:web:indexer" first fresh_cache).1 = Ok "did:plc:a" /\
  forall iss, (Verify "did:web:indexer" (presents (token first) 1000030)
                 (verify_all "did:web:indexer" [presents (service_token "k" (signature 2)) 1000020]
                    (Verify "did:web:indexer" first fresh_cache).2)).1 <> Ok iss.
Proof.
  assert ((Verify "did:web:indexer" first fresh_cache).1 = Ok "did:plc:a") as Hv by (vm_compute; reflexivity).
  split; [exact Hv|].
  apply (service_token_once "did:web:indexer" first [presents (service_token "k" (signature 2)) 1000020]
           (presents (token first) 1000030) fresh_cache "did:plc:a").
  - exact (proj1 (Jti.new_inv _ _ fresh_inv)).
  - exact Hv.
  - reflexivity.
  - repeat constructor. vm_compute. discriminate.
  - vm_compute. discriminate.
Defined.

Lemma replay_own_issuer_witness :
  exists c q0 c0, authenticate "did:web:indexer" first = Ok c /\ q0 ∈ [first] /\
    authenticate "did:web:indexer" q0 = Ok c0 /\ Iss c0 = Iss c /\
    (if is_empty (Jti_ c0) then synthReplayKey c0 (token q0) else Jti_ c0) =
    (if is_empty (Jti_ c) then synthReplayKey c (token first) else Jti_ c).
Proof.
  apply (replay_own_issuer "did:web:indexer" [first] first fresh_cache jtiCacheCapacity fresh_inv).
  vm_compute. reflexivity.
Defined.
End Example_service.
