(* ===== verification/Statements.v ===== *)
(** Programs of statements to the database, each on its own, outside a
    transaction: a statement works, fails, or takes effect and loses its answer.
    The components that model tables of a repository use it. *)
From S2P Require Import Prelude.

Inductive fate := Works | Fails | AnswerLost.

(** The fates of the statements to come; when they run out, all work. *)
Definition M (T E A : Type) : Type := list fate * T -> result E A * (list fate * T).

#[global] Instance M_ret {T E} : MRet (M T E) := fun A a s => (Ok a, s).
#[global] Instance M_bind {T E} : MBind (M T E) := fun A B f m s =>
  let r := m s in match r.1 with Ok a => f a r.2 | Err e => (Err e, r.2) end.

Section Statements.
Context {T E : Type}.

(** A statement; [None] is an error of the database itself. *)
Definition stmt {A} (err : E) (f : T -> option (A * T)) : M T E A := fun '(fs, t) =>
  match default Works (head fs) with
  | Fails => (Err err, (tail fs, t))
  | Works => match f t with
             | Some (a, t') => (Ok a, (tail fs, t'))
             | None => (Err err, (tail fs, t))
             end
  | AnswerLost => (Err err, (tail fs, match f t with Some (_, t') => t' | None => t end))
  end.

Definition fail {A} (e : E) : M T E A := fun s => (Err e, s).
Definition lift {A} (r : result E A) : M T E A := fun s => (r, s).
Definition get : M T E T := fun s => (Ok s.2, s).
Definition modify (f : T -> T) : M T E unit := fun s => (Ok (), (s.1, f s.2)).
(** An error that is dropped. *)
Definition ignore {A} (m : M T E A) : M T E unit := fun s => (Ok (), (m s).2).

(** ** All statements work *)

Definition works {A} (m : M T E A) (t : T) (a : A) (t' : T) : Prop := m ([], t) = (Ok a, ([], t')).

Lemma works_bind {A B} (m : M T E A) (f : A -> M T E B) t a t1 b t2 :
  works m t a t1 -> works (f a) t1 b t2 -> works (m ≫= f) t b t2.
Proof. unfold works. intros Hm Hf. unfold mbind, M_bind. by rewrite Hm. Qed.

Lemma works_stmt {A} err (f : T -> option (A * T)) t a t' : f t = Some (a, t') -> works (stmt err f) t a t'.
Proof. unfold works, stmt. cbn. by intros ->. Qed.

Lemma works_ret {A} (a : A) t : works (mret a) t a t.
Proof. done. Qed.

(** ** What an answer shows *)

Lemma stmt_Ok {A} err (f : T -> option (A * T)) s a s' : stmt err f s = (Ok a, s') ->
  f s.2 = Some (a, s'.2).
Proof.
  destruct s as [fs t]. unfold stmt. destruct (default Works (head fs)); [|done|done].
  destruct (f t) as [[a' t']|] eqn:Hf; [|done]. by intros [= <- <-].
Qed.

Lemma bind_M_Ok {A B} (m : M T E A) (f : A -> M T E B) s b s' : (m ≫= f) s = (Ok b, s') ->
  exists a s1, m s = (Ok a, s1) /\ f a s1 = (Ok b, s').
Proof. unfold mbind, M_bind. destruct (m s) as [[a|e] s1]; cbn; [by exists a, s1|done]. Qed.

Lemma bind_M_Err {A B} (m : M T E A) (f : A -> M T E B) s e s' : (m ≫= f) s = (Err e, s') ->
  m s = (Err e, s') \/ exists a s1, m s = (Ok a, s1) /\ f a s1 = (Err e, s').
Proof. unfold mbind, M_bind. destruct (m s) as [[a|e'] s1]; cbn; [right; by exists a, s1|]. intros [= -> ->]. by left. Qed.

(** ** Whatever the fates *)

(** A property of the tables that every run of a program keeps. *)
Definition keeps {A} (P : T -> Prop) (m : M T E A) : Prop := forall fs t, P t -> P (m (fs, t)).2.2.

Lemma keeps_stmt {A} (P : T -> Prop) err (f : T -> option (A * T)) :
  (forall t a t', P t -> f t = Some (a, t') -> P t') -> keeps P (stmt err f).
Proof.
  intros Hf fs t Ht. unfold stmt. destruct (default Works (head fs)); [|done|].
  - destruct (f t) as [[a t']|] eqn:E1; [by eapply Hf|done].
  - destruct (f t) as [[a t']|] eqn:E1; [by eapply Hf|done].
Qed.

Lemma keeps_bind {A B} (P : T -> Prop) (m : M T E A) (f : A -> M T E B) :
  keeps P m -> (forall a, keeps P (f a)) -> keeps P (m ≫= f).
Proof.
  intros Hm Hf fs t Ht. unfold mbind, M_bind. specialize (Hm fs t Ht). destruct (m (fs, t)) as [[a|e] [fs' t']]; cbn in *; [|done].
  by apply Hf.
Qed.

Lemma keeps_ret {A} (P : T -> Prop) (a : A) : keeps P (mret a).
Proof. by intros fs t. Qed.
Lemma keeps_fail {A} (P : T -> Prop) e : keeps P (fail (A := A) e).
Proof. by intros fs t. Qed.
Lemma keeps_lift {A} (P : T -> Prop) (r : result E A) : keeps P (lift r).
Proof. by intros fs t Ht. Qed.
Lemma keeps_modify (P : T -> Prop) (f : T -> T) : (forall t, P t -> P (f t)) -> keeps P (modify f).
Proof. intros Hf fs t Ht. by apply Hf. Qed.
(** What a program does after looking at the tables may use what it saw. *)
Lemma keeps_get {A} (P : T -> Prop) (f : T -> M T E A) : (forall t, P t -> keeps P (f t)) -> keeps P (get ≫= f).
Proof. intros Hf fs t Ht. unfold mbind, M_bind, get. cbn. by apply Hf. Qed.
Lemma keeps_lift_bind {A B} (P : T -> Prop) (r : result E A) (f : A -> M T E B) :
  (forall a, r = Ok a -> keeps P (f a)) -> keeps P (lift r ≫= f).
Proof. intros Hf fs t Ht. unfold mbind, M_bind, lift. cbn. destruct r; [by apply Hf|done]. Qed.

Lemma keeps_ignore {A} (P : T -> Prop) (m : M T E A) : keeps P m -> keeps P (ignore m).
Proof. intros Hm fs t Ht. by apply Hm. Qed.
End Statements.

Create HintDb keeps.
#[export] Hint Resolve keeps_bind keeps_ret keeps_fail keeps_ignore : keeps.
