(* ===== verification/Notify.v ===== *)
(** [internal/notifications]: the extraction of notifications from records
    ([extractors/]), the hook that keeps them up to date ([service.go],
    [registry.go]), the tables of notifications and their participants
    ([repo.go]), and the resolvers over them ([resolver.go]). Instants are
    microseconds, as PostgreSQL keeps them; 0 is the zero time of Go. *)
From S2P Require Import Prelude GoStrings Utf8 AtProto Ingestion Statements.

Local Open Scope Z_scope.

Definition ReasonEndorsement : string := "endorsement".
Definition ReasonActivityContributor : string := "activity-contributor".
Definition MaxFanOutPerRecord : nat := 100.
Definition UnreadCountCap : Z := 50.
Definition SortAtMaxPast : Z := 7 * 24 * 3600 * 1000000.
Definition MaxRecordBytesForNotifications : Z := 2 ^ 20.
Definition MaxReasonSubjectBytes : Z := 512.
Definition MaxContributorsBeforeReject : Z := 200.

Record Notification := {
  Recipient : string; Author : string; RecordURI : string; RecordCID : string; Reason : string;
  ReasonSubject : string; SortAt : Z; GroupKey : string
}.

Definition nullIfEmpty (s : string) : option string := if is_empty s then None else Some s.

(** ** Extraction *)

(** What package json and time read: a record into the fields the extractors
    declare, a raw value as a string or as an object with an optional string
    [identity], and the two formats of times. *)
Class Decoders := {
  Raw : Type;
  activity : string -> option (string * list Raw);
  endorsement : string -> option (string * string * string);
  as_string : Raw -> option string;
  as_identity : Raw -> option (option string);
  parse_nano : string -> option Z;
  parse_rfc3339 : string -> option Z
}.

Section Extractors.
Context `{Decoders}.

Definition clampSortAt (now : Z) (createdAt : string) : Z :=
  match parse_nano createdAt with
  | None => match parse_rfc3339 createdAt with
            | None => now
            | Some parsed => if now <? parsed then now
                             else if parsed <? now - SortAtMaxPast then now else parsed
            end
  | Some parsed => if now <? parsed then now else if parsed <? now - SortAtMaxPast then now else parsed
  end.

Definition extractContributorDID (raw : Raw) : string :=
  match as_string raw with
  | Some s => if Did.IsValid s then s else ""
  | None => match as_identity raw with
            | Some (Some s) => if Did.IsValid s then s else ""
            | _ => ""
            end
  end.

(** The loop of [countContributorsShallow] over the bytes from the bracket on. *)
Fixpoint count_items (s : string) (inString escaped : bool) (depth count : Z) : Z :=
  match s with
  | EmptyString => count
  | String c s =>
      if escaped then count_items s inString false depth count
      else if inString then
        if Ascii.eqb c "\" then count_items s inString true depth count
        else count_items s (negb (zb c =? 34)) false depth count
      else if zb c =? 34 then count_items s true false depth count
      else if existsb (Ascii.eqb c) ["["; "{"]%char
      then count_items s false false (depth + 1) (if depth + 1 =? 2 then count + 1 else count)
      else if existsb (Ascii.eqb c) ["]"; "}"]%char
      then if depth - 1 =? 0 then count else count_items s false false (depth - 1) count
      else count_items s false false depth count
  end.

(** What is left of a text from the first occurrence of another on. *)
Fixpoint from_sub (s sub : string) : option string :=
  if has_prefix s sub then Some s else match s with EmptyString => None | String _ s => from_sub s sub end.
Definition quote : string := String "034" "".
Definition countContributorsShallow (record : string) : Z :=
  match from_sub record (quote +:+ "contributors" +:+ quote) with
  | None => 0
  | Some rest => match from_sub rest "[" with None => 0 | Some array => count_items array false false 0 0 end
  end.

Definition contributor_notification (now : Z) (op : ProcessOp) (createdAt contribDID : string) : Notification :=
  {| Recipient := contribDID; Author := DID op; RecordURI := URI op; RecordCID := CID op;
     Reason := ReasonActivityContributor; ReasonSubject := URI op; SortAt := clampSortAt now createdAt;
     GroupKey := "" |}.

Fixpoint contributors_loop (now : Z) (op : ProcessOp) (createdAt : string) (seen : gset string) (notifs : list Notification)
    (l : list Raw) : list Notification :=
  match l with
  | [] => notifs
  | raw :: l =>
      let contribDID := extractContributorDID raw in
      if negb (Did.IsValid contribDID) || bool_decide (contribDID ∈ seen)
      then contributors_loop now op createdAt seen notifs l
      else
        let notifs := notifs ++ [contributor_notification now op createdAt contribDID] in
        if Nat.leb MaxFanOutPerRecord (length notifs) then notifs
        else contributors_loop now op createdAt ({[contribDID]} ∪ seen) notifs l
  end.

Inductive notify_error := EParse | ENoDID | EQuery (statement : string).

Definition ActivityContributor_Extract (now : Z) (op : ProcessOp) : result notify_error (list Notification) :=
  if MaxContributorsBeforeReject <? countContributorsShallow (Record_ op) then Ok []
  else match activity (Record_ op) with
       | None => Err EParse
       | Some (createdAt, l) => Ok (contributors_loop now op createdAt {[DID op]} [] l)
       end.

Definition Endorsement_Extract (now : Z) (op : ProcessOp) : result notify_error (list Notification) :=
  match endorsement (Record_ op) with
  | None => Err EParse
  | Some (did, uri, createdAt) =>
      let subjectDID := TrimSpace did in
      let subjectURI := TrimSpace uri in
      if negb (Did.IsValid subjectDID) || String.eqb subjectDID (DID op) then Ok []
      else if MaxReasonSubjectBytes <? glen subjectURI then Ok []
      else Ok [{| Recipient := subjectDID; Author := DID op; RecordURI := URI op; RecordCID := CID op;
                  Reason := ReasonEndorsement; ReasonSubject := subjectURI; SortAt := clampSortAt now createdAt;
                  GroupKey := "endorsement:" +:+ subjectURI |}]
  end.
End Extractors.

(** ** The tables *)

Record Envelope := {
  e_did : string; e_reason : string; e_subject : option string; e_group : option string; e_sort : Z;
  e_count : Z; latest_uri : string; latest_cid : string; latest_author : string
}.
(** The participants are kept in the order of their identifiers. *)
Record Participant := {
  p_notification : Z; p_uri : string; p_cid : string; p_recipient : string; p_author : string; p_sort : Z
}.
Record tables := {
  notification : gmap Z Envelope; next_id : Z; participants : list Participant; last_seen : gmap string Z
}.

(** Statements: [None] is an error of the database. *)
Definition find_group (did g : string) (m : gmap Z Envelope) : option Z :=
  head (map fst (filter (fun p => e_did p.2 = did /\ e_group p.2 = Some g) (map_to_list m))).

Definition new_envelope (n : Notification) : Envelope :=
  {| e_did := Recipient n; e_reason := Reason n; e_subject := nullIfEmpty (ReasonSubject n);
     e_group := nullIfEmpty (GroupKey n); e_sort := SortAt n; e_count := 0; latest_uri := RecordURI n;
     latest_cid := RecordCID n; latest_author := Author n |}.
Definition insert_envelope (n : Notification) (t : tables) : option (Z * tables) :=
  Some (next_id t, {| notification := <[next_id t := new_envelope n]> (notification t); next_id := next_id t + 1;
                      participants := participants t; last_seen := last_seen t |}).
(** A conflict uses up an identifier too. *)
Definition upsert_envelope (n : Notification) (t : tables) : option (Z * tables) :=
  match find_group (Recipient n) (GroupKey n) (notification t) with
  | Some id => Some (id, {| notification := notification t; next_id := next_id t + 1;
                            participants := participants t; last_seen := last_seen t |})
  | None => insert_envelope n t
  end.
Definition set_notification (f : gmap Z Envelope -> gmap Z Envelope) (t : tables) : tables :=
  {| notification := f (notification t); next_id := next_id t; participants := participants t;
     last_seen := last_seen t |}.
Definition set_participants (l : list Participant) (t : tables) : tables :=
  {| notification := notification t; next_id := next_id t; participants := l; last_seen := last_seen t |}.

Definition participant (id : Z) (n : Notification) : Participant :=
  {| p_notification := id; p_uri := RecordURI n; p_cid := RecordCID n; p_recipient := Recipient n;
     p_author := Author n; p_sort := SortAt n |}.
Definition has_participant (uri recipient : string) (l : list Participant) : bool :=
  existsb (fun p => String.eqb (p_uri p) uri && String.eqb (p_recipient p) recipient) l.
Definition insert_participant (id : Z) (n : Notification) (t : tables) : option (bool * tables) :=
  if has_participant (RecordURI n) (Recipient n) (participants t) then Some (false, t)
  else match notification t !! id with
       | None => None (* the foreign key *)
       | Some _ => Some (true, set_participants (participants t ++ [participant id n]) t)
       end.
(** Deleting a notification deletes its participants. *)
Definition drop_envelope (id : Z) (t : tables) : tables :=
  set_participants (filter (fun p => p_notification p <> id) (participants t)) (set_notification (delete id) t).
Definition delete_counted (ok : Z -> bool) (id : Z) (t : tables) : option (bool * tables) :=
  match notification t !! id with
  | Some e => if ok (e_count e) then Some (true, drop_envelope id t) else Some (false, t)
  | None => Some (false, t)
  end.
Definition bumped (n : Notification) (e : Envelope) : Envelope :=
  let newer := e_sort e <=? SortAt n in
  {| e_did := e_did e; e_reason := e_reason e; e_subject := e_subject e; e_group := e_group e;
     e_sort := Z.max (e_sort e) (SortAt n); e_count := e_count e + 1;
     latest_uri := if newer then RecordURI n else latest_uri e;
     latest_cid := if newer then RecordCID n else latest_cid e;
     latest_author := if newer then Author n else latest_author e |}.
Definition bump (id : Z) (n : Notification) (t : tables) : option (unit * tables) :=
  Some ((), set_notification (alter (bumped n) id) t).

Definition take_participants (uri : string) (t : tables) : option (list Z * tables) :=
  Some (p_notification <$> filter (fun p => p_uri p = uri) (participants t),
        set_participants (filter (fun p => p_uri p <> uri) (participants t)) t).
Definition counted (d : Z) (e : Envelope) : Envelope :=
  {| e_did := e_did e; e_reason := e_reason e; e_subject := e_subject e; e_group := e_group e;
     e_sort := e_sort e; e_count := e_count e + d; latest_uri := latest_uri e; latest_cid := latest_cid e;
     latest_author := latest_author e |}.
Definition decrement (id : Z) (t : tables) : option (unit * tables) :=
  Some ((), set_notification (alter (counted (-1)) id) t).
(** [ORDER BY sort_at DESC, id DESC LIMIT 1]. *)
Definition newest (l : list Participant) : option Participant :=
  fold_left (fun acc p => match acc with
                          | Some q => if p_sort q <=? p_sort p then Some p else acc
                          | None => Some p end) l None.
Definition of_notification (id : Z) (l : list Participant) : list Participant :=
  filter (fun p => p_notification p = id) l.
Arguments of_notification : simpl never.
Arguments newest : simpl never.
Arguments has_participant : simpl never.
Arguments find_group : simpl never.
Definition with_latest (p : Participant) (e : Envelope) : Envelope :=
  {| e_did := e_did e; e_reason := e_reason e; e_subject := e_subject e; e_group := e_group e;
     e_sort := p_sort p; e_count := e_count e; latest_uri := p_uri p; latest_cid := p_cid p;
     latest_author := p_author p |}.
Definition recompute (id : Z) (t : tables) : option (unit * tables) :=
  Some ((), match newest (of_notification id (participants t)) with
            | Some p => set_notification (alter (with_latest p) id) t
            | None => t end).

(** ** Programs of statements *)

(** Each statement runs on its own, outside a transaction. *)
Abbreviation M := (Statements.M tables notify_error).
Definition stmt {A} (name : string) (f : tables -> option (A * tables)) : M A := Statements.stmt (EQuery name) f.

Definition applyOne (n : Notification) : M unit :=
  notificationID ← (if is_empty (GroupKey n) then stmt "insert envelope" (insert_envelope n)
                    else stmt "upsert envelope" (upsert_envelope n));
  inserted ← stmt "insert participant" (insert_participant notificationID n);
  if negb inserted then
    (if is_empty (GroupKey n)
     then ignore (stmt "undo" (delete_counted (fun c => c =? 0) notificationID)) else mret ())
  else stmt "update envelope" (bump notificationID n).

Fixpoint Apply (notifs : list Notification) : M unit :=
  match notifs with [] => mret () | n :: l => _ ← applyOne n; Apply l end.

Definition settle (id : Z) : M unit :=
  _ ← stmt "decrement" (decrement id);
  gone ← stmt "delete envelope" (delete_counted (fun c => c <=? 0) id);
  if gone : bool then mret () else stmt "recompute" (recompute id).
Fixpoint settle_all (ids : list Z) : M unit :=
  match ids with [] => mret () | id :: ids => _ ← settle id; settle_all ids end.
Definition DeleteByRecordURI (uri : string) : M unit :=
  ids ← stmt "delete participants" (take_participants uri); settle_all ids.

(** ** The hook *)

Definition Notifier := ProcessOp -> result notify_error (list Notification).

Definition process (notifiers : gmap string Notifier) (op : ProcessOp) : M unit :=
  match notifiers !! Collection op with
  | None => mret ()
  | Some extract =>
      if String.eqb (Operation op) OpDelete then DeleteByRecordURI (URI op)
      else
        _ ← (if String.eqb (Operation op) OpUpdate then DeleteByRecordURI (URI op) else mret ());
        if MaxRecordBytesForNotifications <? glen (Record_ op) then mret ()
        else match extract op with
             | Err e => fail e
             | Ok notifs => Apply (take MaxFanOutPerRecord notifs)
             end
  end.

(** The registry as the program fills it. *)
Definition notifiers `{Decoders} (now : Z) : gmap string Notifier :=
  {["app.certified.temp.graph.endorsement" := Endorsement_Extract now;
    "org.hypercerts.claim.activity" := ActivityContributor_Extract now]}.

Definition hook_result (r : result notify_error unit) : hook_end :=
  match r with Ok _ => HookOk | Err _ => HookErr "notifications" end.

(** ** What the tables stand for *)

Definition key_of (p : Participant) : string * string := (p_uri p, p_recipient p).

(** An envelope shows its participants: how many, and the newest. *)
Definition shows (e : Envelope) (ps : list Participant) : Prop :=
  e_count e = Z.of_nat (length ps) /\ (e_group e = None -> length ps = 1%nat) /\
  exists p, newest ps = Some p /\ e_sort e = p_sort p /\ latest_uri e = p_uri p /\ latest_cid e = p_cid p /\
    latest_author e = p_author p.

(** [pending] are envelopes that have lost a participant and are not settled yet. *)
Record ok_but (pending : list Z) (t : tables) : Prop := {
  ok_ids : forall id e, notification t !! id = Some e -> id < next_id t;
  ok_shows : forall id e, notification t !! id = Some e -> id ∉ pending ->
    shows e (of_notification id (participants t));
  ok_pending : forall id, id ∈ pending -> exists e, notification t !! id = Some e /\
    e_count e = Z.of_nat (length (of_notification id (participants t))) + 1 /\
    (e_group e = None -> of_notification id (participants t) = []);
  ok_owner : forall p, p ∈ participants t -> exists e, notification t !! p_notification p = Some e /\ e_did e = p_recipient p;
  ok_unique : NoDup (key_of <$> participants t);
  ok_groups : forall id1 id2 e1 e2 g, notification t !! id1 = Some e1 -> notification t !! id2 = Some e2 ->
    e_did e1 = e_did e2 -> e_group e1 = Some g -> e_group e2 = Some g -> id1 = id2
}.
Abbreviation ok := (ok_but []).

(** A participant stands for a notification. *)
Definition stands (t : tables) (p : Participant) (n : Notification) : Prop :=
  p_uri p = RecordURI n /\ p_cid p = RecordCID n /\ p_recipient p = Recipient n /\ p_author p = Author n /\
  p_sort p = SortAt n /\
  exists e, notification t !! p_notification p = Some e /\ e_group e = nullIfEmpty (GroupKey n).
Definition represents (t : tables) (live : list Notification) : Prop := Forall2 (stands t) (participants t) live.

(** The same on the set of live notifications, in the order of their arrival. *)
Definition same_event (n m : Notification) : Prop := RecordURI n = RecordURI m /\ Recipient n = Recipient m.
#[global] Instance same_event_dec n m : Decision (same_event n m).
Proof. unfold same_event. apply _. Defined.
Definition spec_add (live : list Notification) (n : Notification) : list Notification :=
  if existsb (fun m => bool_decide (same_event m n)) live then live else live ++ [n].
Definition spec_apply (notifs live : list Notification) : list Notification := fold_left spec_add notifs live.
Definition spec_delete (uri : string) (live : list Notification) : list Notification :=
  filter (fun n => RecordURI n <> uri) live.
Definition spec_process (notifiers : gmap string Notifier) (op : ProcessOp) (live : list Notification)
  : result notify_error unit * list Notification :=
  match notifiers !! Collection op with
  | None => (Ok (), live)
  | Some extract =>
      if String.eqb (Operation op) OpDelete then (Ok (), spec_delete (URI op) live)
      else
        let live := if String.eqb (Operation op) OpUpdate then spec_delete (URI op) live else live in
        if MaxRecordBytesForNotifications <? glen (Record_ op) then (Ok (), live)
        else match extract op with
             | Err e => (Err e, live)
             | Ok notifs => (Ok (), spec_apply (take MaxFanOutPerRecord notifs) live)
             end
  end.

(** An event that is live comes again only in its group. *)
Definition fits (live : list Notification) (n : Notification) : Prop :=
  forall m, m ∈ live -> same_event m n -> GroupKey m = GroupKey n.
Fixpoint all_fit (notifs live : list Notification) : Prop :=
  match notifs with [] => True | n :: l => fits live n /\ all_fit l (spec_add live n) end.

(** *** Lemmas on the tables *)

Lemma find_group_Some did g m id : find_group did g m = Some id ->
  exists e, m !! id = Some e /\ e_did e = did /\ e_group e = Some g.
Proof.
  unfold find_group. intros Hh. assert (id ∈ map fst (filter (fun p => e_did p.2 = did /\ e_group p.2 = Some g) (map_to_list m))) as Hin.
  { destruct (map fst _); [done|]. injection Hh as ->. left. }
  apply list_elem_of_fmap in Hin as ([k e] & -> & Hin). apply list_elem_of_filter in Hin as [[Hd Hg] Hin].
  exists e. by apply elem_of_map_to_list in Hin.
Qed.

Lemma find_group_None did g m id e : find_group did g m = None -> m !! id = Some e -> e_did e = did -> e_group e <> Some g.
Proof.
  unfold find_group. intros Hh Hm Hd Hg.
  assert ((id, e) ∈ filter (fun p => e_did p.2 = did /\ e_group p.2 = Some g) (map_to_list m)) as Hin.
  { apply list_elem_of_filter. split; [done|]. by apply elem_of_map_to_list. }
  destruct (filter _ _); [by apply elem_of_nil in Hin|done].
Qed.

Lemma newest_snoc ps p : newest (ps ++ [p]) = match newest ps with
  | Some q => if p_sort q <=? p_sort p then Some p else Some q | None => Some p end.
Proof. unfold newest. rewrite fold_left_app. cbn. by destruct (fold_left _ ps None). Qed.

Lemma newest_spec ps : match newest ps with
  | None => ps = []
  | Some p => p ∈ ps /\ forall q, q ∈ ps -> p_sort q <= p_sort p end.
Proof.
  induction ps as [|p ps IH] using rev_ind; [done|]. rewrite newest_snoc. destruct (newest ps) as [q|].
  - destruct IH as [Hq Hle]. destruct (Z.leb_spec (p_sort q) (p_sort p)) as [Hqp|Hqp].
    + split; [set_solver|]. intros x [Hx|Hx%list_elem_of_singleton]%elem_of_app; [|subst; lia].
      specialize (Hle x Hx). lia.
    + split; [set_solver|]. intros x [Hx|Hx%list_elem_of_singleton]%elem_of_app; [by apply Hle|subst; lia].
  - subst ps. split; [by left|]. intros x Hx%list_elem_of_singleton. subst. lia.
Qed.

Lemma of_notification_app id l p : of_notification id (l ++ [p]) =
  of_notification id l ++ (if decide (p_notification p = id) then [p] else []).
Proof. unfold of_notification. rewrite filter_app, filter_cons, filter_nil. done. Qed.

Lemma of_notification_fresh id t pending : ok_but pending t -> notification t !! id = None ->
  of_notification id (participants t) = [].
Proof.
  intros Hok Hn. destruct (of_notification id (participants t)) as [|p l] eqn:Hf; [done|].
  assert (p ∈ of_notification id (participants t)) as Hp by (rewrite Hf; left).
  apply list_elem_of_filter in Hp as [<- Hp]. destruct (ok_owner _ _ Hok p Hp) as (e & He & _). congruence.
Qed.

Lemma has_participant_spec uri rcp l : has_participant uri rcp l = true <-> (uri, rcp) ∈ key_of <$> l.
Proof.
  unfold has_participant. rewrite existsb_elem_of, list_elem_of_fmap. split.
  - intros (p & Hp & [<-%String.eqb_eq <-%String.eqb_eq]%andb_true_iff). by exists p.
  - intros (p & [= -> ->] & Hp). exists p. split; [done|]. by rewrite !String.eqb_refl.
Qed.

(** Whether an event is live. *)
Lemma represented_has t live n : represents t live ->
  has_participant (RecordURI n) (Recipient n) (participants t) = existsb (fun m => bool_decide (same_event m n)) live.
Proof.
  intros Hr. apply eq_true_iff_eq. unfold has_participant. rewrite !existsb_elem_of. split.
  - intros (p & Hp & [Hu%String.eqb_eq Hrc%String.eqb_eq]%andb_true_iff).
    destruct (Forall2_left _ _ _ _ Hr Hp) as (m & Hm & H1 & _ & H2 & _). exists m. split; [done|].
    apply bool_decide_eq_true. split; congruence.
  - intros (m & Hm & [H1 H2]%bool_decide_eq_true).
    destruct (Forall2_right _ _ _ _ Hr Hm) as (p & Hp & H3 & _ & H4 & _). exists p. split; [done|].
    by rewrite H3, H4, H1, H2, !String.eqb_refl.
Qed.

Lemma stands_mono t t' p n : (forall id e, notification t !! id = Some e ->
    exists e', notification t' !! id = Some e' /\ e_group e' = e_group e) ->
  stands t p n -> stands t' p n.
Proof.
  intros Hm (H1 & H2 & H3 & H4 & H5 & e & He & Hg). split_and!; [done..|].
  destruct (Hm _ _ He) as (e' & He' & Hg'). exists e'. by rewrite Hg'.
Qed.

(** *** Applying a notification *)

(** A new participant of an envelope that is there. *)
Definition joined (id : Z) (n : Notification) (t : tables) : tables :=
  set_notification (alter (bumped n) id) (set_participants (participants t ++ [participant id n]) t).

Lemma envelope_joined_ok id n t e : ok t -> notification t !! id = Some e -> e_did e = Recipient n ->
  e_group e = nullIfEmpty (GroupKey n) -> GroupKey n <> "" ->
  has_participant (RecordURI n) (Recipient n) (participants t) = false -> ok (joined id n t).
Proof.
  intros Hok He Hd Hg Hgn Hp. split; cbn.
  - intros i x. rewrite lookup_alter_Some. intros [(-> & y & Hy & _)|[_ Hx]]; by eapply ok_ids.
  - intros i x Hx _. rewrite of_notification_app. apply lookup_alter_Some in Hx as [(<- & y & Hy & ->)|[Hne Hx]].
    + rewrite He in Hy. injection Hy as <-. cbn. rewrite decide_True by done.
      destruct (ok_shows _ _ Hok _ _ He ltac:(by intros ?%elem_of_nil)) as (Hc & _ & q & Hq & Hs & Hu & Hci & Ha).
      split_and!; cbn.
      * rewrite Hc, length_app. cbn. lia.
      * rewrite Hg. unfold nullIfEmpty. by destruct (GroupKey n).
      * rewrite newest_snoc, Hq, Hs. cbn. destruct (Z.leb_spec (p_sort q) (SortAt n)).
        -- eexists. split; [done|]. cbn. split_and!; [lia|done..].
        -- exists q. split; [done|]. split_and!; [lia|done..].
    + cbn. rewrite decide_False by done. rewrite app_nil_r. apply (ok_shows _ _ Hok); [done|apply not_elem_of_nil].
  - intros i Hi. by apply elem_of_nil in Hi.
  - intros p [Hin| ->%list_elem_of_singleton]%elem_of_app.
    + destruct (ok_owner _ _ Hok p Hin) as (x & Hx & Hxd). destruct (decide (p_notification p = id)) as [<-|Hne].
      * exists (bumped n x). by rewrite lookup_alter_eq, Hx.
      * exists x. by rewrite lookup_alter_ne.
    + exists (bumped n e). cbn. by rewrite lookup_alter_eq, He.
  - rewrite fmap_app. apply NoDup_app. split_and!; [apply Hok| |by apply NoDup_singleton].
    intros k Hk ->%list_elem_of_singleton. apply has_participant_spec in Hk. cbn in Hk. by rewrite Hk in Hp.
  - intros i1 i2 e1 e2 g H1 H2 Hdd Hg1 Hg2.
    assert (forall i x, alter (bumped n) id (notification t) !! i = Some x ->
              exists y, notification t !! i = Some y /\ e_did y = e_did x /\ e_group y = e_group x) as Hback.
    { intros i x. rewrite lookup_alter_Some. intros [(-> & y & Hy & ->)|[_ Hx]]; eauto. }
    destruct (Hback _ _ H1) as (y1 & Hy1 & Hd1 & Hgy1). destruct (Hback _ _ H2) as (y2 & Hy2 & Hd2 & Hgy2).
    apply (ok_groups _ _ Hok i1 i2 y1 y2 g); congruence.
Qed.

(** A new envelope with its first participant. *)
Definition founded (n : Notification) (t : tables) : tables :=
  let id := next_id t in
  {| notification := <[id := bumped n (new_envelope n)]> (notification t); next_id := id + 1;
     participants := participants t ++ [participant id n]; last_seen := last_seen t |}.

Lemma next_fresh pending t : ok_but pending t -> notification t !! next_id t = None.
Proof.
  intros Hok. destruct (notification t !! next_id t) as [e|] eqn:He; [|done].
  apply (ok_ids _ _ Hok) in He. lia.
Qed.

Lemma founded_ok n t : ok t ->
  (GroupKey n <> "" -> find_group (Recipient n) (GroupKey n) (notification t) = None) ->
  has_participant (RecordURI n) (Recipient n) (participants t) = false -> ok (founded n t).
Proof.
  intros Hok Hnew Hp. pose proof (next_fresh _ _ Hok) as Hf. set (id := next_id t) in *. split; cbn; fold id.
  - intros i x. rewrite lookup_insert_Some. intros [[<- _]|[_ Hx]]; [lia|]. apply (ok_ids _ _ Hok) in Hx. lia.
  - intros i x Hx _. rewrite of_notification_app. cbn. apply lookup_insert_Some in Hx as [[<- <-]|[Hne Hx]].
    + rewrite (of_notification_fresh _ _ _ Hok Hf), decide_True by done. split_and!; [done|done|].
      eexists. split; [done|]. cbn. rewrite Z.leb_refl. split_and!; [lia|done..].
    + rewrite decide_False by done. rewrite app_nil_r. apply (ok_shows _ _ Hok); [done|apply not_elem_of_nil].
  - intros i Hi. by apply elem_of_nil in Hi.
  - intros p [Hin| ->%list_elem_of_singleton]%elem_of_app.
    + destruct (ok_owner _ _ Hok p Hin) as (x & Hx & Hxd). exists x. rewrite lookup_insert_ne; [done|].
      intros Heq. rewrite <-Heq in Hx. congruence.
    + exists (bumped n (new_envelope n)). cbn. by rewrite lookup_insert_eq.
  - rewrite fmap_app. apply NoDup_app. split_and!; [apply Hok| |by apply NoDup_singleton].
    intros k Hk ->%list_elem_of_singleton. apply has_participant_spec in Hk. cbn in Hk. by rewrite Hk in Hp.
  - assert (forall e g, e_group (bumped n (new_envelope n)) = Some g -> e_did e = Recipient n -> e_group e = Some g ->
              forall i, notification t !! i = Some e -> False) as Hno.
    { intros e g Hg Hd Hge i Hi. cbn in Hg. unfold nullIfEmpty in Hg. destruct (is_empty (GroupKey n)) eqn:Hem; [done|].
      injection Hg as <-. eapply find_group_None; [apply Hnew|exact Hi|done|done].
      by intros Heq; rewrite Heq in Hem. }
    intros i1 i2 e1 e2 g [[<- <-]|[_ H1]]%lookup_insert_Some [[<- <-]|[_ H2]]%lookup_insert_Some Hdd Hg1 Hg2.
    + done.
    + exfalso. by eapply (Hno e2 g).
    + exfalso. by eapply (Hno e1 g).
    + by eapply (ok_groups _ _ Hok i1 i2).
Qed.

Lemma represents_snoc t t' live n p : represents t live -> participants t' = participants t ++ [p] ->
  (forall id e, notification t !! id = Some e -> exists e', notification t' !! id = Some e' /\ e_group e' = e_group e) ->
  stands t' p n -> represents t' (live ++ [n]).
Proof.
  intros Hr Hp Hm Hs. unfold represents. rewrite Hp. apply Forall2_app; [|by constructor].
  eapply Forall2_impl; [exact Hr|]. intros x y. by apply stands_mono.
Qed.

(** An identifier is used up. *)
Definition skipped (t : tables) : tables :=
  {| notification := notification t; next_id := next_id t + 1; participants := participants t;
     last_seen := last_seen t |}.
Lemma skipped_ok t live : ok t -> represents t live -> ok (skipped t) /\ represents (skipped t) live.
Proof.
  intros [H1 H2 H3 H4 H5 H6] Hr. split; [|done]. split; try done. intros i e He. cbn in *. apply H1 in He. lia.
Qed.

Lemma inserted_works n t : ok t -> has_participant (RecordURI n) (Recipient n) (participants t) = false ->
  (if is_empty (GroupKey n) then insert_envelope n t else upsert_envelope n t) = insert_envelope n t ->
  works (applyOne n) t () (founded n t).
Proof.
  intros Hok Hp Hi. unfold applyOne. eapply works_bind.
  - instantiate (2 := next_id t). destruct (is_empty (GroupKey n)); apply works_stmt; exact Hi.
  - eapply works_bind; [apply works_stmt; unfold insert_participant; cbn; by rewrite Hp, lookup_insert_eq|].
    cbn. apply works_stmt. unfold bump, founded, set_notification, set_participants. cbn. by rewrite alter_insert_eq.
Qed.

Lemma applyOne_works n t live : ok t -> represents t live -> fits live n ->
  exists t', works (applyOne n) t () t' /\ ok t' /\ represents t' (spec_add live n).
Proof.
  intros Hok Hr Hfit. unfold spec_add. rewrite <-(represented_has t live n Hr).
  pose proof (next_fresh _ _ Hok) as Hfresh. set (id := next_id t) in *.
  destruct (has_participant (RecordURI n) (Recipient n) (participants t)) eqn:Hp.
  - (* already live *)
    destruct (is_empty (GroupKey n)) eqn:Hg.
    + set (t1 := {| notification := <[id := new_envelope n]> (notification t); next_id := id + 1;
                    participants := participants t; last_seen := last_seen t |}).
      exists (drop_envelope id t1). assert (drop_envelope id t1 = skipped t) as Heq.
      { unfold drop_envelope, set_participants, set_notification, t1, skipped. cbn.
        f_equal; [by rewrite delete_insert_id|]. apply filter_all. intros p Hin Hpid.
        destruct (ok_owner _ _ Hok p Hin) as (e & He & _). congruence. }
      split; [|rewrite Heq; by apply skipped_ok].
      unfold applyOne. rewrite Hg. eapply works_bind; [by apply (works_stmt _ _ _ id t1)|].
      eapply works_bind; [apply works_stmt; unfold insert_participant; cbn; by rewrite Hp|]. cbn.
      unfold works, ignore, stmt. cbn. unfold delete_counted. cbn. by rewrite lookup_insert_eq.
    + exists (skipped t). split; [|by apply skipped_ok].
      assert (exists id0, find_group (Recipient n) (GroupKey n) (notification t) = Some id0) as [id0 Hid].
      { destruct (find_group _ _ _) as [id0|] eqn:Hfg; [by exists id0|]. exfalso.
        apply has_participant_spec, list_elem_of_fmap in Hp as (p & [= Hpu Hpr] & Hin).
        destruct (Forall2_left _ _ _ _ Hr Hin) as (m & Hm & H1 & _ & H2 & _ & _ & e & He & Hge).
        destruct (ok_owner _ _ Hok p Hin) as (e' & He' & Hd). rewrite He in He'. injection He' as <-.
        apply (find_group_None _ _ _ _ _ Hfg He); [congruence|]. rewrite Hge, (Hfit m Hm) by (split; congruence).
        unfold nullIfEmpty. by rewrite Hg. }
      unfold applyOne. rewrite Hg.
      eapply works_bind; [apply works_stmt; unfold upsert_envelope; by rewrite Hid|].
      eapply works_bind; [apply works_stmt; unfold insert_participant; cbn; by rewrite Hp|]. done.
  - (* new *)
    destruct (is_empty (GroupKey n)) eqn:Hg; [|destruct (find_group (Recipient n) (GroupKey n) (notification t)) as [id0|] eqn:Hfg].
    3: assert (upsert_envelope n t = insert_envelope n t) as Hup by (unfold upsert_envelope; by rewrite Hfg).
    1, 3: exists (founded n t); split_and!;
      [apply inserted_works; [done..|by rewrite Hg]
      |apply founded_ok; [done|by intros Hgn; destruct (GroupKey n)|done]
      |eapply represents_snoc; [exact Hr|done| |];
       [intros i e He; exists e; cbn; rewrite lookup_insert_ne; [done|]; intros Heq; rewrite <-Heq in He; unfold id in Hfresh; congruence
       |split_and!; try done; eexists; cbn; by rewrite lookup_insert_eq]].
    exists (skipped (joined id0 n t)). destruct (find_group_Some _ _ _ _ Hfg) as (e & He & Hd & Hge).
    assert (GroupKey n <> "") as Hgn by (by intros Heq; rewrite Heq in Hg).
    split; [|apply skipped_ok].
    + unfold applyOne. rewrite Hg. eapply works_bind; [apply works_stmt; unfold upsert_envelope; by rewrite Hfg|].
      eapply works_bind; [apply works_stmt; unfold insert_participant; cbn; by rewrite Hp, He|]. cbn. by apply works_stmt.
    + apply (envelope_joined_ok _ _ _ e); try done. unfold nullIfEmpty. by rewrite Hg.
    + eapply represents_snoc; [exact Hr|done| |].
      * intros i x Hx. cbn. destruct (decide (i = id0)) as [->|]; [|by exists x; rewrite lookup_alter_ne].
        exists (bumped n x). by rewrite lookup_alter_eq, Hx.
      * split_and!; try done. exists (bumped n e). cbn. rewrite lookup_alter_eq, He. split; [done|].
        cbn. rewrite Hge. unfold nullIfEmpty. by rewrite Hg.
Qed.

Lemma Apply_works notifs : forall t live, ok t -> represents t live -> all_fit notifs live ->
  exists t', works (Apply notifs) t () t' /\ ok t' /\ represents t' (spec_apply notifs live).
Proof.
  induction notifs as [|n notifs IH]; intros t live Hok Hr Hf; [by exists t|]. destruct Hf as [Hf1 Hf].
  destruct (applyOne_works n t live Hok Hr Hf1) as (t1 & Hw1 & Hok1 & Hr1).
  destruct (IH t1 _ Hok1 Hr1 Hf) as (t' & Hw & Hok' & Hr'). exists t'. split; [|done]. by eapply works_bind.
Qed.

(** *** Deleting the participants of a record *)

Lemma Forall2_filter_iff {A B} (R : A -> B -> Prop) (P : A -> Prop) (Q : B -> Prop)
    `{forall x, Decision (P x), forall y, Decision (Q y)} (l : list A) (k : list B) :
  Forall2 R l k -> (forall x y, x ∈ l -> y ∈ k -> R x y -> P x <-> Q y) -> Forall2 R (filter P l) (filter Q k).
Proof.
  induction 1 as [|x y l k Hxy _ IH]; intros Hpq; [constructor|]. rewrite !filter_cons.
  pose proof (Hpq x y ltac:(left) ltac:(left) Hxy).
  assert (Forall2 R (filter P l) (filter Q k)) by (apply IH; intros; apply Hpq; by try right).
  do 2 case_decide; try tauto. by constructor.
Qed.

Lemma represents_keep t t' live : represents t live -> participants t' = participants t ->
  (forall p e, p ∈ participants t -> notification t !! p_notification p = Some e ->
     exists e', notification t' !! p_notification p = Some e' /\ e_group e' = e_group e) -> represents t' live.
Proof.
  unfold represents. intros Hr -> Hm. induction Hr as [|p n l k Hpn _ IH]; [constructor|]. constructor.
  - destruct Hpn as (H1 & H2 & H3 & H4 & H5 & e & He & Hg). split_and!; [done..|].
    destruct (Hm p e ltac:(left) He) as (e' & He' & Hg'). exists e'. by rewrite Hg'.
  - apply IH. intros q e Hq. apply Hm. by right.
Qed.

Lemma settle_works id ids t live : ok_but (id :: ids) t -> id ∉ ids -> represents t live ->
  exists t', works (settle id) t () t' /\ ok_but ids t' /\ represents t' live.
Proof.
  intros Hok Hid Hr. destruct (ok_pending _ _ Hok id ltac:(left)) as (e & He & Hc & Hg).
  set (ps := of_notification id (participants t)) in *.
  set (t1 := set_notification (alter (counted (-1)) id) t).
  assert (notification t1 !! id = Some (counted (-1) e)) as He1 by (cbn; by rewrite lookup_alter_eq, He).
  destruct (newest ps) as [p|] eqn:Hn; pose proof (newest_spec ps) as Hsp; rewrite Hn in Hsp.
  - (* it survives *)
    destruct Hsp as [Hin Hmax]. assert (ps <> []) as Hne by (by intros Heq; rewrite Heq in Hin; apply elem_of_nil in Hin).
    set (e' := with_latest p (counted (-1) e)).
    set (t2 := set_notification (alter (with_latest p) id) t1).
    assert (forall i, notification t2 !! i = if decide (i = id) then Some e' else notification t !! i) as Hl.
    { intros i. cbn. destruct (decide (i = id)) as [->|]; [by rewrite !lookup_alter_eq, He|by rewrite !lookup_alter_ne]. }
    exists t2. split_and!.
    + unfold settle. eapply works_bind; [by apply works_stmt|]. eapply works_bind.
      * apply works_stmt. unfold delete_counted. fold t1. rewrite He1. cbn. rewrite Hc.
        replace (Z.of_nat (length ps) + 1 + -1 <=? 0) with false; [done|].
        destruct (length ps) eqn:Hlen; [by apply nil_length_inv in Hlen|]. symmetry. apply Z.leb_gt. lia.
      * cbn. apply works_stmt. unfold recompute. cbn. fold ps. by rewrite Hn.
    + split; cbn [participants t2 t1 set_notification next_id].
      * intros i x. rewrite Hl. case_decide as Hd; [intros [= <-]; subst; by apply (ok_ids _ _ Hok) in He|by apply (ok_ids _ _ Hok)].
      * intros i x. rewrite Hl. case_decide as Hd.
        -- intros [= <-] _. subst i. split_and!; cbn; [rewrite Hc; fold ps; lia| |by exists p].
           intros Hge. by apply Hg in Hge.
        -- intros Hx Hni. apply (ok_shows _ _ Hok); [done|]. by intros [?|?]%elem_of_cons.
      * intros i Hi. rewrite Hl. rewrite decide_False by (by intros ->). apply (ok_pending _ _ Hok). by right.
      * intros q Hq. destruct (ok_owner _ _ Hok q Hq) as (x & Hx & Hxd). rewrite Hl.
        case_decide as Hd; [|by exists x]. exists e'. split; [done|]. rewrite Hd, He in Hx. by injection Hx as <-.
      * apply Hok.
      * intros i1 i2 e1 e2 g. rewrite !Hl. intros H1 H2 Hdd Hg1 Hg2.
        assert (forall i x, (if decide (i = id) then Some e' else notification t !! i) = Some x ->
                  exists y, notification t !! i = Some y /\ e_did y = e_did x /\ e_group y = e_group x) as Hback.
        { intros i x. destruct (decide (i = id)) as [Hd|Hd]; [intros [= <-]; subst i; by exists e|by exists x]. }
        destruct (Hback _ _ H1) as (y1 & Hy1 & Hd1 & Hgy1). destruct (Hback _ _ H2) as (y2 & Hy2 & Hd2 & Hgy2).
        apply (ok_groups _ _ Hok i1 i2 y1 y2 g); congruence.
    + eapply represents_keep; [exact Hr|done|]. intros q x _ Hx. rewrite Hl. case_decide as Hd; [|by exists x].
      exists e'. split; [done|]. rewrite Hd, He in Hx. by injection Hx as <-.
  - (* it was the last *)
    assert (forall q, q ∈ participants t -> p_notification q <> id) as Hnone.
    { intros q Hq Hqi. assert (q ∈ ps) as Hin by (by apply list_elem_of_filter). rewrite Hsp in Hin. by apply elem_of_nil in Hin. }
    set (t2 := drop_envelope id t1).
    assert (participants t2 = participants t) as Hps by (apply filter_all; exact Hnone).
    assert (forall i, notification t2 !! i = if decide (i = id) then None else notification t !! i) as Hl.
    { intros i. cbn. destruct (decide (i = id)) as [->|]; [by rewrite lookup_delete_eq|by rewrite lookup_delete_ne, lookup_alter_ne]. }
    exists t2. split_and!.
    + unfold settle. eapply works_bind; [by apply works_stmt|]. apply (works_bind _ _ _ true t2); [|done].
      apply works_stmt. unfold delete_counted. fold t1. rewrite He1. cbn. by rewrite Hc, Hsp.
    + split; rewrite ?Hps; cbn [next_id t2 t1 drop_envelope set_participants set_notification].
      * intros i x. rewrite Hl. case_decide; [done|]. by apply (ok_ids _ _ Hok).
      * intros i x. rewrite Hl. case_decide; [done|]. intros Hx Hni. apply (ok_shows _ _ Hok); [done|].
        by intros [?|?]%elem_of_cons.
      * intros i Hi. rewrite Hl. rewrite decide_False by (by intros ->). apply (ok_pending _ _ Hok). by right.
      * intros q Hq. rewrite Hl, decide_False by (by apply Hnone). by apply (ok_owner _ _ Hok).
      * apply Hok.
      * intros i1 i2 e1 e2 g. rewrite !Hl. do 2 (case_decide; [done|]). by apply (ok_groups _ _ Hok).
    + eapply represents_keep; [exact Hr|done|]. intros q x Hq Hx. rewrite Hl, decide_False by (by apply Hnone). by exists x.
Qed.

Lemma settle_all_works ids : forall t live, ok_but ids t -> NoDup ids -> represents t live ->
  exists t', works (settle_all ids) t () t' /\ ok t' /\ represents t' live.
Proof.
  induction ids as [|id ids IH]; intros t live Hok Hnd Hr; [by exists t|].
  - apply NoDup_cons in Hnd as [Hid Hnd]. destruct (settle_works id ids t live Hok Hid Hr) as (t1 & Hw1 & Hok1 & Hr1).
    destruct (IH t1 live Hok1 Hnd Hr1) as (t' & Hw & H'). exists t'. split; [|done]. by eapply works_bind.
Qed.

Lemma settled_keys {A B} (f : A -> B) (P : A -> Prop) `{forall x, Decision (P x)} (l : list A) :
  NoDup (f <$> l) -> NoDup (f <$> filter P l).
Proof. intros Hnd. eapply sublist_NoDup; [exact Hnd|]. apply fmap_sublist, sublist_filter. Qed.

Lemma of_notification_filter id (P : Participant -> Prop) `{forall x, Decision (P x)} l :
  of_notification id (filter P l) = filter P (of_notification id l).
Proof. unfold of_notification. rewrite !list_filter_filter. apply list_filter_iff. tauto. Qed.

(** What the first statement leaves behind. *)
Lemma taken_ok uri t : ok t ->
  let D := filter (fun p => p_uri p = uri) (participants t) in
  let t1 := set_participants (filter (fun p => p_uri p <> uri) (participants t)) t in
  NoDup (p_notification <$> D) /\ ok_but (p_notification <$> D) t1.
Proof.
  intros Hok D t1. assert (forall p q, p ∈ participants t -> q ∈ participants t -> p_uri p = p_uri q ->
    p_notification p = p_notification q -> p = q) as Hone.
  { intros p q Hp Hq Hu Hi. eapply (unique_key key_of); [apply Hok|done|done|]. unfold key_of. f_equal; [done|].
    destruct (ok_owner _ _ Hok p Hp) as (x & Hx & <-). destruct (ok_owner _ _ Hok q Hq) as (y & Hy & <-). congruence. }
  assert (NoDup (p_notification <$> D)) as Hnd.
  { apply NoDup_fmap_2_strong; [|eapply NoDup_filter, NoDup_fmap_1, Hok]. intros p q.
    intros [Hpu Hp]%list_elem_of_filter [Hqu Hq]%list_elem_of_filter. apply Hone; congruence. }
  split; [done|]. split; cbn.
  - apply Hok.
  - intros id e He Hid. rewrite of_notification_filter, filter_all; [apply (ok_shows _ _ Hok); [done|apply not_elem_of_nil]|].
    intros p [<- Hp]%list_elem_of_filter Hu. apply Hid, list_elem_of_fmap_2. by apply list_elem_of_filter.
  - intros id (p & -> & Hp)%list_elem_of_fmap. pose proof Hp as [Hpu Hpin]%list_elem_of_filter.
    destruct (ok_owner _ _ Hok p Hpin) as (e & He & _). exists e. split; [done|].
    destruct (ok_shows _ _ Hok _ _ He ltac:(apply not_elem_of_nil)) as (Hc & Hg & _).
    pose proof (length_split (fun q => p_uri q = uri) (of_notification (p_notification p) (participants t))) as Hl.
    rewrite <-!of_notification_filter in Hl. fold D in Hl.
    replace (of_notification (p_notification p) D) with [p] in Hl by (symmetry; by apply filter_one). cbn in Hl.
    rewrite Hc. split; [lia|]. intros Hnone. apply nil_length_inv. specialize (Hg Hnone). lia.
  - intros p [_ Hp]%list_elem_of_filter. by apply Hok.
  - apply settled_keys, Hok.
  - apply Hok.
Qed.

Lemma DeleteByRecordURI_works uri t live : ok t -> represents t live ->
  exists t', works (DeleteByRecordURI uri) t () t' /\ ok t' /\ represents t' (spec_delete uri live).
Proof.
  intros Hok Hr. destruct (taken_ok uri t Hok) as [Hnd Hok1].
  set (t1 := set_participants _ t) in Hok1. assert (represents t1 (spec_delete uri live)) as Hr1.
  { unfold represents. cbn. apply (Forall2_filter_iff (stands t1)); [exact Hr|]. by intros p n _ _ (-> & _). }
  destruct (settle_all_works _ _ _ Hok1 Hnd Hr1) as (t' & Hw & H'). exists t'. split; [|done].
  eapply works_bind; [by apply works_stmt|exact Hw].
Qed.

(** *** The hook over a history of operations *)

(** Where an operation extracts notifications, they fit what is live. *)
Definition op_fits (nts : gmap string Notifier) (op : ProcessOp) (live : list Notification) : Prop :=
  Operation op <> OpDelete -> glen (Record_ op) <= MaxRecordBytesForNotifications ->
  forall extract notifs, nts !! Collection op = Some extract -> extract op = Ok notifs ->
  all_fit (take MaxFanOutPerRecord notifs)
    (if String.eqb (Operation op) OpUpdate then spec_delete (URI op) live else live).

Lemma process_works nts op t live : ok t -> represents t live -> op_fits nts op live ->
  exists t', process nts op ([], t) = ((spec_process nts op live).1, ([], t')) /\
    ok t' /\ represents t' (spec_process nts op live).2.
Proof.
  intros Hok Hr Hf. unfold process, spec_process. destruct (nts !! Collection op) as [extract|] eqn:Hn; [|by exists t].
  destruct (String.eqb (Operation op) OpDelete) eqn:Hd.
  { destruct (DeleteByRecordURI_works (URI op) t live Hok Hr) as (t' & Hw & H'). by exists t'. }
  apply String.eqb_neq in Hd. set (live1 := if String.eqb (Operation op) OpUpdate then _ else live).
  assert (exists t1, works (if String.eqb (Operation op) OpUpdate then DeleteByRecordURI (URI op) else mret ()) t () t1 /\
    ok t1 /\ represents t1 live1) as (t1 & Hw1 & Hok1 & Hr1).
  { subst live1. destruct (String.eqb _ _); [by apply DeleteByRecordURI_works|by exists t]. }
  unfold works in Hw1. unfold mbind, M_bind. rewrite Hw1. cbn.
  destruct (Z.ltb_spec MaxRecordBytesForNotifications (glen (Record_ op))); [by exists t1|].
  destruct (extract op) as [notifs|e] eqn:He; [|by exists t1].
  destruct (Apply_works (take MaxFanOutPerRecord notifs) t1 live1 Hok1 Hr1) as (t' & Hw & H'); [|by exists t'].
  by apply (Hf Hd ltac:(done) extract notifs).
Qed.

Section History.
Context `{Decoders}.

(** Each operation with the time at which it is processed. *)
Fixpoint run (ops : list (Z * ProcessOp)) (s : list fate * tables) : list (result notify_error unit) * (list fate * tables) :=
  match ops with
  | [] => ([], s)
  | (now, op) :: ops => let r := process (notifiers now) op s in let rs := run ops r.2 in (r.1 :: rs.1, rs.2)
  end.
Fixpoint spec_run (ops : list (Z * ProcessOp)) (live : list Notification)
  : list (result notify_error unit) * list Notification :=
  match ops with
  | [] => ([], live)
  | (now, op) :: ops => let r := spec_process (notifiers now) op live in let rs := spec_run ops r.2 in (r.1 :: rs.1, rs.2)
  end.
Fixpoint history_fits (ops : list (Z * ProcessOp)) (live : list Notification) : Prop :=
  match ops with
  | [] => True
  | (now, op) :: ops => op_fits (notifiers now) op live /\ history_fits ops (spec_process (notifiers now) op live).2
  end.

Lemma run_works ops : forall t live, ok t -> represents t live -> history_fits ops live ->
  exists t', run ops ([], t) = ((spec_run ops live).1, ([], t')) /\ ok t' /\ represents t' (spec_run ops live).2.
Proof.
  induction ops as [|[now op] ops IH]; intros t live Hok Hr Hf; [by exists t|]. destruct Hf as [Hf1 Hf]. cbn.
  destruct (process_works (notifiers now) op t live Hok Hr Hf1) as (t1 & -> & Hok1 & Hr1). cbn.
  destruct (IH t1 _ Hok1 Hr1 Hf) as (t' & -> & H'). by exists t'.
Qed.
End History.

Definition no_tables : tables := {| notification := ∅; next_id := 1; participants := []; last_seen := ∅ |}.
Lemma no_tables_ok : ok no_tables.
Proof.
  split; cbn.
  - by intros id e Hl%lookup_empty_Some.
  - by intros id e Hl%lookup_empty_Some.
  - by intros id Hid%elem_of_nil.
  - by intros p Hp%elem_of_nil.
  - constructor.
  - by intros id1 id2 e1 e2 g Hl%lookup_empty_Some.
Qed.

(** An envelope that shows some notifications: their number, and the newest. *)
Definition displays (e : Envelope) (ns : list Notification) : Prop :=
  e_count e = Z.of_nat (length ns) /\
  exists n, n ∈ ns /\ (forall m, m ∈ ns -> SortAt m <= SortAt n) /\ e_sort e = SortAt n /\
    latest_uri e = RecordURI n /\ latest_cid e = RecordCID n /\ latest_author e = Author n.

Lemma shows_displays t e ps ns : shows e ps -> Forall2 (stands t) ps ns -> displays e ns.
Proof.
  intros (Hc & _ & p & Hn & Hs & Hu & Hi & Ha) Hf. split; [by rewrite Hc, (Forall2_length _ _ _ Hf)|].
  pose proof (newest_spec ps) as Hsp. rewrite Hn in Hsp. destruct Hsp as [Hp Hmax].
  destruct (Forall2_left _ _ _ _ Hf Hp) as (n & Hnin & H1 & H2 & H3 & H4 & H5 & _). exists n. split; [done|].
  split; [|split_and!; congruence]. intros m Hm. destruct (Forall2_right _ _ _ _ Hf Hm) as (q & Hq & _ & _ & _ & _ & H6 & _).
  specialize (Hmax q Hq). lia.
Qed.

(** The live notifications of a recipient in a group. *)
Definition grouped (did g : string) (live : list Notification) : list Notification :=
  filter (fun n => Recipient n = did /\ GroupKey n = g) live.

Lemma nullIfEmpty_Some s g : nullIfEmpty s = Some g -> s = g.
Proof. unfold nullIfEmpty. destruct (is_empty s); [done|]. by intros [= ->]. Qed.

Lemma ok_displays t live id e : ok t -> represents t live -> notification t !! id = Some e ->
  match e_group e with
  | Some g => displays e (grouped (e_did e) g live)
  | None => exists n, n ∈ live /\ Recipient n = e_did e /\ GroupKey n = "" /\ displays e [n]
  end.
Proof.
  intros Hok Hr He. pose proof (ok_shows _ _ Hok _ _ He ltac:(apply not_elem_of_nil)) as Hs.
  destruct (e_group e) as [g|] eqn:Hg.
  - assert (nullIfEmpty g = Some g) as Hnn.
    { destruct Hs as (_ & _ & p & Hp & _). pose proof (newest_spec (of_notification id (participants t))) as Hsp.
      rewrite Hp in Hsp. destruct Hsp as [[<- Hin]%list_elem_of_filter _].
      destruct (Forall2_left _ _ _ _ Hr Hin) as (n & _ & _ & _ & _ & _ & _ & e' & He' & Hg').
      rewrite He in He'. injection He' as <-. rewrite Hg in Hg'. assert (GroupKey n = g) as Hgk by (by apply nullIfEmpty_Some). by rewrite Hgk in Hg'. }
    eapply (shows_displays t); [exact Hs|]. apply Forall2_filter_iff; [exact Hr|].
    intros p n Hp _ (_ & _ & Hrc & _ & _ & e' & He' & Hg'). destruct (ok_owner _ _ Hok p Hp) as (e'' & He'' & Hd).
    rewrite He' in He''. injection He'' as <-. split.
    + intros <-. rewrite He in He'. injection He' as <-. split; [congruence|]. apply nullIfEmpty_Some. congruence.
    + intros [Hrd Hgk]. eapply (ok_groups _ _ Hok); [exact He'|exact He|congruence| |exact Hg]. congruence.
  - pose proof Hs as (_ & Hlen & _). specialize (Hlen Hg).
    destruct (of_notification id (participants t)) as [|p [|]] eqn:Hps; [done| |done].
    assert (p ∈ of_notification id (participants t)) as [<- Hin]%list_elem_of_filter by (rewrite Hps; left).
    destruct (Forall2_left _ _ _ _ Hr Hin) as (n & Hn & Hst). exists n. split; [done|].
    pose proof Hst as (_ & _ & Hrc & _ & _ & e' & He' & Hg'). rewrite He in He'. injection He' as <-.
    destruct (ok_owner _ _ Hok p Hin) as (e'' & He'' & Hd). rewrite He in He''. injection He'' as <-. split_and!.
    + congruence.
    + rewrite Hg in Hg'. unfold nullIfEmpty in Hg'. destruct (GroupKey n); [done|discriminate].
    + eapply shows_displays; [exact Hs|]. by constructor.
Qed.

(** C18: Start from empty tables and let the hook see any history of creations,
    updates and deletions of records in which every statement works and every
    notification that a creation or an update brings fits what is live
    ([history_fits]: one that is live already comes again only in its group).
    Then the hook gives the results of the specification and leaves tables that
    show exactly its live notifications: the envelope of a group counts the live
    notifications of its recipient in that group and shows the newest, an envelope
    without a group shows one of them, and none is missing. Without the two
    conditions it does not: Examples count_drift (a statement fails) and
    ghost_envelope (a creation comes again with another subject). *)
Theorem notifications_exact `{Decoders} ops : history_fits ops [] ->
  exists t, run ops ([], no_tables) = ((spec_run ops []).1, ([], t)) /\
  let live := (spec_run ops []).2 in
  (forall id e, notification t !! id = Some e ->
     match e_group e with
     | Some g => displays e (grouped (e_did e) g live)
     | None => exists n, n ∈ live /\ Recipient n = e_did e /\ GroupKey n = "" /\ displays e [n]
     end) /\
  (forall n, n ∈ live -> exists id e, notification t !! id = Some e /\ e_did e = Recipient n /\
     e_group e = nullIfEmpty (GroupKey n)).
Proof.
  intros Hf. destruct (run_works ops no_tables [] no_tables_ok ltac:(constructor) Hf) as (t & Hrun & Hok & Hr).
  exists t. split; [done|]. split; [intros id e; by apply ok_displays|].
  intros n Hn. destruct (Forall2_right _ _ _ _ Hr Hn) as (p & Hp & _ & _ & Hrc & _ & _ & e & He & Hg).
  destruct (ok_owner _ _ Hok p Hp) as (e' & He' & Hd). exists (p_notification p), e.
  rewrite He in He'. injection He' as <-. split_and!; congruence.
Qed.

(** *** What the extractors promise *)

(** Notifications of one record, at most one for each recipient, none for the author. *)
Record of_record (op : ProcessOp) (ns : list Notification) : Prop := {
  of_uri : forall n, n ∈ ns -> RecordURI n = URI op /\ Author n = DID op;
  of_recipients : NoDup (Recipient <$> ns);
  of_valid : forall n, n ∈ ns -> Did.IsValid (Recipient n) = true /\ Recipient n <> DID op
}.

Section Promise.
Context `{Decoders}.

Lemma contributors_loop_promise now op createdAt l : forall seen ns,
  of_record op ns -> (length ns < MaxFanOutPerRecord)%nat ->
  (forall did, did ∈ seen <-> did = DID op \/ did ∈ Recipient <$> ns) ->
  let ns' := contributors_loop now op createdAt seen ns l in
  of_record op ns' /\ (length ns' <= MaxFanOutPerRecord)%nat.
Proof.
  induction l as [|raw l IH]; intros seen ns Hof Hlen Hseen; [by split; [|apply Nat.lt_le_incl]|].
  cbn -[MaxFanOutPerRecord]. destruct (_ || _) eqn:Hskip; [by apply IH|].
  apply orb_false_iff in Hskip as [Hv%negb_false_iff Hs%bool_decide_eq_false]. set (d := extractContributorDID raw) in *.
  rewrite Hseen in Hs. apply Decidable.not_or in Hs as [Hown Hnew].
  assert (of_record op (ns ++ [contributor_notification now op createdAt d])) as Hof'.
  { split.
    - intros n [Hn| ->%list_elem_of_singleton]%elem_of_app; [by apply Hof|done].
    - rewrite fmap_app. apply NoDup_app. split_and!; [apply Hof| |by apply NoDup_singleton].
      by intros x Hx ->%list_elem_of_singleton.
    - intros n [Hn| ->%list_elem_of_singleton]%elem_of_app; [by apply Hof|done]. }
  rewrite length_app. cbn [length]. destruct (Nat.leb_spec MaxFanOutPerRecord (length ns + 1)).
  - split; [done|]. rewrite length_app. cbn. lia.
  - apply IH; [done|rewrite length_app; cbn; lia|]. intros x. rewrite fmap_app, elem_of_app, elem_of_union, Hseen.
    set_solver.
Qed.

Lemma notifiers_promise now op extract ns : notifiers now !! Collection op = Some extract -> extract op = Ok ns ->
  of_record op ns /\ (length ns <= MaxFanOutPerRecord)%nat.
Proof.
  assert (of_record op []) as Hnil.
  { split; [by intros n Hn%elem_of_nil|constructor|by intros n Hn%elem_of_nil]. }
  assert (forall r : string, Ok (E:=notify_error) [] = Ok ns -> of_record op ns /\ (length ns <= MaxFanOutPerRecord)%nat) as Hempty.
  { intros _ [= <-]. split; [done|]. by apply Nat.leb_le. }
  unfold notifiers. rewrite lookup_insert_Some, lookup_singleton_Some. intros [[_ <-]|[_ [_ <-]]].
  - unfold Endorsement_Extract. destruct (endorsement _) as [[[did uri] createdAt]|]; [|done].
    destruct (_ || _) eqn:Hs; [apply (Hempty "")|]. destruct (_ <? _); [apply (Hempty "")|]. intros [= <-].
    apply orb_false_iff in Hs as [Hv%negb_false_iff Hs%String.eqb_neq]. split; [|cbn; apply Nat.leb_le; done]. split.
    + by intros n ->%list_elem_of_singleton.
    + apply NoDup_singleton.
    + by intros n ->%list_elem_of_singleton.
  - unfold ActivityContributor_Extract. destruct (_ <? _); [apply (Hempty "")|].
    destruct (activity _) as [[createdAt l]|]; [|done]. intros [= <-]. apply contributors_loop_promise; [done|by apply Nat.ltb_lt|].
    intros did. rewrite elem_of_singleton. cbn. set_solver.
Qed.

Lemma of_record_fits op ns : forall live, (forall n, n ∈ ns -> RecordURI n = URI op) -> NoDup (Recipient <$> ns) ->
  (forall m n, m ∈ live -> n ∈ ns -> ~ same_event m n) -> all_fit ns live.
Proof.
  induction ns as [|n ns IH]; intros live Hu Hnd Hno; [done|]. cbn. split.
  - intros m Hm Hs. destruct (Hno m n Hm ltac:(left) Hs).
  - rewrite fmap_cons in Hnd. apply NoDup_cons in Hnd as [Hn Hnd]. apply IH; [intros x Hx; apply Hu; by right|done|].
    intros m x Hm Hx Hs. assert (m ∈ live \/ m = n) as [Hl| ->].
    { unfold spec_add in Hm. destruct (existsb _ _); [by left|]. apply elem_of_app in Hm as [|Hm%list_elem_of_singleton]; auto. }
    + apply (Hno m x Hl); [by right|done].
    + destruct Hs as [_ Hs]. apply Hn. rewrite Hs. by apply list_elem_of_fmap_2.
Qed.

(** An update always fits, and so does a record that has nothing live. *)
Lemma update_fits now op live : Operation op = OpUpdate \/ (forall m, m ∈ live -> RecordURI m <> URI op) ->
  op_fits (notifiers now) op live.
Proof.
  intros Hor _ _ extract ns Hn He. destruct (notifiers_promise now op extract ns Hn He) as [Hof Hle].
  rewrite take_ge by done. apply (of_record_fits op); [intros n Hin; by apply (of_uri _ _ Hof)|apply Hof|].
  intros m n Hm Hin [Hs _]. destruct (of_uri _ _ Hof n Hin) as [Hu _].
  destruct (String.eqb_spec (Operation op) OpUpdate) as [_|Hne].
  - unfold spec_delete in Hm. apply list_elem_of_filter in Hm as [Hm _]. congruence.
  - destruct Hor as [|Hor]; [done|]. apply (Hor m Hm). congruence.
Qed.
End Promise.

(** A history in which each creation is of a record with nothing live. *)
Definition orderly_op (op : ProcessOp) (live : list Notification) : bool :=
  String.eqb (Operation op) OpDelete || String.eqb (Operation op) OpUpdate ||
  forallb (fun m => negb (String.eqb (RecordURI m) (URI op))) live.
Lemma orderly_fits `{Decoders} now op live : orderly_op op live = true -> op_fits (notifiers now) op live.
Proof.
  unfold orderly_op. rewrite !orb_true_iff. intros [[Hd%String.eqb_eq|Hu%String.eqb_eq]|Hf].
  - by intros Hne.
  - apply update_fits. by left.
  - apply update_fits. right. intros m Hm. rewrite forallb_elem_of in Hf. by apply Hf, negb_true_iff, String.eqb_neq in Hm.
Qed.

(** ** Examples *)

Module Example_notify.
#[local] Instance toy : Decoders :=
  {| Raw := string;
     activity := fun s => match split s "|" with "a" :: at_ :: l => Some (at_, l) | _ => None end;
     endorsement := fun s => match split s "|" with ["e"; d; u; at_] => Some (d, u, at_) | _ => None end;
     as_string := Some; as_identity := fun _ => None; parse_nano := ParseInt; parse_rfc3339 := fun _ => None |}.
Definition alice : string := "did:plc:aaaaaaaaaaaaaaaaaaaaaaaa".
Definition bob : string := "did:plc:bbbbbbbbbbbbbbbbbbbbbbbb".
Definition carol : string := "did:plc:cccccccccccccccccccccccc".
Definition endorse (o author uri subject at_ : string) : ProcessOp :=
  {| Operation := o; Collection := "app.certified.temp.graph.endorsement"; RKey := "k"; DID := author; URI := uri;
     CID := "c"; Record_ := "e|" +:+ bob +:+ "|" +:+ subject +:+ "|" +:+ at_; SourceEventID := None |}.
Definition contribute (o author uri people : string) : ProcessOp :=
  {| Operation := o; Collection := "org.hypercerts.claim.activity"; RKey := "k"; DID := author; URI := uri;
     CID := "c"; Record_ := "a|7|" +:+ people; SourceEventID := None |}.

(** Two endorsements of one subject, an activity that changes its contributors,
    and the deletion of the first endorsement. *)
Definition history : list (Z * ProcessOp) :=
  [(10, endorse OpCreate alice "u1" "at://x" "3"); (20, endorse OpCreate carol "u2" "at://x" "2");
   (30, contribute OpCreate alice "u3" (bob +:+ "|" +:+ carol +:+ "|" +:+ bob));
   (40, contribute OpUpdate alice "u3" carol); (50, endorse OpDelete alice "u1" "" "")].

Example history_live : spec_run history [] =
  ([Ok (); Ok (); Ok (); Ok (); Ok ()],
   [{| Recipient := bob; Author := carol; RecordURI := "u2"; RecordCID := "c"; Reason := ReasonEndorsement;
       ReasonSubject := "at://x"; SortAt := 2; GroupKey := "endorsement:at://x" |};
    {| Recipient := carol; Author := alice; RecordURI := "u3"; RecordCID := "c"; Reason := ReasonActivityContributor;
       ReasonSubject := "u3"; SortAt := 7; GroupKey := "" |}]).
Proof. vm_compute. reflexivity. Qed.

Lemma history_orderly : history_fits history [].
Proof. cbn. repeat split; try (apply orderly_fits; vm_compute; reflexivity). Qed.

Lemma notifications_exact_witness : exists t, run history ([], no_tables) = ((spec_run history []).1, ([], t)).
Proof. destruct (notifications_exact history history_orderly) as (t & Hr & _). by exists t. Defined.

(** A creation that comes again with another subject leaves an envelope of
    nothing, and the envelope of the first stays. *)
Example ghost_envelope :
  let t := (run [(10, endorse OpCreate alice "u1" "at://x" "3"); (20, endorse OpCreate alice "u1" "at://y" "3")]
                ([], no_tables)).2.2 in
  map_to_list ((fun e => (e_group e, e_count e)) <$> notification t) =
    [(2, (Some "endorsement:at://y", 0)); (1, (Some "endorsement:at://x", 1))].
Proof. vm_compute. reflexivity. Qed.

(** The last statement of an application fails: the participant stays without
    being counted, and applying the notification again does not repair it. *)
Example count_drift :
  let op := endorse OpCreate alice "u1" "at://x" "3" in
  let t := (process (notifiers 10) op ([Works; Works; Fails], no_tables)).2.2 in
  let t' := (process (notifiers 10) op ([], t)).2.2 in
  (length (participants t'), (fun e => e_count e) <$> notification t' !! 1) = (1%nat, Some 0).
Proof. vm_compute. reflexivity. Qed.

(** An old time becomes the present one, not the oldest allowed. *)
Example clamp_old : clampSortAt 1000000000000 "5" = 1000000000000.
Proof. vm_compute. reflexivity. Qed.
(** What cannot be read as JSON counts the items so far. *)
Example shallow_malformed : countContributorsShallow (quote +:+ "contributors" +:+ quote +:+ ": [{},{},") = 2.
Proof. vm_compute. reflexivity. Qed.
Example shallow_strings : countContributorsShallow (quote +:+ "contributors" +:+ quote +:+ ": [1,2,3]") = 0.
Proof. vm_compute. reflexivity. Qed.
End Example_notify.
