(* ===== verification/Inbox.v ===== *)
(** The reading side of [internal/notifications]: pages of the list of a user
    and their cursors, the unread count, the watermark of what was seen
    ([repo.go]), the resolvers over them ([resolver.go]), and the deletion of old
    rows. The tables and the programs of statements are those of [Notify]. *)
From Stdlib Require Import Sorted.
From stdpp Require Import sorting.
From S2P Require Import Prelude GoStrings Utf8 AtProto Ingestion Connection Statements Notify.

Local Open Scope Z_scope.

(** ** Cursors *)

(** The instants that package time writes with four digits of a year. *)
Definition year_10000 : Z := 315537897600000000.

(** The documented behaviour of [Format] and [Parse] with [RFC3339Nano]. *)
Class TimeText `{Decoders} := {
  format_nano : Z -> string;
  format_text t : ValidString (format_nano t) = true;
  format_inverse t : 0 <= t < year_10000 -> parse_nano (format_nano t) = Some t
}.

Definition cursorVersion : string := "v1:notif".

(** [fmt.Sscanf(s, "%d", &id)]: blanks but no newline, a sign, digits; what
    follows is left alone. *)
Fixpoint skip_space (fuel : nat) (s : string) : option string :=
  match fuel with
  | O => Some s
  | S f => if is_empty s then Some s
           else let '(r, w) := DecodeRune s in
                if r =? 10 then None else if IsSpace r then skip_space f (drop_bytes w s) else Some s
  end.
Fixpoint take_digits (s : string) : string :=
  match s with
  | EmptyString => ""
  | String c s' => if (48 <=? zb c) && (zb c <=? 57) then String c (take_digits s') else ""
  end.
Definition Sscanf_d (s : string) : option Z :=
  s ← skip_space (String.length s) s;
  match s with
  | String "-" s' => ParseInt (String "-" (take_digits s'))
  | String "+" s' => ParseInt (String "+" (take_digits s'))
  | _ => ParseInt (take_digits s)
  end.

Section Cursors.
Context `{TimeText} `{CursorCodec}.

Definition encodeCursor (sortAt id : Z) : string :=
  base64_encode (marshal_strings [cursorVersion; format_nano sortAt; itoa id]).

Definition decodeCursor (cursor : string) : result notify_error (Z * Z) :=
  if is_empty cursor then Ok (0, 0)
  else match base64_decode cursor with
       | None => Err EParse
       | Some data =>
           match unmarshal_strings data with
           | Some [version; at_; id] =>
               if String.eqb version cursorVersion then
                 match parse_nano at_ with
                 | None => Err EParse
                 | Some sortAt => match Sscanf_d id with Some id => Ok (sortAt, id) | None => Err EParse end
                 end
               else Err EParse
           | _ => Err EParse
           end
       end.
End Cursors.

(** ** Reading *)

Record Row := {
  r_id : Z; r_did : string; r_reason : string; r_subject : string; r_sort : Z; r_count : Z;
  r_uri : string; r_cid : string; r_author : string
}.
Record ListResult := { Rows : list Row; NextCursor : string; LastSeenNotifs : Z }.

Definition row_of (p : Z * Envelope) : Row :=
  {| r_id := p.1; r_did := e_did p.2; r_reason := e_reason p.2; r_subject := default "" (e_subject p.2);
     r_sort := e_sort p.2; r_count := e_count p.2; r_uri := latest_uri p.2; r_cid := latest_cid p.2;
     r_author := latest_author p.2 |}.

(** [ORDER BY sort_at DESC, id DESC]. *)
Definition ahead (a b : Row) : Prop := r_sort b < r_sort a \/ (r_sort a = r_sort b /\ r_id b <= r_id a).
#[global] Instance ahead_dec a b : Decision (ahead a b).
Proof. unfold ahead. apply _. Defined.
Definition all_rows (t : tables) : list Row := merge_sort ahead (row_of <$> map_to_list (notification t)).

Definition reason_ok (reasons : list string) (r : Row) : bool :=
  match reasons with [] => true | _ => existsb (String.eqb (r_reason r)) reasons end.
Definition after_cursor (sortAt id : Z) (r : Row) : bool :=
  (sortAt =? 0) || (r_sort r <? sortAt) || ((r_sort r =? sortAt) && (r_id r <? id)).

Definition select_rows (did : string) (reasons : list string) (sortAt id : Z) (limit : nat) (t : tables)
  : option (list Row * tables) :=
  Some (take limit (filter (fun r => r_did r = did /\ reason_ok reasons r = true /\ after_cursor sortAt id r = true)
                           (all_rows t)), t).

Definition page_limit (first : Z) : Z := if (first <=? 0) || (100 <? first) then 50 else first.

Section Reading.
Context `{TimeText} `{CursorCodec}.

Definition List_ (did : string) (reasons : list string) (first : Z) (after : string) : M ListResult :=
  let first := page_limit first in
  match decodeCursor after with
  | Err e => fail e
  | Ok (cursorSortAt, cursorID) =>
      lastSeen ← stmt "load actor_state" (fun t => Some (last_seen t !! did, t));
      rows ← stmt "list notifications" (select_rows did reasons cursorSortAt cursorID (Z.to_nat (first + 1)));
      let more := first <? Z.of_nat (length (rows : list Row)) in
      let page := if more then take (Z.to_nat first) rows else rows in
      mret {| Rows := page;
              NextCursor := if more then match last page with
                                         | Some l => encodeCursor (r_sort l) (r_id l) | None => "" end
                            else "";
              LastSeenNotifs := default 0 (lastSeen : option Z) |}
  end.
End Reading.

(** The first instant of 1970. *)
Definition epoch : Z := 62135596800000000.

Definition UnreadCount (did : string) : M (Z * bool) :=
  c ← stmt "unread count" (fun t =>
        Some (Z.of_nat (length (take (Z.to_nat (UnreadCountCap + 1))
                (filter (fun r => r_did r = did /\ default epoch (last_seen t !! did) < r_sort r) (all_rows t)))), t));
  mret (if UnreadCountCap <? c then (UnreadCountCap, true) else (c : Z, false)).

Definition UpdateSeen (now : Z) (did : string) (seenAt : Z) : M unit :=
  let seenAt := if (seenAt =? 0) || (now <? seenAt) then now else seenAt in
  stmt "update seen" (fun t =>
    Some ((), {| notification := notification t; next_id := next_id t; participants := participants t;
                 last_seen := <[did := match last_seen t !! did with
                                       | Some old => Z.max old seenAt | None => seenAt end]> (last_seen t) |})).

Arguments UpdateSeen : simpl never.
Arguments UnreadCount : simpl never.

(** [ORDER BY id LIMIT n]. *)
Definition old_ids (olderThan : Z) (t : tables) : list Z :=
  merge_sort Z.le (map fst (filter (fun p => e_sort p.2 < olderThan) (map_to_list (notification t)))).
Definition delete_old (olderThan batchSize : Z) (t : tables) : option (Z * tables) :=
  if batchSize <? 0 then None
  else let ids := take (Z.to_nat batchSize) (old_ids olderThan t) in
       Some (Z.of_nat (length ids), fold_left (fun t id => drop_envelope id t) ids t).
Definition DeleteOldNotifications (olderThan batchSize : Z) : M bool :=
  affected ← stmt "delete old" (delete_old olderThan batchSize); mret (batchSize <=? affected).

(** ** The resolvers *)

Record Node := {
  n_id : string; n_reason : string; n_subject : option string; n_sortAt : string; n_count : Z; n_uri : string;
  n_cid : string; n_author : string; isRead : bool
}.
Record NotificationPage := {
  n_edges : list (string * Node); n_hasNext : bool; n_hasPrevious : bool; n_start : string; n_end : string
}.

Definition nonEmptyOrNil (s : string) : option string := if is_empty s then None else Some s.

Section Resolvers.
Context `{TimeText} `{CursorCodec}.

Definition node_of (watermark : Z) (row : Row) : string * Node :=
  (encodeCursor (r_sort row) (r_id row),
   {| n_id := itoa (r_id row); n_reason := r_reason row; n_subject := nonEmptyOrNil (r_subject row);
      n_sortAt := format_nano (r_sort row); n_count := r_count row; n_uri := r_uri row; n_cid := r_cid row;
      n_author := r_author row; isRead := negb (watermark <? r_sort row) |}).

Definition ListNotifications (did : string) (reasons : list string) (first : Z) (after : string) : M NotificationPage :=
  if is_empty did then fail ENoDID
  else
    result ← List_ did reasons first after;
    let edges := node_of (LastSeenNotifs result) <$> Rows result in
    mret {| n_edges := edges; n_hasNext := negb (is_empty (NextCursor result));
            n_hasPrevious := negb (is_empty after);
            n_start := match edges with e :: _ => e.1 | [] => "" end;
            n_end := match last edges with Some e => e.1 | None => "" end |}.

Definition Resolver_UnreadCount (did : string) : M (Z * bool) :=
  if is_empty did then fail ENoDID else UnreadCount did.

Definition Resolver_UpdateSeen (now : Z) (did seenAtStr : string) : M bool :=
  if is_empty did then fail ENoDID
  else
    match (if is_empty seenAtStr then Some 0
           else match parse_nano seenAtStr with Some t => Some t | None => parse_rfc3339 seenAtStr end) with
    | None => fail EParse
    | Some seenAt => _ ← UpdateSeen now did seenAt; mret true
    end.

(** The fields of the endpoint with service authentication take the user from
    the context of the request. *)
Definition XRPC_notifications (ctx : option string) (reasons : list string) (first : Z) (after : string) : M NotificationPage :=
  match ctx with None => fail ENoDID | Some did => ListNotifications did reasons first after end.
Definition XRPC_unreadNotificationCount (ctx : option string) : M (Z * bool) :=
  match ctx with None => fail ENoDID | Some did => Resolver_UnreadCount did end.
Definition XRPC_updateNotificationsSeen (now : Z) (ctx : option string) (seenAt : string) : M bool :=
  match ctx with None => fail ENoDID | Some did => Resolver_UpdateSeen now did seenAt end.
End Resolvers.

(** ** Cursors decode *)

Lemma take_digits_all s : forall acc n, parse_digits acc s = Some n -> take_digits s = s.
Proof.
  induction s as [|c s IH]; intros acc n; [done|]. cbn. destruct (_ && _); [|done].
  intros Hp. f_equal. by eapply IH.
Qed.

Lemma skip_space_stays c s : all_bytes (fun b => ((48 <=? b) && (b <=? 57)) || (b =? 45)) (String c s) = true ->
  skip_space (String.length (String c s)) (String c s) = Some (String c s).
Proof.
  cbn. rewrite andb_true_iff. intros [Hc _]. 
  assert (zb c <? 128 = true) as -> by lia. assert (zb c =? 10 = false) as -> by lia.
  assert (IsSpace (zb c) = false) as ->; [|done]. unfold IsSpace, in_range.
  repeat (apply orb_false_iff; split); lia.
Qed.

Lemma Sscanf_itoa z : in_int64 z -> Sscanf_d (itoa z) = Some z.
Proof.
  intros Hz. pose proof (ParseInt_itoa z Hz) as Hp. pose proof (itoa_bytes z) as Hb.
  unfold Sscanf_d. destruct (itoa z) as [|c s] eqn:E; [done|]. rewrite skip_space_stays by done. cbn.
  unfold ParseInt in Hp.
  assert (forall neg digits, (if is_empty digits then None else n ← parse_digits 0 digits;
       let z := if neg : bool then - n else n in
       if (int64_min <=? z) && (z <=? int64_max) then Some z else None) = Some z -> take_digits digits = digits) as Ht.
  { intros neg digits. destruct (is_empty digits); [done|]. destruct (parse_digits 0 digits) as [n|] eqn:Hn; [|done].
    intros _. by eapply take_digits_all. }
  rewrite <-(ParseInt_itoa z Hz), E.
  destruct c as [[] [] [] [] [] [] [] []]; try (exfalso; revert Hb; clear; cbn; discriminate);
    first [change (ParseInt (String "-" (take_digits s)) = ParseInt (String "-" s)); by rewrite (Ht true s Hp)
          |match goal with |- _ = ParseInt ?d =>
             change (ParseInt (take_digits d) = ParseInt d); by rewrite (Ht false d Hp) end].
Qed.

Lemma decode_encode_cursor `{TimeText} `{CursorCodec} sortAt id : 0 <= sortAt < year_10000 -> in_int64 id ->
  decodeCursor (encodeCursor sortAt id) = Ok (sortAt, id).
Proof.
  intros Hs Hid. unfold decodeCursor, encodeCursor.
  pose proof (base64_nonempty _ (strings_nonempty [cursorVersion; format_nano sortAt; itoa id])) as Hn.
  destruct (base64_encode _) eqn:E; [done|]. cbn [is_empty]. rewrite <-E, base64_inverse, strings_inverse.
  - by rewrite String.eqb_refl, format_inverse, Sscanf_itoa.
  - repeat constructor; [apply format_text|]. apply ValidString_ascii. eapply all_bytes_impl; [|apply itoa_bytes].
    intros b. cbn. lia.
Qed.

(** ** The order of the rows *)

Definition below (a b : Row) : Prop := r_sort b < r_sort a \/ (r_sort a = r_sort b /\ r_id b < r_id a).

#[local] Instance ahead_total : Total ahead.
Proof. intros a b. unfold ahead. lia. Qed.
#[local] Instance ahead_trans : Transitive ahead.
Proof. intros a b c. unfold ahead. lia. Qed.

Lemma all_rows_elem t r : r ∈ all_rows t <-> exists e, notification t !! r_id r = Some e /\ r = row_of (r_id r, e).
Proof.
  unfold all_rows. rewrite merge_sort_Permutation, list_elem_of_fmap. split.
  - intros ([id e] & -> & He%elem_of_map_to_list). by exists e.
  - intros (e & He & ->). exists (r_id r, e). split; [done|]. by apply elem_of_map_to_list.
Qed.

Lemma all_rows_ids t : NoDup (r_id <$> all_rows t).
Proof.
  unfold all_rows. rewrite merge_sort_Permutation, <-list_fmap_compose. apply NoDup_fst_map_to_list.
Qed.

Lemma StronglySorted_strict l : StronglySorted ahead l -> NoDup (r_id <$> l) -> StronglySorted below l.
Proof.
  induction 1 as [|r l _ IH Hf]; intros Hnd; [constructor|]. cbn in Hnd. apply NoDup_cons in Hnd as [Hr Hnd].
  constructor; [by apply IH|]. rewrite Forall_forall in Hf |- *. intros x Hx. destruct (Hf x Hx) as [|[He Hle]]; [by left|].
  right. split; [done|]. destruct (Z.eq_dec (r_id x) (r_id r)) as [Heq|]; [|lia].
  destruct Hr. rewrite <-Heq. by apply list_elem_of_fmap_2.
Qed.

Lemma all_rows_sorted t : StronglySorted below (all_rows t).
Proof. apply StronglySorted_strict; [apply StronglySorted_merge_sort; apply _|apply all_rows_ids]. Qed.

(** The rows of a user, of some reasons. *)
Definition inbox (did : string) (reasons : list string) (t : tables) : list Row :=
  filter (fun r => r_did r = did /\ reason_ok reasons r = true) (all_rows t).

Lemma inbox_sorted did reasons t : StronglySorted below (inbox did reasons t).
Proof. apply StronglySorted_filter, all_rows_sorted. Qed.

(** What is after a row, and what a cursor without a time leaves. *)
Lemma inbox_after did reasons t l1 r l2 : inbox did reasons t = l1 ++ r :: l2 -> r_sort r <> 0 ->
  filter (fun x => after_cursor (r_sort r) (r_id r) x = true) (inbox did reasons t) = l2.
Proof.
  intros Hi Hr. pose proof (inbox_sorted did reasons t) as Hs. rewrite Hi in Hs |- *.
  destruct (StronglySorted_split _ _ _ _ Hs) as [H1 H2].
  assert (forall x, after_cursor (r_sort r) (r_id r) x = true <-> below r x) as Hb.
  { intros x. unfold after_cursor, below. rewrite !orb_true_iff, andb_true_iff, !Z.ltb_lt, !Z.eqb_eq. lia. }
  rewrite filter_app, filter_cons_False; [|rewrite Hb; unfold below; lia].
  rewrite filter_none, filter_all; [done| |].
  - intros x Hx. apply Hb. by apply H2.
  - intros x Hx%Hb Hin%H1. unfold below in *. lia.
Qed.

(** ** A user who follows the cursors *)

Section Follow.
Context `{TimeText} `{CursorCodec}.

Fixpoint follow_pages (fuel : nat) (did : string) (reasons : list string) (first : Z) (after : string) (t : tables)
  : option (list Row) :=
  match fuel with
  | O => None
  | S f => match (List_ did reasons first after ([], t)).1 with
           | Err _ => None
           | Ok r => if is_empty (NextCursor r) then Some (Rows r)
                     else rest ← follow_pages f did reasons first (NextCursor r) t; Some (Rows r ++ rest)
           end
  end.

(** Times that the text of a cursor keeps, and the identifiers of the database. *)
Definition timely (t : tables) : Prop :=
  forall id e, notification t !! id = Some e -> 0 < e_sort e < year_10000 /\ in_int64 id.

Definition cursor_at (dn : list Row) : string :=
  match last dn with Some r => encodeCursor (r_sort r) (r_id r) | None => "" end.

Lemma cursor_nonempty_ sortAt id : is_empty (encodeCursor sortAt id) = false.
Proof.
  pose proof (base64_nonempty _ (strings_nonempty [cursorVersion; format_nano sortAt; itoa id])) as Hn.
  unfold encodeCursor. by destruct (base64_encode _).
Qed.

Lemma timely_inbox did reasons t r : timely t -> r ∈ inbox did reasons t -> 0 < r_sort r < year_10000 /\ in_int64 (r_id r).
Proof. intros Ht [_ (e & He & Hr)%all_rows_elem]%list_elem_of_filter. apply Ht in He. by rewrite Hr. Qed.

Lemma page_limit_range first : 1 <= page_limit first <= 100.
Proof. unfold page_limit. case_match; lia. Qed.

Lemma decoded dn did reasons t rest : timely t -> inbox did reasons t = dn ++ rest ->
  exists sortAt id, decodeCursor (cursor_at dn) = Ok (sortAt, id) /\
    filter (fun x => after_cursor sortAt id x = true) (inbox did reasons t) = rest.
Proof.
  intros Ht Hi. unfold cursor_at. destruct (last dn) as [r|] eqn:Hl.
  - apply last_Some in Hl as [d' ->]. rewrite <-app_assoc in Hi. cbn in Hi. exists (r_sort r), (r_id r).
    assert (r ∈ inbox did reasons t) as Hin by (rewrite Hi; set_solver).
    apply (timely_inbox _ _ _ _ Ht) in Hin as [Hs Hid].
    split; [|eapply inbox_after; [exact Hi|lia]].
    apply decode_encode_cursor; [lia|done].
  - apply last_None in Hl as ->. exists 0, 0. split; [done|]. cbn in Hi. rewrite <-Hi. by apply filter_all.
Qed.

Lemma List_page dn did reasons first t rest : timely t -> inbox did reasons t = dn ++ rest ->
  let n := Z.to_nat (page_limit first) in
  exists r, List_ did reasons first (cursor_at dn) ([], t) = (Ok r, ([], t)) /\ Rows r = take n rest /\
    NextCursor r = (if Nat.ltb n (length rest) then cursor_at (dn ++ take n rest) else "").
Proof.
  intros Ht Hi n. destruct (decoded dn did reasons t rest Ht Hi) as (sortAt & id & Hd & Hf).
  unfold List_. rewrite Hd. unfold mbind, M_bind, mret, M_ret, stmt, Statements.stmt. cbn [head default tail fst snd].
  pose proof (page_limit_range first) as Hl. unfold select_rows. cbn [fst snd].
  assert (filter (fun r => r_did r = did /\ reason_ok reasons r = true /\ after_cursor sortAt id r = true) (all_rows t) = rest) as ->.
  { rewrite <-Hf. unfold inbox. rewrite list_filter_filter. apply list_filter_iff. intros x. tauto. }
  replace (Z.to_nat (page_limit first + 1)) with (S n) by (subst n; lia). rewrite length_take.
  assert ((page_limit first <? Z.of_nat (S n `min` length rest)) = Nat.ltb n (length rest)) as ->.
  { apply eq_true_iff_eq. rewrite Z.ltb_lt, Nat.ltb_lt. lia. }
  eexists. split; [reflexivity|]. cbn [Rows NextCursor]. fold n.
  destruct (Nat.ltb_spec n (length rest)).
  - rewrite take_take, Nat.min_l by lia. split; [done|]. unfold cursor_at. rewrite last_app.
    destruct (last (take n rest)) as [l|] eqn:Hlast; [done|]. apply last_None in Hlast.
    apply (f_equal length) in Hlast. rewrite length_take in Hlast. cbn in Hlast. lia.
  - by rewrite !take_ge by lia.
Qed.

Lemma follow_pages_spec fuel did reasons first t : forall dn rest, timely t -> inbox did reasons t = dn ++ rest ->
  (length rest < fuel)%nat -> follow_pages fuel did reasons first (cursor_at dn) t = Some rest.
Proof.
  induction fuel as [|f IH]; intros dn rest Ht Hi Hf; [lia|]. cbn [follow_pages].
  destruct (List_page dn did reasons first t rest Ht Hi) as (r & -> & Hr & Hn). cbn [fst]. rewrite Hn, Hr.
  pose proof (page_limit_range first) as Hl. set (n := Z.to_nat (page_limit first)) in *.
  destruct (Nat.ltb_spec n (length rest)) as [Hlt|Hge]; [|by rewrite take_ge by lia].
  assert (is_empty (cursor_at (dn ++ take n rest)) = false) as ->.
  { unfold cursor_at. rewrite last_app. destruct (last (take n rest)) as [l|] eqn:Hlast; [apply cursor_nonempty_|].
    apply last_None, (f_equal length) in Hlast. rewrite length_take in Hlast. cbn in Hlast. lia. }
  rewrite (IH (dn ++ take n rest) (drop n rest)); [cbn; by rewrite take_drop|done| |].
  - by rewrite <-app_assoc, take_drop.
  - rewrite length_drop. lia.
Qed.
End Follow.

(** ** What a user sees *)

Section Seen.
Context `{TimeText} `{CursorCodec}.

(** C26: the cursor of a notification decodes to the time and the identifier
    that it was made of. *)
Theorem notification_cursor_roundtrip sortAt id : 0 <= sortAt < year_10000 -> in_int64 id ->
  decodeCursor (encodeCursor sortAt id) = Ok (sortAt, id).
Proof. apply decode_encode_cursor. Qed.

(** C25: a user who follows the cursors from page to page, whatever the size of
    the pages, reads every notification of the chosen reasons exactly once,
    newest first, those of one instant by identifier, and comes to an end. *)
Theorem inbox_complete did reasons first t : timely t ->
  let l := inbox did reasons t in
  follow_pages (S (length l)) did reasons first "" t = Some l /\ StronglySorted below l /\
  (forall r, r ∈ l <-> exists id e, notification t !! id = Some e /\ r = row_of (id, e) /\ e_did e = did /\
                         reason_ok reasons r = true).
Proof.
  intros Ht l. split_and!; [apply (follow_pages_spec _ _ _ _ _ []); [done|done|lia]|apply inbox_sorted|].
  intros r. subst l. unfold inbox. rewrite list_elem_of_filter, all_rows_elem. split.
  - intros ((Hd & Hr) & e & He & Heq). exists (r_id r), e. split_and!; [done|done| |done]. by rewrite Heq in Hd.
  - intros (id & e & He & -> & Hd & Hr). split; [done|]. by exists e.
Qed.

(** The notifications that a page shows as not read. *)
Definition unread (did : string) (t : tables) : list Row :=
  filter (fun r => isRead (node_of (default 0 (last_seen t !! did)) r).2 = false) (inbox did [] t).

(** C23: the unread count is the number of notifications that the pages show as
    not read, up to 50, and says whether there are more. *)
Theorem unread_agrees did t : (forall id e, notification t !! id = Some e -> epoch < e_sort e) ->
  UnreadCount did ([], t) =
  (Ok (Z.min UnreadCountCap (Z.of_nat (length (unread did t))), bool_decide (UnreadCountCap < Z.of_nat (length (unread did t)))),
   ([], t)).
Proof.
  intros Ht. unfold UnreadCount, mbind, M_bind, mret, M_ret, stmt, Statements.stmt. cbn [head default tail fst snd].
  assert (filter (fun r => r_did r = did /\ default epoch (last_seen t !! did) < r_sort r) (all_rows t) = unread did t) as ->.
  { unfold unread, inbox. rewrite list_filter_filter. apply filter_ext_in. intros r (e & He%Ht & Hr)%all_rows_elem.
    cbn. rewrite negb_false_iff, Z.ltb_lt. assert (epoch < r_sort r) by by rewrite Hr. clear Hr.
    destruct (last_seen t !! did); cbn; [tauto|]. unfold epoch in *. intuition lia. }
  rewrite length_take. f_equal. f_equal. destruct (Z.ltb_spec UnreadCountCap (Z.of_nat (Z.to_nat (UnreadCountCap + 1) `min` length (unread did t)))).
  - f_equal; [unfold UnreadCountCap in *; lia|]. symmetry. apply bool_decide_eq_true. lia.
  - unfold UnreadCountCap in *. f_equal; [lia|]. symmetry. apply bool_decide_eq_false. lia.
Qed.

(** A history of updates of what was seen, with the time of each. *)
Fixpoint seen_run (ops : list (Z * string * Z)) (s : list fate * tables) : list fate * tables :=
  match ops with [] => s | (now, did, seenAt) :: ops => seen_run ops (UpdateSeen now did seenAt s).2 end.

Lemma UpdateSeen_spec now did seenAt t : exists w, UpdateSeen now did seenAt ([], t) =
    (Ok (), ([], {| notification := notification t; next_id := next_id t; participants := participants t;
                    last_seen := <[did := w]> (last_seen t) |})) /\
  w = Z.max (default w (last_seen t !! did)) (if (seenAt =? 0) || (now <? seenAt) then now else seenAt) /\
  (w <= now \/ last_seen t !! did = Some w).
Proof.
  unfold UpdateSeen, stmt, Statements.stmt. cbn. set (s := if _ || _ then now else seenAt).
  assert (s <= now) by (subst s; case_match eqn:E; [lia|apply orb_false_iff in E; lia]).
  destruct (last_seen t !! did) as [old|]; eexists; (split; [reflexivity|]); cbn; split; try lia.
  destruct (Z.le_gt_cases s old); [right; f_equal; lia|left; lia].
Qed.

(** Over any updates of what was seen, whatever instants they name, the
    watermark of a user never goes back and never passes the clock. *)
Theorem seen_monotone ops t did clock : (forall now d s, (now, d, s) ∈ ops -> now <= clock) ->
  (forall w, last_seen t !! did = Some w -> w <= clock) ->
  let t' := (seen_run ops ([], t)).2 in
  (forall w, last_seen t !! did = Some w -> exists w', last_seen t' !! did = Some w' /\ w <= w') /\
  (forall w', last_seen t' !! did = Some w' -> w' <= clock) /\ notification t' = notification t.
Proof.
  revert t. induction ops as [|[[now d] s] ops IH]; intros t Hc Hw; [cbn; split_and!; [|done|done]|]; cbn.
  { intros w Hwt. exists w. split; [done|lia]. }
  destruct (UpdateSeen_spec now d s t) as (w & -> & Hmax & Hle). cbn [snd].
  set (t1 := {| notification := _; last_seen := _ |}).
  assert (now <= clock) as Hnow by (apply (Hc now d s); left).
  destruct (IH t1) as (Hm1 & Hm2 & Hm3).
  - intros n d' s' Hin. apply (Hc n d' s'). by right.
  - intros w' Hw'. cbn in Hw'. apply lookup_insert_Some in Hw' as [[-> <-]|[_ Hw']]; [|by apply Hw].
    destruct Hle as [|Hold]; [lia|by apply Hw].
  - split_and!; [|done|done]. intros w0 Hw0. destruct (String.eqb_spec d did) as [->|Hne].
    + destruct (Hm1 w) as (w' & Hw' & Hww); [cbn; by rewrite lookup_insert_eq|]. exists w'. split; [done|].
      rewrite Hw0 in Hmax. cbn in Hmax. lia.
    + destruct (Hm1 w0) as (w' & Hw' & Hww); [cbn; by rewrite lookup_insert_ne|]. by exists w'.
Qed.

(** Marking everything seen leaves nothing unread of what is not from the
    future, and leaves the other users alone. *)
Theorem seen_reads now did t : (forall id e, notification t !! id = Some e -> e_sort e <= now) ->
  let t' := (UpdateSeen now did 0 ([], t)).2.2 in
  unread did t' = [] /\ (forall did', did' <> did -> unread did' t' = unread did' t).
Proof.
  intros Ht t'. subst t'. destruct (UpdateSeen_spec now did 0 t) as (w & -> & Hmax & _). cbn [snd]. cbn in Hmax. split.
  - unfold unread. cbn. rewrite lookup_insert_eq. cbn. apply filter_none. intros r Hr.
    intros [_ (e & He%Ht & Heq)%all_rows_elem]%list_elem_of_filter. apply negb_false_iff, Z.ltb_lt in Hr.
    assert (r_sort r <= now) by by rewrite Heq. lia.
  - intros d Hd. unfold unread. cbn. by rewrite lookup_insert_ne.
Qed.
End Seen.

(** ** Deleting what is old *)

Lemma old_ids_elem olderThan t id : id ∈ old_ids olderThan t <-> exists e, notification t !! id = Some e /\ e_sort e < olderThan.
Proof.
  unfold old_ids. rewrite merge_sort_Permutation. change (map fst ?l) with (fst <$> l). rewrite list_elem_of_fmap. split.
  - intros ([i e] & -> & [Hs He%elem_of_map_to_list]%list_elem_of_filter). by exists e.
  - intros (e & He & Hs). exists (id, e). split; [done|]. apply list_elem_of_filter. split; [done|]. by apply elem_of_map_to_list.
Qed.

Lemma old_ids_NoDup olderThan t : NoDup (old_ids olderThan t).
Proof.
  unfold old_ids. rewrite merge_sort_Permutation. change (map fst ?l) with (fst <$> l).
  apply settled_keys, NoDup_fst_map_to_list.
Qed.

Definition drop_all (ids : list Z) (t : tables) : tables := fold_left (fun t id => drop_envelope id t) ids t.

Lemma drop_all_lookup ids : forall t id,
  notification (drop_all ids t) !! id = if decide (id ∈ ids) then None else notification t !! id.
Proof.
  induction ids as [|i ids IH]; intros t id; cbn; [done|]. change (fold_left _ ids ?x) with (drop_all ids x). rewrite IH. cbn.
  destruct (decide (id = i)) as [->|Hne].
  - rewrite lookup_delete_eq. rewrite (decide_True (P := i ∈ i :: ids)) by left. by case_decide.
  - rewrite lookup_delete_ne by done. destruct (decide (id ∈ ids)); [by rewrite decide_True by (by right)|].
    by rewrite decide_False by (by intros [?|?]%elem_of_cons).
Qed.

Lemma drop_all_participants ids : forall t, participants (drop_all ids t) = filter (fun p => p_notification p ∉ ids) (participants t).
Proof.
  induction ids as [|i ids IH]; intros t; cbn.
  - symmetry. apply filter_all. intros p _. apply not_elem_of_nil.
  - change (fold_left _ ids ?x) with (drop_all ids x). rewrite IH. cbn. rewrite list_filter_filter. apply list_filter_iff.
    intros p. rewrite not_elem_of_cons. tauto.
Qed.

Lemma drop_envelope_ok id t : ok t -> ok (drop_envelope id t).
Proof.
  intros Hok. assert (forall i e, notification (drop_envelope id t) !! i = Some e <-> i <> id /\ notification t !! i = Some e) as Hl.
  { intros i e. cbn. rewrite lookup_delete_Some. naive_solver. }
  split.
  - intros i e [_ He]%Hl. by apply (ok_ids _ _ Hok) in He.
  - intros i e [Hne He]%Hl _. cbn. rewrite of_notification_filter, filter_all; [by apply (ok_shows _ _ Hok); [|apply not_elem_of_nil]|].
    by intros p [<- _]%list_elem_of_filter.
  - by intros i Hi%elem_of_nil.
  - intros p [Hne Hp]%list_elem_of_filter. destruct (ok_owner _ _ Hok p Hp) as (e & He & Hd). exists e. split; [|done].
    by apply Hl.
  - apply settled_keys, Hok.
  - intros i1 i2 e1 e2 g [_ H1]%Hl [_ H2]%Hl. by apply (ok_groups _ _ Hok).
Qed.

Lemma drop_all_ok ids : forall t, ok t -> ok (drop_all ids t).
Proof. induction ids as [|id ids IH]; intros t Hok; [done|]. apply IH, drop_envelope_ok, Hok. Qed.

Lemma length_left olderThan ids rest t : ids ++ rest = old_ids olderThan t ->
  (length ids + length (old_ids olderThan (drop_all ids t)) <= length (old_ids olderThan t))%nat.
Proof.
  intros Hsplit. rewrite <-Hsplit, length_app.
  assert (length (old_ids olderThan (drop_all ids t)) <= length rest)%nat; [|lia].
  apply submseteq_length, NoDup_submseteq; [apply old_ids_NoDup|]. intros id (e & He & Hs)%old_ids_elem.
  rewrite drop_all_lookup in He. case_decide as Hd; [done|].
  assert (id ∈ ids ++ rest) as [|]%elem_of_app; [|done|done]. rewrite Hsplit. apply old_ids_elem. eauto.
Qed.

(** The worker that deletes batch after batch as long as there may be more. *)
Fixpoint retain (fuel : nat) (olderThan batchSize : Z) (t : tables) : option tables :=
  match fuel with
  | O => None
  | S f => match DeleteOldNotifications olderThan batchSize ([], t) with
           | (Ok true, (_, t)) => retain f olderThan batchSize t
           | (Ok false, (_, t)) => Some t
           | (Err _, _) => None
           end
  end.

Lemma DeleteOld_works olderThan batchSize t : 0 < batchSize ->
  let ids := take (Z.to_nat batchSize) (old_ids olderThan t) in
  DeleteOldNotifications olderThan batchSize ([], t) =
  (Ok (batchSize <=? Z.of_nat (length ids)), ([], drop_all ids t)).
Proof.
  intros Hb ids. unfold DeleteOldNotifications, mbind, M_bind, mret, M_ret, stmt, Statements.stmt, delete_old. cbn [head default tail fst snd].
  by rewrite (proj2 (Z.ltb_ge batchSize 0)) by lia.
Qed.

(** What is left when exactly what is old is gone. *)
Definition retained (olderThan : Z) (t t' : tables) : Prop :=
  ok t' /\ (forall id e, notification t' !! id = Some e <-> notification t !! id = Some e /\ olderThan <= e_sort e) /\
  (forall p, p ∈ participants t' <-> p ∈ participants t /\ exists e, notification t !! p_notification p = Some e /\ olderThan <= e_sort e).

Lemma retain_spec fuel olderThan batchSize : 0 < batchSize -> forall t, ok t -> (length (old_ids olderThan t) < fuel)%nat ->
  exists t', retain fuel olderThan batchSize t = Some t' /\ retained olderThan t t'.
Proof.
  intros Hb. induction fuel as [|f IH]; intros t Hok Hf; [lia|]. cbn [retain]. rewrite DeleteOld_works by done.
  set (ids := take _ _). pose proof (drop_all_ok ids t Hok) as Hok1.
  assert (forall id, id ∈ ids -> exists e, notification t !! id = Some e /\ e_sort e < olderThan) as Hold.
  { intros id Hid. apply old_ids_elem. rewrite <-(take_drop (Z.to_nat batchSize)). apply elem_of_app. by left. }
  assert (forall id e, notification t !! id = Some e -> olderThan <= e_sort e -> id ∉ ids) as Hyoung.
  { intros id e He Hs Hid. destruct (Hold id Hid) as (e' & He' & Hs'). rewrite He in He'. injection He' as <-. lia. }
  destruct (Z.leb_spec batchSize (Z.of_nat (length ids))) as [Hle|Hlt].
  - destruct (IH (drop_all ids t) Hok1) as (t' & Ht' & Hok' & Hn & Hp).
    { pose proof (length_left olderThan ids (drop (Z.to_nat batchSize) (old_ids olderThan t)) t) as Hleft.
      subst ids. rewrite take_drop in Hleft. specialize (Hleft eq_refl). lia. }
    exists t'. split; [done|]. split_and!; [done| |].
    + intros id e. rewrite Hn, drop_all_lookup. split; [by destruct (decide (id ∈ ids)); [intros [? _]|]|]. intros [He Hs].
      by rewrite decide_False by (by eapply Hyoung).
    + intros p. rewrite Hp, drop_all_participants, list_elem_of_filter, drop_all_lookup. split.
      * intros [[Hni Hin] (e & He & Hs)]. case_decide; [done|]. eauto.
      * intros [Hin (e & He & Hs)]. pose proof (Hyoung _ _ He Hs). rewrite decide_False by done. eauto.
  - exists (drop_all ids t). split; [done|]. assert (forall id, id ∈ ids <-> exists e, notification t !! id = Some e /\ e_sort e < olderThan) as Hall.
    { intros id. rewrite <-old_ids_elem. subst ids. rewrite length_take in Hlt. rewrite take_ge by lia. done. }
    split_and!; [done| |].
    + intros id e. rewrite drop_all_lookup. split.
      * case_decide as Hd; [done|]. intros He. split; [done|]. apply Z.nlt_ge. intros Hs. apply Hd, Hall. eauto.
      * intros [He Hs]. by rewrite decide_False by (by eapply Hyoung).
    + intros p. rewrite drop_all_participants, list_elem_of_filter. split.
      * intros [Hni Hin]. split; [done|]. destruct (ok_owner _ _ Hok p Hin) as (e & He & _). exists e. split; [done|].
        apply Z.nlt_ge. intros Hs. apply Hni, Hall. eauto.
      * intros [Hin (e & He & Hs)]. split; [by eapply Hyoung|done].
Qed.

(** Deleting batch after batch, as long as a batch was full, ends, and leaves
    exactly the notifications that are not older than the cutoff, with their
    participants. *)
Theorem retention_complete olderThan batchSize t : 0 < batchSize -> ok t ->
  exists t', retain (S (length (old_ids olderThan t))) olderThan batchSize t = Some t' /\ retained olderThan t t'.
Proof. intros Hb Hok. apply retain_spec; [done|done|lia]. Qed.

(** ** Examples *)

Module Example_inbox.
Import Example_notify.
Existing Instance toy.
#[local] Existing Instance Example_pages.codec.
Lemma year_int64 t : 0 <= t < year_10000 -> in_int64 t.
Proof. unfold in_int64, int64_min, int64_max, year_10000. lia. Qed.
#[local] Instance times : TimeText.
Proof.
  refine {| format_nano := itoa |}.
  - intros t. apply ValidString_ascii. eapply all_bytes_impl; [|apply itoa_bytes]. intros b. cbn. lia.
  - intros t Ht. apply ParseInt_itoa, year_int64, Ht.
Defined.

Definition envelope (did : string) (sortAt : Z) : Envelope :=
  {| e_did := did; e_reason := ReasonActivityContributor; e_subject := None; e_group := None; e_sort := sortAt;
     e_count := 1; latest_uri := "u"; latest_cid := "c"; latest_author := carol |}.
(** Three of Bob, two of them at one instant, and one of Alice. *)
Definition now : Z := epoch + 1000.
Definition kept : tables :=
  {| notification := {[1 := envelope bob (epoch + 5); 2 := envelope bob (epoch + 7); 3 := envelope bob (epoch + 7);
                       4 := envelope alice (epoch + 9)]};
     next_id := 5; participants := []; last_seen := {[bob := epoch + 5]} |}.

Lemma kept_all (P : Z -> Envelope -> Prop) :
  P 1 (envelope bob (epoch + 5)) -> P 2 (envelope bob (epoch + 7)) -> P 3 (envelope bob (epoch + 7)) ->
  P 4 (envelope alice (epoch + 9)) -> forall id e, notification kept !! id = Some e -> P id e.
Proof.
  intros H1 H2 H3 H4 id e. cbn [notification kept]. rewrite !lookup_insert_Some, lookup_singleton_Some.
  by intros [[<- <-]|[_ [[<- <-]|[_ [[<- <-]|[_ [<- <-]]]]]]].
Qed.

Lemma kept_timely : timely kept.
Proof. intros id e. revert id e. apply kept_all; (split; [unfold epoch, year_10000; cbn; lia|by vm_compute]). Qed.

Example kept_pages : (fun l : list Row => r_id <$> l) <$> follow_pages 4 bob [] 1 "" kept = Some [3; 2; 1].
Proof. vm_compute. reflexivity. Qed.
Example kept_unread : UnreadCount bob ([], kept) = (Ok (2, false), ([], kept)).
Proof. vm_compute. reflexivity. Qed.

Lemma notification_cursor_roundtrip_witness : decodeCursor (encodeCursor 5 (-3)) = Ok (5, -3).
Proof. apply notification_cursor_roundtrip; [unfold year_10000; lia|by vm_compute]. Defined.

Lemma inbox_complete_witness :
  follow_pages (S (length (inbox bob [] kept))) bob [] 2 "" kept = Some (inbox bob [] kept).
Proof. apply (inbox_complete bob [] 2 kept kept_timely). Defined.

Lemma unread_agrees_witness : length (unread bob kept) = 2%nat /\ (UnreadCount bob ([], kept)).1 = Ok (2, false).
Proof.
  split; [by vm_compute|]. rewrite (unread_agrees bob kept); [by vm_compute|].
  apply kept_all; unfold epoch; cbn; lia.
Defined.

Lemma seen_monotone_witness :
  let t' := (seen_run [(now, bob, epoch); (now, bob, now + 50)] ([], kept)).2 in
  last_seen t' !! bob = Some now /\ notification t' = notification kept.
Proof.
  split; [by vm_compute|].
  apply (seen_monotone [(now, bob, epoch); (now, bob, now + 50)] kept bob now).
  - intros n d s. rewrite !elem_of_cons. intros [[= -> _ _]|[[= -> _ _]|Hin%elem_of_nil]]; [lia|lia|done].
  - intros w. cbn [last_seen kept]. rewrite lookup_singleton_Some. intros [_ <-]. unfold now. lia.
Defined.

Lemma seen_reads_witness : unread bob (UpdateSeen now bob 0 ([], kept)).2.2 = [].
Proof. apply seen_reads. apply kept_all; unfold now; cbn; lia. Defined.

Definition noted : tables := (run history ([], no_tables)).2.2.
Lemma noted_ok : ok noted.
Proof.
  destruct (run_works history no_tables [] no_tables_ok ltac:(constructor) history_orderly) as (t & Hr & Hok & _).
  unfold noted. by rewrite Hr.
Qed.

(** The endorsement from the instant 2 goes, the activity from 7 stays. *)
Lemma retention_complete_witness :
  old_ids 5 noted = [1] /\ exists t', retain (S (length (old_ids 5 noted))) 5 1 noted = Some t' /\ retained 5 noted t'.
Proof. split; [by vm_compute|]. apply (retention_complete 5 1 noted); [lia|apply noted_ok]. Defined.
End Example_inbox.
