(* ===== verification/WsClient.v ===== *)
(** [internal/graphql/subscription/handler.go]: the WebSocket of GraphQL
    subscriptions. One connection is a state machine of its reader, one worker
    for each subscription and the broker of [PubSub], in any interleaving; other
    connections and publishers move the broker. A context is named by the number
    of its worker. *)
From S2P Require Import Prelude GoStrings Json Depth PubSub.

Definition wsMaxSubsPerClient : nat := 64.
Definition maxSubscriptionQueryDepth : Z := 15.

(** ** Origins *)

Definition makeOriginChecker (allowedOrigins : list string) (origin : string) : bool :=
  match allowedOrigins with
  | [] | ["*"] => true
  | _ => is_empty origin || existsb (String.eqb origin) allowedOrigins
  end.

(** ** A connection *)

Record wsMessage := { m_id : string; m_type : string; m_payload : string }.
Record subscribePayload := { Query : string; Variables : obj; OperationName : string }.

(** What is written. *)
Inductive reply :=
| RAck | RPong
| RNext (id data : string)
| RErrors (id errors : string)
| RError (id message : string)
| RComplete (id : string).

(** Where the goroutine of a subscription is. *)
Inductive stage :=
| Starting
| Listening (sub : string)
| Leaving (sub : string)
| Completing
| Removing.
Record worker := { w_id : string; w_payload : subscribePayload; w_stage : stage }.

Record wsClient := {
  reading : bool; open_ : bool; close_done : bool; initialized : bool;
  subscriptions : gmap string nat; cancelled : gset nat; workers : gmap nat worker; next_ctx : nat;
  replies : list reply
}.

Definition new_client : wsClient :=
  {| reading := true; open_ := true; close_done := false; initialized := false; subscriptions := ∅; cancelled := ∅;
     workers := ∅; next_ctx := 0; replies := [] |}.

(** A message is written when the connection is open and the write [ok]. *)
Definition write (ok : bool) (m : reply) (c : wsClient) : wsClient :=
  {| reading := reading c; open_ := open_ c; close_done := close_done c; initialized := initialized c;
     subscriptions := subscriptions c; cancelled := cancelled c; workers := workers c; next_ctx := next_ctx c;
     replies := if open_ c && ok then replies c ++ [m] else replies c |}.

Definition with_init (c : wsClient) : wsClient :=
  {| reading := reading c; open_ := open_ c; close_done := close_done c; initialized := true;
     subscriptions := subscriptions c; cancelled := cancelled c; workers := workers c; next_ctx := next_ctx c;
     replies := replies c |}.
Definition with_workers (ws : gmap nat worker) (c : wsClient) : wsClient :=
  {| reading := reading c; open_ := open_ c; close_done := close_done c; initialized := initialized c;
     subscriptions := subscriptions c; cancelled := cancelled c; workers := ws; next_ctx := next_ctx c;
     replies := replies c |}.
Definition register (id : string) (p : subscribePayload) (c : wsClient) : wsClient :=
  {| reading := reading c; open_ := open_ c; close_done := close_done c; initialized := initialized c;
     subscriptions := <[id := next_ctx c]> (subscriptions c); cancelled := cancelled c;
     workers := <[next_ctx c := {| w_id := id; w_payload := p; w_stage := Starting |}]> (workers c);
     next_ctx := S (next_ctx c); replies := replies c |}.

(** [cancel()] of the context and [delete] of the entry. *)
Definition cancelSubscription (id : string) (c : wsClient) : wsClient :=
  match subscriptions c !! id with
  | Some k => {| reading := reading c; open_ := open_ c; close_done := close_done c; initialized := initialized c;
                 subscriptions := delete id (subscriptions c); cancelled := {[k]} ∪ cancelled c; workers := workers c;
                 next_ctx := next_ctx c; replies := replies c |}
  | None => c
  end.
Definition close (c : wsClient) : wsClient :=
  if close_done c then c
  else {| reading := reading c; open_ := false; close_done := true; initialized := initialized c; subscriptions := ∅;
          cancelled := list_to_set (snd <$> map_to_list (subscriptions c)) ∪ cancelled c; workers := workers c;
          next_ctx := next_ctx c; replies := replies c |}.

Section Connection.
(** The parser of queries, package json on frames and payloads, and the
    execution of a query on an event: its errors or its data. *)
Context (parse : string -> option (list Definition_)) (decode : string -> option wsMessage)
  (decode_payload : string -> option subscribePayload)
  (execute : subscribePayload -> RecordEvent -> string + string).

Definition handleSubscribe (ok : bool) (msg : wsMessage) (c : wsClient) : wsClient :=
  match decode_payload (m_payload msg) with
  | None => write ok (RError (m_id msg) "Invalid subscribe payload") c
  | Some payload =>
      match Check_ parse (Query payload) maxSubscriptionQueryDepth with
      | Err _ => write ok (RError (m_id msg) "Query too deeply nested") c
      | Ok _ =>
          if Nat.leb wsMaxSubsPerClient (size (subscriptions c))
          then write ok (RError (m_id msg) "Too many subscriptions on this connection") c
          else match subscriptions c !! m_id msg with
               | Some _ => write ok (RError (m_id msg) "Subscription ID already in use") c
               | None => register (m_id msg) payload c
               end
      end
  end.

Definition handleMessage (ok : bool) (msg : wsMessage) (c : wsClient) : wsClient :=
  if String.eqb (m_type msg) "connection_init" then write ok RAck (with_init c)
  else if String.eqb (m_type msg) "ping" then write ok RPong c
  else if String.eqb (m_type msg) "subscribe" then
    if initialized c then handleSubscribe ok msg c
    else write ok (RError (m_id msg) "Connection not initialized") c
  else if String.eqb (m_type msg) "complete" then cancelSubscription (m_id msg) c
  else if String.eqb (m_type msg) "connection_terminate" then close c
  else c.

Definition collection_of (p : subscribePayload) : string :=
  match Variables p !! "collection" with Some (JStr s) => s | _ => "" end.

(** ** The moves *)

(** [mine] keeps the names that the broker gave to this connection. *)
Record world := { cl : wsClient; br : PubSub; mine : gset string }.
Definition new_world (b : PubSub) : world := {| cl := new_client; br := b; mine := ∅ |}.

Inductive move :=
| MFrame (data : string) (ok : bool)
| MReadEnds
| MStart (k : nat)
| MEvent (k : nat) (ok : bool)
| MClosed (k : nat)
| MCancelled (k : nat)
| MUnsubscribe (k : nat)
| MComplete (k : nat) (ok : bool)
| MRemove (k : nat)
| MPublish (e : RecordEvent)
| MOtherSubscribe (collection : string)
| MOtherUnsubscribe (id : string)
| MOtherReceive (id : string).

Definition at_stage (k : nat) (w : worker) (s : stage) (c : wsClient) : wsClient :=
  with_workers (<[k := {| w_id := w_id w; w_payload := w_payload w; w_stage := s |}]> (workers c)) c.
Definition set_cl (c : wsClient) (x : world) : world := {| cl := c; br := br x; mine := mine x |}.
Definition set_br (b : PubSub) (x : world) : world := {| cl := cl x; br := b; mine := mine x |}.

Definition event_reply (id : string) (p : subscribePayload) (e : RecordEvent) : reply :=
  match execute p e with inl errors => RErrors id errors | inr data => RNext id data end.

(** One move, [None] when it cannot happen. *)
Definition perform (m : move) (x : world) : option world :=
  let c := cl x in
  match m with
  | MFrame data ok =>
      if reading c then
        Some (match decode data with Some msg => set_cl (handleMessage ok msg c) x | None => x end)
      else None
  | MReadEnds =>
      if reading c then
        let c := close c in
        Some (set_cl {| reading := false; open_ := open_ c; close_done := close_done c; initialized := initialized c;
                        subscriptions := subscriptions c; cancelled := cancelled c; workers := workers c;
                        next_ctx := next_ctx c; replies := replies c |} x)
      else None
  | MStart k =>
      w ← workers c !! k;
      match w_stage w with
      | Starting =>
          if (nextID (br x) <? int64_max)%Z then
            let '(b, sub) := Subscribe (br x) (collection_of (w_payload w)) in
            Some {| cl := at_stage k w (Listening sub) c; br := b; mine := {[sub]} ∪ mine x |}
          else None
      | _ => None
      end
  | MEvent k ok =>
      w ← workers c !! k;
      match w_stage w with
      | Listening sub =>
          r ← receive (br x) sub;
          Some {| cl := write ok (event_reply (w_id w) (w_payload w) r.1) c; br := r.2; mine := mine x |}
      | _ => None
      end
  | MClosed k =>
      w ← workers c !! k;
      match w_stage w with
      | Listening sub =>
          ch ← channels (br x) !! sub;
          match queue ch with
          | [] => if closed ch then Some (set_cl (at_stage k w (Leaving sub) c) x) else None
          | _ => None
          end
      | _ => None
      end
  | MCancelled k =>
      w ← workers c !! k;
      match w_stage w with
      | Listening sub => if bool_decide (k ∈ cancelled c) then Some (set_cl (at_stage k w (Leaving sub) c) x) else None
      | _ => None
      end
  | MUnsubscribe k =>
      w ← workers c !! k;
      match w_stage w with
      | Leaving sub => match Unsubscribe (br x) sub with
                       | Ok b => Some {| cl := at_stage k w Completing c; br := b; mine := mine x |}
                       | Err _ => None
                       end
      | _ => None
      end
  | MComplete k ok =>
      w ← workers c !! k;
      match w_stage w with
      | Completing => Some (set_cl (write ok (RComplete (w_id w)) (at_stage k w Removing c)) x)
      | _ => None
      end
  | MRemove k =>
      w ← workers c !! k;
      match w_stage w with
      | Removing =>
          let c := with_workers (delete k (workers c)) c in
          Some (set_cl {| reading := reading c; open_ := open_ c; close_done := close_done c;
                          initialized := initialized c; subscriptions := delete (w_id w) (subscriptions c);
                          cancelled := cancelled c; workers := workers c; next_ctx := next_ctx c;
                          replies := replies c |} x)
      | _ => None
      end
  | MPublish e => match Publish (br x) e with Ok b => Some (set_br b x) | Err _ => None end
  | MOtherSubscribe coll =>
      if (nextID (br x) <? int64_max)%Z then Some (set_br (Subscribe (br x) coll).1 x) else None
  | MOtherUnsubscribe id =>
      if bool_decide (id ∈ mine x) then None
      else match Unsubscribe (br x) id with Ok b => Some (set_br b x) | Err _ => None end
  | MOtherReceive id =>
      if bool_decide (id ∈ mine x) then None
      else r ← receive (br x) id; Some (set_br r.2 x)
  end.

Fixpoint perform_all (ms : list move) (x : world) : option world :=
  match ms with [] => Some x | m :: ms => x ← perform m x; perform_all ms x end.
End Connection.

(** ** The connection and the broker *)

Definition stage_sub (s : stage) : option string :=
  match s with Listening sub | Leaving sub => Some sub | _ => None end.

(** Each worker that has a subscription of the broker has one of its own, for
    the collection it asked for, and the connection has no other. *)
Record linked (ws : gmap nat worker) (b : PubSub) (mine : gset string) : Prop := {
  l_inv : inv b;
  l_mine : forall s, s ∈ mine -> is_Some (channels b !! s);
  l_sub : forall k w s, ws !! k = Some w -> stage_sub (w_stage w) = Some s ->
    s ∈ mine /\ subscribers b !! s = Some (collection_of (w_payload w));
  l_one : forall k k' w w' s, ws !! k = Some w -> ws !! k' = Some w' -> stage_sub (w_stage w) = Some s ->
    stage_sub (w_stage w') = Some s -> k = k';
  l_owned : forall s, s ∈ mine -> is_Some (subscribers b !! s) ->
    exists k w, ws !! k = Some w /\ stage_sub (w_stage w) = Some s
}.

Lemma linked_restage ws b mine k w s : linked ws b mine -> ws !! k = Some w -> stage_sub s = stage_sub (w_stage w) ->
  linked (<[k := {| w_id := w_id w; w_payload := w_payload w; w_stage := s |}]> ws) b mine.
Proof.
  intros [H1 H2 H3 H4 H5] Hk Hs.
  assert (forall j v t, <[k := {| w_id := w_id w; w_payload := w_payload w; w_stage := s |}]> ws !! j = Some v ->
    stage_sub (w_stage v) = Some t -> exists v', ws !! j = Some v' /\ w_payload v' = w_payload v /\ stage_sub (w_stage v') = Some t) as Hback.
  { intros j v t [[<- <-]|[_ Hj]]%lookup_insert_Some Ht; [|by exists v]. exists w. cbn in *. by rewrite <-Hs. }
  split; [done|done| | |].
  - intros j v t Hj Ht. destruct (Hback j v t Hj Ht) as (v' & Hj' & <- & Ht'). by eapply H3.
  - intros j j' v v' t Hj Hj' Ht Ht'. destruct (Hback _ _ _ Hj Ht) as (u & Hu & _ & Hut).
    destruct (Hback _ _ _ Hj' Ht') as (u' & Hu' & _ & Hut'). by eapply H4.
  - intros t Ht Hsub. destruct (H5 t Ht Hsub) as (j & v & Hj & Hv). destruct (decide (j = k)) as [->|Hne].
    + exists k. eexists. rewrite lookup_insert_eq. split; [done|]. cbn. congruence.
    + exists j, v. by rewrite lookup_insert_ne.
Qed.

Lemma linked_new ws b mine k w : linked ws b mine -> ws !! k = None -> stage_sub (w_stage w) = None ->
  linked (<[k := w]> ws) b mine.
Proof.
  intros [H1 H2 H3 H4 H5] Hk Hs. split; [done|done| | |].
  - intros j v t [[<- <-]|[_ Hj]]%lookup_insert_Some Ht; [congruence|by eapply H3].
  - intros j j' v v' t [[<- <-]|[_ Hj]]%lookup_insert_Some [[<- <-]|[_ Hj']]%lookup_insert_Some Ht Ht'; try congruence.
    by eapply H4.
  - intros t Ht Hsub. destruct (H5 t Ht Hsub) as (j & v & Hj & Hv). exists j, v. rewrite lookup_insert_ne by congruence. done.
Qed.

Lemma linked_gone ws b mine k w : linked ws b mine -> ws !! k = Some w -> stage_sub (w_stage w) = None ->
  linked (delete k ws) b mine.
Proof.
  intros [H1 H2 H3 H4 H5] Hk Hs. split; [done|done| | |].
  - intros j v t [_ Hj]%lookup_delete_Some Ht. by eapply H3.
  - intros j j' v v' t [_ Hj]%lookup_delete_Some [_ Hj']%lookup_delete_Some. by apply H4.
  - intros t Ht Hsub. destruct (H5 t Ht Hsub) as (j & v & Hj & Hv). exists j, v. rewrite lookup_delete_ne by congruence. done.
Qed.

(** The broker moves without changing what is [mine]. *)
Lemma linked_broker ws b b' mine : linked ws b mine -> inv b' ->
  (forall s, is_Some (channels b !! s) -> is_Some (channels b' !! s)) ->
  (forall s, s ∈ mine -> subscribers b' !! s = subscribers b !! s) -> linked ws b' mine.
Proof.
  intros [H1 H2 H3 H4 H5] Hi Hc Hs. split; [done|auto| |done|].
  - intros k w s Hk Hw. destruct (H3 k w s Hk Hw) as [Hm Hsub]. split; [done|]. by rewrite Hs.
  - intros s Hm. rewrite Hs by done. by apply H5.
Qed.

Lemma linked_start ws b mine k w : linked ws b mine -> ws !! k = Some w -> w_stage w = Starting ->
  (nextID b < int64_max)%Z ->
  let r := Subscribe b (collection_of (w_payload w)) in
  linked (<[k := {| w_id := w_id w; w_payload := w_payload w; w_stage := Listening r.2 |}]> ws) r.1 ({[r.2]} ∪ mine).
Proof.
  intros [H1 H2 H3 H4 H5] Hk Hw Hn r. destruct (Subscribe_fresh b H1 Hn) as (Hwr & Hc & Hsu).
  pose proof (inv_subscribe b (collection_of (w_payload w)) H1 Hn) as Hi. subst r. unfold Subscribe in *. rewrite Hwr in *. cbn in *.
  set (id := itoa (nextID b + 1)) in *.
  assert (id ∉ mine) as Hid by (intros [? Hx]%H2; congruence).
  split; cbn [subscribers channels].
  - done.
  - intros s [->%elem_of_singleton|Hs]%elem_of_union; [by rewrite lookup_insert_eq|].
    destruct (decide (s = id)) as [->|]; [by rewrite lookup_insert_eq|]. rewrite lookup_insert_ne by done. by apply H2.
  - intros j v t [[<- <-]|[Hne Hj]]%lookup_insert_Some Ht.
    + injection Ht as <-. rewrite lookup_insert_eq. set_solver.
    + destruct (H3 j v t Hj Ht) as [Hm Hsub]. split; [set_solver|]. rewrite lookup_insert_ne; [done|]. by intros ->.
  - intros j j' v v' t [[<- <-]|[_ Hj]]%lookup_insert_Some [[<- <-]|[_ Hj']]%lookup_insert_Some Ht Ht'; cbn in *.
    + done.
    + injection Ht as <-. by destruct (H3 _ _ _ Hj' Ht').
    + injection Ht' as <-. by destruct (H3 _ _ _ Hj Ht).
    + by eapply H4.
  - intros s [->%elem_of_singleton|Hs]%elem_of_union Hsub.
    + exists k. eexists. rewrite lookup_insert_eq. by split.
    + rewrite lookup_insert_ne in Hsub by (by intros ->). destruct (H5 s Hs Hsub) as (j & v & Hj & Hv).
      exists j, v. rewrite lookup_insert_ne; [done|]. intros <-. rewrite Hk in Hj. injection Hj as <-. by rewrite Hw in Hv.
Qed.

Lemma linked_leave ws b b' mine k w sub : linked ws b mine -> ws !! k = Some w -> w_stage w = Leaving sub ->
  Unsubscribe b sub = Ok b' ->
  linked (<[k := {| w_id := w_id w; w_payload := w_payload w; w_stage := Completing |}]> ws) b' mine.
Proof.
  intros [H1 H2 H3 H4 H5] Hk Hw Hu. pose proof (inv_unsubscribe b sub b' H1 Hu) as Hi.
  assert (stage_sub (w_stage w) = Some sub) as Hws by by rewrite Hw.
  destruct (H3 k w sub Hk Hws) as [Hm Hs].
  destruct (Unsubscribe_spec b sub H1) as [[Hno _]|(c & ch & _ & Hch & Hu')]; [congruence|].
  rewrite Hu in Hu'. injection Hu' as ->. split; cbn [subscribers channels] in *.
  - done.
  - intros s Hsm. destruct (decide (s = sub)) as [->|]; [by rewrite lookup_insert_eq|]. rewrite lookup_insert_ne by done. by apply H2.
  - intros j v t [[<- <-]|[Hne Hj]]%lookup_insert_Some Ht; [done|]. destruct (H3 j v t Hj Ht) as [Htm Ht'].
    split; [done|]. rewrite lookup_delete_ne; [done|]. intros <-. destruct Hne. by eapply (H4 k j).
  - intros j j' v v' t [[<- <-]|[_ Hj]]%lookup_insert_Some [[<- <-]|[_ Hj']]%lookup_insert_Some Ht Ht'; try done. by eapply H4.
  - intros s Hsm [x Hx]. apply lookup_delete_Some in Hx as [Hne Hx]. destruct (H5 s Hsm) as (j & v & Hj & Hv); [by eexists|].
    exists j, v. rewrite lookup_insert_ne; [done|]. intros <-. rewrite Hk in Hj. injection Hj as <-. congruence.
Qed.

Lemma linked_receive ws b mine id e b' : linked ws b mine -> receive b id = Some (e, b') -> linked ws b' mine.
Proof.
  intros Hl Hr. eapply linked_broker; [exact Hl|eapply inv_receive; [apply Hl|exact Hr]| |]; unfold receive in Hr;
    destruct (channels b !! id) as [[[|y q] cd]|]; try done; injection Hr as <- <-; [|done].
  intros t Ht. cbn. destruct (decide (t = id)) as [->|]; [by rewrite lookup_insert_eq|by rewrite lookup_insert_ne].
Qed.

Lemma linked_publish ws b mine e b' : linked ws b mine -> Publish b e = Ok b' -> linked ws b' mine.
Proof.
  intros Hl Hp. destruct (Publish_in_spec b _ e (l_inv _ _ _ Hl) (reflexivity _)) as (chans & Hp' & Hch).
  unfold Publish in Hp. pose proof (inv_publish b _ e b' (l_inv _ _ _ Hl) (reflexivity _) Hp) as Hi.
  rewrite Hp' in Hp. injection Hp as <-. eapply linked_broker; [exact Hl|done| |done].
  intros s [ch Hs]. cbn. rewrite Hch, Hs. by eexists.
Qed.

Lemma linked_other ws b mine coll : linked ws b mine -> (nextID b < int64_max)%Z -> linked ws (Subscribe b coll).1 mine.
Proof.
  intros Hl Hn. destruct (Subscribe_fresh b (l_inv _ _ _ Hl) Hn) as (Hw & Hc & Hsu).
  assert (forall s, s ∈ mine -> s <> itoa (nextID b + 1)) as Hne by (intros s [? Hs]%(l_mine _ _ _ Hl) ->; congruence).
  eapply linked_broker; [exact Hl|apply inv_subscribe; [apply Hl|done]| |]; unfold Subscribe; rewrite Hw; cbn.
  - intros s Hs. destruct (decide (s = itoa (nextID b + 1))) as [->|];
      [by rewrite lookup_insert_eq|by rewrite lookup_insert_ne].
  - intros s Hs%Hne. by rewrite lookup_insert_ne.
Qed.

Lemma linked_unsubscribe ws b mine id b' : linked ws b mine -> id ∉ mine -> Unsubscribe b id = Ok b' -> linked ws b' mine.
Proof.
  intros Hl Hm Hu. pose proof (inv_unsubscribe _ _ _ (l_inv _ _ _ Hl) Hu) as Hi.
  destruct (Unsubscribe_spec b id (l_inv _ _ _ Hl)) as [[_ Hu']|(c & ch & Hs & Hch & Hu')]; rewrite Hu in Hu'; injection Hu' as ->; [done|].
  eapply linked_broker; [exact Hl|done| |]; intros s Hs'; cbn.
  - destruct (decide (s = id)) as [->|]; [by rewrite lookup_insert_eq|by rewrite lookup_insert_ne].
  - rewrite lookup_delete_ne; [done|]. by intros ->.
Qed.

(** ** What a frame does *)

Definition plain (m : reply) : Prop := match m with RNext _ _ | RErrors _ _ => False | _ => True end.

(** What a frame does that starts no subscription. *)
Inductive quiet (c : wsClient) : wsClient -> Prop :=
| quiet_write ok m : plain m -> quiet c (write ok m c)
| quiet_init ok : quiet c (write ok RAck (with_init c))
| quiet_cancel id : quiet c (cancelSubscription id c)
| quiet_close : quiet c (close c)
| quiet_same : quiet c c.

Section Frames.
Context (parse : string -> option (list Definition_)) (decode : string -> option wsMessage)
  (decode_payload : string -> option subscribePayload) (execute : subscribePayload -> RecordEvent -> string + string).

(** A frame that asks for a subscription, with its payload. *)
Definition asks (msg : wsMessage) (p : subscribePayload) : Prop :=
  m_type msg = "subscribe" /\ decode_payload (m_payload msg) = Some p /\
  Check_ parse (Query p) maxSubscriptionQueryDepth = Ok ().

Lemma handleMessage_cases ok msg c : let c' := handleMessage parse decode_payload ok msg c in
  (quiet c c' /\ (initialized c' = true -> initialized c = true \/ m_type msg = "connection_init")) \/
  (exists p, asks msg p /\ initialized c = true /\ (size (subscriptions c) < wsMaxSubsPerClient)%nat /\
     subscriptions c !! m_id msg = None /\ c' = register (m_id msg) p c).
Proof.
  unfold handleMessage, handleSubscribe, asks.
  destruct (String.eqb_spec (m_type msg) "connection_init") as [->|_]; [left; split; [constructor|by right]|].
  destruct (String.eqb_spec (m_type msg) "ping") as [->|_]; [left; split; [by constructor|by left]|].
  destruct (String.eqb_spec (m_type msg) "subscribe") as [->|_].
  { destruct (initialized c) eqn:Hi; [|left; split; [by constructor|intros H; cbn in H; congruence]].
    destruct (decode_payload _) as [p|]; [|left; split; [by constructor|by left]].
    destruct (Check_ parse _ _) as [[]|] eqn:Hc; [|left; split; [by constructor|by left]].
    destruct (Nat.leb_spec wsMaxSubsPerClient (size (subscriptions c))); [left; split; [by constructor|by left]|].
    destruct (subscriptions c !! m_id msg) eqn:Hs; [left; split; [by constructor|by left]|].
    right. exists p. by split_and!. }
  destruct (String.eqb (m_type msg) "complete").
  { left. split; [constructor|]. unfold cancelSubscription. by destruct (_ !! _); left. }
  destruct (String.eqb (m_type msg) "connection_terminate"); [|left; split; [constructor|by left]].
  left. split; [constructor|]. unfold close. by destruct (close_done c); left.
Qed.

Lemma quiet_workers c c' : quiet c c' -> workers c' = workers c /\ next_ctx c' = next_ctx c.
Proof.
  intros []; try done.
  - unfold cancelSubscription. by destruct (_ !! _).
  - unfold close. by destruct (close_done c).
Qed.

Lemma quiet_replies c c' r : quiet c c' -> r ∈ replies c' -> ~ plain r -> r ∈ replies c.
Proof.
  assert (forall ok m c, plain m -> r ∈ replies (write ok m c) -> ~ plain r -> r ∈ replies c) as Hw.
  { intros ok m d Hm. cbn. destruct (_ && _); [|done]. intros [| ->%list_elem_of_singleton]%elem_of_app; done. }
  intros [].
  - by apply Hw.
  - by apply (Hw _ _ (with_init c)).
  - unfold cancelSubscription. by destruct (_ !! _).
  - unfold close. by destruct (close_done c).
  - done.
Qed.

Definition fresh (c : wsClient) : Prop := forall k w, workers c !! k = Some w -> (k < next_ctx c)%nat.

Lemma fresh_at k w s c : fresh c -> workers c !! k = Some w -> fresh (at_stage k w s c).
Proof. intros Hf Hk j v. cbn. intros [[<- _]|[_ Hj]]%lookup_insert_Some; by eapply Hf. Qed.

Lemma perform_linked m x x' : linked (workers (cl x)) (br x) (mine x) -> fresh (cl x) ->
  perform parse decode decode_payload execute m x = Some x' ->
  linked (workers (cl x')) (br x') (mine x') /\ fresh (cl x').
Proof.
  intros Hl Hf. destruct m; cbn [perform].
  - destruct (reading (cl x)); [|done]. intros [= <-]. destruct (decode data) as [msg|]; [|done].
    destruct (handleMessage_cases ok msg (cl x)) as [[Hq _]|(p & _ & _ & _ & _ & Hc)]; cbn [cl br mine set_cl].
    + destruct (quiet_workers _ _ Hq) as [Hw Hn]. unfold fresh. by rewrite Hw, Hn.
    + rewrite Hc. split.
      * apply linked_new; [done| |done]. destruct (workers (cl x) !! next_ctx (cl x)) eqn:E; [apply Hf in E; lia|done].
      * intros k w. cbn. intros [[<- _]|[_ Hk]]%lookup_insert_Some; [lia|]. apply Hf in Hk. lia.
  - destruct (reading (cl x)); [|done]. intros [= <-]. cbn.
    destruct (quiet_workers _ _ (quiet_close (cl x))) as [Hw Hn]. unfold fresh. cbn. by rewrite Hw, Hn.
  - intros (w & Hk & H)%bind_Some. destruct (w_stage w) eqn:Hs; try done.
    destruct (Z.ltb_spec (nextID (br x)) int64_max); [|done].
    pose proof (linked_start _ _ _ k w Hl Hk Hs ltac:(lia)) as Hl'.
    destruct (Subscribe (br x) (collection_of (w_payload w))) as [b sub]. injection H as <-. split; [exact Hl'|by apply fresh_at].
  - intros (w & Hk & H)%bind_Some. destruct (w_stage w) eqn:Hs; try done.
    apply bind_Some in H as ([e b] & Hr & [= <-]). split; [by eapply linked_receive|done].
  - intros (w & Hk & H)%bind_Some. destruct (w_stage w) eqn:Hs; try done.
    apply bind_Some in H as (ch & _ & H). destruct (queue ch); [|done]. destruct (closed ch); [|done]. injection H as <-.
    split; [by apply linked_restage; [..|by rewrite Hs]|by apply fresh_at].
  - intros (w & Hk & H)%bind_Some. destruct (w_stage w) eqn:Hs; try done.
    case_bool_decide; [|done]. injection H as <-. split; [by apply linked_restage; [..|by rewrite Hs]|by apply fresh_at].
  - intros (w & Hk & H)%bind_Some. destruct (w_stage w) eqn:Hs; try done.
    destruct (Unsubscribe (br x) sub) as [b|] eqn:Hu; [|done]. injection H as <-.
    split; [by eapply linked_leave|by apply fresh_at].
  - intros (w & Hk & H)%bind_Some. destruct (w_stage w) eqn:Hs; try done. injection H as <-.
    split; [by apply linked_restage; [..|by rewrite Hs]|by apply (fresh_at k w Removing)].
  - intros (w & Hk & H)%bind_Some. destruct (w_stage w) eqn:Hs; try done. injection H as <-.
    split; [by eapply linked_gone; [..|by rewrite Hs]|]. intros j v. cbn. intros [_ Hj]%lookup_delete_Some. by eapply Hf.
  - destruct (Publish (br x) e) as [b|] eqn:Hp; [|done]. intros [= <-]. split; [by eapply linked_publish|done].
  - destruct (Z.ltb_spec (nextID (br x)) int64_max); [|done]. intros [= <-]. split; [by apply linked_other|done].
  - case_bool_decide as Hm; [done|]. destruct (Unsubscribe (br x) id) as [b|] eqn:Hu; [|done]. intros [= <-].
    split; [by eapply linked_unsubscribe|done].
  - case_bool_decide as Hm; [done|]. intros ([e b] & Hr & [= <-])%bind_Some. split; [by eapply linked_receive|done].
Qed.

(** ** Why something was answered *)

Lemma perform_all_snoc ms m : forall x y, perform_all parse decode decode_payload execute (ms ++ [m]) x = Some y <->
  exists z, perform_all parse decode decode_payload execute ms x = Some z /\ perform parse decode decode_payload execute m z = Some y.
Proof.
  induction ms as [|m' ms IH]; intros x y; cbn.
  - split; [intros (z & Hz & [= <-])%bind_Some; by exists x|]. intros (z & [= <-] & ->). done.
  - rewrite bind_Some. split.
    + intros (z & Hz & (v & Hv & Hy)%IH). exists v. by rewrite Hz.
    + intros (v & (z & Hz & Hv)%bind_Some & Hy). exists z. split; [done|]. apply IH. by exists v.
Qed.

Definition asked (ms : list move) (id : string) (p : subscribePayload) : Prop :=
  exists data ok msg, MFrame data ok ∈ ms /\ decode data = Some msg /\ m_id msg = id /\ asks msg p.
Definition shook (ms : list move) : Prop :=
  exists data ok msg, MFrame data ok ∈ ms /\ decode data = Some msg /\ m_type msg = "connection_init".
(** An answer of a subscription that was asked for after the handshake, to an
    event that was published and is wanted. *)
Definition justified (ms : list move) (r : reply) : Prop :=
  exists id p e, asked ms id p /\ shook ms /\ MPublish e ∈ ms /\ wants (collection_of p) e = true /\
    r = event_reply execute id p e.

Record explained (ms : list move) (x : world) : Prop := {
  x_linked : linked (workers (cl x)) (br x) (mine x);
  x_fresh : fresh (cl x);
  x_init : initialized (cl x) = true -> shook ms;
  x_workers : forall k w, workers (cl x) !! k = Some w -> asked ms (w_id w) (w_payload w) /\ shook ms;
  x_queues : forall s ch e, s ∈ mine x -> channels (br x) !! s = Some ch -> e ∈ queue ch -> MPublish e ∈ ms;
  x_replies : forall r, r ∈ replies (cl x) -> ~ plain r -> justified ms r
}.

Lemma justified_mono ms ms' r : ms ⊆ ms' -> justified ms r -> justified ms' r.
Proof.
  intros Hs (id & p & e & (data & ok & msg & H1 & H2) & (data' & ok' & msg' & H3 & H4) & H5 & H6). exists id, p, e.
  split_and!; [by exists data, ok, msg; auto|by exists data', ok', msg'; auto|auto|tauto|tauto].
Qed.

Ltac perform_inv H := cbn [perform] in H;
  repeat match type of H with
         | mbind _ _ = Some _ => apply bind_Some in H as (? & ? & H)
         | context [match ?e with _ => _ end] => destruct e eqn:?; try discriminate H
         end;
  try (injection H as <-).

Lemma restaged k w s c j v : workers c !! k = Some w -> workers (at_stage k w s c) !! j = Some v ->
  exists v', workers c !! j = Some v' /\ w_id v' = w_id v /\ w_payload v' = w_payload v.
Proof. intros Hk. cbn. intros [[<- <-]|[_ Hj]]%lookup_insert_Some; [by exists w|by exists v]. Qed.

Lemma perform_workers m x x' k w' : perform parse decode decode_payload execute m x = Some x' -> workers (cl x') !! k = Some w' ->
  (exists w, workers (cl x) !! k = Some w /\ w_id w = w_id w' /\ w_payload w = w_payload w') \/
  (exists data ok msg p, m = MFrame data ok /\ decode data = Some msg /\ asks msg p /\ w_id w' = m_id msg /\
     w_payload w' = p /\ initialized (cl x) = true).
Proof.
  intros H Hw. destruct m.
  - cbn [perform] in H. destruct (reading (cl x)); [|done]. injection H as <-. destruct (decode data) as [msg|] eqn:Hd; [|left; by exists w'].
    cbn [cl set_cl] in Hw. destruct (handleMessage_cases ok msg (cl x)) as [[Hq _]|(p & Ha & Hi & _ & _ & Hc)].
    + destruct (quiet_workers _ _ Hq) as [Heq _]. rewrite Heq in Hw. left. by exists w'.
    + rewrite Hc in Hw. cbn in Hw. apply lookup_insert_Some in Hw as [[<- <-]|[_ Hw]]; [|left; by exists w'].
      right. exists data, ok, msg, p. by split_and!.
  - cbn [perform] in H. destruct (reading (cl x)); [|done]. injection H as <-. cbn in Hw.
    destruct (quiet_workers _ _ (quiet_close (cl x))) as [Heq _]. rewrite Heq in Hw. left. by exists w'.
  - perform_inv H. left. eapply restaged; [eassumption|exact Hw].
  - perform_inv H. left. by exists w'.
  - perform_inv H. left. eapply restaged; [eassumption|exact Hw].
  - perform_inv H. left. eapply restaged; [eassumption|exact Hw].
  - perform_inv H. left. eapply restaged; [eassumption|exact Hw].
  - perform_inv H. left. eapply (restaged k0 _ Removing); [eassumption|exact Hw].
  - perform_inv H. left. cbn in Hw. apply lookup_delete_Some in Hw as [_ Hw]. by exists w'.
  - perform_inv H. left. by exists w'.
  - perform_inv H. left. by exists w'.
  - perform_inv H. left. by exists w'.
  - perform_inv H. left. by exists w'.
Qed.

Lemma perform_init m x x' : perform parse decode decode_payload execute m x = Some x' -> initialized (cl x') = true ->
  initialized (cl x) = true \/ exists data ok msg, m = MFrame data ok /\ decode data = Some msg /\ m_type msg = "connection_init".
Proof.
  intros H Hw. destruct m; try (perform_inv H; by left).
  - cbn [perform] in H. destruct (reading (cl x)); [|done]. injection H as <-. destruct (decode data) as [msg|] eqn:Hd; [|by left].
    cbn [cl set_cl] in Hw. destruct (handleMessage_cases ok msg (cl x)) as [[Hq Hi]|(p & Ha & Hi & _ & _ & Hc)]; [|by left].
    destruct (Hi Hw); [by left|]. right. by exists data, ok, msg.
  - cbn [perform] in H. destruct (reading (cl x)); [|done]. injection H as <-. cbn in Hw. unfold close in Hw.
    left. by destruct (close_done (cl x)).
Qed.

Lemma perform_replies m x x' r : perform parse decode decode_payload execute m x = Some x' -> r ∈ replies (cl x') -> ~ plain r ->
  r ∈ replies (cl x) \/ exists k ok w sub e b, m = MEvent k ok /\ workers (cl x) !! k = Some w /\
    w_stage w = Listening sub /\ receive (br x) sub = Some (e, b) /\ r = event_reply execute (w_id w) (w_payload w) e.
Proof.
  intros H Hr Hp. destruct m; try (perform_inv H; by left).
  - cbn [perform] in H. destruct (reading (cl x)); [|done]. injection H as <-. destruct (decode data) as [msg|] eqn:Hd; [|by left].
    cbn [cl set_cl] in Hr. left. destruct (handleMessage_cases ok msg (cl x)) as [[Hq Hi]|(p & Ha & Hi & _ & _ & Hc)].
    + by eapply quiet_replies.
    + by rewrite Hc in Hr.
  - cbn [perform] in H. destruct (reading (cl x)); [|done]. injection H as <-. left.
    by eapply (quiet_replies _ _ _ (quiet_close (cl x))).
  - perform_inv H. destruct x1 as [e b]. cbn in Hr. destruct (_ && _); [|by left].
    apply elem_of_app in Hr as [Hr|Hr%list_elem_of_singleton]; [by left|]. right.
    exists k, ok, x0, sub, e, b. by split_and!.
  - perform_inv H. left. cbn in Hr. destruct (_ && _); [|done].
    apply elem_of_app in Hr as [Hr| ->%list_elem_of_singleton]; [done|]. by destruct Hp.
Qed.

Lemma receive_queue b id e b' s ch y : receive b id = Some (e, b') -> channels b' !! s = Some ch -> y ∈ queue ch ->
  exists ch', channels b !! s = Some ch' /\ y ∈ queue ch'.
Proof.
  unfold receive. destruct (channels b !! id) as [[[|z q] cd]|] eqn:Hc; try done. intros [= -> <-]. cbn.
  intros [[<- <-]|[_ Hs]]%lookup_insert_Some Hy; [|by exists ch]. eexists. split; [exact Hc|]. cbn in *. by right.
Qed.

Lemma unsubscribe_queue b id b' s ch y : inv b -> Unsubscribe b id = Ok b' -> channels b' !! s = Some ch -> y ∈ queue ch ->
  exists ch', channels b !! s = Some ch' /\ y ∈ queue ch'.
Proof.
  intros Hi Hu. destruct (Unsubscribe_spec b id Hi) as [[_ Hu']|(c & k & _ & Hk & Hu')]; rewrite Hu in Hu'; injection Hu' as ->.
  - by exists ch.
  - cbn. intros [[<- <-]|[_ Hs]]%lookup_insert_Some Hy; [by exists k|by exists ch].
Qed.

Lemma perform_queues m x x' s ch y : linked (workers (cl x)) (br x) (mine x) ->
  perform parse decode decode_payload execute m x = Some x' -> s ∈ mine x' -> channels (br x') !! s = Some ch -> y ∈ queue ch ->
  (s ∈ mine x /\ exists ch', channels (br x) !! s = Some ch' /\ y ∈ queue ch') \/ m = MPublish y.
Proof.
  intros Hl H Hm Hs Hy. destruct m.
  - cbn [perform] in H. destruct (reading (cl x)); [|done]. injection H as <-. destruct (decode data); left; eauto.
  - cbn [perform] in H. destruct (reading (cl x)); [|done]. injection H as <-. left; eauto.
  - cbn [perform] in H. apply bind_Some in H as (w & Hk & H). destruct (w_stage w); try done.
    destruct (Z.ltb_spec (nextID (br x)) int64_max); [|done].
    destruct (Subscribe_fresh (br x) (l_inv _ _ _ Hl)) as (Hwr & Hc & _); [lia|].
    unfold Subscribe in H. rewrite Hwr in H. injection H as <-. cbn in *.
    apply lookup_insert_Some in Hs as [[<- <-]|[Hne Hs]]; [by apply elem_of_nil in Hy|]. left. split; [set_solver|]. by exists ch.
  - perform_inv H. destruct x1 as [e b]. left. split; [done|]. by eapply receive_queue.
  - perform_inv H. left; eauto.
  - perform_inv H. left; eauto.
  - perform_inv H. left. split; [done|]. eapply unsubscribe_queue; [apply Hl|done..].
  - perform_inv H. left; eauto.
  - perform_inv H. left; eauto.
  - cbn [perform] in H. destruct (Publish (br x) e) as [b|] eqn:Hp; [|done]. injection H as <-.
    destruct (Publish_in_spec (br x) _ e (l_inv _ _ _ Hl) (reflexivity _)) as (chans & Hp' & Hch).
    unfold Publish in Hp. rewrite Hp' in Hp. injection Hp as <-. cbn in Hs. rewrite Hch in Hs.
    destruct (channels (br x) !! s) as [k|]; [|done]. injection Hs as <-.
    destruct (subscribers (br x) !! s) as [coll|]; [|left; eauto]. destruct (wants coll e); [|left; eauto].
    apply accept_elem in Hy as [Hy| ->]; [left; eauto|by right].
  - cbn [perform] in H. destruct (Z.ltb_spec (nextID (br x)) int64_max); [|done]. injection H as <-.
    destruct (Subscribe_fresh (br x) (l_inv _ _ _ Hl)) as (Hwr & Hc & _); [lia|].
    unfold Subscribe in Hs. rewrite Hwr in Hs. cbn in *.
    apply lookup_insert_Some in Hs as [[<- <-]|[Hne Hs]]; [by apply elem_of_nil in Hy|]. left; eauto.
  - perform_inv H. left. split; [done|]. eapply unsubscribe_queue; [apply Hl|done..].
  - perform_inv H. destruct x0 as [e b]. left. split; [done|]. by eapply receive_queue.
Qed.

Lemma explained_step ms m x x' : explained ms x -> perform parse decode decode_payload execute m x = Some x' ->
  explained (ms ++ [m]) x'.
Proof.
  intros [H1 H2 H3 H4 H5 H6] Hp. destruct (perform_linked _ _ _ H1 H2 Hp) as [Hl Hf].
  assert (m ∈ ms ++ [m]) as Hm by (apply elem_of_app; right; left).
  assert (forall a, a ∈ ms -> a ∈ ms ++ [m]) as Hs by (intros a Ha; apply elem_of_app; by left).
  assert (shook ms -> shook (ms ++ [m])) as Hsh.
  { intros (data & ok & msg & Hin & Hd). exists data, ok, msg. auto. }
  split; [done|done| | | |].
  - intros [Hi|(data & ok & msg & -> & Hd)]%(perform_init _ _ _ Hp); [auto|]. by exists data, ok, msg.
  - intros k w Hw. destruct (perform_workers _ _ _ _ _ Hp Hw) as [(v & Hv & <- & <-)|(data & ok & msg & p & -> & Hd & Ha & Hid & Hpl & Hi)].
    + destruct (H4 k v Hv) as [(data & ok & msg & Hin & Hd) Hsk]. split; [exists data, ok, msg; auto|auto].
    + split; [|auto]. exists data, ok, msg. rewrite Hpl. by split_and!.
  - intros s ch e Hms Hch He. destruct (perform_queues _ _ _ _ _ _ H1 Hp Hms Hch He) as [[Hmx (ch' & Hch' & He')]| ->]; [|done].
    eapply Hs, H5; eauto.
  - intros r Hr Hpl. destruct (perform_replies _ _ _ _ Hp Hr Hpl) as [Hr'|(k & ok & w & sub & e & b & -> & Hk & Hst & Hrec & ->)].
    + eapply justified_mono; [|by apply H6]. exact Hs.
    + destruct (H4 k w Hk) as [(data & ok' & msg & Hin & Hd) Hsk].
      destruct (l_sub _ _ _ H1 k w sub Hk) as [Hmine Hsub]; [by rewrite Hst|].
      destruct (inv_open _ (l_inv _ _ _ H1) _ _ Hsub) as (ch & Hch & _ & Hw).
      assert (e ∈ queue ch) as He.
      { unfold receive in Hrec. rewrite Hch in Hrec. destruct ch as [[|y q] cd]; [done|]. injection Hrec as -> _. left. }
      exists (w_id w), (w_payload w), e. split_and!; [by exists data, ok', msg; auto|auto|eauto|auto|done].
Qed.

Lemma linked_empty b : inv b -> linked ∅ b ∅.
Proof.
  intros Hi. split; [done|by intros s ?%elem_of_empty| | |by intros s ?%elem_of_empty].
  - by intros k w s ?%lookup_empty_Some.
  - by intros k k' w w' s ?%lookup_empty_Some.
Qed.

Lemma explained_run b ms x : inv b -> perform_all parse decode decode_payload execute ms (new_world b) = Some x -> explained ms x.
Proof.
  intros Hi. revert x. induction ms as [|m ms IH] using rev_ind; intros x.
  - intros [= <-]. split; cbn; [by apply linked_empty|intros k w Hk; cbn in Hk; by apply lookup_empty_Some in Hk|done| | |by intros r ?%elem_of_nil].
    + intros k w Hk. by apply lookup_empty_Some in Hk.
    + by intros s ch e ?%elem_of_empty.
  - intros (z & Hz & Hx)%perform_all_snoc. eapply explained_step; [by apply IH|exact Hx].
Qed.

(** C38: on any connection, whatever the client sends and however its reader, its
    subscriptions, the publishers and the other connections interleave, each
    event that is answered was published, is of the collection asked for, and
    answers a subscription that the client asked for with that ID and whose
    query is not too deep, on a connection that was initialized. *)
Theorem answers_justified b ms x r : inv b ->
  perform_all parse decode decode_payload execute ms (new_world b) = Some x ->
  r ∈ replies (cl x) -> ~ plain r -> justified ms r.
Proof. intros Hi Hx. by apply (x_replies _ _ (explained_run b ms x Hi Hx)). Qed.

(** ** Clients that do not use an ID again while its worker lives *)

Record tidy (c : wsClient) : Prop := {
  t_fresh : fresh c;
  t_can : forall k, k ∈ cancelled c -> (k < next_ctx c)%nat;
  t_entry : forall id k, subscriptions c !! id = Some k -> exists w, workers c !! k = Some w /\ w_id w = id /\ k ∉ cancelled c;
  t_live : forall k w, workers c !! k = Some w ->
    subscriptions c !! w_id w = if decide (k ∈ cancelled c) then None else Some k;
  t_stage : forall k w, workers c !! k = Some w -> k ∉ cancelled c ->
    w_stage w = Starting \/ exists s, w_stage w = Listening s;
  t_open : open_ c = negb (close_done c);
  t_closed : close_done c = true -> subscriptions c = ∅
}.

Lemma tidy_same c c' : tidy c -> open_ c' = open_ c -> close_done c' = close_done c -> subscriptions c' = subscriptions c ->
  cancelled c' = cancelled c -> workers c' = workers c -> next_ctx c' = next_ctx c -> tidy c'.
Proof. intros [H1 H2 H3 H4 H5 H6 H7] E1 E2 E3 E4 E5 E6. split; unfold fresh in *; rewrite ?E1, ?E2, ?E3, ?E4, ?E5, ?E6; done. Qed.

Lemma tidy_cancel id c : tidy c -> tidy (cancelSubscription id c).
Proof.
  intros Ht. unfold cancelSubscription. destruct (subscriptions c !! id) as [k|] eqn:Hk; [|done].
  destruct (t_entry _ Ht _ _ Hk) as (w & Hw & Hid & Hc). pose proof (t_fresh _ Ht _ _ Hw) as Hlt.
  split; cbn.
  - apply Ht.
  - intros j [->%elem_of_singleton|Hj]%elem_of_union; [done|by apply Ht].
  - intros i j [Hne Hj]%lookup_delete_Some. destruct (t_entry _ Ht _ _ Hj) as (v & Hv & Hvi & Hvc). exists v. split_and!; [done|done|].
    intros [->%elem_of_singleton|]%elem_of_union; [|done]. rewrite Hw in Hv. injection Hv as <-. congruence.
  - intros j v Hv. pose proof (t_live _ Ht _ _ Hv) as Hl. destruct (decide (w_id v = id)) as [He|Hne].
    + rewrite He, lookup_delete_eq. rewrite He, Hk in Hl. case_decide; [done|]. injection Hl as ->. by rewrite decide_True by set_solver.
    + rewrite lookup_delete_ne by done. rewrite Hl. destruct (decide (j = k)) as [->|Hjk].
      * rewrite Hw in Hv. injection Hv as <-. congruence.
      * destruct (decide (j ∈ cancelled c)); [by rewrite decide_True by set_solver|by rewrite decide_False by set_solver].
  - intros j v Hv Hj. apply (t_stage _ Ht _ _ Hv). set_solver.
  - apply Ht.
  - intros Hd. by rewrite (t_closed _ Ht Hd) in Hk.
Qed.

Lemma tidy_close c : tidy c -> tidy (close c).
Proof.
  intros Ht. unfold close. destruct (close_done c) eqn:Hd; [done|].
  assert (forall k, k ∈ (list_to_set (snd <$> map_to_list (subscriptions c)) : gset nat) <-> exists id, subscriptions c !! id = Some k) as Hin.
  { intros k. rewrite elem_of_list_to_set, list_elem_of_fmap. split.
    - intros ([i j] & -> & Hj%elem_of_map_to_list). by exists i.
    - intros (i & Hi). exists (i, k). by rewrite elem_of_map_to_list. }
  assert (forall k w, workers c !! k = Some w -> k ∈ list_to_set (snd <$> map_to_list (subscriptions c)) ∪ cancelled c) as Hall.
  { intros k w Hw. apply elem_of_union. pose proof (t_live _ Ht _ _ Hw) as Hl. case_decide; [by right|left]. apply Hin. eauto. }
  split; cbn.
  - apply Ht.
  - intros k [(id & Hk)%Hin|Hk]%elem_of_union; [|by apply Ht]. destruct (t_entry _ Ht _ _ Hk) as (w & Hw & _). by eapply (t_fresh _ Ht).
  - by intros id k ?%lookup_empty_Some.
  - intros k w Hw. rewrite lookup_empty, decide_True; [done|by eapply Hall].
  - intros k w Hw Hk. destruct Hk. by eapply Hall.
  - done.
  - done.
Qed.

Lemma tidy_quiet c c' : tidy c -> quiet c c' -> tidy c'.
Proof. intros Ht []; try (by eapply tidy_same); [by apply tidy_cancel|by apply tidy_close]. Qed.

Lemma tidy_register id p c : tidy c -> open_ c = true -> subscriptions c !! id = None ->
  (forall k w, workers c !! k = Some w -> w_id w <> id) -> tidy (register id p c).
Proof.
  intros Ht Ho Hs Hno.
  assert (next_ctx c ∉ cancelled c) as Hnc by (intros Hc%(t_can _ Ht); lia).
  assert (forall k w, workers c !! k = Some w -> k <> next_ctx c) as Hk by (intros k w Hw%(t_fresh _ Ht); lia).
  split; [unfold fresh|..]; cbn.
  - intros k w [[<- _]|[_ Hw]]%lookup_insert_Some; cbn; [lia|]. apply (t_fresh _ Ht) in Hw. lia.
  - intros k Hc%(t_can _ Ht). lia.
  - intros i k [[<- <-]|[Hne Hi]]%lookup_insert_Some.
    + eexists. rewrite lookup_insert_eq. by split_and!.
    + destruct (t_entry _ Ht _ _ Hi) as (w & Hw & Hwi & Hwc). exists w. rewrite lookup_insert_ne by (by apply not_eq_sym, (Hk k w)). done.
  - intros k w [[<- <-]|[Hne Hw]]%lookup_insert_Some.
    + cbn. rewrite lookup_insert_eq. by rewrite decide_False.
    + rewrite lookup_insert_ne by (by apply not_eq_sym, (Hno k w)). by apply Ht.
  - intros k w [[<- <-]|[Hne Hw]]%lookup_insert_Some Hc; [by left|by apply (t_stage _ Ht k w)].
  - apply Ht.
  - intros Hd. rewrite (t_open _ Ht), Hd in Ho. done.
Qed.

Lemma tidy_at_stage k w s c : tidy c -> workers c !! k = Some w ->
  (k ∈ cancelled c \/ exists t, s = Listening t) -> tidy (at_stage k w s c).
Proof.
  intros Ht Hk Hs. split; cbn.
  - by apply fresh_at; [apply Ht|].
  - apply Ht.
  - intros i j Hi. destruct (t_entry _ Ht _ _ Hi) as (v & Hv & Hvi & Hvc). destruct (decide (j = k)) as [->|Hne].
    + eexists. rewrite lookup_insert_eq. split_and!; [done| |done]. cbn. congruence.
    + exists v. by rewrite lookup_insert_ne.
  - intros j v [[<- <-]|[_ Hv]]%lookup_insert_Some; [|by apply Ht]. cbn. by apply (t_live _ Ht k w).
  - intros j v [[<- <-]|[_ Hv]]%lookup_insert_Some Hc; [|by apply (t_stage _ Ht j v)]. cbn. destruct Hs as [|[t ->]]; [done|by right; exists t].
  - apply Ht.
  - apply Ht.
Qed.

(** A frame that comes while the connection is open, and asks for no ID whose
    worker still lives. *)
Definition calm (m : move) (x : world) : Prop :=
  match m with
  | MFrame data _ => open_ (cl x) = true /\ forall msg k w, decode data = Some msg -> m_type msg = "subscribe" ->
      workers (cl x) !! k = Some w -> w_id w <> m_id msg
  | _ => True
  end.
Fixpoint calm_all (ms : list move) (x : world) : Prop :=
  match ms with
  | [] => True
  | m :: ms => calm m x /\ forall y, perform parse decode decode_payload execute m x = Some y -> calm_all ms y
  end.

Definition bounded (c : wsClient) : Prop := (size (subscriptions c) <= wsMaxSubsPerClient)%nat.

Lemma perform_bounded m x x' : bounded (cl x) -> perform parse decode decode_payload execute m x = Some x' -> bounded (cl x').
Proof.
  unfold bounded. intros Hb H.
  assert (forall id (m : gmap string nat), (size (delete id m) <= size m)%nat) as Hdel.
  { intros id m'. destruct (m' !! id) eqn:E; [rewrite map_size_delete_Some by eauto; lia|by rewrite delete_id]. }
  assert (size (subscriptions (close (cl x))) <= wsMaxSubsPerClient)%nat as Hcl.
  { unfold close. destruct (close_done (cl x)); [done|]. cbn. rewrite map_size_empty. lia. }
  destruct m; try (perform_inv H; done).
  - cbn [perform] in H. destruct (reading (cl x)); [|done]. injection H as <-. destruct (decode data) as [msg|]; [|done]. cbn [cl set_cl].
    destruct (handleMessage_cases ok msg (cl x)) as [[Hq _]|(p & _ & _ & Hlt & Hn & Hc)].
    + destruct Hq; try done. unfold cancelSubscription. destruct (_ !! _); [|done]. cbn. specialize (Hdel id (subscriptions (cl x))). lia.
    + rewrite Hc. cbn. rewrite map_size_insert_None by done. lia.
  - perform_inv H. cbn. specialize (Hdel (w_id x0) (subscriptions (cl x))). lia.
Qed.

Lemma perform_tidy m x x' : linked (workers (cl x)) (br x) (mine x) -> tidy (cl x) -> calm m x ->
  perform parse decode decode_payload execute m x = Some x' -> tidy (cl x').
Proof.
  intros Hl Ht Hcalm H.
  assert (forall k w, workers (cl x) !! k = Some w -> (exists s, w_stage w = Leaving s) \/ w_stage w = Completing \/ w_stage w = Removing ->
    k ∈ cancelled (cl x)) as Hcan.
  { intros k w Hk Hs. destruct (decide (k ∈ cancelled (cl x))) as [|Hc]; [done|].
    destruct (t_stage _ Ht k w Hk Hc) as [E|[? E]]; rewrite E in Hs; naive_solver. }
  destruct m.
  - cbn [perform] in H. destruct (reading (cl x)); [|done]. injection H as <-. destruct (decode data) as [msg|] eqn:Hd; [|done].
    cbn [cl set_cl]. destruct Hcalm as [Ho Hno].
    destruct (handleMessage_cases ok msg (cl x)) as [[Hq _]|(p & [Hty _] & _ & _ & Hn & Hc)].
    + by eapply tidy_quiet.
    + rewrite Hc. apply tidy_register; [done|done|done|]. intros k w. by apply Hno.
  - cbn [perform] in H. destruct (reading (cl x)); [|done]. injection H as <-. eapply tidy_same; [apply (tidy_close _ Ht)|done..].
  - perform_inv H. apply tidy_at_stage; [done|done|right; by eexists].
  - perform_inv H. by eapply tidy_same.
  - perform_inv H. exfalso. match goal with Hs : w_stage ?w = Listening ?s, Hk : workers _ !! _ = Some ?w |- _ =>
      destruct (l_sub _ _ _ Hl _ _ s Hk ltac:(by rewrite Hs)) as [_ Hsub] end.
    destruct (inv_open _ (l_inv _ _ _ Hl) _ _ Hsub) as (ch & Hch & Hcl & _). congruence.
  - perform_inv H. apply tidy_at_stage; [done|done|left]. by eapply bool_decide_eq_true_1.
  - perform_inv H. apply tidy_at_stage; [done|done|left]. eapply Hcan; [done|left; by eexists].
  - perform_inv H. apply (tidy_same (at_stage k x0 Removing (cl x))); try done. apply tidy_at_stage; [done|done|left].
    eapply Hcan; [done|by right; left].
  - perform_inv H. match goal with Hk : workers _ !! k = Some ?w, Hs : w_stage ?w = _ |- _ => rename w into v; rename Hk into Hv; rename Hs into Hst end.
    assert (k ∈ cancelled (cl x)) as Hc by (eapply Hcan; [exact Hv|by right; right]).
    pose proof (t_live _ Ht k v Hv) as Hlive. rewrite decide_True in Hlive by done.
    split; [unfold fresh|..]; cbn.
    + intros j u [_ Hj]%lookup_delete_Some. by eapply (t_fresh _ Ht).
    + apply Ht.
    + intros i j [_ Hi]%lookup_delete_Some. destruct (t_entry _ Ht _ _ Hi) as (u & Hu & Hui & Huc). exists u.
      rewrite lookup_delete_ne by (by intros ->). done.
    + intros j u [Hne Hj]%lookup_delete_Some. rewrite delete_id by done. by apply Ht.
    + intros j u [_ Hj]%lookup_delete_Some. by apply (t_stage _ Ht).
    + apply Ht.
    + intros Hd. by rewrite (t_closed _ Ht Hd), delete_empty.
  - perform_inv H. done.
  - perform_inv H. done.
  - perform_inv H. done.
  - perform_inv H. done.
Qed.

Lemma tidy_new b : tidy (cl (new_world b)).
Proof.
  split; unfold fresh; cbn; try done; intros; match goal with
  | H : ∅ !! _ = Some _ |- _ => by apply lookup_empty_Some in H
  | H : _ ∈ ∅ |- _ => by apply elem_of_empty in H
  end.
Qed.

Lemma run_tidy ms : forall x y, linked (workers (cl x)) (br x) (mine x) -> tidy (cl x) -> calm_all ms x ->
  perform_all parse decode decode_payload execute ms x = Some y -> linked (workers (cl y)) (br y) (mine y) /\ tidy (cl y).
Proof.
  induction ms as [|m ms IH]; intros x y Hl Ht Hc; [by intros [= <-]|]. cbn. intros (z & Hz & Hy)%bind_Some.
  destruct Hc as [Hc Hcs]. destruct (perform_linked m x z Hl (t_fresh _ Ht) Hz) as [Hl' _].
  apply (IH z); [done| |by apply Hcs|done]. by apply (perform_tidy m x z).
Qed.

Lemma run_bounded ms : forall x y, bounded (cl x) -> perform_all parse decode decode_payload execute ms x = Some y -> bounded (cl y).
Proof.
  induction ms as [|m ms IH]; intros x y Hb; [by intros [= <-]|]. cbn. intros (z & Hz & Hy)%bind_Some.
  eapply (IH z); [by eapply perform_bounded|done].
Qed.

Lemma size_list_to_set_le (l : list nat) : (size (list_to_set l : gset nat) <= length l)%nat.
Proof.
  induction l as [|k l IH]; [done|]. cbn. destruct (decide (k ∈ (list_to_set l : gset nat))) as [Hin|Hin].
  - rewrite subseteq_union_1_L by set_solver. lia.
  - rewrite size_union by set_solver. rewrite size_singleton. lia.
Qed.

(** The workers whose context is not cancelled. *)
Definition live_workers (c : wsClient) : gset nat := dom (workers c) ∖ cancelled c.

(** A connection never has more than 64 subscriptions, and, when frames come
    while it is open and an ID is not used again while its worker lives, never
    more than 64 workers that are not cancelled; after it is closed it has none. *)
Theorem subscriptions_bounded b ms x : inv b -> perform_all parse decode decode_payload execute ms (new_world b) = Some x ->
  (size (subscriptions (cl x)) <= wsMaxSubsPerClient)%nat /\
  (calm_all ms (new_world b) ->
   (size (live_workers (cl x)) <= wsMaxSubsPerClient)%nat /\ (close_done (cl x) = true -> live_workers (cl x) = ∅)).
Proof.
  intros Hi Hx. assert (bounded (cl x)) as Hb by (eapply run_bounded; [|exact Hx]; unfold bounded; cbn; rewrite map_size_empty; lia).
  split; [exact Hb|]. intros Hc.
  destruct (run_tidy ms (new_world b) x (linked_empty b Hi) (tidy_new b) Hc Hx) as [Hl Ht].
  assert (live_workers (cl x) ⊆ list_to_set (snd <$> map_to_list (subscriptions (cl x)))) as Hsub.
  { intros k [[w Hw]%elem_of_dom Hk]%elem_of_difference. pose proof (t_live _ Ht k w Hw) as Hlive. rewrite decide_False in Hlive by done.
    rewrite elem_of_list_to_set, list_elem_of_fmap. exists (w_id w, k). by rewrite elem_of_map_to_list. }
  split.
  - apply subseteq_size in Hsub. etrans; [exact Hsub|]. etrans; [apply size_list_to_set_le|].
    rewrite length_fmap, length_map_to_list. exact Hb.
  - intros Hd. rewrite (t_closed _ Ht Hd), map_to_list_empty in Hsub. set_solver.
Qed.

(** ** The end of a connection *)

Definition worker_move (m : move) : bool :=
  match m with
  | MStart _ | MEvent _ _ | MClosed _ | MCancelled _ | MUnsubscribe _ | MComplete _ _ | MRemove _ => true
  | _ => false
  end.

Definition waiting (b : PubSub) (s : string) : nat := match channels b !! s with Some ch => length (queue ch) | None => 0 end.
(** How many moves a worker can make. *)
Definition weight (b : PubSub) (w : worker) : nat :=
  match w_stage w with
  | Starting => 5
  | Listening s => 4 + waiting b s
  | Leaving _ => 3
  | Completing => 2
  | Removing => 1
  end.
Definition total (f : worker -> nat) (ws : gmap nat worker) : nat := map_fold (fun _ w n => f w + n)%nat 0%nat ws.
Definition moves_left (x : world) : nat := total (weight (br x)) (workers (cl x)).

Lemma total_insert f ws k w : ws !! k = None -> total f (<[k := w]> ws) = (f w + total f ws)%nat.
Proof. intros Hk. unfold total. rewrite map_fold_insert_L; [done|intros; lia|done]. Qed.
Lemma total_delete f ws k w : ws !! k = Some w -> total f ws = (f w + total f (delete k ws))%nat.
Proof. intros Hk. rewrite <-(insert_delete_id ws k w Hk) at 1. apply total_insert, lookup_delete_eq. Qed.
Lemma total_mono f g ws : (forall k w, ws !! k = Some w -> (f w <= g w)%nat) -> (total f ws <= total g ws)%nat.
Proof.
  induction ws as [|k w ws Hk IH] using map_ind; intros Hfg; [done|]. rewrite !total_insert by done.
  pose proof (Hfg k w ltac:(by rewrite lookup_insert_eq)). specialize (IH ltac:(intros j v Hj; apply (Hfg j); rewrite lookup_insert_ne; [done|congruence])). lia.
Qed.

(** A worker moves on and the others have no more to do than before. *)
Lemma total_step f g ws k w w' : ws !! k = Some w -> (f w' < g w)%nat ->
  (forall j v, j <> k -> ws !! j = Some v -> (f v <= g v)%nat) -> (total f (<[k := w']> ws) < total g ws)%nat.
Proof.
  intros Hk Hw Ho. rewrite (total_delete g ws k w Hk), <-insert_delete_eq, total_insert by apply lookup_delete_eq.
  assert (total f (delete k ws) <= total g (delete k ws))%nat; [|lia].
  apply total_mono. intros j v [Hne Hj]%lookup_delete_Some. by apply (Ho j).
Qed.

Lemma receive_waiting b id e b' s : receive b id = Some (e, b') ->
  (waiting b' s <= waiting b s)%nat /\ (waiting b' id < waiting b id)%nat.
Proof.
  unfold receive, waiting. destruct (channels b !! id) as [[[|z q] cd]|] eqn:Hc; try done. intros [= -> <-]. cbn.
  rewrite lookup_insert_eq. cbn. destruct (decide (s = id)) as [->|]; [rewrite lookup_insert_eq, Hc; cbn; lia|].
  rewrite lookup_insert_ne by done. lia.
Qed.

Lemma unsubscribe_waiting b id b' s : inv b -> Unsubscribe b id = Ok b' -> waiting b' s = waiting b s.
Proof.
  intros Hi Hu. destruct (Unsubscribe_spec b id Hi) as [[_ Hu']|(c & k & _ & Hk & Hu')]; rewrite Hu in Hu'; injection Hu' as ->; [done|].
  unfold waiting. cbn. destruct (decide (s = id)) as [->|]; [by rewrite lookup_insert_eq, Hk|by rewrite lookup_insert_ne].
Qed.

Lemma subscribe_waiting b coll s : inv b -> (nextID b < int64_max)%Z ->
  (is_Some (channels b !! s) -> waiting (Subscribe b coll).1 s = waiting b s) /\
  waiting (Subscribe b coll).1 (Subscribe b coll).2 = 0%nat.
Proof.
  intros Hi Hn. destruct (Subscribe_fresh b Hi Hn) as (Hwr & Hc & _). unfold Subscribe, waiting. rewrite Hwr. cbn.
  rewrite lookup_insert_eq. split; [|done]. intros [ch Hch]. rewrite lookup_insert_ne; [done|]. intros <-. congruence.
Qed.

Lemma weight_le b b' v : (forall s, stage_sub (w_stage v) = Some s -> waiting b' s <= waiting b s)%nat ->
  (weight b' v <= weight b v)%nat.
Proof. unfold weight. destruct (w_stage v) as [|s|s| |]; try done. intros Hs. specialize (Hs s eq_refl). lia. Qed.

Lemma worker_moves_end m x x' : worker_move m = true -> linked (workers (cl x)) (br x) (mine x) ->
  perform parse decode decode_payload execute m x = Some x' -> (moves_left x' < moves_left x)%nat.
Proof.
  intros Hm Hl H. unfold moves_left. destruct m; try done; cbn [perform] in H; apply bind_Some in H as (w & Hk & H);
    destruct (w_stage w) eqn:Hs; try done.
  - destruct (Z.ltb_spec (nextID (br x)) int64_max); [|done].
    destruct (subscribe_waiting (br x) (collection_of (w_payload w)) "" (l_inv _ _ _ Hl) ltac:(done)) as [_ Hz].
    assert (forall s, s ∈ mine x -> waiting (Subscribe (br x) (collection_of (w_payload w))).1 s = waiting (br x) s) as Hsame.
    { intros s Hs'. apply subscribe_waiting; [apply Hl|done|by apply Hl]. }
    destruct (Subscribe (br x) (collection_of (w_payload w))) as [b sub]. injection H as <-. cbn in *.
    apply (total_step _ _ _ k w); [done| |].
    + unfold weight. cbn. rewrite Hs, Hz. lia.
    + intros j v _ Hj. apply weight_le. intros s Hst. rewrite Hsame; [done|]. by eapply (l_sub _ _ _ Hl).
  - apply bind_Some in H as ([e b] & Hr & [= <-]). cbn. rewrite <-(insert_id (workers (cl x)) k w) at 1 by done.
    apply (total_step _ _ _ k w); [done| |].
    + unfold weight. rewrite Hs. destruct (receive_waiting _ _ _ _ sub Hr). lia.
    + intros j v _ Hj. apply weight_le. intros s _. by destruct (receive_waiting _ _ _ _ s Hr).
  - apply bind_Some in H as (ch & _ & H). destruct (queue ch); [|done]. destruct (closed ch); [|done]. injection H as <-. cbn.
    apply (total_step _ _ _ k w); [done| |done]. unfold weight. rewrite Hs. cbn. lia.
  - case_bool_decide; [|done]. injection H as <-. cbn.
    apply (total_step _ _ _ k w); [done| |done]. unfold weight. rewrite Hs. cbn. lia.
  - destruct (Unsubscribe (br x) sub) as [b|] eqn:Hu; [|done]. injection H as <-. cbn.
    apply (total_step _ _ _ k w); [done| |].
    + unfold weight. rewrite Hs. cbn. lia.
    + intros j v _ Hj. apply weight_le. intros s _. by rewrite (unsubscribe_waiting _ _ _ s (l_inv _ _ _ Hl) Hu).
  - injection H as <-. cbn. apply (total_step _ _ _ k w); [done| |done]. unfold weight. rewrite Hs. cbn. lia.
  - injection H as <-. cbn. rewrite (total_delete _ (workers (cl x)) k w Hk).
    assert (weight (br x) w = 1)%nat by (unfold weight; by rewrite Hs). lia.
Qed.

(** A worker that is cancelled can always move on. *)
Lemma worker_progress x k w : linked (workers (cl x)) (br x) (mine x) -> workers (cl x) !! k = Some w -> k ∈ cancelled (cl x) ->
  (nextID (br x) < int64_max)%Z ->
  exists m, worker_move m = true /\ is_Some (perform parse decode decode_payload execute m x).
Proof.
  intros Hl Hk Hc Hn. destruct (w_stage w) as [|s|s| |] eqn:Hs.
  - exists (MStart k). split; [done|]. cbn [perform]. rewrite Hk. cbn. rewrite Hs.
    rewrite (proj2 (Z.ltb_lt _ _) Hn). by eexists.
  - exists (MCancelled k). split; [done|]. cbn [perform]. rewrite Hk. cbn. rewrite Hs. rewrite bool_decide_true by done. by eexists.
  - exists (MUnsubscribe k). split; [done|]. cbn [perform]. rewrite Hk. cbn. rewrite Hs.
    destruct (Unsubscribe_spec (br x) s (l_inv _ _ _ Hl)) as [[_ ->]|(c & ch & _ & _ & ->)]; by eexists.
  - exists (MComplete k true). split; [done|]. cbn [perform]. rewrite Hk. cbn. rewrite Hs. by eexists.
  - exists (MRemove k). split; [done|]. cbn [perform]. rewrite Hk. cbn. rewrite Hs. by eexists.
Qed.

Lemma worker_run ms : forall x y, forallb worker_move ms = true -> linked (workers (cl x)) (br x) (mine x) -> tidy (cl x) ->
  perform_all parse decode decode_payload execute ms x = Some y ->
  linked (workers (cl y)) (br y) (mine y) /\ tidy (cl y) /\ close_done (cl y) = close_done (cl x) /\
  (length ms + moves_left y <= moves_left x)%nat.
Proof.
  induction ms as [|m ms IH]; intros x y Hm Hl Ht; [intros [= <-]; split_and!; [done..|cbn; lia]|]. cbn in Hm |- *.
  apply andb_true_iff in Hm as [Hm Hms]. intros (z & Hz & Hy)%bind_Some.
  pose proof (worker_moves_end m x z Hm Hl Hz). destruct (perform_linked m x z Hl (t_fresh _ Ht) Hz) as [Hl' _].
  assert (tidy (cl z)) as Ht' by (apply (perform_tidy m x z); [done|done| |done]; by destruct m).
  destruct (IH z y Hms Hl' Ht' Hy) as (H1 & H2 & H3 & H4). split_and!; [done|done| |lia].
  rewrite H3. destruct m; try done; by perform_inv Hz.
Qed.

(** When a connection is closed, and its frames came while it was open and
    used no ID again whose worker lived, its workers stop: they make a bounded
    number of moves in whatever order, and when none can move there is none left
    and the broker keeps no subscription of the connection. *)
Theorem subscriptions_end b ms x : inv b -> perform_all parse decode decode_payload execute ms (new_world b) = Some x ->
  calm_all ms (new_world b) -> close_done (cl x) = true ->
  forall ws y, forallb worker_move ws = true -> perform_all parse decode decode_payload execute ws x = Some y ->
  (length ws <= moves_left x)%nat /\
  ((forall m, worker_move m = true -> perform parse decode decode_payload execute m y = None) ->
   (nextID (br y) < int64_max)%Z ->
   workers (cl y) = ∅ /\ forall s, s ∈ mine y -> subscribers (br y) !! s = None).
Proof.
  intros Hi Hx Hc Hd ws y Hws Hy. destruct (run_tidy ms (new_world b) x (linked_empty b Hi) (tidy_new b) Hc Hx) as [Hl Ht].
  destruct (worker_run ws x y Hws Hl Ht Hy) as (Hl' & Ht' & Hd' & Hlen). split; [lia|]. intros Hstuck Hn.
  assert (workers (cl y) = ∅) as Hempty.
  { apply map_empty. intros k. destruct (workers (cl y) !! k) as [w|] eqn:Hk; [|done]. exfalso.
    assert (k ∈ cancelled (cl y)) as Hkc.
    { pose proof (t_live _ Ht' k w Hk) as Hlive. rewrite (t_closed _ Ht'), lookup_empty in Hlive by congruence. by case_decide. }
    destruct (worker_progress y k w Hl' Hk Hkc Hn) as (m & Hm & Hsome). rewrite (Hstuck m Hm) in Hsome. by destruct Hsome. }
  split; [done|]. intros s Hs. destruct (subscribers (br y) !! s) eqn:E; [|done]. exfalso.
  destruct (l_owned _ _ _ Hl' s Hs) as (k & w & Hk & _); [by eexists|]. rewrite Hempty in Hk. by apply lookup_empty_Some in Hk.
Qed.
End Frames.

(** ** Examples *)

Module Example_ws.
Definition frame (s : string) : option wsMessage :=
  match split s "|" with [t; i; p] => Some {| m_id := i; m_type := t; m_payload := p |} | _ => None end.
Definition payload (s : string) : option subscribePayload :=
  Some {| Query := s; Variables := ∅; OperationName := "" |}.
Definition go : list move -> world -> option world := perform_all (fun _ => None) frame payload (fun _ e => inr (CID e)).
Definition event : RecordEvent :=
  {| Type_ := EventCreate; URI := "u"; CID := "c"; DID := "d"; Collection := "app.x"; Record_ := None |}.
Definition show (x : option world) :=
  (fun x => (map_to_list (subscriptions (cl x)), elements (cancelled (cl x)),
             (fun p : nat * worker => (p.1, w_id p.2, w_stage p.2)) <$> map_to_list (workers (cl x)),
             replies (cl x), map_to_list (subscribers (br x)))) <$> x.

Definition hello : list move :=
  [MFrame "connection_init||" true; MFrame "subscribe|a|q" true; MStart 0; MPublish event; MEvent 0 true].
Example hello_answers : show (go hello (new_world NewPubSub)) =
  Some ([("a", 0%nat)], [], [(0%nat, "a", Listening "1")], [RAck; RNext "a" "c"], [("1", "")]).
Proof. vm_compute. reflexivity. Qed.

(** An ID that is used again while the worker of its first use still ends: that
    worker removes the entry of the second, which then nothing can cancel, not
    even the end of the connection, and which the limit does not count. *)
Definition reused : list move :=
  [MFrame "connection_init||" true; MFrame "subscribe|a|q" true; MStart 0; MFrame "complete|a|" true;
   MFrame "subscribe|a|q" true; MStart 1; MCancelled 0; MUnsubscribe 0; MComplete 0 true; MRemove 0;
   MFrame "complete|a|" true; MReadEnds].
Example orphan : show (go reused (new_world NewPubSub)) =
  Some ([], [0%nat], [(1%nat, "a", Listening "2")], [RAck; RComplete "a"], [("2", "")]).
Proof. vm_compute. reflexivity. Qed.

(** A frame that was already read into the buffer when the client asked to
    terminate is still handled, and its subscription outlives the connection. *)
Example subscribed_after_close :
  show (go [MFrame "connection_init||" true; MFrame "connection_terminate||" true; MFrame "subscribe|a|q" true;
            MStart 0; MReadEnds] (new_world NewPubSub)) =
  Some ([("a", 0%nat)], [], [(0%nat, "a", Listening "1")], [RAck], [("1", "")]).
Proof. vm_compute. reflexivity. Qed.

(** No list of origins allows every origin. *)
Example no_origins : makeOriginChecker [] "https://evil.example" = true.
Proof. reflexivity. Qed.
(** The patterns that the CORS middleware takes are not matched here. *)
Example no_patterns : makeOriginChecker ["https://*.example.com"] "https://a.example.com" = false.
Proof. reflexivity. Qed.

Definition hello_end : world := default (new_world NewPubSub) (go hello (new_world NewPubSub)).
Lemma answers_justified_witness : justified (fun _ => None) frame payload (fun _ e => inr (CID e)) hello (RNext "a" "c").
Proof.
  apply (answers_justified (fun _ => None) frame payload (fun _ e => inr (CID e)) NewPubSub hello hello_end).
  - apply inv_new.
  - vm_compute. reflexivity.
  - vm_compute. right. left.
  - intros [].
Defined.

Lemma calm_cons m ms x y : calm frame m x -> perform (fun _ => None) frame payload (fun _ e => inr (CID e)) m x = Some y ->
  calm_all (fun _ => None) frame payload (fun _ e => inr (CID e)) ms y ->
  calm_all (fun _ => None) frame payload (fun _ e => inr (CID e)) (m :: ms) x.
Proof. intros Hc Hp Hms. split; [done|]. intros z Hz. rewrite Hp in Hz. by injection Hz as <-. Qed.

Definition closing : list move := hello ++ [MReadEnds].
Definition closing_end : world := default (new_world NewPubSub) (go closing (new_world NewPubSub)).
Lemma closing_calm : calm_all (fun _ => None) frame payload (fun _ e => inr (CID e)) closing (new_world NewPubSub).
Proof.
  eapply calm_cons; [split; [done|]|reflexivity|].
  { intros msg k w [= <-]. done. }
  eapply calm_cons; [split; [done|]|reflexivity|].
  { intros msg k w _ _ Hk. cbn in Hk. by apply lookup_empty_Some in Hk. }
  do 4 (eapply calm_cons; [exact I|vm_compute; reflexivity|]). exact I.
Qed.

Lemma subscriptions_bounded_witness :
  (size (subscriptions (cl closing_end)) <= 64)%nat /\ live_workers (cl closing_end) = ∅.
Proof.
  destruct (subscriptions_bounded (fun _ => None) frame payload (fun _ e => inr (CID e)) NewPubSub closing closing_end)
    as [Hb Hc]; [apply inv_new|vm_compute; reflexivity|]. split; [exact Hb|]. by apply Hc; [apply closing_calm|vm_compute].
Defined.

Definition drained : list move := [MCancelled 0; MUnsubscribe 0; MComplete 0 true; MRemove 0].
Lemma subscriptions_end_witness : (length drained <= moves_left closing_end)%nat.
Proof.
  eapply (subscriptions_end (fun _ => None) frame payload (fun _ e => inr (CID e)) NewPubSub closing closing_end).
  - apply inv_new.
  - vm_compute. reflexivity.
  - apply closing_calm.
  - vm_compute. reflexivity.
  - reflexivity.
  - vm_compute. reflexivity.
Defined.
End Example_ws.
