(* ===== verification/Labels.v ===== *)
(** Moderation: the tables of labels, their definitions, the preferences of
    users and the reports ([internal/database/repositories/labels.go],
    [label_definitions.go], [label_preferences.go], [reports.go]), and the admin
    resolvers over them ([internal/graphql/admin/resolvers_labels.go]). Instants
    are microseconds; the text that the driver makes of an instant is read back
    as that instant. *)
From Stdlib Require Import Sorted.
From stdpp Require Import sorting.
From S2P Require Import Prelude GoStrings Connection Statements.

Local Open Scope Z_scope.

(** ** Labels *)

(** What a label says; the row of the table adds an identifier. *)
Record LabelData := {
  l_src : string; l_uri : string; l_cid : option string; l_val : string; l_neg : bool; l_cts : Z; l_exp : option Z
}.
Record Label := { l_id : Z; l_data : LabelData }.

Definition SystemLabelerSrc : string := "did:web:system".
Inductive LabelSeverity := SeverityInform | SeverityAlert | SeverityTakedown.
Inductive LabelVisibility := VisibilityIgnore | VisibilityShow | VisibilityWarn | VisibilityHide.
Record LabelDefinition := {
  d_description : string; d_severity : LabelSeverity; d_visibility : LabelVisibility; d_created : Z
}.

Inductive ReportStatus := StatusPending | StatusResolved | StatusDismissed.
#[global] Instance ReportStatus_eq : EqDecision ReportStatus.
Proof. solve_decision. Defined.
Record Report := {
  r_reporter : string; r_subject : string; r_reasonType : string; r_reason : option string; r_status : ReportStatus;
  r_resolvedBy : option string; r_resolvedAt : option Z; r_created : Z
}.

(** Labels are kept in the order of their identifiers. *)
Record tables := {
  labels : list Label; next_label : Z;
  definitions : gmap (string * string) LabelDefinition;
  preferences : gmap (string * string * string) LabelVisibility;
  reports : gmap Z Report; next_report : Z
}.

Definition set_labels (l : list Label) (n : Z) (t : tables) : tables :=
  {| labels := l; next_label := n; definitions := definitions t; preferences := preferences t; reports := reports t;
     next_report := next_report t |}.
Definition set_definitions (d : gmap (string * string) LabelDefinition) (t : tables) : tables :=
  {| labels := labels t; next_label := next_label t; definitions := d; preferences := preferences t;
     reports := reports t; next_report := next_report t |}.
Definition set_preferences (p : gmap (string * string * string) LabelVisibility) (t : tables) : tables :=
  {| labels := labels t; next_label := next_label t; definitions := definitions t; preferences := p;
     reports := reports t; next_report := next_report t |}.
Definition set_reports (r : gmap Z Report) (n : Z) (t : tables) : tables :=
  {| labels := labels t; next_label := next_label t; definitions := definitions t; preferences := preferences t;
     reports := r; next_report := n |}.

Inductive mod_error :=
| ENoRows | EDatabase (statement : string) | EBadSubject | EUndefined (val : string) | EBadExpiration | ENoVal
| ETooLong (field : string) | EBadSeverity (s : string) | EBadVisibility (s : string) | EExists (src val : string)
| ENoReport | ENoLabelVal | EBadAction (action : string).
Abbreviation M := (Statements.M tables mod_error).
Definition stmt {A} (name : string) (f : tables -> option (A * tables)) : M A := Statements.stmt (EDatabase name) f.
Definition query {A} (name : string) (f : tables -> A) : M A := stmt name (fun t => Some (f t, t)).

(** The unique indexes: assertions by [(src, uri, val, COALESCE(cid, ''))],
    negations by [(src, uri, val)]. *)
Definition conflicts (a b : LabelData) : bool :=
  Bool.eqb (l_neg a) (l_neg b) && String.eqb (l_src a) (l_src b) && String.eqb (l_uri a) (l_uri b)
  && String.eqb (l_val a) (l_val b) && (l_neg a || String.eqb (default "" (l_cid a)) (default "" (l_cid b))).

(** [INSERT ... ON CONFLICT DO NOTHING RETURNING]; a conflict uses up an
    identifier too. *)
Definition insert_label (d : LabelData) (t : tables) : option (option Label * tables) :=
  if existsb (fun l => conflicts d (l_data l)) (labels t) then Some (None, set_labels (labels t) (next_label t + 1) t)
  else let l := {| l_id := next_label t; l_data := d |} in
       Some (Some l, set_labels (labels t ++ [l]) (next_label t + 1) t).

Definition same_cid (a b : option string) : bool :=
  match a, b with Some x, Some y => String.eqb x y | None, None => true | _, _ => false end.
Definition is_assertion (src uri val : string) (d : LabelData) : bool :=
  String.eqb (l_src d) src && String.eqb (l_uri d) uri && String.eqb (l_val d) val && negb (l_neg d).
Definition is_negation (src uri val : string) (d : LabelData) : bool :=
  String.eqb (l_src d) src && String.eqb (l_uri d) uri && String.eqb (l_val d) val && l_neg d.

(** [ORDER BY id DESC LIMIT 1]. *)
Definition latest (ok : LabelData -> bool) (t : tables) : option Label :=
  last (filter (fun l => ok (l_data l) = true) (labels t)).

Arguments same_cid : simpl never.
Arguments is_assertion : simpl never.
Arguments is_negation : simpl never.
Arguments latest : simpl never.

Definition findExistingAssertion (src uri val : string) (cid : option string) : M Label :=
  r ← query "find assertion" (latest (fun d => is_assertion src uri val d && same_cid (l_cid d) cid));
  match r with Some l => mret l | None => fail ENoRows end.

Definition Insert (now : Z) (src uri : string) (cid : option string) (val : string) (cts exp : option Z) : M Label :=
  let d := {| l_src := src; l_uri := uri; l_cid := cid; l_val := val; l_neg := false; l_cts := default now cts; l_exp := exp |} in
  r ← stmt "insert label" (insert_label d);
  match r with Some l => mret l | None => findExistingAssertion src uri val cid end.

Definition findExistingNegation (src uri val : string) : M Label :=
  r ← query "find negation" (latest (is_negation src uri val));
  match r with Some l => mret l | None => fail ENoRows end.

Definition InsertNegation (now : Z) (src uri val : string) (cts : option Z) : M Label :=
  let d := {| l_src := src; l_uri := uri; l_cid := None; l_val := val; l_neg := true; l_cts := default now cts; l_exp := None |} in
  r ← stmt "insert negation" (insert_label d);
  match r with Some l => mret l | None => findExistingNegation src uri val end.

Definition GetByID (id : Z) : M Label :=
  r ← query "label" (fun t => head (filter (fun l => l_id l = id) (labels t)));
  match r with Some l => mret l | None => fail ENoRows end.

(** [ORDER BY cts DESC, id DESC]; where only [cts] is ordered, the identifier
    stands for the order that the database leaves open. *)
Definition newer (a b : Label) : Prop := l_cts (l_data b) < l_cts (l_data a) \/ (l_cts (l_data a) = l_cts (l_data b) /\ l_id b <= l_id a).
#[global] Instance newer_dec a b : Decision (newer a b).
Proof. unfold newer. apply _. Defined.

Definition GetAllForURI (uri : string) : M (list Label) :=
  query "labels of uri" (fun t => merge_sort newer (filter (fun l => l_uri (l_data l) = uri) (labels t))).

(** Not negated, not expired, not retracted. *)
Definition expired (now : Z) (d : LabelData) : bool := match l_exp d with Some e => e <=? now | None => false end.
Definition retracts (n d : LabelData) : bool :=
  is_negation (l_src d) (l_uri d) (l_val d) n && (l_cts d <=? l_cts n).
Definition active (now : Z) (all : list LabelData) (d : LabelData) : bool :=
  negb (l_neg d) && negb (expired now d) && negb (existsb (fun n => retracts n d) all).
Definition table_data (t : tables) : list LabelData := l_data <$> labels t.

Definition GetByURIs (now : Z) (uris : list string) : M (list Label) :=
  match uris with
  | [] => mret []
  | _ => query "active labels" (fun t => merge_sort newer
           (filter (fun l => l_uri (l_data l) ∈ uris /\ active now (table_data t) (l_data l) = true) (labels t)))
  end.

Definition takedown : string := "!takedown".
Definition src_allowed (allowedSrcs : list string) (d : LabelData) : bool :=
  match allowedSrcs with [] => true | _ => existsb (String.eqb (l_src d)) allowedSrcs end.
Definition takes_down (now : Z) (allowedSrcs : list string) (t : tables) (uri : string) (d : LabelData) : bool :=
  String.eqb (l_uri d) uri && String.eqb (l_val d) takedown && src_allowed allowedSrcs d && active now (table_data t) d.
Definition HasTakedown (now : Z) (uri : string) (allowedSrcs : list string) : M bool :=
  query "takedown" (fun t => existsb (takes_down now allowedSrcs t uri) (table_data t)).
Definition GetTakedownURIs (now : Z) (uris allowedSrcs : list string) : M (list string) :=
  match uris with
  | [] => mret []
  | _ => query "takedowns" (fun t => remove_dups (l_uri <$>
           filter (fun d => l_uri d ∈ uris /\ takes_down now allowedSrcs t (l_uri d) d = true) (table_data t)))
  end.

Definition DeleteAllLabels : M unit := stmt "delete labels" (fun t => Some ((), set_labels [] (next_label t) t)).

Definition IsValidSubjectURI (uri : string) : bool := has_prefix uri "at://" || has_prefix uri "did:".

(** Pages by identifier, the newest first. *)
Section Pages.
Context {Row : Type} (id_of : Row -> Z).
Definition after_id (afterID : option Z) (r : Row) : Prop := match afterID with Some a => id_of r < a | None => True end.
#[global] Instance after_id_dec afterID r : Decision (after_id afterID r).
Proof. unfold after_id. destruct afterID; apply _. Defined.
(** The rows [ORDER BY id DESC LIMIT first+1], the number of rows of the same
    condition, and whether there are more. *)
Definition page_of (first : Z) (afterID : option Z) (rows : list Row) : list Row * bool * Z :=
  let cond := filter (after_id afterID) rows in
  let got := take (Z.to_nat (first + 1)) (reverse cond) in
  let more := first <? Z.of_nat (length got) in
  (if more then take (Z.to_nat first) got else got, more, Z.of_nat (length cond)).
End Pages.

Definition label_filter (uriFilter valFilter : option string) (l : Label) : bool :=
  match uriFilter with Some u => String.eqb (l_uri (l_data l)) u | None => true end
  && match valFilter with Some v => String.eqb (l_val (l_data l)) v | None => true end.
(** Two statements: the count and the rows. *)
Definition GetPaginated (uriFilter valFilter : option string) (first : Z) (afterID : option Z) : M (list Label * bool * Z) :=
  let page t := page_of l_id first afterID (filter (fun l => label_filter uriFilter valFilter l = true) (labels t)) in
  totalCount ← query "count labels" (fun t => (page t).2);
  rows ← query "labels" (fun t => (page t).1);
  mret (rows, totalCount).

(** ** Definitions and preferences *)

Definition ValidateVisibility (v : string) : option LabelVisibility :=
  if String.eqb v "ignore" then Some VisibilityIgnore
  else if String.eqb v "show" then Some VisibilityShow
  else if String.eqb v "warn" then Some VisibilityWarn
  else if String.eqb v "hide" then Some VisibilityHide else None.
Definition ValidateSeverity (s : string) : option LabelSeverity :=
  if String.eqb s "inform" then Some SeverityInform
  else if String.eqb s "alert" then Some SeverityAlert
  else if String.eqb s "takedown" then Some SeverityTakedown else None.

(** The order of rows is that of the database's text order, left open here. *)
Definition GetAll : M (list ((string * string) * LabelDefinition)) := query "definitions" (fun t => map_to_list (definitions t)).
Definition GetNonSystem : M (list ((string * string) * LabelDefinition)) :=
  query "definitions" (fun t => filter (fun p => p.1.1 <> SystemLabelerSrc /\ has_prefix p.1.2 "!" = false)
                                       (map_to_list (definitions t))).
Definition GetDefinition (src val : string) : M LabelDefinition :=
  r ← query "definition" (fun t => definitions t !! (src, val));
  match r with Some d => mret d | None => fail ENoRows end.
Definition InsertDefinition (now : Z) (src val description : string) (sev : LabelSeverity) (vis : LabelVisibility) : M unit :=
  stmt "insert definition" (fun t =>
    Some ((), match definitions t !! (src, val) with
              | Some _ => t
              | None => set_definitions (<[(src, val) := {| d_description := description; d_severity := sev;
                          d_visibility := vis; d_created := now |}]> (definitions t)) t
              end)).
Definition ExistsDefinition (src val : string) : M bool :=
  query "definition exists" (fun t => match definitions t !! (src, val) with Some _ => true | None => false end).

Definition GetByDID (did : string) : M (list (string * string * LabelVisibility)) :=
  query "preferences" (fun t => omap (fun p : string * string * string * LabelVisibility =>
    let '(d, src, val, v) := p in if String.eqb d did then Some (src, val, v) else None) (map_to_list (preferences t))).
Definition SetPreference (did src labelVal : string) (v : LabelVisibility) : M LabelVisibility :=
  _ ← stmt "set preference" (fun t => Some ((), set_preferences (<[(did, src, labelVal) := v]> (preferences t)) t));
  r ← query "preference" (fun t => preferences t !! (did, src, labelVal));
  match r with Some v => mret v | None => fail ENoRows end.
Definition DeletePreference (did src labelVal : string) : M unit :=
  stmt "delete preference" (fun t => Some ((), set_preferences (delete (did, src, labelVal) (preferences t)) t)).
Definition DeleteByDID (did : string) : M unit :=
  stmt "delete preferences" (fun t => Some ((), set_preferences (filter (fun p => p.1.1.1 <> did) (preferences t)) t)).

(** ** Reports *)

Definition ReasonTypes : list string := ["spam"; "violation"; "misleading"; "sexual"; "rude"; "other"].
Definition ValidateReasonType (s : string) : option string := if existsb (String.eqb s) ReasonTypes then Some s else None.
Definition ValidateReportStatus (s : string) : option ReportStatus :=
  if String.eqb s "pending" then Some StatusPending
  else if String.eqb s "resolved" then Some StatusResolved
  else if String.eqb s "dismissed" then Some StatusDismissed else None.

Definition GetReport (id : Z) : M (Z * Report) :=
  r ← query "report" (fun t => reports t !! id);
  match r with Some p => mret (id, p) | None => fail ENoRows end.

(** The table refuses a second report of a subject by one reporter, and reasons
    that are not listed; the identifier is used up. *)
Definition insert_report (now : Z) (reporterDID subjectURI reasonType : string) (reason : option string) (t : tables)
  : option ((Z * Report) * tables) :=
  if existsb (fun p => String.eqb (r_reporter p.2) reporterDID && String.eqb (r_subject p.2) subjectURI) (map_to_list (reports t))
     || negb (existsb (String.eqb reasonType) ReasonTypes)
  then None
  else let r := {| r_reporter := reporterDID; r_subject := subjectURI; r_reasonType := reasonType; r_reason := reason;
                   r_status := StatusPending; r_resolvedBy := None; r_resolvedAt := None; r_created := now |} in
       Some ((next_report t, r), set_reports (<[next_report t := r]> (reports t)) (next_report t + 1) t).
Definition InsertReport (now : Z) (reporterDID subjectURI reasonType : string) (reason : option string) : M (Z * Report) :=
  stmt "insert report" (insert_report now reporterDID subjectURI reasonType reason).

Definition resolved (now : Z) (status : ReportStatus) (by_ : string) (r : Report) : Report :=
  {| r_reporter := r_reporter r; r_subject := r_subject r; r_reasonType := r_reasonType r; r_reason := r_reason r;
     r_status := status; r_resolvedBy := Some by_; r_resolvedAt := Some now; r_created := r_created r |}.
Definition Resolve (now : Z) (id : Z) (status : ReportStatus) (resolvedBy : string) : M (Z * Report) :=
  _ ← stmt "resolve report" (fun t =>
        Some ((), set_reports (alter (resolved now status resolvedBy) id (reports t)) (next_report t) t));
  GetReport id.

(** The rows in the order of their identifiers. *)
Definition by_id (a b : Z * Report) : Prop := a.1 <= b.1.
#[global] Instance by_id_dec a b : Decision (by_id a b).
Proof. unfold by_id. apply _. Defined.
Definition all_reports (t : tables) : list (Z * Report) := merge_sort by_id (map_to_list (reports t)).
Definition status_ok (statusFilter : option ReportStatus) (r : Report) : bool :=
  match statusFilter with Some s => bool_decide (r_status r = s) | None => true end.
Definition GetPaginatedReports (statusFilter : option ReportStatus) (first : Z) (afterID : option Z)
  : M (list (Z * Report) * bool * Z) :=
  let page t := page_of fst first afterID
    (filter (fun p => status_ok statusFilter p.2 = true) (all_reports t)) in
  totalCount ← query "count reports" (fun t => (page t).2);
  rows ← query "reports" (fun t => (page t).1);
  mret (rows, totalCount).
Definition GetByReporterAndSubject (reporterDID subjectURI : string) : M (Z * Report) :=
  r ← query "report" (fun t => head (filter (fun p => r_reporter p.2 = reporterDID /\ r_subject p.2 = subjectURI) (all_reports t)));
  match r with Some p => mret p | None => fail ENoRows end.
Definition DeleteAllReports : M unit := stmt "delete reports" (fun t => Some ((), set_reports ∅ (next_report t) t)).

(** ** The admin resolvers *)

Definition maxAdminPageSize : Z := 200.
Definition clampAdminPageSize (first : Z) : Z :=
  if first <=? 0 then 20 else if maxAdminPageSize <? first then maxAdminPageSize else first.

Definition ViewerLabelPreferences (userDID : string) : M (list (string * string * LabelDefinition * LabelVisibility)) :=
  defs ← GetNonSystem;
  prefs ← GetByDID userDID;
  let prefMap : gmap (string * string) LabelVisibility :=
    foldl (fun m (p : string * string * LabelVisibility) => <[p.1 := p.2]> m) ∅ prefs in
  mret ((fun p : (string * string) * LabelDefinition =>
           (p.1.1, p.1.2, p.2, default (d_visibility p.2) (prefMap !! p.1))) <$> defs).

Section Resolvers.
Context `{CursorCodec} (domainDID : string) (parse_rfc3339 : string -> option Z).

(** A cursor that does not decode is passed over. *)
Definition decode_id (after : option string) : option Z :=
  match after with
  | Some a => if is_empty a then None else d ← base64_decode a; ParseInt d
  | None => None
  end.
Definition encode_id (id : Z) : string := base64_encode (itoa id).

Record AdminPage (Row : Type) := {
  a_edges : list (string * Row); a_hasNext : bool; a_hasPrevious : bool; a_start : string; a_end : string; a_total : Z
}.
Arguments a_edges {_}. Arguments a_hasNext {_}. Arguments a_hasPrevious {_}. Arguments a_start {_}. Arguments a_end {_}.
Arguments a_total {_}.
Definition admin_page {Row} (id_of : Row -> Z) (after : option string) (got : list Row * bool * Z) : AdminPage Row :=
  let '(rows, more, totalCount) := got in
  let edges := (fun r => (encode_id (id_of r), r)) <$> rows in
  {| a_edges := edges; a_hasNext := more; a_hasPrevious := match after with Some a => negb (is_empty a) | None => false end;
     a_start := match edges with e :: _ => e.1 | [] => "" end; a_end := match last edges with Some e => e.1 | None => "" end;
     a_total := totalCount |}.

Definition Labels (uriFilter valFilter : option string) (first : Z) (after : option string) : M (AdminPage Label) :=
  got ← GetPaginated uriFilter valFilter (clampAdminPageSize first) (decode_id after);
  mret (admin_page l_id after got).

(** A status that is not one of the three matches no report. *)
Definition Reports (statusFilter : option string) (first : Z) (after : option string) : M (AdminPage (Z * Report)) :=
  match statusFilter with
  | None => got ← GetPaginatedReports None (clampAdminPageSize first) (decode_id after); mret (admin_page fst after got)
  | Some s =>
      match ValidateReportStatus s with
      | Some st => got ← GetPaginatedReports (Some st) (clampAdminPageSize first) (decode_id after);
                   mret (admin_page fst after got)
      | None => _ ← query "count reports" (fun _ => 0); rows ← query "reports" (fun _ => []);
                mret (admin_page fst after (rows, false, 0))
      end
  end.

Definition CreateLabel (now : Z) (uri val : string) (cid exp : option string) : M Label :=
  if negb (IsValidSubjectURI uri) then fail EBadSubject
  else
    exists_ ← ExistsDefinition domainDID val;
    known ← (if exists_ : bool then mret true else ExistsDefinition SystemLabelerSrc val);
    if negb known then fail (EUndefined val)
    else match exp with
         | None => Insert now domainDID uri cid val None None
         | Some e => match parse_rfc3339 e with
                     | None => fail EBadExpiration
                     | Some e => Insert now domainDID uri cid val None (Some e)
                     end
         end.

Definition NegateLabel (now : Z) (uri val : string) : M Label :=
  if negb (IsValidSubjectURI uri) then fail EBadSubject else InsertNegation now domainDID uri val None.

Definition CreateLabelDefinition (now : Z) (src val description severity : string) (defaultVisibility : option string)
  : M LabelDefinition :=
  let src := if is_empty src then domainDID else src in
  if is_empty val then fail ENoVal
  else if 128 <? glen val then fail (ETooLong "val")
  else if 1024 <? glen description then fail (ETooLong "description")
  else if 512 <? glen src then fail (ETooLong "src")
  else match ValidateSeverity severity with
       | None => fail (EBadSeverity severity)
       | Some sev =>
           match (match defaultVisibility with None => Some VisibilityWarn | Some v => ValidateVisibility v end) with
           | None => fail (EBadVisibility (default "" defaultVisibility))
           | Some vis =>
               exists_ ← ExistsDefinition src val;
               if exists_ : bool then fail (EExists src val)
               else _ ← InsertDefinition now src val description sev vis; GetDefinition src val
           end
       end.

Definition ResolveReport (now : Z) (id : Z) (action : string) (labelVal : option string) (resolverDID : string)
  : M (Z * Report) :=
  report ← (fun s => match GetReport id s with (Err ENoRows, s') => (Err ENoReport, s') | r => r end);
  status ← (if String.eqb action "apply_label" then
              match labelVal with
              | None => fail ENoLabelVal
              | Some v => _ ← Insert now domainDID (r_subject report.2) None v None None; mret StatusResolved
              end
            else if String.eqb action "dismiss" then mret StatusDismissed
            else fail (EBadAction action));
  Resolve now id status resolverDID.
End Resolvers.
Arguments a_edges {_}. Arguments a_hasNext {_}. Arguments a_hasPrevious {_}. Arguments a_start {_}. Arguments a_end {_}.
Arguments a_total {_}.

(** ** What the labels of a stream come to *)

Definition no_tables : tables :=
  {| labels := []; next_label := 1; definitions := ∅; preferences := ∅; reports := ∅; next_report := 1 |}.

(** A negation has neither a CID nor an expiration. *)
Definition proper (d : LabelData) : Prop := l_neg d = true -> l_cid d = None /\ l_exp d = None.
(** Two labels of one place in the unique indexes are the same. *)
Definition consistent (evs : list LabelData) : Prop := forall a b, a ∈ evs -> b ∈ evs -> conflicts a b = true -> a = b.

Definition store_one (now : Z) (d : LabelData) : M Label :=
  if l_neg d then InsertNegation now (l_src d) (l_uri d) (l_val d) (Some (l_cts d))
  else Insert now (l_src d) (l_uri d) (l_cid d) (l_val d) (Some (l_cts d)) (l_exp d).
Fixpoint store (now : Z) (evs : list LabelData) : M unit :=
  match evs with [] => mret () | d :: evs => _ ← store_one now d; store now evs end.

Lemma conflicts_refl d : conflicts d d = true.
Proof. unfold conflicts. rewrite eqb_reflx, !String.eqb_refl. cbn. by destruct (l_neg d). Qed.

Lemma conflicts_sym a b : conflicts a b = conflicts b a.
Proof.
  apply eq_true_iff_eq. unfold conflicts. rewrite !andb_true_iff, !orb_true_iff, !String.eqb_eq, !eqb_true_iff.
  intuition congruence.
Qed.

Lemma same_cid_refl c : same_cid c c = true.
Proof. destruct c; [apply String.eqb_refl|done]. Qed.

Lemma latest_some ok t l : l ∈ labels t -> ok (l_data l) = true -> exists r, latest ok t = Some r /\ r ∈ labels t /\ ok (l_data r) = true.
Proof.
  intros Hl Hok. unfold latest. destruct (last _) as [r|] eqn:E.
  - exists r. split; [done|]. apply last_Some_elem_of, list_elem_of_filter in E. tauto.
  - apply last_None in E. assert (l ∈ filter (fun l => ok (l_data l) = true) (labels t)) as Hin by by apply list_elem_of_filter.
    rewrite E in Hin. by apply elem_of_nil in Hin.
Qed.

Lemma works_query {A} name (f : tables -> A) t : works (query name f) t (f t) t.
Proof. by apply works_stmt. Qed.

Lemma insert_label_cases d t : (exists l, l ∈ labels t /\ conflicts d (l_data l) = true /\
    insert_label d t = Some (None, set_labels (labels t) (next_label t + 1) t)) \/
  ((forall l, l ∈ labels t -> conflicts d (l_data l) = false) /\
    insert_label d t = Some (Some {| l_id := next_label t; l_data := d |},
      set_labels (labels t ++ [{| l_id := next_label t; l_data := d |}]) (next_label t + 1) t)).
Proof.
  unfold insert_label. destruct (existsb _ _) eqn:E.
  - left. apply existsb_elem_of in E as (l & Hl & Hc). by exists l.
  - right. split; [|done]. intros l Hl. apply not_true_iff_false. intros Hc. apply not_true_iff_false in E. apply E.
    apply existsb_elem_of. by exists l.
Qed.

Lemma conflict_is d k : conflicts d k = true -> l_src d = l_src k /\ l_uri d = l_uri k /\ l_val d = l_val k /\ l_neg d = l_neg k.
Proof. unfold conflicts. rewrite !andb_true_iff, !String.eqb_eq, eqb_true_iff. intuition. Qed.

Lemma stored_new d t (m : option Label -> M Label) name :
  (forall l, l ∈ labels t -> conflicts d (l_data l) = false) ->
  (forall l, m (Some l) = mret l) ->
  exists l t', works (r ← stmt name (insert_label d); m r) t l t' /\ forall x, x ∈ table_data t' <-> x ∈ table_data t \/ x = d.
Proof.
  intros Hno Hm. destruct (insert_label_cases d t) as [(l & Hl & Hc & _)|[_ Hi]]; [by rewrite Hno in Hc|].
  eexists. eexists. split; [eapply works_bind; [by apply works_stmt|rewrite Hm; apply works_ret]|].
  intros x. unfold table_data. cbn. rewrite fmap_app, elem_of_app. cbn. by rewrite list_elem_of_singleton.
Qed.

Lemma stored_old d t k name name' ok : k ∈ labels t -> l_data k = d -> ok d = true -> conflicts d d = true ->
  exists l t', works (r ← stmt name (insert_label d);
                      match r with Some l => mret l
                              | None => r ← query name' (latest ok); match r with Some l => mret l | None => fail ENoRows end end) t l t' /\
    forall x, x ∈ table_data t' <-> x ∈ table_data t \/ x = d.
Proof.
  intros Hk Hd Hok Hself. destruct (insert_label_cases d t) as [(l & Hl & Hc & Hi)|[Hno _]].
  2: { rewrite <-Hd in Hself at 2. by rewrite Hno in Hself. }
  set (t' := set_labels (labels t) (next_label t + 1) t) in *.
  destruct (latest_some ok t' k Hk) as (r & Hr & _); [by rewrite Hd|]. exists r, t'. split.
  - eapply works_bind; [by apply works_stmt|]. cbn. eapply works_bind; [apply works_query|]. rewrite Hr. apply works_ret.
  - intros x. split; [by left|]. intros [Hx| ->]; [done|]. rewrite <-Hd. by apply (list_elem_of_fmap_2 l_data).
Qed.

Lemma store_one_works now d t : proper d -> consistent (d :: table_data t) ->
  exists l t', works (store_one now d) t l t' /\ forall x, x ∈ table_data t' <-> x ∈ table_data t \/ x = d.
Proof.
  intros Hp Hc.
  assert ((forall l, l ∈ labels t -> conflicts d (l_data l) = false) \/ exists k, k ∈ labels t /\ l_data k = d) as Hor.
  { destruct (insert_label_cases d t) as [(k & Hk & Hkc & _)|[Hno _]]; [right|by left]. exists k. split; [done|].
    symmetry. apply Hc; [left|right; by apply list_elem_of_fmap_2|done]. }
  unfold store_one. destruct (l_neg d) eqn:Hn.
  - destruct (Hp Hn) as [Hcid Hexp]. unfold InsertNegation, findExistingNegation. cbn [default].
    replace {| l_src := l_src d; l_uri := _; l_cid := _; l_val := _; l_neg := _; l_cts := _; l_exp := _ |} with d
      by (destruct d; cbn in *; congruence).
    destruct Hor as [Hno|(k & Hk & Hd)]; [by apply stored_new|]. eapply stored_old; [done..| |apply conflicts_refl].
    unfold is_negation. by rewrite !String.eqb_refl, Hn.
  - unfold Insert, findExistingAssertion. cbn [default].
    replace {| l_src := l_src d; l_uri := _; l_cid := _; l_val := _; l_neg := _; l_cts := _; l_exp := _ |} with d
      by (destruct d; cbn in *; congruence).
    destruct Hor as [Hno|(k & Hk & Hd)]; [by apply stored_new|]. eapply stored_old; [done..| |apply conflicts_refl].
    unfold is_assertion. by rewrite !String.eqb_refl, Hn, same_cid_refl.
Qed.

Lemma store_works now evs : forall t, Forall proper evs -> consistent (evs ++ table_data t) ->
  exists t', works (store now evs) t () t' /\ forall x, x ∈ table_data t' <-> x ∈ table_data t \/ x ∈ evs.
Proof.
  induction evs as [|d evs IH]; intros t Hp Hc.
  { exists t. split; [apply works_ret|]. intros x. rewrite elem_of_nil. tauto. }
  apply Forall_cons in Hp as [Hpd Hp].
  destruct (store_one_works now d t Hpd) as (l & t1 & Hw1 & H1).
  { intros a b Ha Hb. apply Hc; set_solver. }
  destruct (IH t1 Hp) as (t' & Hw & H').
  { intros a b. rewrite !elem_of_app, !H1. intros Ha Hb. apply Hc; set_solver. }
  exists t'. split; [by eapply works_bind|]. intros x. rewrite H', H1, elem_of_cons. tauto.
Qed.

(** A label holds among others: it is asserted, it has not expired, and no
    negation of it is as late. *)
Definition holds (now : Z) (evs : list LabelData) (d : LabelData) : Prop :=
  d ∈ evs /\ l_neg d = false /\ (forall e, l_exp d = Some e -> now < e) /\
  forall n, n ∈ evs -> l_neg n = true -> l_src n = l_src d -> l_uri n = l_uri d -> l_val n = l_val d -> l_cts n < l_cts d.

Lemma active_holds now evs all d : (forall x, x ∈ all <-> x ∈ evs) -> d ∈ all /\ active now all d = true <-> holds now evs d.
Proof.
  intros Hall. unfold active, holds. rewrite Hall, !andb_true_iff, !negb_true_iff.
  assert (expired now d = false <-> forall e, l_exp d = Some e -> now < e) as ->.
  { unfold expired. destruct (l_exp d) as [e|]; [|done]. rewrite Z.leb_gt. split; [by intros ? ? [= <-]|auto]. }
  assert (existsb (fun n => retracts n d) all = false <-> forall n, n ∈ evs -> l_neg n = true -> l_src n = l_src d ->
    l_uri n = l_uri d -> l_val n = l_val d -> l_cts n < l_cts d) as ->; [|tauto].
  rewrite <-not_true_iff_false, existsb_elem_of. unfold retracts, is_negation. split.
  - intros Hno n Hn Hneg Hs Hu Hv. apply Z.nle_gt. intros Hle. apply Hno. exists n. split; [by apply Hall|].
    rewrite Hs, Hu, Hv, !String.eqb_refl, Hneg. by apply Z.leb_le.
  - intros Hlt (n & Hn%Hall & Hr). rewrite !andb_true_iff, !String.eqb_eq, Z.leb_le in Hr. destruct Hr as [[[[Hs Hu] Hv] Hneg] Hle].
    specialize (Hlt n Hn Hneg Hs Hu Hv). lia.
Qed.

Lemma GetByURIs_works now uris t : uris <> [] -> exists ls, works (GetByURIs now uris) t ls t /\
  forall l, l ∈ ls <-> l ∈ labels t /\ l_uri (l_data l) ∈ uris /\ active now (table_data t) (l_data l) = true.
Proof.
  intros Hu. unfold GetByURIs. destruct uris as [|u uris]; [done|]. eexists. split; [apply works_query|].
  intros l. rewrite merge_sort_Permutation, list_elem_of_filter. tauto.
Qed.

(** What a stream of labels comes to. *)
Lemma labels_as_events_ now at_ evs uris : Forall proper evs -> consistent evs -> uris <> [] ->
  exists t ls, works (store now evs) no_tables () t /\ works (GetByURIs at_ uris) t ls t /\
  forall d, d ∈ l_data <$> ls <-> l_uri d ∈ uris /\ holds at_ evs d.
Proof.
  intros Hp Hc Hu. destruct (store_works now evs no_tables Hp) as (t & Hw & Ht).
  { cbn. by rewrite app_nil_r. }
  destruct (GetByURIs_works at_ uris t Hu) as (ls & Hls & Hin). exists t, ls. split_and!; [done|done|].
  assert (forall x, x ∈ table_data t <-> x ∈ evs) as Hall by (intros x; rewrite Ht; cbn; rewrite elem_of_nil; tauto).
  intros d. rewrite <-(active_holds at_ evs _ d Hall), list_elem_of_fmap. split.
  - intros (l & -> & (Hl & Hlu & Ha)%Hin). split; [done|]. split; [by apply list_elem_of_fmap_2|done].
  - intros (Hdu & Hd & Ha). apply list_elem_of_fmap in Hd as (l & -> & Hl). exists l. split; [done|]. by apply Hin.
Qed.

(** C19: storing any labels of a labeler, in which two labels of one place in the
    unique indexes are the same, and reading the labels of some subjects gives
    exactly the labels that are asserted, not expired, and not retracted by a
    negation that is as late. *)
Theorem labels_as_events now at_ evs uris : Forall proper evs -> consistent evs -> uris <> [] ->
  exists t ls, works (store now evs) no_tables () t /\ works (GetByURIs at_ uris) t ls t /\
  forall d, d ∈ l_data <$> ls <-> l_uri d ∈ uris /\ holds at_ evs d.
Proof. apply labels_as_events_. Qed.

(** The order in which labels arrive, and how often, does not matter: a
    backfill and a stream that overlap give the same labels as the stream alone. *)
Theorem labels_order_independent now at_ evs evs' uris : Forall proper evs -> consistent evs -> (forall d, d ∈ evs <-> d ∈ evs') ->
  uris <> [] -> exists t t' ls ls', works (store now evs) no_tables () t /\ works (store now evs') no_tables () t' /\
  works (GetByURIs at_ uris) t ls t /\ works (GetByURIs at_ uris) t' ls' t' /\
  forall d, d ∈ l_data <$> ls <-> d ∈ l_data <$> ls'.
Proof.
  intros Hp Hc Heq Hu. destruct (labels_as_events_ now at_ evs uris Hp Hc Hu) as (t & ls & H1 & H2 & H3).
  destruct (labels_as_events_ now at_ evs' uris) as (t' & ls' & H1' & H2' & H3'); [| |done|].
  - rewrite Forall_forall in Hp |- *. intros d Hd%Heq. auto.
  - intros a b Ha%Heq Hb%Heq. by apply Hc.
  - exists t, t', ls, ls'. split_and!; [done..|]. intros d. rewrite H3, H3'. unfold holds. setoid_rewrite Heq. tauto.
Qed.

(** The three questions about takedowns agree: a subject has one exactly when
    it is among those that have one, and exactly when the labels of the subject
    show a takedown of an allowed labeler. *)
Theorem takedown_agrees now uri allowedSrcs t : exists b us ls,
  works (HasTakedown now uri allowedSrcs) t b t /\ works (GetTakedownURIs now [uri] allowedSrcs) t us t /\
  works (GetByURIs now [uri]) t ls t /\
  (b = true <-> us = [uri]) /\
  (b = true <-> exists l, l ∈ ls /\ l_val (l_data l) = takedown /\ src_allowed allowedSrcs (l_data l) = true).
Proof.
  destruct (GetByURIs_works now [uri] t ltac:(done)) as (ls & Hls & Hin).
  eexists. eexists. exists ls. split_and!; [apply works_query|apply works_query|done| |].
  - split.
    + intros (d & Hd & Ht)%existsb_elem_of. set (us := remove_dups _).
      assert (forall u, u ∈ us -> u = uri) as Hone.
      { intros u (x & -> & [[Hx%list_elem_of_singleton _] _]%list_elem_of_filter)%elem_of_remove_dups%list_elem_of_fmap. done. }
      assert (uri ∈ us) as Hu.
      { apply elem_of_remove_dups, list_elem_of_fmap. pose proof Ht as Ht'. unfold takes_down in Ht'.
        rewrite !andb_true_iff, !String.eqb_eq in Ht'. destruct Ht' as [[[Hdu _] _] _]. exists d. split; [done|].
        apply list_elem_of_filter. rewrite Hdu. split; [split; [by left|done]|done]. }
      pose proof (NoDup_remove_dups (l_uri <$> filter (fun d => l_uri d ∈ [uri] /\ takes_down now allowedSrcs t (l_uri d) d = true) (table_data t))) as Hnd.
      fold us in Hnd. clearbody us. destruct us as [|u [|v us]]; [by apply elem_of_nil in Hu|f_equal; apply Hone; left|].
      exfalso. apply NoDup_cons in Hnd as [Hnd _]. apply Hnd. rewrite (Hone u) by left. rewrite (Hone v) by (right; left). left.
    + intros Hus. apply existsb_elem_of. assert (uri ∈ [uri]) as Hu by left. rewrite <-Hus in Hu.
      apply elem_of_remove_dups, list_elem_of_fmap in Hu as (d & Hd & [[_ Ht] Hin']%list_elem_of_filter).
      exists d. split; [done|]. by rewrite Hd.
  - rewrite existsb_elem_of. unfold takes_down. split.
    + intros (d & (l & -> & Hl)%list_elem_of_fmap & Ht). rewrite !andb_true_iff, !String.eqb_eq in Ht.
      destruct Ht as [[[Hu Hv] Hs] Ha]. exists l. split_and!; [|done|done]. apply Hin. rewrite Hu. split_and!; [done|by left|done].
    + intros (l & (Hl & Hu%list_elem_of_singleton & Ha)%Hin & Hv & Hs). exists (l_data l). split; [by apply list_elem_of_fmap_2|].
      by rewrite Hu, Hv, !String.eqb_refl, Hs, Ha.
Qed.

(** ** The tables stay well formed *)

Record well_formed (t : tables) : Prop := {
  w_ids : StronglySorted (fun a b => l_id a < l_id b) (labels t);
  w_next : forall l, l ∈ labels t -> l_id l < next_label t;
  w_unique : forall a b, a ∈ labels t -> b ∈ labels t -> conflicts (l_data a) (l_data b) = true -> a = b;
  w_report_next : forall id r, reports t !! id = Some r -> id < next_report t;
  w_report_unique : forall i j r s, reports t !! i = Some r -> reports t !! j = Some s ->
    r_reporter r = r_reporter s -> r_subject r = r_subject s -> i = j;
  w_report_reason : forall id r, reports t !! id = Some r -> r_reasonType r ∈ ReasonTypes;
  w_report_status : forall id r, reports t !! id = Some r ->
    (r_status r = StatusPending <-> r_resolvedBy r = None) /\ (r_status r = StatusPending <-> r_resolvedAt r = None)
}.

Lemma no_tables_wf : well_formed no_tables.
Proof.
  split; cbn; [constructor|by intros l ?%elem_of_nil|by intros a b ?%elem_of_nil| | | |];
    intros; exfalso; match goal with H : ∅ !! _ = Some _ |- _ => by apply lookup_empty_Some in H end.
Qed.

Lemma insert_label_wf d t o t' : well_formed t -> insert_label d t = Some (o, t') -> well_formed t'.
Proof.
  intros [H1 H2 H3 H4 H5 H6 H7] Hi. destruct (insert_label_cases d t) as [(l & _ & _ & E)|[Hno E]]; rewrite E in Hi; injection Hi as <- <-.
  - split; try done. intros l' Hl'. cbn. apply H2 in Hl'. lia.
  - split; cbn; try done.
    + apply StronglySorted_app. split_and!; [|done|repeat constructor]. intros a b Ha ->%list_elem_of_singleton. cbn. by apply H2.
    + intros l' [Hl'%H2| ->%list_elem_of_singleton]%elem_of_app; cbn; lia.
    + intros a b [Ha| ->%list_elem_of_singleton]%elem_of_app [Hb| ->%list_elem_of_singleton]%elem_of_app Hc; cbn in Hc.
      * by apply H3.
      * rewrite conflicts_sym in Hc. by rewrite Hno in Hc.
      * by rewrite Hno in Hc.
      * done.
Qed.

Create HintDb moderation.
Lemma keeps_query {A} name (f : tables -> A) : keeps well_formed (query name f).
Proof. apply keeps_stmt. by intros t a t' Ht [= _ <-]. Qed.

Lemma set_other_wf t t' : well_formed t -> labels t' = labels t -> next_label t' = next_label t -> reports t' = reports t ->
  next_report t' = next_report t -> well_formed t'.
Proof. intros [H1 H2 H3 H4 H5 H6 H7] E1 E2 E3 E4. split; rewrite ?E1, ?E2, ?E3, ?E4; done. Qed.

Lemma insert_report_wf now reporter subject reason text t o t' : well_formed t ->
  insert_report now reporter subject reason text t = Some (o, t') -> well_formed t'.
Proof.
  intros [H1 H2 H3 H4 H5 H6 H7]. unfold insert_report. destruct (_ || _) eqn:E; [done|]. intros [= _ <-].
  apply orb_false_iff in E as [Hno Hr%negb_false_iff].
  assert (forall i r, reports t !! i = Some r -> r_reporter r = reporter -> r_subject r = subject -> False) as Hfree.
  { intros i r Hi Hrep Hs. apply not_true_iff_false in Hno. apply Hno, existsb_elem_of. exists (i, r).
    split; [by apply elem_of_map_to_list|]. cbn. by rewrite Hrep, Hs, !String.eqb_refl. }
  split; cbn; try done.
  - intros i r [[<- <-]|[_ Hi]]%lookup_insert_Some; [lia|]. apply H4 in Hi. lia.
  - intros i j r s [[<- <-]|[_ Hi]]%lookup_insert_Some [[<- <-]|[_ Hj]]%lookup_insert_Some Hrep Hs; cbn in *.
    + done.
    + exfalso. by eapply (Hfree j s).
    + exfalso. by eapply (Hfree i r).
    + by eapply H5.
  - intros i r [[<- <-]|[_ Hi]]%lookup_insert_Some; [|by eapply H6]. cbn.
    apply existsb_elem_of in Hr as (x & Hx & ->%String.eqb_eq). done.
  - intros i r [[<- <-]|[_ Hi]]%lookup_insert_Some; [done|by eapply H7].
Qed.

Lemma resolve_wf now status by_ id t : well_formed t -> status <> StatusPending ->
  well_formed (set_reports (alter (resolved now status by_) id (reports t)) (next_report t) t).
Proof.
  intros [H1 H2 H3 H4 H5 H6 H7] Hs.
  assert (forall i r, alter (resolved now status by_) id (reports t) !! i = Some r -> exists r', reports t !! i = Some r' /\
    r_reporter r' = r_reporter r /\ r_subject r' = r_subject r /\ r_reasonType r' = r_reasonType r /\
    (r = r' \/ r = resolved now status by_ r')) as Hback.
  { intros i r. rewrite lookup_alter_Some. intros [(<- & y & Hy & ->)|[_ Hi]]; [exists y|exists r]; split_and!; auto. }
  split; cbn; try done.
  - intros i r (r' & Hr' & _)%Hback. by eapply H4.
  - intros i j r s (r' & Hr' & E1 & E2 & _)%Hback (s' & Hs' & E3 & E4 & _)%Hback Hrep Hsub. eapply H5; [done|done|congruence..].
  - intros i r (r' & Hr' & _ & _ & E & _)%Hback. rewrite <-E. by eapply H6.
  - intros i r (r' & Hr' & _ & _ & _ & [->| ->])%Hback; [by eapply H7|done].
Qed.

Lemma Insert_keeps now src uri cid val cts exp : keeps well_formed (Insert now src uri cid val cts exp).
Proof.
  apply keeps_bind; [apply keeps_stmt; intros t a t'; apply insert_label_wf|]. intros [l|]; [apply keeps_ret|].
  apply keeps_bind; [apply keeps_query|]. intros [l|]; [apply keeps_ret|apply keeps_fail].
Qed.
Lemma InsertNegation_keeps now src uri val cts : keeps well_formed (InsertNegation now src uri val cts).
Proof.
  apply keeps_bind; [apply keeps_stmt; intros t a t'; apply insert_label_wf|]. intros [l|]; [apply keeps_ret|].
  apply keeps_bind; [apply keeps_query|]. intros [l|]; [apply keeps_ret|apply keeps_fail].
Qed.
Lemma GetReport_keeps id : keeps well_formed (GetReport id).
Proof. apply keeps_bind; [apply keeps_query|]. intros [r|]; [apply keeps_ret|apply keeps_fail]. Qed.
Lemma Resolve_keeps now id status by_ : status <> StatusPending -> keeps well_formed (Resolve now id status by_).
Proof.
  intros Hs. apply keeps_bind; [|intros _; apply GetReport_keeps]. apply keeps_stmt. intros t a t' Ht [= _ <-]. by apply resolve_wf.
Qed.
Lemma InsertReport_keeps now a b c d : keeps well_formed (InsertReport now a b c d).
Proof. apply keeps_stmt. intros t o t'. apply insert_report_wf. Qed.
Lemma SetPreference_keeps did src val v : keeps well_formed (SetPreference did src val v).
Proof.
  apply keeps_bind; [apply keeps_stmt; intros t a t' Ht [= _ <-]; by eapply set_other_wf|]. intros _.
  apply keeps_bind; [apply keeps_query|]. intros [r|]; [apply keeps_ret|apply keeps_fail].
Qed.
Lemma InsertDefinition_keeps now src val description sev vis : keeps well_formed (InsertDefinition now src val description sev vis).
Proof. apply keeps_stmt. intros t a t' Ht [= _ <-]. case_match; [done|by eapply set_other_wf]. Qed.
Lemma ExistsDefinition_keeps src val : keeps well_formed (ExistsDefinition src val).
Proof. apply keeps_query. Qed.
Lemma DeletePreferences_keeps did src val : keeps well_formed (DeletePreference did src val) /\ keeps well_formed (DeleteByDID did).
Proof. split; apply keeps_stmt; intros t a t' Ht [= _ <-]; by eapply set_other_wf. Qed.
Lemma DeleteAll_keeps : keeps well_formed DeleteAllLabels /\ keeps well_formed DeleteAllReports.
Proof.
  split; apply keeps_stmt; intros t a t' [H1 H2 H3 H4 H5 H6 H7] [= _ <-].
  - split; cbn; try done; [constructor|by intros l ?%elem_of_nil|by intros x y ?%elem_of_nil].
  - split; cbn; try done; intros; exfalso; match goal with H : ∅ !! _ = Some _ |- _ => by apply lookup_empty_Some in H end.
Qed.
#[export] Hint Resolve keeps_query Insert_keeps InsertNegation_keeps GetReport_keeps InsertReport_keeps SetPreference_keeps
  InsertDefinition_keeps ExistsDefinition_keeps : moderation.

(** The operations that change the tables, of admins, labelers and users. *)
Inductive request :=
| QCreate (uri val : string) (cid exp : option string)
| QNegate (uri val : string)
| QDefine (src val description severity : string) (vis : option string)
| QResolve (id : Z) (action : string) (labelVal : option string) (by_ : string)
| QLabel (d : LabelData)
| QReport (reporter subject reasonType : string) (reason : option string)
| QPrefer (did src val : string) (v : LabelVisibility)
| QForget (did src val : string)
| QForgetAll (did : string)
| QDeleteLabels
| QDeleteReports.

Section Moderation.
Context `{CursorCodec} (domainDID : string) (parse_rfc3339 : string -> option Z).

Definition serve (now : Z) (q : request) : M unit :=
  match q with
  | QCreate uri val cid exp => _ ← CreateLabel domainDID parse_rfc3339 now uri val cid exp; mret ()
  | QNegate uri val => _ ← NegateLabel domainDID now uri val; mret ()
  | QDefine src val description severity vis => _ ← CreateLabelDefinition domainDID now src val description severity vis; mret ()
  | QResolve id action labelVal by_ => _ ← ResolveReport domainDID now id action labelVal by_; mret ()
  | QLabel d => _ ← store_one now d; mret ()
  | QReport reporter subject reasonType reason => _ ← InsertReport now reporter subject reasonType reason; mret ()
  | QPrefer did src val v => _ ← SetPreference did src val v; mret ()
  | QForget did src val => DeletePreference did src val
  | QForgetAll did => DeleteByDID did
  | QDeleteLabels => DeleteAllLabels
  | QDeleteReports => DeleteAllReports
  end.

Lemma ResolveReport_keeps now id action labelVal by_ : keeps well_formed (ResolveReport domainDID now id action labelVal by_).
Proof.
  unfold ResolveReport. intros fs t Ht. unfold mbind at 1, M_bind at 1.
  pose proof (GetReport_keeps id fs t Ht) as Hg. destruct (GetReport id (fs, t)) as [[[i r]|[]] [fs1 t1]]; try exact Hg.
  cbn in Hg |- *. revert fs1 t1 Hg. change (keeps well_formed (status ← (if String.eqb action "apply_label" then
    match labelVal with None => fail ENoLabelVal | Some v => _ ← Insert now domainDID (r_subject r) None v None None; mret StatusResolved end
    else if String.eqb action "dismiss" then mret StatusDismissed else fail (EBadAction action)); Resolve now id status by_)).
  destruct (String.eqb action "apply_label").
  - destruct labelVal as [v|]; [|by intros fs1 t1 Ht1].
    intros fs1 t1 Ht1. unfold mbind, M_bind. pose proof (Insert_keeps now domainDID (r_subject r) None v None None fs1 t1 Ht1) as Hi.
    destruct (Insert _ _ _ _ _ _ _ (fs1, t1)) as [[l|e] [fs2 t2]]; [|exact Hi]. cbn in Hi |- *. by apply Resolve_keeps.
  - destruct (String.eqb action "dismiss"); [intros fs1 t1 Ht1; by apply Resolve_keeps|intros fs1 t1 Ht1; done].
Qed.

Lemma serve_keeps now q : keeps well_formed (serve now q).
Proof.
  destruct q; cbn [serve]; try (apply keeps_bind; [|intros ?; apply keeps_ret]); auto with moderation.
  - unfold CreateLabel. destruct (negb _); [apply keeps_fail|]. apply keeps_bind; [auto with moderation|]. intros e.
    apply keeps_bind; [destruct e; [apply keeps_ret|auto with moderation]|]. intros [|]; [|apply keeps_fail]. cbn [negb].
    destruct exp as [e'|]; [|auto with moderation]. destruct (parse_rfc3339 e'); [auto with moderation|apply keeps_fail].
  - unfold NegateLabel. destruct (negb _); [apply keeps_fail|auto with moderation].
  - unfold CreateLabelDefinition. repeat (case_match; try apply keeps_fail);
      (apply keeps_bind; [auto with moderation|]; intros [|]; [apply keeps_fail|];
       apply keeps_bind; [auto with moderation|]; intros _; apply keeps_bind; [apply keeps_query|];
       intros [d|]; [apply keeps_ret|apply keeps_fail]).
  - apply ResolveReport_keeps.
  - unfold store_one. destruct (l_neg d); auto with moderation.
  - apply (DeletePreferences_keeps did src val).
  - apply (DeletePreferences_keeps did "" "").
  - apply DeleteAll_keeps.
  - apply DeleteAll_keeps.
Qed.

(** Requests one after the other, each with the fates of its statements. *)
Fixpoint serve_all (qs : list (Z * request * list fate)) (t : tables) : tables :=
  match qs with [] => t | (now, q, fs) :: qs => serve_all qs (serve now q (fs, t)).2.2 end.

Lemma moderation_ok qs : well_formed (serve_all qs no_tables).
Proof.
  assert (forall t, well_formed t -> well_formed (serve_all qs t)) as H0; [|apply H0, no_tables_wf].
  induction qs as [|[[now q] fs] qs IH]; intros t Ht; [done|]. apply IH, serve_keeps, Ht.
Qed.

(** Whatever admins, labelers and users ask, and whichever statements fail or
    lose their answer, the tables stay well formed: labels have rising
    identifiers and none stands for another of the same place, a reporter has at
    most one report of a subject, with a listed reason, and a report is pending
    exactly as long as nobody has resolved it. *)
Theorem moderation_kept qs : well_formed (serve_all qs no_tables).
Proof. apply moderation_ok. Qed.

(** *** Resolving a report *)

(** Applying a label to a report ends in one of two ways: the report is
    resolved by the one who asked, and its subject bears the label of this
    server; or the label is there already for an empty CID, the request fails and
    the report is as before. *)
Theorem report_resolution now id r v by_ t : reports t !! id = Some r ->
  exists res t', ResolveReport domainDID now id "apply_label" (Some v) by_ ([], t) = (res, ([], t')) /\
  (exists l, l ∈ labels t' /\ is_assertion domainDID (r_subject r) v (l_data l) = true /\ default "" (l_cid (l_data l)) = "") /\
  ((res = Ok (id, resolved now StatusResolved by_ r) /\ reports t' !! id = Some (resolved now StatusResolved by_ r)) \/
   (res = Err ENoRows /\ reports t' = reports t /\ exists l, l ∈ labels t' /\ l_cid (l_data l) = Some "")).
Proof.
  intros Hr. unfold ResolveReport. unfold mbind at 1, M_bind at 1.
  assert (GetReport id ([], t) = (Ok (id, r), ([], t))) as -> by (unfold GetReport, query, stmt, Statements.stmt, mbind, M_bind; cbn; by rewrite Hr).
  cbn [fst snd].
  set (d := {| l_src := domainDID; l_uri := r_subject r; l_cid := None; l_val := v; l_neg := false; l_cts := now; l_exp := None |}).
  assert (forall l t1, works (Insert now domainDID (r_subject r) None v None None) t l t1 -> reports t1 = reports t ->
    (status ← (_ ← Insert now domainDID (r_subject r) None v None None; mret StatusResolved); Resolve now id status by_) ([], t) =
    (Ok (id, resolved now StatusResolved by_ r),
     ([], set_reports (alter (resolved now StatusResolved by_) id (reports t1)) (next_report t1) t1))) as Hok.
  { intros l t1 Hw Hrep. unfold works in Hw. unfold mbind, M_bind. rewrite Hw. cbn [fst snd].
    unfold Resolve, GetReport, query, stmt, Statements.stmt, mbind, M_bind. cbn. rewrite Hrep, lookup_alter_eq, Hr. done. }
  destruct (insert_label_cases d t) as [(l & Hl & Hc & Hi)|[Hno Hi]].
  - set (t1 := set_labels (labels t) (next_label t + 1) t) in *. pose proof (conflict_is d _ Hc) as (Es & Eu & Ev & En).
    assert (is_assertion domainDID (r_subject r) v (l_data l) = true) as Hl'.
    { unfold is_assertion. by rewrite <-Es, <-Eu, <-Ev, <-En, !String.eqb_refl. }
    assert (default "" (l_cid (l_data l)) = "") as Hcid.
    { unfold conflicts in Hc. rewrite !andb_true_iff in Hc. destruct Hc as [_ Hc]. cbn in Hc. by destruct (default "" (l_cid (l_data l))). }
    destruct (latest (fun x => is_assertion domainDID (r_subject r) v x && same_cid (l_cid x) None) t1) as [k|] eqn:Hk.
    + exists (Ok (id, resolved now StatusResolved by_ r)). eexists. split; [apply (Hok k t1); [|done]|].
      { unfold Insert. fold d. eapply works_bind; [apply works_stmt; exact Hi|]. eapply works_bind; [apply works_query|].
        rewrite Hk. apply works_ret. }
      split; [by exists l|]. left. split; [done|]. cbn. by rewrite lookup_alter_eq, Hr.
    + exists (Err ENoRows), t1. split; [|split; [by exists l|]].
      { unfold mbind, M_bind, Insert, stmt, Statements.stmt, mbind, M_bind. cbn. fold d. rewrite Hi. cbn. fold t1.
        replace (findExistingAssertion domainDID (r_subject r) v None ([], t1)) with (Err (A := Label) ENoRows, (@nil fate, t1)); [done|].
        unfold findExistingAssertion, query, stmt, Statements.stmt, mbind, M_bind. cbn. by rewrite Hk. }
      right. split_and!; [done|done|]. exists l. split; [done|]. destruct (l_cid (l_data l)) as [c|] eqn:Hlc; [by f_equal|]. exfalso.
      destruct (latest_some (fun x => is_assertion domainDID (r_subject r) v x && same_cid (l_cid x) None) t1 l Hl) as (k & Hk' & _);
        [by rewrite Hl', Hlc|congruence].
  - set (l := {| l_id := next_label t; l_data := d |}) in *. set (t1 := set_labels (labels t ++ [l]) (next_label t + 1) t) in *.
    exists (Ok (id, resolved now StatusResolved by_ r)). eexists. split; [apply (Hok l t1); [|done]|].
    { unfold Insert. fold d. eapply works_bind; [apply works_stmt; exact Hi|apply works_ret]. }
    split.
    + exists l. cbn. split; [apply elem_of_app; right; left|]. split; [|done]. unfold is_assertion. cbn. by rewrite !String.eqb_refl.
    + left. split; [done|]. cbn. by rewrite lookup_alter_eq, Hr.
Qed.

End Moderation.

(** *** Following the pages *)

Section Following.
Context `{CursorCodec}.

Fixpoint follow_labels (fuel : nat) (uriFilter valFilter : option string) (first : Z) (after : option string) (t : tables)
  : option (list Label) :=
  match fuel with
  | O => None
  | S f => match (Labels uriFilter valFilter first after ([], t)).1 with
           | Err _ => None
           | Ok p => if a_hasNext p
                     then rest ← follow_labels f uriFilter valFilter first (Some (a_end p)) t; Some ((a_edges p).*2 ++ rest)
                     else Some ((a_edges p).*2)
           end
  end.

Lemma decode_encode_id id : in_int64 id -> decode_id (Some (encode_id id)) = Some id.
Proof.
  intros Hid. unfold decode_id, encode_id. assert (itoa id <> "") as Hne.
  { intros E. pose proof (ParseInt_itoa id Hid) as Hp. rewrite E in Hp. done. }
  pose proof (base64_nonempty _ Hne) as Hn. destruct (base64_encode (itoa id)) eqn:E; [done|]. cbn [is_empty].
  rewrite <-E, base64_inverse. cbn. by apply ParseInt_itoa.
Qed.

(** The rows before those that were read already. *)
Lemma rows_before (rows l1 l2 : list Label) : StronglySorted (fun a b => l_id a < l_id b) rows -> rows = l1 ++ l2 ->
  filter (after_id l_id (l_id <$> head l2)) rows = l1.
Proof.
  intros Hs ->. destruct l2 as [|x l2]; cbn [head].
  - rewrite app_nil_r. by apply filter_all.
  - change (l_id <$> Some x) with (Some (l_id x)). destruct (StronglySorted_split _ _ _ _ Hs) as [H1 H2]. clear Hs.
    rewrite filter_app. assert (forall y, y ∈ x :: l2 -> ~ after_id l_id (Some (l_id x)) y) as Hno.
    { intros y [->|Hy%H2]%elem_of_cons; cbn; lia. }
    rewrite (filter_none _ (x :: l2)), app_nil_r by (intros y Hy Hin; by apply (Hno y)). by apply filter_all.
Qed.

Lemma clamp_range first : 1 <= clampAdminPageSize first <= maxAdminPageSize.
Proof. unfold clampAdminPageSize, maxAdminPageSize. repeat case_match; lia. Qed.

Lemma labels_page uriFilter valFilter first t l1 l2 after : well_formed t ->
  filter (fun l => label_filter uriFilter valFilter l = true) (labels t) = l1 ++ l2 ->
  decode_id after = l_id <$> head l2 ->
  let n := Z.to_nat (clampAdminPageSize first) in
  exists p, works (Labels uriFilter valFilter first after) t p t /\ (a_edges p).*2 = take n (reverse l1) /\
    a_hasNext p = Nat.ltb n (length l1) /\
    (a_hasNext p = true -> exists l, last (take n (reverse l1)) = Some l /\ a_end p = encode_id (l_id l)).
Proof.
  intros Hwf Hrows Hafter n. pose proof (clamp_range first) as Hr.
  eexists. split; [eapply works_bind; [eapply works_bind; [apply works_query|eapply works_bind; [apply works_query|apply works_ret]]|apply works_ret]|].
  rewrite Hafter. set (rows := filter (fun l => label_filter uriFilter valFilter l = true) (labels t)) in *.
  assert (StronglySorted (fun a b => l_id a < l_id b) rows) as Hs.
  { apply StronglySorted_filter, Hwf. }
  unfold page_of. rewrite (rows_before rows l1 l2 Hs Hrows). cbn [fst snd].
  replace (Z.to_nat (clampAdminPageSize first + 1)) with (S n) by (subst n; lia). rewrite length_take, length_reverse.
  assert ((clampAdminPageSize first <? Z.of_nat (S n `min` length l1)) = Nat.ltb n (length l1)) as ->.
  { apply eq_true_iff_eq. rewrite Z.ltb_lt, Nat.ltb_lt. lia. }
  fold n. unfold admin_page. cbn [a_edges a_hasNext a_end].
  assert ((if Nat.ltb n (length l1) then take n (take (S n) (reverse l1)) else take (S n) (reverse l1)) = take n (reverse l1)) as ->.
  { destruct (Nat.ltb_spec n (length l1)); [rewrite take_take; f_equal; lia|]. rewrite !take_ge; rewrite ?length_reverse; [done|lia..]. }
  split_and!; [by rewrite <-list_fmap_compose, list_fmap_id|done|]. intros Hmore%Nat.ltb_lt.
  destruct (last (take n (reverse l1))) as [l|] eqn:Hl.
  - exists l. split; [done|]. rewrite fmap_last, Hl. done.
  - apply last_None in Hl. apply (f_equal length) in Hl. rewrite length_take, length_reverse in Hl. cbn in Hl. lia.
Qed.

(** An admin who follows the cursors of the list of labels, with any filters
    and pages of any size, reads every matching label exactly once, the newest
    first, and comes to an end. *)
Theorem admin_labels_complete uriFilter valFilter first t : well_formed t -> (forall l, l ∈ labels t -> in_int64 (l_id l)) ->
  let rows := filter (fun l => label_filter uriFilter valFilter l = true) (labels t) in
  follow_labels (S (length rows)) uriFilter valFilter first None t = Some (reverse rows).
Proof.
  intros Hwf Hids rows.
  assert (forall fuel l1 l2 after, rows = l1 ++ l2 -> decode_id after = l_id <$> head l2 -> (length l1 < fuel)%nat ->
    follow_labels fuel uriFilter valFilter first after t = Some (reverse l1)) as Hgen.
  { induction fuel as [|f IH]; intros l1 l2 after Hrows Hafter Hf; [lia|]. cbn [follow_labels].
    destruct (labels_page uriFilter valFilter first t l1 l2 after Hwf Hrows Hafter) as (p & Hp & He & Hn & Hend).
    unfold works in Hp. rewrite Hp. cbn [fst]. rewrite He. pose proof (clamp_range first) as Hr.
    set (n := Z.to_nat (clampAdminPageSize first)) in *. destruct (a_hasNext p).
    - destruct (Hend eq_refl) as (l & Hl & ->). symmetry in Hn. apply Nat.ltb_lt in Hn.
      set (l1' := take (length l1 - n) l1). set (lp := drop (length l1 - n) l1).
      assert (l1 = l1' ++ lp) as Hsplit by (unfold l1', lp; by rewrite take_drop).
      assert (take n (reverse l1) = reverse lp) as Htk.
      { rewrite Hsplit, reverse_app. apply take_app_length'. rewrite length_reverse. subst lp. rewrite length_drop. lia. }
      assert (head lp = Some l) as Hhead by (rewrite <-last_reverse, <-Htk; exact Hl).
      assert (length l1' < f)%nat as Hlen by (subst l1'; rewrite length_take; lia). clearbody l1' lp.
      destruct lp as [|x lp]; [done|]. injection Hhead as ->.
      assert (in_int64 (l_id l)) as Hid.
      { apply Hids. assert (l ∈ rows) as Hin; [rewrite Hrows, Hsplit; set_solver|].
        unfold rows in Hin. by apply list_elem_of_filter in Hin as [_ Hin]. }
      rewrite (IH l1' ((l :: lp) ++ l2)); [|by rewrite app_assoc, <-Hsplit|by rewrite decode_encode_id|done].
      cbn [mbind option_bind]. by rewrite Htk, Hsplit, reverse_app.
    - symmetry in Hn. apply Nat.ltb_ge in Hn. by rewrite take_ge by (by rewrite length_reverse). }
  apply (Hgen _ rows [] None); [by rewrite app_nil_r|done|lia].
Qed.
End Following.

(** ** Examples *)

Module Example_labels.
#[local] Existing Instance Example_pages.codec.
Definition here : string := "did:web:here".
Definition subject : string := "at://did:plc:x/app.y/1".
Definition asserted (cid : option string) (cts : Z) : LabelData :=
  {| l_src := "did:plc:mod"; l_uri := subject; l_cid := cid; l_val := takedown; l_neg := false; l_cts := cts; l_exp := None |}.
Definition negated (cts : Z) : LabelData :=
  {| l_src := "did:plc:mod"; l_uri := subject; l_cid := None; l_val := takedown; l_neg := true; l_cts := cts; l_exp := None |}.
Definition after (evs : list LabelData) : tables := (store 0 evs ([], no_tables)).2.2.
Definition taken_down (evs : list LabelData) : result mod_error bool := (HasTakedown 100 subject [] ([], after evs)).1.

Example asserted_once : taken_down [asserted None 1] = Ok true.
Proof. vm_compute. reflexivity. Qed.
Example retracted : taken_down [negated 2; asserted None 1] = Ok false.
Proof. vm_compute. reflexivity. Qed.
(** A label that is asserted again after its retraction stays retracted: the row
    of the first assertion, older than the negation, is kept. *)
Example reasserted_lost : taken_down [asserted None 1; negated 2; asserted None 3] = Ok false.
Proof. vm_compute. reflexivity. Qed.
(** A second retraction is dropped, so that what was asserted since, here for
    another version of the subject, can not be retracted any more. *)
Example takedown_stays : taken_down [asserted None 1; negated 2; asserted (Some "c") 3; negated 4] = Ok true.
Proof. vm_compute. reflexivity. Qed.
(** Both are cases that [consistent] excludes. *)
Example not_consistent : ~ consistent [asserted None 1; negated 2; asserted None 3].
Proof. intros Hc. assert (asserted None 1 = asserted None 3) as E; [|discriminate E]. apply Hc; [left|right; right; left|by vm_compute]. Qed.

(** The administrator is told that the label is there, although it shows
    nowhere. *)
Definition defined : tables :=
  set_definitions {[(SystemLabelerSrc, takedown) :=
    {| d_description := ""; d_severity := SeverityTakedown; d_visibility := VisibilityHide; d_created := 0 |}]} no_tables.
Definition served (qs : list (Z * request)) (t : tables) : tables :=
  serve_all here (fun _ => None) ((fun q => (q, [])) <$> qs) t.
Example created_but_inactive :
  let t := served [(1, QCreate subject takedown None None); (2, QNegate subject takedown)] defined in
  let r := CreateLabel here (fun _ => None) 3 subject takedown None None ([], t) in
  (is_ok r.1, (HasTakedown 4 subject [] ([], r.2.2)).1) = (true, Ok false).
Proof. vm_compute. reflexivity. Qed.

(** The table refuses a label without a CID next to one with an empty CID, and
    the lookup of the one that is there does not find it. *)
Example empty_cid :
  (CreateLabel here (fun _ => None) 3 subject takedown None None
     ([], served [(1, QCreate subject takedown (Some "") None)] defined)).1 = Err ENoRows.
Proof. vm_compute. reflexivity. Qed.

(** A value that no definition names can be applied through a report. *)
Definition reported : tables := served [(1, QReport "did:plc:a" subject "spam" None)] no_tables.
Example undefined_value :
  ((CreateLabel here (fun _ => None) 3 subject "nonsense" None None ([], reported)).1,
   is_ok (ResolveReport here 3 1 "apply_label" (Some "nonsense") "did:plc:admin" ([], reported)).1) =
  (Err (EUndefined "nonsense"), true).
Proof. vm_compute. reflexivity. Qed.
(** A report that was resolved can be resolved again. *)
Example resolved_twice :
  let t := served [(2, QResolve 1 "apply_label" (Some "x") "did:plc:a"); (3, QResolve 1 "dismiss" None "did:plc:b")] reported in
  (fun r => (r_status r, r_resolvedBy r)) <$> reports t !! 1 = Some (StatusDismissed, Some "did:plc:b").
Proof. vm_compute. reflexivity. Qed.

(** The total shrinks from page to page. *)
Definition three : tables := served [(1, QNegate "at://1" "a"); (2, QNegate "at://2" "a"); (3, QNegate "at://3" "a")] no_tables.
Example total_shrinks :
  let page after := (fun p => (a_total p, l_id <$> (a_edges p).*2)) <$> match (Labels None None 2 after ([], three)).1 with Ok p => Some p | _ => None end in
  (page None, page (Some (encode_id 2))) = (Some (3, [3; 2]), Some (1, [1])).
Proof. vm_compute. reflexivity. Qed.

Definition two : list LabelData := [asserted None 1; negated 2].
Lemma two_consistent : Forall proper two /\ consistent two.
Proof.
  split; [by repeat constructor|]. intros a b. unfold two. rewrite !elem_of_cons, !elem_of_nil.
  intros [->|[->|[]]] [->|[->|[]]]; try done; intros Hc; vm_compute in Hc; discriminate.
Qed.
Lemma labels_as_events_witness : exists t ls, works (store 0 two) no_tables () t /\ works (GetByURIs 100 [subject]) t ls t.
Proof.
  destruct (labels_as_events 0 100 two [subject] (proj1 two_consistent) (proj2 two_consistent) ltac:(done))
    as (t & ls & H1 & H2 & _). by exists t, ls.
Defined.
Lemma labels_order_independent_witness : exists t t', works (store 0 two) no_tables () t /\
  works (store 0 [negated 2; asserted None 1; negated 2]) no_tables () t'.
Proof.
  destruct (labels_order_independent 0 100 two [negated 2; asserted None 1; negated 2] [subject]
              (proj1 two_consistent) (proj2 two_consistent)) as (t & t' & ls & ls' & H1 & H2 & _); [set_solver|done|].
  by exists t, t'.
Defined.
Lemma report_resolution_witness : exists res t',
  ResolveReport here 3 1 "apply_label" (Some "x") "did:plc:admin" ([], reported) = (res, ([], t')).
Proof.
  destruct (report_resolution here 3 1
    {| r_reporter := "did:plc:a"; r_subject := subject; r_reasonType := "spam"; r_reason := None; r_status := StatusPending;
       r_resolvedBy := None; r_resolvedAt := None; r_created := 1 |} "x" "did:plc:admin" reported) as (res & t' & H & _);
    [by vm_compute|]. by exists res, t'.
Defined.

Lemma three_ok : well_formed three /\ forall l, l ∈ labels three -> in_int64 (l_id l).
Proof.
  split; [apply moderation_ok|]. intros l Hl.
  assert (forallb (fun l => (0 <=? l_id l) && (l_id l <=? 9)) (labels three) = true) as Hb by (vm_compute; reflexivity).
  rewrite forallb_elem_of in Hb. specialize (Hb l Hl). unfold in_int64, int64_min, int64_max. lia.
Qed.
Lemma admin_labels_complete_witness :
  follow_labels (S (length (filter (fun l => label_filter None None l = true) (labels three)))) None None 2 None three =
  Some (reverse (filter (fun l => label_filter None None l = true) (labels three))).
Proof. exact (admin_labels_complete None None 2 three (proj1 three_ok) (proj2 three_ok)). Defined.
End Example_labels.
