(* ===== verification/Types.v ===== *)
(** [internal/graphql/types]: the GraphQL types built from lexicons
    ([mapper.go], [object.go], [filters.go]). A type of the GraphQL library is
    a value here; an object type is the cache entry it was stored under, since
    the builder makes one for each key. The library runs the thunk that builds
    the fields of an object type later, once for each object type it reaches
    and in an order of its own: [force_all] runs them in any order. *)
From S2P Require Import Prelude GoStrings Utf8 Nsid Json Lexicon Registry.

(** ** Types of the library *)

(** [graphql.Output], with what the two caches of the mapper are keyed by. *)
Inductive Output :=
| GString | GInt | GFloat | GBoolean
| DateTimeScalar | JSONScalar
| BlobType
| NamedType (name : string)   (* an object type or enum made once, by name *)
| ObjectRef (key : string)
| UnionRef (name : string)
| NewList (t : Output)
| NewNonNull (t : Output).

#[export] Instance Output_eq_dec : EqDecision Output.
Proof. solve_decision. Defined.

(** [graphql.Field]; descriptions, which only introspection shows, are left
    out. A resolver of its own is named. *)
Record Field := { f_Type : Output; f_Resolve : option string }.

#[export] Instance Field_eq_dec : EqDecision Field.
Proof. solve_decision. Defined.

Definition plain (t : Output) : Field := {| f_Type := t; f_Resolve := None |}.

Abbreviation Fields := (gmap string Field).

(** What the thunk of an object type was made from. *)
Inductive thunk :=
| ObjectThunk (ref : string) (def : ObjectDef)
| RecordThunk (lexiconID : string) (def : RecordDef).

Record Object := { o_Name : string; o_Fields : thunk }.
Record Union := { u_Name : string; u_Types : list string }.

(** ** The mapper ([mapper.go]) and the builder's state *)

Record Builder := {
  objectTypes : gmap string Object;
  unionTypes : gmap string Union;
  depth : Z
}.

Definition NewMapper : Builder := {| objectTypes := ∅; unionTypes := ∅; depth := 0 |}.

Definition MapPrimitiveType (lexiconType format : string) : Output :=
  if String.eqb lexiconType "string" then
    if String.eqb format "datetime" then DateTimeScalar else GString
  else if String.eqb lexiconType "integer" then GInt
  else if String.eqb lexiconType "boolean" then GBoolean
  else if String.eqb lexiconType "number" then GFloat
  else if String.eqb lexiconType "blob" then BlobType
  else if String.eqb lexiconType "bytes" then GString
  else if String.eqb lexiconType "cid-link" then GString
  else if String.eqb lexiconType "unknown" then JSONScalar
  else GString.

(** The fields of the built-in object type for blobs. *)
Definition initBlobType : Fields :=
  <["ref" := plain (NewNonNull GString)]>
  (<["mimeType" := plain (NewNonNull GString)]>
   {["size" := plain (NewNonNull GInt)]}).

(** A loop over a map that returns at the first hit, in any order. *)
Definition HasObjectTypeNamed (b : Builder) (name : string) : bool :=
  existsb (fun e => String.eqb (o_Name e.2) name) (map_to_list (objectTypes b)).

Definition SetObjectType (ref : string) (t : Object) (b : Builder) : Builder :=
  {| objectTypes := <[ref := t]> (objectTypes b); unionTypes := unionTypes b; depth := depth b |}.
Definition SetUnionType (name : string) (t : Union) (b : Builder) : Builder :=
  {| objectTypes := objectTypes b; unionTypes := <[name := t]> (unionTypes b); depth := depth b |}.
Definition with_depth (d : Z) (b : Builder) : Builder :=
  {| objectTypes := objectTypes b; unionTypes := unionTypes b; depth := d |}.

(** ** Computations on the builder *)

Definition B (A : Type) : Type := Builder -> A * Builder.
#[export] Instance B_ret : MRet B := fun A a b => (a, b).
#[export] Instance B_bind : MBind B := fun A C f m b => let '(a, b') := m b in f a b'.

Definition get : B Builder := fun b => (b, b).
Definition modify (f : Builder -> Builder) : B () := fun b => ((), f b).

(** [m] started in [P] ends in [Q] of its result. *)
Definition triple {A} (P : Builder -> Prop) (m : B A) (Q : A -> Builder -> Prop) : Prop :=
  forall b, P b -> Q (m b).1 (m b).2.

Lemma triple_ret {A} (P : Builder -> Prop) (a : A) (Q : A -> Builder -> Prop) :
  (forall b, P b -> Q a b) -> triple P (mret a) Q.
Proof. intros H b Hb. by apply H. Qed.

Lemma triple_bind {A C} P R (m : B A) (f : A -> B C) Q :
  triple P m R -> (forall a, triple (R a) (f a) Q) -> triple P (m ≫= f) Q.
Proof.
  intros Hm Hf b Hb. specialize (Hm b Hb). unfold mbind, B_bind.
  destruct (m b) as [a b']. by apply Hf.
Qed.

Lemma triple_get P Q : (forall b, P b -> Q b b) -> triple P get Q.
Proof. intros H b Hb. by apply H. Qed.

Lemma triple_modify (P : Builder -> Prop) f Q : (forall b, P b -> Q () (f b)) ->
  triple P (modify f) Q.
Proof. intros H b Hb. by apply H. Qed.

Lemma triple_conseq {A} (P P' : Builder -> Prop) (m : B A) (Q Q' : A -> Builder -> Prop) :
  triple P m Q -> (forall b, P' b -> P b) -> (forall a b, Q a b -> Q' a b) -> triple P' m Q'.
Proof. intros H H1 H2 b Hb. by apply H2, H, H1. Qed.

(** ** Names of types ([object.go]) *)

Definition ReservedRecordFields : list string := ["uri"; "cid"; "did"; "rkey"; "labels"; "pds"].
Definition maxResolveDepth : Z := 64.

Section Build.
Context `{UnicodeTables}.

Definition refToTypeName (ref : string) : string :=
  let '(lexiconID, defName, ok) := ParseRef ref in
  if negb ok || is_empty defName then ToTypeName ref
  else ToTypeName lexiconID +:+ capitalizeFirst defName.

(** ** Building ([object.go]) *)

Context (registry : Registry) (derivedFieldsByLexicon : gmap string (gmap string Field)).

(** [BuildObjectType] and [BuildRecordType] return the type under the key they
    cache it by. *)
Definition BuildObjectType (ref : string) (def : ObjectDef) : B Output :=
  b ← get;
  match objectTypes b !! ref with
  | Some _ => mret (ObjectRef ref)
  | None =>
      let obj := {| o_Name := refToTypeName ref; o_Fields := ObjectThunk ref def |} in
      _ ← modify (SetObjectType ref obj); mret (ObjectRef ref)
  end.

Definition BuildRecordType (lexiconID : string) (def : RecordDef) : B Output :=
  b ← get;
  match objectTypes b !! lexiconID with
  | Some _ => mret (ObjectRef lexiconID)
  | None =>
      let obj := {| o_Name := ToTypeName lexiconID; o_Fields := RecordThunk lexiconID def |} in
      _ ← modify (SetObjectType lexiconID obj); mret (ObjectRef lexiconID)
  end.

Definition full_ref (contextLexiconID ref : string) : string :=
  if IsLocalRef ref then ResolveLocalRef ref contextLexiconID else ref.

Definition build_resolved (fullRef : string) (r : option resolved) : B Output :=
  match r with
  | None => mret GString
  | Some (ResObject def) => BuildObjectType fullRef def
  | Some (ResRecord def) => BuildRecordType (IDFromRef fullRef) def
  end.

Definition resolveRefType (contextLexiconID ref : string) : B Output :=
  if is_empty ref then mret GString else
  let fullRef := full_ref contextLexiconID ref in
  b ← get;
  match objectTypes b !! fullRef with
  | Some _ => mret (ObjectRef fullRef)
  | None =>
      if (maxResolveDepth <=? depth b)%Z then mret GString else
      _ ← modify (fun b => with_depth (depth b + 1) b);
      t ← build_resolved fullRef (ResolveRef registry ref contextLexiconID);
      _ ← modify (fun b => with_depth (depth b - 1) b);
      mret t
  end.

(** The loop over the refs of a union: the keys of the object types it found,
    and whether there was anything else. *)
Fixpoint union_members (contextLexiconID : string) (refs : list string)
    (objs : list string) (hasPrimitives : bool) : B (list string * bool) :=
  match refs with
  | [] => mret (objs, hasPrimitives)
  | ref :: rest =>
      let fullRef := full_ref contextLexiconID ref in
      match ResolveRef registry ref contextLexiconID with
      | None => union_members contextLexiconID rest objs true
      | Some (ResObject def) =>
          if Nat.eqb (length (od_Properties def)) 0
          then union_members contextLexiconID rest objs true
          else _ ← BuildObjectType fullRef def;
               union_members contextLexiconID rest (objs ++ [fullRef]) hasPrimitives
      | Some (ResRecord def) =>
          _ ← BuildRecordType (IDFromRef fullRef) def;
          union_members contextLexiconID rest (objs ++ [IDFromRef fullRef]) hasPrimitives
      end
  end.

Definition buildUnionType (contextLexiconID fieldName : string) (refs : list string) : B Output :=
  if Nat.eqb (length refs) 0 then mret GString else
  r ← union_members contextLexiconID refs [] false;
  let '(objs, hasPrimitives) := r in
  if Nat.eqb (length objs) 0 then mret JSONScalar
  else if hasPrimitives : bool then mret JSONScalar
  else
    b ← get;
    let name := ToTypeName contextLexiconID +:+ capitalizeFirst fieldName in
    let unionName := if HasObjectTypeNamed b name then name +:+ "Union" else name in
    match unionTypes b !! unionName with
    | Some _ => mret (UnionRef unionName)
    | None =>
        _ ← modify (SetUnionType unionName {| u_Name := unionName; u_Types := objs |});
        mret (UnionRef unionName)
    end.

Definition resolveArrayItemType (contextLexiconID : string) (items : option ArrayItems) : B Output :=
  match items with
  | None => mret GString
  | Some items =>
      if String.eqb (ai_Type items) "ref" then resolveRefType contextLexiconID (ai_Ref items)
      else if String.eqb (ai_Type items) "union" then
        buildUnionType contextLexiconID "items" (ai_Refs items)
      else mret (MapPrimitiveType (ai_Type items) "")
  end.

(** No branch leaves the type nil, so the fallback of the code is never
    taken. *)
Definition buildField (contextLexiconID name : string) (prop : Property) (required : bool) : B Field :=
  fieldType ←
    (if String.eqb (Type_ prop) "ref" then resolveRefType contextLexiconID (Ref prop)
     else if String.eqb (Type_ prop) "union" then
       buildUnionType contextLexiconID name (Refs prop)
     else if String.eqb (Type_ prop) "array" then
       itemType ← resolveArrayItemType contextLexiconID (Items prop);
       mret (NewList (NewNonNull itemType))
     else mret (MapPrimitiveType (Type_ prop) (Format prop)));
  mret (plain (if required then NewNonNull fieldType else fieldType)).

(** The loop over the properties; [skip] are those it passes over. *)
Fixpoint add_fields (contextLexiconID : string) (skip required : string -> bool)
    (props : list PropertyEntry) (fields : Fields) : B Fields :=
  match props with
  | [] => mret fields
  | entry :: rest =>
      if skip (Name entry) then add_fields contextLexiconID skip required rest fields
      else
        field ← buildField contextLexiconID (Name entry) (property entry) (required (Name entry));
        add_fields contextLexiconID skip required rest (<[Name entry := field]> fields)
  end.

Definition buildFields (contextRef : string) (def : ObjectDef) : B Fields :=
  add_fields (IDFromRef contextRef) (fun _ => false) (IsRequired def) (od_Properties def) ∅.

(** The metadata of every record. *)
Definition metadata : Fields :=
  <["uri" := plain (NewNonNull GString)]>
  (<["cid" := plain (NewNonNull GString)]>
  (<["did" := plain (NewNonNull GString)]>
  (<["rkey" := plain (NewNonNull GString)]>
  (<["labels" := plain (NewNonNull (NewList (NewNonNull GString)))]>
  {["pds" := plain GString]})))).

Definition reserved (name : string) : bool := existsb (String.eqb name) ReservedRecordFields.

Definition requiredSet (def : RecordDef) (name : string) : bool :=
  existsb (fun e => String.eqb (Name e) name && Required (property e)) (rd_Properties def).

(** A derived field is added where no field has its name; the names of a map
    are distinct, so the order of the loop over them is not seen. *)
Definition buildRecordFields (lexiconID : string) (def : RecordDef) : B Fields :=
  fields ← add_fields lexiconID reserved (requiredSet def) (rd_Properties def) metadata;
  mret (fields ∪ default ∅ (derivedFieldsByLexicon !! lexiconID)).

(** The thunk of an object type, as the library runs it. *)
Definition run_thunk (t : thunk) : B Fields :=
  match t with
  | ObjectThunk ref def => buildFields ref def
  | RecordThunk lexiconID def => buildRecordFields lexiconID def
  end.
End Build.

(** ** Running the thunks *)

Record Graph := { built : Builder; forced : gmap string Fields }.

Section Run.
Context `{UnicodeTables}.
Context (registry : Registry) (derivedFieldsByLexicon : gmap string (gmap string Field)).

(** The library runs a thunk once; later it uses the fields it kept. *)
Definition force (g : Graph) (key : string) : Graph :=
  match objectTypes (built g) !! key, forced g !! key with
  | Some obj, None =>
      let '(fields, b) := run_thunk registry derivedFieldsByLexicon (o_Fields obj) (built g) in
      {| built := b; forced := <[key := fields]> (forced g) |}
  | _, _ => g
  end.

Definition force_all (keys : list string) (g : Graph) : Graph := foldl force g keys.

(** The [ResolveType] function of a union, over its object types. *)
Definition ResolveType (b : Builder) (objs : list string) (value : json) : option string :=
  match value with
  | JObj data =>
      match data !! "$type" with
      | Some (JStr typeVal) =>
          match find (fun key => match objectTypes b !! key with
                                 | Some obj => String.eqb (refToTypeName typeVal) (o_Name obj)
                                 | None => false
                                 end) objs with
          | Some key => Some key
          | None => hd_error objs
          end
      | _ => hd_error objs
      end
  | _ => hd_error objs
  end.
End Run.

(** ** Filter inputs ([filters.go]) *)

(** The types of input fields; [InputRef] is one of the input objects below. *)
Inductive FilterInput :=
| StringFilterInput | IntFilterInput | FloatFilterInput | BooleanFilterInput
| DateTimeFilterInput | DIDFilterInput | StrongRefFilterInput.

#[export] Instance FilterInput_eq_dec : EqDecision FilterInput.
Proof. solve_decision. Defined.

Inductive InputType :=
| IScalar (t : Output)
| IList (t : Output)
| IFilter (f : FilterInput).

Definition FilterInput_fields (f : FilterInput) : list (string * InputType) :=
  match f with
  | StringFilterInput =>
      [("eq", IScalar GString); ("eqi", IScalar GString); ("neq", IScalar GString);
       ("in", IList GString); ("ini", IList GString); ("contains", IScalar GString);
       ("startsWith", IScalar GString); ("isNull", IScalar GBoolean)]
  | IntFilterInput =>
      [("eq", IScalar GInt); ("neq", IScalar GInt); ("gt", IScalar GInt); ("lt", IScalar GInt);
       ("gte", IScalar GInt); ("lte", IScalar GInt); ("in", IList GInt);
       ("isNull", IScalar GBoolean)]
  | FloatFilterInput =>
      [("eq", IScalar GFloat); ("neq", IScalar GFloat); ("gt", IScalar GFloat);
       ("lt", IScalar GFloat); ("gte", IScalar GFloat); ("lte", IScalar GFloat);
       ("isNull", IScalar GBoolean)]
  | BooleanFilterInput => [("eq", IScalar GBoolean); ("isNull", IScalar GBoolean)]
  | DateTimeFilterInput =>
      [("eq", IScalar DateTimeScalar); ("neq", IScalar DateTimeScalar);
       ("gt", IScalar DateTimeScalar); ("lt", IScalar DateTimeScalar);
       ("gte", IScalar DateTimeScalar); ("lte", IScalar DateTimeScalar);
       ("isNull", IScalar GBoolean)]
  | DIDFilterInput => [("eq", IScalar GString); ("in", IList GString)]
  | StrongRefFilterInput =>
      [("uri", IFilter StringFilterInput); ("cid", IFilter StringFilterInput)]
  end.

Definition FilterInputForLexiconType (propType : string) : option FilterInput :=
  let among := existsb (String.eqb propType) in
  if among ["string"; "uri"; "handle"] then Some StringFilterInput
  else if among ["did"] then Some DIDFilterInput
  else if among ["integer"] then Some IntFilterInput
  else if among ["number"] then Some FloatFilterInput
  else if among ["boolean"] then Some BooleanFilterInput
  else if among ["datetime"] then Some DateTimeFilterInput
  else if among ["at-uri"; "tid"] then Some StringFilterInput
  else if among ["cid"; "cid-link"] then Some StringFilterInput
  else None.

(** ** What is built, whatever the registry *)

(** A type whose parts are in the caches: no type is missing, no non-null type
    is made of another, the items of a list are non-null. *)
Fixpoint well_typed (b : Builder) (t : Output) : Prop :=
  match t with
  | ObjectRef key => is_Some (objectTypes b !! key)
  | UnionRef name => is_Some (unionTypes b !! name)
  | NewList t => (exists u, t = NewNonNull u) /\ well_typed b t
  | NewNonNull t => (forall u, t <> NewNonNull u) /\ well_typed b t
  | _ => True
  end.

Definition nullable (t : Output) : Prop := forall u, t <> NewNonNull u.

(** The members of every union are in the cache, at least one. *)
Definition unions_closed (b : Builder) : Prop :=
  forall name u, unionTypes b !! name = Some u ->
    u_Name u = name /\ u_Types u <> [] /\
    Forall (fun key => is_Some (objectTypes b !! key)) (u_Types u).

(** The caches of [b'] extend those of [b]. *)
Definition extends (b b' : Builder) : Prop :=
  (forall k o, objectTypes b !! k = Some o -> objectTypes b' !! k = Some o) /\
  (forall k u, unionTypes b !! k = Some u -> unionTypes b' !! k = Some u).

#[export] Instance extends_preorder : PreOrder extends.
Proof. split; [by split|]. intros a b c [H1 H2] [H3 H4]. split; eauto. Qed.

Lemma well_typed_mono b b' t : extends b b' -> well_typed b t -> well_typed b' t.
Proof.
  intros [Ho Hu]. induction t; cbn; intros Ht; try done.
  - destruct Ht as [x Hx]. eexists. by apply Ho.
  - destruct Ht as [x Hx]. eexists. by apply Hu.
  - naive_solver.
  - naive_solver.
Qed.

(** What every part of the builder keeps. *)
Definition kept (b b' : Builder) : Prop :=
  extends b b' /\ unions_closed b' /\ depth b' = depth b.

Lemma kept_refl b : unions_closed b -> kept b b.
Proof. intros Hc. split; [reflexivity|by split]. Qed.

Lemma kept_trans a b c : kept a b -> kept b c -> kept a c.
Proof. intros (H1 & _ & H2) (H3 & H4 & H5). split; [by etrans|]. split; [done|congruence]. Qed.

Lemma closed_mono b b' u : extends b b' ->
  Forall (fun key => is_Some (objectTypes b !! key)) u ->
  Forall (fun key => is_Some (objectTypes b' !! key)) u.
Proof. intros [He _] Hu. eapply Forall_impl; [exact Hu|]. intros k [x Hx]. eexists. by apply He. Qed.

Lemma kept_set_object b k o : unions_closed b -> objectTypes b !! k = None ->
  kept b (SetObjectType k o b).
Proof.
  intros Hc Hk. assert (extends b (SetObjectType k o b)) as He.
  { split; cbn; [|done]. intros k' o' Hk'. rewrite lookup_insert_ne by congruence. done. }
  split; [done|]. split; [|done]. intros name u Hn.
  destruct (Hc name u Hn) as (H1 & H2 & H3). split; [done|]. split; [done|]. by eapply closed_mono.
Qed.

Lemma kept_set_union b name objs : unions_closed b -> unionTypes b !! name = None ->
  objs <> [] -> Forall (fun key => is_Some (objectTypes b !! key)) objs ->
  kept b (SetUnionType name {| u_Name := name; u_Types := objs |} b).
Proof.
  intros Hc Hk Hne Ho. split; [split; cbn; [done|]|split; [|done]].
  - intros k' u' Hk'. rewrite lookup_insert_ne by congruence. done.
  - intros n u. cbn. rewrite lookup_insert_Some. intros [[<- <-]|[_ Hn]]; [done|by apply Hc].
Qed.

(** [m] keeps the caches; started in [P] it ends in [Q] of its result. *)
Definition builds {A} (P : Builder -> Prop) (m : B A) (Q : A -> Builder -> Prop) : Prop :=
  forall b0, triple (fun b => b = b0 /\ unions_closed b /\ P b) m
                    (fun a b => kept b0 b /\ Q a b).

Lemma builds_bind {A C} P R (m : B A) (f : A -> B C) Q :
  builds P m R -> (forall a, builds (R a) (f a) Q) -> builds P (m ≫= f) Q.
Proof.
  intros Hm Hf b0. eapply triple_bind; [apply Hm|]. intros a b [Hk HR].
  destruct (Hf a b b) as [Hk' HQ]; [split; [done|]; split; [apply Hk|done]|]. split; [by eapply kept_trans|done].
Qed.

Lemma builds_ret {A} (P : Builder -> Prop) (a : A) (Q : A -> Builder -> Prop) :
  (forall b, P b -> Q a b) -> builds P (mret a) Q.
Proof. intros H b0 b (-> & Hc & HP). split; [by apply kept_refl|by apply H]. Qed.

Lemma builds_get P : builds P get (fun a b => a = b /\ P b).
Proof. intros b0 b (-> & Hc & HP). split; [by apply kept_refl|done]. Qed.

(** What stays true of growing caches can be carried along. *)
Lemma builds_frame {A} (F P : Builder -> Prop) (m : B A) (Q : A -> Builder -> Prop) :
  (forall b b', extends b b' -> F b -> F b') ->
  builds P m Q -> builds (fun b => F b /\ P b) m (fun a b => F b /\ Q a b).
Proof.
  intros HF Hm b0 b (-> & Hc & HF0 & HP). destruct (Hm b0 b0) as [Hk HQ]; [done|].
  split; [done|]. split; [|done]. eapply HF; [apply Hk|done].
Qed.

Lemma builds_conseq {A} (P P' : Builder -> Prop) (m : B A) (Q Q' : A -> Builder -> Prop) :
  builds P m Q -> (forall b, P' b -> P b) -> (forall a b, Q a b -> Q' a b) -> builds P' m Q'.
Proof. intros H H1 H2 b0. eapply triple_conseq; [apply H|naive_solver|naive_solver]. Qed.

(** A type of the caches that is not a non-null type. *)
Definition typed (t : Output) (b : Builder) : Prop := well_typed b t /\ nullable t.

Section Closed.
Context `{UnicodeTables}.

Lemma BuildObjectType_builds ref def :
  builds (fun _ => True) (BuildObjectType ref def)
    (fun t b => t = ObjectRef ref /\ is_Some (objectTypes b !! ref)).
Proof.
  intros b0 b (-> & Hc & _). unfold BuildObjectType, get, modify, mbind, B_bind, mret, B_ret.
  destruct (objectTypes b0 !! ref) as [o|] eqn:Ho; cbn.
  - split; [by apply kept_refl|]. split; [done|by rewrite Ho; eexists].
  - split; [by apply kept_set_object|]. split; [done|]. rewrite lookup_insert_eq. by eexists.
Qed.

Lemma BuildRecordType_builds id def :
  builds (fun _ => True) (BuildRecordType id def)
    (fun t b => t = ObjectRef id /\ is_Some (objectTypes b !! id)).
Proof.
  intros b0 b (-> & Hc & _). unfold BuildRecordType, get, modify, mbind, B_bind, mret, B_ret.
  destruct (objectTypes b0 !! id) as [o|] eqn:Ho; cbn.
  - split; [by apply kept_refl|]. split; [done|by rewrite Ho; eexists].
  - split; [by apply kept_set_object|]. split; [done|]. rewrite lookup_insert_eq. by eexists.
Qed.

Lemma MapPrimitiveType_typed b t f : typed (MapPrimitiveType t f) b.
Proof. unfold MapPrimitiveType, typed. by repeat case_match. Qed.

Lemma object_typed k (m : B Output) :
  builds (fun _ => True) m (fun t b => t = ObjectRef k /\ is_Some (objectTypes b !! k)) ->
  builds (fun _ => True) m typed.
Proof. intros Hm. eapply builds_conseq; [exact Hm|done|]. by intros a b [-> Hk]. Qed.

Lemma build_resolved_builds full r : builds (fun _ => True) (build_resolved full r) typed.
Proof.
  destruct r as [[def|def]|]; cbn.
  - eapply object_typed, BuildObjectType_builds.
  - eapply object_typed, BuildRecordType_builds.
  - by apply builds_ret.
Qed.

Context (registry : Registry) (derived : gmap string (gmap string Field)).

Lemma resolveRefType_builds ctx ref :
  builds (fun _ => True) (resolveRefType registry ctx ref) typed.
Proof.
  unfold resolveRefType. destruct (is_empty ref); [by apply builds_ret|].
  intros b0 b (-> & Hc & _). unfold get, modify, mbind, B_bind.
  destruct (objectTypes b0 !! full_ref ctx ref) as [o|] eqn:Ho.
  { cbn. split; [by apply kept_refl|]. split; [cbn; rewrite Ho; by eexists|done]. }
  destruct (_ <=? _)%Z; [split; [by apply kept_refl|done]|].
  set (b1 := with_depth (depth b0 + 1) b0).
  destruct (build_resolved_builds (full_ref ctx ref) (ResolveRef registry ref ctx) b1 b1)
    as [(He & Hu & Hd) [Ht Hn]]; [done|].
  destruct (build_resolved _ _ _) as [t b']. cbn in *.
  split; [split; [exact He|split; [exact Hu|cbn; lia]]|]. split; [|done].
  by apply (well_typed_mono b'); [split|].
Qed.

Definition cached (keys : list string) (b : Builder) : Prop :=
  Forall (fun k => is_Some (objectTypes b !! k)) keys.

Lemma cached_snoc keys (m : B Output) k :
  builds (fun _ => True) m (fun t b => t = ObjectRef k /\ is_Some (objectTypes b !! k)) ->
  builds (cached keys) m (fun _ b => cached (keys ++ [k]) b).
Proof.
  intros Hm. eapply builds_conseq; [apply (builds_frame (cached keys)); [|exact Hm]|done|].
  - intros b b' He. by apply closed_mono.
  - intros a b (Hf & _ & Hk). apply Forall_app. split; [done|by constructor].
Qed.

Lemma union_members_builds ctx refs : forall objs prim,
  builds (cached objs) (union_members registry ctx refs objs prim) (fun r b => cached r.1 b).
Proof.
  induction refs as [|ref refs IH]; intros objs prim; cbn; [by apply builds_ret|].
  destruct (ResolveRef registry ref ctx) as [[def|def]|]; [case_match|..]; try apply IH.
  - eapply builds_bind; [apply cached_snoc, BuildObjectType_builds|]. intros ?. apply IH.
  - eapply builds_bind; [apply cached_snoc, BuildRecordType_builds|]. intros ?. apply IH.
Qed.

Lemma buildUnionType_builds ctx name refs :
  builds (fun _ => True) (buildUnionType registry ctx name refs) typed.
Proof.
  unfold buildUnionType. case_match; [by apply builds_ret|].
  eapply builds_bind; [eapply builds_conseq; [apply union_members_builds| |done]|].
  { intros b _. by apply Forall_nil. }
  intros [objs prim]. case_match eqn:Hl; [by apply builds_ret|]. destruct prim; [by apply builds_ret|].
  intros b0 b (-> & Hc & Ho). unfold get, modify, mbind, B_bind, mret, B_ret.
  set (un := if HasObjectTypeNamed b0 _ then _ else _).
  destruct (unionTypes b0 !! un) as [u|] eqn:Hu; cbn.
  - split; [by apply kept_refl|]. split; [cbn; rewrite Hu; by eexists|done].
  - split; [apply kept_set_union; try done; by intros ->|]. split; [|done].
    cbn. rewrite lookup_insert_eq. by eexists.
Qed.

Lemma resolveArrayItemType_builds ctx items :
  builds (fun _ => True) (resolveArrayItemType registry ctx items) typed.
Proof.
  destruct items as [items|]; cbn; [|by apply builds_ret].
  case_match; [apply resolveRefType_builds|]. case_match; [apply buildUnionType_builds|].
  apply builds_ret. intros. apply MapPrimitiveType_typed.
Qed.

Lemma buildField_builds ctx name prop req :
  builds (fun _ => True) (buildField registry ctx name prop req)
    (fun f b => well_typed b (f_Type f) /\ (req = false -> nullable (f_Type f))).
Proof.
  unfold buildField. eapply (builds_bind _ typed).
  - case_match; [apply resolveRefType_builds|]. case_match; [apply buildUnionType_builds|].
    case_match.
    + eapply builds_bind; [apply resolveArrayItemType_builds|]. intros t. apply builds_ret.
      intros b [Ht Hn]. by split; [split; [by eexists|]|].
    + apply builds_ret. intros. apply MapPrimitiveType_typed.
  - intros t. apply builds_ret. intros b [Ht Hn]. by destruct req.
Qed.

Definition fields_typed (fs : Fields) (b : Builder) : Prop :=
  forall name f, fs !! name = Some f -> well_typed b (f_Type f).

Lemma fields_typed_mono fs b b' : extends b b' -> fields_typed fs b -> fields_typed fs b'.
Proof. intros He Hf name f Hn. eapply well_typed_mono; [exact He|]. by eapply Hf. Qed.

Lemma add_fields_builds ctx skip req props : forall fs,
  builds (fields_typed fs) (add_fields registry ctx skip req props fs) fields_typed.
Proof.
  induction props as [|e props IH]; intros fs; cbn; [by apply builds_ret|].
  destruct (skip (Name e)); [apply IH|]. eapply builds_bind.
  - eapply builds_conseq; [apply (builds_frame (fields_typed fs));
      [intros b b'; apply fields_typed_mono|apply buildField_builds]|done|]. intros f b [Hf [Ht _]]. exact (conj Hf Ht).
  - intros f. eapply builds_conseq; [apply IH| |done].
    intros b [Hf Ht] n g. rewrite lookup_insert_Some. intros [[_ <-]|[_ Hn]]; [done|by eapply Hf].
Qed.

(** The derived fields need no type of the caches. *)
Hypothesis derived_typed : forall id fs b, derived !! id = Some fs -> fields_typed fs b.

Lemma metadata_typed b : fields_typed metadata b.
Proof.
  intros name f. unfold metadata. rewrite !lookup_insert_Some, lookup_singleton_Some.
  intros Hf. repeat (destruct Hf as [[_ <-]|[_ Hf]]; [by repeat split; try by eexists|]).
  by destruct Hf as [_ <-].
Qed.

Lemma run_thunk_builds t :
  builds (fun _ => True) (run_thunk registry derived t) fields_typed.
Proof.
  destruct t as [ref def|id def]; cbn.
  - eapply builds_conseq; [apply add_fields_builds| |done]. by intros b _ n f.
  - eapply builds_bind; [eapply builds_conseq; [apply add_fields_builds| |done]|].
    { intros b _. apply metadata_typed. }
    intros fs. apply builds_ret. intros b Hfs n f [Hn|[_ Hn]]%lookup_union_Some_raw; [by eapply Hfs|].
    destruct (derived !! id) eqn:Hd; cbn in Hn; [by eapply derived_typed|by rewrite lookup_empty in Hn].
Qed.

(** The fields that are non-null are those of [base] and those required. *)
Definition nonnull_from (base : Fields) (required : string -> bool) (fs : Fields) : Prop :=
  forall name f, fs !! name = Some f ->
    nullable (f_Type f) \/ base !! name = Some f \/ required name = true.

Lemma add_fields_nonnull ctx skip req base props : forall fs,
  builds (fun _ => nonnull_from base req fs) (add_fields registry ctx skip req props fs)
    (fun fs _ => nonnull_from base req fs).
Proof.
  induction props as [|e props IH]; intros fs; cbn; [by apply builds_ret|].
  destruct (skip (Name e)); [apply IH|]. eapply builds_bind.
  - eapply builds_conseq; [apply (builds_frame (fun _ => nonnull_from base req fs));
      [done|apply buildField_builds]|done|]. intros f b Hf. exact Hf.
  - intros f. eapply builds_conseq; [apply IH| |done].
    intros b [Hfs [_ Hf]] n g. rewrite lookup_insert_Some. intros [[<- <-]|[_ Hn]]; [|by apply Hfs].
    destruct (req (Name e)) eqn:Hr; [by right; right|left; by apply Hf].
Qed.

(** A non-null field of a record that is neither metadata nor derived is that of
    a required property. *)
Lemma buildRecordFields_nonnull id def b name f t : unions_closed b ->
  (buildRecordFields registry derived id def b).1 !! name = Some f -> f_Type f = NewNonNull t ->
  metadata !! name = None -> default ∅ (derived !! id) !! name = None ->
  requiredSet def name = true.
Proof.
  intros Hc. unfold buildRecordFields, mbind, B_bind.
  assert (nonnull_from metadata (requiredSet def) metadata) as Hm by by right; left.
  destruct (add_fields_nonnull id reserved (requiredSet def) metadata (rd_Properties def) metadata b b) as [_ Hn];
    [done|]. revert Hn. destruct (add_fields _ _ _ _ _ _ _) as [fs b']. cbn. intros Hn Hf Ht Hmeta Hd.
  apply lookup_union_Some_raw in Hf as [Hf|[_ Hf]]; [|congruence].
  destruct (Hn _ _ Hf) as [Hu|[Hu|Hu]]; [by destruct (Hu t)|congruence|done].
Qed.

(** The graph so far: closed caches, no thunk running, typed fields. *)
Definition graph_ok (g : Graph) : Prop :=
  unions_closed (built g) /\ depth (built g) = 0%Z /\
  forall key fs, forced g !! key = Some fs -> fields_typed fs (built g).

Lemma force_ok g key : graph_ok g -> graph_ok (force registry derived g key).
Proof.
  intros (Hc & Hd & Hf). unfold force.
  destruct (objectTypes (built g) !! key) as [o|] eqn:Ho; [|done].
  destruct (forced g !! key) eqn:Hk; [done|].
  destruct (run_thunk_builds (o_Fields o) (built g) (built g)) as [(He & Hu & Hd') Ht]; [done|].
  revert He Hu Hd' Ht. destruct (run_thunk _ _ _ _) as [fs b]. cbn. intros He Hu Hd' Ht.
  split; [done|]. split; [cbn; congruence|]. cbn.
  intros k fs'. rewrite lookup_insert_Some. intros [[_ <-]|[_ Hk']]; [done|].
  eapply fields_typed_mono; [exact He|by eapply Hf].
Qed.

(** Fields that were forced are what a thunk of a cached object type gave. *)
Definition forced_by_thunks (g : Graph) : Prop :=
  forall key fs, forced g !! key = Some fs -> exists o b, objectTypes (built g) !! key = Some o /\
    unions_closed b /\ fs = (run_thunk registry derived (o_Fields o) b).1.

Lemma force_thunks g key : graph_ok g -> forced_by_thunks g ->
  forced_by_thunks (force registry derived g key) /\
  extends (built g) (built (force registry derived g key)).
Proof.
  intros (Hc & _ & _) Hg. unfold force.
  destruct (objectTypes (built g) !! key) as [o|] eqn:Ho; [|done].
  destruct (forced g !! key) eqn:Hk; [done|].
  destruct (run_thunk_builds (o_Fields o) (built g) (built g)) as [[He _] _]; [done|].
  pose proof (eq_refl (run_thunk registry derived (o_Fields o) (built g))) as Hrun. revert He Hrun.
  destruct (run_thunk registry derived (o_Fields o) (built g)) as [fs b] at 1 2 4 5. cbn. intros He Hrun.
  split; [|done]. intros k fs'. cbn. rewrite lookup_insert_Some. intros [[<- <-]|[_ Hk']].
  - exists o, (built g). rewrite <-Hrun. split; [by apply He|done].
  - destruct (Hg k fs' Hk') as (o' & b' & Ho' & ? & ?). exists o', b'. split; [by apply He|done].
Qed.

Lemma force_all_thunks keys : forall g, graph_ok g -> forced_by_thunks g ->
  forced_by_thunks (force_all registry derived keys g) /\
  extends (built g) (built (force_all registry derived keys g)).
Proof.
  induction keys as [|k keys IH]; intros g Hg Ht; cbn; [done|].
  destruct (force_thunks g k Hg Ht) as [Ht' He]. destruct (IH (force registry derived g k)) as [H1 H2];
    [by apply force_ok|done|]. split; [done|]. by etrans.
Qed.

Lemma force_all_ok keys : forall g, graph_ok g -> graph_ok (force_all registry derived keys g).
Proof. induction keys as [|k keys IH]; intros g Hg; cbn; [done|]. by apply IH, force_ok. Qed.
End Closed.

(** ** The types a registry stands for *)

(** What a full ref resolves to. *)
Definition lookup_ref (registry : Registry) (key : string) : option resolved :=
  match GetObjectDef registry key with
  | Some o => Some (ResObject o)
  | None => ResRecord <$> GetRecordDef registry key
  end.

Lemma ResolveRef_lookup registry ref ctx :
  ResolveRef registry ref ctx = lookup_ref registry (full_ref ctx ref).
Proof. unfold ResolveRef, lookup_ref, full_ref, ResolveLocalRef. by destruct (IsLocalRef ref). Qed.

Section Reference.
Context `{UnicodeTables}.
Context (registry : Registry) (derived : gmap string (gmap string Field)).

(** The object types of the schema, which name their unions. *)
Context (objs : gmap string Object).

Definition ref_type (ctx ref : string) : Output :=
  if is_empty ref then GString else
  match lookup_ref registry (full_ref ctx ref) with
  | Some _ => ObjectRef (full_ref ctx ref)
  | None => GString
  end.

(** A member of a union: a record, or an object with properties. *)
Definition member (ctx ref : string) : option string :=
  match lookup_ref registry (full_ref ctx ref) with
  | Some (ResObject def) =>
      if Nat.eqb (length (od_Properties def)) 0 then None else Some (full_ref ctx ref)
  | Some (ResRecord _) => Some (full_ref ctx ref)
  | None => None
  end.

(** All members, when every ref is one. *)
Fixpoint members (ctx : string) (refs : list string) : option (list string) :=
  match refs with
  | [] => Some []
  | ref :: rest => k ← member ctx ref; ks ← members ctx rest; Some (k :: ks)
  end.

Definition union_name (ctx field : string) : string :=
  let name := ToTypeName ctx +:+ capitalizeFirst field in
  if existsb (fun e => String.eqb (o_Name e.2) name) (map_to_list objs)
  then name +:+ "Union" else name.

Definition union_type (ctx field : string) (refs : list string) : Output :=
  if Nat.eqb (length refs) 0 then GString else
  match members ctx refs with
  | Some _ => UnionRef (union_name ctx field)
  | None => JSONScalar
  end.

Definition item_type (ctx : string) (items : option ArrayItems) : Output :=
  match items with
  | None => GString
  | Some items =>
      if String.eqb (ai_Type items) "ref" then ref_type ctx (ai_Ref items)
      else if String.eqb (ai_Type items) "union" then union_type ctx "items" (ai_Refs items)
      else MapPrimitiveType (ai_Type items) ""
  end.

Definition property_type (ctx name : string) (prop : Property) : Output :=
  if String.eqb (Type_ prop) "ref" then ref_type ctx (Ref prop)
  else if String.eqb (Type_ prop) "union" then union_type ctx name (Refs prop)
  else if String.eqb (Type_ prop) "array" then NewList (NewNonNull (item_type ctx (Items prop)))
  else MapPrimitiveType (Type_ prop) (Format prop).

Definition property_field (ctx : string) (required : string -> bool) (e : PropertyEntry) : Field :=
  let t := property_type ctx (Name e) (property e) in
  plain (if required (Name e) then NewNonNull t else t).

(** A field for each property that is not skipped, the last of a name. *)
Definition property_fields (ctx : string) (skip required : string -> bool)
    (props : list PropertyEntry) (fs : Fields) : Fields :=
  foldl (fun m e => if skip (Name e) then m else <[Name e := property_field ctx required e]> m)
    fs props.

Definition fields_of (t : thunk) : Fields :=
  match t with
  | ObjectThunk ref def =>
      property_fields (IDFromRef ref) (fun _ => false) (IsRequired def) (od_Properties def) ∅
  | RecordThunk id def =>
      property_fields id reserved (requiredSet def) (rd_Properties def) metadata
        ∪ default ∅ (derived !! id)
  end.

(** *** The unions of a schema *)

(** Where unions are built: the lexicon, the field they are named after, and
    their refs. *)
Definition property_unions (ctx : string) (e : PropertyEntry) : list (string * string * list string) :=
  let p := property e in
  if String.eqb (Type_ p) "union" then [(ctx, Name e, Refs p)]
  else if String.eqb (Type_ p) "array" then
    match Items p with
    | Some items => if String.eqb (ai_Type items) "union" then [(ctx, "items", ai_Refs items)] else []
    | None => []
    end
  else [].

Definition thunk_unions (t : thunk) : list (string * string * list string) :=
  match t with
  | ObjectThunk ref def => concat (property_unions (IDFromRef ref) <$> od_Properties def)
  | RecordThunk id def => concat (property_unions id <$> rd_Properties def)
  end.

Definition unions_of : list (string * string * list string) :=
  concat ((fun e => thunk_unions (o_Fields e.2)) <$> map_to_list objs).

Definition site_name (s : string * string * list string) : string := union_name s.1.1 s.1.2.
Definition site_members (s : string * string * list string) : option (list string) :=
  members s.1.1 s.2.

(** No two unions of one name have different members. *)
Definition unions_distinct : bool :=
  forallb (fun s => forallb (fun s' =>
    implb (String.eqb (site_name s) (site_name s'))
      (match site_members s, site_members s' with
       | Some ks, Some ks' => bool_decide (ks = ks')
       | _, _ => true
       end)) unions_of) unions_of.

(** The object types are those the refs of the registry resolve to, and record
    definitions are main definitions. *)
Definition complete : Prop :=
  (forall key, is_Some (objs !! key) <-> is_Some (lookup_ref registry key)) /\
  (forall key, is_Some (recordDefs registry !! key) -> IDFromRef key = key).

(** *** The builder computes the reference *)

Hypothesis Hcomplete : complete.

(** All objects are built; every union is one of the schema's. *)
Definition settled (b : Builder) : Prop :=
  objectTypes b = objs /\
  forall name u, unionTypes b !! name = Some u ->
    exists s, s ∈ unions_of /\ site_name s = name /\ site_members s = Some (u_Types u).

Definition gives {A} (m : B A) (a : A) : Prop :=
  triple settled m (fun a' b => a' = a /\ settled b).

Lemma gives_ret {A} (a : A) : gives (mret a) a.
Proof. by apply triple_ret. Qed.

Lemma gives_bind {A C} (m : B A) (f : A -> B C) a c :
  gives m a -> gives (f a) c -> gives (m ≫= f) c.
Proof. intros Hm Hf. eapply triple_bind; [exact Hm|]. intros a' b [-> Hb]. by apply Hf. Qed.

Lemma settled_depth d b : settled b -> settled (with_depth d b).
Proof. by intros [? ?]. Qed.

Lemma complete_cached b key r : settled b -> lookup_ref registry key = Some r ->
  is_Some (objectTypes b !! key).
Proof. intros [-> _] Hr. apply (proj1 Hcomplete). by rewrite Hr. Qed.

Lemma BuildObjectType_gives key def r : lookup_ref registry key = Some r ->
  gives (BuildObjectType key def) (ObjectRef key).
Proof.
  intros Hr b Hb. destruct (complete_cached b key r Hb Hr) as [o Ho].
  unfold BuildObjectType, get, mbind, B_bind. cbn. by rewrite Ho.
Qed.

Lemma BuildRecordType_gives key def : lookup_ref registry key = Some (ResRecord def) ->
  IDFromRef key = key /\ gives (BuildRecordType (IDFromRef key) def) (ObjectRef key).
Proof.
  intros Hr. assert (IDFromRef key = key) as ->.
  { apply (proj2 Hcomplete). revert Hr. unfold lookup_ref, GetRecordDef.
    destruct (GetObjectDef registry key); [done|]. destruct (recordDefs registry !! key); [|done].
    by eexists. }
  split; [done|]. intros b Hb. destruct (complete_cached b key _ Hb Hr) as [o Ho].
  unfold BuildRecordType, get, mbind, B_bind. cbn. by rewrite Ho.
Qed.

Lemma resolveRefType_gives ctx ref : gives (resolveRefType registry ctx ref) (ref_type ctx ref).
Proof.
  unfold resolveRefType, ref_type. destruct (is_empty ref); [apply gives_ret|].
  rewrite ResolveRef_lookup. intros b Hb. unfold get, mbind, B_bind, modify.
  destruct (lookup_ref registry (full_ref ctx ref)) as [r|] eqn:Hr.
  - destruct (complete_cached b _ _ Hb Hr) as [o ->]. by split.
  - destruct (objectTypes b !! full_ref ctx ref) as [o|] eqn:Ho.
    { pose proof (proj1 (proj1 Hcomplete (full_ref ctx ref))) as Hx.
      rewrite <-(proj1 Hb), Ho, Hr in Hx. by destruct (Hx ltac:(by eexists)). }
    destruct (_ <=? _)%Z; [by split|]. split; [done|]. cbn. by repeat apply settled_depth.
Qed.

Lemma union_members_gives ctx refs : forall acc prim,
  triple settled (union_members registry ctx refs acc prim) (fun r b => settled b /\
    match members ctx refs with
    | Some ks => r = (acc ++ ks, prim)
    | None => r.2 = true
    end).
Proof.
  assert (forall rs acc b, settled b ->
    (union_members registry ctx rs acc true b).1.2 = true) as Htrue.
  { induction rs as [|ref rs IH]; intros acc b Hb; [done|]. cbn.
    rewrite ResolveRef_lookup.
    destruct (lookup_ref registry (full_ref ctx ref)) as [[def|def]|] eqn:Hr; [destruct (Nat.eqb _ 0)|..];
      try by apply IH.
    - unfold mbind, B_bind. destruct (BuildObjectType_gives _ def _ Hr b Hb) as [_ Hs].
      destruct (BuildObjectType _ _ _). by apply IH.
    - unfold mbind, B_bind. destruct (BuildRecordType_gives _ _ Hr) as [_ Hg].
      destruct (Hg b Hb) as [_ Hs]. destruct (BuildRecordType _ _ _). by apply IH. }
  induction refs as [|ref refs IH]; intros acc prim b Hb; cbn.
  { split; [done|]. by rewrite app_nil_r. }
  rewrite ResolveRef_lookup. unfold member.
  destruct (lookup_ref registry (full_ref ctx ref)) as [[def|def]|] eqn:Hr; [destruct (Nat.eqb _ 0)|..]; cbn.
  - destruct (IH acc true b Hb) as [Hs _]. split; [done|by apply Htrue].
  - eapply triple_bind; [by eapply BuildObjectType_gives| |exact Hb]. intros t b' [_ Hb'].
    destruct (IH (acc ++ [full_ref ctx ref]) prim b' Hb') as [Hs Hm]. split; [done|].
    destruct (members ctx refs); [|done]. cbn. by rewrite <-app_assoc in Hm.
  - destruct (BuildRecordType_gives _ _ Hr) as [-> Hg].
    eapply triple_bind; [exact Hg| |exact Hb]. intros t b' [_ Hb'].
    destruct (IH (acc ++ [full_ref ctx ref]) prim b' Hb') as [Hs Hm]. split; [done|].
    destruct (members ctx refs); [|done]. cbn. by rewrite <-app_assoc in Hm.
  - destruct (IH acc true b Hb) as [Hs _]. split; [done|by apply Htrue].
Qed.

Lemma members_length ctx refs ks : members ctx refs = Some ks -> length ks = length refs.
Proof.
  revert ks. induction refs as [|ref refs IH]; intros ks; cbn; [by intros [= <-]|].
  intros (k & _ & (ks' & Hks & [= <-])%bind_Some)%bind_Some. cbn. f_equal. by apply IH.
Qed.

Lemma buildUnionType_gives ctx name refs : (ctx, name, refs) ∈ unions_of ->
  gives (buildUnionType registry ctx name refs) (union_type ctx name refs).
Proof.
  intros Hin. unfold buildUnionType, union_type. destruct (Nat.eqb (length refs) 0) eqn:Hl;
    [apply gives_ret|]. eapply triple_bind; [apply union_members_gives|].
  intros [found prim] b [Hb Hm]. cbn in Hm. destruct (members ctx refs) as [ks|] eqn:Hks.
  - injection Hm as -> ->. apply members_length in Hks as Hlen. rewrite Hlen, Hl.
    unfold get, modify, mbind, B_bind, mret, B_ret.
    assert ((if HasObjectTypeNamed b (ToTypeName ctx +:+ capitalizeFirst name)
             then (ToTypeName ctx +:+ capitalizeFirst name) +:+ "Union"
             else ToTypeName ctx +:+ capitalizeFirst name) = union_name ctx name) as ->.
    { unfold HasObjectTypeNamed, union_name. by rewrite (proj1 Hb). }
    destruct (unionTypes b !! union_name ctx name) as [u|] eqn:Hu; [by split|].
    split; [done|]. destruct Hb as [Ho Hs]. split; [done|]. intros n u. cbn.
    rewrite lookup_insert_Some. intros [[<- <-]|[_ Hn]]; [|by apply Hs].
    by exists (ctx, name, refs).
  - cbn in Hm. rewrite Hm. by case_match.
Qed.

Lemma resolveArrayItemType_gives ctx items :
  (forall i, items = Some i -> ai_Type i = "union" -> (ctx, "items", ai_Refs i) ∈ unions_of) ->
  gives (resolveArrayItemType registry ctx items) (item_type ctx items).
Proof.
  intros Hin. destruct items as [i|]; cbn; [|apply gives_ret].
  destruct (String.eqb (ai_Type i) "ref"); [apply resolveRefType_gives|].
  destruct (String.eqb_spec (ai_Type i) "union"); [|apply gives_ret].
  by apply buildUnionType_gives, Hin.
Qed.

Lemma buildField_gives ctx e required :
  (forall s, s ∈ property_unions ctx e -> s ∈ unions_of) ->
  gives (buildField registry ctx (Name e) (property e) (required (Name e)))
    (property_field ctx required e).
Proof.
  intros Hin. unfold buildField, property_field. eapply gives_bind; [|apply gives_ret].
  unfold property_type. unfold property_unions in Hin.
  destruct (String.eqb (Type_ (property e)) "ref"); [apply resolveRefType_gives|].
  destruct (String.eqb (Type_ (property e)) "union").
  { apply buildUnionType_gives, Hin. by left. }
  destruct (String.eqb (Type_ (property e)) "array"); [|apply gives_ret].
  eapply gives_bind; [|apply gives_ret]. apply resolveArrayItemType_gives.
  intros i Hi Ht. apply Hin. rewrite Hi, Ht. by left.
Qed.

Lemma add_fields_gives ctx skip required props : forall fs,
  (forall s, s ∈ concat (property_unions ctx <$> props) -> s ∈ unions_of) ->
  gives (add_fields registry ctx skip required props fs) (property_fields ctx skip required props fs).
Proof.
  induction props as [|e props IH]; intros fs Hin; cbn; [apply gives_ret|].
  cbn in Hin. destruct (skip (Name e)); [apply IH; intros s Hs; apply Hin; set_solver|].
  eapply gives_bind; [apply buildField_gives; intros s Hs; apply Hin; set_solver|].
  apply IH. intros s Hs. apply Hin. set_solver.
Qed.

Lemma run_thunk_gives key o : objs !! key = Some o ->
  gives (run_thunk registry derived (o_Fields o)) (fields_of (o_Fields o)).
Proof.
  intros Ho. assert (forall s, s ∈ thunk_unions (o_Fields o) -> s ∈ unions_of) as Hin.
  { intros s Hs. unfold unions_of. apply list_elem_of_In, in_concat. eexists.
    split; [|by apply list_elem_of_In]. apply list_elem_of_In, list_elem_of_fmap.
    exists (key, o). split; [done|]. by apply elem_of_map_to_list. }
  destruct (o_Fields o) as [ref def|id def]; cbn; [by apply add_fields_gives|].
  eapply gives_bind; [by apply add_fields_gives|]. apply gives_ret.
Qed.

(** The thunks that ran gave the reference's fields. *)
Definition graph_settled (g : Graph) : Prop :=
  settled (built g) /\
  forall key fs, forced g !! key = Some fs ->
    exists o, objs !! key = Some o /\ fs = fields_of (o_Fields o).

Lemma force_settled g key : graph_settled g -> graph_settled (force registry derived g key) /\
  (is_Some (objs !! key) -> is_Some (forced (force registry derived g key) !! key)).
Proof.
  intros [Hs Hf]. unfold force. rewrite (proj1 Hs).
  destruct (objs !! key) as [o|] eqn:Ho; [|by split; [|intros [? ?]]].
  destruct (forced g !! key) eqn:Hk; [by split; [|intros _; rewrite Hk; eexists]|].
  destruct (run_thunk_gives key o Ho (built g) Hs) as [He Hs'].
  destruct (run_thunk _ _ _ _) as [fs b]. cbn in *. split; [|intros _; rewrite lookup_insert_eq; by eexists].
  split; [done|]. intros k fs'. cbn. rewrite lookup_insert_Some. intros [[<- <-]|[_ Hk']]; [eauto|by apply Hf].
Qed.

Lemma force_keeps g key k : is_Some (forced g !! k) ->
  is_Some (forced (force registry derived g key) !! k).
Proof.
  unfold force. intros Hk. repeat case_match; cbn; try done.
  destruct (decide (k = key)) as [-> |]; [rewrite lookup_insert_eq; by eexists|].
  by rewrite lookup_insert_ne.
Qed.

Lemma force_all_settled keys : forall g, graph_settled g ->
  graph_settled (force_all registry derived keys g) /\
  (forall k, is_Some (forced g !! k) \/ k ∈ keys /\ is_Some (objs !! k) ->
     is_Some (forced (force_all registry derived keys g) !! k)).
Proof.
  induction keys as [|key keys IH]; intros g Hg; cbn.
  - split; [done|]. intros k [Hk|[Hk _]]; [done|by apply not_elem_of_nil in Hk].
  - destruct (force_settled g key Hg) as [Hg' Hkey]. destruct (IH _ Hg') as [Hg'' Hall].
    split; [done|]. intros k [Hk|[[-> |Hk]%elem_of_cons Ho]]; apply Hall; auto using force_keeps.
Qed.
End Reference.

Section Claims.
Context `{UnicodeTables}.
Context (registry : Registry) (derived : gmap string (gmap string Field)).

(** When the object types that the refs of the registry resolve to are all
    built, record definitions are main definitions, and no two unions of one name
    have different members, the schema is exactly the reference, in whatever
    order the library runs the thunks: each object type has the fields
    [fields_of] gives it (one for each property with the type its definition
    stands for, the metadata and derived fields of a record), no further object
    type appears, and each union has the members of its refs. *)
Lemma schema_determined objs keys g :
  complete registry objs -> unions_distinct registry objs = true ->
  objectTypes (built g) = objs -> unionTypes (built g) = ∅ -> forced g = ∅ ->
  let g' := force_all registry derived keys g in
  objectTypes (built g') = objs /\
  (forall key o, key ∈ keys -> objs !! key = Some o ->
     forced g' !! key = Some (fields_of registry derived objs (o_Fields o))) /\
  (forall s ks u, s ∈ unions_of objs -> site_members registry s = Some ks ->
     unionTypes (built g') !! site_name objs s = Some u -> u_Types u = ks).
Proof.
  intros Hc Hdis Ho Hu Hf. cbn zeta.
  destruct (force_all_settled registry derived objs Hc keys g) as [[[Ho' Hs] Hfs] Hall].
  { split; [split; [done|]|]; intros ? ?; [rewrite Hu|rewrite Hf]; by rewrite lookup_empty. }
  split; [done|]. split.
  - intros key o Hk Hko. destruct (Hall key) as [fs Hfs']; [right; split; [done|by eexists]|].
    destruct (Hfs key fs Hfs') as (o' & Ho'' & ->). by simplify_eq.
  - intros s ks u Hin Hm Hun. destruct (Hs _ _ Hun) as (s' & Hin' & Hn & Hm').
    unfold unions_distinct in Hdis. rewrite forallb_forall in Hdis.
    apply list_elem_of_In in Hin, Hin'. specialize (Hdis s Hin). rewrite forallb_forall in Hdis.
    specialize (Hdis s' Hin'). rewrite Hn, String.eqb_refl, Hm, Hm' in Hdis. cbn in Hdis.
    by apply bool_decide_eq_true in Hdis.
Qed.

(** A record keeps its metadata, with the types of the code, whatever the
    properties of its lexicon and the derived fields are called. *)
Lemma add_fields_keeps ctx required props : forall fs b name f,
  reserved name = true -> fs !! name = Some f ->
  (add_fields registry ctx reserved required props fs b).1 !! name = Some f.
Proof.
  induction props as [|e props IH]; intros fs b name f Hr Hf; cbn [add_fields]; [done|].
  destruct (reserved (Name e)) eqn:He; [by apply IH|]. unfold mbind, B_bind.
  destruct (buildField _ _ _ _ _ _) as [field b']. apply IH; [done|].
  rewrite lookup_insert_ne; [done|]. intros Heq. congruence.
Qed.

Theorem record_metadata id def b name f : metadata !! name = Some f ->
  (run_thunk registry derived (RecordThunk id def) b).1 !! name = Some f.
Proof.
  intros Hf. cbn. unfold buildRecordFields, mbind, B_bind.
  assert (reserved name = true) as Hr.
  { revert Hf. unfold metadata. rewrite !lookup_insert_Some, lookup_singleton_Some.
    clear. intros Hf. repeat (destruct Hf as [[<- _]|[_ Hf]]; [done|]). by destruct Hf as [<- _]. }
  pose proof (add_fields_keeps id (requiredSet def) (rd_Properties def) metadata b name f Hr Hf) as Hk.
  destruct (add_fields _ _ _ _ _ _ _) as [fs b']. cbn in *. by apply lookup_union_Some_l.
Qed.

(** The limit on the depth of refs is never met: thunks are started at depth
    zero, and a ref never builds the fields of what it refers to, so below the
    limit a ref is resolved as if nothing was counted. *)
Theorem depth_unreached ctx ref b : (depth b < maxResolveDepth)%Z ->
  resolveRefType registry ctx ref b =
  if is_empty ref then (GString, b) else
  match objectTypes b !! full_ref ctx ref with
  | Some _ => (ObjectRef (full_ref ctx ref), b)
  | None => build_resolved (full_ref ctx ref) (ResolveRef registry ref ctx) b
  end.
Proof.
  intros Hd. unfold resolveRefType, get, modify, mbind, B_bind, mret, B_ret.
  destruct (is_empty ref); [done|]. destruct (objectTypes b !! full_ref ctx ref) eqn:Ho; [done|].
  destruct (Z.leb_spec maxResolveDepth (depth b)); [lia|].
  assert (forall d : Z, (d + 1 - 1)%Z = d) as Hid by lia.
  destruct b as [os us d], (ResolveRef registry ref ctx) as [[def|def]|]; cbn;
    unfold BuildObjectType, BuildRecordType, get, modify, mbind, B_bind, mret, B_ret; cbn.
  - cbn in Ho. rewrite Ho. unfold with_depth, SetObjectType; cbn. by rewrite Hid.
  - destruct (os !! IDFromRef _); unfold with_depth, SetObjectType; cbn; by rewrite Hid.
  - unfold with_depth. cbn. by rewrite Hid.
Qed.

(** The type that a union's data resolves to: the member that [$type] names,
    when members have names of their own. *)
Theorem union_resolves b objs data typ key obj :
  data !! "$type" = Some (JStr typ) -> key ∈ objs ->
  objectTypes b !! key = Some obj -> o_Name obj = refToTypeName typ ->
  (forall k o, k ∈ objs -> objectTypes b !! k = Some o -> o_Name o = o_Name obj -> k = key) ->
  ResolveType b objs (JObj data) = Some key.
Proof.
  intros Ht Hin Ho Hn Huniq. unfold ResolveType. rewrite Ht.
  destruct (find _ objs) as [k|] eqn:Hf.
  - apply find_some in Hf as [Hk Hb]. f_equal.
    destruct (objectTypes b !! k) as [o|] eqn:Hok; [|done].
    apply String.eqb_eq in Hb. apply list_elem_of_In in Hk. eapply Huniq; [done..|congruence].
  - exfalso. apply (find_none _ _ Hf) in Hin as Hb || apply list_elem_of_In in Hin.
    apply (find_none _ _ Hf) in Hin. by rewrite Ho, Hn, String.eqb_refl in Hin.
Qed.
End Claims.
