(* ===== verification/Schema.v ===== *)
(** [internal/graphql/schema]: the schema built from a registry ([builder.go],
    the input types of [where.go], [derived_fields.go]), with the connection
    types of [internal/graphql/query/connection.go]. The fields of object types
    are [Types]; what the resolvers do with a request is [Where] and
    [Connection]. The order of Go's loops over maps is an argument. *)
From S2P Require Import Prelude GoStrings Utf8 Nsid AtProto Json Lexicon Registry Validator Filter Where Types.
From S2P Require PubSub.

Local Open Scope Z_scope.

(** ** Derived fields ([derived_fields.go]) *)

Record derivedFieldDescriptor := { dd_FieldName : string; dd_Field : Field }.

Definition derivedFieldRegistry : gmap string (gmap string derivedFieldDescriptor) :=
  {["app.certified.badge.definition" :=
      {["awardCount" := {| dd_FieldName := "awardCount";
                           dd_Field := {| f_Type := NewNonNull GInt;
                                          f_Resolve := Some "resolveAwardCount" |} |}]}]}.

Definition derivedFieldsForObjectBuilder : gmap string (gmap string Field) :=
  fmap (M := gmap string)
    (fun byField : gmap string derivedFieldDescriptor => fmap (M := gmap string) dd_Field byField)
    derivedFieldRegistry.

(** [init] panics when a derived field has a reserved name. *)
Definition mustNotReserveField (fieldName : string) : bool := negb (reserved fieldName).
Definition init_ok : bool :=
  forallb (fun e => forallb (fun f => mustNotReserveField f.1) (map_to_list e.2))
    (map_to_list derivedFieldRegistry).

(** ** Input types ([where.go]) *)

(** An input object: a filter input, the where input of a lexicon, or the one
    built for the elements of a field of a lexicon. *)
Inductive InputRef :=
| RFilter (f : FilterInput)
| RWhere (lexiconID : string)
| RElement (lexiconID fieldName : string).

Inductive WhereType := WInput (r : InputRef) | WListOf (r : InputRef).

Record InputObject := { io_Name : string; io_Fields : gmap string WhereType }.

Definition AddFieldConfig (name : string) (t : WhereType) (i : InputObject) : InputObject :=
  {| io_Name := io_Name i; io_Fields := <[name := t]> (io_Fields i) |}.

Definition propertyToFilterInput (prop : Property) : option FilterInput :=
  if negb (is_empty (Format prop)) then
    match FilterInputForLexiconType (Format prop) with
    | Some input => Some input
    | None => FilterInputForLexiconType (Type_ prop)
    end
  else FilterInputForLexiconType (Type_ prop).

(** [strings.ToUpper(s[:1]) + s[1:]]: the first byte alone is no valid string
    when it is not ASCII. *)
Definition capitalize (s : string) : string :=
  match s with
  | EmptyString => s
  | String c s' =>
      if zb c <? 128 then
        String (if (97 <=? zb c) && (zb c <=? 122) then ascii_of_N (N_of_ascii c - 32) else c) s'
      else EncodeRune 65533 +:+ s'
  end.

(** The field an entry adds, by the filter type found for it. *)
Definition add_filter_field (to_input : Property -> option FilterInput)
    (fields : gmap string WhereType) (e : PropertyEntry) : gmap string WhereType :=
  match to_input (property e) with
  | None => fields
  | Some f => <[Name e := WInput (RFilter f)]> fields
  end.

Section Inputs.
Context `{UnicodeTables}.

Definition buildWhereInputType (lex : Lexicon) : option InputObject :=
  match Main lex with
  | None => None
  | Some recordDef =>
      let fields := foldl (add_filter_field propertyToFilterInput) ∅ (rd_Properties recordDef) in
      let fields := <["did" := WInput (RFilter DIDFilterInput)]> fields in
      let fields := foldl (fun m e => <[fd_FieldName e.2 := WInput (RFilter DIDFilterInput)]> m)
                      fields (map_to_list (default ∅ (filterRegistry !! ID lex))) in
      if Nat.eqb (size fields) 0 then None
      else
        let whereInput := {| io_Name := capitalize (ToFieldName (ID lex)) +:+ "WhereInput";
                             io_Fields := fields |} in
        let whereInput := AddFieldConfig "_and" (WListOf (RWhere (ID lex))) whereInput in
        Some (AddFieldConfig "_or" (WListOf (RWhere (ID lex))) whereInput)
  end.

(** A reference to a strongRef is filtered by its parts. *)
Definition elementFilterInput (prop : Property) : option FilterInput :=
  if String.eqb (Type_ prop) "ref" && String.eqb (Ref prop) "com.atproto.repo.strongRef"
  then Some StrongRefFilterInput else propertyToFilterInput prop.

Definition buildArrayElementInputType (parentLex : Lexicon) (descriptor : arrayWhereDescriptor)
  : option InputObject :=
  match Others parentLex !! ElementDef descriptor with
  | None => None
  | Some elementDef =>
      match object_of elementDef with
      | None => None
      | Some o =>
          let fields := foldl (add_filter_field elementFilterInput) ∅ (od_Properties o) in
          if Nat.eqb (size fields) 0 then None
          else
            let name := capitalize (ToFieldName (ID parentLex))
                        +:+ capitalize (ElementDef descriptor) +:+ "WhereInput" in
            let self := WListOf (RElement (ID parentLex) (ad_FieldName descriptor)) in
            let input := {| io_Name := name; io_Fields := fields |} in
            Some (AddFieldConfig "_or" self (AddFieldConfig "_and" self input))
      end
  end.

(** The input objects built so far: [b.whereInputs], and those for elements. *)
Record Inputs := {
  whereInputs : gmap string InputObject;
  elementInputs : gmap (string * string) InputObject
}.

Definition update_where (id : string) (f : InputObject -> InputObject) (s : Inputs) : Inputs :=
  {| whereInputs := alter f id (whereInputs s); elementInputs := elementInputs s |}.

(** Pass 1, for one lexicon. *)
Definition base_input (s : Inputs) (lex : Lexicon) : Inputs :=
  match buildWhereInputType lex with
  | None => s
  | Some input => {| whereInputs := <[ID lex := input]> (whereInputs s);
                     elementInputs := elementInputs s |}
  end.

(** Pass 2: a joined field, and an array field, of a lexicon. *)
Definition joined_input (lex : Lexicon) (s : Inputs) (e : string * joinedWhereDescriptor) : Inputs :=
  match whereInputs s !! TargetLexicon e.2 with
  | None => s
  | Some _ => update_where (ID lex)
                (AddFieldConfig (jd_FieldName e.2) (WInput (RWhere (TargetLexicon e.2)))) s
  end.

Definition array_input (lex : Lexicon) (s : Inputs) (e : string * arrayWhereDescriptor) : Inputs :=
  match buildArrayElementInputType lex e.2 with
  | None => s
  | Some elementInput =>
      let s := {| whereInputs := whereInputs s;
                  elementInputs := <[(ID lex, ad_FieldName e.2) := elementInput]> (elementInputs s) |} in
      update_where (ID lex)
        (AddFieldConfig (ad_FieldName e.2) (WInput (RElement (ID lex) (ad_FieldName e.2)))) s
  end.

Definition nested_inputs (s : Inputs) (lex : Lexicon) : Inputs :=
  match whereInputs s !! ID lex with
  | None => s
  | Some _ =>
      let s := foldl (joined_input lex) s (map_to_list (default ∅ (joinedWhereRegistry !! ID lex))) in
      foldl (array_input lex) s (map_to_list (default ∅ (arrayWhereRegistry !! ID lex)))
  end.

(** The loops of both passes visit the collection lexicons in orders of their
    own. *)
Definition buildWhereInputTypes (pass1 pass2 : list Lexicon) : Inputs :=
  foldl nested_inputs (foldl base_input {| whereInputs := ∅; elementInputs := ∅ |} pass1) pass2.

(** ** Object, record and connection types ([builder.go]) *)

Context (registry : Registry).

Definition build_others (lex : Lexicon) (others : list (string * Def)) (b : Builder) : Builder :=
  foldl (fun b e => match object_of e.2 with
                    | Some o => (BuildObjectType (MakeRef (ID lex) e.1) o b).2
                    | None => b
                    end) b others.

(** The two loops of [buildObjectTypes], over the lexicons without a main
    definition and over the collections, with the order of each inner loop. *)
Definition buildObjectTypes (lexs : list (Lexicon * list (string * Def))) (b : Builder) : Builder :=
  foldl (fun b e => build_others e.1 e.2 b) b lexs.

Definition buildRecordTypes (colls : list Lexicon) (b : Builder) : Builder * gmap string Output :=
  foldl (fun s lex => match Main lex with
                      | Some m => let '(t, b) := BuildRecordType (ID lex) m s.1 in
                                  (b, <[ID lex := t]> s.2)
                      | None => s
                      end) (b, ∅) colls.

(** ** Connection types ([connection.go]) *)

Definition strings_type : Output := NewNonNull (NewList (NewNonNull GString)).

Definition fields_of_list (l : list (string * Output)) : Fields :=
  list_to_map ((fun e => (e.1, plain e.2)) <$> l).

Definition PageInfoType : Fields :=
  fields_of_list [("hasNextPage", NewNonNull GBoolean); ("hasPreviousPage", NewNonNull GBoolean);
                  ("startCursor", GString); ("endCursor", GString)].

(** The name and the fields of a type made for a node type. *)
Definition BuildEdgeType (nodeName : string) (node : Output) : string * Fields :=
  (nodeName +:+ "Edge",
   fields_of_list [("cursor", NewNonNull GString); ("node", NewNonNull node)]).

Definition BuildConnectionType (nodeName : string) : string * Fields :=
  (nodeName +:+ "Connection",
   fields_of_list [("edges", NewNonNull (NewList (NewNonNull (NamedType (nodeName +:+ "Edge")))));
                   ("pageInfo", NewNonNull (NamedType "PageInfo")); ("totalCount", GInt)]).

(** The loop over the record types: each has a connection type. *)
Definition buildConnectionTypes (b : Builder) (recordTypes : list (string * Output))
  : gmap string (string * Fields) :=
  foldl (fun m e => match e.2 with
                    | ObjectRef key =>
                        match objectTypes b !! key with
                        | Some o => <[e.1 := BuildConnectionType (o_Name o)]> m
                        | None => m
                        end
                    | _ => m
                    end) ∅ recordTypes.

(** ** Types made once ([builder.go]) *)

Definition recordEventType : Fields :=
  <["labels" := {| f_Type := strings_type; f_Resolve := Some "labels of the source" |}]>
  (fields_of_list [("type", NewNonNull GString); ("uri", NewNonNull GString);
     ("cid", NewNonNull GString); ("did", NewNonNull GString); ("collection", NewNonNull GString);
     ("record", JSONScalar)]).
Definition collectionStatType : Fields :=
  fields_of_list [("collection", NewNonNull GString); ("count", NewNonNull GInt)].
Definition timeSeriesPointType : Fields :=
  fields_of_list [("date", NewNonNull GString); ("count", NewNonNull GInt);
                  ("cumulative", NewNonNull GInt)].
Definition collectionTimeSeriesType : Fields :=
  fields_of_list [("collection", NewNonNull GString); ("totalRecords", NewNonNull GInt);
     ("uniqueUsers", NewNonNull GInt);
     ("data", NewNonNull (NewList (NewNonNull (NamedType "TimeSeriesPoint"))))].
Definition genericRecordType : Fields :=
  fields_of_list [("uri", NewNonNull GString); ("cid", NewNonNull GString); ("did", NewNonNull GString);
     ("collection", NewNonNull GString); ("rkey", NewNonNull GString); ("value", JSONScalar);
     ("labels", strings_type); ("pds", GString)].
Definition genericRecordEdgeType : Fields :=
  fields_of_list [("cursor", NewNonNull GString); ("node", NamedType "GenericRecord")].
Definition genericRecordConnectionType : Fields :=
  fields_of_list [("edges", NewList (NamedType "GenericRecordEdge")); ("pageInfo", NamedType "PageInfo")].

(** ** Arguments ([connection.go]) *)

Inductive ArgType := AType (t : Output) | AWhere (r : InputRef).
Record Arg := { a_Type : ArgType; a_Default : option json }.
Definition arg (t : Output) : Arg := {| a_Type := AType t; a_Default := None |}.

Definition SortDirectionEnum : list string := ["ASC"; "DESC"].

Definition strings_arg : Arg := arg (NewList (NewNonNull GString)).
Definition LabelFilterArgs : gmap string Arg :=
  <["labels" := strings_arg]> (<["excludeLabels" := strings_arg]> {["labelerDids" := strings_arg]}).
Definition PDSFilterArgs : gmap string Arg := {["excludePds" := strings_arg]}.

(** Later assignments win. *)
Definition ConnectionArgs : gmap string Arg :=
  PDSFilterArgs ∪ (LabelFilterArgs ∪
  (<["first" := arg GInt]> (<["after" := arg GString]> (<["last" := arg GInt]>
  (<["before" := arg GString]>
  (<["orderBy" := {| a_Type := AType GString; a_Default := Some (JStr "indexed_at") |}]>
  (<["orderDirection" := {| a_Type := AType (NamedType "SortDirection");
                            a_Default := Some (JStr "DESC") |}]>
  (<["search" := arg GString]> {["authors" := strings_arg]})))))))).

(** ** The root types *)

Inductive Resolver :=
| GenericRecordsResolver | CollectionStatsResolver | CollectionTimeSeriesResolver
| CollectionResolver (lexiconID : string)
| SingleRecordResolver (lexiconID : string)
| RecordEventsResolver
| CollectionEventsResolver (lexiconID : string).

Record RootField := { r_Type : Output; r_Args : gmap string Arg; r_Resolve : Resolver }.

Definition genericRecordsArgs : gmap string Arg :=
  <["search" := arg GString]> (PDSFilterArgs ∪ (LabelFilterArgs ∪
  (<["collection" := arg (NewNonNull GString)]>
  (<["first" := {| a_Type := AType GInt; a_Default := Some (JNum (Num 20 0)) |}]>
  {["after" := arg GString]})))).

Definition root_fields : gmap string RootField :=
  <["records" := {| r_Type := NamedType "GenericRecordConnection"; r_Args := genericRecordsArgs;
                    r_Resolve := GenericRecordsResolver |}]>
  (<["collectionStats" :=
      {| r_Type := NewNonNull (NewList (NewNonNull (NamedType "CollectionStat")));
         r_Args := {["collections" := strings_arg]}; r_Resolve := CollectionStatsResolver |}]>
  {["collectionTimeSeries" :=
      {| r_Type := NamedType "CollectionTimeSeries";
         r_Args := {["collection" := arg (NewNonNull GString)]};
         r_Resolve := CollectionTimeSeriesResolver |}]}).

(** One turn of the loop over the connection types: the list of a collection,
    and the lookup by URI. *)
Definition collection_field (inputs : Inputs) (lexiconID connection : string) : RootField :=
  {| r_Type := NamedType connection;
     r_Args := match whereInputs inputs !! lexiconID with
               | Some _ => <["where" := {| a_Type := AWhere (RWhere lexiconID); a_Default := None |}]>
                             ConnectionArgs
               | None => ConnectionArgs
               end;
     r_Resolve := CollectionResolver lexiconID |}.

Definition by_uri_field (recordTypes : gmap string Output) (lexiconID : string) : RootField :=
  {| r_Type := default GString (recordTypes !! lexiconID);
     r_Args := {["uri" := arg (NewNonNull GString)]};
     r_Resolve := SingleRecordResolver lexiconID |}.

Definition add_collection (inputs : Inputs) (recordTypes : gmap string Output)
    (fields : gmap string RootField) (e : string * (string * Fields)) : gmap string RootField :=
  let fieldName := ToFieldName e.1 in
  <[fieldName +:+ "ByUri" := by_uri_field recordTypes e.1]>
  (<[fieldName := collection_field inputs e.1 e.2.1]> fields).

Definition buildQueryType (inputs : Inputs) (recordTypes : gmap string Output)
    (connectionTypes : list (string * (string * Fields))) : gmap string RootField :=
  foldl (add_collection inputs recordTypes) root_fields connectionTypes.

Definition buildSubscriptionType (recordTypes : list (string * Output)) : gmap string RootField :=
  foldl (fun fields e =>
           <[ToFieldName e.1 +:+ "Events" :=
               {| r_Type := e.2; r_Args := ∅; r_Resolve := CollectionEventsResolver e.1 |}]> fields)
    {["recordEvents" := {| r_Type := NamedType "RecordEvent";
                           r_Args := {["collection" := arg GString]};
                           r_Resolve := RecordEventsResolver |}]} recordTypes.

(** The fields of the root types of a schema are their own, when the names of
    the collections give distinct field names. *)
Lemma add_collections_lookup inputs rts l : forall fields name,
  name ∉ concat ((fun e : string * (string * Fields) => [ToFieldName e.1; ToFieldName e.1 +:+ "ByUri"]) <$> l) ->
  foldl (add_collection inputs rts) fields l !! name = fields !! name.
Proof.
  induction l as [|e l IH]; intros fields name Hn; cbn; [done|]. cbn in Hn.
  rewrite IH by set_solver. unfold add_collection. rewrite !lookup_insert_ne; set_solver.
Qed.

Theorem query_fields_complete inputs rts l e :
  NoDup (concat ((fun e : string * (string * Fields) => [ToFieldName e.1; ToFieldName e.1 +:+ "ByUri"]) <$> l)) ->
  e ∈ l ->
  buildQueryType inputs rts l !! ToFieldName e.1 = Some (collection_field inputs e.1 e.2.1) /\
  buildQueryType inputs rts l !! (ToFieldName e.1 +:+ "ByUri") = Some (by_uri_field rts e.1).
Proof.
  unfold buildQueryType. generalize root_fields. induction l as [|e' l IH]; intros fields Hnd Hin;
    [by apply not_elem_of_nil in Hin|]. cbn in Hnd |- *.
  apply NoDup_cons in Hnd as [Hn1 [Hn2 Hnd]%NoDup_cons].
  apply elem_of_cons in Hin as [-> |Hin]; [|by apply IH].
  rewrite !add_collections_lookup by set_solver. unfold add_collection.
  rewrite lookup_insert_eq, lookup_insert_ne, lookup_insert_eq; [done|set_solver].
Qed.
End Inputs.

(** ** Subscriptions *)

(** What a resolver finds in [p.Source]. *)
Inductive source := SrcMap (m : obj) | SrcEvent (e : option PubSub.RecordEvent).

Definition event_type (t : PubSub.EventType) : string :=
  match t with
  | PubSub.EventCreate => "create" | PubSub.EventUpdate => "update" | PubSub.EventDelete => "delete"
  end.

(** The root object that the subscription handler executes a query with
    ([internal/graphql/subscription/handler.go]). *)
Definition rootObject (e : PubSub.RecordEvent) : obj :=
  {["recordEvents" := JObj
     (<["type" := JStr (event_type (PubSub.Type_ e))]>
     (<["uri" := JStr (PubSub.URI e)]>
     (<["cid" := JStr (PubSub.CID e)]>
     (<["did" := JStr (PubSub.DID e)]>
     (<["collection" := JStr (PubSub.Collection e)]>
     {["record" := match PubSub.Record_ e with Some m => JObj m | None => JNull end]})))))]}.

(** The resolver of [recordEvents]: a value of the map, or the source itself. *)
Definition resolve_recordEvents (src : source) : json + source :=
  match src with
  | SrcMap m => inl (default JNull (m !! "recordEvents"))
  | SrcEvent _ => inr src
  end.

(** The resolver of the events of one collection; [labels] are the active
    labels of a record, when the request has repositories. *)
Definition resolve_collection_events (labels : option (string -> list string)) (collection : string)
    (src : source) : option (option obj) :=
  match src with
  | SrcEvent (Some e) =>
      if negb (String.eqb (PubSub.Collection e) collection) then None
      else match PubSub.Record_ e, labels with
           | Some record, Some labels =>
               Some (Some (<["labels" := JArr (JStr <$> labels (PubSub.URI e))]> record))
           | record, _ => Some record
           end
  | _ => None
  end.

(** ** What a registry of lexicons indexes *)

(** Lexicons as the protocol has them: a plain ID, a record as the main
    definition or none, and named definitions that are no records. *)
Definition regular (lex : Lexicon) : Prop :=
  plain_id (ID lex) /\
  (forall m, Main lex = Some m -> rd_Type m = "record") /\
  (forall n d, Others lex !! n = Some d -> n <> "" /\ record_of d = None).

(** What a list of lexicons defines under a key. *)
Definition defines_object (lexs : list Lexicon) (k : string) (o : ObjectDef) : Prop :=
  exists lex n d, lex ∈ lexs /\ Others lex !! n = Some d /\ object_of d = Some o /\
    k = MakeRef (ID lex) n.
Definition defines_record (lexs : list Lexicon) (k : string) (m : RecordDef) : Prop :=
  exists lex, lex ∈ lexs /\ Main lex = Some m /\ k = ID lex.

Definition indexes (r : Registry) (lexs : list Lexicon) : Prop :=
  (forall id lex, lexicons r !! id = Some lex <-> lex ∈ lexs /\ ID lex = id) /\
  (forall k o, objectDefs r !! k = Some o <-> defines_object lexs k o) /\
  (forall k m, recordDefs r !! k = Some m <-> defines_record lexs k m).

Lemma Register_objects r lex k : regular lex ->
  objectDefs (Register r lex) !! k = match
    List.find (fun e => bool_decide (k = MakeRef (ID lex) e.1) && bool_decide (is_Some (object_of e.2)))
      (map_to_list (Others lex)) with
    | Some e => object_of e.2
    | None => objectDefs r !! k
    end.
Proof.
  intros (Hp & Hm & Ho). destruct (find _ _) as [[n d]|] eqn:Hf.
  - apply find_some in Hf as [Hin Hb]. cbn in *. apply andb_true_iff in Hb as [H1 H2].
    apply bool_decide_eq_true in H1, H2. destruct H2 as [o Hd]. rewrite Hd.
    apply (register_in_object_hit r lex); [done|]. exists n, d. by apply list_elem_of_In in Hin.
  - unfold Register, register_in.
    rewrite (fold_index_miss _ _ _ (index_def_objects (ID lex))).
    + unfold index_main. destruct (Main lex) as [m|] eqn:Hmain; [|done]. cbn.
      by rewrite (Hm m eq_refl).
    + intros a (n & d & Hin & Hd & ->). apply list_elem_of_In in Hin.
      apply (find_none _ _ Hf) in Hin. cbn in Hin. rewrite Hd in Hin.
      by rewrite !bool_decide_true in Hin.
Qed.

Lemma Register_records r lex k : regular lex ->
  recordDefs (Register r lex) !! k =
  if decide (k = ID lex) then (match Main lex with Some m => Some m | None => recordDefs r !! k end)
  else recordDefs r !! k.
Proof.
  intros (Hp & Hm & Ho). unfold Register, register_in.
  rewrite (fold_index_miss _ _ _ (index_def_records (ID lex))).
  - unfold index_main. destruct (Main lex) as [m|]; cbn; [|by destruct (decide _)].
    destruct (decide (k = ID lex)) as [-> |]; [by rewrite lookup_insert_eq|by rewrite lookup_insert_ne].
  - intros a (n & d & Hin & Hd & ->). apply elem_of_map_to_list in Hin.
    apply Ho in Hin as [_ Hin]. congruence.
Qed.

Lemma indexes_registry lexs : NoDup (ID <$> lexs) -> Forall regular lexs ->
  indexes (NewRegistryFromLexicons lexs) lexs.
Proof.
  unfold NewRegistryFromLexicons. induction lexs as [|lex lexs IH] using rev_ind.
  { intros _ _. split_and!; intros; cbn; rewrite lookup_empty; split; try done.
    - by intros [?%not_elem_of_nil _].
    - by intros (? & ? & ? & ?%not_elem_of_nil & _).
    - by intros (? & ?%not_elem_of_nil & _). }
  rewrite fmap_app, Forall_app, Forall_singleton.
  intros (Hnd & Hdis & _)%NoDup_app [Hreg Hr]. destruct (IH Hnd Hreg) as (H1 & H2 & H3).
  rewrite foldl_app. cbn [foldl]. set (r := foldl Register NewRegistry lexs) in *.
  assert (forall lex', lex' ∈ lexs -> ID lex' <> ID lex) as Hne.
  { intros lex' Hin Heq. apply (Hdis (ID lex')); [by apply list_elem_of_fmap_2|].
    rewrite Heq. by apply list_elem_of_singleton. }
  assert (forall lex', lex' ∈ lexs -> regular lex') as Hreg' by by apply Forall_forall.
  split_and!.
  - intros id lex'. unfold Register. rewrite register_in_lexicons, lookup_insert_Some, H1, elem_of_app, list_elem_of_singleton.
    naive_solver.
  - intros k o. rewrite Register_objects by done. destruct (find _ _) as [[n d]|] eqn:Hf.
    + apply find_some in Hf as [Hin Hb]. cbn in *. apply andb_true_iff in Hb as [Hb Hs].
      apply bool_decide_eq_true in Hb, Hs. subst k. apply list_elem_of_In, elem_of_map_to_list in Hin.
      split.
      * intros Ho. exists lex, n, d. split_and!; [set_solver|done..].
      * intros (lex' & n' & d' & [Hin'| ->%list_elem_of_singleton]%elem_of_app & Hn' & Ho & Hk).
        -- apply MakeRef_inj in Hk as [Hk _]; [|apply Hr|by apply Hreg']. by destruct (Hne lex' Hin').
        -- apply MakeRef_name_inj in Hk as <-. by simplify_eq.
    + rewrite H2. split; intros (lex' & n & d & Hin & Hn & Ho & ->).
      * exists lex', n, d. split_and!; [set_solver|done..].
      * exists lex', n, d. split_and!; [|done..]. apply elem_of_app in Hin as [|Hin]; [done|].
        apply list_elem_of_singleton in Hin as ->. apply elem_of_map_to_list, list_elem_of_In in Hn.
        apply (find_none _ _ Hf) in Hn. cbn in Hn. rewrite Ho, !bool_decide_true in Hn by done. done.
  - intros k m. rewrite Register_records by done. unfold defines_record.
    destruct (decide (k = ID lex)) as [-> |Hk].
    + destruct (Main lex) as [m'|] eqn:Hm.
      * split; [intros [= ->]; exists lex; set_solver|].
        intros (lex' & [Hin| ->%list_elem_of_singleton]%elem_of_app & Hm' & Heq); [by destruct (Hne lex' Hin)|congruence].
      * rewrite H3. split; intros (lex' & Hin & Hm' & Heq); exists lex'; set_solver.
    + rewrite H3. split; intros (lex' & Hin & Hm' & Heq); exists lex'; set_solver.
Qed.

(** ** The object types of a schema *)

Section Phases.
Context `{UnicodeTables}.

(** Caching a type under a key that has none. *)
Definition put (b : Builder) (e : string * Object) : Builder :=
  match objectTypes b !! e.1 with Some _ => b | None => SetObjectType e.1 e.2 b end.

Lemma BuildObjectType_put ref def b : (BuildObjectType ref def b).2 =
  put b (ref, {| o_Name := refToTypeName ref; o_Fields := ObjectThunk ref def |}).
Proof. unfold BuildObjectType, put, get, modify, mbind, B_bind. cbn. by destruct (objectTypes b !! ref). Qed.

Lemma BuildRecordType_put id def b : (BuildRecordType id def b).2 =
  put b (id, {| o_Name := ToTypeName id; o_Fields := RecordThunk id def |}).
Proof. unfold BuildRecordType, put, get, modify, mbind, B_bind. cbn. by destruct (objectTypes b !! id). Qed.

Lemma put_all_lookup l : forall b, (forall k o o', (k, o) ∈ l -> (k, o') ∈ l -> o = o') -> forall k o,
  objectTypes (foldl put b l) !! k = Some o <->
  objectTypes b !! k = Some o \/ objectTypes b !! k = None /\ (k, o) ∈ l.
Proof.
  induction l as [|[k0 o0] l IH]; intros b Hf k o; cbn.
  { split; [by left|]. by intros [?|[_ ?%not_elem_of_nil]]. }
  rewrite IH by (intros; eapply Hf; by right). unfold put. cbn.
  destruct (objectTypes b !! k0) as [o1|] eqn:H0; cbn.
  - rewrite elem_of_cons. split; [naive_solver|]. intros [?|[? [?|?]]]; [naive_solver| |naive_solver].
    simplify_eq.
  - rewrite elem_of_cons. destruct (decide (k = k0)) as [-> |Hk].
    + rewrite lookup_insert_eq, H0. split; [intros [[= ->]|[? _]]; [auto|done]|].
      intros [?|[_ [[= ->]|Hin]]]; [done|by left|left; f_equal]. eapply (Hf k0); [by left|by right].
    + rewrite lookup_insert_ne by done. naive_solver.
Qed.

Lemma puts_rest l : forall b, unionTypes (foldl put b l) = unionTypes b /\ depth (foldl put b l) = depth b.
Proof.
  induction l as [|e l IH]; intros b; cbn; [done|]. destruct (IH (put b e)) as [-> ->].
  unfold put. by destruct (objectTypes b !! e.1).
Qed.

(** The object types of the named definitions, and of the records. *)
Definition object_types (lexs : list (Lexicon * list (string * Def))) : list (string * Object) :=
  concat ((fun e : Lexicon * list (string * Def) => omap (M := list) (fun d : string * Def =>
    (fun o => (MakeRef (ID e.1) d.1,
               {| o_Name := refToTypeName (MakeRef (ID e.1) d.1);
                  o_Fields := ObjectThunk (MakeRef (ID e.1) d.1) o |})) <$> object_of d.2) e.2) <$> lexs).
Definition record_types (colls : list Lexicon) : list (string * Object) :=
  omap (fun lex => (fun m => (ID lex, {| o_Name := ToTypeName (ID lex);
                                         o_Fields := RecordThunk (ID lex) m |})) <$> Main lex) colls.

Lemma buildObjectTypes_puts lexs : forall b,
  buildObjectTypes lexs b = foldl put b (object_types lexs).
Proof.
  unfold buildObjectTypes, object_types. induction lexs as [|[lex others] lexs IH]; intros b; [done|].
  cbn [foldl fmap list_fmap concat fst snd]. rewrite IH, foldl_app. f_equal. clear IH. unfold build_others.
  revert b. induction others as [|[n d] others IH]; intros b; [done|]. cbn [foldl fst snd omap list_omap].
  destruct (object_of d) as [o|]; cbn [fmap option_fmap option_map foldl].
  - by rewrite IH, BuildObjectType_put.
  - by rewrite IH.
Qed.

Lemma buildRecordTypes_puts colls : forall s,
  (foldl (fun (s : Builder * gmap string Output) lex => match Main lex with
     | Some m => let '(t, b) := BuildRecordType (ID lex) m s.1 in (b, <[ID lex := t]> s.2)
     | None => s
     end) s colls).1 = foldl put s.1 (record_types colls).
Proof.
  unfold record_types. induction colls as [|lex colls IH]; intros s; [done|]. cbn [foldl omap list_omap].
  rewrite IH. destruct (Main lex) as [m|]; [|done]. cbn [fmap option_fmap option_map foldl].
  rewrite <-BuildRecordType_put. by destruct (BuildRecordType _ _ _).
Qed.

(** The lexicons of the schema, with the orders in which the loops of the
    builder visit them: those of definitions only, the collections, in the two
    phases, and the definitions of each. *)
Record Visit := {
  v_defs : list (Lexicon * list (string * Def));
  v_colls : list (Lexicon * list (string * Def));
  v_records : list Lexicon
}.

Definition visits (registry : Registry) (v : Visit) : Prop :=
  (v_defs v).*1 ≡ₚ GetDefsLexicons registry /\
  (v_colls v).*1 ≡ₚ GetCollectionLexicons registry /\
  v_records v ≡ₚ GetCollectionLexicons registry /\
  Forall (fun e => e.2 ≡ₚ map_to_list (Others e.1)) (v_defs v ++ v_colls v).

(** The phases of [Build] before the root types: the builder's caches. *)
Definition build_types (v : Visit) : Builder :=
  (buildRecordTypes (v_records v) (buildObjectTypes (v_defs v ++ v_colls v) NewMapper)).1.

(** The orders in which one run of [Build] visits maps: those of [Visit], of the
    collections in both passes over where inputs, and of maps by name. *)
Record Orders := {
  o_visit : Visit;
  o_pass1 : list Lexicon; o_pass2 : list Lexicon;
  o_range : forall A, gmap string A -> list (string * A)
}.

(** All phases; [NewSchema] is the check of the library over the root types,
    the caches and the input objects, with the registry that the thunks hold. *)
Definition Build {S E} (NewSchema : Registry -> gmap string RootField -> gmap string RootField ->
    Builder -> Inputs -> result E S) (registry : Registry) (o : Orders) : result E S :=
  let '(b, recordTypes) := buildRecordTypes (v_records (o_visit o))
    (buildObjectTypes (v_defs (o_visit o) ++ v_colls (o_visit o)) NewMapper) in
  let connectionTypes := buildConnectionTypes b (o_range o _ recordTypes) in
  let inputs := buildWhereInputTypes (o_pass1 o) (o_pass2 o) in
  let queryType := buildQueryType inputs recordTypes (o_range o _ connectionTypes) in
  let subscriptionType := buildSubscriptionType (o_range o _ recordTypes) in
  NewSchema registry queryType subscriptionType b inputs.

(** What the caches hold for a list of lexicons. *)
Definition declares (lexs : list Lexicon) (k : string) (obj : Object) : Prop :=
  (exists o, defines_object lexs k o /\
     obj = {| o_Name := refToTypeName k; o_Fields := ObjectThunk k o |}) \/
  (exists m, defines_record lexs k m /\
     obj = {| o_Name := ToTypeName k; o_Fields := RecordThunk k m |}).

Lemma elem_of_lexicons r lexs lex : indexes r lexs -> lex ∈ GetAllLexicons r <-> lex ∈ lexs.
Proof.
  intros [Hl _]. unfold GetAllLexicons. rewrite list_elem_of_fmap. split.
  - intros ([id l] & -> & Hin%elem_of_map_to_list). by apply Hl in Hin as [? _].
  - intros Hin. exists (ID lex, lex). split; [done|]. apply elem_of_map_to_list. by apply Hl.
Qed.

Lemma elem_of_collections r lexs lex : indexes r lexs -> Forall regular lexs ->
  lex ∈ GetCollectionLexicons r <-> lex ∈ lexs /\ is_Some (Main lex).
Proof.
  intros Hi Hr. unfold GetCollectionLexicons. rewrite <-(elem_of_lexicons r lexs lex Hi).
  rewrite list_elem_of_In, filter_In, <-list_elem_of_In. split.
  - intros [Hin Hb]. split; [done|]. destruct (Main lex); [by eexists|done].
  - intros [Hin [m Hm]]. split; [done|]. rewrite Hm. apply String.eqb_eq.
    apply (elem_of_lexicons r lexs) in Hin; [|done]. rewrite Forall_forall in Hr.
    by apply (Hr lex Hin).
Qed.

Lemma elem_of_defs r lexs lex : indexes r lexs -> lex ∈ GetDefsLexicons r <->
  lex ∈ lexs /\ Main lex = None /\ Others lex <> ∅.
Proof.
  intros Hi. unfold GetDefsLexicons. rewrite <-(elem_of_lexicons r lexs lex Hi).
  rewrite list_elem_of_In, filter_In, <-list_elem_of_In.
  assert (Nat.ltb 0 (size (Others lex)) = true <-> Others lex <> ∅) as Hs.
  { rewrite Nat.ltb_lt. destruct (decide (Others lex = ∅)) as [-> |Hne].
    - rewrite map_size_empty. split; [lia|done].
    - apply map_size_non_empty_iff in Hne as Hz. split; [done|lia]. }
  destruct (Main lex); naive_solver.
Qed.

Section OfLexicons.
Context (lexs : list Lexicon) (registry : Registry) (v : Visit).
Hypothesis Hreg : Forall regular lexs.
Hypothesis Hind : indexes registry lexs.
Hypothesis Hv : visits registry v.

Lemma elem_of_object_types k obj : (k, obj) ∈ object_types (v_defs v ++ v_colls v) <->
  exists o, defines_object lexs k o /\ obj = {| o_Name := refToTypeName k; o_Fields := ObjectThunk k o |}.
Proof.
  destruct Hv as (Hd & Hc & _ & Ho). rewrite Forall_forall in Ho. unfold object_types.
  rewrite list_elem_of_In, in_concat. setoid_rewrite <-list_elem_of_In. split.
  - intros (l & (e & -> & He)%list_elem_of_fmap & ([n d] & Hin & Hk)%list_elem_of_omap).
    cbn in Hk. apply fmap_Some in Hk as (o & Hob & [= -> ->]). exists o. split; [|done].
    exists e.1, n, d. rewrite (Ho e He), elem_of_map_to_list in Hin. split_and!; [|done..].
    apply elem_of_app in He as [He|He]; apply (list_elem_of_fmap_2 fst) in He.
    + rewrite Hd in He. by apply (elem_of_defs registry lexs) in He as [? _].
    + rewrite Hc in He. by apply (elem_of_collections registry lexs) in He as [? _].
  - intros (o & (lex & n & d & Hin & Hn & Hob & ->) & ->).
    assert (exists e, e ∈ v_defs v ++ v_colls v /\ e.1 = lex) as (e & He & <-).
    { destruct (Main lex) as [m|] eqn:Hm.
      - assert (lex ∈ (v_colls v).*1) as Hl.
        { rewrite Hc. apply (elem_of_collections registry lexs); [done..|]. split; [done|by eexists]. }
        apply list_elem_of_fmap in Hl as (e & -> & He). exists e. set_solver.
      - assert (lex ∈ (v_defs v).*1) as Hl.
        { rewrite Hd. apply (elem_of_defs registry lexs); [done|]. split_and!; [done..|].
          intros He. rewrite He, lookup_empty in Hn. done. }
        apply list_elem_of_fmap in Hl as (e & -> & He). exists e. set_solver. }
    eexists. split; [apply list_elem_of_fmap; by exists e|]. apply list_elem_of_omap.
    exists (n, d). split; [rewrite (Ho e He); by apply elem_of_map_to_list|]. cbn. by rewrite Hob.
Qed.

Lemma elem_of_record_types k obj : (k, obj) ∈ record_types (v_records v) <->
  exists m, defines_record lexs k m /\ obj = {| o_Name := ToTypeName k; o_Fields := RecordThunk k m |}.
Proof.
  destruct Hv as (_ & _ & Hr & _). unfold record_types. rewrite list_elem_of_omap. split.
  - intros (lex & Hin & (m & Hm & [= -> ->])%fmap_Some). exists m. split; [|done].
    exists lex. rewrite Hr in Hin. by apply (elem_of_collections registry lexs) in Hin as [? _].
  - intros (m & (lex & Hin & Hm & ->) & ->). exists lex. rewrite Hm. split; [|done].
    rewrite Hr. apply (elem_of_collections registry lexs); [done..|]. split; [done|by eexists].
Qed.

Lemma MakeRef_not_id lex lex' n : regular lex -> regular lex' -> n <> "" ->
  MakeRef (ID lex) n <> ID lex'.
Proof.
  intros (H1 & _) (H2 & _) Hn Heq. assert (MakeRef (ID lex') "" = ID lex') as Hid by done.
  rewrite <-Hid in Heq. by apply MakeRef_inj in Heq as [_ ->].
Qed.

(** A key has one declaration. *)
Lemma declares_functional k obj obj' : NoDup (ID <$> lexs) ->
  declares lexs k obj -> declares lexs k obj' -> obj = obj'.
Proof.
  intros Hnd. destruct Hind as (Hl & Hob & Hrec). rewrite Forall_forall in Hreg.
  intros [(o & H1 & ->)|(m & H1 & ->)] [(o' & H2 & ->)|(m' & H2 & ->)].
  - apply Hob in H1, H2. by simplify_eq.
  - destruct H1 as (lex & n & d & Hin & Hn & _ & ->), H2 as (lex' & Hin' & _ & Heq).
    apply Hreg in Hin as Hr. destruct Hr as (_ & _ & Hr). apply Hr in Hn as [Hn _].
    exfalso. by eapply (MakeRef_not_id lex lex' n); auto.
  - destruct H2 as (lex & n & d & Hin & Hn & _ & ->), H1 as (lex' & Hin' & _ & Heq).
    apply Hreg in Hin as Hr. destruct Hr as (_ & _ & Hr). apply Hr in Hn as [Hn _].
    exfalso. by eapply (MakeRef_not_id lex lex' n); auto.
  - apply Hrec in H1, H2. by simplify_eq.
Qed.

Lemma build_types_lookup k obj : NoDup (ID <$> lexs) ->
  objectTypes (build_types v) !! k = Some obj <-> declares lexs k obj.
Proof.
  intros Hnd. unfold build_types, buildRecordTypes. rewrite buildRecordTypes_puts. cbn [fst].
  rewrite buildObjectTypes_puts, <-foldl_app, put_all_lookup.
  - rewrite elem_of_app, elem_of_object_types, elem_of_record_types. cbn. rewrite lookup_empty.
    unfold declares. naive_solver.
  - intros k' o o'. rewrite !elem_of_app, !elem_of_object_types, !elem_of_record_types.
    by apply declares_functional.
Qed.

Lemma build_types_rest : unionTypes (build_types v) = ∅ /\ depth (build_types v) = 0.
Proof.
  unfold build_types, buildRecordTypes. rewrite buildRecordTypes_puts. cbn [fst].
  rewrite buildObjectTypes_puts. destruct (puts_rest (record_types (v_records v))
    (foldl put NewMapper (object_types (v_defs v ++ v_colls v)))) as [-> ->]. apply puts_rest.
Qed.

Lemma build_types_complete : NoDup (ID <$> lexs) -> complete registry (objectTypes (build_types v)).
Proof.
  intros Hnd. destruct Hind as (Hl & Hob & Hrec). split.
  - intros key. unfold lookup_ref, GetObjectDef, GetRecordDef. split.
    + intros [obj Ho]. apply build_types_lookup in Ho; [|done].
      destruct Ho as [(o & Ho & _)|(m & Hm & _)].
      * apply Hob in Ho. rewrite Ho. by eexists.
      * apply Hrec in Hm. rewrite Hm. destruct (objectDefs registry !! key); by eexists.
    + intros Hs. destruct (objectDefs registry !! key) as [o|] eqn:Ho.
      * eexists. apply build_types_lookup; [done|]. left. exists o. split; [by apply Hob|done].
      * destruct (recordDefs registry !! key) as [m|] eqn:Hm; [|by destruct Hs].
        eexists. apply build_types_lookup; [done|]. right. exists m. split; [by apply Hrec|done].
  - intros key [m Hm]. apply Hrec in Hm as (lex & Hin & _ & ->). rewrite Forall_forall in Hreg.
    destruct (Hreg lex Hin) as (Hp & _). unfold IDFromRef.
    change (ID lex) with (MakeRef (ID lex) "") at 1. by rewrite ParseRef_MakeRef_lemma.
Qed.
End OfLexicons.
End Phases.

(** ** The schema of a list of lexicons *)

Section Schema.
Context `{UnicodeTables}.

(** A required property of a record that passes has a value. *)
Lemma required_value `{ValidatorLib} registry def data out name :
  NoDup (Name <$> rd_Properties def) ->
  sanitizeObject registry "" (S maxSanitizeDepth) (rd_Properties def) data = Ok (out, true) ->
  requiredSet def name = true -> exists v, out !! name = Some v /\ v <> JNull.
Proof.
  intros Hnd Hs Hr. cbn [sanitizeObject] in Hs. destruct (sanitize_props_spec registry "" _ _ _ _ _ Hnd Hs) as (Hb & _ & Hp).
  unfold requiredSet in Hr. apply existsb_exists in Hr as (e & He & Hr).
  apply andb_true_iff in Hr as [<-%String.eqb_eq Hr]. apply list_elem_of_In in He.
  symmetry in Hb. rewrite forallb_elem_of in Hb. specialize (Hb e He). unfold required_ok in Hb.
  rewrite Hr in Hb. cbn in Hb. specialize (Hp eq_refl e He). unfold field_promise in Hp.
  destruct (data !! Name e) as [[]|]; try done; cbn in Hp; rewrite Hr in Hp; naive_solver.
Qed.

Lemma derived_typed id fs b : derivedFieldsForObjectBuilder !! id = Some fs -> fields_typed fs b.
Proof.
  intros H1 name f H2. unfold derivedFieldsForObjectBuilder, derivedFieldRegistry in H1.
  rewrite map_fmap_singleton, map_fmap_singleton in H1.
  apply lookup_singleton_Some in H1 as [_ <-]. apply lookup_singleton_Some in H2 as [_ <-]. by split.
Qed.

(** The types of the schema are closed whatever the registry holds (missing
    refs, cycles, empty definitions), whatever the order in which the builder
    visits it and in which the library runs the thunks: every object type and
    union that a field mentions is in the caches, a non-null type is never made
    of a non-null type and the items of lists are non-null, every union has
    members and they are cached object types, and the depth that the builder
    counts is back at zero after every thunk. *)
Theorem types_closed registry v keys :
  let g := force_all registry derivedFieldsForObjectBuilder keys
             {| built := build_types v; forced := ∅ |} in
  (forall key fs name f, forced g !! key = Some fs -> fs !! name = Some f ->
     well_typed (built g) (f_Type f)) /\
  (forall name u, unionTypes (built g) !! name = Some u ->
     u_Types u <> [] /\ Forall (fun key => is_Some (objectTypes (built g) !! key)) (u_Types u)) /\
  depth (built g) = 0.
Proof.
  intros g. destruct (build_types_rest v) as [Hu Hd].
  destruct (force_all_ok registry derivedFieldsForObjectBuilder derived_typed keys
    {| built := build_types v; forced := ∅ |}) as (Hc & Hd' & Hf).
  - split; [|split; [done|]]; intros ? ?; cbn; [rewrite Hu|]; by rewrite lookup_empty.
  - split; [|split; [|done]].
    + intros key fs name f Hk Hn. by eapply Hf.
    + intros name u Hn. by destruct (Hc name u Hn) as (_ & ? & ?).
Qed.

(** C5: The schema of lexicons as the protocol has them (distinct plain IDs, a
    record or nothing as the main definition), in whatever order the builder's
    loops visit the registry and the library runs the thunks, provided that no
    two unions of one name have different members: the object types are one for
    each record and each named object definition and no other, each has exactly
    the fields of the reference, and every union has the members of its refs. *)
Theorem schema_of_lexicons lexs v keys :
  NoDup (ID <$> lexs) -> Forall regular lexs ->
  let registry := NewRegistryFromLexicons lexs in
  let derived := derivedFieldsForObjectBuilder in
  let objs := objectTypes (build_types v) in
  visits registry v -> unions_distinct registry objs = true ->
  let g := force_all registry derived keys {| built := build_types v; forced := ∅ |} in
  (forall k o, objectTypes (built g) !! k = Some o <-> declares lexs k o) /\
  (forall k o, k ∈ keys -> declares lexs k o ->
     forced g !! k = Some (fields_of registry derived objs (o_Fields o))) /\
  (forall s ks u, s ∈ unions_of objs -> site_members registry s = Some ks ->
     unionTypes (built g) !! site_name objs s = Some u -> u_Types u = ks).
Proof.
  intros Hnd Hreg registry derived objs Hv Hu g.
  pose proof (indexes_registry lexs Hnd Hreg) as Hind.
  destruct (build_types_rest v) as [Hun _].
  destruct (schema_determined registry derived objs keys {| built := build_types v; forced := ∅ |})
    as (Ho & Hf & Hs); [by eapply build_types_complete|done..|].
  split; [|split; [|done]].
  - intros k o. subst g. rewrite Ho. by eapply build_types_lookup.
  - intros k o Hk Hd. apply Hf; [done|]. by eapply build_types_lookup.
Qed.

(** What the thunks have given for a collection is what the builder makes of the
    fields of its record definition. *)
Lemma record_forced lexs v keys lex def fs :
  NoDup (ID <$> lexs) -> Forall regular lexs -> visits (NewRegistryFromLexicons lexs) v ->
  lex ∈ lexs -> Main lex = Some def ->
  forced (force_all (NewRegistryFromLexicons lexs) derivedFieldsForObjectBuilder keys
            {| built := build_types v; forced := ∅ |}) !! ID lex = Some fs ->
  exists b, unions_closed b /\
    fs = (buildRecordFields (NewRegistryFromLexicons lexs) derivedFieldsForObjectBuilder (ID lex) def b).1.
Proof.
  intros Hnd Hreg Hv Hin Hmain Hfs. pose proof (indexes_registry lexs Hnd Hreg) as Hind.
  destruct (build_types_rest v) as [Hu Hd].
  destruct (force_all_thunks (NewRegistryFromLexicons lexs) derivedFieldsForObjectBuilder derived_typed
    keys {| built := build_types v; forced := ∅ |}) as [Ht [He _]].
  { split; [|split; [done|]]; intros ? ?; cbn; [rewrite Hu|]; by rewrite lookup_empty. }
  { by intros ? ?. }
  destruct (Ht _ _ Hfs) as (o & b & Ho & Hc & ->). exists b. split; [done|].
  assert (objectTypes (build_types v) !! ID lex =
    Some {| o_Name := ToTypeName (ID lex); o_Fields := RecordThunk (ID lex) def |}) as Hobj.
  { eapply build_types_lookup; [done..|]. right. exists def. split; [by exists lex|done]. }
  apply He in Hobj. cbn in Hobj. by simplify_eq.
Qed.

(** C6: No field of a served record that the schema declares non-null is null.
    Take lexicons with distinct IDs that are [regular], in whatever order the
    builder visits them and the library runs the thunks, and the fields that the
    builder has made for the object type of a collection whose property names are
    distinct. When sanitizing the stored data of a record of the collection gives
    a record at all, every field of the type that is neither metadata nor derived
    (the resolvers fill those) and whose type is non-null has a value in it that
    is not null; so the library never drops a served record for a missing
    required property. *)
Theorem required_fields_served `{ValidatorLib} lexs v keys lex def data out fs name f t :
  let registry := NewRegistryFromLexicons lexs in
  let derived := derivedFieldsForObjectBuilder in
  let g := force_all registry derived keys {| built := build_types v; forced := ∅ |} in
  NoDup (ID <$> lexs) -> Forall regular lexs -> visits registry v ->
  lex ∈ lexs -> Main lex = Some def -> NoDup (Name <$> rd_Properties def) ->
  forced g !! ID lex = Some fs ->
  SanitizeRecord (GetRecordDef registry (ID lex)) registry data = Ok (out, true) ->
  fs !! name = Some f -> f_Type f = NewNonNull t ->
  metadata !! name = None -> default ∅ (derived !! ID lex) !! name = None ->
  exists v, out !! name = Some v /\ v <> JNull.
Proof.
  intros registry derived g Hnd Hreg Hv Hin Hmain Hprops Hfs Hs Hf Ht Hm Hd.
  assert (GetRecordDef registry (ID lex) = Some def) as Hdef.
  { unfold GetRecordDef. destruct (indexes_registry lexs Hnd Hreg) as (_ & _ & Hrec). apply Hrec. by exists lex. }
  rewrite Hdef in Hs. cbn [SanitizeRecord] in Hs.
  destruct (record_forced lexs v keys lex def fs) as (b & Hc & ->); [done..|].
  assert (requiredSet def name = true) as Hr by by eapply buildRecordFields_nonnull.
  by eapply required_value.
Qed.
End Schema.

(** ** Examples *)

Module Example_schema.
#[local] Existing Instance ascii_tables.
#[local] Instance toy_lib : ValidatorLib :=
  {| quote := fun s => s; rfc3339_ok := fun _ => true; iso8601_ok := fun _ => false;
     url_scheme := fun _ => None; GraphemeClusterCount := glen;
     FirstGraphemeCluster := fun s => (take_bytes 1 s, drop_bytes 1 s); saturates := false |}.

Definition prop (ty ref : string) (refs : list string) (items : option ArrayItems) (req : bool)
  : Property :=
  {| Type_ := ty; Required := req; Format := ""; Ref := ref; Refs := refs; Items := items;
     Description := ""; Default := None; Minimum := None; Maximum := None; MinLength := None;
     MaxLength := None; MaxGraphemes := None; Enum := []; Const := ""; KnownValues := [] |}.
Definition entry (n : string) (p : Property) : PropertyEntry := {| Name := n; property := p |}.
Definition text : PropertyEntry := entry "text" (prop "string" "" [] None true).
Definition union_entry (n : string) (refs : list string) : PropertyEntry :=
  entry n (prop "union" "" refs None false).
Definition object_def (req : list string) (props : list PropertyEntry) : Def :=
  {| d_Type := "object"; d_Record := None;
     d_Object := Some {| od_Type := "object"; od_RequiredFields := req; od_Properties := props |} |}.
Definition record_def (props : list PropertyEntry) : RecordDef :=
  {| rd_Type := "record"; rd_Key := "tid"; rd_Properties := props |}.

(** A post with an embed that is an image or a video of another lexicon. *)
Definition post : Lexicon :=
  {| ID := "app.x.post";
     Main := Some (record_def [text; union_entry "embed" ["#image"; "app.x.defs#video"]]);
     Others := {["image" := object_def ["alt"] [entry "alt" (prop "string" "" [] None true)]]} |}.
Definition defs : Lexicon :=
  {| ID := "app.x.defs"; Main := None;
     Others := {["video" := object_def [] [entry "src" (prop "cid-link" "" [] None false)]]} |}.
Definition lexs : list Lexicon := [post; defs].
Definition visit : Visit :=
  {| v_defs := [(defs, map_to_list (Others defs))]; v_colls := [(post, map_to_list (Others post))];
     v_records := [post] |}.
Definition reg : Registry := NewRegistryFromLexicons lexs.
Definition after (keys : list string) : Graph :=
  force_all reg derivedFieldsForObjectBuilder keys {| built := build_types visit; forced := ∅ |}.
Definition post_fields (g : Graph) : list (string * Output) :=
  (fun n => (n, match forced g !! "app.x.post" ≫= (.!! n) with Some f => f_Type f | None => GInt end))
    <$> ["text"; "embed"; "uri"; "pds"].

Example post_schema : post_fields (after ["app.x.post"]) =
  [("text", NewNonNull GString); ("embed", UnionRef "AppXPostEmbed");
   ("uri", NewNonNull GString); ("pds", GString)].
Proof. vm_compute. reflexivity. Qed.

Lemma regular_lexs : Forall regular lexs.
Proof.
  assert (forall lex n d, Others lex = {[n := d]} -> n <> "" -> record_of d = None ->
    forall n' d', Others lex !! n' = Some d' -> n' <> "" /\ record_of d' = None) as Ho.
  { intros lex n d -> Hn Hd n' d' [<- <-]%lookup_singleton_Some. done. }
  constructor; [|constructor; [|constructor]].
  - split; [by split|]. split; [by intros m [= <-]|]. by eapply Ho.
  - split; [by split|]. split; [done|]. by eapply Ho.
Qed.

Lemma visits_lexs : visits reg visit.
Proof.
  split; [|split; [|split]].
  - assert (GetDefsLexicons reg = [defs]) as -> by (vm_compute; reflexivity). reflexivity.
  - assert (GetCollectionLexicons reg = [post]) as -> by (vm_compute; reflexivity). reflexivity.
  - assert (GetCollectionLexicons reg = [post]) as -> by (vm_compute; reflexivity). reflexivity.
  - constructor; [reflexivity|constructor; [reflexivity|constructor]].
Qed.

Lemma schema_of_lexicons_witness :
  let objs := objectTypes (build_types visit) in
  let g := after ["app.x.post"; "app.x.post#image"; "app.x.defs#video"] in
  forced g !! "app.x.post" = Some (fields_of reg derivedFieldsForObjectBuilder objs
    (RecordThunk "app.x.post" (record_def [text; union_entry "embed" ["#image"; "app.x.defs#video"]]))).
Proof.
  destruct (schema_of_lexicons lexs visit ["app.x.post"; "app.x.post#image"; "app.x.defs#video"])
    as (_ & Hf & _).
  - by apply NoDup_compute.
  - exact regular_lexs.
  - exact visits_lexs.
  - vm_compute. reflexivity.
  - apply (Hf "app.x.post" {| o_Name := "AppXPost"; o_Fields := RecordThunk "app.x.post"
      (record_def [text; union_entry "embed" ["#image"; "app.x.defs#video"]]) |}); [by left|].
    right. eexists. split; [|vm_compute; reflexivity]. exists post. split; [by left|by split].
Defined.

(** Two object definitions of one lexicon with a union of the same name: the
    union of the one whose fields are built first serves both. *)
Definition two : Lexicon :=
  {| ID := "a.b.c"; Main := None;
     Others := list_to_map [("x", object_def [] [union_entry "subject" ["#p"]]);
                            ("y", object_def [] [union_entry "subject" ["#q"]]);
                            ("p", object_def [] [text]); ("q", object_def [] [text])] |}.
Definition two_visit : Visit :=
  {| v_defs := [(two, map_to_list (Others two))]; v_colls := []; v_records := [] |}.
Definition subject_types (keys : list string) : option (list string) :=
  u_Types <$> unionTypes (built (force_all (NewRegistryFromLexicons [two]) ∅ keys
    {| built := build_types two_visit; forced := ∅ |})) !! "ABCSubject".

Example union_by_order :
  subject_types ["a.b.c#x"; "a.b.c#y"] = Some ["a.b.c#p"] /\
  subject_types ["a.b.c#y"; "a.b.c#x"] = Some ["a.b.c#q"].
Proof. split; vm_compute; reflexivity. Qed.

(** Every array of unions of a lexicon names its union after [items]: here two
    arrays of one record. *)
Definition arrays : RecordDef :=
  let items refs := Some {| ai_Type := "union"; ai_Ref := ""; ai_Refs := refs |} in
  record_def [entry "images" (prop "array" "" [] (items ["#p"]) false);
              entry "links" (prop "array" "" [] (items ["#q"]) false)].
Example items_conflated :
  let b := (run_thunk (NewRegistryFromLexicons [two]) ∅ (RecordThunk "a.b.c" arrays)
              (build_types two_visit)).2 in
  u_Types <$> unionTypes b !! "ABCItems" = Some ["a.b.c#p"] /\
  property_type (NewRegistryFromLexicons [two]) (objectTypes b) "a.b.c" "links"
    (prop "array" "" [] (Some {| ai_Type := "union"; ai_Ref := ""; ai_Refs := ["#q"] |}) false)
  = NewList (NewNonNull (UnionRef "ABCItems")).
Proof. split; vm_compute; reflexivity. Qed.

(** A ref to an object without properties is an object type without fields,
    which the union of the same ref avoids. *)
Definition empty_lex : Lexicon :=
  {| ID := "a.b.e"; Main := None; Others := {["none" := object_def [] []]} |}.
Example empty_object_by_ref :
  let reg := NewRegistryFromLexicons [empty_lex] in
  let b := build_types {| v_defs := [(empty_lex, map_to_list (Others empty_lex))]; v_colls := [];
                          v_records := [] |} in
  (resolveRefType reg "a.b.e" "#none" b).1 = ObjectRef "a.b.e#none" /\
  (run_thunk reg ∅ (ObjectThunk "a.b.e#none" {| od_Type := "object"; od_RequiredFields := [];
     od_Properties := [] |}) b).1 = ∅ /\
  (buildUnionType reg "a.b.e" "u" ["#none"] b).1 = JSONScalar.
Proof. split; [|split]; vm_compute; reflexivity. Qed.

(** The names of types are not distinct: a definition of one lexicon and a
    record of another. *)
Example type_name_collision : refToTypeName "a.b#c" = "ABC" /\ ToTypeName "a.b.c" = "ABC".
Proof. split; vm_compute; reflexivity. Qed.

(** The lookup by URI of one collection and the list of another share a field;
    the collection visited last wins. *)
Example query_field_collision :
  let inputs := {| whereInputs := ∅; elementInputs := ∅ |} in
  let one := ("a.b.c", BuildConnectionType "ABC") in
  let other := ("a.b.cByUri", BuildConnectionType "ABCByUri") in
  r_Resolve <$> buildQueryType inputs ∅ [one; other] !! "aBCByUri" = Some (CollectionResolver "a.b.cByUri") /\
  r_Resolve <$> buildQueryType inputs ∅ [other; one] !! "aBCByUri" = Some (SingleRecordResolver "a.b.c").
Proof. split; vm_compute; reflexivity. Qed.

(** An invalid item of an array is replaced by null, of a list whose items are
    declared non-null. *)
Example nulled_item :
  let item := {| od_Type := "object"; od_RequiredFields := ["text"]; od_Properties := [text] |} in
  let reg := {| lexicons := ∅; objectDefs := {["a.b#item" := item]}; recordDefs := ∅ |} in
  let items := Some {| ai_Type := "ref"; ai_Ref := "a.b#item"; ai_Refs := [] |} in
  let list := entry "list" (prop "array" "" [] items false) in
  (exists out, SanitizeRecord (Some (record_def [list])) reg {["list" := JArr [JObj ∅]]} = Ok (out, true) /\
     out !! "list" = Some (JArr [JNull])) /\
  property_type reg ∅ "a.b" "list" (property list) = NewList (NewNonNull (ObjectRef "a.b#item")).
Proof. split; [|vm_compute; reflexivity]. eexists. split; vm_compute; reflexivity. Qed.

Definition sanitized : obj :=
  match SanitizeRecord (GetRecordDef reg "app.x.post") reg {["text" := JStr "hi"]} with
  | Ok (out, _) => out | Err _ => ∅
  end.
Lemma required_fields_served_witness : exists v, sanitized !! "text" = Some v /\ v <> JNull.
Proof.
  refine (required_fields_served lexs visit ["app.x.post"] post _ {["text" := JStr "hi"]} sanitized
    _ "text" _ GString _ regular_lexs visits_lexs _ _ _ _ _ _ _ _ _).
  - by apply NoDup_compute.
  - by left.
  - reflexivity.
  - by apply NoDup_compute.
  - vm_compute. reflexivity.
  - vm_compute. reflexivity.
  - vm_compute. reflexivity.
  - reflexivity.
  - reflexivity.
  - reflexivity.
Defined.

(** The events of a collection are never delivered: their resolver expects the
    event, and the handler passes a map. *)
Theorem collection_events_null labels collection e :
  resolve_collection_events labels collection (SrcMap (rootObject e)) = None /\
  resolve_recordEvents (SrcMap (rootObject e)) <> inl JNull.
Proof. split; [done|]. by vm_compute. Qed.
End Example_schema.
