(* ===== verification/WhereInputs.v ===== *)
(** The where inputs of the schema against the extractor: a value of the input
    type that the schema declares for a collection is one the extractor of
    [Where] understands. What the GraphQL library checks and converts before a
    resolver runs is the relation [has_type]. *)
From S2P Require Import Prelude GoStrings Utf8 Nsid AtProto Json Lexicon Registry Filter Where Types Schema.

Local Open Scope Z_scope.

(** ** Values of input types *)

(** The values a scalar type lets through. The scalar for times passes on any
    value of a variable. *)
Definition scalar_ok (t : Output) (v : json) : Prop :=
  match t with
  | GString => exists s, v = JStr s
  | GInt | GFloat => exists n, v = JNum n
  | GBoolean => exists b, v = JBool b
  | DateTimeScalar => v <> JNull
  | _ => False
  end.

(** The items of a list may be null. *)
Definition operator_value (t : InputType) (v : json) : Prop :=
  match t with
  | IScalar t => scalar_ok t v
  | IList t => exists l, v = JArr l /\ Forall (fun x => x = JNull \/ scalar_ok t x) l
  | IFilter _ => False
  end.

(** The fields of a value are fields of its type. *)
Definition operators_of (f : FilterInput) (m : obj) : Prop :=
  forall op v, m !! op = Some v -> exists t, (op, t) ∈ FilterInput_fields f /\ operator_value t v.

Definition filter_value (f : FilterInput) (m : obj) : Prop :=
  forall op v, m !! op = Some v -> exists t, (op, t) ∈ FilterInput_fields f /\
    match t with
    | IFilter g => exists m', v = JObj m' /\ operators_of g m'
    | _ => operator_value t v
    end.

Section Typing.
Context (inputs : Inputs).

Definition input_object (r : InputRef) : option InputObject :=
  match r with
  | RFilter _ => None
  | RWhere id => whereInputs inputs !! id
  | RElement id f => elementInputs inputs !! (id, f)
  end.

(** Fields that are null are dropped by the library. *)
Inductive has_type : WhereType -> json -> Prop :=
| has_filter f m : filter_value f m -> has_type (WInput (RFilter f)) (JObj m)
| has_object r input m : input_object r = Some input ->
    (forall k v, m !! k = Some v -> exists t, io_Fields input !! k = Some t /\ has_type t v) ->
    has_type (WInput r) (JObj m)
| has_list r l : (forall v, v ∈ l -> v = JNull \/ has_type (WInput r) v) ->
    has_type (WListOf r) (JArr l).
End Typing.

(** ** Refusals of values *)

(** An error about the value of a condition: its depth, the length of a text or
    of a list, a DID, a null item, no condition where one is needed. *)
Fixpoint value_error (e : where_error) : bool :=
  match e with
  | WTooDeep | WNotDid _ _ | WInEmpty _ | WInTooLong | WInNotString _ | WEqOrIn _ => true
  | WField _ e => value_error e
  | WFilter _ _ (ETooShort _) | WFilter _ _ (EListSize _ _) | WFilter _ _ ENotScalar => true
  | _ => false
  end.

(** A result that is no error but one of a kind. *)
Definition errors_in {A} (P : where_error -> Prop) (r : result where_error A) : Prop :=
  match r with Ok _ => True | Err e => P e end.

Lemma errors_in_bind {A C} P (r : result where_error A) (f : A -> result where_error C) :
  errors_in P r -> (forall a, r = Ok a -> errors_in P (f a)) -> errors_in P (r ≫= f).
Proof. destruct r; cbn; auto. Qed.

Lemma errors_in_mapM {A C} P (f : A -> result where_error C) l :
  (forall x, x ∈ l -> errors_in P (f x)) -> errors_in P (result_mapM f l).
Proof.
  induction l as [|x l IH]; intros Hf; cbn; [done|].
  apply errors_in_bind; [apply Hf; by left|]. intros c _.
  apply errors_in_bind; [apply IH; intros; apply Hf; by right|done].
Qed.

Lemma errors_in_each P step entries : forall g,
  (forall g e, e ∈ entries -> errors_in P (step g e)) -> errors_in P (each step g entries).
Proof.
  induction entries as [|e l IH]; intros g Hs; cbn; [done|].
  apply errors_in_bind; [apply Hs; by left|]. intros a _. apply IH. intros; apply Hs; by right.
Qed.

Lemma errors_in_mono {A} (P Q : where_error -> Prop) (r : result where_error A) :
  (forall e, P e -> Q e) -> errors_in P r -> errors_in Q r.
Proof. destruct r; cbn; auto. Qed.

Lemma errors_in_field {A} (P Q : where_error -> Prop) name (r : result where_error A) :
  (forall e, P e -> Q (WField name e)) -> errors_in P r -> errors_in Q (in_field name r).
Proof. destruct r; cbn; auto. Qed.

Notation only_values := (errors_in (fun e => value_error e = true)).

(** The operators that the schema offers for the parts of a strongRef, whose
    type is [StringFilterInput], and that the extractor refuses there. *)
Definition unsupported_ops : list string := ["eqi"; "neq"; "ini"; "contains"; "startsWith"; "isNull"].

(** The refusal of such an operator of a part of the strongRef [name]. *)
Inductive part_refusal (name : string) : where_error -> Prop :=
| refused_operator sub op : sub ∈ ["uri"; "cid"] -> op ∈ unsupported_ops -> op <> "isNull" ->
    part_refusal name (WSubOperator name sub op)
| refused_isNull sub : sub ∈ ["uri"; "cid"] -> part_refusal name (WSubIsNull name sub).

(** Where that happens: in a strongRef of an element definition of an array
    field of one of the lexicons. *)
Inductive ref_refusal (lexs : list Lexicon) : where_error -> Prop :=
| refused_ref lex ad d o e err : lex ∈ lexs ->
    lookupArrayWhereDescriptor (ID lex) (ad_FieldName ad) = Some ad ->
    Others lex !! ElementDef ad = Some d -> object_of d = Some o -> e ∈ od_Properties o ->
    Type_ (property e) = "ref" -> Ref (property e) = "com.atproto.repo.strongRef" ->
    part_refusal (Name e) err -> ref_refusal lexs (WField (Name e) err)
| refused_field name err : ref_refusal lexs err -> ref_refusal lexs (WField name err).

Definition refusal (lexs : list Lexicon) (e : where_error) : Prop :=
  value_error e = true \/ ref_refusal lexs e.

Lemma refusal_field lexs name e : refusal lexs e -> refusal lexs (WField name e).
Proof. intros [H|H]; [by left|right; by constructor]. Qed.

Lemma only_values_refusal {A} lexs (r : result where_error A) :
  only_values r -> errors_in (refusal lexs) r.
Proof. apply errors_in_mono. by left. Qed.

#[export] Hint Resolve refusal_field only_values_refusal : indexer.

(** ** Operators *)

Definition name_ok (name : string) : Prop := ValidateFieldName name = Ok ().

Lemma list_shape_ok (P : json -> Prop) l op : Forall (fun x => x = JNull \/ P x) l ->
  (forall x, P x -> is_scalar x = true) ->
  match validateInListShape (VJson (JArr l)) op with
  | Ok _ => True | Err (EListSize _ _) => True | Err _ => False end.
Proof.
  intros Hl HP. assert (forallb is_scalar l = true) as Hf.
  { apply forallb_elem_of. intros x Hx. rewrite Forall_forall in Hl.
    destruct (Hl x Hx) as [-> |Hs]; [done|by apply HP]. }
  unfold validateInListShape. rewrite Hf. by destruct (_ || _).
Qed.

Lemma operator_filter_values f name js ty op t v : name_ok name ->
  (op, t) ∈ FilterInput_fields f -> operator_value t v -> f = DIDFilterInput \/ js = true ->
  only_values (operator_filter name js ty op v).
Proof.
  intros Hn Hin Hv Hj.
  unfold name_ok in Hn. destruct f; cbn in Hin; rewrite ?elem_of_cons, elem_of_nil in Hin; destruct_or! Hin;
    simplify_eq; cbn in Hv; try done;
    try (destruct Hv as [x ->]); try (destruct Hv as (l & -> & Hl));
    unfold operator_filter, Validate; cbn -[ValidateFieldName validateInListShape validateText];
    rewrite Hn; cbn -[validateInListShape validateText]; try done;
    try (destruct Hj as [Hj| ->]; [done|]); try (by destruct js);
    try (unfold validateText, guard_err; by destruct (negb _));
    try (match goal with |- context [validateInListShape _ ?o] =>
      pose proof (list_shape_ok _ l o Hl ltac:(by intros ? [? ->])) end;
      destruct (validateInListShape _ _) as [|[]]; done).
  all: try done; by destruct v.
Qed.

Lemma scalar_filters_values f name js ty ops : name_ok name ->
  (forall op v, (op, v) ∈ ops -> exists t, (op, t) ∈ FilterInput_fields f /\ operator_value t v) ->
  f = DIDFilterInput \/ js = true -> only_values (scalar_filters name js ty ops).
Proof.
  intros Hn Hops Hj. apply errors_in_bind; [|done]. apply errors_in_mapM. intros [op v] Hin.
  destruct (Hops op v Hin) as (t & Ht & Hv). by eapply operator_filter_values.
Qed.

Section Values.
Context `{MapRange} `{UnicodeTables}.

Lemma elem_of_range m k v : (k, v) ∈ range m <-> m !! k = Some v.
Proof. by rewrite range_perm, elem_of_map_to_list. Qed.

(** Values of the filter inputs that compare. *)
Lemma filter_values f m name js ty : f <> StrongRefFilterInput -> filter_value f m -> name_ok name ->
  f = DIDFilterInput \/ js = true -> only_values (scalar_filters name js ty (range m)).
Proof.
  intros Hf Hm Hn Hj. eapply (scalar_filters_values f); [done| |done].
  intros op v Hin%elem_of_range. destruct (Hm op v Hin) as (t & Ht & Hv). exists t. split; [done|].
  destruct t; [done..|]. by destruct f; cbn in Ht; rewrite ?elem_of_cons, elem_of_nil in Ht; destruct_or! Ht.
Qed.

Lemma ref_filter_values name sub op t v : name_ok (name +:+ "__" +:+ sub) -> sub ∈ ["uri"; "cid"] ->
  (op, t) ∈ FilterInput_fields StringFilterInput -> operator_value t v ->
  errors_in (fun e => value_error e = true \/ part_refusal name e) (ref_filter name sub op v).
Proof.
  intros Hn Hsub Hin Hv. unfold name_ok in Hn. cbn in Hin.
  rewrite ?elem_of_cons, elem_of_nil in Hin; destruct_or! Hin; simplify_eq; cbn in Hv; try done;
    try (destruct Hv as [x ->]); try (destruct Hv as (l & -> & Hl)); try done;
    unfold ref_filter, Validate; cbn -[ValidateFieldName validateInListShape String.append];
    try by (right; constructor; [done|unfold unsupported_ops; set_solver|done]).
  all: try by (right; constructor).
  all: rewrite Hn; cbn -[validateInListShape]; try done.
  pose proof (list_shape_ok _ l "in" Hl ltac:(by intros ? [? ->])).
  destruct (validateInListShape _ _) as [|[]]; try done; by left.
Qed.

Lemma strongref_values name m : filter_value StrongRefFilterInput m ->
  name_ok (name +:+ "__uri") -> name_ok (name +:+ "__cid") ->
  errors_in (fun e => value_error e = true \/ part_refusal name e) (extractStrongRefFilter name m).
Proof.
  intros Hm Hu Hc. apply errors_in_bind; [|done]. apply errors_in_mapM.
  intros [sub v] Hin%elem_of_range. destruct (Hm sub v Hin) as (t & Ht & Hv). cbn in Ht |- *.
  rewrite !elem_of_cons, elem_of_nil in Ht. unfold ref_subfield.
  destruct Ht as [[= -> ->]|[[= -> ->]|[]]]; destruct Hv as (m' & -> & Hm'); cbn [String.eqb Ascii.eqb Bool.eqb negb andb].
  - apply errors_in_mapM. intros [op x] Hop%elem_of_range.
    destruct (Hm' op x Hop) as (t & Ht & Hx). eapply ref_filter_values; [done|set_solver|done..].
  - apply errors_in_mapM. intros [op x] Hop%elem_of_range.
    destruct (Hm' op x Hop) as (t & Ht & Hx). eapply ref_filter_values; [done|set_solver|done..].
Qed.

(** DID filters of the registry: [eq] is a string, [in] a list. *)
Lemma did_list_values name l : forall i,
  Forall (fun x => x = JNull \/ exists s, x = JStr s) l -> only_values (did_list name i l).
Proof.
  induction l as [|x l IH]; intros i Hl; cbn; [done|]. apply Forall_cons in Hl as [Hx Hl].
  destruct Hx as [-> |[s ->]]; [done|]. cbn. destruct (Did.IsValid s); [|done].
  by apply errors_in_bind; [apply IH|].
Qed.

Lemma did_filter_values d m : filter_value DIDFilterInput m -> only_values (buildDIDOnlyEqInFilter d m).
Proof.
  intros Hm. unfold buildDIDOnlyEqInFilter. destruct (m !! "eq") as [v|] eqn:He.
  { destruct (Hm _ _ He) as (t & Ht & Hv). cbn in Ht. rewrite !elem_of_cons, elem_of_nil in Ht.
    destruct Ht as [[= ->]|[|[]]]; [|done]. destruct Hv as [s ->]. cbn. by destruct (Did.IsValid s). }
  destruct (m !! "in") as [v|] eqn:Hi; [|done].
  destruct (Hm _ _ Hi) as (t & Ht & Hv). cbn in Ht. rewrite !elem_of_cons, elem_of_nil in Ht.
  destruct Ht as [|[[= ->]|[]]]; [done|]. destruct Hv as (l & -> & Hl). cbn [as_arr].
  destruct (_ =? _); [done|]. destruct (_ <? _); [done|].
  apply errors_in_bind; [by apply did_list_values|done].
Qed.

(** ** The input objects of a schema *)

Lemma add_filter_fields to_input props : forall fields k t,
  foldl (add_filter_field to_input) fields props !! k = Some t ->
  fields !! k = Some t \/
  exists e f, e ∈ props /\ Name e = k /\ to_input (property e) = Some f /\ t = WInput (RFilter f).
Proof.
  induction props as [|e props IH]; intros fields k t; cbn; [by left|].
  intros [Hk|(e' & f & Hin & Hr)]%IH; [|right; exists e', f; set_solver].
  unfold add_filter_field in Hk. destruct (to_input (property e)) as [f|] eqn:Hf; [|by left].
  apply lookup_insert_Some in Hk as [[<- <-]|[_ Hk]]; [|by left].
  right. exists e, f. set_solver.
Qed.

(** What a field of an element's input is. *)
Lemma element_origin lex ad input k t : buildArrayElementInputType lex ad = Some input ->
  io_Fields input !! k = Some t ->
  exists d o, Others lex !! ElementDef ad = Some d /\ object_of d = Some o /\
  ((is_Some (composition k) /\ t = WListOf (RElement (ID lex) (ad_FieldName ad))) \/
   composition k = None /\ exists e f, e ∈ od_Properties o /\ Name e = k /\
     elementFilterInput (property e) = Some f /\ t = WInput (RFilter f)).
Proof.
  unfold buildArrayElementInputType. destruct (Others lex !! ElementDef ad) as [d|]; [|done].
  destruct (object_of d) as [o|] eqn:Ho; [|done]. case_match; [done|]. intros [= <-] Hk.
  exists d, o. split; [done|]. split; [done|]. cbn in Hk.
  apply lookup_insert_Some in Hk as [[<- <-]|[N1 Hk]]; [left; split; [by eexists|done]|].
  apply lookup_insert_Some in Hk as [[<- <-]|[N2 Hk]]; [left; split; [by eexists|done]|].
  right. split.
  - unfold composition. destruct (String.eqb_spec k "_and"); [congruence|].
    destruct (String.eqb_spec k "_or"); [congruence|done].
  - apply add_filter_fields in Hk as [Hk|Hk]; [by rewrite lookup_empty in Hk|done].
Qed.

(** What a field of a collection's input is. *)
Inductive origin (lex : Lexicon) (k : string) : WhereType -> Prop :=
| o_list : is_Some (composition k) -> origin lex k (WListOf (RWhere (ID lex)))
| o_did : k = "did" -> origin lex k (WInput (RFilter DIDFilterInput))
| o_descriptor d : composition k = None -> lookupFilterDescriptor (ID lex) k = Some d ->
    origin lex k (WInput (RFilter DIDFilterInput))
| o_property e f : composition k = None -> k <> "did" -> lookupFilterDescriptor (ID lex) k = None ->
    e ∈ main_properties lex -> Name e = k -> propertyToFilterInput (property e) = Some f ->
    origin lex k (WInput (RFilter f))
| o_joined jd : lookupJoinedWhereDescriptor (ID lex) k = Some jd ->
    origin lex k (WInput (RWhere (TargetLexicon jd)))
| o_array ad : lookupArrayWhereDescriptor (ID lex) k = Some ad ->
    origin lex k (WInput (RElement (ID lex) k)).

Lemma filterRegistry_names id m k d : filterRegistry !! id = Some m -> m !! k = Some d ->
  fd_FieldName d = k /\ k <> "did" /\ composition k = None.
Proof.
  unfold filterRegistry. rewrite !lookup_insert_Some, lookup_singleton_Some.
  intros [[_ <-]|[_ [[_ <-]|[_ [_ <-]]]]]; intros [<- <-]%lookup_singleton_Some; done.
Qed.

Lemma descriptor_fields l : forall (fields : gmap string WhereType) k t,
  foldl (fun m (e : string * filterDescriptor) =>
           <[fd_FieldName e.2 := WInput (RFilter DIDFilterInput)]> m) fields l !! k = Some t ->
  (exists e, e ∈ l /\ fd_FieldName e.2 = k /\ t = WInput (RFilter DIDFilterInput)) \/
  fields !! k = Some t /\ forall e, e ∈ l -> fd_FieldName e.2 <> k.
Proof.
  induction l as [|e l IH]; intros fields k t; cbn.
  { intros Hk. right. split; [done|]. by intros e ?%not_elem_of_nil. }
  intros [(e' & Hin & Hr)|[Hk Hne]]%IH; [left; exists e'; set_solver|].
  apply lookup_insert_Some in Hk as [[<- <-]|[Hk' Hk]]; [left; exists e; set_solver|].
  right. split; [done|]. intros e' [-> |Hin]%elem_of_cons; [done|by apply Hne].
Qed.

Lemma base_origin lex input k t : buildWhereInputType lex = Some input ->
  io_Fields input !! k = Some t -> origin lex k t.
Proof.
  unfold buildWhereInputType. destruct (Main lex) as [m|] eqn:Hm; [|done]. case_match; [done|].
  intros [= <-] Hk. cbn in Hk.
  apply lookup_insert_Some in Hk as [[<- <-]|[N1 Hk]]; [by apply o_list; eexists|].
  apply lookup_insert_Some in Hk as [[<- <-]|[N2 Hk]]; [by apply o_list; eexists|].
  assert (composition k = None) as Hc.
  { unfold composition. destruct (String.eqb_spec k "_and"); [congruence|].
    destruct (String.eqb_spec k "_or"); [congruence|done]. }
  apply descriptor_fields in Hk as [([k' d] & Hin%elem_of_map_to_list & Hd & ->)|[Hk Hne]].
  - cbn [fst snd] in *. destruct (filterRegistry !! ID lex) as [ds|] eqn:Hds; cbn [default from_option id] in Hin;
      [|by rewrite lookup_empty in Hin]. destruct (filterRegistry_names _ _ _ _ Hds Hin) as (Hkk & _). subst k' k.
    eapply o_descriptor; [done|]. unfold lookupFilterDescriptor. rewrite Hds. exact Hin.
  - apply lookup_insert_Some in Hk as [[<- <-]|[N3 Hk]]; [by apply o_did|].
    apply add_filter_fields in Hk as [Hk|(e & f & He & Hn & Hf & ->)]; [by rewrite lookup_empty in Hk|].
    eapply (o_property _ _ e); try done.
    + destruct (lookupFilterDescriptor (ID lex) k) as [d|] eqn:Hd; [|done]. exfalso.
      unfold lookupFilterDescriptor in Hd. apply bind_Some in Hd as (ds & Hds & Hd).
      eapply (Hne (k, d)); [|by eapply filterRegistry_names].
      apply elem_of_map_to_list. rewrite Hds. exact Hd.
    + unfold main_properties. by rewrite Hm.
Qed.

(** *** Both passes *)

Section Passes.
Context (lexs : list Lexicon).
Hypothesis Hnd : NoDup (ID <$> lexs).

Lemma same_lexicon lex lex' : lex ∈ lexs -> lex' ∈ lexs -> ID lex = ID lex' -> lex = lex'.
Proof. intros H1 H2 Heq. by eapply (unique_key ID). Qed.

Definition inputs_ok (s : Inputs) : Prop :=
  (forall id input, whereInputs s !! id = Some input -> exists lex, lex ∈ lexs /\ ID lex = id /\
     forall k t, io_Fields input !! k = Some t -> origin lex k t) /\
  (forall id f input, elementInputs s !! (id, f) = Some input -> exists lex ad,
     lex ∈ lexs /\ ID lex = id /\ lookupArrayWhereDescriptor id f = Some ad /\
     buildArrayElementInputType lex ad = Some input).

Lemma base_input_ok s lex : lex ∈ lexs -> inputs_ok s -> inputs_ok (base_input s lex).
Proof.
  intros Hin [Hw He]. unfold base_input. destruct (buildWhereInputType lex) as [input|] eqn:Hb; [|done].
  split; [|done]. intros id i. cbn. rewrite lookup_insert_Some. intros [[<- <-]|[_ Hi]]; [|by apply Hw].
  exists lex. split_and!; [done..|]. intros k t. by apply base_origin.
Qed.

Lemma update_where_ok s lex k0 t0 : lex ∈ lexs -> origin lex k0 t0 -> inputs_ok s ->
  inputs_ok (update_where (ID lex) (AddFieldConfig k0 t0) s).
Proof.
  intros Hin Ho [Hw He]. split; [|done]. intros id i. cbn. rewrite lookup_alter_Some.
  intros [(<- & i' & Hi & ->)|[_ Hi]]; [|by apply Hw].
  destruct (Hw _ _ Hi) as (lex' & Hin' & Hid & Hor). apply same_lexicon in Hid as ->; [|done..].
  exists lex. split_and!; [done..|]. intros k t. cbn. rewrite lookup_insert_Some.
  intros [[<- <-]|[_ Hk]]; [done|by apply Hor].
Qed.

Lemma nested_inputs_ok s lex : lex ∈ lexs -> inputs_ok s -> inputs_ok (nested_inputs s lex).
Proof.
  intros Hin Hs. unfold nested_inputs. destruct (whereInputs s !! ID lex) as [own|]; [|done].
  assert (forall (l : list (string * arrayWhereDescriptor)) s, inputs_ok s ->
    (forall e, e ∈ l -> lookupArrayWhereDescriptor (ID lex) (ad_FieldName e.2) = Some e.2) ->
    inputs_ok (foldl (array_input lex) s l)) as Ha.
  { induction l as [|e l IH]; intros s' Hs' Hl; [done|]. cbn. apply IH; [|intros; apply Hl; by right].
    unfold array_input. destruct (buildArrayElementInputType lex e.2) as [el|] eqn:Hb; [|done].
    assert (e ∈ e :: l) as Hel by by left. apply Hl in Hel.
    apply update_where_ok; [done|by eapply o_array|]. destruct Hs' as [Hw He]. split; [done|].
    intros id f i'. cbn. rewrite lookup_insert_Some. intros [[[= <- <-] <-]|[_ Hi]]; [|by apply He].
    by exists lex, e.2. }
  assert (forall (l : list (string * joinedWhereDescriptor)) s, inputs_ok s ->
    (forall e, e ∈ l -> lookupJoinedWhereDescriptor (ID lex) (jd_FieldName e.2) = Some e.2) ->
    inputs_ok (foldl (joined_input lex) s l)) as Hj.
  { induction l as [|e l IH]; intros s' Hs' Hl; [done|]. cbn. apply IH; [|intros; apply Hl; by right].
    unfold joined_input. destruct (whereInputs s' !! TargetLexicon e.2); [|done].
    apply update_where_ok; [done| |done]. apply o_joined, Hl. by left. }
  apply Ha; [apply Hj; [done|]|]; intros [k d] Hd%elem_of_map_to_list; cbn [fst snd] in *.
  - unfold lookupJoinedWhereDescriptor. destruct (joinedWhereRegistry !! ID lex) as [ds|] eqn:E;
      cbn [default from_option id] in Hd; [|by rewrite lookup_empty in Hd]. unfold joinedWhereRegistry in E.
    apply lookup_singleton_Some in E as [_ <-]. by apply lookup_singleton_Some in Hd as [_ <-].
  - unfold lookupArrayWhereDescriptor. destruct (arrayWhereRegistry !! ID lex) as [ds|] eqn:E;
      cbn [default from_option id] in Hd; [|by rewrite lookup_empty in Hd]. unfold arrayWhereRegistry in E.
    apply lookup_singleton_Some in E as [_ <-]. by apply lookup_singleton_Some in Hd as [_ <-].
Qed.

Lemma buildWhereInputTypes_ok p1 p2 : p1 ⊆ lexs -> p2 ⊆ lexs -> inputs_ok (buildWhereInputTypes p1 p2).
Proof.
  intros H1 H2. unfold buildWhereInputTypes.
  assert (forall p s, p ⊆ lexs -> inputs_ok s -> inputs_ok (foldl base_input s p)) as Hb.
  { induction p as [|lex p IH]; intros s Hp Hs; [done|]. cbn.
    apply IH; [set_solver|apply base_input_ok; [set_solver|done]]. }
  assert (forall p s, p ⊆ lexs -> inputs_ok s -> inputs_ok (foldl nested_inputs s p)) as Hn.
  { induction p as [|lex p IH]; intros s Hp Hs; [done|]. cbn.
    apply IH; [set_solver|apply nested_inputs_ok; [set_solver|done]]. }
  apply Hn, Hb; [done..|]. split; [intros ? ?|intros ? ? ?]; cbn; by rewrite lookup_empty.
Qed.
End Passes.

(** *** Extraction *)

(** A lexicon whose property names are field names, each once, in the main
    definition and in the element definitions of the array registry (with the
    parts of their strongRefs), and whose joined and array fields are no
    filterable properties. *)
Record usual (lex : Lexicon) : Prop := {
  usual_names : Forall (fun e => name_ok (Name e)) (main_properties lex);
  usual_nested : forall e, e ∈ main_properties lex -> propertyToFilterInput (property e) <> None ->
    lookupJoinedWhereDescriptor (ID lex) (Name e) = None /\
    lookupArrayWhereDescriptor (ID lex) (Name e) = None;
  usual_elements : forall d o, d ∈ (map_to_list (Others lex)).*2 -> object_of d = Some o ->
    NoDup (Name <$> od_Properties o) /\
    Forall (fun e => name_ok (Name e) /\ name_ok (Name e +:+ "__uri") /\ name_ok (Name e +:+ "__cid"))
      (od_Properties o)
}.

Lemma GetProperty_unique props e : NoDup (Name <$> props) -> e ∈ props ->
  GetProperty props (Name e) = Some (property e).
Proof.
  intros Hnd Hin. unfold GetProperty. rewrite buildPropIndex_lookup.
  by rewrite (filter_one Name).
Qed.

Lemma propertyToFilterInput_not_ref prop : propertyToFilterInput prop <> Some StrongRefFilterInput.
Proof.
  assert (forall t, FilterInputForLexiconType t <> Some StrongRefFilterInput) as Hf.
  { intros t. unfold FilterInputForLexiconType. by repeat case_match. }
  unfold propertyToFilterInput. specialize (Hf (Format prop)) as Hf1. specialize (Hf (Type_ prop)).
  repeat case_match; congruence.
Qed.

Context (lexs : list Lexicon) (registry : Registry) (inputs : Inputs).
Hypothesis Hnd : NoDup (ID <$> lexs).
Hypothesis Hlex : forall id lex, lexicons registry !! id = Some lex <-> lex ∈ lexs /\ ID lex = id.
Hypothesis Husual : Forall usual lexs.
Hypothesis Hinputs : inputs_ok lexs inputs.

Notation understood := (errors_in (refusal lexs)).

(** Composition of values that are each extracted. *)
Lemma compose_values extract r childOp group l :
  (forall v, v = JNull \/ has_type inputs (WInput r) v -> understood (extract v)) ->
  (forall v, v ∈ l -> v = JNull \/ has_type inputs (WInput r) v) ->
  understood (compose extract childOp group (JArr l)).
Proof.
  intros Hx Hl. cbn. apply errors_in_bind; [|done]. apply errors_in_mapM.
  intros v Hv. by apply Hx, Hl.
Qed.

Lemma element_field_values lex ad d group e f m : lex ∈ lexs ->
  lookupArrayWhereDescriptor (ID lex) (ad_FieldName ad) = Some ad ->
  forall o, Others lex !! ElementDef ad = Some d -> object_of d = Some o ->
  let props := od_Properties o in NoDup (Name <$> props) -> e ∈ props ->
  name_ok (Name e) -> name_ok (Name e +:+ "__uri") -> name_ok (Name e +:+ "__cid") ->
  elementFilterInput (property e) = Some f -> filter_value f m ->
  understood (element_field props group (Name e) (JObj m)).
Proof.
  intros Hin Had o Hd Ho props Hp He Hn Hu Hc Hf Hm. unfold element_field. rewrite (GetProperty_unique props e Hp He).
  unfold elementFilterInput in Hf. destruct (_ && _) eqn:Href; simplify_eq.
  - apply andb_true_iff in Href as [Ht%String.eqb_eq Hr%String.eqb_eq].
    apply errors_in_bind; [|done]. eapply errors_in_field; [|by apply strongref_values].
    intros err [Hv|Hp']; [by left|right; by eapply refused_ref].
  - apply errors_in_bind; [|done]. apply only_values_refusal. eapply (filter_values f); [|done..|by right].
    intros ->. by eapply propertyToFilterInput_not_ref.
Qed.

Lemma element_values left : forall v lex ad elem input, lex ∈ lexs ->
  lookupArrayWhereDescriptor (ID lex) (ad_FieldName ad) = Some ad ->
  elementInputs inputs !! (ID lex, ad_FieldName ad) = Some input ->
  makeElementPseudoLexicon lex ad = Ok elem ->
  v = JNull \/ has_type inputs (WInput (RElement (ID lex) (ad_FieldName ad))) v ->
  understood (extractElementFilters left v elem).
Proof.
  induction left as [|left IH]; intros v lex ad elem input Hin Had Hi He [-> |Hv]; try done;
    inversion Hv as [|r i m Hr Hf|]; subst; [by left|]. cbn.
  apply errors_in_each. intros g [k x] Hx%elem_of_range. cbn [fst snd].
  cbn in Hr. rewrite Hi in Hr. injection Hr as <-.
  destruct (proj2 Hinputs _ _ _ Hi) as (lex' & ad' & Hin' & Hid & Had' & Hb).
  apply (same_lexicon lexs Hnd) in Hid as ->; [|done..]. simplify_eq.
  destruct (Hf k x Hx) as (t & Ht & Hxt).
  destruct (element_origin _ _ _ _ _ Hb Ht) as (d & o & Hd & Ho & [[[c Hc] ->]|(Hc & e & f & Hep & <- & Hef & ->)]).
  - rewrite Hc. inversion Hxt as [| |r l Hl]; subst. eapply compose_values; [|exact Hl].
    intros y Hy. by eapply (IH y lex ad).
  - rewrite Hc. assert (main_properties elem = od_Properties o) as ->.
    { unfold makeElementPseudoLexicon in He. rewrite Hd in He. unfold object_of in Ho.
      destruct (IsObject d); [|done]. rewrite Ho in He. by simplify_eq. }
    rewrite Forall_forall in Husual. destruct (usual_elements _ (Husual lex Hin) d o) as [Hp Hnames]; [|done|].
    { apply list_elem_of_fmap. exists (ElementDef ad, d). split; [done|]. by apply elem_of_map_to_list. }
    rewrite Forall_forall in Hnames. destruct (Hnames e Hep) as (H1 & H2 & H3).
    inversion Hxt as [f' m' Hfv| |]; subst; [|done]. by eapply element_field_values.
Qed.

(** Element groups have no arrays, and a lexicon without joined fields gives
    groups without joins. *)
Lemma element_no_arrays left : forall v elem g, extractElementFilters left v elem = Ok g -> Arrays g = [].
Proof.
  induction left as [|left IH]; intros v elem g; destruct v; cbn; try done; try by intros [= <-].
  apply (each_inv (fun g => Arrays g = [])); [|done]. intros a [k x] a' _ Ha. cbn [fst snd].
  destruct (composition k).
  - unfold compose. destruct x; try by intros [= <-]. by intros (subs & _ & [= <-])%bind_Ok.
  - unfold element_field. destruct x; try by intros [= <-]. destruct (GetProperty _ _); [|by intros [= <-]].
    destruct (_ && _); by intros (fs & _ & [= <-])%bind_Ok.
Qed.

Lemma extract_no_joins left lex : (forall name, lookupJoinedWhereDescriptor (ID lex) name = None) ->
  forall v g, extractFieldFiltersRecursive (Some registry) left v (Some lex) = Ok g -> Joined g = [].
Proof.
  intros Hno. destruct left as [|left]; intros v g; destruct v; cbn; try done; try by intros [= <-].
  apply (each_inv (fun g => Joined g = [])); [|done]. intros a [k x] a' _ Ha. cbn [fst snd].
  destruct (composition k).
  - unfold compose. destruct x; try by intros [= <-]. by intros (subs & _ & [= <-])%bind_Ok.
  - unfold outer_field. destruct x; try by intros [= <-]. rewrite Hno.
    destruct (lookupArrayWhereDescriptor _ _).
    { unfold array_field. intros (el & _ & (inner & _ & Hx)%bind_Ok)%bind_Ok.
      destruct (Arrays inner); by simplify_eq. }
    destruct (lookupFilterDescriptor _ _); by intros (fs & _ & [= <-])%bind_Ok.
Qed.

Lemma joined_target id name jd : lookupJoinedWhereDescriptor id name = Some jd ->
  lookupArrayWhereDescriptor id name = None /\
  forall n, lookupJoinedWhereDescriptor (TargetLexicon jd) n = None.
Proof.
  unfold lookupJoinedWhereDescriptor, joinedWhereRegistry. intros (m & Hm & Hd)%bind_Some.
  apply lookup_singleton_Some in Hm as [<- <-]. by apply lookup_singleton_Some in Hd as [<- <-].
Qed.

Lemma array_names id name ad : lookupArrayWhereDescriptor id name = Some ad ->
  ad_FieldName ad = name /\ lookupJoinedWhereDescriptor id name = None.
Proof.
  unfold lookupArrayWhereDescriptor, arrayWhereRegistry. intros (m & Hm & Hd)%bind_Some.
  apply lookup_singleton_Some in Hm as [<- <-]. by apply lookup_singleton_Some in Hd as [<- <-].
Qed.

(** No registry has a field [did]. *)
Lemma did_is_plain id : lookupJoinedWhereDescriptor id "did" = None /\
  lookupArrayWhereDescriptor id "did" = None /\ lookupFilterDescriptor id "did" = None.
Proof.
  split_and!.
  - unfold lookupJoinedWhereDescriptor, joinedWhereRegistry.
    destruct (decide (id = "app.certified.badge.award")) as [-> |]; [done|by rewrite lookup_singleton_ne].
  - unfold lookupArrayWhereDescriptor, arrayWhereRegistry.
    destruct (decide (id = "org.hypercerts.collection")) as [-> |]; [done|by rewrite lookup_singleton_ne].
  - destruct (lookupFilterDescriptor id "did") as [d|] eqn:Hd; [|done]. exfalso.
    unfold lookupFilterDescriptor in Hd. apply bind_Some in Hd as (ds & Hds & Hd).
    by destruct (filterRegistry_names _ _ _ _ Hds Hd) as (_ & ? & _).
Qed.

(** The registries share no field. *)
Lemma descriptor_alone id k d : lookupFilterDescriptor id k = Some d ->
  lookupJoinedWhereDescriptor id k = None /\ lookupArrayWhereDescriptor id k = None.
Proof.
  unfold lookupFilterDescriptor, filterRegistry. intros (m & Hm & Hd)%bind_Some. revert Hm.
  rewrite !lookup_insert_Some, lookup_singleton_Some.
  intros [[<- <-]|[_ [[<- <-]|[_ [<- <-]]]]]; by apply lookup_singleton_Some in Hd as [<- _].
Qed.

Lemma joined_composition id k jd : lookupJoinedWhereDescriptor id k = Some jd -> composition k = None.
Proof.
  unfold lookupJoinedWhereDescriptor, joinedWhereRegistry. intros (m & Hm & Hd)%bind_Some.
  apply lookup_singleton_Some in Hm as [_ <-]. by apply lookup_singleton_Some in Hd as [<- _].
Qed.

Lemma array_composition id k ad : lookupArrayWhereDescriptor id k = Some ad -> composition k = None.
Proof.
  unfold lookupArrayWhereDescriptor, arrayWhereRegistry. intros (m & Hm & Hd)%bind_Some.
  apply lookup_singleton_Some in Hm as [_ <-]. by apply lookup_singleton_Some in Hd as [<- _].
Qed.

Lemma scalar_field_values lex group k f m : f <> StrongRefFilterInput -> filter_value f m ->
  name_ok k -> f = DIDFilterInput \/ k <> "did" ->
  understood (scalar_field (Some lex) group k m).
Proof.
  intros Hf Hm Hk Hd. apply errors_in_bind; [|done]. apply only_values_refusal.
  eapply (filter_values f); [done..|]. destruct Hd as [?|Hd]; [by left|right].
  by apply negb_true_iff, String.eqb_neq.
Qed.

Lemma array_field_values left lex ad group k v : lex ∈ lexs ->
  lookupArrayWhereDescriptor (ID lex) k = Some ad ->
  has_type inputs (WInput (RElement (ID lex) k)) v ->
  understood (array_field left lex ad group k v).
Proof.
  intros Hin Had Hv. destruct (array_names _ _ _ Had) as [Hk _]. rewrite <-Hk in Had, Hv |- *.
  assert (exists input, elementInputs inputs !! (ID lex, ad_FieldName ad) = Some input) as [input Hi]
    by (inversion Hv; subst; by eexists).
  destruct (proj2 Hinputs _ _ _ Hi) as (lex' & ad' & Hin' & Hid & Had' & Hb).
  apply (same_lexicon lexs Hnd) in Hid as ->; [|done..]. simplify_eq.
  assert (exists elem, makeElementPseudoLexicon lex ad = Ok elem) as [elem He].
  { unfold buildArrayElementInputType, object_of in Hb. unfold makeElementPseudoLexicon.
    destruct (Others lex !! ElementDef ad) as [d|]; [|done]. destruct (IsObject d); [|done].
    destruct (d_Object d); [by eexists|done]. }
  unfold array_field. rewrite He. cbn. apply errors_in_bind.
  - eapply errors_in_field; [apply refusal_field|]. eapply element_values; [done..|by right].
  - intros inner Hinner. apply in_field_Ok in Hinner. by rewrite (element_no_arrays _ _ _ _ Hinner).
Qed.

Lemma outer_values left : forall v lex, lex ∈ lexs ->
  v = JNull \/ has_type inputs (WInput (RWhere (ID lex))) v ->
  understood (extractFieldFiltersRecursive (Some registry) left v (Some lex)).
Proof.
  induction left as [|left IH]; intros v lex Hin [-> |Hv]; try done;
    inversion Hv as [|r input m Hr Hf|]; subst; [by left|]. cbn [extractFieldFiltersRecursive].
  apply errors_in_each. intros g [k x] Hx%elem_of_range. cbn [fst snd]. cbn in Hr.
  destruct (proj1 Hinputs _ _ Hr) as (lex' & Hin' & Hid & Hor).
  apply (same_lexicon lexs Hnd) in Hid as ->; [|done..].
  destruct (Hf k x Hx) as (t & Ht & Hxt). specialize (Hor k t Ht).
  destruct (did_is_plain (ID lex)) as (Hdj & Hda & Hdf).
  inversion Hor as [[c Hc]| |d Hc Hd|e f Hc Hk Hnf He Hn Hpf|jd Hjd|ad Had]; subst.
  - rewrite Hc. inversion Hxt as [| |r l Hl]; subst. eapply compose_values; [|exact Hl].
    intros y Hy. by apply IH.
  - inversion Hxt as [f' m' Hfv| |]; subst; [|done]. cbn [composition String.eqb Ascii.eqb Bool.eqb outer_field].
    rewrite Hdj, Hda, Hdf. by eapply (scalar_field_values lex g "did" DIDFilterInput); [| |vm_compute|left].
  - rewrite Hc. inversion Hxt as [f' m' Hfv| |]; subst; [|done]. unfold outer_field.
    assert (lookupJoinedWhereDescriptor (ID lex) k = None /\ lookupArrayWhereDescriptor (ID lex) k = None)
      as [-> ->] by (by eapply descriptor_alone).
    rewrite Hd. apply errors_in_bind; [|done]. by eapply errors_in_field; [|by apply did_filter_values]; left.
  - rewrite Hc. inversion Hxt as [f' m' Hfv| |]; subst; [|done]. unfold outer_field.
    rewrite Forall_forall in Husual. pose proof (Husual lex Hin) as Hu.
    destruct (usual_nested _ Hu e He) as [-> ->]; [congruence|]. rewrite Hnf.
    pose proof (usual_names _ Hu) as Hnames. rewrite Forall_forall in Hnames.
    eapply (scalar_field_values lex g (Name e) f); [|done|by apply Hnames|by right].
    intros ->. by eapply propertyToFilterInput_not_ref.
  - destruct (joined_target _ _ _ Hjd) as [_ Hno].
    assert (composition k = None) as -> by (by eapply joined_composition).
    inversion Hxt as [|r i m' Hr' Hf'|]; subst. unfold outer_field. rewrite Hjd.
    cbn in Hr'. destruct (proj1 Hinputs _ _ Hr') as (target & Htin & Htid & _).
    unfold joined_field, GetLexicon. rewrite (proj2 (Hlex _ _) (conj Htin Htid)).
    apply errors_in_bind.
    + eapply errors_in_field; [apply refusal_field|]. apply IH; [done|]. rewrite Htid. by right.
    + intros inner Hinner%in_field_Ok. rewrite <-Htid in Hno.
      by rewrite (extract_no_joins _ _ Hno _ _ Hinner).
  - destruct (array_names _ _ _ Had) as [_ Hno].
    assert (composition k = None) as -> by (by eapply array_composition).
    inversion Hxt as [|r i m' Hr' Hf'|]; subst. unfold outer_field. rewrite Hno, Had.
    by apply array_field_values.
Qed.
End Values.


(** ** Examples *)

Module Example_inputs.
#[local] Existing Instance ascii_tables.
#[local] Instance ranges : MapRange.
Proof. refine {| range := map_to_list |}. reflexivity. Defined.

Import Example_schema.

Definition str (n fmt : string) : PropertyEntry :=
  entry n {| Type_ := "string"; Required := false; Format := fmt; Ref := ""; Refs := []; Items := None;
     Description := ""; Default := None; Minimum := None; Maximum := None; MinLength := None;
     MaxLength := None; MaxGraphemes := None; Enum := []; Const := ""; KnownValues := [] |}.
Definition award : Lexicon :=
  {| ID := "app.certified.badge.award";
     Main := Some (record_def [entry "badge" (prop "ref" "com.atproto.repo.strongRef" [] None true);
                               str "createdAt" "datetime"]);
     Others := ∅ |}.
Definition definition : Lexicon :=
  {| ID := "app.certified.badge.definition"; Main := Some (record_def [str "badgeType" ""]); Others := ∅ |}.
Definition badges : list Lexicon := [award; definition].
Definition inputs : Inputs := buildWhereInputTypes badges badges.

Definition op (o : string) (v : json) : json := JObj {[o := v]}.
Definition endorsements : json := JObj {["badge" := JObj {["badgeType" := op "eq" (JStr "endorsement")]}]}.

Lemma regular_badges : Forall regular badges.
Proof.
  assert (forall lex, Others lex = ∅ -> forall n d, Others lex !! n = Some d ->
    n <> "" /\ record_of d = None) as Ho by (by intros lex -> n d ?%lookup_empty_Some).
  constructor; [|constructor; [|constructor]].
  - split; [by split|]. split; [by intros m [= <-]|by apply Ho].
  - split; [by split|]. split; [by intros m [= <-]|by apply Ho].
Qed.

Lemma usual_badges : Forall usual badges.
Proof.
  constructor; [|constructor; [|constructor]]; split.
  - by repeat constructor.
  - intros e. cbn. rewrite !elem_of_cons, elem_of_nil. by intros [-> |[-> |[]]].
  - intros d o Hd. cbn in Hd. by apply not_elem_of_nil in Hd.
  - by repeat constructor.
  - intros e. cbn. rewrite !elem_of_cons, elem_of_nil. by intros [-> |[]].
  - intros d o Hd. cbn in Hd. by apply not_elem_of_nil in Hd.
Qed.

Lemma endorsements_typed : has_type inputs (WInput (RWhere "app.certified.badge.award")) endorsements.
Proof.
  assert (exists i, whereInputs inputs !! "app.certified.badge.award" = Some i /\
    io_Fields i !! "badge" = Some (WInput (RWhere "app.certified.badge.definition"))) as (i & Hi & Hb)
    by (eexists; split; vm_compute; reflexivity).
  assert (exists j, whereInputs inputs !! "app.certified.badge.definition" = Some j /\
    io_Fields j !! "badgeType" = Some (WInput (RFilter StringFilterInput))) as (j & Hj & Ht)
    by (eexists; split; vm_compute; reflexivity).
  eapply has_object; [exact Hi|]. intros k v [<- <-]%lookup_singleton_Some. eexists. split; [exact Hb|].
  eapply has_object; [exact Hj|]. intros k v [<- <-]%lookup_singleton_Some. eexists. split; [exact Ht|].
  apply has_filter. intros o v [<- <-]%lookup_singleton_Some. exists (IScalar GString).
  split; [by left|by eexists].
Qed.


(** A DID filter with both operators: [in] is dropped, although conditions are
    said to be all required. *)
Example both_operators :
  let d := {| fd_Kind := KindUnionSubject; fd_FieldName := "subject" |} in
  let m : obj := <["eq" := JStr "did:plc:a"]> {["in" := JArr [JStr "did:plc:b"]]} in
  buildDIDOnlyEqInFilter d m = buildDIDOnlyEqInFilter d {["eq" := JStr "did:plc:a"]}.
Proof. vm_compute. reflexivity. Qed.

(** A time that is no time is accepted up to the SQL. *)
Example any_datetime :
  scalar_ok DateTimeScalar (JStr "yesterday") /\
  is_ok (operator_filter "createdAt" true "datetime" "gt" (JStr "yesterday")) = true.
Proof. split; [done|]. vm_compute. reflexivity. Qed.

(** An operator of the input of a strongRef's part that is always refused. *)
Example ref_operator_refused :
  ("contains", IScalar GString) ∈ FilterInput_fields StringFilterInput /\
  ref_filter "item" "uri" "contains" (JStr "at://") = Err (WSubOperator "item" "uri" "contains").
Proof. split; [by apply list_elem_of_In; cbn; auto 10|]. vm_compute. reflexivity. Qed.
End Example_inputs.
