(* ===== verification/Lexicons.v ===== *)
(** The lexicons of an instance: the table of
    [internal/database/repositories/lexicons.go], the resolution of an NSID over
    the network ([internal/lexicon/resolver.go]), the uploads, registrations and
    deletions of [internal/graphql/admin/resolvers_lexicons.go] with the hooks
    [cmd/hypergoat/main.go] gives them, and the registry the next start builds. *)
From S2P Require Import Prelude GoStrings Nsid AtProto Json Lexicon Registry Types Schema Statements RepoClient.
From S2P Require Jetstream.

Local Open Scope Z_scope.

(** ** The network ([resolver.go]) *)

Definition dnsURL : string := "https://dns.google/resolve".

Record ResolvedLexicon := { NSID : string; DID : string; PDSUrl : string; Schema : string }.

Inductive resolve_error :=
| RInvalidNSID
| RNoRecord (domain : string) | RNoDID (domain : string) | RNoPDS
| RNotFound (nsid : string)
| RDns (e : client_error) | RPlc (e : client_error) | RPds (e : client_error).

Definition on_client {A} (f : client_error -> resolve_error) (r : result client_error A)
  : result resolve_error A :=
  match r with Ok a => Ok a | Err e => Err (f e) end.

(** The name of the authority of an NSID: its segments but the last, reversed. *)
Definition authority_domain (nsid : string) : string :=
  let parts := split nsid "." in
  join (reverse (take (length parts - 1) parts)) ".".

Section Network.
(** The network and the decoders of its answers, as for [RepoClient]; the
    answer of the DNS resolver is a status with the data of its records. *)
Context (url_ok : string -> bool) (http : nat -> string -> query -> option (Z * string)).
Context (decode_dns : string -> option (Z * list string)).
Context (decode_services : string -> option (list PLCService)).
Context (decode_value : string -> option string).

Definition txt_did (data : string) : option string :=
  let txt := Trim data (ascii_of_nat 34) in
  if has_prefix txt "did=" then Some (trim_prefix txt "did=") else None.

Definition resolveNSIDToDID (nsid : string) : result resolve_error string :=
  _ ← guard_err (Nat.leb 3 (length (split nsid "."))) RInvalidNSID;
  let domain := authority_domain nsid in
  resp ← on_client RDns (request url_ok http decode_dns 0 dnsURL
           (q_Set (q_Set ∅ "name" ("_lexicon." +:+ domain)) "type" "TXT"));
  if (resp.1 =? 3) || Nat.eqb (length resp.2) 0 then Err (RNoRecord domain)
  else match omap (M := list) txt_did resp.2 with
       | did :: _ => Ok did
       | [] => Err (RNoDID domain)
       end.

Definition is_pds_service (s : PLCService) : bool :=
  String.eqb (svc_ID s) "#atproto_pds" || String.eqb (svc_Type s) "AtprotoPersonalDataServer".

Definition resolvePDS (did : string) : result resolve_error string :=
  services ← on_client RPlc (request url_ok http decode_services 1 (DefaultPLCURL +:+ "/" +:+ did) ∅);
  match List.find is_pds_service services with
  | Some svc => Ok (ServiceEndpoint svc)
  | None => Err RNoPDS
  end.

Definition fetchLexiconSchema (pdsURL did nsid : string) : result resolve_error string :=
  on_client (fun e => match e with EStatus 404 => RNotFound nsid | _ => RPds e end)
    (request url_ok http decode_value 2 (pdsURL +:+ "/xrpc/com.atproto.repo.getRecord")
       (q_Set (q_Set (q_Set ∅ "repo" did) "collection" "com.atproto.lexicon.schema") "rkey" nsid)).

Definition ResolveLexicon (nsid : string) : result resolve_error ResolvedLexicon :=
  _ ← guard_err (Nat.leb 3 (length (split nsid "."))) RInvalidNSID;
  did ← resolveNSIDToDID nsid;
  pdsURL ← resolvePDS did;
  schema ← fetchLexiconSchema pdsURL did nsid;
  Ok {| NSID := nsid; DID := did; PDSUrl := pdsURL; Schema := schema |}.
End Network.

(** The network and the decoders of its answers. *)
Record network := {
  n_url_ok : string -> bool;
  n_http : nat -> string -> query -> option (Z * string);
  n_dns : string -> option (Z * list string);
  n_services : string -> option (list PLCService);
  n_value : string -> option string
}.
Definition resolve (n : network) (nsid : string) : result resolve_error ResolvedLexicon :=
  ResolveLexicon (n_url_ok n) (n_http n) (n_dns n) (n_services n) (n_value n) nsid.

(** ** The state of a running instance *)

(** Which callbacks the admin resolver has. *)
Record hooks := { h_change : bool; h_validate : bool; h_restart : bool }.

(** The table of lexicons, by ID, as the database prints the documents; the
    registry of the running process; the collections each call of the change
    callback named; the reason that waits in the restart channel, a number of
    lexicons. *)
Record state := {
  table : gmap string string;
  live : Registry;
  changes : list (list string);
  restartCh : option nat
}.
Definition with_table (f : gmap string string -> gmap string string) (s : state) : state :=
  {| table := f (table s); live := live s; changes := changes s; restartCh := restartCh s |}.

Inductive lex_error :=
| EUploadTooLarge | EBase64 | EZip | ETooManyFiles (n : nat)
| EFileTooLarge (name : string) | EFileInflated (name : string)
| EDocument (id : string) (e : Parser.parse_error) | ESchema (reason : string)
| ESave (count : nat) (id : string)
| EInvalidNSID | EExists (nsid : string) | ENotRegistered (nsid : string)
| EResolve (e : resolve_error) | EQuery.

(** ** The repository ([lexicons.go])

    [normal] is what PostgreSQL makes of a text cast to [jsonb] and read back;
    nothing when the text is no JSON. [by_id] is the order of IDs. *)
Section Repository.
Context (normal : string -> option string) (by_id : gmap string string -> list (string * string)).

Definition Upsert (err : lex_error) (id jsonData : string) : M state lex_error unit :=
  stmt err (fun s => (fun j => ((), with_table <[id := j]> s)) <$> normal jsonData).
Definition GetByID (id : string) : M state lex_error (option string) :=
  stmt EQuery (fun s => Some (table s !! id, s)).
Definition GetAll : M state lex_error (list (string * string)) :=
  stmt EQuery (fun s => Some (by_id (table s), s)).
Definition Delete (id : string) : M state lex_error unit :=
  stmt EQuery (fun s => Some ((), with_table (delete id) s)).
Definition DeleteAll : M state lex_error unit :=
  stmt EQuery (fun s => Some ((), with_table (fun _ => ∅) s)).
Definition GetCount : M state lex_error nat := stmt EQuery (fun s => Some (size (table s), s)).
Definition Exists (id : string) : M state lex_error bool :=
  stmt EQuery (fun s => Some (bool_decide (is_Some (table s !! id)), s)).
End Repository.

(** ** Uploads *)

Definition maxLexiconUploadBytes : Z := 10 * 1024 * 1024.
Definition maxLexiconFileCount : nat := 500.
Definition maxLexiconFileSize : Z := 1 * 1024 * 1024.

(** An entry of an archive; its content when it can be opened and read. *)
Record ZipFile := { z_Name : string; z_IsDir : bool; UncompressedSize64 : Z; z_Content : option string }.

Section Upload.
(** Base64, the reader of archives, and the ID that [encoding/json] finds in a
    document, nothing when it is no object with such a member. *)
Context (b64 : string -> option string) (unzip : string -> option (list ZipFile)).
Context (decode_id : string -> option string).

(** One entry of the archive, with those before it. *)
Definition stage_file (proposed : gmap string string) (file : ZipFile) : result lex_error (gmap string string) :=
  if z_IsDir file || negb (has_suffix (z_Name file) ".json") then Ok proposed
  else if maxLexiconFileSize <? UncompressedSize64 file then Err (EFileTooLarge (z_Name file))
  else
    match take_bytes (Z.to_nat (maxLexiconFileSize + 1)) <$> z_Content file with
    | None => Ok proposed
    | Some data =>
        if maxLexiconFileSize <? glen data then Err (EFileInflated (z_Name file))
        else match decode_id data with
             | Some id => if is_empty id then Ok proposed else Ok (<[id := data]> proposed)
             | None => Ok proposed
             end
    end.

Fixpoint stage_files (proposed : gmap string string) (files : list ZipFile)
  : result lex_error (gmap string string) :=
  match files with
  | [] => Ok proposed
  | file :: rest => p ← stage_file proposed file; stage_files p rest
  end.

(** The first stage: the documents of an upload by ID. *)
Definition proposed_of (zipBase64 : string) : result lex_error (gmap string string) :=
  _ ← guard_err (glen zipBase64 <=? Z.quot (maxLexiconUploadBytes * 4) 3) EUploadTooLarge;
  match b64 zipBase64 with
  | None => Err EBase64
  | Some zipData =>
      match unzip zipData with
      | None => Err EZip
      | Some files =>
          _ ← guard_err (Nat.leb (length files) maxLexiconFileCount) (ETooManyFiles (length files));
          stage_files ∅ files
      end
  end.
End Upload.

(** ** Registries *)

Section Registries.
Context (parse : string -> result Parser.parse_error Lexicon).
Context (build : Registry -> result string unit).

(** The lexicons among some documents. *)
Definition parsed (docs : list (string * string)) : list Lexicon :=
  omap (M := list) (fun e => match parse e.2 with Ok lex => Some lex | Err _ => None end) docs.

(** [configureLexiconUploadHooks]: the current lexicons that are not replaced,
    then the proposed ones. *)
Definition overlay (proposed : gmap string string) (current : list Lexicon) : Registry :=
  foldl (fun tentative lex =>
    match proposed !! ID lex with Some _ => tentative | None => Register tentative lex end)
    NewRegistry current.

Fixpoint add_docs (tentative : Registry) (docs : list (string * string)) : result lex_error Registry :=
  match docs with
  | [] => Ok tentative
  | (id, body) :: rest =>
      match ParseAndRegister parse tentative body with
      | (_, Err e) => Err (EDocument id e)
      | (t, Ok _) => add_docs t rest
      end
  end.

(** The documents in the order the map is visited. *)
Definition SchemaValidate (proposed : gmap string string) (docs : list (string * string))
    (current : list Lexicon) : result lex_error Registry :=
  tentative ← add_docs (overlay proposed current) docs;
  match build tentative with Ok _ => Ok tentative | Err e => Err (ESchema e) end.

(** [loadLexiconsFromDir]: the files in the order of the walk, [None] for one
    that can not be read, which ends it; files that are no lexicons are skipped. *)
Fixpoint loadLexiconsFromDir (registry : Registry) (files : list (string * option string)) : Registry :=
  match files with
  | [] => registry
  | (path, content) :: rest =>
      if negb (has_suffix path ".json") then loadLexiconsFromDir registry rest
      else match content with
           | None => registry
           | Some data =>
               match parse data with
               | Ok lex => loadLexiconsFromDir (Register registry lex) rest
               | Err _ => loadLexiconsFromDir registry rest
               end
           end
  end.

(** [setupGraphQL]: the registry of a start, from the files of the directory,
    when there is one, and the rows, when the query works. *)
Definition boot (dir : option (list (string * option string))) (rows : option (list (string * string)))
  : Registry :=
  let registry := match dir with Some files => loadLexiconsFromDir NewRegistry files | None => NewRegistry end in
  foldl (fun r row => (ParseAndRegister parse r row.2).1) registry (default [] rows).

(** Whether the start mounts the public endpoint. *)
Definition served (registry : Registry) : bool := is_ok (build registry).

(** The collections the start subscribes to. *)
Definition boot_collections (jetstreamCollections : string) (rows : option (list (string * string))) : list string :=
  if negb (is_empty jetstreamCollections) then Collections.ParseCollections jetstreamCollections
  else (default [] rows).*1.
End Registries.

(** The builder of the schema over a registry, with the check of the library and
    the orders its loops happen to take. *)
Definition schema_build `{UnicodeTables} {S}
    (NewSchema : Registry -> gmap string RootField -> gmap string RootField -> Types.Builder -> Inputs -> result string S)
    (orders : Registry -> Orders) (registry : Registry) : result string unit :=
  _ ← Build NewSchema registry (orders registry); Ok ().

(** ** The admin resolvers ([resolvers_lexicons.go]) *)

Record Registered := { g_ID : string; g_JSON : string; g_DID : string; g_Description : string }.

Section Resolvers.
Context (normal : string -> option string) (by_id : gmap string string -> list (string * string)).
Context (b64 : string -> option string) (unzip : string -> option (list ZipFile)).
Context (decode_id : string -> option string).
Context (parse : string -> result Parser.parse_error Lexicon) (build : Registry -> result string unit).
(** The order in which Go visits the proposed documents. *)
Context (visit : gmap string string -> list (string * string)).
(** The description of a document, and the one of its main definition. *)
Context (descriptions : string -> string * option string).
Context (h : hooks).

(** The collections of the table go to the consumer; a query that fails stops
    this quietly, and the error of the callback is logged. *)
Definition notifyLexiconChange : M state lex_error unit := fun s =>
  if negb (h_change h) then (Ok (), s)
  else let r := GetAll by_id s in
       match r.1 with
       | Err _ => (Ok (), r.2)
       | Ok rows =>
           modify (fun s => {| table := table s; live := live s; changes := changes s ++ [rows.*1];
                               restartCh := restartCh s |}) r.2
       end.

(** The restart callback: the channel holds one reason. *)
Definition processRestart (count : nat) (s : state) : state :=
  {| table := table s; live := live s; changes := changes s;
     restartCh := match restartCh s with None => Some count | reason => reason end |}.

Fixpoint upsert_all (docs : list (string * string)) (count : nat) : M state lex_error nat :=
  match docs with
  | [] => mret count
  | (id, body) :: rest => _ ← Upsert normal (ESave count id) id body; upsert_all rest (S count)
  end.

(** The second stage. *)
Definition validate_upload (proposed : gmap string string) (s : state) : result lex_error unit :=
  if h_validate h
  then _ ← SchemaValidate parse build proposed (visit proposed) (GetAllLexicons (live s)); Ok ()
  else Ok ().

Definition UploadLexicons (zipBase64 : string) : M state lex_error nat :=
  proposed ← lift (proposed_of b64 unzip decode_id zipBase64);
  if bool_decide (proposed = ∅) then mret O
  else
    s ← get;
    _ ← lift (validate_upload proposed s);
    count ← upsert_all (visit proposed) 0;
    _ ← (if Nat.ltb 0 count then notifyLexiconChange else mret ());
    _ ← (if Nat.ltb 0 count && h_restart h then modify (processRestart count) else mret ());
    mret count.

Definition description_of (schema : string) : string :=
  let '(top, main) := descriptions schema in
  if is_empty top then default top main else top.

(** [n] is the network at the time of the request. *)
Definition RegisterLexicon (n : network) (nsid : string) : M state lex_error Registered :=
  _ ← lift (guard_err (Nat.leb 3 (length (split nsid "."))) EInvalidNSID);
  exists_ ← Exists nsid;
  _ ← lift (guard_err (negb exists_) (EExists nsid));
  resolved ← lift (match resolve n nsid with Ok r => Ok r | Err e => Err (EResolve e) end);
  _ ← Upsert normal (ESave 0 nsid) nsid (Schema resolved);
  _ ← notifyLexiconChange;
  mret {| g_ID := nsid; g_JSON := Schema resolved; g_DID := DID resolved;
          g_Description := description_of (Schema resolved) |}.

Definition DeleteLexicon (nsid : string) : M state lex_error bool :=
  exists_ ← Exists nsid;
  _ ← lift (guard_err exists_ (ENotRegistered nsid));
  _ ← Delete nsid;
  _ ← notifyLexiconChange;
  mret true.

(** The resolver [Lexicons]: the rows. *)
Definition Lexicons : M state lex_error (list (string * string)) := GetAll by_id.

(** What administrators ask for. *)
Inductive op := OUpload (zipBase64 : string) | ORegister (n : network) (nsid : string) | ODelete (nsid : string).

Definition perform (o : op) (fs : list fate) (s : state) : state :=
  match o with
  | OUpload z => (UploadLexicons z (fs, s)).2.2
  | ORegister n nsid => (RegisterLexicon n nsid (fs, s)).2.2
  | ODelete nsid => (DeleteLexicon nsid (fs, s)).2.2
  end.
Definition run (ops : list (op * list fate)) (s : state) : state :=
  foldl (fun s o => perform o.1 o.2 s) s ops.
End Resolvers.

(** ** The registry of a start *)

Lemma indexes_ext r r' l l' : indexes r l -> indexes r' l' -> (forall lex, lex ∈ l <-> lex ∈ l') -> r = r'.
Proof.
  intros (A1 & A2 & A3) (B1 & B2 & B3) Hl.
  assert (forall A (m m' : gmap string A), (forall k a, m !! k = Some a <-> m' !! k = Some a) -> m = m') as Hext.
  { intros A m m' Hm. apply map_eq. intros k. apply option_eq. by apply Hm. }
  destruct r as [x y z], r' as [x' y' z']. cbn in *. f_equal; apply Hext; intros k a.
  - by rewrite A1, B1, Hl.
  - rewrite A2, B2. unfold defines_object. by setoid_rewrite Hl.
  - rewrite A3, B3. unfold defines_record. by setoid_rewrite Hl.
Qed.

(** The schema depends only on which lexicons there are, not on the order they
    were registered in. *)
Lemma registry_of_set l l' : NoDup (ID <$> l) -> NoDup (ID <$> l') -> Forall regular l -> Forall regular l' ->
  (forall lex, lex ∈ l <-> lex ∈ l') -> NewRegistryFromLexicons l = NewRegistryFromLexicons l'.
Proof. intros. eapply indexes_ext; [by apply indexes_registry..|done]. Qed.

Section Starts.
Context (parse : string -> result Parser.parse_error Lexicon) (build : Registry -> result string unit).

(** The lexicons the walk over the directory registers. *)
Fixpoint dir_lexicons (files : list (string * option string)) : list Lexicon :=
  match files with
  | [] => []
  | (path, content) :: rest =>
      if negb (has_suffix path ".json") then dir_lexicons rest
      else match content with
           | None => []
           | Some data => match parse data with
                          | Ok lex => lex :: dir_lexicons rest
                          | Err _ => dir_lexicons rest
                          end
           end
  end.
Definition from_dir (dir : option (list (string * option string))) : list Lexicon :=
  match dir with Some files => dir_lexicons files | None => [] end.

Lemma boot_registers dir rows :
  boot parse dir rows = NewRegistryFromLexicons (from_dir dir ++ parsed parse (default [] rows)).
Proof.
  unfold boot, NewRegistryFromLexicons. rewrite foldl_app.
  assert (forall files r, loadLexiconsFromDir parse r files = foldl Register r (dir_lexicons files)) as Hd.
  { induction files as [|[path content] files IH]; intros r; cbn; [done|].
    destruct (negb _); [done|]. destruct content as [data|]; [|done]. by destruct (parse data). }
  assert (forall docs r, foldl (fun r row => (ParseAndRegister parse r row.2).1) r docs =
    foldl Register r (parsed parse docs)) as Hp.
  { induction docs as [|e docs IH]; intros r; cbn; [done|]. unfold ParseAndRegister at 2.
    rewrite IH. by destruct (parse e.2). }
  rewrite Hp. f_equal. destruct dir; [apply Hd|done].
Qed.

Lemma elem_of_parsed docs lex : lex ∈ parsed parse docs <-> exists id body, (id, body) ∈ docs /\ parse body = Ok lex.
Proof.
  unfold parsed. rewrite list_elem_of_omap. split.
  - intros ([id body] & Hin & Hl). exists id, body. split; [done|]. cbn in Hl. destruct (parse body); congruence.
  - intros (id & body & Hin & Hp). exists (id, body). split; [done|]. cbn. by rewrite Hp.
Qed.

(** A document that is a regular lexicon, under its own ID. *)
Definition keyed (id body : string) : Prop := exists lex, parse body = Ok lex /\ ID lex = id /\ regular lex.

Lemma parsed_keyed docs : Forall (fun e => keyed e.1 e.2) docs -> ID <$> parsed parse docs = docs.*1 /\ Forall regular (parsed parse docs).
Proof.
  induction 1 as [|[id body] docs (lex & Hp & Hid & Hr) _ [IH1 IH2]]; [done|]. cbn in *. unfold parsed. cbn.
  rewrite Hp. cbn. rewrite <-Hid. split; [by f_equal|by constructor].
Qed.

Lemma SchemaValidate_Ok proposed docs current t :
  SchemaValidate parse build proposed docs current = Ok t ->
  t = NewRegistryFromLexicons (filter (fun lex => proposed !! ID lex = None) current ++ parsed parse docs) /\
  build t = Ok () /\ Forall (fun e => is_ok (parse e.2) = true) docs.
Proof.
  unfold SchemaValidate. rewrite bind_Ok. intros (t' & Ha & Hb).
  assert (build t' = Ok () /\ t = t') as [Hb' ->] by (destruct (build t') as [[]|]; naive_solver). clear Hb.
  assert (overlay proposed current = foldl Register NewRegistry (filter (fun lex => proposed !! ID lex = None) current)) as Ho.
  { clear. unfold overlay. generalize NewRegistry. induction current as [|lex current IH]; intros r; [done|].
    rewrite filter_cons. cbn [foldl]. destruct (proposed !! ID lex) eqn:Hl.
    - destruct (decide _); [congruence|]. apply IH.
    - destruct (decide _); [|congruence]. cbn [foldl]. apply IH. }
  rewrite Ho in Ha. unfold NewRegistryFromLexicons. rewrite foldl_app. clear Ho.
  revert Ha. generalize (foldl Register NewRegistry (filter (fun lex => proposed !! ID lex = None) current)).
  induction docs as [|[id body] docs IH]; intros r; cbn; [intros [= ->]; by split_and!|].
  unfold ParseAndRegister, parsed. cbn. destruct (parse body) as [lex|] eqn:Hp; [|done]. intros Ha.
  destruct (IH _ Ha) as (H1 & H2 & H3). split_and!; [done..|]. constructor; [cbn; by rewrite Hp|done].
Qed.
End Starts.

(** ** What the requests of administrators do *)

Section Requests.
Context (normal : string -> option string) (by_id : gmap string string -> list (string * string)).
Context (b64 : string -> option string) (unzip : string -> option (list ZipFile)).
Context (decode_id : string -> option string).
Context (parse : string -> result Parser.parse_error Lexicon) (build : Registry -> result string unit).
Context (visit : gmap string string -> list (string * string)).
Context (descriptions : string -> string * option string).
Context (h : hooks).
Notation upload := (UploadLexicons normal by_id b64 unzip decode_id parse build visit h).
Notation register := (RegisterLexicon normal by_id descriptions h).
Notation proposed_by := (proposed_of b64 unzip decode_id).

(** Storing documents under their IDs. *)
Definition store (t : gmap string string) (e : string * string) : gmap string string :=
  match normal e.2 with Some j => <[e.1 := j]> t | None => t end.

Lemma upsert_all_Ok docs : forall count s n s', upsert_all normal docs count s = (Ok n, s') ->
  s'.2 = with_table (fun t => foldl store t docs) s.2 /\ n = (count + length docs)%nat /\
  Forall (fun e => is_Some (normal e.2)) docs.
Proof.
  induction docs as [|[id body] docs IH]; intros count s n s'; cbn [upsert_all].
  - intros [= <- <-]. split_and!; [by destruct s as [? []]|cbn; lia|done].
  - intros ([] & s1 & H1%stmt_Ok & H2)%bind_M_Ok. destruct (IH _ _ _ _ H2) as (Hs & -> & Hf).
    apply fmap_Some in H1 as (j & Hj & [= H1]). split_and!.
    + rewrite Hs, H1. unfold with_table. cbn [foldl table live changes restartCh]. unfold store at 3. cbn. by rewrite Hj.
    + cbn. lia.
    + constructor; [by eexists|done].
Qed.

(** The announcement changes nothing but the list of announcements. *)
Lemma notify_spec s : exists fs l, notifyLexiconChange by_id h s =
  (Ok (), (fs, {| table := table s.2; live := live s.2; changes := changes s.2 ++ l; restartCh := restartCh s.2 |})).
Proof.
  destruct s as [fs [t r c p]]. unfold notifyLexiconChange. destruct (negb _).
  { exists fs, []. by rewrite app_nil_r. }
  unfold GetAll, stmt. destruct (default Works (head fs)); cbn.
  - by exists (tail fs), [(by_id t).*1].
  - exists (tail fs), []. by rewrite app_nil_r.
  - exists (tail fs), []. by rewrite app_nil_r.
Qed.

(** What an upload that answered has done. *)
Lemma upload_Ok z s n s' : upload z s = (Ok n, s') -> exists proposed, proposed_by z = Ok proposed /\
  (proposed = ∅ /\ n = O /\ s' = s \/
   proposed <> ∅ /\ n = length (visit proposed) /\ validate_upload parse build visit h proposed s.2 = Ok () /\
   table s'.2 = foldl store (table s.2) (visit proposed) /\ live s'.2 = live s.2 /\
   Forall (fun e => is_Some (normal e.2)) (visit proposed) /\
   (n <> O -> h_restart h = true -> is_Some (restartCh s'.2))).
Proof.
  unfold UploadLexicons. intros (proposed & s0 & [= Hp <-] & H)%bind_M_Ok. exists proposed. split; [done|].
  case_bool_decide as He; [left; by injection H as <- <-|]. right. split; [done|].
  apply bind_M_Ok in H as (t & s0 & [= <- <-] & H). apply bind_M_Ok in H as ([] & s0 & [= Hv <-] & H).
  apply bind_M_Ok in H as (count & s1 & Hu & H). apply upsert_all_Ok in Hu as (Hs1 & -> & Hf).
  cbn [Nat.add] in H. set (c := length (visit proposed)) in *.
  apply bind_M_Ok in H as ([] & s2 & Hn & H).
  assert (table s2.2 = table s1.2 /\ live s2.2 = live s1.2) as [Ht Hl].
  { destruct (0 <? c)%nat; [|by injection Hn as <-].
    destruct (notify_spec s1) as (fs & l & E). rewrite E in Hn. by injection Hn as <-. }
  rewrite Hs1 in Ht, Hl. cbn in Ht, Hl.
  apply bind_M_Ok in H as ([] & s3 & Hr & [= <- <-]).
  assert (table s3.2 = table s2.2 /\ live s3.2 = live s2.2 /\
          (c <> O -> h_restart h = true -> is_Some (restartCh s3.2))) as (H1 & H2 & H3).
  { destruct (0 <? c)%nat eqn:Hc; cbn in Hr.
    - destruct (h_restart h); [|by injection Hr as <-]. injection Hr as <-. cbn.
      split_and!; [done..|]. intros _ _. destruct (restartCh s2.2); by eexists.
    - injection Hr as <-. apply Nat.ltb_ge in Hc. split_and!; [done..|lia]. }
  rewrite H1, H2, Ht, Hl. by split_and!.
Qed.

(** ** The start after an upload *)

Hypothesis by_id_perm : forall t, by_id t ≡ₚ map_to_list t.
Hypothesis visit_perm : forall t, visit t ≡ₚ map_to_list t.

(** A document that the database keeps as the lexicon it is, under its ID. *)
Definition kept_document (id body : string) : Prop :=
  keyed parse id body /\ forall j, normal body = Some j -> parse j = parse body.

Lemma stored_lookup docs : forall t id, NoDup docs.*1 -> Forall (fun e => is_Some (normal e.2)) docs ->
  foldl store t docs !! id = match list_to_map (M := gmap string string) docs !! id with
                             | Some body => normal body | None => t !! id end.
Proof.
  induction docs as [|[k body] docs IH]; intros t id; cbn [foldl].
  - intros _ _. cbn. by rewrite lookup_empty.
  - rewrite fmap_cons, NoDup_cons, Forall_cons. intros [Hk Hnd] [[j Hj] Hf]. rewrite IH by done.
    rewrite list_to_map_cons. unfold store. cbn in *. rewrite Hj. destruct (decide (id = k)) as [-> |Hne].
    + rewrite (not_elem_of_list_to_map_1 docs k) by done. by rewrite !lookup_insert_eq.
    + rewrite !lookup_insert_ne by done. done.
Qed.

Lemma range_nodup (ord : gmap string string -> list (string * string)) (t : gmap string string) :
  ord t ≡ₚ map_to_list t -> NoDup (ord t).*1 /\ (forall id body, (id, body) ∈ ord t <-> t !! id = Some body) /\
  list_to_map (M := gmap string string) (ord t) = t.
Proof.
  intros Hp. assert (NoDup (ord t).*1) as Hnd by (rewrite Hp; apply NoDup_fst_map_to_list).
  split_and!; [done| |].
  - intros id body. rewrite Hp. apply elem_of_map_to_list.
  - rewrite (list_to_map_proper (ord t) (map_to_list t)) by done. apply list_to_map_to_list.
Qed.

(** The lexicons of the table, and of the directory, as a start needs them. *)
Definition sound_table (t : gmap string string) : Prop := forall id j, t !! id = Some j -> keyed parse id j.
Definition sound_start (dir : option (list (string * option string))) (t : gmap string string) : Prop :=
  sound_table t /\ NoDup (ID <$> from_dir parse dir) /\ Forall regular (from_dir parse dir) /\
  (forall id, is_Some (t !! id) -> id ∉ ID <$> from_dir parse dir).

Lemma sound_rows dir t : sound_start dir t ->
  NoDup (ID <$> from_dir parse dir ++ parsed parse (by_id t)) /\ Forall regular (from_dir parse dir ++ parsed parse (by_id t)).
Proof.
  intros (Ht & Hnd & Hr & Hd). destruct (range_nodup by_id t (by_id_perm t)) as (H1 & H2 & _).
  destruct (parsed_keyed parse (by_id t)) as [H3 H4].
  { apply Forall_forall. intros [id j] Hin. apply Ht. by apply H2. }
  rewrite fmap_app, H3. split; [|by apply Forall_app]. apply NoDup_app. split_and!; [done| |done].
  intros id Hin ([id' j] & -> & Hrow)%list_elem_of_fmap. eapply Hd; [|done]. apply H2 in Hrow. by eexists.
Qed.

(** An upload keeps a start sound. *)
Lemma upload_sound dir t proposed : sound_start dir t ->
  (forall id body, proposed !! id = Some body -> kept_document id body /\ id ∉ ID <$> from_dir parse dir) ->
  Forall (fun e => is_Some (normal e.2)) (visit proposed) ->
  sound_start dir (foldl store t (visit proposed)) /\
  (forall id, foldl store t (visit proposed) !! id = match proposed !! id with
     | Some body => normal body | None => t !! id end).
Proof.
  intros (Ht & Hnd & Hr & Hd) Hp Hf. destruct (range_nodup visit proposed (visit_perm proposed)) as (H1 & H2 & H3).
  assert (forall id, foldl store t (visit proposed) !! id = match proposed !! id with
     | Some body => normal body | None => t !! id end) as Hl.
  { intros id. rewrite stored_lookup, H3 by done. done. }
  split; [|done]. split_and!; [|done..|].
  - intros id j. rewrite Hl. destruct (proposed !! id) as [body|] eqn:Hb; [|apply Ht]. intros Hj.
    destruct (Hp _ _ Hb) as [[(lex & H4 & H5 & H6) Hk] _]. exists lex. split_and!; [|done..].
    by rewrite (Hk _ Hj).
  - intros id. rewrite Hl. destruct (proposed !! id) as [body|] eqn:Hb; [|apply Hd]. intros _.
    by apply (Hp _ _ Hb).
Qed.

Lemma all_lexicons_nodup r l : indexes r l -> NoDup (ID <$> GetAllLexicons r).
Proof.
  intros (H1 & _). unfold GetAllLexicons.
  assert (ID <$> (map_to_list (lexicons r)).*2 = (map_to_list (lexicons r)).*1) as ->.
  { rewrite <-list_fmap_compose. apply list_fmap_ext. intros i [id lex] Hin. cbn.
    apply list_elem_of_lookup_2, elem_of_map_to_list in Hin. by apply H1 in Hin as [_ Hin]. }
  apply NoDup_fst_map_to_list.
Qed.

(** The lexicons an upload is checked with are those of the next start. *)
Lemma checked_is_next dir t r proposed t' :
  sound_start dir t -> sound_start dir t' -> r = boot parse dir (Some (by_id t)) ->
  (forall id body, proposed !! id = Some body -> kept_document id body /\ id ∉ ID <$> from_dir parse dir) ->
  (forall id, t' !! id = match proposed !! id with Some body => normal body | None => t !! id end) ->
  (forall id body, proposed !! id = Some body -> is_Some (normal body)) ->
  NewRegistryFromLexicons (filter (fun lex => proposed !! ID lex = None) (GetAllLexicons r) ++ parsed parse (visit proposed))
  = boot parse dir (Some (by_id t')).
Proof.
  intros Hs Hs' -> Hp Hlook Hnorm. rewrite !boot_registers. cbn [default from_option id].
  destruct (sound_rows dir t Hs) as [N1 R1]. destruct (sound_rows dir t' Hs') as [N2 R2].
  destruct (range_nodup visit proposed (visit_perm proposed)) as (V1 & V2 & _).
  destruct (range_nodup by_id t (by_id_perm t)) as (_ & T2 & _).
  destruct (range_nodup by_id t' (by_id_perm t')) as (_ & T2' & _).
  pose proof (indexes_registry _ N1 R1) as Hi.
  set (r := NewRegistryFromLexicons (from_dir parse dir ++ parsed parse (by_id t))) in *.
  destruct (parsed_keyed parse (visit proposed)) as [P1 P2].
  { apply Forall_forall. intros [id body] Hin. apply V2, Hp in Hin as [[Hk _] _]. exact Hk. }
  pose proof (fun lex => elem_of_lexicons r _ lex Hi) as Hall.
  destruct Hs as (Ht & _), Hs' as (Ht' & _). apply registry_of_set; [|done| |done|].
  - rewrite fmap_app, P1. apply NoDup_app. split_and!; [|intros id|done].
    + eapply sublist_NoDup; [by eapply all_lexicons_nodup|]. apply fmap_sublist, sublist_filter.
    + intros (lex & -> & [Hl _]%list_elem_of_filter)%list_elem_of_fmap ([k body] & Hid & Hin)%list_elem_of_fmap.
      apply V2 in Hin. cbn in Hid. subst k. congruence.
  - apply Forall_app. split; [|done]. apply Forall_forall. intros lex [_ Hin]%list_elem_of_filter.
    apply Hall in Hin. rewrite Forall_forall in R1. by apply R1.
  - intros lex. rewrite !elem_of_app, list_elem_of_filter, Hall, elem_of_app, !elem_of_parsed.
    setoid_rewrite V2. setoid_rewrite T2. setoid_rewrite T2'. split.
    + intros [(Hn & [Hin|(id & j & Hj & Hpar)])|(id & body & Hb & Hpar)].
      * by left.
      * right. exists id, j. split; [|done]. rewrite Hlook. destruct (Ht id j Hj) as (lex' & Hp' & Hid & _).
        assert (lex' = lex) as -> by congruence. rewrite Hid in Hn. by rewrite Hn.
      * right. destruct (Hnorm _ _ Hb) as [j Hj]. exists id, j. rewrite Hlook, Hb. split; [done|].
        destruct (Hp _ _ Hb) as [[_ Hk] _]. by rewrite (Hk _ Hj).
    + intros [Hin|(id & j & Hj & Hpar)].
      * left. split; [|by left]. destruct (proposed !! ID lex) as [body|] eqn:Hb; [|done].
        destruct (Hp _ _ Hb) as [_ Hn]. destruct Hn. by apply list_elem_of_fmap_2.
      * rewrite Hlook in Hj. destruct (proposed !! id) as [body|] eqn:Hb.
        -- right. exists id, body. split; [done|]. destruct (Hp _ _ Hb) as [[_ Hk] _]. by rewrite <-(Hk _ Hj).
        -- left. split; [|right; by exists id, j]. destruct (Ht id j Hj) as (lex' & Hp' & Hid & _).
           assert (lex' = lex) as -> by congruence. by rewrite Hid.
Qed.

(** C8: The registry that an upload was checked with is the one of the next
    start, when: the hooks for the check and for the restart are set, as main
    sets them; the live registry is the boot of the present table, that is,
    nothing was uploaded, registered or deleted since the start; whether the
    schema of a registry builds is a function of the registry, not of the order
    of its maps ([build]); the table and the directory hold regular lexicons
    under their own IDs, an ID in one of them only ([sound_start]); and each
    document of the upload is such a lexicon, which the database keeps with its
    meaning ([kept_document]), for an ID that the directory does not have. Then an
    upload that answers has stored exactly its documents over the table, and if
    it had any it has asked for a restart, the next start serves a schema, and
    finds every lexicon of the upload and every one that it did not replace.
    Examples uploads_not_checked_together and replaced_keeps_definitions show what
    happens without the second and the last condition. *)
Theorem upload_boots dir z fs s n fs' s' proposed :
  h_validate h = true -> h_restart h = true ->
  live s = boot parse dir (Some (by_id (table s))) -> sound_start dir (table s) ->
  proposed_by z = Ok proposed ->
  (forall id body, proposed !! id = Some body -> kept_document id body /\ id ∉ ID <$> from_dir parse dir) ->
  upload z (fs, s) = (Ok n, (fs', s')) ->
  let next := boot parse dir (Some (by_id (table s'))) in
  n = size proposed /\
  (forall id, table s' !! id = match proposed !! id with Some body => normal body | None => table s !! id end) /\
  (proposed <> ∅ ->
   is_Some (restartCh s') /\ served build next = true /\
   forall id, GetLexicon next id = match proposed !! id with
     | Some body => match parse body with Ok lex => Some lex | Err _ => None end
     | None => GetLexicon (live s) id end).
Proof.
  intros Hval Hres Hlive Hs Hz Hp Hup next. apply upload_Ok in Hup as (p' & Hz' & Hup).
  rewrite Hz in Hz'. injection Hz' as <-. cbn [snd] in Hup.
  destruct Hup as [(-> & -> & [= <- <-])|(He & -> & Hv & Ht & Hl & Hf & Hr)].
  { split_and!; [by rewrite map_size_empty|intros id; by rewrite lookup_empty|done]. }
  destruct (range_nodup visit proposed (visit_perm proposed)) as (V1 & V2 & V3).
  destruct (upload_sound dir (table s) proposed Hs Hp Hf) as [Hs' Hlook]. rewrite <-Ht in Hs', Hlook.
  assert (length (visit proposed) = size proposed) as Hsize by (rewrite visit_perm; apply length_map_to_list).
  split; [done|]. split; [done|]. intros _.
  assert (size proposed <> O) as Hne by (by rewrite map_size_non_empty_iff).
  split; [apply Hr; [by rewrite Hsize|done]|].
  unfold validate_upload in Hv. rewrite Hval, bind_Ok in Hv. destruct Hv as (t & Hv & _).
  apply SchemaValidate_Ok in Hv as (Htent & Hb & Hparse).
  assert (forall id body, proposed !! id = Some body -> is_Some (normal body)) as Hnorm.
  { intros id body Hb3. rewrite Forall_forall in Hf. apply (Hf (id, body)). by by apply V2. }
  rewrite (checked_is_next dir (table s) (live s) proposed (table s')) in Htent by done. fold next in Htent. subst t.
  split; [by unfold served; rewrite Hb|]. intros id.
  destruct (range_nodup by_id (table s') (by_id_perm _)) as (_ & T2 & _).
  destruct (sound_rows dir _ Hs) as [N1 R1]. destruct (sound_rows dir _ Hs') as [N2 R2].
  destruct (indexes_registry _ N1 R1) as (Hcur & _). destruct (indexes_registry _ N2 R2) as (Hnx & _).
  unfold GetLexicon. rewrite Hlive. unfold next. rewrite !boot_registers. cbn [default from_option Datatypes.id] in *.
  destruct (proposed !! id) as [body|] eqn:Hb'.
  - destruct (Hp _ _ Hb') as [[(lex & Hpar & Hid & _) Hk] _]. rewrite Hpar. apply Hnx. split; [|done].
    apply elem_of_app. right. apply elem_of_parsed. destruct (Hnorm _ _ Hb') as [j Hj]. exists id, j.
    rewrite T2, Hlook, Hb'. split; [done|]. by rewrite (Hk _ Hj).
  - apply option_eq. intros lex. rewrite Hcur, Hnx, !elem_of_app, !elem_of_parsed. setoid_rewrite T2.
    destruct (range_nodup by_id (table s) (by_id_perm _)) as (_ & T2s & _). setoid_rewrite T2s.
    split; intros [[Hin|(k & j & Hj & Hpar)] Hid]; (split; [|done]); [by left|right|by left|right]; exists k, j; (split; [|done]).
    + rewrite Hlook in Hj. destruct (proposed !! k) as [body|] eqn:Hb2; [|done].
      destruct (Hp _ _ Hb2) as [[(lex' & Hp' & Hid' & _) Hk] _]. rewrite (Hk _ Hj) in Hpar. congruence.
    + rewrite Hlook. destruct Hs as (Ht' & _). destruct (Ht' k j Hj) as (lex' & Hp' & Hid' & _).
      assert (k = id) as -> by congruence. by rewrite Hb'.
Qed.

(** ** What the table holds *)

Lemma proposed_ids z proposed : proposed_by z = Ok proposed -> forall id body, proposed !! id = Some body ->
  decode_id body = Some id /\ id <> "" /\ glen body <= maxLexiconFileSize.
Proof.
  unfold proposed_of. intros (_ & _ & H)%bind_Ok. destruct (b64 z) as [zipData|]; [|done].
  destruct (unzip zipData) as [files|]; [|done]. apply bind_Ok in H as (_ & _ & H).
  assert (forall id body, (∅ : gmap string string) !! id = Some body ->
    decode_id body = Some id /\ id <> "" /\ glen body <= maxLexiconFileSize) as H0 by (intros ? ?; by rewrite lookup_empty).
  revert H H0. generalize (∅ : gmap string string). clear. induction files as [|file files IH]; intros p; cbn [stage_files].
  { by intros [= ->]. }
  intros (q & Hq & H)%bind_Ok H0. apply (IH q H). clear IH H. revert Hq. unfold stage_file.
  destruct (_ || _); [by intros [= <-]|]. destruct (_ <? _); [done|].
  destruct (_ <$> z_Content file) as [data|]; [|by intros [= <-]].
  destruct (maxLexiconFileSize <? glen data) eqn:Hlen; [done|]. apply Z.ltb_ge in Hlen.
  destruct (decode_id data) as [i|] eqn:Hd; [|by intros [= <-]].
  destruct (is_empty i) eqn:Hi; [by intros [= <-]|]. intros [= <-] id body.
  rewrite lookup_insert_Some. intros [[<- <-]|[_ Hl]]; [|by apply H0].
  split_and!; [done| |done]. by intros ->.
Qed.

(** Why a request puts a document under an ID, at an instance with a registry. *)
Definition explains (o : op) (registry : Registry) (id j : string) : Prop :=
  match o with
  | OUpload z => exists proposed body, proposed_by z = Ok proposed /\ proposed !! id = Some body /\
      decode_id body = Some id /\ normal body = Some j /\
      (h_validate h = true -> exists t, SchemaValidate parse build proposed (visit proposed) (GetAllLexicons registry) = Ok t)
  | ORegister n nsid => nsid = id /\ exists r, resolve n nsid = Ok r /\ normal (Schema r) = Some j
  | ODelete _ => False
  end.

Definition accounted (t0 : gmap string string) (E : string -> string -> Prop) (L : Registry) (s : state) : Prop :=
  live s = L /\ forall id j, table s !! id = Some j -> t0 !! id = Some j \/ E id j.

Lemma accounted_other t0 E L s c r : accounted t0 E L s ->
  accounted t0 E L {| table := table s; live := live s; changes := c; restartCh := r |}.
Proof. done. Qed.

Lemma keeps_Upsert t0 E L err id body : (forall j, normal body = Some j -> E id j) ->
  keeps (accounted t0 E L) (Upsert normal err id body).
Proof.
  intros HE. apply keeps_stmt. intros s [] s' [Hl Ht] Hf. apply fmap_Some in Hf as (j & Hj & [= ->]).
  split; [done|]. intros id' j'. cbn. rewrite lookup_insert_Some. intros [[<- <-]|[_ Hl']]; [right|by apply Ht].
  by apply HE.
Qed.

Lemma keeps_upsert_all t0 E L docs : forall count,
  (forall id body j, (id, body) ∈ docs -> normal body = Some j -> E id j) ->
  keeps (accounted t0 E L) (upsert_all normal docs count).
Proof.
  induction docs as [|[id body] docs IH]; intros count HE; cbn [upsert_all]; [apply keeps_ret|].
  apply keeps_bind; [|intros _; apply IH].
  - apply keeps_Upsert. intros j. apply HE. by left.
  - intros i b j Hin. apply HE. by right.
Qed.

Lemma keeps_notify t0 E L : keeps (accounted t0 E L) (notifyLexiconChange by_id h).
Proof. intros fs s Hs. destruct (notify_spec (fs, s)) as (fs' & l & ->). by apply accounted_other. Qed.

Lemma keeps_read {A} t0 E L err (f : state -> A) :
  keeps (E := lex_error) (accounted t0 E L) (stmt err (fun s => Some (f s, s))).
Proof. apply keeps_stmt. by intros s a s' Hs [= <- <-]. Qed.

Lemma perform_accounted o L t0 : forall fs s, accounted t0 (explains o L) L s ->
  accounted t0 (explains o L) L
    (perform normal by_id b64 unzip decode_id parse build visit descriptions h o fs s).
Proof.
  destruct o as [z|n nsid|nsid]; cbn [perform].
  - change (keeps (accounted t0 (explains (OUpload z) L) L) (upload z)). unfold UploadLexicons.
    apply keeps_lift_bind. intros proposed Hp. case_bool_decide; [apply keeps_ret|].
    apply keeps_get. intros s [Hl Ht]. apply keeps_lift_bind. intros [] Hv.
    apply keeps_bind; [apply keeps_upsert_all|intros count; apply keeps_bind; [|intros _; apply keeps_bind; [|intros _; apply keeps_ret]]].
    + intros id body j Hin Hj. rewrite visit_perm in Hin. apply elem_of_map_to_list in Hin.
      exists proposed, body. destruct (proposed_ids _ _ Hp _ _ Hin) as (Hd & _ & _). split_and!; [done..|].
      intros Hh. unfold validate_upload in Hv. rewrite Hh, Hl, bind_Ok in Hv. destruct Hv as (t & Hv & _). by exists t.
    + destruct (_ <? _)%nat; [apply keeps_notify|apply keeps_ret].
    + destruct (_ && _); [|apply keeps_ret]. apply keeps_modify. intros s'. apply accounted_other.
  - change (keeps (accounted t0 (explains (ORegister n nsid) L) L) (register n nsid)). unfold RegisterLexicon.
    apply keeps_lift_bind. intros _ _. apply keeps_bind; [apply keeps_read|]. intros e.
    apply keeps_lift_bind. intros _ _. apply keeps_lift_bind. intros r Hr.
    apply keeps_bind; [|intros _; apply keeps_bind; [apply keeps_notify|intros _; apply keeps_ret]].
    apply keeps_Upsert. intros j Hj. split; [done|]. exists r. split; [|done]. destruct (resolve n nsid); congruence.
  - change (keeps (accounted t0 (explains (ODelete nsid) L) L) (DeleteLexicon by_id h nsid)). unfold DeleteLexicon.
    apply keeps_bind; [apply keeps_read|]. intros e. apply keeps_lift_bind. intros _ _.
    apply keeps_bind; [|intros _; apply keeps_bind; [apply keeps_notify|intros _; apply keeps_ret]].
    apply keeps_stmt. intros s a s' [Hl Ht] [= <- <-]. split; [done|]. intros id j. cbn. intros [_ Hin]%lookup_delete_Some. by apply Ht.
Qed.

(** C9: Where the lexicons of the table come from. Whatever administrators ask
    for, in whatever order, with statements that fail or lose their answer and
    any network: a document that is in the table afterwards was there before, or
    is what the database makes of a document of an upload that was checked with
    the running registry, stored under the ID the document itself has, or of the
    schema that the resolution of its ID gave when that was registered. *)
Theorem lexicon_provenance ops s id j :
  table (run normal by_id b64 unzip decode_id parse build visit descriptions h ops s) !! id = Some j ->
  table s !! id = Some j \/ exists o, o ∈ ops.*1 /\ explains o (live s) id j.
Proof.
  intros Hj.
  assert (accounted (table s) (fun id j => exists o, o ∈ ops.*1 /\ explains o (live s) id j) (live s)
    (run normal by_id b64 unzip decode_id parse build visit descriptions h ops s)) as [_ Ht]; [|by apply Ht].
  clear Hj. induction ops as [|[o fs] ops IH] using rev_ind; [by split; [|left]|].
  unfold run in *. rewrite foldl_app. cbn [foldl fst snd]. destruct IH as [Hl Ht].
  set (s1 := foldl _ s ops) in *. destruct (perform_accounted o (live s) (table s1) fs s1) as [Hl' Ht'].
  { split; [done|]. by left. }
  split; [done|]. intros k v Hk. rewrite fmap_app. destruct (Ht' k v Hk) as [Hold|Hnew].
  - destruct (Ht k v Hold) as [?|(o' & Ho & He)]; [by left|]. right. exists o'. split; [set_solver|done].
  - right. exists o. split; [set_solver|done].
Qed.

Lemma upsert_all_Err docs count fs s e fs' s' : upsert_all normal docs count (fs, s) = (Err e, (fs', s')) ->
      (exists c i, e = ESave c i) /\ changes s' = changes s /\ restartCh s' = restartCh s /\ live s' = live s /\
      forall id, table s' !! id = table s !! id \/ exists body, (id, body) ∈ docs /\ table s' !! id = normal body.
Proof.
  revert count fs s. induction docs as [|[i body] docs IH]; intros count fs s; cbn [upsert_all]; [done|].
      intros [H|([] & [fs1 s1] & H1 & H)]%bind_M_Err.
      - unfold Upsert, stmt in H. destruct (default Works (head fs)).
        + destruct (normal body) as [j|]; [done|]. cbn in H. injection H as <- _ <-.
          split_and!; try done; [by exists count, i|by left].
        + injection H as <- _ <-. split_and!; try done; [by exists count, i|by left].
        + injection H as <- _ <-. split_and!; [by exists count, i|..].
          1-3: by destruct (normal body).
          intros id. destruct (normal body) as [j|] eqn:Hj; [|by left]. cbn.
          destruct (decide (id = i)) as [-> |Hne]; [right|left; by rewrite lookup_insert_ne].
          exists body. split; [left|by rewrite lookup_insert_eq, Hj].
      - unfold Upsert in H1. apply stmt_Ok, fmap_Some in H1 as (j & Hj & [= H1]). cbn [snd] in H1. subst s1.
        destruct (IH _ _ _ H) as (He & H2 & H3 & H4 & H5). split_and!; try done.
        intros id. destruct (H5 id) as [Hi|(b & Hb & Hi)]; [|right; exists b; split; [by right|done]].
        cbn in Hi. destruct (decide (id = i)) as [-> |Hne].
        + right. exists body. split; [left|]. by rewrite Hi, lookup_insert_eq, Hj.
        + left. by rewrite Hi, lookup_insert_ne.
Qed.

(** What an upload leaves that answers with an error. It is neither announced
    nor followed by a restart; unless it failed to save a document it changed
    nothing; and then every document of the table is the one from before or one
    of the upload. *)
Theorem upload_errors z fs s e fs' s' : upload z (fs, s) = (Err e, (fs', s')) ->
  changes s' = changes s /\ restartCh s' = restartCh s /\ live s' = live s /\
  ((forall count id, e <> ESave count id) -> s' = s) /\
  (forall id, table s' !! id = table s !! id \/
     exists proposed body, proposed_by z = Ok proposed /\ proposed !! id = Some body /\ table s' !! id = normal body).
Proof.
  unfold UploadLexicons. intros H. apply bind_M_Err in H as [[= He <- <-]|(proposed & s0 & [= Hp <-] & H)].
  { split_and!; try done. by left. }
  case_bool_decide; [done|]. apply bind_M_Err in H as [[=]|(t & s0 & [= <- <-] & H)].
  apply bind_M_Err in H as [[= He <- <-]|([] & s0 & [= Hv <-] & H)].
  { split_and!; try done. by left. }
  apply bind_M_Err in H as [H|(c & s1 & _ & H)].
  - destruct (upsert_all_Err _ _ _ _ _ _ _ H) as ((c & i & He) & H1 & H2 & H3 & H4). split_and!; try done.
    + intros Hne. by destruct (Hne c i).
    + intros id. destruct (H4 id) as [?|(b & Hb & Hi)]; [by left|]. right. exists proposed, b.
      rewrite visit_perm in Hb. apply elem_of_map_to_list in Hb. by split_and!.
  - exfalso. apply bind_M_Err in H as [H|([] & s2 & _ & H)].
    { destruct (0 <? c)%nat; [|done]. destruct (notify_spec s1) as (fs1 & l & E). by rewrite E in H. }
    apply bind_M_Err in H as [H|([] & s3 & _ & H)]; [by destruct (_ && _)|done].
Qed.

(** When every statement works, the consumer hears of exactly the collections
    in the table after a registration or a deletion. *)
Lemma announced s : h_change h = true ->
  works (notifyLexiconChange by_id h) s () {| table := table s; live := live s;
    changes := changes s ++ [(by_id (table s)).*1]; restartCh := restartCh s |}.
Proof. intros Hh. unfold works, notifyLexiconChange. by rewrite Hh. Qed.

Theorem delete_announces nsid s : h_change h = true -> is_Some (table s !! nsid) ->
  works (DeleteLexicon by_id h nsid) s true
    {| table := delete nsid (table s); live := live s;
       changes := changes s ++ [(by_id (delete nsid (table s))).*1]; restartCh := restartCh s |}.
Proof.
  intros Hh Hs. unfold DeleteLexicon. eapply works_bind; [by apply works_stmt|]. rewrite bool_decide_true by done.
  eapply works_bind; [done|]. eapply works_bind; [by apply works_stmt|].
  eapply works_bind; [by apply (announced (with_table (delete nsid) s))|done].
Qed.
End Requests.

(** ** The resolution of an NSID *)

Section Resolution.
Context (n : network).

(** The network answers a request with a body that decodes to [a]. *)
Definition answers {A} (decode : string -> option A) (i : nat) (u : string) (q : query) (a : A) : Prop :=
  n_url_ok n u = true /\ exists body, n_http n i u q = Some (StatusOK, body) /\ decode body = Some a.

Lemma on_client_Ok {A} f (r : result client_error A) a : on_client f r = Ok a <-> r = Ok a.
Proof. destruct r; cbn; naive_solver. Qed.

Lemma request_answers {A} (decode : string -> option A) i u q a :
  request (n_url_ok n) (n_http n) decode i u q = Ok a <-> answers decode i u q a.
Proof.
  unfold request, answers. destruct (n_url_ok n u); cbn; [|naive_solver].
  destruct (n_http n i u q) as [[status body]|]; [|naive_solver].
  destruct (Z.eqb_spec status StatusOK) as [-> |Hne]; cbn.
  - destruct (decode body) as [a'|] eqn:Hd; [|naive_solver]. split; [intros [= ->]; split; [done|by exists body]|].
    intros (_ & b & [= <-] & Hb). congruence.
  - split; [done|]. intros (_ & b & [= -> _] & _). done.
Qed.

Lemma resolveNSIDToDID_Ok nsid did : resolveNSIDToDID (n_url_ok n) (n_http n) (n_dns n) nsid = Ok did <->
    (3 <= length (split nsid "."))%nat /\
    exists status data, status <> 3 /\ head (omap (M := list) txt_did data) = Some did /\
     answers (n_dns n) 0 dnsURL
       (q_Set (q_Set ∅ "name" ("_lexicon." +:+ authority_domain nsid)) "type" "TXT") (status, data).
Proof.
  unfold resolveNSIDToDID. rewrite guarded_Ok, Nat.leb_le, bind_Ok.
    setoid_rewrite on_client_Ok. setoid_rewrite request_answers. split.
    - intros (Hn & [status data] & Ha & H). split; [done|]. exists status, data. cbn [fst snd] in H.
      destruct (Z.eqb_spec status 3); [done|]. cbn [orb] in H. destruct (Nat.eqb _ _); [done|].
      destruct (omap txt_did data) as [|d l]; [done|]. injection H as ->. by split_and!.
    - intros (Hn & status & data & Hs & Hd & Ha). split; [done|]. exists (status, data). split; [done|]. cbn [fst snd].
      destruct (Z.eqb_spec status 3); [done|]. destruct data as [|x data]; [done|]. cbn [orb length Nat.eqb].
      destruct (omap txt_did (x :: data)); [done|]. by injection Hd as ->.
Qed.

Lemma resolvePDS_Ok did p : resolvePDS (n_url_ok n) (n_http n) (n_services n) did = Ok p <->
    exists services svc, List.find is_pds_service services = Some svc /\ p = ServiceEndpoint svc /\
     answers (n_services n) 1 (DefaultPLCURL +:+ "/" +:+ did) ∅ services.
Proof.
  unfold resolvePDS. setoid_rewrite bind_Ok. setoid_rewrite on_client_Ok. setoid_rewrite request_answers.
    split.
    - intros (services & Ha & H). destruct (find _ _) as [svc|] eqn:Hf; [|done]. injection H as <-. by exists services, svc.
    - intros (services & svc & Hf & -> & Ha). exists services. by rewrite Hf.
Qed.

(** What the resolution of an NSID finds: the first identifier that the DNS
    records of its authority name, the address of the first matching service in
    the document the directory keeps for that identifier, and the record that
    the server there returns under the NSID. It succeeds exactly when the three
    requests are answered like that, in this order. *)
Theorem ResolveLexicon_spec nsid r :
  resolve n nsid = Ok r <->
  NSID r = nsid /\ (3 <= length (split nsid "."))%nat /\
  (exists status data, status <> 3 /\ head (omap (M := list) txt_did data) = Some (DID r) /\
     answers (n_dns n) 0 dnsURL
       (q_Set (q_Set ∅ "name" ("_lexicon." +:+ authority_domain nsid)) "type" "TXT") (status, data)) /\
  (exists services svc, List.find is_pds_service services = Some svc /\ PDSUrl r = ServiceEndpoint svc /\
     answers (n_services n) 1 (DefaultPLCURL +:+ "/" +:+ DID r) ∅ services) /\
  answers (n_value n) 2 (PDSUrl r +:+ "/xrpc/com.atproto.repo.getRecord")
    (q_Set (q_Set (q_Set ∅ "repo" (DID r)) "collection" "com.atproto.lexicon.schema") "rkey" nsid) (Schema r).
Proof.
  unfold resolve, ResolveLexicon.
  rewrite guarded_Ok, Nat.leb_le, bind_Ok. setoid_rewrite resolveNSIDToDID_Ok. setoid_rewrite bind_Ok. setoid_rewrite resolvePDS_Ok.
  setoid_rewrite bind_Ok. unfold fetchLexiconSchema. setoid_rewrite on_client_Ok. setoid_rewrite request_answers. split.
  - intros (_ & did & (Hn & Hd) & p & Hp & schema & Hs & [= <-]). by split_and!.
  - destruct r as [x d p j]. cbn. intros (-> & Hn & Hd & Hp & Hs). split; [done|].
    exists d. split; [done|]. exists p. split; [done|]. by exists j.
Qed.
End Resolution.

(** ** Concrete instances *)

Module Example_lexicons.
#[local] Existing Instance ascii_tables.

Definition note (n : string) : PropertyEntry :=
  {| Name := n; property :=
       {| Type_ := "string"; Required := false; Format := ""; Ref := ""; Refs := []; Items := None;
          Description := ""; Default := None; Minimum := None; Maximum := None; MinLength := None;
          MaxLength := None; MaxGraphemes := None; Enum := []; Const := ""; KnownValues := [] |} |}.
Definition object_with (n : string) : Def :=
  {| d_Type := "object"; d_Record := None;
     d_Object := Some {| od_Type := "object"; od_RequiredFields := []; od_Properties := [note n] |} |}.

(** Documents are words here, each a lexicon: records of two collections, an
    object that has the name of one of them, and two versions of definitions. *)
Definition record_of_id (id : string) : Lexicon :=
  {| ID := id; Main := Some {| rd_Type := "record"; rd_Key := "tid"; rd_Properties := [note "text"] |}; Others := ∅ |}.
Definition defs_of (id n : string) : Lexicon := {| ID := id; Main := None; Others := {[n := object_with "a"]} |}.
Definition library : list (string * Lexicon) :=
  [("post", record_of_id "a.b.c"); ("like", record_of_id "a.b.d"); ("clash", defs_of "a.b" "c");
   ("old", defs_of "a.defs" "x"); ("new", defs_of "a.defs" "y")].
Definition find_doc (s : string) : option Lexicon := snd <$> List.find (fun e => String.eqb e.1 s) library.
Definition parse (s : string) : result Parser.parse_error Lexicon :=
  match find_doc s with Some lex => Ok lex | None => Err Parser.MissingID end.
Definition decode_id (s : string) : option string := ID <$> find_doc s.
Definition normal (s : string) : option string := const s <$> find_doc s.
Definition order (t : gmap string string) : list (string * string) := map_to_list t.
(** An upload is the names of its documents. *)
Definition unzip (s : string) : option (list ZipFile) :=
  Some ((fun d => {| z_Name := d +:+ ".json"; z_IsDir := false; UncompressedSize64 := 4; z_Content := Some d |}) <$> split s ",").

(** Of the checks of the library, that no two types have one name. *)
Definition NewSchema (r : Registry) (q sub : gmap string RootField) (b : Types.Builder) (i : Inputs) : result string unit :=
  guard_err (bool_decide (NoDup ((fun e : string * Object => o_Name e.2) <$> map_to_list (objectTypes b)))) "names".
Definition orders (r : Registry) : Orders :=
  let with_others l := (fun lex => (lex, map_to_list (Others lex))) <$> l in
  {| o_visit := {| v_defs := with_others (GetDefsLexicons r); v_colls := with_others (GetCollectionLexicons r);
                   v_records := GetCollectionLexicons r |};
     o_pass1 := GetCollectionLexicons r; o_pass2 := GetCollectionLexicons r;
     o_range := fun A m => map_to_list m |}.
Definition build : Registry -> result string unit := schema_build NewSchema orders.
Definition all_hooks : hooks := {| h_change := true; h_validate := true; h_restart := true |}.
Notation doc_upload := (UploadLexicons normal order Some unzip decode_id parse build order all_hooks).

Definition start (dir : option (list (string * option string))) (t : gmap string string) : state :=
  {| table := t; live := boot parse dir (Some (order t)); changes := []; restartCh := None |}.
Definition next (dir : option (list (string * option string))) (s : state) : Registry :=
  boot parse dir (Some (order (table s))).

Lemma library_regular s lex : find_doc s = Some lex -> regular lex.
Proof.
  unfold find_doc. intros ([n l] & Hf & ->)%fmap_Some. apply find_some in Hf as [Hin _].
  repeat (destruct Hin as [[= <- <-]|Hin]; [split; [by split|split; [by intros m [= <-]|intros k d; cbn]]|]); [..|done].
  1-2: by rewrite lookup_empty.
  all: by intros [<- <-]%lookup_singleton_Some.
Qed.

(** An upload of a collection over a table with another: accepted, stored, and
    the next start serves both. *)
Definition one_upload : state := (doc_upload "post" ([], start None {["a.b.d" := "like"]})).2.2.
Lemma upload_boots_witness :
  (doc_upload "post" ([], start None {["a.b.d" := "like"]})).1 = Ok 1%nat /\
  served build (next None one_upload) = true /\
  GetLexicon (next None one_upload) "a.b.c" = Some (record_of_id "a.b.c").
Proof.
  split; [vm_compute; reflexivity|].
  assert (forall id j, ({["a.b.d" := "like"]} : gmap string string) !! id = Some j -> keyed parse id j) as Hk.
  { intros id j [<- <-]%lookup_singleton_Some. exists (record_of_id "a.b.d"). split_and!; [done..|].
    by apply (library_regular "like"). }
  assert (({["a.b.c" := "post"]} : gmap string string) <> ∅) as Hne by exact (map_non_empty_singleton _ _).
  pose proof (upload_boots normal order Some unzip decode_id parse build order all_hooks
    (fun t => Permutation_refl (map_to_list t)) (fun t => Permutation_refl (map_to_list t)) None "post" []
    (start None {["a.b.d" := "like"]}) 1 [] one_upload {["a.b.c" := "post"]}) as Hu.
  cbv zeta in Hu. destruct Hu as (_ & _ & Hb).
  - reflexivity.
  - reflexivity.
  - reflexivity.
  - split_and!; [exact Hk|constructor|constructor|]. intros id _ Hin. by apply elem_of_nil in Hin.
  - vm_compute. reflexivity.
  - intros id body [<- <-]%lookup_singleton_Some. split; [split|by intros ?%elem_of_nil].
    + exists (record_of_id "a.b.c"). split_and!; [done..|]. by apply (library_regular "post").
    + by intros j [= <-].
  - vm_compute. reflexivity.
  - destruct (Hb Hne) as (_ & Hserved & Hget). split; [exact Hserved|exact (Hget "a.b.c")].
Defined.

(** A registration is not checked: after it, the next start serves no schema. *)
Definition toy_service : PLCService :=
  {| svc_ID := "#atproto_pds"; svc_Type := ""; ServiceEndpoint := "http://169.254.169.254" |}.
Definition toy_network (docs : list (string * string)) : network :=
  {| n_url_ok := fun _ => true;
     n_http := fun _ u q => Some (200, default u (head (default [] (q !! "rkey"))));
     n_dns := fun _ => Some (0, ["did=did:plc:x"]);
     n_services := fun _ => Some [toy_service];
     n_value := fun body => snd <$> List.find (fun e => String.eqb e.1 body) docs |}.
Notation doc_register := (RegisterLexicon normal order (fun _ => ("", None)) all_hooks).

Example registered_unchecked :
  let s := (doc_register (toy_network [("a.b.x", "clash")]) "a.b.x" ([], start None {["a.b.c" := "post"]})).2.2 in
  table s !! "a.b.x" = Some "clash" /\ served build (next None s) = false /\
  SchemaValidate parse build {["a.b" := "clash"]} [("a.b", "clash")] (GetAllLexicons (live s)) = Err (ESchema "names").
Proof. split_and!; vm_compute; reflexivity. Qed.

(** The document of a registration may have another ID: the next start takes it
    for the lexicon of that ID. *)
Example registered_other_id :
  let t := {["a.b.d" := "like"]} in
  let s := (doc_register (toy_network [("z.z.z", "like")]) "z.z.z" ([], start None t)).2.2 in
  table s !! "z.z.z" = Some "like" /\ GetLexicon (next None s) "z.z.z" = None /\
  GetLexicon (next None s) "a.b.d" = Some (record_of_id "a.b.d").
Proof. split_and!; vm_compute; reflexivity. Qed.

(** Two uploads before the restart are each checked with the registry of the
    running process, which has neither. *)
Example uploads_not_checked_together :
  let s := (doc_upload "post" ([], start None ∅)).2.2 in
  let r := doc_upload "clash" ([], s) in
  r.1 = Ok 1%nat /\ restartCh r.2.2 = Some 1%nat /\ served build (next None r.2.2) = false.
Proof. split_and!; vm_compute; reflexivity. Qed.

(** An upload that replaces a lexicon of the directory: the next start keeps a
    definition of the old version, which the check did not have. *)
Example replaced_keeps_definitions :
  let dir := Some [("lexicons/defs.json", Some "old")] in
  let s := (doc_upload "new" ([], start dir ∅)).2.2 in
  is_Some (GetObjectDef (next dir s) "a.defs#x") /\
  (exists t, SchemaValidate parse build {["a.defs" := "new"]} [("a.defs", "new")] (GetAllLexicons (live s)) = Ok t /\
     GetObjectDef t "a.defs#x" = None) /\
  GetLexicon (next dir s) "a.defs" = Some (defs_of "a.defs" "y").
Proof. split_and!; [vm_compute; by eexists|eexists; split; vm_compute; reflexivity|vm_compute; reflexivity]. Qed.

(** An upload that fails half way is not undone and not announced. *)
Example half_an_upload :
  let r := doc_upload "post,like" ([Works; Fails], start None ∅) in
  (exists id, r.1 = Err (ESave 1 id)) /\ size (table r.2.2) = 1%nat /\ changes r.2.2 = [] /\ restartCh r.2.2 = None.
Proof. split_and!; vm_compute; [by eexists|reflexivity..]. Qed.

(** The consumer is given the lexicons of the table, whatever collections were
    configured; after the last deletion none, which asks for all of the network. *)
Example configured_dropped :
  let s := (doc_register (toy_network [("a.b.d", "like")]) "a.b.d" ([], start None ∅)).2.2 in
  boot_collections "x.y.z" (Some (order (table s))) = ["x.y.z"] /\ changes s = [["a.b.d"]] /\
  changes (DeleteLexicon order all_hooks "a.b.d" ([], s)).2.2 = [["a.b.d"]; []].
Proof. split_and!; vm_compute; reflexivity. Qed.
Example no_collection_wanted :
  Jetstream.Cursor.buildURL {| Jetstream.Cursor.URL := "wss://j"; Jetstream.Cursor.Collections := []; Jetstream.Cursor.Cursor := 0;
                        Jetstream.Cursor.DisableCursor := false |} ∅ = ∅.
Proof. reflexivity. Qed.

(** The resolution of an NSID, and an address that the guard of [Bridge] would
    refuse, to which the last request goes. *)
Lemma ResolveLexicon_spec_witness :
  resolve (toy_network [("a.b.d", "like")]) "a.b.d" = Ok {| NSID := "a.b.d"; DID := "did:plc:x";
    PDSUrl := "http://169.254.169.254"; Schema := "like" |}.
Proof.
  apply ResolveLexicon_spec. split_and!; [done|cbn; lia|..].
  - exists 0, ["did=did:plc:x"]. split_and!; [done..|]. split; [done|]. eexists. split; [vm_compute; reflexivity|done].
  - exists [toy_service], toy_service. split_and!; [reflexivity|reflexivity|].
    split; [done|]. eexists. split; vm_compute; reflexivity.
  - split; [done|]. eexists. split; vm_compute; reflexivity.
Defined.

Lemma lexicon_provenance_witness :
  let s := (doc_upload "post" ([], start None ∅)).2.2 in
  table s !! "a.b.c" = Some "post" /\
  exists o, o ∈ [OUpload "post"] /\ explains normal Some unzip decode_id parse build order all_hooks o
    (live (start None ∅)) "a.b.c" "post".
Proof.
  split; [vm_compute; reflexivity|].
  destruct (lexicon_provenance normal order Some unzip decode_id parse build order (fun _ => ("", None)) all_hooks
    (fun t => Permutation_refl (map_to_list t)) (fun t => Permutation_refl (map_to_list t)) [(OUpload "post", [])] (start None ∅) "a.b.c" "post") as [Ht|He].
  - vm_compute. reflexivity.
  - exfalso. cbn in Ht. by rewrite lookup_empty in Ht.
  - exact He.
Defined.

Lemma upload_errors_witness :
  let r := doc_upload "post,like" ([Works; Fails], start None ∅) in
  exists e, r.1 = Err e /\ changes r.2.2 = [].
Proof.
  eexists. split; [vm_compute; reflexivity|].
  destruct (upload_errors normal order Some unzip decode_id parse build order all_hooks
    (fun t => Permutation_refl (map_to_list t)) "post,like" [Works; Fails] (start None ∅) (ESave 1 "a.b.d") []
    (doc_upload "post,like" ([Works; Fails], start None ∅)).2.2) as (Hc & _); [vm_compute; reflexivity|exact Hc].
Defined.
End Example_lexicons.
