(* ===== verification/Activity.v ===== *)
(** The activity log: the table of
    [internal/database/repositories/jetstream_activity.go], what
    [internal/graphql/admin/resolvers_activity.go] shows of it, and the worker
    that cleans it ([internal/workers/activity_cleanup.go]). *)
From stdpp Require Import sorting.
From S2P Require Import Json Ingestion RecordStore RecordBackfill.
From S2P Require Import Prelude GoStrings Utf8 Statements.

Local Open Scope Z_scope.

(** ** Data

    The table keeps times in whole seconds; the clock of the database is in
    microseconds. *)
Record ActivityEntry := {
  e_ID : Z; e_Timestamp : Z; e_Operation : string; e_Collection : string; e_DID : string;
  e_RKey : option string; e_Status : string; e_ErrorMessage : option string; e_EventJSON : string;
  e_IsValid : option bool; e_Source : option Z
}.
Record activity := { rows : list ActivityEntry; nextID : Z }.

Inductive activity_error := ELog | EUpdate | EQuery | ECleanup | EOrphan.

Definition us (seconds : Z) : Z := seconds * 1000000.
Definition hours_us (h : Z) : Z := us (h * 3600).
(** [timestamp >= NOW() - INTERVAL '%d hours']. *)
Definition since (now hours : Z) (e : ActivityEntry) : bool := now - hours_us hours <=? us (e_Timestamp e).

(** ** Writing *)

Section Log.
(** What a column of type [jsonb] makes of a text; [None] when it refuses it. *)
Context (jsonb : string -> option string).

Definition has_source (s : option Z) (e : ActivityEntry) : bool :=
  match s with Some i => bool_decide (e_Source e = Some i) | None => false end.

(** The numbers of the rows are of type [SERIAL]. *)
Definition max_serial : Z := 2147483647.

(** The statement: a row with the same source, or a new one; either takes a
    number of the sequence, which ends. *)
Definition log_row (timestamp : Z) (operation collection did rkey status eventJSON : string) (source : option Z)
    (t : activity) : option (Z * activity) :=
  match jsonb eventJSON with
  | None => None
  | Some eventJSON =>
  if max_serial <? nextID t then None else
    match List.find (has_source source) (rows t) with
    | Some e => Some (e_ID e, {| rows := rows t; nextID := nextID t + 1 |})
    | None =>
        Some (nextID t,
              {| rows := rows t ++ [{| e_ID := nextID t; e_Timestamp := timestamp; e_Operation := operation;
                     e_Collection := collection; e_DID := did; e_RKey := Some rkey; e_Status := status;
                     e_ErrorMessage := None; e_EventJSON := eventJSON; e_IsValid := None; e_Source := source |}];
                 nextID := nextID t + 1 |})
    end
  end.

(** [timestamp] is in nanoseconds; its text has whole seconds. *)
Definition LogActivityWithStatus (timestamp : Z) (operation collection did rkey eventJSON status : string)
    (sourceEventID : option Z) : M activity activity_error Z :=
  stmt ELog (log_row (timestamp / 1000000000) operation collection did rkey status (event_json eventJSON) sourceEventID).

Definition LogActivity (timestamp : Z) (operation collection did rkey eventJSON : string)
    (sourceEventID : option Z) : M activity activity_error Z :=
  LogActivityWithStatus timestamp operation collection did rkey eventJSON "pending" sourceEventID.
End Log.

Definition on_rows (f : list ActivityEntry -> list ActivityEntry) (t : activity) : activity :=
  {| rows := f (rows t); nextID := nextID t |}.

Definition with_status (status : string) (msg : option string) (valid : option bool) (e : ActivityEntry) : ActivityEntry :=
  {| e_ID := e_ID e; e_Timestamp := e_Timestamp e; e_Operation := e_Operation e; e_Collection := e_Collection e;
     e_DID := e_DID e; e_RKey := e_RKey e; e_Status := status; e_ErrorMessage := msg; e_EventJSON := e_EventJSON e;
     e_IsValid := valid; e_Source := e_Source e |}.

Definition UpdateStatus (id : Z) (status : string) (errorMessage : option string) (isValid : option bool)
  : M activity activity_error unit :=
  stmt EUpdate (fun t => Some ((), on_rows (fmap (fun e =>
    if e_ID e =? id then with_status status errorMessage isValid e else e)) t)).

(** ** Cleaning *)

Definition CleanupOldActivity (now hours : Z) : M activity activity_error unit :=
  stmt ECleanup (fun t => Some ((), on_rows (filter (fun e => since now hours e = true)) t)).

Definition orphan_message (maxAgeMinutes : Z) : string :=
  "activity status never updated within " +:+ itoa maxAgeMinutes +:+ " minutes".
Definition stale (now maxAgeMinutes : Z) (e : ActivityEntry) : bool :=
  String.eqb (e_Status e) "pending" && (us (e_Timestamp e) <? now - us (maxAgeMinutes * 60)).

Definition OrphanPendingActivity (now maxAgeMinutes : Z) : M activity activity_error Z :=
  stmt EOrphan (fun t => Some (Z.of_nat (length (filter (fun e => stale now maxAgeMinutes e = true) (rows t))),
    on_rows (fmap (fun e => if stale now maxAgeMinutes e
      then with_status "orphaned" (Some (orphan_message maxAgeMinutes)) (e_IsValid e) e else e)) t)).

Definition DeleteAll : M activity activity_error unit := stmt EQuery (fun t => Some ((), on_rows (fun _ => []) t)).
Definition GetCount : M activity activity_error Z := stmt EQuery (fun t => Some (Z.of_nat (length (rows t)), t)).

(** ** Reading *)

Section Reads.
(** [ORDER BY timestamp DESC] and [ORDER BY cnt DESC], which leave equal rows in
    any order; and how far the time zone of the session is from UTC. *)
Context (newest : list ActivityEntry -> list ActivityEntry) (largest : list (string * Z) -> list (string * Z)) (zone : Z).

Definition GetRecentActivity (now hours : Z) : M activity activity_error (list ActivityEntry) :=
  stmt EQuery (fun t => Some (take 1000 (newest (filter (fun e => since now hours e = true) (rows t))), t)).

Record ActivityBucket := { b_Timestamp : Z; b_Total : Z; b_Creates : Z; b_Updates : Z; b_Deletes : Z }.

(** The hour of a time, and its slot of [minutes] in it. *)
Definition bucket_of (minutes t : Z) : Z :=
  let hour := (t + zone) / 3600 * 3600 in
  hour - zone + minutes * 60 * ((t + zone) mod 3600 / 60 / minutes).

Definition count (P : ActivityEntry -> bool) (l : list ActivityEntry) : Z := Z.of_nat (length (filter (fun e => P e = true) l)).
Definition of_op (op : string) (e : ActivityEntry) : bool := String.eqb (e_Operation e) op.

Definition bucket (minutes : Z) (l : list ActivityEntry) (b : Z) : ActivityBucket :=
  let here := filter (fun e => bucket_of minutes (e_Timestamp e) = b) l in
  {| b_Timestamp := b; b_Total := Z.of_nat (length here); b_Creates := count (of_op "create") here;
     b_Updates := count (of_op "update") here; b_Deletes := count (of_op "delete") here |}.

(** The query of [buildBucketQuery]. *)
Definition buildBucketQuery (now hours minutes : Z) (l : list ActivityEntry) : list ActivityBucket :=
  let l := filter (fun e => since now hours e = true) l in
  bucket minutes l <$> merge_sort Z.le (remove_dups ((fun e => bucket_of minutes (e_Timestamp e)) <$> l)).

Definition bucket_range (timeRange : string) : Z * Z :=
  if String.eqb timeRange "ONE_HOUR" then (1, 5)
  else if String.eqb timeRange "THREE_HOURS" then (3, 15)
  else if String.eqb timeRange "SIX_HOURS" then (6, 30)
  else if String.eqb timeRange "ONE_DAY" then (24, 60)
  else if String.eqb timeRange "SEVEN_DAYS" then (168, 1440)
  else (1, 5).

Definition GetActivityBuckets (now : Z) (timeRange : string) : M activity activity_error (list ActivityBucket) :=
  stmt EQuery (fun t => Some (buildBucketQuery now (bucket_range timeRange).1 (bucket_range timeRange).2 (rows t), t)).

Definition stats_hours (timeRange : string) : Z :=
  if String.eqb timeRange "ONE_HOUR" then 1
  else if String.eqb timeRange "THREE_HOURS" then 3
  else if String.eqb timeRange "SIX_HOURS" then 6
  else if String.eqb timeRange "ONE_DAY" then 24
  else if String.eqb timeRange "SEVEN_DAYS" then 168
  else 24.

Definition invalid (e : ActivityEntry) : bool := bool_decide (e_IsValid e = Some false).
Definition latest (l : list ActivityEntry) : option Z :=
  foldr (fun e m => Some (match m with Some t => Z.max (e_Timestamp e) t | None => e_Timestamp e end)) None l.
(** [GROUP BY collection]. *)
Definition by_collection (l : list ActivityEntry) : list (string * Z) :=
  (fun c => (c, count (fun e => String.eqb (e_Collection e) c) l)) <$> remove_dups (e_Collection <$> l).

Record ValidationStats := {
  InvalidCount : Z; InvalidByCollection : list (string * Z); LastInvalidAt : option Z
}.

(** Two statements, which can see different rows. *)
Definition GetValidationStats (now : Z) (timeRange : string) : M activity activity_error ValidationStats :=
  let in_range e := invalid e && since now (stats_hours timeRange) e in
  r ← stmt EQuery (fun t => let l := filter (fun e => in_range e = true) (rows t) in
                            Some ((Z.of_nat (length l), latest l), t));
  byCollection ← stmt EQuery (fun t =>
    Some (take 10 (largest (by_collection (filter (fun e => in_range e = true) (rows t)))), t));
  mret {| InvalidCount := r.1; InvalidByCollection := byCollection; LastInvalidAt := r.2 |}.

Definition GetRecentInvalidActivity (limit : nat) : M activity activity_error (list ActivityEntry) :=
  stmt EQuery (fun t => Some (take limit (newest (filter (fun e => invalid e = true) (rows t))), t)).

(** [ValidationStats] of the admin resolvers. *)
Definition ValidationReport (now : Z) (timeRange : string)
  : M activity activity_error (ValidationStats * list ActivityEntry) :=
  stats ← GetValidationStats now timeRange;
  recentInvalid ← GetRecentInvalidActivity 20;
  mret (stats, recentInvalid).
End Reads.

(** ** The log from the records *)

Section Populate.
(** The columns of type [jsonb], [time.Parse], [json.Unmarshal] into a map, and
    the order of the URIs in the database. *)
Context (jsonb : string -> option string) (parse : string -> string -> option instant) (unmarshal : string -> option obj)
  (before : relation string) `{!RelDecision before}.

(** The column [rkey] of a record is what follows the last slash of its URI. *)
Definition record_rkey (uri : string) : string := List.last (split uri "/") "".

(** The callback of [IterateAll]: an entry that cannot be written is left out. *)
Definition log_record (fallback : string * row -> instant) (s : (list fate * activity) * Z) (rec : string * row)
  : ((list fate * activity) * Z) * option string :=
  let timestamp := ExtractCreatedAt parse unmarshal (w_json rec.2) (fallback rec) in
  let r := LogActivityWithStatus jsonb timestamp "create" (w_collection rec.2) (w_did rec.2) (record_rkey rec.1)
             (w_json rec.2) "success" None s.1 in
  ((r.2, if is_ok r.1 then s.2 + 1 else s.2), None).

(** The number of entries, the error, and the table; [None] while the walk over the
    records goes on. *)
Definition populateActivityFromRecords (fuel : nat) (look : nat -> option table) (fallback : string * row -> instant)
    (s : list fate * activity) : option (Z * option string * (list fate * activity)) :=
  '(s', _, err) ← IterateAll before fuel look 1000 (log_record fallback) (s, 0);
  Some (s'.2, err, s'.1).

(** The resolver; [now] is the clock when a record is reached. *)
Definition PopulateActivity (fuel : nat) (look : nat -> option table) (now : string -> instant) (s : list fate * activity)
  : option (Z * option string * (list fate * activity)) :=
  match DeleteAll s with
  | (Err _, s) => Some (0, Some "failed to clear existing activity", s)
  | (Ok _, s) => populateActivityFromRecords fuel look (fun rec => now rec.1) s
  end.

(** At the start of the program, when there are records and no activity. *)
Definition populateActivityIfEmpty (fuel : nat) (recordCount : option Z) (look : nat -> option table)
    (s : list fate * activity) : option (list fate * activity) :=
  match recordCount with
  | None => Some s
  | Some recordCount =>
      if recordCount =? 0 then Some s
      else match GetCount s with
           | (Err _, s) => Some s
           | (Ok activityCount, s) =>
               if 0 <? activityCount then Some s
               else '(_, s) ← populateActivityFromRecords fuel look (fun rec => w_indexed_at rec.2) s; Some s
           end
  end.
End Populate.

(** ** The worker *)

Module Worker.
Definition retentionHrs : Z := 24 * 7.
Definition orphanAfterMinutes : Z := 10.
Definition interval : Z := us 3600.

Definition cleanup (now : Z) : M activity activity_error unit :=
  _ ← ignore (CleanupOldActivity now retentionHrs);
  ignore (OrphanPendingActivity now orphanAfterMinutes).

(** A ticker that runs has the instant of its next tick; its channel holds one. *)
Record worker := { next : option Z; channel : bool; looping : bool; stop : bool; done : bool }.

Inductive wevent :=
| Clock (now : Z)      (** time passes *)
| Scheduled (now : Z)  (** the loop takes a tick *)
| Cancelled            (** the loop sees that its context is done *)
| StopCalled
| Stopped.             (** the loop sees the stop channel *)

(** What time does to a ticker: a tick that finds the channel full is lost. *)
Definition tick (now : Z) (w : worker) : worker :=
  match next w with
  | Some n => if n <=? now then {| next := Some (n + interval); channel := true; looping := looping w; stop := stop w; done := done w |} else w
  | None => w
  end.

Definition state : Type := worker * (list fate * activity).

(** [Start] from [now] until it returns at [returned]: the sweep, the ticker, the
    loop in a goroutine of its own, and the deferred [ticker.Stop()]. *)
Definition Start (now returned : Z) (s : list fate * activity) : state :=
  let s := (cleanup now s).2 in
  let w := {| next := Some (now + interval); channel := false; looping := true; stop := false; done := false |} in
  let w := tick returned w in
  ({| next := None; channel := channel w; looping := looping w; stop := stop w; done := done w |}, s).

Definition ends (w : worker) : worker :=
  {| next := next w; channel := channel w; looping := false; stop := stop w; done := true |}.

Inductive step : state -> wevent -> state -> Prop :=
| step_clock now w s : step (w, s) (Clock now) (tick now w, s)
| step_scheduled now w s : looping w = true -> channel w = true ->
    step (w, s) (Scheduled now)
      ({| next := next w; channel := false; looping := true; stop := stop w; done := done w |}, (cleanup now s).2)
| step_cancelled w s : looping w = true -> step (w, s) Cancelled (ends w, s)
| step_stop w s : stop w = false ->
    step (w, s) StopCalled ({| next := next w; channel := channel w; looping := looping w; stop := true; done := done w |}, s)
| step_stopped w s : looping w = true -> stop w = true -> step (w, s) Stopped (ends w, s).

Inductive steps : state -> list wevent -> state -> Prop :=
| steps_refl s : steps s [] s
| steps_trans s e s' l s'' : step s e s' -> steps s' l s'' -> steps s (e :: l) s''.
End Worker.

(** ** The rows are known by their numbers and their sources *)

Record well_formed (t : activity) : Prop := {
  wf_ids : NoDup (e_ID <$> rows t);
  wf_next : Forall (fun e => e_ID e < nextID t) (rows t);
  wf_sources : NoDup (omap e_Source (rows t))
}.

Lemma sublist_omap {A B} (f : A -> option B) l k : l `sublist_of` k -> omap f l `sublist_of` omap f k.
Proof. induction 1 as [|x l k _ IH|x l k _ IH]; cbn; [constructor| |]; destruct (f x); by try constructor. Qed.
Lemma sublist_map {A B} (f : A -> B) l k : l `sublist_of` k -> f <$> l `sublist_of` f <$> k.
Proof. induction 1; cbn; by constructor. Qed.

(** Changes of rows that leave out some, or keep the numbers and sources of all. *)
Lemma well_formed_filter (P : ActivityEntry -> Prop) `{!forall x, Decision (P x)} t :
  well_formed t -> well_formed (on_rows (filter P) t).
Proof.
  intros [Hi Hn Hs]. pose proof (sublist_filter P (rows t)) as Hsub. split; cbn.
  - by apply (sublist_NoDup _ _ Hi), sublist_map.
  - apply Forall_forall. intros e [_ He]%list_elem_of_filter. rewrite Forall_forall in Hn. by apply Hn.
  - by apply (sublist_NoDup _ _ Hs), sublist_omap.
Qed.

Lemma well_formed_fmap (f : ActivityEntry -> ActivityEntry) t :
  (forall e, e_ID (f e) = e_ID e /\ e_Source (f e) = e_Source e) -> well_formed t -> well_formed (on_rows (fmap f) t).
Proof.
  intros Hf [Hi Hn Hs]. split; cbn.
  - rewrite <-list_fmap_compose, (list_fmap_ext _ e_ID); [done|]. intros i e _. apply Hf.
  - apply Forall_fmap. eapply Forall_impl; [exact Hn|]. intros e He. cbn. by rewrite (proj1 (Hf e)).
  - enough (omap e_Source (f <$> rows t) = omap e_Source (rows t)) as -> by done. clear -Hf.
    induction (rows t) as [|e l IH]; [done|]. cbn. by rewrite (proj2 (Hf e)), IH.
Qed.

Lemma find_source s l : match List.find (has_source s) l with
  | Some e => e ∈ l /\ is_Some s /\ e_Source e = s
  | None => forall i, s = Some i -> i ∉ omap e_Source l
  end.
Proof.
  destruct (List.find _ l) as [e|] eqn:Hf.
  - apply List.find_some in Hf as [Hin Hs]. apply list_elem_of_In in Hin. destruct s as [i|]; [|done]. cbn in Hs.
    apply bool_decide_eq_true in Hs. by split_and!.
  - intros i -> (e & He & Hs)%list_elem_of_omap. apply list_elem_of_In in He.
    pose proof (List.find_none _ _ Hf e He) as Hn. cbn in Hn. by rewrite bool_decide_eq_false in Hn.
Qed.

Section Rows.
Context (jsonb : string -> option string).

Lemma well_formed_log ts op c d rk st ev src t id t' :
  log_row jsonb ts op c d rk st ev src t = Some (id, t') -> well_formed t -> well_formed t'.
Proof.
  unfold log_row. intros Hl [Hi Hn Hs]. destruct (jsonb ev) as [ev'|]; [|done]. destruct (_ <? _); [done|].
  pose proof (find_source src (rows t)) as Hf. destruct (List.find _ _) as [e|]; injection Hl as <- <-.
  - split; [done| |done]. eapply Forall_impl; [exact Hn|]. cbn. intros x Hx. lia.
  - split; cbn.
    + rewrite fmap_app. apply NoDup_app. split_and!; [done| |apply NoDup_singleton].
      intros i (e & -> & He)%list_elem_of_fmap Hx. apply list_elem_of_singleton in Hx. cbn in Hx.
      rewrite Forall_forall in Hn. specialize (Hn e He). lia.
    + apply Forall_app. split; [eapply Forall_impl; [exact Hn|]; cbn; intros; lia|]. constructor; [cbn; lia|done].
    + rewrite omap_app. cbn. destruct src as [i|]; [|by rewrite app_nil_r]. apply NoDup_app.
      split_and!; [done| |apply NoDup_singleton]. intros j Hj ->%list_elem_of_singleton. by apply (Hf i).
Qed.

(** The calls of the program that write. *)
Inductive call :=
| Log (timestamp : Z) (operation collection did rkey eventJSON status : string) (source : option Z)
| Update (id : Z) (status : string) (msg : option string) (valid : option bool)
| CleanUp (now hours : Z) | Orphan (now minutes : Z) | Clear.

Definition run (s : list fate * activity) (c : call) : list fate * activity :=
  match c with
  | Log ts op c d rk ev st src => (LogActivityWithStatus jsonb ts op c d rk ev st src s).2
  | Update id st msg v => (UpdateStatus id st msg v s).2
  | CleanUp now hours => (CleanupOldActivity now hours s).2
  | Orphan now minutes => (OrphanPendingActivity now minutes s).2
  | Clear => (DeleteAll s).2
  end.
Definition runs (s : list fate * activity) (cs : list call) : list fate * activity := foldl run s cs.
Definition no_activity : activity := {| rows := []; nextID := 1 |}.

Lemma run_well_formed s c : well_formed s.2 -> well_formed (run s c).2.
Proof.
  destruct s as [fs t]. intros Ht. destruct c; cbn [run]; refine (keeps_stmt well_formed _ _ _ fs t Ht); clear; cbn.
  - intros t a t' Ht Hl. by eapply well_formed_log.
  - intros t a t' Ht [= <- <-]. apply well_formed_fmap; [|done]. intros e. by destruct (_ =? _).
  - intros t a t' Ht [= <- <-]. by apply well_formed_filter.
  - intros t a t' Ht [= <- <-]. apply well_formed_fmap; [|done]. intros e. by destruct (stale _ _ _).
  - intros t a t' Ht [= <- <-]. split; by constructor.
Qed.

Lemma runs_well_formed cs : forall s, well_formed s.2 -> well_formed (runs s cs).2.
Proof. induction cs as [|c cs IH]; intros s Hs; [done|]. by apply IH, run_well_formed. Qed.

Lemma no_activity_well_formed : well_formed no_activity.
Proof. split; by constructor. Qed.

Lemma one_of_source t i e : well_formed t -> e ∈ rows t -> e_Source e = Some i ->
  filter (fun e => e_Source e = Some i) (rows t) = [e].
Proof.
  intros [_ _ Hd] He Hi. induction (rows t) as [|x l IH]; [by apply not_elem_of_nil in He|].
  cbn in Hd. rewrite filter_cons. apply elem_of_cons in He as [<-|He].
  - rewrite Hi in Hd. apply NoDup_cons in Hd as [Hn _]. rewrite decide_True by done. f_equal. apply filter_none.
    intros y Hy Hyi. apply Hn, list_elem_of_omap. by exists y.
  - destruct (e_Source x) as [j|] eqn:Hj; [|rewrite decide_False by congruence; by apply IH].
    apply NoDup_cons in Hd as [Hn Hd]. rewrite decide_False; [by apply IH|]. intros [= ->]. apply Hn, list_elem_of_omap. by exists e.
Qed.

(** C24: An event of a source is one row of the activity log, however often it is
    delivered and logged, and whatever the database does to the statements. After
    any history of logging, status changes, cleaning and clearing, a call that
    answers with a number for an event with a source leaves exactly one row of that
    source, which has that number, and no other row has it; if the event was
    logged before and its row is still there, no row changes, so its status is not
    reset, and otherwise one row with the status of the call is added at the end. *)
Theorem logged_once fs cs ts op c d rk ev st i id s' :
  let s := runs (fs, no_activity) cs in
  LogActivityWithStatus jsonb ts op c d rk ev st (Some i) s = (Ok id, s') ->
  exists e, filter (fun e => e_Source e = Some i) (rows s'.2) = [e] /\ e_ID e = id /\
    (forall e', e' ∈ rows s'.2 -> e_ID e' = id -> e' = e) /\
    if decide (Some i ∈ e_Source <$> rows s.2) then rows s'.2 = rows s.2
    else rows s'.2 = rows s.2 ++ [e] /\ e_Status e = st.
Proof.
  intros s Hl. assert (well_formed s.2) as Hs by (by apply runs_well_formed, no_activity_well_formed).
  apply stmt_Ok in Hl. pose proof (well_formed_log _ _ _ _ _ _ _ _ _ _ _ Hl Hs) as Hs'.
  pose proof (fun e => one_of_source s'.2 i e Hs') as Hone.
  assert (forall e, e ∈ rows s'.2 -> e_ID e = id -> forall e', e' ∈ rows s'.2 -> e_ID e' = id -> e' = e) as Hid.
  { intros e He Hi e' He' Hi'. eapply unique_key; [apply Hs'|done..|congruence]. }
  unfold log_row in Hl. destruct (jsonb _); [|done]. destruct (_ <? _); [done|].
  pose proof (find_source (Some i) (rows s.2)) as Hf. destruct (List.find _ _) as [e|] eqn:Hfe.
  - destruct Hf as (He & _ & Hi). injection Hl as Hide Hs1. exists e.
    assert (rows s'.2 = rows s.2) as Hr by (by rewrite <-Hs1). rewrite <-Hr in He. split_and!; [by apply Hone|done|by apply Hid|].
    rewrite decide_True; [done|]. rewrite <-Hi, <-Hr. by apply list_elem_of_fmap_2.
  - injection Hl as Hide Hs1. assert (exists e, rows s'.2 = rows s.2 ++ [e] /\ e_ID e = id /\ e_Source e = Some i /\ e_Status e = st) as (e & Hr & Hie & Hi & Hst).
    { eexists. rewrite <-Hs1. cbn. split; [reflexivity|]. by rewrite Hide. }
    assert (e ∈ rows s'.2) as He by (rewrite Hr; apply elem_of_app; right; by apply list_elem_of_singleton).
    exists e. split_and!; [by apply Hone|done|by apply Hid|]. rewrite decide_False; [done|].
    intros (x & Hx & Hin)%list_elem_of_fmap. apply (Hf i); [done|]. apply list_elem_of_omap. by exists x.
Qed.
End Rows.

(** ** One sweep *)

Module Sweep.
Import Worker.

Definition orphaned (e : ActivityEntry) : ActivityEntry :=
  with_status "orphaned" (Some (orphan_message orphanAfterMinutes)) (e_IsValid e) e.

(** What a statement on the rows leaves: done or not. *)
Lemma stmt_rows {A} (err : activity_error) (f : activity -> A) (g : activity -> activity) fs t :
  (stmt err (fun t => Some (f t, g t)) (fs, t)).2 =
  (tail fs, match default Works (head fs) with Fails => t | _ => g t end).
Proof. unfold stmt. by destruct (default Works (head fs)). Qed.

Definition effective (o : option fate) : bool := match default Works o with Fails => false | _ => true end.

(** A sweep of the activity log keeps every row that is younger than the
    retention of 168 hours and is not a pending row of more than 10 minutes, as it
    is; it makes no row but such pending rows with the status "orphaned"; when the
    first statement takes effect no row older than the retention is left; and,
    whatever becomes of the first, when the second one takes effect no pending row
    of more than 10 minutes is left. *)
Theorem cleanup_spec now fs t :
  let t' := (cleanup now (fs, t)).2.2 in
  (forall e, e ∈ rows t -> since now retentionHrs e = true -> stale now orphanAfterMinutes e = false -> e ∈ rows t') /\
  (forall e', e' ∈ rows t' -> exists e, e ∈ rows t /\
     (e' = e \/ e' = orphaned e /\ stale now orphanAfterMinutes e = true)) /\
  (effective (fs !! 0%nat) = true -> forall e, e ∈ rows t' -> since now retentionHrs e = true) /\
  (effective (fs !! 1%nat) = true -> forall e, e ∈ rows t' -> stale now orphanAfterMinutes e = false) /\
  nextID t' = nextID t.
Proof.
  assert (cleanup now (fs, t) = (Ok (), (tail (tail fs),
    let t1 := if effective (fs !! 0%nat) then on_rows (filter (fun e => since now retentionHrs e = true)) t else t in
    if effective (fs !! 1%nat) then on_rows (fmap (fun e => if stale now orphanAfterMinutes e then orphaned e else e)) t1 else t1))) as ->.
  { unfold cleanup, mbind, M_bind, ignore. cbn [fst snd]. unfold CleanupOldActivity, OrphanPendingActivity.
    rewrite (stmt_rows _ (fun _ => ())). rewrite (stmt_rows _ (fun t => Z.of_nat _)). unfold effective.
    destruct fs as [|f [|g fs]]; cbn; [done|by destruct f|by destruct f, g]. }
  cbn [fst snd]. set (t1 := if effective (fs !! 0%nat) then _ else t).
  assert (forall e, e ∈ rows t1 <-> e ∈ rows t /\ (effective (fs !! 0%nat) = true -> since now retentionHrs e = true)) as H1.
  { intros e. subst t1. destruct (effective (fs !! 0%nat)); cbn; [rewrite list_elem_of_filter|]; naive_solver. }
  assert (nextID t1 = nextID t) as Hn by (subst t1; by destruct (effective _)).
  destruct (effective (fs !! 1%nat)) eqn:E1; cbn [on_rows rows nextID]; cycle 1.
  { split_and!; [intros; by apply H1| |intros H0 e He; by apply H1|done|done]. intros e He%H1. exists e. split; [apply He|by left]. }
  assert (forall e, stale now orphanAfterMinutes (orphaned e) = false) as Ho by done.
  split_and!; [| | | |done].
  - intros e He Hs Hst. apply list_elem_of_fmap. exists e. rewrite Hst. split; [done|]. by apply H1.
  - intros e' (e & -> & He%H1)%list_elem_of_fmap. exists e. split; [apply He|]. destruct (stale _ _ e) eqn:Hst; [by right|by left].
  - intros H0 e' (e & -> & He%H1)%list_elem_of_fmap. destruct He as [_ He]. specialize (He H0). by destruct (stale _ _ e).
  - intros _ e' (e & -> & _)%list_elem_of_fmap. destruct (stale _ _ e) eqn:Hst; [by rewrite Ho|done].
Qed.
End Sweep.

(** ** Buckets *)

Definition total (l : list Z) : Z := foldr Z.add 0 l.

(** The sizes of the classes of a list add up to its length. *)
Lemma total_classes {A B} `{EqDecision B} (f : A -> B) (keys : list B) l : NoDup keys -> (forall x, x ∈ l -> f x ∈ keys) ->
  total ((fun k => Z.of_nat (length (filter (fun x => f x = k) l))) <$> keys) = Z.of_nat (length l).
Proof.
  intros Hd. induction l as [|x l IH]; intros Hin.
  - cbn. clear Hd Hin. induction keys as [|k keys IHk]; [done|exact IHk].
  - rewrite length_cons, Nat2Z.inj_succ, <-IH by (intros y Hy; apply Hin; by apply list_elem_of_further).
    assert (f x ∈ keys) as Hx by (apply Hin; apply list_elem_of_here). clear IH Hin.
    induction Hd as [|k keys Hk Hd IH]; [by apply not_elem_of_nil in Hx|].
    unfold total in *. cbn [fmap list_fmap foldr].
    rewrite filter_cons. destruct (decide (f x = k)) as [E|E].
    + assert (((fun k => Z.of_nat (length (filter (fun y => f y = k) (x :: l)))) <$> keys) =
              ((fun k => Z.of_nat (length (filter (fun y => f y = k) l))) <$> keys)) as ->.
      { apply list_fmap_ext. intros i k' Hk'. rewrite filter_cons, decide_False; [done|]. rewrite E.
        intros <-. apply Hk. by eapply list_elem_of_lookup_2. }
      rewrite length_cons. lia.
    + apply elem_of_cons in Hx as [Hx|Hx]; [done|]. specialize (IH Hx). lia.
Qed.

(** Disjoint conditions hold of no more rows than there are. *)
Lemma count_ops l : 0 <= count (of_op "create") l /\ 0 <= count (of_op "update") l /\ 0 <= count (of_op "delete") l /\
  count (of_op "create") l + count (of_op "update") l + count (of_op "delete") l <= Z.of_nat (length l).
Proof.
  unfold count. induction l as [|e l IH]; [done|]. rewrite !filter_cons, length_cons.
  assert (forall op, of_op op e = true -> e_Operation e = op) as Hop by (intros op; apply String.eqb_eq).
  repeat case_decide; rewrite ?length_cons; try lia; exfalso;
    repeat match goal with H : of_op _ e = true |- _ => apply Hop in H end; congruence.
Qed.

Section Buckets.
Context (zone now hours minutes : Z).
Context (Hminutes : 0 < minutes).

Lemma bucket_of_range t : bucket_of zone minutes t <= t < bucket_of zone minutes t + minutes * 60.
Proof.
  unfold bucket_of. set (u := t + zone). assert (u = 3600 * (u / 3600) + u mod 3600) by (apply Z.div_mod; lia).
  set (m := u mod 3600 / 60). assert (u mod 3600 = 60 * m + (u mod 3600) mod 60) by (apply Z.div_mod; lia).
  assert (0 <= (u mod 3600) mod 60 < 60) by (apply Z.mod_pos_bound; lia).
  assert (m = minutes * (m / minutes) + m mod minutes) by (apply Z.div_mod; lia).
  assert (0 <= m mod minutes < minutes) by (apply Z.mod_pos_bound; lia). nia.
Qed.
End Buckets.

(** The buckets of the activity chart are a partition of the rows of its time
    range: their times are in strictly ascending order and each bucket holds the
    rows from its time until before the length of a bucket later, no bucket is
    empty, the creates, updates and deletes of a bucket are no more than its total,
    and the totals add up to the number of rows since the start of the range. *)
Theorem buckets_partition zone now timeRange t :
  let '(hours, minutes) := bucket_range timeRange in
  let shown := filter (fun e => since now hours e = true) (rows t) in
  let bs := buildBucketQuery zone now hours minutes (rows t) in
  StronglySorted Z.lt (b_Timestamp <$> bs) /\
  (forall b, b ∈ bs -> 0 < b_Total b /\ b_Creates b + b_Updates b + b_Deletes b <= b_Total b) /\
  (forall e, e ∈ shown -> exists b, b ∈ bs /\ b_Timestamp b <= e_Timestamp e < b_Timestamp b + minutes * 60) /\
  total (b_Total <$> bs) = Z.of_nat (length shown).
Proof.
  destruct (bucket_range timeRange) as [hours minutes] eqn:Hr. intros shown bs.
  assert (0 < minutes) as Hm.
  { revert Hr. unfold bucket_range. repeat case_match; by intros [= <- <-]. }
  set (key := fun e => bucket_of zone minutes (e_Timestamp e)). set (keys := merge_sort Z.le (remove_dups (key <$> shown))).
  assert (bs = bucket zone minutes shown <$> keys) as Hbs by done.
  assert (keys ≡ₚ remove_dups (key <$> shown)) as Hp by apply merge_sort_Permutation.
  assert (NoDup keys) as Hd by (rewrite Hp; apply NoDup_remove_dups).
  assert (forall k, k ∈ keys <-> exists e, e ∈ shown /\ key e = k) as Hk.
  { intros k. rewrite Hp, elem_of_remove_dups, list_elem_of_fmap. naive_solver. }
  clearbody bs. subst bs. rewrite <-!list_fmap_compose. split_and!.
  - assert (b_Timestamp ∘ bucket zone minutes shown <$> keys = keys) as ->.
    { rewrite <-(list_fmap_id keys) at 2. by apply list_fmap_ext. }
    pose proof (StronglySorted_merge_sort Z.le (remove_dups (key <$> shown))) as Hs. fold keys in Hs. clear -Hs Hd.
    induction Hs as [|k l Hs IH Hk]; [constructor|]. apply NoDup_cons in Hd as [Hn Hd]. constructor; [by apply IH|].
    rewrite Forall_forall in *. intros k' Hk'. specialize (Hk k' Hk'). enough (k <> k') by lia. by intros <-.
  - intros b (k & -> & (e & He & <-)%Hk)%list_elem_of_fmap. cbn. split.
    + assert (e ∈ filter (fun x => key x = key e) shown) as Hin by (by apply list_elem_of_filter).
      apply (inj_lt 0). change (0 < length (filter (fun x => key x = key e) shown))%nat.
      destruct (filter _ shown); [by apply not_elem_of_nil in Hin|cbn; lia].
    + apply count_ops.
  - intros e He. exists (bucket zone minutes shown (key e)). split.
    + apply list_elem_of_fmap_2, Hk. by exists e.
    + by apply bucket_of_range.
  - apply total_classes; [done|]. intros e He. apply Hk. by exists e.
Qed.

(** ** The report on validation *)

Lemma latest_spec l : match latest l with
  | None => l = []
  | Some t => (exists e, e ∈ l /\ e_Timestamp e = t) /\ forall e, e ∈ l -> e_Timestamp e <= t
  end.
Proof.
  induction l as [|e l IH]; [done|]. cbn [latest foldr]. fold (latest l). destruct (latest l) as [t|].
  - destruct IH as [(x & Hx & Ht) Hall]. split.
    + destruct (Z.max_spec (e_Timestamp e) t) as [[_ ->]|[_ ->]]; [exists x|exists e]; split; [by apply list_elem_of_further|done|apply list_elem_of_here|done].
    + intros y [->|Hy]%elem_of_cons; [lia|]. specialize (Hall y Hy). lia.
  - subst l. split; [exists e; by split; [apply list_elem_of_here|]|]. by intros y ->%list_elem_of_singleton.
Qed.

Lemma total_Permutation l k : l ≡ₚ k -> total l = total k.
Proof. unfold total. induction 1; cbn [foldr]; lia. Qed.
Lemma total_take n l : Forall (fun z => 0 <= z) l -> total (take n l) <= total l.
Proof.
  unfold total. intros Hl. revert n. induction Hl as [|z l Hz Hl IH]; intros [|n]; cbn [take foldr]; [lia..| |specialize (IH n); lia].
  specialize (IH 0%nat). rewrite take_0 in IH. cbn [foldr] in IH. lia.
Qed.

Lemma by_collection_total l : total (by_collection l).*2 = Z.of_nat (length l).
Proof.
  unfold by_collection. rewrite <-list_fmap_compose.
  rewrite <-(total_classes e_Collection (remove_dups (e_Collection <$> l)) l); [|apply NoDup_remove_dups|].
  - f_equal. apply list_fmap_ext. intros i c _. cbn. unfold count. do 2 f_equal. apply list_filter_iff. intros e. by rewrite String.eqb_eq.
  - intros e He. by apply elem_of_remove_dups, list_elem_of_fmap_2.
Qed.

(** The validation report counts the rows of its time range that were found
    invalid: the count is their number, the last instant is that of the latest
    of them and is missing exactly when there is none; each of at most ten collections is listed with the
    number of its invalid rows, these add up to no more than the count, and to the
    count when there are at most ten collections; the recent ones are at most
    twenty rows that were found invalid. *)
Theorem validation_report newest largest now timeRange t : (forall l, newest l ≡ₚ l) -> (forall l, largest l ≡ₚ l) ->
  let bad := filter (fun e => invalid e && since now (stats_hours timeRange) e = true) (rows t) in
  exists stats recent, ValidationReport newest largest now timeRange ([], t) = (Ok (stats, recent), ([], t)) /\
    InvalidCount stats = Z.of_nat (length bad) /\
    match LastInvalidAt stats with
    | None => bad = []
    | Some l => (exists e, e ∈ bad /\ e_Timestamp e = l) /\ forall e, e ∈ bad -> e_Timestamp e <= l
    end /\
    (forall c n, (c, n) ∈ InvalidByCollection stats -> n = Z.of_nat (length (filter (fun e => e_Collection e = c) bad))) /\
    (length (InvalidByCollection stats) <= 10)%nat /\ total (InvalidByCollection stats).*2 <= InvalidCount stats /\
    ((length (remove_dups (e_Collection <$> bad)) <= 10)%nat -> total (InvalidByCollection stats).*2 = InvalidCount stats) /\
    (length recent <= 20)%nat /\ (forall e, e ∈ recent -> e ∈ rows t /\ e_IsValid e = Some false).
Proof.
  intros Hn Hl bad. eexists _, _. split; [reflexivity|]. cbn [InvalidCount LastInvalidAt InvalidByCollection fst snd]. fold bad.
  assert (total (largest (by_collection bad)).*2 = Z.of_nat (length bad)) as Ht.
  { rewrite <-by_collection_total. apply total_Permutation. by rewrite Hl. }
  split_and!.
  - done.
  - apply latest_spec.
  - intros c n (i & Hc & _)%elem_of_take. apply list_elem_of_lookup_2 in Hc. rewrite Hl in Hc.
    apply list_elem_of_fmap in Hc as (c' & [= <- ->] & _). unfold count. do 2 f_equal. apply list_filter_iff. intros e. apply String.eqb_eq.
  - rewrite length_take. lia.
  - rewrite fmap_take, <-Ht. apply total_take. rewrite Hl. apply Forall_fmap, Forall_fmap, Forall_forall. intros c _. cbn. unfold count. lia.
  - intros H10. rewrite take_ge; [done|]. rewrite Hl. unfold by_collection. by rewrite length_fmap.
  - rewrite length_take. lia.
  - intros e (i & He & _)%elem_of_take. apply list_elem_of_lookup_2 in He. rewrite Hn in He.
    apply list_elem_of_filter in He as [Hi He]. by apply bool_decide_eq_true in Hi.
Qed.

(** ** The worker sweeps when it starts, and then no more *)

Module Worker_facts.
Import Worker.

Definition sweeps (l : list wevent) : nat := length (List.filter (fun e => match e with Scheduled _ => true | _ => false end) l).

Lemma tick_stopped now w : next w = None -> tick now w = w.
Proof. unfold tick. by intros ->. Qed.

(** No ticks come from a stopped ticker. *)
Lemma steps_stopped w s l st : steps (w, s) l st -> next w = None ->
  (sweeps l <= if channel w then 1 else 0)%nat /\ (sweeps l = 0%nat -> st.2 = s).
Proof.
  remember (w, s) as st0 eqn:H0. intros Hs. revert w s H0.
  induction Hs as [st0|st0 e st1 l st2 Hst _ IH]; intros w s -> Hw; [split; [cbn; lia|done]|].
  inversion Hst; subst.
  - rewrite tick_stopped in IH by done. by destruct (IH w s eq_refl Hw).
  - destruct (IH _ _ eq_refl Hw) as [IHn _]. cbn in IHn. rewrite H4. unfold sweeps in *. cbn. split; [lia|done].
  - by destruct (IH _ _ eq_refl Hw).
  - by destruct (IH _ _ eq_refl Hw).
  - by destruct (IH _ _ eq_refl Hw).
Qed.

(** The clean-up worker of the activity log, which is to sweep every hour, sweeps
    once: its ticker is stopped when [Start] returns, so when [Start] takes less
    than an hour, whatever time passes afterwards and whether the worker is
    stopped or not, the loop never gets a tick and the log is what the sweep of
    the start left. *)
Theorem worker_sweeps_once now returned s l w' s' : returned < now + interval ->
  steps (Start now returned s) l (w', s') -> sweeps l = 0%nat /\ s' = (cleanup now s).2.
Proof.
  intros Hr Hs. apply steps_stopped in Hs as [Hn Hs]; [|done].
  replace (channel _) with false in Hn; [split; [lia|apply Hs; lia]|].
  unfold tick. cbn. by destruct (Z.leb_spec (now + interval) returned); [lia|].
Qed.
End Worker_facts.

(** ** The log from the records has each of them *)

Section Populated.
Context (jsonb : string -> option string) (parse : string -> string -> option instant) (unmarshal : string -> option obj)
  (before : relation string) `{!RelDecision before, !StrictOrder before, !Trichotomy before}.

(** What an entry shows of a record. *)
Definition shown (e : ActivityEntry) : Z * string * string * string * option string * string * option bool :=
  (e_Timestamp e, e_Operation e, e_Collection e, e_DID e, e_RKey e, e_Status e, e_IsValid e).
Definition shows (fallback : string * row -> instant) (rec : string * row) :=
  (ExtractCreatedAt parse unmarshal (w_json rec.2) (fallback rec) / 1000000000, "create", w_collection rec.2,
   w_did rec.2, Some (record_rkey rec.1), "success", None (A := bool)).

Lemma log_records fallback recs : forall t n, Forall (fun rec => is_Some (jsonb (event_json (w_json rec.2)))) recs ->
  nextID t + Z.of_nat (length recs) <= max_serial + 1 -> exists t',
  foldl (fun s rec => (log_record jsonb parse unmarshal fallback s rec).1) (([], t), n) recs =
    (([], t'), n + Z.of_nat (length recs)) /\
  shown <$> rows t' = (shown <$> rows t) ++ (shows fallback <$> recs) /\ nextID t' = nextID t + Z.of_nat (length recs).
Proof.
  induction recs as [|rec recs IH]; intros t n Hj Hm; cbn [foldl].
  - exists t. rewrite app_nil_r, !Z.add_0_r. done.
  - apply Forall_cons in Hj as [[ev Hev] Hj]. rewrite length_cons in *.
    assert (exists t1, (log_record jsonb parse unmarshal fallback (([], t), n) rec).1 = (([], t1), n + 1) /\
      shown <$> rows t1 = (shown <$> rows t) ++ [shows fallback rec] /\ nextID t1 = nextID t + 1) as (t1 & -> & Hr1 & Hn1).
    { unfold log_record, LogActivityWithStatus, stmt, log_row. cbn [fst snd head tail default]. rewrite Hev.
      destruct (Z.ltb_spec max_serial (nextID t)) as [?|_]; [lia|].
      replace (List.find (has_source None) (rows t)) with (None (A := ActivityEntry))
        by (clear; induction (rows t) as [|e l IHl]; [done|exact IHl]).
      eexists. cbn. split_and!; [done| |done]. cbn. by rewrite fmap_app. }
    destruct (IH t1 (n + 1) Hj) as (t' & -> & Hr & Hn); [lia|]. exists t'. split_and!; [f_equal; lia| |lia].
    by rewrite Hr, Hr1, <-app_assoc.
Qed.

(** Populating the activity log from the records replaces the log. When the
    database does what it is asked and the numbers of the rows do not run out, the
    call ends, for every number of records and while others write records; the log
    then has exactly the entries of the records it visited, in the order of their
    URIs and each once, as successful creations at the time in the record, with no
    validation result, and the answer is their number; a record that is there
    throughout is among them. *)
Theorem populate_complete look now t (U : gset string) :
  "" ∉ U -> (forall i, exists t, look i = Some t /\ dom t ⊆ U) ->
  (forall i t u w, look i = Some t -> t !! u = Some w -> is_Some (jsonb (event_json (w_json w)))) ->
  nextID t + Z.of_nat (size U) <= max_serial + 1 ->
  exists visited t',
    PopulateActivity jsonb parse unmarshal before (S (size U)) look now ([], t) =
      Some (Z.of_nat (length visited), None, ([], t')) /\
    shown <$> rows t' = shows (fun rec => now rec.1) <$> visited /\ NoDup visited.*1 /\
    Forall (fun rec => exists i t, look i = Some t /\ t !! rec.1 = Some rec.2) visited /\
    (forall u, (forall i t, look i = Some t -> is_Some (t !! u)) -> u ∈ visited.*1).
Proof.
  intros HU Hlook Hj Hm. unfold PopulateActivity, populateActivityFromRecords. cbn [DeleteAll stmt head tail default].
  set (fallback := fun rec : string * row => now rec.1).
  set (t0 := on_rows (fun _ => []) t).
  destruct (IterateAll_complete before (log_record jsonb parse unmarshal fallback) look 1000 (([], t0), 0) U)
    as (visited & err & Heq & Hs & Hv & Hall); [done..| |].
  { intros i ti Hi. destruct (Hlook i) as (ti' & Hi' & Hd). rewrite Hi in Hi'. by injection Hi' as ->. }
  destruct Hall as [-> Hall]; [intros i; destruct (Hlook i) as (ti & -> & _); by eexists|].
  assert (NoDup visited.*1) as Hd.
  { clear -Hs StrictOrder0. induction Hs as [|u l Hs IH Hu]; constructor; [|done]. intros Hin. rewrite Forall_forall in Hu. by apply (irreflexivity before u), Hu. }
  assert (length visited <= size U)%nat as Hlen.
  { rewrite <-(length_fmap fst). rewrite <-(size_list_to_set (C := gset string) visited.*1) by done. apply subseteq_size. intros u Hu%elem_of_list_to_set.
    apply list_elem_of_fmap in Hu as ([u' w] & -> & Hw). rewrite Forall_forall in Hv. destruct (Hv _ Hw) as (i & ti & Hi & Hu).
    destruct (Hlook i) as (ti' & Hi' & Hsub). rewrite Hi in Hi'. injection Hi' as <-. apply Hsub, elem_of_dom. by eexists. }
  destruct (log_records fallback visited t0 0) as (t' & Hf & Hr & _).
  { eapply Forall_impl; [exact Hv|]. intros rec (i & ti & Hi & Hw). by eapply Hj. }
  { cbn. lia. }
  exists visited, t'. split_and!; [|done..]. change (DeleteAll ([], t)) with (Ok (E := activity_error) (), ([] : list fate, t0)). cbn iota beta.
  fold fallback. by rewrite Heq, Hf.
Qed.
End Populated.

(** ** Examples *)

Module Example_activity.
Import Worker Worker_facts RecordStore.Example_store.
#[local] Existing Instances before_dec before_strict before_trichotomy.

Definition all_json : string -> option string := Some.
(** 2023-11-14, in seconds and at a full hour. *)
Definition noon : Z := 1700000000 - 1700000000 mod 3600.
Definition ns (s : Z) : Z := s * 1000000000.
Definition log (t : Z) (source : option Z) : call := Log (ns t) "create" "app.post" "did:plc:a" "1" "{}" "pending" source.

(** A redelivered event finds the row of the first delivery, which stays settled. *)
Lemma logged_once_witness :
  let s := runs all_json ([], no_activity) [log noon (Some 7); Update 1 "success" None None] in
  exists e, filter (fun e => e_Source e = Some 7)
      (rows (LogActivityWithStatus all_json (ns noon) "create" "app.post" "did:plc:a" "1" "{}" "pending" (Some 7) s).2.2) = [e] /\
    e_ID e = 1.
Proof.
  intros s. destruct (logged_once all_json [] [log noon (Some 7); Update 1 "success" None None] (ns noon) "create" "app.post"
    "did:plc:a" "1" "{}" "pending" 7 1
    (LogActivityWithStatus all_json (ns noon) "create" "app.post" "did:plc:a" "1" "{}" "pending" (Some 7) s).2)
    as (e & Hr & Hi & _ & _); [by vm_compute|]. exists e. split; [exact Hr|exact Hi].
Defined.
Example redelivered_settled :
  e_Status <$> rows (runs all_json ([], no_activity)
    [log noon (Some 7); Update 1 "success" None None; log noon (Some 7)]).2 = ["success"].
Proof. by vm_compute. Qed.

(** Each delivery takes a number, and when they run out nothing more is logged, not
    even the number of a row that is there. *)
Example numbers_run_out : let t := {| rows := rows (runs all_json ([], no_activity) [log noon (Some 7)]).2; nextID := max_serial |} in
  exists t', (LogActivity all_json (ns noon) "create" "app.post" "did:plc:a" "1" "{}" (Some 7) ([], t)) = (Ok 1, ([], t')) /\
    (LogActivity all_json (ns noon) "create" "app.post" "did:plc:a" "1" "{}" (Some 7) ([], t')).1 = Err ELog.
Proof. eexists. split; by vm_compute. Qed.

(** An event that is replayed an hour after it happened is logged with the time of the
    event, so a sweep at once takes it for one that was left pending. *)
Example replayed_orphaned :
  e_Status <$> rows (cleanup (us (noon + 3600)) (runs all_json ([], no_activity) [log noon (Some 7)])).2.2 = ["orphaned"].
Proof. by vm_compute. Qed.

(** The chart of seven days asks for buckets of a day and gets buckets of an hour. *)
Example seven_days_hourly : bucket_range "SEVEN_DAYS" = (168, 24 * 60) /\
  (fun b => (b_Timestamp b, b_Total b)) <$> buildBucketQuery 0 (us (noon + 7200)) 168 1440
    (rows (runs all_json ([], no_activity) [log noon None; log (noon + 60) None; log (noon + 3600) None]).2)
  = [(noon, 2); (noon + 3600, 1)].
Proof. split; by vm_compute. Qed.

Lemma validation_report_witness :
  let t := (runs all_json ([], no_activity) [log noon (Some 7); Update 1 "success" None (Some false)]).2 in
  exists stats recent, ValidationReport (fun l => l) (fun l => l) (us noon) "ONE_DAY" ([], t) = (Ok (stats, recent), ([], t)) /\
    InvalidCount stats = 1.
Proof.
  intros t. destruct (validation_report (fun l => l) (fun l => l) (us noon) "ONE_DAY" t) as (stats & recent & Hv & Hc & _); [done..|].
  exists stats, recent. split; [exact Hv|]. rewrite Hc. by vm_compute.
Defined.

(** A year after the start, with a clock that is looked at every hour, the log is as
    the sweep of the start left it: a row of the hour of the start is still there. *)
Lemma worker_sweeps_once_witness : let s := runs all_json ([], no_activity) [log noon (Some 7); Update 1 "success" None None] in
  let st := Start (us noon) (us (noon + 1)) s in
  sweeps [Clock (us (noon + 31536000))] = 0%nat /\ st.2 = (cleanup (us noon) s).2.
Proof.
  intros s st. apply (worker_sweeps_once (us noon) (us (noon + 1)) s _ (tick (us (noon + 31536000)) st.1) st.2); [done|].
  eapply steps_trans; [|apply steps_refl]. unfold st. cbn [fst snd Start]. apply step_clock.
Defined.

(** What [Start] would leave with the ticker running. *)
Definition unstopped (now : Z) (s : list fate * activity) : state :=
  ({| next := Some (now + interval); channel := false; looping := true; stop := false; done := false |}, (cleanup now s).2).
Example unstopped_sweeps s now : exists st, steps (unstopped now s) [Clock (now + interval); Scheduled (now + interval)] st /\
  st.2 = (cleanup (now + interval) (cleanup now s).2).2.
Proof.
  eexists. split; [|shelve]. eapply steps_trans; [apply step_clock|]. eapply steps_trans; [|apply steps_refl].
  unfold tick. cbn [next]. rewrite Z.leb_refl. by apply step_scheduled.
  Unshelve. done.
Qed.

Lemma populate_complete_witness : exists (visited : list (string * row)) t',
  PopulateActivity all_json (fun _ _ => None) (fun _ => None) before (S (size (dom index))) (fun _ => Some index) (fun _ => ns noon)
    ([], no_activity) = Some (Z.of_nat (length visited), None, ([], t')) /\ "at://a/2" ∈ visited.*1.
Proof.
  destruct (populate_complete all_json (fun _ _ => None) (fun _ => None) before (fun _ => Some index) (fun _ => ns noon) no_activity
    (dom index)) as (visited & t' & Hp & _ & _ & _ & Hall).
  - apply not_elem_of_dom. reflexivity.
  - intros i. by exists index.
  - intros i t u w _ _. by eexists.
  - by vm_compute.
  - exists visited, t'. split; [exact Hp|]. apply Hall. intros i t [= <-]. eexists. reflexivity.
Defined.

(** The entries from the records forget that one was not valid. *)
Example populate_forgets : let s := runs all_json ([], no_activity) [log noon (Some 7); Update 1 "success" None (Some false)] in
  InvalidCount <$> (match (GetValidationStats (fun l => l) (us noon) "ONE_DAY" s).1 with Ok r => Some r | Err _ => None end) = Some 1 /\
  (r ← PopulateActivity all_json (fun _ _ => None) (fun _ => None) before 4 (fun _ => Some index) (fun _ => ns noon) s;
   match (GetValidationStats (fun l => l) (us noon) "ONE_DAY" r.2).1 with Ok r => Some (InvalidCount r) | Err _ => None end) = Some 0.
Proof. split; by vm_compute. Qed.
End Example_activity.
