(* ===== verification/LabelStream.v ===== *)
(** The live subscription to a labeler: the client of
    [internal/labeler/client.go] that reads the frames of one connection, and the
    loop of [Consumer.Start] and [runOnce] ([internal/labeler/consumer.go]) with
    the goroutines of every connection, which outlive it. *)
From S2P Require Import Bridge.
From S2P Require Import Prelude GoStrings ConfigStore Reconnect Labeler Backfill.

Local Open Scope Z_scope.

(** ** The client *)

Module Client.
Record frameHeader := { Op : Z; T : string }.
Record infoBody := { Name : string; Message : string }.
Record errorBody := { Error : string; error_message : string }.

(** [cbor.UnmarshalFirst] and [cbor.Unmarshal]; [None] is an error. *)
Class Cbor := {
  UnmarshalFirst : string -> option (frameHeader * string);
  decodeLabelsBody : string -> option LabelMessage;
  decodeInfoBody : string -> option infoBody;
  decodeErrorBody : string -> option errorBody
}.

Inductive run_error :=
| ECtx | ENotConnected | EDeadline (e : string) | ERead (e : string) | EOutdatedCursor
| ELabeler (error message : string) | EUnrecoverable.

(** A turn of the reading loop: the context or the client was found done, the read
    failed, or a message came; and what happens when its labels are handed on. *)
Inductive send_end := Sent | CancelledAtSend | ChannelClosed.
Inductive turn :=
| Cancelled | StopSeen | NoDeadline (e : string) | ReadFails (normal : bool) (e : string)
| Reads (binary : bool) (message : string) (send : send_end).

(** [Run] returns, maybe with an error, or panics in a send on a closed channel. *)
Inductive run_end := Returned (e : option run_error) | Panicked.

Section Run.
Context `{Cbor}.

Definition decodeFrame (msg : string) : option (frameHeader * string) :=
  if is_empty msg then None else UnmarshalFirst msg.

(** What one message makes the loop do: nothing, hand on labels, or return. *)
Inductive reaction := Skip | Deliver (m : LabelMessage) | Return (e : run_error).
Definition react (message : string) : reaction :=
  match decodeFrame message with
  | None => Skip
  | Some (hdr, body) =>
      if (Op hdr =? 1) && String.eqb (T hdr) "#labels" then
        if is_empty body then Skip
        else match decodeLabelsBody body with None => Skip | Some lb => Deliver lb end
      else if (Op hdr =? 1) && String.eqb (T hdr) "#info" then
        match decodeInfoBody body with
        | None => Skip
        | Some ib => if String.eqb (Name ib) "OutdatedCursor" then Return EOutdatedCursor else Skip
        end
      else if Op hdr =? -1 then
        match decodeErrorBody body with
        | Some eb => Return (ELabeler (Error eb) (error_message eb))
        | None => Return EUnrecoverable
        end
      else Skip
  end.

(** The messages delivered, and the end; none while the loop goes on. *)
Fixpoint run (ts : list turn) : list LabelMessage * option run_end :=
  match ts with
  | [] => ([], None)
  | t :: ts =>
      match t with
      | Cancelled => ([], Some (Returned (Some ECtx)))
      | StopSeen => ([], Some (Returned None))
      | NoDeadline e => ([], Some (Returned (Some (EDeadline e))))
      | ReadFails normal e => ([], Some (Returned (if normal then None else Some (ERead e))))
      | Reads binary message send =>
          if negb binary then run ts
          else match react message with
               | Skip => run ts
               | Return e => ([], Some (Returned (Some e)))
               | Deliver m =>
                   match send with
                   | Sent => let r := run ts in (m :: r.1, r.2)
                   | CancelledAtSend => ([], Some (Returned (Some ECtx)))
                   | ChannelClosed => ([], Some Panicked)
                   end
               end
      end
  end.
Definition Run (connected : bool) (ts : list turn) : list LabelMessage * option run_end :=
  if connected then run ts else ([], Some (Returned (Some ENotConnected))).
End Run.

(** [buildURL]: a URL of [url.Parse] as far as it is looked at; its other parts are
    [url_rest]. *)
Record url := { Scheme : string; Path : string; Query : gmap string (list string); url_rest : string }.
Inductive url_error := EEmptyHost | EParse | EScheme (s : string).

Definition buildURL (Parse : string -> option url) (PDSHost : string) (Cursor : Z) : result url_error url :=
  if is_empty PDSHost then Err EEmptyHost
  else match Parse PDSHost with
  | None => Err EParse
  | Some u =>
      scheme ← (if String.eqb (Scheme u) "http" then Ok "ws"
                else if String.eqb (Scheme u) "https" || is_empty (Scheme u) then Ok "wss"
                else if String.eqb (Scheme u) "ws" || String.eqb (Scheme u) "wss" then Ok (Scheme u)
                else Err (EScheme (Scheme u)));
      Ok {| Scheme := scheme; Path := "/xrpc/com.atproto.label.subscribeLabels";
            Query := if 0 <? Cursor then <["cursor" := [itoa Cursor]]> (Query u) else Query u;
            url_rest := url_rest u |}
  end.
End Client.

(** The host of a labeler: the first service for labels, else the one for records. *)
Inductive host_error := EResolve (e : Bridge.did_error) | ENoEndpoint.
Definition resolveLabelerHost (resolved : result Bridge.did_error Bridge.DIDDocument) : result host_error string :=
  match resolved with
  | Err e => Err (EResolve e)
  | Ok doc =>
      if negb (is_empty (Bridge.GetLabelerEndpoint doc)) then Ok (Bridge.GetLabelerEndpoint doc)
      else if negb (is_empty (Bridge.GetPDSEndpoint doc)) then Ok (Bridge.GetPDSEndpoint doc)
      else Err ENoEndpoint
  end.

(** ** The delays of [Start] *)

(** A turn of the loop, as in [Reconnect.Backoff]. *)
Import Backoff.
Fixpoint start_delays (backoff : Z) (script : list attempt) : list Z * bool :=
  match script with
  | [] => ([], false)
  | a :: rest =>
      if stopped a then ([], true)
      else
        let backoff := if 30 * second <? uptime a then second else backoff in
        if stopped_waiting a then ([backoff], true)
        else
          let next := wrap64 (backoff * 2) in
          let next := if 120 * second <? next then 120 * second else next in
          let r := start_delays next rest in
          (backoff :: r.1, r.2)
  end.

(** The loop of the labeler consumer, which is a copy, waits as the shared one of
    the other consumers does with its default options. *)
Theorem start_delays_shared script :
  start_delays second script = RunWithReconnect script {| MinBackoff := 0; MaxBackoff := 0; StableAfter := 0 |}.
Proof.
  unfold RunWithReconnect. change (MinBackoff (defaults _)) with second.
  enough (forall b, start_delays b script = reconnect (defaults {| MinBackoff := 0; MaxBackoff := 0; StableAfter := 0 |}) b script)
    as Hb by apply Hb.
  induction script as [|a script IH]; intros b; [done|]. cbn [start_delays reconnect]. by rewrite IH.
Qed.

(** ** Connections and their goroutines *)

Module Consumer.
Section Consumer.
Context `{TimeParser} (labelerDID : string) (skipBackfill disableCursor : bool).

(** The flusher of a connection: between ticks, with a cursor it read for a tick, with
    a cursor it read for the last write, or gone. *)
Inductive flusher := Idle (lastFlushed : Z) | Ticking (read lastFlushed : Z) | Last (read : Z) | Gone.

(** A connection: the frames received, those handled with whether something was stored, the frames
    in the channel, whether [processEvents] runs, whether [Run] has returned
    ([genDone] and the channel are closed), and the flusher. *)
Record gen := {
  received : list LabelMessage; handled : list (LabelMessage * bool); queue : list LabelMessage; draining : bool; over : bool; flush : flusher
}.

(** Where the loop of [Start] is. *)
Inductive phase :=
| Checking (again : bool)    (** before [backfillIfNeeded] loads the cursor, at the start or in a recovery *)
| Backfilling (again : bool) (** it found none *)
| Waiting | Loading          (** the backoff; before [runOnce] loads the cursor *)
| Dialing (loaded : Z) | Up  (** [Run] reads frames *)
| Ended (outdated : bool)    (** [runOnce] has returned *)
| Clearing | ClearingBackfill
| Flushing | FlushingAs (read : Z) | Finished.

Record world := {
  consumer : Labeler.Consumer; config : store; gens : list gen; main : phase; cancelled : bool;
  connects : list Z; (* the cursors that connections asked to resume from *)
  backfills : list (nat * string) (* after how many of them a backfill ran, and from which page *)
}.
Definition start (s : store) : world :=
  {| consumer := NewConsumer; config := s; gens := []; main := Checking false; cancelled := false; connects := []; backfills := [] |}.

Definition at_phase (p : phase) (w : world) : world :=
  {| consumer := consumer w; config := config w; gens := gens w; main := p; cancelled := cancelled w;
     connects := connects w; backfills := backfills w |}.
Definition with_config (s : store) (w : world) : world :=
  {| consumer := consumer w; config := s; gens := gens w; main := main w; cancelled := cancelled w;
     connects := connects w; backfills := backfills w |}.
Definition with_consumer (c : Labeler.Consumer) (w : world) : world :=
  {| consumer := c; config := config w; gens := gens w; main := main w; cancelled := cancelled w;
     connects := connects w; backfills := backfills w |}.
Definition with_gens (l : list gen) (w : world) : world :=
  {| consumer := consumer w; config := config w; gens := l; main := main w; cancelled := cancelled w;
     connects := connects w; backfills := backfills w |}.
Definition set_gen (k : nat) (g : gen) (w : world) : world := with_gens (<[k := g]> (gens w)) w.

Definition new_gen : gen :=
  {| received := []; handled := []; queue := []; draining := true; over := false; flush := if disableCursor then Gone else Idle 0 |}.
Definition connected (loaded : Z) (w : world) : world :=
  {| consumer := consumer w; config := config w; gens := gens w ++ [new_gen]; main := Up; cancelled := cancelled w;
     connects := connects w ++ [loaded]; backfills := backfills w |}.
Definition set_flush (f : flusher) (g : gen) : gen :=
  {| received := received g; handled := handled g; queue := queue g; draining := draining g; over := over g; flush := f |}.

(** The consumer with its cursor back at zero and the recovery counted. *)
Definition outdated (c : Labeler.Consumer) : Labeler.Consumer :=
  let st := stats c in
  {| cursor := 0; known := known c;
     stats := {| EventsReceived := EventsReceived st; LabelsReceived := LabelsReceived st;
                 LabelsPersisted := LabelsPersisted st; LabelsRejected := LabelsRejected st;
                 AccountLevelSkipped := AccountLevelSkipped st; ReconnectAttempts := ReconnectAttempts st;
                 OutdatedCursors := OutdatedCursors st + 1; LastSeq := LastSeq st |} |}.
Definition reconnecting (c : Labeler.Consumer) : Labeler.Consumer :=
  let st := stats c in
  {| cursor := cursor c; known := known c;
     stats := {| EventsReceived := EventsReceived st; LabelsReceived := LabelsReceived st;
                 LabelsPersisted := LabelsPersisted st; LabelsRejected := LabelsRejected st;
                 AccountLevelSkipped := AccountLevelSkipped st; ReconnectAttempts := ReconnectAttempts st + 1;
                 OutdatedCursors := OutdatedCursors st; LastSeq := LastSeq st |} |}.

(** Into the first connection, or into the backoff. *)
Definition resume (again : bool) (w : world) : world :=
  if again then at_phase Waiting (with_consumer (reconnecting (consumer w)) w) else at_phase Loading w.

Definition load (w : world) : Z := default 0 (loadCursor labelerDID (config w)).
Definition backfilled (up : bool) (env : page -> page_env) (server : string -> result string page) (w : world) : world :=
  let '(c, s, _, _) := runBackfill labelerDID disableCursor up env server (consumer w) (config w) in
  {| consumer := c; config := s; gens := gens w; main := main w; cancelled := cancelled w; connects := connects w;
     backfills := backfills w ++ [(length (connects w), loadBackfillCursor labelerDID (config w))] |}.

(** A step in which the database takes writes or not. A backfill is one step: it
    writes the cursor only when it ends. *)
Inductive step (up : bool) : world -> world -> Prop :=
(** The loop. *)
| s_check again w : main w = Checking again ->
    step up w (if skipBackfill || disableCursor || negb (load w =? 0) then resume again w else at_phase (Backfilling again) w)
| s_backfill env server again w : main w = Backfilling again -> step up w (resume again (backfilled up env server w))
| s_load w : main w = Loading -> step up w (at_phase (Dialing (load w)) w)
| s_dial loaded w : main w = Dialing loaded -> step up w (connected loaded w)
| s_refused loaded w : main w = Dialing loaded -> step up w (at_phase (Ended false) w)
| s_receive k g m w : main w = Up -> S k = length (gens w) -> gens w !! k = Some g -> in_int64 (Seq m) ->
    step up w (set_gen k {| received := received g ++ [m]; handled := handled g; queue := queue g ++ [m]; draining := draining g; over := over g; flush := flush g |} w)
| s_return k g b w : main w = Up -> S k = length (gens w) -> gens w !! k = Some g ->
    step up w (at_phase (Ended b)
      (set_gen k {| received := received g; handled := handled g; queue := queue g; draining := draining g; over := true; flush := flush g |} w))
| s_outdated w : main w = Ended true -> cancelled w = false ->
    step up w (at_phase Clearing (with_consumer (outdated (consumer w)) w))
| s_clear w : main w = Clearing ->
    step up w (at_phase ClearingBackfill
      (match clearCursor labelerDID up (config w) with Ok s => with_config s w | Err _ => w end))
| s_clear_backfill w : main w = ClearingBackfill ->
    step up w (at_phase (Checking true) (with_config (clearBackfillCursor labelerDID up (config w)) w))
| s_lost w : main w = Ended false -> cancelled w = false -> step up w (resume true w)
| s_waited w : main w = Waiting -> step up w (at_phase Loading w)
| s_cancel w : step up w
    {| consumer := consumer w; config := config w; gens := gens w; main := main w; cancelled := true;
       connects := connects w; backfills := backfills w |}
| s_stop w b : cancelled w = true -> main w = Ended b \/ main w = Waiting -> step up w (at_phase Flushing w)
| s_flush w : main w = Flushing -> step up w (at_phase (FlushingAs (cursor (consumer w))) w)
| s_flushed v w : main w = FlushingAs v ->
    step up w (at_phase Finished (with_config (finalFlush labelerDID up (config w) v) w))
(** [processEvents] of a connection. *)
| s_handle env k g m q w : gens w !! k = Some g -> draining g = true -> queue g = m :: q ->
    step up w (with_consumer (handleLabelMessage env (consumer w) m).1
      (set_gen k {| received := received g; handled := handled g ++ [(m, accepts env (consumer w) m)]; queue := q; draining := true;
                    over := over g; flush := flush g |} w))
| s_drained k g w : gens w !! k = Some g -> cancelled w = true \/ over g = true /\ queue g = [] ->
    step up w (set_gen k {| received := received g; handled := handled g; queue := queue g; draining := false; over := over g; flush := flush g |} w)
(** The flusher of a connection. *)
| s_tick k g last w : gens w !! k = Some g -> flush g = Idle last -> last < cursor (consumer w) ->
    step up w (set_gen k (set_flush (Ticking (cursor (consumer w)) last) g) w)
| s_ticked k g v last w : gens w !! k = Some g -> flush g = Ticking v last ->
    step up w (let r := flush_tick labelerDID up (config w) v last in
               with_config r.1 (set_gen k (set_flush (Idle r.2) g) w))
| s_last k g last w : gens w !! k = Some g -> flush g = Idle last -> cancelled w = true \/ over g = true ->
    step up w (set_gen k (set_flush (Last (cursor (consumer w))) g) w)
| s_lasted k g v w : gens w !! k = Some g -> flush g = Last v ->
    step up w (with_config (finalFlush labelerDID up (config w) v) (set_gen k (set_flush Gone g) w)).

Definition any_step (w w' : world) : Prop := exists up, step up w w'.
End Consumer.
End Consumer.

(** ** What is stored is behind what was handled *)

Module Consumer_facts.
Import Consumer.
Section Facts.
Context `{TimeParser} (labelerDID : string) (skipBackfill disableCursor : bool).

(** The number of a frame that was handled and of which something was stored. *)
Definition acked (l : list gen) (v : Z) : Prop :=
  exists k g m, l !! k = Some g /\ (m, true) ∈ handled g /\ Seq m = v.

Lemma acked_insert l k g g' v : l !! k = Some g -> (forall x, x ∈ handled g -> x ∈ handled g') -> acked l v -> acked (<[k := g']> l) v.
Proof.
  intros Hk Hg (j & gj & m & Hj & Hm & Hv). destruct (decide (k = j)) as [<-|Hkj].
  - exists k, g', m. rewrite list_lookup_insert_eq by (by eapply lookup_lt_Some). split_and!; [done| |done].
    apply Hg. by replace g with gj by congruence.
  - exists j, gj, m. by rewrite list_lookup_insert_ne.
Qed.
Lemma acked_app l l' v : acked l v -> acked (l ++ l') v.
Proof. intros (k & g & m & Hk & Hm). exists k, g, m. split; [|done]. by apply lookup_app_l_Some. Qed.

Definition good (l : list gen) (v : Z) : Prop := v = 0 \/ acked l v.
(** What the table may hold: nothing, a number that is not positive, the number it
    had at the start, or one of a frame. *)
Definition stored_ok (s0 : store) (l : list gen) (s : store) : Prop :=
  forall v, loadCursor labelerDID s = Some v -> v <= 0 \/ loadCursor labelerDID s0 = Some v \/ acked l v.
Definition gen_ok (l : list gen) (g : gen) : Prop :=
  received g = (handled g).*1 ++ queue g /\ Forall (fun m => in_int64 (Seq m)) (received g) /\
  match flush g with Ticking v _ | Last v => good l v | _ => True end.
Definition main_ok (l : list gen) (p : phase) : Prop :=
  match p with FlushingAs v => good l v | _ => True end.

Record ok (s0 : store) (w : world) : Prop := {
  ok_cursor : good (gens w) (cursor (consumer w));
  ok_stored : stored_ok s0 (gens w) (config w);
  ok_gens : Forall (gen_ok (gens w)) (gens w);
  ok_main : main_ok (gens w) (main w)
}.

(** Frames are only added to those handled. *)
Lemma good_mono l l' v : (forall v, acked l v -> acked l' v) -> good l v -> good l' v.
Proof. intros Hl [->|Hv]; [by left|right; by apply Hl]. Qed.
Lemma stored_mono s0 l l' s : (forall v, acked l v -> acked l' v) -> stored_ok s0 l s -> stored_ok s0 l' s.
Proof. intros Hl Hs v Hv. destruct (Hs v Hv) as [?|[?|?]]; [by left|by right; left|right; right; by apply Hl]. Qed.
Lemma gen_mono l l' g : (forall v, acked l v -> acked l' v) -> gen_ok l g -> gen_ok l' g.
Proof. intros Hl (Hf & Hr & Hg). split_and!; [done..|]. destruct (flush g); [done|by eapply good_mono..|done]. Qed.
Lemma main_mono l l' p : (forall v, acked l v -> acked l' v) -> main_ok l p -> main_ok l' p.
Proof. intros Hl Hp. destruct p; try done. by eapply good_mono. Qed.

(** A connection changes: the others keep what they have. *)
Lemma ok_set_gen s0 k g g' w : ok s0 w -> gens w !! k = Some g -> (forall x, x ∈ handled g -> x ∈ handled g') ->
  gen_ok (<[k := g']> (gens w)) g' -> ok s0 (set_gen k g' w).
Proof.
  intros [Hc Hs Hg Hm] Hk Hsub Hok. pose proof (fun v => acked_insert (gens w) k g g' v Hk Hsub) as Hmono. split; cbn.
  - by eapply good_mono.
  - by eapply stored_mono.
  - apply Forall_insert; [|done]. eapply Forall_impl; [exact Hg|]. intros x. by apply gen_mono.
  - by eapply main_mono.
Qed.

Lemma ok_at_phase s0 p w : ok s0 w -> main_ok (gens w) p -> ok s0 (at_phase p w).
Proof. intros [Hc Hs Hg Hm] Hp. by split. Qed.
Lemma ok_with_consumer s0 c w : ok s0 w -> good (gens w) (cursor c) -> ok s0 (with_consumer c w).
Proof. intros [Hc Hs Hg Hm] Hp. by split. Qed.
Lemma ok_with_config s0 s w : ok s0 w -> stored_ok s0 (gens w) s -> ok s0 (with_config s w).
Proof. intros [Hc Hs Hg Hm] Hp. by split. Qed.
Lemma ok_resume s0 again w : ok s0 w -> ok s0 (resume again w).
Proof. intros Hw. unfold resume. destruct again; (apply ok_at_phase; [|done]); [|done]. apply ok_with_consumer; [done|]. apply Hw. Qed.

(** *** What the writes leave *)

Lemma keys_differ : cursorKey labelerDID <> backfillCursorKey labelerDID.
Proof. done. Qed.

Lemma load_other s k v : k <> cursorKey labelerDID -> loadCursor labelerDID (<[k := v]> s) = loadCursor labelerDID s.
Proof. intros Hk. unfold loadCursor, Get. by rewrite lookup_insert_ne. Qed.
Lemma load_delete s : loadCursor labelerDID (delete (cursorKey labelerDID) s) = None.
Proof. unfold loadCursor, Get. by rewrite lookup_delete_eq. Qed.
Lemma load_clear_backfill up s : loadCursor labelerDID (clearBackfillCursor labelerDID up s) = loadCursor labelerDID s.
Proof. unfold clearBackfillCursor, Delete, loadCursor, Get. destruct up; [|done]. by rewrite lookup_delete_ne. Qed.

Lemma load_saved up s s' v : saveCursor labelerDID up s v = Ok s' -> in_int64 v -> loadCursor labelerDID s' = Some v.
Proof. intros Hs Hv. by eapply load_save. Qed.

Lemma stored_saved s0 l up s s' v : saveCursor labelerDID up s v = Ok s' -> in_int64 v -> v <= 0 \/ acked l v -> stored_ok s0 l s'.
Proof. intros Hs Hr Hv u Hu. rewrite (load_saved _ _ _ _ Hs Hr) in Hu. injection Hu as <-. tauto. Qed.

(** The pages of a backfill leave the cursor alone, in memory and in the table. *)
Lemma handle_page_cursor env b p : cursor (b_consumer (handle_page labelerDID env b p)) = cursor (b_consumer b) /\
  loadCursor labelerDID (b_store (handle_page labelerDID env b p)) = loadCursor labelerDID (b_store b).
Proof.
  unfold handle_page. destruct (upsertLabels (env p).1 (b_consumer b) p.1) as [[c es] rej] eqn:Hu.
  unfold upsertLabels in Hu. injection Hu as <- <- <-. split; [done|]. cbn [b_store]. destruct (_ && _); [|done].
  unfold saveBackfillCursor, Set_. destruct (env p).2; [|done]. by apply load_other.
Qed.
Lemma handle_pages_cursor env pages : forall b, cursor (b_consumer (foldl (handle_page labelerDID env) b pages)) = cursor (b_consumer b) /\
  loadCursor labelerDID (b_store (foldl (handle_page labelerDID env) b pages)) = loadCursor labelerDID (b_store b).
Proof.
  induction pages as [|p pages IH]; intros b; [done|]. cbn [foldl]. destruct (IH (handle_page labelerDID env b p)) as [-> ->].
  apply handle_page_cursor.
Qed.

Lemma runBackfill_cursor up env server c s : let r := runBackfill labelerDID disableCursor up env server c s in
  cursor r.1.1.1 = cursor c /\
  (loadCursor labelerDID r.1.1.2 = loadCursor labelerDID s \/ loadCursor labelerDID r.1.1.2 = Some (-1)).
Proof.
  unfold runBackfill, Fetch. generalize (Z.to_nat MaxBackfillPages). intros fuel. rewrite Fetch_go_spec.
  pose proof (handle_pages_cursor env (visited fuel server (loadBackfillCursor labelerDID s))
    {| b_consumer := c; b_store := s; total := 0; totalRejected := 0; pagesSinceCheckpoint := 0; b_calls := [] |}) as [Hc Hs].
  set (b := foldl _ _ _) in *. cbn [b_consumer b_store] in Hc, Hs. destruct (fetch_outcome _ _ _); cbn; [|by split; [|left]].
  split; [done|]. destruct (_ && _); [|left; by rewrite load_clear_backfill].
  destruct (saveCursor _ _ _ _) as [s'|] eqn:Hsv; [right; by eapply load_saved|left; by rewrite load_clear_backfill].
Qed.

Lemma good_range l v : Forall (gen_ok l) l -> good l v -> in_int64 v.
Proof.
  intros Hl [->|(k & g & m & Hk & Hm & <-)]; [by vm_compute|]. destruct (Forall_lookup_1 _ _ _ _ Hl Hk) as (Hf & Hr & _).
  rewrite Forall_forall in Hr. apply Hr. rewrite Hf. apply elem_of_app. left. by apply (list_elem_of_fmap_2 fst) in Hm.
Qed.

Lemma stored_flush s0 l up s v : Forall (gen_ok l) l -> stored_ok s0 l s -> good l v -> stored_ok s0 l (finalFlush labelerDID up s v).
Proof.
  intros Hl Hs Hv. unfold finalFlush. destruct (Z.leb_spec v 0); [done|]. destruct (saveCursor _ _ _ _) as [s'|] eqn:Hsv; [|done].
  eapply stored_saved; [done|by eapply good_range|]. destruct Hv as [->|?]; [lia|by right].
Qed.
Lemma stored_tick s0 l up s v last : Forall (gen_ok l) l -> stored_ok s0 l s -> good l v ->
  stored_ok s0 l (flush_tick labelerDID up s v last).1.
Proof.
  intros Hl Hs Hv. unfold flush_tick. destruct (last <? v); [|done]. destruct (saveCursor _ _ _ _) as [s'|] eqn:Hsv; [|done]. cbn.
  eapply stored_saved; [done|by eapply good_range|]. destruct Hv as [->|?]; [by left|by right].
Qed.

Lemma handle_cursor env c m :
  cursor (handleLabelMessage env c m).1 = (if accepts env c m then Z.max (cursor c) (Seq m) else cursor c).
Proof.
  unfold handleLabelMessage, accepts. destruct (upsertLabels env c (Labels m)) as [[c1 es] rej] eqn:Hu.
  unfold upsertLabels in Hu. injection Hu as <- _ _. cbn. destruct (_ || _); rewrite ?andb_true_r, ?andb_false_r; [|done].
  destruct (Z.ltb_spec (cursor c) (Seq m)); lia.
Qed.

Lemma ok_handle s0 env k g m q w : ok s0 w -> gens w !! k = Some g -> queue g = m :: q ->
  ok s0 (with_consumer (handleLabelMessage env (consumer w) m).1
    (set_gen k {| received := received g; handled := handled g ++ [(m, accepts env (consumer w) m)]; queue := q; draining := true;
                  over := over g; flush := flush g |} w)).
Proof.
  intros Hw Hk Hq. set (g' := {| handled := _ |}).
  assert (forall x, x ∈ handled g -> x ∈ handled g') as Hsub by (intros x Hx; apply elem_of_app; by left).
  pose proof (Forall_lookup_1 _ _ _ _ (ok_gens _ _ Hw) Hk) as (Hf & Hr & Hfl).
  apply ok_with_consumer.
  - eapply ok_set_gen; [done..|]. split_and!; [|done|].
    + cbn. by rewrite fmap_app, <-app_assoc, Hf, Hq.
    + cbn. destruct (flush g); [done| | |done]; (eapply good_mono; [|exact Hfl]); intros u; by eapply acked_insert.
  - rewrite handle_cursor. cbn [gens set_gen with_gens].
    assert (good (<[k := g']> (gens w)) (cursor (consumer w))) as Hold.
    { eapply good_mono; [|apply Hw]. intros u. by eapply acked_insert. }
    destruct (accepts env (consumer w) m) eqn:Ha; [|done].
    destruct (Z.max_spec (cursor (consumer w)) (Seq m)) as [[_ ->]|[_ ->]]; [|done]. right. exists k, g', m.
    rewrite list_lookup_insert_eq by (by eapply lookup_lt_Some). split_and!; [done| |done].
    apply elem_of_app. right. rewrite ?Ha. by apply list_elem_of_singleton.
Qed.

(** A connection whose frames do not change. *)
Lemma ok_set_same s0 k g g' w : ok s0 w -> gens w !! k = Some g -> handled g' = handled g -> received g' = received g -> queue g' = queue g ->
  (match flush g' with Ticking v _ | Last v => good (gens w) v | _ => True end) -> ok s0 (set_gen k g' w).
Proof.
  intros Hw Hk Hh Hr Hq Hfl. pose proof (Forall_lookup_1 _ _ _ _ (ok_gens _ _ Hw) Hk) as (Hf & Hi & _).
  eapply ok_set_gen; [done..|by rewrite Hh|]. split_and!; [by rewrite Hr, Hh, Hq|by rewrite Hr|].
  destruct (flush g'); try done; (eapply good_mono; [|exact Hfl]); intros u; (eapply acked_insert; [done|by rewrite Hh]).
Qed.

Lemma stream_step_ok s0 up w w' : step labelerDID skipBackfill disableCursor up w w' -> ok s0 w -> ok s0 w'.
Proof.
  intros Hst Hw. pose proof (fun k g Hk => Forall_lookup_1 _ _ k g (ok_gens _ _ Hw) Hk) as Hgen.
  destruct Hst.
  - destruct (_ || _); [by apply ok_resume|by apply ok_at_phase].
  - apply ok_resume. unfold backfilled. pose proof (runBackfill_cursor up env server (consumer w) (config w)) as [Hc Hl].
    destruct (runBackfill _ _ _ _ _ _ _) as [[[c s] es] r]. cbn in Hc, Hl. destruct Hw as [Hc0 Hs0 Hg Hm]. split; cbn; [by rewrite Hc| |done|done].
    intros v Hv. destruct Hl as [Hl|Hl]; [rewrite Hl in Hv; by apply Hs0|]. rewrite Hl in Hv. injection Hv as <-. left. lia.
  - by apply ok_at_phase.
  - destruct Hw as [Hc Hs Hg Hm]. pose proof (fun v => acked_app (gens w) [new_gen disableCursor] v) as Hmono. split; cbn.
    + by eapply good_mono.
    + by eapply stored_mono.
    + apply Forall_app. split; [eapply Forall_impl; [exact Hg|]; intros x; by apply gen_mono|]. apply Forall_singleton.
      split_and!; [done|by constructor|]. cbn. by destruct disableCursor.
    + done.
  - by apply ok_at_phase.
  - destruct (Hgen k g) as (Hf & Hr & Hfl); [done|]. eapply ok_set_gen; [done..|]. split_and!.
    + cbn. by rewrite Hf, <-app_assoc.
    + apply Forall_app. split; [done|by apply Forall_singleton].
    + cbn. destruct (flush g); try done; (eapply good_mono; [|exact Hfl]); intros u; by eapply acked_insert.
  - apply ok_at_phase; [|done]. eapply ok_set_same; [done..|]. cbn. destruct (Hgen k g) as (_ & _ & Hfl); [done|]. by destruct (flush g).
  - apply ok_at_phase; [|done]. apply ok_with_consumer; [done|]. by left.
  - apply ok_at_phase; [|by destruct (clearCursor _ _ _)]. unfold clearCursor, Delete. destruct up; [|done].
    apply ok_with_config; [done|]. intros v. by rewrite load_delete.
  - apply ok_at_phase; [|done]. apply ok_with_config; [done|]. intros v. rewrite load_clear_backfill. apply Hw.
  - by apply ok_resume.
  - by apply ok_at_phase.
  - destruct Hw as [Hc Hs Hg Hm]. by split.
  - by apply ok_at_phase.
  - apply ok_at_phase; [done|]. apply Hw.
  - apply ok_at_phase; [|done]. apply ok_with_config; [done|]. apply stored_flush; [apply Hw..|].
    pose proof (ok_main _ _ Hw) as Hm. by rewrite H0 in Hm.
  - by apply ok_handle.
  - eapply ok_set_same; [done..|]. cbn. destruct (Hgen k g) as (_ & _ & Hfl); [done|]. by destruct (flush g).
  - eapply ok_set_same; [done..|]. apply Hw.
  - assert (good (gens w) v) as Hv by (destruct (Hgen k g) as (_ & _ & Hfl); [done|]; by rewrite H1 in Hfl).
    cbn zeta. set (r := flush_tick _ _ _ _ _). assert (ok s0 (set_gen k (set_flush (Idle r.2) g) w)) as Hw' by (by eapply ok_set_same).
    apply ok_with_config; [done|]. eapply stored_mono; [|by apply stored_tick; [apply Hw..|]]. intros u. by eapply acked_insert.
  - eapply ok_set_same; [done..|]. apply Hw.
  - assert (good (gens w) v) as Hv by (destruct (Hgen k g) as (_ & _ & Hfl); [done|]; by rewrite H1 in Hfl).
    assert (ok s0 (set_gen k (set_flush Gone g) w)) as Hw' by (by eapply ok_set_same).
    apply ok_with_config; [done|]. eapply stored_mono; [|by apply stored_flush; [apply Hw..|]]. intros u. by eapply acked_insert.
Qed.

Lemma start_ok s0 : ok s0 (start s0).
Proof. split; cbn; [by left| |constructor|done]. intros v Hv. right. by left. Qed.

Lemma run_ok s0 w : rtc (any_step labelerDID skipBackfill disableCursor) (start s0) w -> ok s0 w.
Proof.
  intros Hr. pose proof (start_ok s0) as H0. revert H0. induction Hr as [|x y z [up Hxy] _ IH]; intros Hx; [done|]. by eapply IH, stream_step_ok.
Qed.

(** C20: However the connections of a labeler come and go, frames arrive, statements
    fail and the goroutines of all connections interleave, a positive sequence
    number in the configuration table was there at the start or is that of a frame
    that was handled and of which a label was stored or none rejected, and every frame that the same
    connection received before that frame was handled too: a connection that resumes from
    it asks for no frame too few on its account. *)
Theorem cursor_behind s0 w v : rtc (any_step labelerDID skipBackfill disableCursor) (start s0) w ->
  loadCursor labelerDID (config w) = Some v -> 0 < v ->
  loadCursor labelerDID s0 = Some v \/
  exists g i m, g ∈ gens w /\ handled g !! i = Some (m, true) /\ Seq m = v /\
    forall j m', (j <= i)%nat -> received g !! j = Some m' -> exists b, handled g !! j = Some (m', b).
Proof.
  intros Hr%run_ok Hv Hp. destruct (ok_stored _ _ Hr v Hv) as [?|[?|(k & g & m & Hk & Hm & <-)]]; [lia|by left|right].
  apply list_elem_of_lookup in Hm as [i Hi]. exists g, i, m. split_and!; [by eapply list_elem_of_lookup_2|done|done|].
  intros j m' Hj Hm'. destruct (Forall_lookup_1 _ _ _ _ (ok_gens _ _ Hr) Hk) as (Hf & _ & _).
  rewrite Hf, lookup_app_l in Hm' by (rewrite length_fmap; apply lookup_lt_Some in Hi; lia).
  rewrite list_lookup_fmap in Hm'. destruct (handled g !! j) as [[m2 b]|]; [|done]. injection Hm' as <-. by exists b.
Qed.

(** *** Recovery from an outdated cursor *)

(** No goroutine of the connection is left. *)
Definition quiet (g : gen) : Prop := draining g = false /\ flush g = Gone.

(** What holds on the way from the end of a connection to the next. *)
Definition recovering (n : nat) (w : world) : Prop :=
  Forall quiet (gens w) /\ length (connects w) = n /\
  let ran := load labelerDID w <= 0 /\ (n, "") ∈ backfills w in
  match main w with
  | Ended true | Clearing | Flushing | FlushingAs _ | Finished => True
  | ClearingBackfill => loadCursor labelerDID (config w) = None
  | Checking again | Backfilling again => again = true /\ loadCursor labelerDID (config w) = None /\ loadBackfillCursor labelerDID (config w) = ""
  | Ended false | Waiting | Loading => ran
  | Dialing c => c <= 0 /\ ran
  | Up => False
  end.

Lemma quiet_lookup l k g : Forall quiet l -> l !! k = Some g -> quiet g.
Proof. intros. by eapply Forall_lookup_1. Qed.

Lemma recovering_step n w w' : skipBackfill = false -> disableCursor = false ->
  step labelerDID skipBackfill disableCursor true w w' -> recovering n w -> recovering n w' \/ (n < length (connects w'))%nat.
Proof.
  intros Hsk Hdis Hst (Hq & Hn & Hm). destruct Hst.
  all: try match goal with Hg : gens _ !! _ = Some _ |- _ => pose proof (quiet_lookup _ _ _ Hq Hg) as [Hd Hf]; congruence end.
  all: try match goal with Hp : main _ = _ |- _ => rewrite Hp in Hm end.
  - destruct Hm as (-> & Hl & Hb). left. rewrite Hsk, Hdis. unfold load. rewrite Hl. cbn. by split_and!.
  - destruct Hm as (-> & Hl & Hb). left. unfold backfilled.
    pose proof (runBackfill_cursor true env server (consumer w) (config w)) as [_ Hr].
    destruct (runBackfill _ _ _ _ _ _ _) as [[[c s] es] r]. cbn in Hr. split; [exact Hq|]. split; [exact Hn|]. split.
    + change (default 0 (loadCursor labelerDID s) <= 0). destruct Hr as [->| ->]; [by rewrite Hl|done].
    + apply elem_of_app. right. rewrite Hn, Hb. by apply list_elem_of_singleton.
  - left. split; [exact Hq|split; [exact Hn|]]. split; [apply Hm|exact Hm].
  - right. cbn. rewrite length_app. cbn. lia.
  - left. split; [exact Hq|split; [exact Hn|]]. apply Hm.
  - done.
  - done.
  - by left.
  - left. split; [exact Hq|split; [exact Hn|]]. apply load_delete.
  - left. split; [exact Hq|split; [exact Hn|]]. split; [done|]. split; [exact (eq_trans (load_clear_backfill true _) Hm)|].
    cbn. unfold loadBackfillCursor, Get. by rewrite lookup_delete_eq.
  - left. split; [exact Hq|split; [exact Hn|exact Hm]].
  - left. split; [exact Hq|split; [exact Hn|exact Hm]].
  - left. split; [exact Hq|split; [exact Hn|exact Hm]].
  - by left.
  - by left.
  - by left.
  - left. split; [|split; [exact Hn|exact Hm]]. cbn. apply Forall_insert; [done|]. destruct (quiet_lookup _ _ _ Hq H0). by split.
Qed.

Lemma connects_grow up w w' : step labelerDID skipBackfill disableCursor up w w' -> (length (connects w) <= length (connects w'))%nat.
Proof.
  destruct 1; cbn; try lia.
  - destruct (_ || _); [|cbn; lia]. unfold resume. destruct again; cbn; lia.
  - unfold backfilled. destruct (runBackfill _ _ _ _ _ _ _) as [[[c s] es] r]. unfold resume. destruct again; cbn; lia.
  - rewrite length_app. lia.
  - destruct (clearCursor _ _ _); cbn; lia.
Qed.

(** When the labeler answers that the cursor is outdated and nothing of earlier
    connections is still at work, the recovery starts over: with a database that
    takes writes, the next connection asks for no cursor, and before it a backfill
    has run from the first page. *)
Theorem recovery_starts_over w w' c : skipBackfill = false -> disableCursor = false ->
  main w = Ended true -> Forall quiet (gens w) ->
  rtc (step labelerDID skipBackfill disableCursor true) w w' -> connects w' = connects w -> main w' = Dialing c ->
  c <= 0 /\ (length (connects w), "") ∈ backfills w'.
Proof.
  intros Hsk Hdis Hm Hq Hr Hc Hd.
  assert (recovering (length (connects w)) w' \/ (length (connects w) < length (connects w'))%nat) as [Hw|Hw].
  { assert (recovering (length (connects w)) w) as H0 by (split; [exact Hq|split; [done|by rewrite Hm]]).
    clear -Hsk Hdis Hr H0. generalize dependent (length (connects w)). intros n Hn. assert (recovering n w \/ (n < length (connects w))%nat) as Hw by by left.
    clear Hn. induction Hr as [|x y z Hxy _ IH]; [done|]. apply IH. destruct Hw as [Hw|Hw]; [by eapply recovering_step|].
    right. pose proof (connects_grow _ _ _ Hxy). lia. }
  - destruct Hw as (_ & _ & Hw). rewrite Hd in Hw. cbn zeta in Hw. tauto.
  - rewrite Hc in Hw. lia.
Qed.
End Facts.
End Consumer_facts.

(** ** What the client delivers *)

Module Client_facts.
Import Client.
Section Facts.
Context `{Cbor}.

(** The labels in a turn, when it is a binary message that has some. *)
Definition labels_of (t : turn) : option LabelMessage :=
  match t with
  | Reads true message _ => match react message with Deliver m => Some m | _ => None end
  | _ => None
  end.
(** A turn after which the loop goes on. *)
Definition goes_on (t : turn) : bool :=
  match t with
  | Reads binary message send =>
      negb binary || match react message with Skip => true | Deliver _ => match send with Sent => true | _ => false end | Return _ => false end
  | _ => false
  end.

(** The turns before the one that ends the loop. *)
Fixpoint before_end (ts : list turn) : list turn :=
  match ts with [] => [] | t :: ts => if goes_on t then t :: before_end ts else [] end.

Lemma run_goes_on t ts : goes_on t = true -> run (t :: ts) = ((if labels_of t is Some m then [m] else []) ++ (run ts).1, (run ts).2).
Proof.
  intros Ht. destruct t as [| |?|? ?|binary message send]; try done. cbn in *. destruct binary; cbn in *; [|by destruct (run ts)].
  destruct (react message); [by destruct (run ts)| |done]. by destruct send.
Qed.

Lemma run_stops t ts : goes_on t = false -> exists e, run (t :: ts) = ([], Some e) /\
  (e = Returned (Some EOutdatedCursor) <-> exists message send, t = Reads true message send /\ react message = Return EOutdatedCursor) /\
  (e = Panicked <-> exists message m, t = Reads true message ChannelClosed /\ react message = Deliver m).
Proof.
  intros Ht. destruct t as [| |?|normal ?|[] message send]; cbn in Ht; try done; try (eexists; split; [reflexivity|]).
  1-3: naive_solver.
  - destruct normal; naive_solver.
  - cbn [run negb]. destruct (react message) as [|m|e] eqn:Hr; [done|destruct send; [done|..]|]; eexists; (split; [reflexivity|]); clear Ht.
    all: split; (split; [intros [=]; subst; eauto|intros (x & y & Heq & Hm); congruence]).
Qed.

(** The client hands on the label frames of a connection, each once and in the
    order of their arrival, and nothing else: it has delivered exactly the labels
    of the turns before the one that ends the loop. It ends with the error that
    starts the recovery exactly at a notice of an outdated cursor, whatever was
    read before, and it panics exactly when the channel is closed while labels are
    handed on. *)
Theorem run_delivers ts :
  (run ts).1 = omap labels_of (before_end ts) /\
  match (run ts).2 with
  | None => before_end ts = ts
  | Some e => exists t rest, ts = before_end ts ++ t :: rest /\ goes_on t = false /\
      (e = Returned (Some EOutdatedCursor) <-> exists message send, t = Reads true message send /\ react message = Return EOutdatedCursor) /\
      (e = Panicked <-> exists message m, t = Reads true message ChannelClosed /\ react message = Deliver m)
  end.
Proof.
  induction ts as [|t ts [IH1 IH2]]; [done|]. cbn [before_end]. destruct (goes_on t) eqn:Ht.
  - rewrite run_goes_on by done. cbn [fst snd omap list_omap]. rewrite IH1. split; [by destruct (labels_of t)|].
    destruct (run ts).2 as [e|]; [|by rewrite IH2]. destruct IH2 as (t' & rest & Heq & Hr). exists t', rest. cbn [app]. by rewrite <-Heq.
  - destruct (run_stops t ts Ht) as (e & -> & Ho & Hp). cbn. split; [done|]. exists t, ts. by split_and!.
Qed.
End Facts.
End Client_facts.

(** ** Examples *)

Module Example_stream.
Import Consumer Labeler.Example_labels.
#[local] Existing Instance no_times.
Definition lab : string := "did:plc:lab".
Definition frame (n : Z) : LabelMessage := {| Seq := n; Labels := [label "at://a/b/c"] |}.
Definition no_pages (c : string) : result string page := Ok ([], "").
Abbreviation any := (any_step lab false false).
Abbreviation steps := (rtc any).

Lemma then_step up w w1 w2 : steps w w1 -> step lab false false up w1 w2 -> steps w w2.
Proof. intros Hw Hs. eapply rtc_r; [exact Hw|]. by exists up. Qed.

(** The first connection has handled frame 5. *)
Definition handled_5 : gen :=
  {| received := [frame 5]; handled := [(frame 5, true)]; queue := []; draining := true; over := false; flush := Idle 0 |}.
Definition after_5 : Labeler.Consumer := (handleLabelMessage (env false) NewConsumer (frame 5)).1.
Definition at_5 (p : phase) (s : store) (g : gen) (c : Labeler.Consumer) : world :=
  {| consumer := c; config := s; gens := [g]; main := p; cancelled := false; connects := [0]; backfills := [(0%nat, "")] |}.

Lemma reaches_5 : steps (start ∅) (at_5 Up ∅ handled_5 after_5).
Proof.
  assert (steps (start ∅) (at_phase (Backfilling false) (start ∅))) as H1.
  { eapply then_step; [reflexivity|]. apply (s_check lab false false true false). done. }
  eapply then_step in H1; [|by apply (s_backfill lab false false true Backfill.Example_backfill.env no_pages false)].
  eapply then_step in H1; [|by apply (s_load lab false false true)].
  eapply then_step in H1; [|by apply (s_dial lab false false true)].
  eapply then_step in H1; [|by apply (s_receive lab false false true 0 (new_gen false) (frame 5))].
  eapply then_step in H1; [|by eapply (s_handle lab false false true (env false) 0)].
  revert H1. vm_compute. done.
Qed.

(** The flusher of the connection writes its cursor. *)
Definition flushed_5 : store := <["labeler_cursor:did:plc:lab" := "5"]> ∅.
Lemma reaches_flushed : steps (start ∅) (at_5 Up flushed_5 (Consumer.set_flush (Idle 5) handled_5) after_5).
Proof.
  pose proof reaches_5 as H1.
  eapply then_step in H1; [|by eapply (s_tick lab false false true 0 handled_5 0)].
  eapply then_step in H1; [|by eapply (s_ticked lab false false true 0 _ 5 0)].
  revert H1. vm_compute. done.
Qed.

Lemma cursor_behind_witness : exists g i m, g ∈ [Consumer.set_flush (Idle 5) handled_5] /\ handled g !! i = Some (m, true) /\ Seq m = 5.
Proof.
  destruct (Consumer_facts.cursor_behind lab false false ∅ (at_5 Up flushed_5 (Consumer.set_flush (Idle 5) handled_5) after_5) 5)
    as [Hv|(g & i & m & Hg & Hm & Hs & _)]; [exact reaches_flushed|by vm_compute|done|by vm_compute in Hv|by exists g, i, m].
Defined.

(** The connection ends with an outdated cursor, with its goroutines at work or gone. *)
Definition gone_5 : gen :=
  {| received := [frame 5]; handled := [(frame 5, true)]; queue := []; draining := false; over := true; flush := Gone |}.
Lemma recovery_starts_over_witness :
  let w := at_5 (Ended true) flushed_5 gone_5 after_5 in
  exists w', rtc (step lab false false true) w w' /\ main w' = Dialing (-1) /\ (1%nat, "") ∈ backfills w'.
Proof.
  intros w. pose (server := fun _ : string => Ok (E := string) ([label "at://a/b/c"], "")).
  assert (exists w', rtc (step lab false false true) w w' /\ main w' = Dialing (-1) /\ connects w' = [0]) as (w' & Hr & Hm & Hc).
  { eexists. split.
    - eapply rtc_l; [by apply s_outdated|]. eapply rtc_l; [by apply s_clear|]. eapply rtc_l; [by apply s_clear_backfill|].
      eapply rtc_l; [by apply s_check|]. eapply rtc_l; [by apply (s_backfill lab false false true Backfill.Example_backfill.env server true)|].
      eapply rtc_l; [by apply s_waited|]. eapply rtc_l; [by apply s_load|]. reflexivity.
    - split; by vm_compute. }
  exists w'. split; [exact Hr|]. split; [exact Hm|].
  apply (Consumer_facts.recovery_starts_over lab false false w w' (-1)); try done. apply Forall_singleton. done.
Defined.

(** The flusher that was told to end reads the cursor before the recovery takes it
    back and writes it after the recovery has deleted it: no backfill runs, and the
    next connection asks for the outdated cursor again. *)
Example outdated_again : exists w, steps (start ∅) w /\ main w = Dialing 5 /\ connects w = [0] /\
  backfills w = [(0%nat, "")] /\ OutdatedCursors (stats (consumer w)) = 1.
Proof.
  pose proof reaches_flushed as H1.
  eapply then_step in H1; [|by eapply (s_return lab false false true 0 _ true)].
  eapply then_step in H1; [|by eapply (s_last lab false false true 0); [|..|right]].
  eapply then_step in H1; [|by apply (s_outdated lab false false true)].
  eapply then_step in H1; [|by apply (s_clear lab false false true)].
  eapply then_step in H1; [|by eapply (s_lasted lab false false true 0 _ 5)].
  eapply then_step in H1; [|by apply (s_clear_backfill lab false false true)].
  eapply then_step in H1; [|by apply (s_check lab false false true true)].
  eapply then_step in H1; [|by apply (s_waited lab false false true)].
  eapply then_step in H1; [|by apply (s_load lab false false true)].
  eexists. split; [exact H1|]. split_and!; by vm_compute.
Qed.

(** A labeler that is stopped while labels are handed on can panic: [Stop] of the
    client closes the channel, and of the two ways on any may be taken. *)
Example stopped_while_sending `{Client.Cbor} message m : Client.react message = Client.Deliver m ->
  Client.run [Client.Reads true message Client.ChannelClosed] = ([], Some Client.Panicked).
Proof. intros Hr. cbn. by rewrite Hr. Qed.
End Example_stream.
