(* ===== verification/Migrations.v ===== *)
(** The schema migrations of [internal/database/migrations/migrations.go]: the
    order of the embedded files, the runs of a starting program, which can be
    interrupted anywhere, and the rollback of the last migration. What a text of
    SQL does to the schema is a parameter. *)
From stdpp Require Import sorting strings.
From S2P Require Import Prelude GoStrings Utf8 Statements.

(** ** The files *)

Record Migration := { Version : string; Name : string; UpSQL : string; DownSQL : string }.
Record entry := { en_name : string; en_dir : bool; en_content : string }.

(** A file name [001_name.up.sql] as version, base name and direction. *)
Definition parse_name (name : string) : option (string * string * string) :=
  if negb (has_suffix name ".sql") then None
  else
    let parts := split name "." in
    let n := length parts in
    if (n <? 3)%nat then None
    else
      let direction := nth (n - 2) parts "" in
      if negb (String.eqb direction "up") && negb (String.eqb direction "down") then None
      else
        let baseName := join (take (n - 2) parts) "." in
        Some (hd "" (split baseName "_"), baseName, direction).

(** What is known of a version: the base name of its first file and the texts. *)
Definition add_file (m : gmap string Migration) (e : entry) : gmap string Migration :=
  if en_dir e then m
  else match parse_name (en_name e) with
  | None => m
  | Some (version, baseName, direction) =>
      let f := default {| Version := version; Name := baseName; UpSQL := ""; DownSQL := "" |} (m !! version) in
      <[version := if String.eqb direction "up"
                   then {| Version := version; Name := Name f; UpSQL := en_content e; DownSQL := DownSQL f |}
                   else {| Version := version; Name := Name f; UpSQL := UpSQL f; DownSQL := en_content e |}]> m
  end.

Definition by_version (a b : Migration) : Prop := String.le (Version a) (Version b).
#[export] Instance by_version_dec : RelDecision by_version := fun a b => _.

(** [entries] is the embedded directory, in the order of the names. *)
Definition loadMigrations (entries : list entry) : list Migration :=
  merge_sort by_version (map_to_list (foldl add_file ∅ entries)).*2.

(** ** Running them *)

Definition isNonTransactional (sqlText : string) : bool := has_prefix (TrimSpace sqlText) "-- no-transaction".

Section Run.
Context {D : Type}.
(** What a text does when the database carries it out, [None] when it is refused; and
    what is left of it when it is cut off outside a transaction. *)
Context (sql : string -> D -> option D) (leftover : string -> D -> D).

(** The schema and the versions in [schema_migrations], in the order of their
    insertion; [None] while there is no such table. *)
Record db := { schema : D; recorded : option (list string) }.
Inductive migration_error :=
| ETable | EApplied | EBegin (v : string) | EApply (v : string) | ERecord (v : string) | ECommit (v : string)
| ELastVersion | EUnknown (v : string) | ERollback (v : string) | ERemove (v : string).
Abbreviation M := (Statements.M db migration_error).

Definition createMigrationsTable : M unit :=
  stmt ETable (fun d => Some ((), {| schema := schema d; recorded := Some (default [] (recorded d)) |})).
Definition getAppliedMigrations : M (list string) :=
  stmt EApplied (fun d => match recorded d with Some l => Some (l, d) | None => None end).

(** [INSERT INTO schema_migrations], [DELETE FROM schema_migrations]. *)
Definition record_version (v : string) (d : db) : option db :=
  match recorded d with
  | Some l => if decide (v ∈ l) then None else Some {| schema := schema d; recorded := Some (l ++ [v]) |}
  | None => None
  end.
Definition remove_version (v : string) (d : db) : option db :=
  match recorded d with
  | Some l => Some {| schema := schema d; recorded := Some (List.filter (fun u => negb (String.eqb u v)) l) |}
  | None => None
  end.
Definition exec (text : string) (d : db) : option db :=
  s ← sql text (schema d); Some {| schema := s; recorded := recorded d |}.

(** A statement of a transaction on the tables as the transaction sees them: only
    the commit changes what others see. *)
Definition in_tx (err : migration_error) (f : db -> option db) : M unit :=
  stmt err (fun d => match f d with Some _ => Some ((), d) | None => None end).
Definition commit (err : migration_error) (f : db -> option db) : M unit :=
  stmt err (fun d => d' ← f d; Some ((), d')).

Definition two (f g : db -> option db) (d : db) : option db := d ← f d; g d.

Definition applyMigrationTx (m : Migration) : M unit :=
  let v := Version m in
  _ ← stmt (EBegin v) (fun d => Some ((), d));
  _ ← in_tx (EApply v) (exec (UpSQL m));
  _ ← in_tx (ERecord v) (two (exec (UpSQL m)) (record_version v));
  commit (ECommit v) (two (exec (UpSQL m)) (record_version v)).

(** Outside a transaction a text that fails may have had part of its effect. *)
Definition exec_alone (err : migration_error) (text : string) : M unit := fun '(fs, d) =>
  let cut := {| schema := leftover text (schema d); recorded := recorded d |} in
  match default Works (head fs), exec text d with
  | Works, Some d' => (Ok (), (tail fs, d'))
  | AnswerLost, Some d' => (Err err, (tail fs, d'))
  | _, _ => (Err err, (tail fs, cut))
  end.

Definition applyMigrationNoTx (m : Migration) : M unit :=
  _ ← exec_alone (EApply (Version m)) (UpSQL m);
  stmt (ERecord (Version m)) (fun d => d' ← record_version (Version m) d; Some ((), d')).

Fixpoint apply_pending (applied : list string) (migrations : list Migration) : M unit :=
  match migrations with
  | [] => mret ()
  | m :: rest =>
      if decide (Version m ∈ applied) then apply_pending applied rest
      else
        _ ← (if isNonTransactional (UpSQL m) then applyMigrationNoTx m else applyMigrationTx m);
        apply_pending applied rest
  end.

Definition Run (migrations : list Migration) : M unit :=
  _ ← createMigrationsTable;
  applied ← getAppliedMigrations;
  apply_pending applied migrations.

(** ** Rolling back *)

(** [ORDER BY version DESC LIMIT 1]. *)
Definition greatest (l : list string) : option string :=
  foldr (fun v m => match m with Some u => if decide (String.le v u) then Some u else Some v | None => Some v end) None l.

Definition rollbackMigrationNoTx (m : Migration) : M unit :=
  _ ← exec_alone (ERollback (Version m)) (DownSQL m);
  stmt (ERemove (Version m)) (fun d => d' ← remove_version (Version m) d; Some ((), d')).

Definition Rollback (migrations : list Migration) : M unit :=
  version ← stmt ELastVersion (fun d => l ← recorded d; Some (greatest l, d));
  match version with
  | None => mret ()
  | Some version =>
      match List.find (fun m => String.eqb (Version m) version) migrations with
      | None => fail (EUnknown version)
      | Some m =>
          if isNonTransactional (DownSQL m) then rollbackMigrationNoTx m
          else
            _ ← stmt (EBegin version) (fun d => Some ((), d));
            _ ← in_tx (ERollback version) (exec (DownSQL m));
            _ ← in_tx (ERemove version) (two (exec (DownSQL m)) (remove_version version));
            commit (ECommit version) (two (exec (DownSQL m)) (remove_version version))
      end
  end.
End Run.

(** ** The files make an ordered list *)

Definition file_of (e : entry) : option (string * string) :=
  if en_dir e then None else '(v, _, d) ← parse_name (en_name e); Some (v, d).
(** The text of the last file of a version and direction. *)
Definition text_of (v direction : string) (entries : list entry) : string :=
  foldl (fun t e => if decide (file_of e = Some (v, direction)) then en_content e else t) "" entries.
Definition has_files (v : string) (entries : list entry) : Prop := exists e d, e ∈ entries /\ file_of e = Some (v, d).

Lemma parse_name_direction name v b d : parse_name name = Some (v, b, d) -> d = "up" \/ d = "down".
Proof.
  unfold parse_name. destruct (negb _); [done|]. destruct (_ <? 3)%nat; [done|]. destruct (_ && _) eqn:E; [done|].
  intros [= _ _ <-]. apply andb_false_iff in E. rewrite !negb_false_iff, !String.eqb_eq in E. tauto.
Qed.

Lemma has_files_snoc v entries e : has_files v (entries ++ [e]) <-> has_files v entries \/ exists d, file_of e = Some (v, d).
Proof.
  unfold has_files. setoid_rewrite elem_of_app. setoid_rewrite list_elem_of_singleton. split.
  - intros (x & d & [Hx| ->] & Hf); [left; by exists x, d|right; by exists d].
  - intros [(x & d & Hx & Hf)|(d & Hf)]; [exists x, d; by split; [left|]|exists e, d; by split; [right|]].
Qed.

Lemma text_of_snoc v d entries e :
  text_of v d (entries ++ [e]) = if decide (file_of e = Some (v, d)) then en_content e else text_of v d entries.
Proof. unfold text_of. by rewrite foldl_snoc. Qed.

Lemma files_spec entries v : match foldl add_file ∅ entries !! v with
  | Some m => has_files v entries /\ Version m = v /\ UpSQL m = text_of v "up" entries /\ DownSQL m = text_of v "down" entries
  | None => ~ has_files v entries /\ text_of v "up" entries = "" /\ text_of v "down" entries = ""
  end.
Proof.
  induction entries as [|e entries IH] using rev_ind.
  - cbn. rewrite lookup_empty. split; [|done]. intros (e & d & He & _). by apply not_elem_of_nil in He.
  - assert (file_of e = None \/ (exists v' d, file_of e = Some (v', d) /\ v' <> v) \/ file_of e = Some (v, "up") \/ file_of e = Some (v, "down")) as Hcase.
    { unfold file_of. destruct (en_dir e); [by left|]. destruct (parse_name (en_name e)) as [[[v' b] d]|] eqn:Hp; [|by left].
      cbn [mbind option_bind]. right. destruct (decide (v' = v)) as [->|?]; [right|left; by exists v', d].
      destruct (parse_name_direction _ _ _ _ Hp) as [->| ->]; [by left|by right]. }
    rewrite foldl_snoc. set (m := foldl add_file ∅ entries) in *.
    assert (add_file m e !! v = m !! v /\ file_of e <> Some (v, "up") /\ file_of e <> Some (v, "down") /\ (forall d, file_of e <> Some (v, d)) \/
      exists d, file_of e = Some (v, d) /\ (d = "up" \/ d = "down") /\ exists f, add_file m e !! v = Some f /\ Version f = v /\
        UpSQL f = (if String.eqb d "up" then en_content e else from_option UpSQL "" (m !! v)) /\
        DownSQL f = (if String.eqb d "up" then from_option DownSQL "" (m !! v) else en_content e)) as [(Hl & Hu & Hd & Hn)|(d & Hf & Hd & f & Hl & Hv & Hup & Hdn)].
    { unfold add_file, file_of in *. destruct (en_dir e); [left; naive_solver|].
      destruct (parse_name (en_name e)) as [[[v' b] d]|]; cbn [mbind option_bind] in *; [|left; naive_solver].
      destruct (decide (v' = v)) as [->|Hne]; [|left; rewrite lookup_insert_ne by done; split_and!; congruence].
      right. exists d. split; [done|]. split; [destruct Hcase as [?|[(? & ? & ? & ?)|[?|?]]]; naive_solver|].
      eexists. rewrite lookup_insert_eq. split; [done|]. destruct (String.eqb d "up"), (m !! v); done. }
    + rewrite Hl. destruct (m !! v); rewrite has_files_snoc, !text_of_snoc, !decide_False by done; [tauto|].
      destruct IH as (IH & ?). split; [|done]. intros [?|[d ?]]; [done|by apply (Hn d)].
    + rewrite Hl, has_files_snoc, !text_of_snoc. split; [right; by exists d|]. split; [done|].
      assert (from_option UpSQL "" (m !! v) = text_of v "up" entries /\ from_option DownSQL "" (m !! v) = text_of v "down" entries) as [Hu' Hd'].
      { destruct (m !! v); cbn; [tauto|]. destruct IH as (_ & -> & ->). done. }
      rewrite Hup, Hdn, Hu', Hd', Hf. destruct Hd as [->| ->]; cbn [String.eqb Ascii.eqb Bool.eqb].
      * by rewrite decide_True, decide_False.
      * by rewrite decide_False, decide_True.
Qed.

#[local] Instance by_version_total : Total by_version.
Proof. intros a b. apply String.le_total. Qed.
#[local] Instance by_version_trans : Transitive by_version.
Proof. intros a b c Hab Hbc. unfold by_version in *. by etrans. Qed.

Definition precedes (u v : string) : Prop := String.le u v /\ u <> v.

Lemma NoDup_versions (m : gmap string Migration) : (forall v x, m !! v = Some x -> Version x = v) -> NoDup (Version <$> (map_to_list m).*2).
Proof.
  intros Hm. enough (Version <$> (map_to_list m).*2 = (map_to_list m).*1) as -> by apply NoDup_fst_map_to_list.
  rewrite <-list_fmap_compose. apply list_fmap_ext. intros i [v x] Hi. apply list_elem_of_lookup_2, elem_of_map_to_list in Hi.
  by apply Hm.
Qed.

(** The migrations are loaded in the strict order of their versions, one for each
    version that has a file, with the texts of the last file of the version in
    either direction, empty where there is none. *)
Theorem loadMigrations_spec entries : let ms := loadMigrations entries in
  StronglySorted precedes (Version <$> ms) /\
  (forall v, v ∈ Version <$> ms <-> has_files v entries) /\
  (forall m, m ∈ ms -> UpSQL m = text_of (Version m) "up" entries /\ DownSQL m = text_of (Version m) "down" entries).
Proof.
  intros ms. set (files := foldl add_file ∅ entries).
  assert (forall v x, files !! v = Some x -> Version x = v) as Hver.
  { intros v x Hx. pose proof (files_spec entries v) as Hs. fold files in Hs. rewrite Hx in Hs. apply Hs. }
  assert (ms ≡ₚ (map_to_list files).*2) as Hp by apply merge_sort_Permutation.
  assert (forall m, m ∈ ms <-> files !! Version m = Some m) as Hin.
  { intros m. rewrite Hp, list_elem_of_fmap. split.
    - intros ([v x] & -> & Hx%elem_of_map_to_list). cbn. by rewrite (Hver _ _ Hx).
    - intros Hm. exists (Version m, m). by rewrite elem_of_map_to_list. }
  split_and!.
  - assert (NoDup (Version <$> ms)) as Hd by (rewrite Hp; by apply NoDup_versions).
    assert (StronglySorted by_version ms) as Hs by apply (StronglySorted_merge_sort by_version). clearbody ms.
    clear -Hs Hd. induction Hs as [|m l Hs IH Hm]; cbn in *; [constructor|]. apply NoDup_cons in Hd as [Hn Hd].
    constructor; [by apply IH|]. apply Forall_fmap. rewrite Forall_forall in *. intros x Hx. split; [by apply Hm|].
    cbn. intros E. apply Hn. rewrite E. by apply list_elem_of_fmap_2.
  - intros v. pose proof (files_spec entries v) as Hs. fold files in Hs. rewrite list_elem_of_fmap. split.
    + intros (m & -> & Hm%Hin). rewrite Hm in Hs. apply Hs.
    + intros Hf. destruct (files !! v) as [m|] eqn:Hv; [|tauto]. exists m. rewrite (Hver _ _ Hv). split; [done|]. apply Hin. by rewrite (Hver _ _ Hv).
  - intros m Hm%Hin. pose proof (files_spec entries (Version m)) as Hs. fold files in Hs. rewrite Hm in Hs. tauto.
Qed.

(** ** Interrupted runs *)

#[local] Arguments record_version : simpl never.
Section Runs.
Context {D : Type} (sql : string -> D -> option D) (leftover : string -> D -> D) (ms : list Migration) (d0 : D).

(** The schema after some migrations, each carried out once. *)
Fixpoint migrate (l : list Migration) (d : D) : option D :=
  match l with [] => Some d | m :: l => d' ← sql (UpSQL m) d; migrate l d' end.

Lemma migrate_app l k d : migrate (l ++ k) d = migrate l d ≫= migrate k.
Proof. revert d. induction l as [|m l IH]; intros d; [done|]. cbn. destruct (sql (UpSQL m) d); [apply IH|done]. Qed.

Context (Hversions : NoDup (Version <$> ms)).

(** What attempts at a text outside a transaction make of the schema: each is
    complete or cut off. *)
Inductive attempts (text : string) (d : D) : D -> Prop :=
| no_attempt : attempts text d d
| complete_attempt d' d'' : attempts text d d' -> sql text d' = Some d'' -> attempts text d d''
| partial_attempt d' : attempts text d d' -> attempts text d (leftover text d').

(** The schema after some migrations: a text in a transaction is carried out once,
    one outside is carried out completely at last, after any attempts. *)
Inductive carried : list Migration -> D -> Prop :=
| carried_none : carried [] d0
| carried_tx done m s s' : carried done s -> isNonTransactional (UpSQL m) = false ->
    sql (UpSQL m) s = Some s' -> carried (done ++ [m]) s'
| carried_alone done m s x s' : carried done s -> isNonTransactional (UpSQL m) = true ->
    attempts (UpSQL m) s x -> sql (UpSQL m) x = Some s' -> carried (done ++ [m]) s'.

(** The migrations done are recorded, and the next one may have been tried. *)
Definition tried (done rest : list Migration) (d : db) : Prop :=
  recorded d = Some (Version <$> done) /\ exists s, carried done s /\
  (schema d = s \/ exists m rest', rest = m :: rest' /\ isNonTransactional (UpSQL m) = true /\ attempts (UpSQL m) s (schema d)).
Definition settled (done : list Migration) (d : db) : Prop :=
  recorded d = Some (Version <$> done) /\ carried done (schema d).

Lemma settled_tried done rest d : settled done d -> tried done rest d.
Proof. intros [Hr Hm]. split; [done|]. exists (schema d). split; [done|by left]. Qed.

Lemma version_fresh done m rest : ms = done ++ m :: rest -> Version m ∉ Version <$> done.
Proof.
  intros Hms Hin. rewrite Hms, fmap_app in Hversions. apply NoDup_app in Hversions as (_ & Hd & _).
  apply (Hd _ Hin). apply list_elem_of_here.
Qed.

(** The record of the next migration, once its text has been carried out. *)
Lemma record_next done m rest (d : db (D := D)) : ms = done ++ m :: rest -> recorded d = Some (Version <$> done) ->
  record_version (Version m) d = Some {| schema := schema d; recorded := Some (Version <$> done ++ [m]) |}.
Proof.
  intros Hms Hr. unfold record_version. rewrite Hr, decide_False by (by eapply version_fresh). by rewrite fmap_app.
Qed.

Lemma record_settled done m rest (d : db (D := D)) s x : ms = done ++ m :: rest -> recorded d = Some (Version <$> done) -> carried done s ->
  (if isNonTransactional (UpSQL m) then attempts (UpSQL m) s x else x = s) -> sql (UpSQL m) x = Some (schema d) ->
  exists d', record_version (Version m) d = Some d' /\ settled (done ++ [m]) d'.
Proof.
  intros Hms Hr Hs Hx Hd. rewrite (record_next done m rest d Hms Hr). eexists. split; [done|]. split; [done|]. cbn.
  destruct (isNonTransactional (UpSQL m)) eqn:Hno; [by eapply carried_alone|subst x; by eapply carried_tx].
Qed.

(** One migration: done with its record, or an error that leaves it tried or done. *)
Lemma apply_one done m rest d fs r s' : ms = done ++ m :: rest -> tried done (m :: rest) d ->
  (if isNonTransactional (UpSQL m) then applyMigrationNoTx sql leftover m else applyMigrationTx sql m) (fs, d) = (r, s') ->
  match r with
  | Ok _ => settled (done ++ [m]) s'.2
  | Err _ => tried done (m :: rest) s'.2 \/ settled (done ++ [m]) s'.2
  end.
Proof.
  intros Hms (Hr & s & Hs & Hd) Happ. destruct (isNonTransactional (UpSQL m)) eqn:Hno.
  - assert (attempts (UpSQL m) s (schema d)) as Hat.
    { destruct Hd as [->|(m' & rest' & [= <- <-] & _ & Hd)]; [constructor|done]. }
    assert (forall x, attempts (UpSQL m) s x -> tried done (m :: rest) {| schema := x; recorded := recorded d |}) as Htry.
    { intros x Hx. split; [done|]. exists s. split; [done|]. right. by exists m, rest. }
    pose proof (Htry _ (partial_attempt _ _ _ Hat)) as Htl.
    unfold applyMigrationNoTx, exec_alone, exec, stmt, mbind, M_bind in Happ. cbn [fst snd] in Happ.
    destruct (sql (UpSQL m) (schema d)) as [y|] eqn:Hy; cbn [option_bind mbind] in Happ.
    + destruct (record_settled done m rest {| schema := y; recorded := recorded d |} s (schema d)) as (d' & Hrec & Hset); [done..|by rewrite Hno|done|].
      pose proof (Htry y (complete_attempt _ _ _ _ Hat Hy)) as Hty.
      destruct (default Works (head fs)) eqn:E0; cbn in Happ; [|by injection Happ as <- <-; left..].
      destruct (default Works (head (tail fs))) eqn:E1; cbn in Happ; rewrite ?Hrec in Happ; cbn in Happ; injection Happ as <- <-;
        [done|by left|by right].
    + destruct (default Works (head fs)); injection Happ as <- <-; by left.
  - destruct Hd as [<-|(m' & rest' & [= <- <-] & Hno' & _)]; [|congruence].
    assert (tried done (m :: rest) d) as Htry by (split; [done|]; exists (schema d); split; [done|by left]).
    unfold applyMigrationTx, in_tx, commit, stmt, mbind, M_bind, two, exec in Happ.
    destruct (default Works (head fs)) eqn:E0; cbn in Happ; [|injection Happ as <- <-; by left..].
    destruct (sql (UpSQL m) (schema d)) as [y|] eqn:Hy; cbn in Happ.
    + destruct (record_settled done m rest {| schema := y; recorded := recorded d |} (schema d) (schema d)) as (d' & Hrec & Hset); [done..|by rewrite Hno|done|].
      rewrite ?Hrec in Happ.
      destruct (default Works (head (tail fs))) eqn:E1; cbn in Happ; rewrite ?Hy in Happ; cbn in Happ; rewrite ?Hrec in Happ; cbn in Happ;
        [|injection Happ as <- <-; by left..].
      destruct (default Works (head (tail (tail fs)))) eqn:E2; cbn in Happ; rewrite ?Hy in Happ; cbn in Happ; rewrite ?Hrec in Happ; cbn in Happ;
        [|injection Happ as <- <-; by left..].
      destruct (default Works (head (tail (tail (tail fs))))) eqn:E3; cbn in Happ; injection Happ as <- <-; [done|by left|by right].
    + destruct (default Works (head (tail fs))); cbn in Happ; injection Happ as <- <-; by left.
Qed.

(** Some of the migrations are done, in order. *)
Definition underway (d : db) : Prop := exists done rest, ms = done ++ rest /\ tried done rest d.

(** The loop over the rest. *)
Lemma apply_rest applied rest : forall done d fs r s', ms = done ++ rest -> (forall m, m ∈ rest -> Version m ∉ applied) -> tried done rest d ->
  apply_pending sql leftover applied rest (fs, d) = (r, s') -> underway s'.2 /\ (r = Ok () -> settled ms s'.2).
Proof.
  induction rest as [|m rest IH]; intros done d fs r s' Hms Hnew Ht Happ.
  - injection Happ as <- <-. split; [by exists done, []|]. rewrite app_nil_r in Hms. subst done.
    intros _. destruct Ht as (Hr & s & Hs & [<-|(? & ? & ? & _)]); [by split|done].
  - cbn [apply_pending] in Happ. rewrite decide_False in Happ by (apply Hnew, list_elem_of_here).
    unfold mbind, M_bind in Happ.
    destruct ((if isNonTransactional (UpSQL m) then applyMigrationNoTx sql leftover m else applyMigrationTx sql m) (fs, d)) as [r1 s1] eqn:H1.
    pose proof (apply_one done m rest d fs r1 s1 Hms Ht H1) as Hone. cbn [fst snd] in Happ.
    assert (ms = (done ++ [m]) ++ rest) as Hms' by (by rewrite <-app_assoc).
    destruct r1 as [[]|e].
    + destruct s1 as [fs1 d1]. cbn [fst snd] in *. apply (IH (done ++ [m]) d1 fs1 r s' Hms'); [|by apply settled_tried|done].
      intros x Hx. apply Hnew. by apply list_elem_of_further.
    + injection Happ as <- <-. split; [|done].
      destruct Hone as [?|?]; [by exists done, (m :: rest)|exists (done ++ [m]), rest; split; [done|by apply settled_tried]].
Qed.

Lemma skip_applied done : forall rest applied s, (forall m, m ∈ done -> Version m ∈ applied) ->
  apply_pending sql leftover applied (done ++ rest) s = apply_pending sql leftover applied rest s.
Proof.
  induction done as [|m done IH]; intros rest applied s Hin; [done|]. cbn [app apply_pending].
  rewrite decide_True by (apply Hin, list_elem_of_here). apply IH. intros x Hx. apply Hin. by apply list_elem_of_further.
Qed.

Lemma rest_fresh done rest m : ms = done ++ rest -> m ∈ rest -> Version m ∉ Version <$> done.
Proof.
  intros Hms (l1 & l2 & ->)%list_elem_of_split. rewrite Hms, fmap_app in Hversions. apply NoDup_app in Hversions as (_ & Hd' & _).
  intros Hin. apply (Hd' _ Hin). apply list_elem_of_fmap_2, elem_of_app. right. apply list_elem_of_here.
Qed.

(** No run yet, or some migrations are done. *)
Definition begun (d : db) : Prop := recorded d = None /\ schema d = d0 \/ underway d.

Lemma begun_underway d : begun d -> underway {| schema := schema d; recorded := Some (default [] (recorded d)) |}.
Proof.
  intros [[Hr Hs]|(done & rest & Hms & Hr & Hs)].
  - exists [], ms. split; [done|]. rewrite Hr. split; [done|]. exists d0. split; [constructor|by left].
  - exists done, rest. split; [done|]. rewrite Hr. by split.
Qed.

Lemma Run_spec d fs r s' : begun d -> Run sql leftover ms (fs, d) = (r, s') ->
  begun s'.2 /\ (r = Ok () -> settled ms s'.2).
Proof.
  intros Hd Hrun. pose proof (begun_underway d Hd) as H1.
  set (d1 := {| schema := schema d; recorded := Some (default [] (recorded d)) |}) in *.
  unfold Run, createMigrationsTable, getAppliedMigrations, stmt, mbind, M_bind in Hrun. fold d1 in Hrun.
  destruct (default Works (head fs)) eqn:E0; cbn in Hrun; cycle 1.
  1, 2: injection Hrun as <- <-; split; [by first [apply Hd|right]|done].
  destruct (default Works (head (tail fs))) eqn:E1; cbn in Hrun; cycle 1.
  1, 2: injection Hrun as <- <-; split; [by right|done].
  destruct H1 as (done & rest & Hms & Ht). assert (default [] (recorded d) = Version <$> done) as Hdone by (destruct Ht as [Hr _]; by injection Hr).
  rewrite Hdone in Hrun. rewrite Hms in Hrun at 1. rewrite skip_applied in Hrun by (intros; by apply list_elem_of_fmap_2).
  apply apply_rest with (done := done) in Hrun as (Hu & Hset); [split; [by right|done]|done| |done].
  intros m. by apply rest_fresh.
Qed.

(** *** Starts in which the statements work *)

(** What is recorded: nothing yet, or the first migrations. *)
Definition recorded_first (done : list Migration) (d : db (D := D)) : Prop :=
  default [] (recorded d) = Version <$> done.

Lemma apply_works applied rest : forall done d s, ms = done ++ rest -> (forall m, m ∈ rest -> Version m ∉ applied) ->
  recorded d = Some (Version <$> done) -> migrate rest (schema d) = Some s ->
  apply_pending sql leftover applied rest ([], d) = (Ok (), ([], {| schema := s; recorded := Some (Version <$> ms) |})).
Proof.
  induction rest as [|m rest IH]; intros done d s Hms Hnew Hr Hs.
  - cbn in Hs. injection Hs as <-. rewrite app_nil_r in Hms. subst done. by destruct d; cbn in *; subst.
  - cbn [apply_pending]. rewrite decide_False by (apply Hnew, list_elem_of_here). cbn in Hs.
    destruct (sql (UpSQL m) (schema d)) as [y|] eqn:Hy; [|done]. cbn in Hs.
    pose proof (record_next done m rest {| schema := y; recorded := recorded d |} Hms Hr) as Hrec.
    assert ((if isNonTransactional (UpSQL m) then applyMigrationNoTx sql leftover m else applyMigrationTx sql m) ([], d)
      = (Ok (), ([], {| schema := y; recorded := Some (Version <$> done ++ [m]) |}))) as Hone.
    { assert (exec sql (UpSQL m) d = Some {| schema := y; recorded := recorded d |}) as Hexec by (unfold exec; by rewrite Hy).
      destruct (isNonTransactional (UpSQL m));
        unfold applyMigrationNoTx, applyMigrationTx, exec_alone, in_tx, commit, stmt, two, mbind, M_bind;
        do 3 (cbn [fst snd head tail default mbind option_bind]; rewrite ?Hexec; cbn [mbind option_bind]; rewrite ?Hrec); done. }
    unfold mbind, M_bind. rewrite Hone. cbn [fst snd]. apply (IH (done ++ [m])); [by rewrite <-app_assoc| |done|done].
    intros x Hx. apply Hnew. by apply list_elem_of_further.
Qed.

Lemma Run_works done rest d s : ms = done ++ rest -> recorded_first done d -> migrate rest (schema d) = Some s ->
  Run sql leftover ms ([], d) = (Ok (), ([], {| schema := s; recorded := Some (Version <$> ms) |})).
Proof.
  intros Hms Hr Hs. unfold Run, createMigrationsTable, getAppliedMigrations, stmt, mbind, M_bind. cbn. rewrite Hr.
  rewrite Hms at 1. rewrite skip_applied by (intros; by apply list_elem_of_fmap_2).
  apply (apply_works _ _ done); [done| |done|done]. intros m. by apply rest_fresh.
Qed.

(** The starts of the program one after another, each with what becomes of its statements. *)
Definition starts (fss : list (list fate)) (d : db) : db := foldl (fun d fs => (Run sql leftover ms (fs, d)).2.2) d fss.
Definition fresh : db := {| schema := d0; recorded := None |}.

Lemma starts_begun fss : begun (starts fss fresh).
Proof.
  enough (forall d, begun d -> begun (starts fss d)) as H by (apply H; by left).
  induction fss as [|fs fss IH]; intros d Hd; [done|]. apply IH.
  destruct (Run sql leftover ms (fs, d)) as [r s'] eqn:Hr. by apply (Run_spec d fs r s').
Qed.
End Runs.

(** *** Runs that leave nothing half done *)

Section Clean.
Context {D : Type} (sql : string -> D -> option D) (ms : list Migration) (d0 : D).
Context (Hversions : NoDup (Version <$> ms)).

(** Texts outside transactions that were carried out have no further effect, as
    [IF NOT EXISTS] and [IF EXISTS] make it. *)
Definition repeatable : Prop := forall m, m ∈ ms -> isNonTransactional (UpSQL m) = true ->
  forall d d', sql (UpSQL m) d = Some d' -> sql (UpSQL m) d' = Some d'.

Definition nothing (text : string) (d : D) : D := d.

(** No text outside a transaction is cut off with something left behind. *)
Definition clean (leftover : string -> D -> D) (fs : list fate) (d : db) : Prop :=
  Run sql leftover ms (fs, d) = Run sql nothing ms (fs, d).
Fixpoint clean_starts (leftover : string -> D -> D) (fss : list (list fate)) (d : db) : Prop :=
  match fss with
  | [] => True
  | fs :: fss => clean leftover fs d /\ clean_starts leftover fss (Run sql leftover ms (fs, d)).2.2
  end.

Lemma clean_same leftover fss : forall d, clean_starts leftover fss d ->
  starts sql leftover ms fss d = starts sql nothing ms fss d.
Proof.
  induction fss as [|fs fss IH]; intros d; [done|]. intros [Hc Hs]. unfold starts in *. cbn [foldl].
  rewrite <-Hc. by apply IH.
Qed.

Hypothesis Hagain : repeatable.

Lemma attempts_once m s x : m ∈ ms -> isNonTransactional (UpSQL m) = true -> attempts sql nothing (UpSQL m) s x ->
  x = s \/ sql (UpSQL m) s = Some x.
Proof.
  intros Hm Hno. induction 1 as [|d' d'' _ [->|IH] Hd|d' _ IH]; [by left|by right| |done].
  right. rewrite (Hagain m Hm Hno _ _ IH) in Hd. congruence.
Qed.

Lemma carried_once done s : carried sql nothing d0 done s -> (forall m, m ∈ done -> m ∈ ms) -> migrate sql done d0 = Some s.
Proof.
  induction 1 as [|done m s s' _ IH Hno Hs|done m s x s' _ IH Hno Hx Hs]; intros Hin; [done|..];
    rewrite migrate_app, IH by (intros; apply Hin, elem_of_app; by left); cbn; [by rewrite Hs|].
  assert (m ∈ ms) as Hm by (apply Hin, elem_of_app; right; by apply list_elem_of_singleton).
  destruct (attempts_once m s x Hm Hno Hx) as [->|Hd]; [by rewrite Hs|].
  rewrite Hd. cbn. by rewrite <-Hs, (Hagain m Hm Hno _ _ Hd).
Qed.

(** What was done and tried can be finished. *)
Lemma begun_finish d s : begun sql nothing ms d0 d -> migrate sql ms d0 = Some s ->
  exists done rest, ms = done ++ rest /\ recorded_first done d /\ migrate sql rest (schema d) = Some s.
Proof.
  intros [[Hr Hd]|(done & rest & Hms & Hr & x & Hx & Hd)] Hs.
  { exists [], ms. unfold recorded_first. by rewrite Hr, Hd. }
  exists done, rest. split; [done|]. split; [unfold recorded_first; by rewrite Hr|].
  assert (migrate sql done d0 = Some x) as Hdone.
  { apply carried_once; [done|]. intros m Hm. rewrite Hms. apply elem_of_app. by left. }
  rewrite Hms, migrate_app, Hdone in Hs. cbn in Hs.
  destruct Hd as [->|(m & rest' & -> & Hno & Hat)]; [done|].
  assert (m ∈ ms) as Hm by (rewrite Hms; apply elem_of_app; right; apply list_elem_of_here).
  destruct (attempts_once m x _ Hm Hno Hat) as [->|Hd]; [done|]. cbn in Hs |- *. rewrite Hd in Hs. cbn in Hs.
  by rewrite (Hagain m Hm Hno _ _ Hd).
Qed.
End Clean.

Lemma loaded_versions entries : NoDup (Version <$> loadMigrations entries).
Proof.
  destruct (loadMigrations_spec entries) as (Hs & _). induction Hs as [|v l _ IH Hv]; [constructor|].
  apply NoDup_cons. split; [|done]. intros Hin. rewrite Forall_forall in Hv. by destruct (Hv v Hin).
Qed.

(** C12: Interrupted migrations. Start the program any number of times on an empty
    database with the migrations of any embedded directory, where any statement of
    any run can fail, lose its answer or be the last. When a run succeeds,
    every version is recorded once and in order; a text in a transaction has taken
    effect exactly once, one outside ([-- no-transaction]) has been carried out
    completely at last, on what any earlier attempts left, complete or cut off.
    If moreover no text outside a transaction was cut off with something left
    behind, and such texts have no further effect once they were carried out, then
    a run that succeeds leaves exactly the schema of all migrations carried out
    once; and when that schema exists, a start in which the statements work does
    succeed, and another one then changes nothing. (Cutting off CREATE INDEX
    CONCURRENTLY does leave something behind: Example invalid_index_kept.) *)
Theorem interrupted_runs {D} (sql : string -> D -> option D) leftover entries d0 fss :
  let ms := loadMigrations entries in let d := starts sql leftover ms fss (fresh d0) in
  (forall fs s', Run sql leftover ms (fs, d) = (Ok (), s') ->
     recorded s'.2 = Some (Version <$> ms) /\ carried sql leftover d0 ms (schema s'.2)) /\
  (forall s, repeatable sql ms -> clean_starts sql ms leftover fss (fresh d0) -> migrate sql ms d0 = Some s ->
     let final := {| schema := s; recorded := Some (Version <$> ms) |} in
     (forall fs s', clean sql ms leftover fs d -> Run sql leftover ms (fs, d) = (Ok (), s') -> s'.2 = final) /\
     Run sql leftover ms ([], d) = (Ok (), ([], final)) /\
     Run sql leftover ms ([], final) = (Ok (), ([], final))).
Proof.
  intros ms d. pose proof (loaded_versions entries : NoDup (Version <$> ms)) as Hv. split.
  - intros fs s' Hr. pose proof (starts_begun sql leftover ms d0 Hv fss) as Hd.
    by destruct (Run_spec sql leftover ms d0 Hv d fs _ _ Hd Hr) as (_ & [? ?]).
  - intros s Hagain Hclean Hs final. assert (begun sql (nothing) ms d0 d) as Hd.
    { unfold d. rewrite clean_same by done. by apply starts_begun. }
    split_and!.
    + intros fs s' Hc Hr. rewrite Hc in Hr. destruct (Run_spec sql nothing ms d0 Hv d fs _ _ Hd Hr) as (_ & [Hrec Hsch]); [done|].
      apply (carried_once sql ms d0 Hagain) in Hsch; [|done]. destruct s' as [fs' [sch rec]]. cbn in *. unfold final. congruence.
    + destruct (begun_finish sql ms d0 Hagain d s Hd Hs) as (done & rest & Hms & Hr & Hrest). by apply (Run_works _ _ _ Hv done rest).
    + apply (Run_works _ _ _ Hv ms []); [by rewrite app_nil_r|done|done].
Qed.

(** *** Rolling back *)

Section Rolling.
Context {D : Type} (sql : string -> D -> option D) (leftover : string -> D -> D) (ms : list Migration) (d0 : D).
Context (Hversions : NoDup (Version <$> ms)).

Lemma greatest_last l v : StronglySorted precedes (l ++ [v]) -> greatest (l ++ [v]) = Some v.
Proof.
  induction l as [|x l IH]; [done|]. cbn [app greatest foldr]. inversion 1 as [|? ? Hs Hx]; subst. fold (greatest (l ++ [v])).
  rewrite IH by done. rewrite decide_True; [done|]. rewrite Forall_forall in Hx. apply Hx, elem_of_app. right. by apply list_elem_of_singleton.
Qed.

Lemma find_version m : m ∈ ms -> List.find (fun x => String.eqb (Version x) (Version m)) ms = Some m.
Proof.
  intros Hm. destruct (List.find _ ms) as [x|] eqn:Hf.
  - apply List.find_some in Hf as [Hx%list_elem_of_In Hv%String.eqb_eq]. f_equal. by apply (unique_key Version ms).
  - apply list_elem_of_In in Hm. pose proof (List.find_none _ _ Hf m Hm) as Hn. cbn in Hn. by rewrite String.eqb_refl in Hn.
Qed.

Lemma remove_last done m (d : db (D := D)) : recorded d = Some (Version <$> done ++ [m]) -> Version m ∉ Version <$> done ->
  remove_version (Version m) d = Some {| schema := schema d; recorded := Some (Version <$> done) |}.
Proof.
  intros Hr Hn. unfold remove_version. rewrite Hr, fmap_app, List.filter_app. cbn. rewrite String.eqb_refl. cbn. rewrite app_nil_r.
  do 3 f_equal. clear Hr. induction (Version <$> done) as [|v l IH]; [done|]. cbn. rewrite not_elem_of_cons in Hn. destruct Hn as [Hv Hn].
  destruct (String.eqb_spec v (Version m)); [congruence|]. cbn. by rewrite IH.
Qed.

(** A rollback takes back the last migration and the next start carries it out
    again. When some migrations are done, the texts of the last one undo each
    other, and the statements work, the rollback leaves the schema and the record of the
    migrations before it, whether its text runs in a transaction or not, and a
    start then restores all migrations. *)
Theorem rollback_roundtrip done m rest s1 s2 s : StronglySorted precedes (Version <$> ms) -> ms = done ++ m :: rest ->
  migrate sql done d0 = Some s1 -> sql (UpSQL m) s1 = Some s2 -> sql (DownSQL m) s2 = Some s1 -> migrate sql ms d0 = Some s ->
  let d := {| schema := s2; recorded := Some (Version <$> done ++ [m]) |} in
  let back := {| schema := s1; recorded := Some (Version <$> done) |} in
  Rollback sql leftover ms ([], d) = (Ok (), ([], back)) /\
  Run sql leftover ms ([], back) = (Ok (), ([], {| schema := s; recorded := Some (Version <$> ms) |})).
Proof.
  intros Hsort Hms H1 H2 Hdown Hs d back. pose proof (version_fresh _ Hversions done m rest Hms) as Hn. split.
  - unfold Rollback, stmt, mbind, M_bind. cbn [fst snd head tail default]. cbn [recorded d mbind option_bind].
    rewrite fmap_app at 1. cbn [fmap list_fmap].
    rewrite greatest_last; cycle 1.
    { rewrite Hms in Hsort. replace (done ++ m :: rest) with ((done ++ [m]) ++ rest) in Hsort by by rewrite <-app_assoc.
      rewrite fmap_app in Hsort. apply StronglySorted_app in Hsort as (_ & Hsort & _). by rewrite fmap_app in Hsort. }
    cbn [fst snd]. rewrite find_version by (rewrite Hms; apply elem_of_app; right; apply list_elem_of_here).
    assert (two (exec sql (DownSQL m)) (remove_version (Version m)) d = Some back) as Htwo.
    { unfold two, exec. cbn [schema d]. rewrite Hdown. cbn [mbind option_bind recorded d]. by apply remove_last. }
    assert (exec sql (DownSQL m) d = Some {| schema := s1; recorded := recorded d |}) as Hexec by (unfold exec; cbn [schema d]; by rewrite Hdown).
    destruct (isNonTransactional (DownSQL m)).
    + unfold rollbackMigrationNoTx, exec_alone, stmt, mbind, M_bind. cbn [fst snd head tail default]. rewrite Hexec. cbn [fst snd].
      rewrite (remove_last done) by done. done.
    + unfold in_tx, commit, stmt, mbind, M_bind. cbn [fst snd head tail default]. rewrite Hexec. cbn [fst snd head tail default].
      rewrite Htwo. cbn [fst snd head tail default]. by rewrite Htwo.
  - apply (Run_works _ _ _ Hversions done (m :: rest)); [done..|].
    rewrite Hms, migrate_app, H1 in Hs. exact Hs.
Qed.
End Rolling.

(** ** Examples *)

Module Example_migrations.
(** The files of a small directory, with an index that is built outside a transaction. *)
Definition no_tx : string := "-- no-transaction" +:+ String "010" "CREATE INDEX CONCURRENTLY IF NOT EXISTS i ON t (c)".
Definition files : list entry :=
  [{| en_name := "001_table.down.sql"; en_dir := false; en_content := "DROP TABLE t" |};
   {| en_name := "001_table.up.sql"; en_dir := false; en_content := "CREATE TABLE t (c TEXT)" |};
   {| en_name := "002_index.down.sql"; en_dir := false; en_content := "DROP INDEX i" |};
   {| en_name := "002_index.up.sql"; en_dir := false; en_content := no_tx |};
   {| en_name := "README.md"; en_dir := false; en_content := "" |}].
Definition ms : list Migration := loadMigrations files.
Example loaded : (fun m => (Version m, Name m)) <$> ms = [("001", "001_table"); ("002", "002_index")].
Proof. by vm_compute. Qed.

(** Two files of one version: the second one replaces the first without a word. *)
Example version_twice :
  UpSQL <$> loadMigrations [{| en_name := "001_a.up.sql"; en_dir := false; en_content := "A" |};
                            {| en_name := "001_b.up.sql"; en_dir := false; en_content := "B" |}] = ["B"].
Proof. by vm_compute. Qed.

(** Whether the table is there, and the index: absent, built, or left invalid. *)
Inductive index := Absent | Invalid | Valid.
Definition sch : Type := bool * index.
(** The database does as PostgreSQL does: [IF NOT EXISTS] looks at the name only. *)
Definition sql (text : string) (d : sch) : option sch :=
  if String.eqb text "CREATE TABLE t (c TEXT)" then if d.1 then None else Some (true, d.2)
  else if String.eqb text no_tx then
    if d.1 then Some (true, match d.2 with Invalid => Invalid | _ => Valid end) else None
  else if String.eqb text "DROP INDEX i" then Some (d.1, Absent)
  else if String.eqb text "DROP TABLE t" then Some (false, Absent)
  else Some d.
Definition leftover (text : string) (d : sch) : sch :=
  if String.eqb text no_tx then match d with (true, Absent) => (true, Invalid) | _ => d end else d.

Lemma ms_versions : NoDup (Version <$> ms).
Proof. apply NoDup_compute. by vm_compute. Qed.
Lemma ms_again m : m ∈ ms -> isNonTransactional (UpSQL m) = true -> UpSQL m = no_tx.
Proof.
  intros Hm Hno. assert (UpSQL m ∈ UpSQL <$> ms) as Hu by by apply list_elem_of_fmap_2.
  change (UpSQL <$> ms) with ["CREATE TABLE t (c TEXT)"; no_tx] in Hu. apply elem_of_cons in Hu as [Hu|Hu]; [by rewrite Hu in Hno|].
  by apply list_elem_of_singleton in Hu.
Qed.
Lemma ms_repeatable : repeatable sql ms.
Proof. intros m Hm Hno d d'. rewrite (ms_again m Hm Hno). destruct d as [[] []]; cbn; by intros [= <-]. Qed.

(** The first start cannot read what is applied, the second cannot commit the table,
    the third loses the answer to the index, which was built. *)
Definition stumbles : list (list fate) :=
  [[Works; Fails]; [Works; Works; Works; Works; Works; Fails];
   [Works; Works; Works; Works; Works; Works; AnswerLost]].
Lemma interrupted_runs_witness :
  starts sql leftover ms stumbles (fresh (false, Absent)) = {| schema := (true, Valid); recorded := Some ["001"] |} /\
  Run sql leftover ms ([], starts sql leftover ms stumbles (fresh (false, Absent))) =
    (Ok (), ([], {| schema := (true, Valid); recorded := Some ["001"; "002"] |})).
Proof.
  destruct (interrupted_runs sql leftover files (false, Absent) stumbles) as [_ Hr].
  destruct (Hr (true, Valid)) as (_ & Hgo & _); [exact ms_repeatable| |by vm_compute|].
  - split; [|split; [|split; [|done]]]; by vm_compute.
  - split; [by vm_compute|exact Hgo].
Defined.
Lemma rollback_roundtrip_witness :
  Rollback sql leftover ms ([], {| schema := (true, Valid); recorded := Some ["001"; "002"] |}) =
    (Ok (), ([], {| schema := (true, Absent); recorded := Some ["001"] |})).
Proof.
  destruct (rollback_roundtrip sql leftover ms (false, Absent) ms_versions
    (take 1 ms) (nth 1 ms {| Version := ""; Name := ""; UpSQL := ""; DownSQL := "" |}) [] (true, Absent) (true, Valid) (true, Valid)) as [Hr _].
  - apply loadMigrations_spec.
  - by vm_compute.
  - by vm_compute.
  - by vm_compute.
  - by vm_compute.
  - by vm_compute.
  - exact Hr.
Defined.

(** An index that was cut off while it was built concurrently stays, invalid, under
    its name, so the next start finds it there and records the migration as done. *)
Definition cut_off : list (list fate) := [[Works; Fails]; [Works; Works; Works; Works; Works; Works; Fails]].
Example invalid_index_kept :
  Run sql leftover ms ([], starts sql leftover ms cut_off (fresh (false, Absent))) =
    (Ok (), ([], {| schema := (true, Invalid); recorded := Some ["001"; "002"] |})).
Proof. by vm_compute. Qed.

(** A version without a text to take it back loses its record and keeps its schema; the
    next start tries to carry it out again. *)
Example rollback_without_text : let ms := loadMigrations (List.filter (fun e => negb (String.eqb (en_name e) "001_table.down.sql")) (take 2 files)) in
  Rollback sql leftover ms ([], {| schema := (true, Absent); recorded := Some ["001"] |}) =
    (Ok (), ([], {| schema := (true, Absent); recorded := Some [] |})) /\
  (Run sql leftover ms ([], {| schema := (true, Absent); recorded := Some [] |})).1 = Err (EApply "001").
Proof. split; by vm_compute. Qed.
End Example_migrations.
