(* ===== verification/Process.v ===== *)
(** The process and its operators: how [cmd/hypergoat/main.go] starts the background
    services, shuts them down and exits; the raw admin endpoints of
    [admin_http.go]; and the guard of the full backfill in
    [internal/graphql/admin/resolvers_backfill.go]. *)
From S2P Require Import Prelude GoStrings Utf8 AtProto Config Labeler Backfill LabelStream Labels Statements.

Local Open Scope Z_scope.

(** ** Shutting down *)

Module Lifecycle.
Inductive action :=
| DrainHTTP | CancelOAuthCleanup | AwaitOAuthCleanup | CancelWorkers | StopJetstream | CancelJetstream | CancelTap
| StopDIDCache | StopLabeler (did : string) | CancelLabelers | CancelBackfill | CloseDB.
#[global] Instance action_eq : EqDecision action.
Proof. solve_decision. Defined.

(** Which of its fields are set; of the cache, whether the channel of its cleanup
    routine has been closed. *)
Record backgroundServices := {
  oauthCleanupCancel : bool; workersCancel : bool; jsConsumer : bool; jsCancel : bool; tapCancel : bool;
  didCacheStop : option bool; labelerConsumers : list string; labelerCancel : bool; backfillCancel : bool
}.

Definition when (b : bool) (l : list action) : list action := if b then l else [].

(** [backgroundServices.Stop]: what it does, and the services afterwards; [None] when
    it panics, in the second [close] of a channel. *)
Definition Stop (bg : backgroundServices) : list action * option backgroundServices :=
  let first := when (oauthCleanupCancel bg) [CancelOAuthCleanup; AwaitOAuthCleanup] ++ when (workersCancel bg) [CancelWorkers] ++
    when (jsConsumer bg) [StopJetstream] ++ when (jsCancel bg) [CancelJetstream] ++ when (tapCancel bg) [CancelTap] in
  let rest := (StopLabeler <$> labelerConsumers bg) ++ when (labelerCancel bg) [CancelLabelers] ++ when (backfillCancel bg) [CancelBackfill] in
  let stopped cache := {| oauthCleanupCancel := oauthCleanupCancel bg; workersCancel := workersCancel bg; jsConsumer := jsConsumer bg;
    jsCancel := jsCancel bg; tapCancel := tapCancel bg; didCacheStop := cache; labelerConsumers := []; labelerCancel := false;
    backfillCancel := backfillCancel bg |} in
  match didCacheStop bg with
  | None => (first ++ rest, Some (stopped None))
  | Some false => (first ++ [StopDIDCache] ++ rest, Some (stopped (Some true)))
  | Some true => (first, None)
  end.

(** [startLabeler]: the consumers that are started. *)
Definition labeler_dids (cfg : Config.Config) : list string :=
  filter (fun d => Did.IsValid d = true) (SplitCSV (LabelerDIDs cfg)).
Definition startLabeler (cfg : Config.Config) : list string :=
  if LabelerDryRun cfg then [] else labeler_dids cfg.

(** The collections of a backfill, by [configureBackfillCallbacks] and [startBackfill]. *)
Definition backfill_collections (cfg : Config.Config) : list string :=
  if is_empty (BackfillCollections cfg) then Collections.ParseCollections (JetstreamCollections cfg)
  else Collections.ParseCollections (BackfillCollections cfg).
Definition startBackfill (cfg : Config.Config) : bool :=
  BackfillOnStart cfg && match backfill_collections cfg with [] => false | _ => true end.
(** The collections of a full backfill, from the table when none are configured. *)
Definition full_collections (cfg : Config.Config) (lexicons : option (list string)) : option (list string) :=
  match backfill_collections cfg with [] => lexicons | cs => Some cs end.

(** The services after [run] has started them. *)
Definition started (cfg : Config.Config) (collections : list string) : backgroundServices :=
  let js := negb (TapEnabled cfg) && match collections with [] => false | _ => true end in
  {| oauthCleanupCancel := true; workersCancel := true; jsConsumer := js; jsCancel := js; tapCancel := TapEnabled cfg;
     didCacheStop := Some false; labelerConsumers := startLabeler cfg;
     labelerCancel := match startLabeler cfg with [] => false | _ => true end; backfillCancel := startBackfill cfg |}.

(** What [serve] waits for, and how it returns. *)
Inductive event := ServerError | Signal | Restart (reason : string).
Inductive serve_end := Served | Failed | RestartRequested.

Definition serve (ev : event) (drained : bool) (bg : backgroundServices) : list action * option (serve_end * backgroundServices) :=
  match ev with
  | ServerError => ([], Some (Failed, bg))
  | _ =>
      let '(tr, r) := Stop bg in
      (DrainHTTP :: tr,
       match r with
       | None => None
       | Some bg' =>
           Some (if negb drained then Failed
                 else match ev with Restart reason => if is_empty reason then Served else RestartRequested | _ => Served end, bg')
       end)
  end.

(** The end of [run] with its deferred calls, [Stop] and then the close of the pool,
    and the status of the process; a panic ends it with status 2 after the
    deferred calls. *)
Definition main (ev : event) (drained : bool) (bg : backgroundServices) : list action * Z :=
  let '(tr, r) := serve ev drained bg in
  match r with
  | None => let '(tr', _) := Stop bg in (tr ++ tr' ++ [CloseDB], 2)
  | Some (e, bg') =>
      let '(tr', r') := Stop bg' in
      (tr ++ tr' ++ [CloseDB],
       match r' with
       | None => 2
       | Some _ => match e with Served => 0 | RestartRequested => 42 | Failed => 1 end
       end)
  end.
End Lifecycle.

(** ** The raw admin endpoints *)

Module Operator.
Record request := { Authorization : string; q_did : string; q_uri : string }.
Inductive reply := Status (code : Z) | ResetDone (did : string) | PausedDone (did : string) | Chain (uri : string) (labels : list Label).

(** The status of a refusal. *)
Definition checkAdminBearer (adminAPIKey : string) (req : request) : option Z :=
  if is_empty adminAPIKey then Some 403
  else if negb (has_prefix (Authorization req) "Bearer ") then Some 401
  else if String.eqb (trim_prefix (Authorization req) "Bearer ") adminAPIKey then None else Some 401.

(** [config.Delete]. *)
Abbreviation C := (Statements.M ConfigStore.store unit).
Definition delete_key (key : string) : C unit := stmt () (fun s => Some ((), delete key s)).

(** A statement whose failure is answered with a status. *)
Definition or_status {T E A} (code : Z) (m : Statements.M T E A) (f : A -> Statements.M T E reply) : Statements.M T E reply :=
  fun s => let r := m s in match r.1 with Ok a => f a r.2 | Err _ => (Ok (Status code), r.2) end.

Definition labelerReset (adminAPIKey : string) (req : request) : C reply :=
  match checkAdminBearer adminAPIKey req with
  | Some code => mret (Status code)
  | None =>
      let did := q_did req in
      if is_empty did || negb (Did.IsValid did) then mret (Status 400)
      else
        or_status 500 (delete_key ("labeler_cursor:" +:+ did)) (fun _ =>
        or_status 500 (delete_key ("labeler_backfill_cursor:" +:+ did)) (fun _ =>
        mret (ResetDone did)))
  end.

(** The reply, the consumers that are left, and the one that is stopped. *)
Fixpoint remove_first (did : string) (l : list string) : option (list string) :=
  match l with
  | [] => None
  | d :: l => if String.eqb d did then Some l else l' ← remove_first did l; Some (d :: l')
  end.
Definition labelerPause (adminAPIKey : string) (req : request) (consumers : list string) : reply * list string * option string :=
  match checkAdminBearer adminAPIKey req with
  | Some code => (Status code, consumers, None)
  | None =>
      let did := q_did req in
      if is_empty did || negb (Did.IsValid did) then (Status 400, consumers, None)
      else match remove_first did consumers with
           | None => (Status 404, consumers, None)
           | Some rest => (PausedDone did, rest, Some did)
           end
  end.

Definition labelChain (adminAPIKey : string) (req : request) : Labels.M reply :=
  match checkAdminBearer adminAPIKey req with
  | Some code => mret (Status code)
  | None =>
      let uri := q_uri req in
      if is_empty uri then mret (Status 400)
      else or_status 500 (Labels.GetAllForURI uri) (fun rows => mret (Chain uri rows))
  end.
End Operator.

(** ** The full backfill *)

Module FullBackfill.
(** [backfillActive], and the backfills that run. *)
Record state := { active : bool; running : nat }.

Inductive answer := Started | NotConfigured | InProgress.
Definition TriggerBackfill (configured : bool) (s : state) : answer * state :=
  if negb configured then (NotConfigured, s)
  else if active s then (InProgress, s)
  else (Started, {| active := true; running := S (running s) |}).

(** A request is answered, or a backfill ends, with an error or without. *)
Inductive step (configured : bool) : state -> option answer -> state -> Prop :=
| s_trigger s : step configured s (Some (TriggerBackfill configured s).1) (TriggerBackfill configured s).2
| s_end s n : running s = S n -> step configured s None {| active := false; running := n |}.

(** [BackfillActor]: the account is registered before the callback, which may be
    missing, is called. *)
Inductive actor_error := EInvalidDID | ERegister | ETrigger.
Definition BackfillActor (did : string) (registered : bool) (callback : option bool) : result actor_error unit :=
  if negb (Did.IsValid did) then Err EInvalidDID
  else if negb registered then Err ERegister
  else match callback with Some false => Err ETrigger | _ => Ok () end.
End FullBackfill.

(** ** What a shutdown does *)

Module Lifecycle_facts.
Import Lifecycle.

Lemma Stop_open bg : Forall (fun a => a <> CloseDB) (Stop bg).1.
Proof.
  assert (forall b l, Forall (fun a => a <> CloseDB) l -> Forall (fun a => a <> CloseDB) (when b l)) as Hw by (by intros [] l).
  unfold Stop. destruct (didCacheStop bg) as [[]|]; cbn [fst]; repeat (apply Forall_app; split);
    try (apply Hw; by repeat constructor); try by repeat constructor.
  all: by apply Forall_fmap, Forall_true.
Qed.

(** Both calls of [Stop], the second of which panics. *)
Lemma main_stops ev drained bg : didCacheStop bg = Some false -> exists tr1 tr2, main ev drained bg = (tr1 ++ tr2 ++ [CloseDB], match ev with ServerError => 1 | _ => 2 end) /\
    (forall a, a ∈ (Stop bg).1 -> a ∈ tr1 ++ tr2) /\ Forall (fun a => a <> CloseDB) (tr1 ++ tr2) /\
    (ev = ServerError \/ head tr1 = Some DrainHTTP).
Proof.
  intros Hfresh. destruct (Stop bg) as [tr [bg'|]] eqn:Hst; [|unfold Stop in Hst; by rewrite Hfresh in Hst]. pose proof (Stop_open bg) as H1. rewrite Hst in H1. cbn in H1.
  assert (didCacheStop bg' = Some true) as Hc by (unfold Stop in Hst; rewrite Hfresh in Hst; by injection Hst as _ <-).
    pose proof (Stop_open bg') as H2. unfold main, serve. rewrite Hst. destruct ev as [| |reason].
    - exists [], tr. rewrite Hst. by split_and!; [..|left].
    - assert (exists tr', Stop bg' = (tr', None)) as [tr' Hst'] by (unfold Stop; rewrite Hc; by eexists). rewrite Hst' in *.
      exists (DrainHTTP :: tr), tr'. split; [by destruct drained|]. split_and!; [set_solver| |by right].
      apply Forall_app. by split; [constructor|].
    - assert (exists tr', Stop bg' = (tr', None)) as [tr' Hst'] by (unfold Stop; rewrite Hc; by eexists). rewrite Hst' in *.
      exists (DrainHTTP :: tr), tr'. split; [by destruct drained|]. split_and!; [set_solver| |by right].
      apply Forall_app. by split; [constructor|].
Qed.

(** C11: A shutdown that the process is asked for always ends in a panic. Whatever is
    configured, on a signal or a request to restart the process first drains HTTP,
    then stops every service that was started (the labelers that are configured and
    valid, Tap, the backfill, the clean-up of tokens, which it waits for), and closes the
    database last; but the deferred second [Stop] closes the channel of the DID
    cache again, so the status is 2, never 0 for a signal or 42 for a restart. When
    the server fails the services are stopped once and the status is 1. *)
Theorem shutdown_status cfg collections ev drained : let '(tr, status) := main ev drained (started cfg collections) in
  status = match ev with ServerError => 1 | _ => 2 end /\
  (exists tr', tr = tr' ++ [CloseDB] /\ CloseDB ∉ tr') /\
  (ev = ServerError \/ head tr = Some DrainHTTP) /\
  CancelOAuthCleanup ∈ tr /\ AwaitOAuthCleanup ∈ tr /\ CancelWorkers ∈ tr /\ StopDIDCache ∈ tr /\
  (TapEnabled cfg = true -> CancelTap ∈ tr) /\
  (TapEnabled cfg = false -> collections <> [] -> StopJetstream ∈ tr) /\
  (BackfillOnStart cfg = true -> backfill_collections cfg <> [] -> CancelBackfill ∈ tr) /\
  (forall did, LabelerDryRun cfg = false -> did ∈ SplitCSV (LabelerDIDs cfg) -> Did.IsValid did = true -> StopLabeler did ∈ tr).
Proof.
  set (bg := started cfg collections).
  destruct (main_stops ev drained bg) as (tr1 & tr2 & -> & Hin & Hopen & Hhead); [done|].
  rewrite app_assoc. split; [done|]. split.
  { exists (tr1 ++ tr2). split; [done|]. rewrite Forall_forall in Hopen. intros Hc. by apply (Hopen CloseDB). }
  split. { destruct Hhead as [?|Hh]; [by left|right]. by destruct tr1. }
  assert (forall a, a ∈ (Stop bg).1 -> a ∈ (tr1 ++ tr2) ++ [CloseDB]) as Hall by (intros a Ha; apply elem_of_app; left; by apply Hin).
  clear Hin Hopen Hhead. subst bg. unfold started, Stop in Hall. cbn [didCacheStop oauthCleanupCancel workersCancel jsConsumer jsCancel tapCancel labelerConsumers labelerCancel backfillCancel fst] in Hall.
  split_and!.
  - apply Hall. cbn. apply elem_of_cons. by left.
  - apply Hall. cbn. apply elem_of_cons. right. apply elem_of_cons. by left.
  - apply Hall. cbn. do 2 (apply elem_of_cons; right). apply elem_of_cons. by left.
  - apply Hall. rewrite !elem_of_app. right. left. by apply list_elem_of_singleton.
  - intros Ht. apply Hall. rewrite !elem_of_app. left. do 4 right. rewrite Ht. by apply list_elem_of_singleton.
  - intros Ht Hc. apply Hall. rewrite !elem_of_app. left. do 2 right. left. rewrite Ht. destruct collections; [done|]. by apply list_elem_of_singleton.
  - intros Hb Hc. apply Hall. rewrite !elem_of_app. do 4 right. unfold startBackfill. rewrite Hb. destruct (backfill_collections cfg); [done|].
    by apply list_elem_of_singleton.
  - intros did Hdry Hdid Hv. apply Hall. rewrite !elem_of_app. right. right. left. apply list_elem_of_fmap_2. unfold startLabeler, labeler_dids.
    rewrite Hdry. apply list_elem_of_filter. by split.
Qed.
End Lifecycle_facts.

(** ** What the endpoints do *)

Module Operator_facts.
Import Operator.

Definition authorized (adminAPIKey : string) (req : request) : Prop :=
  adminAPIKey <> "" /\ Authorization req = "Bearer " +:+ adminAPIKey.

Lemma checkAdminBearer_spec adminAPIKey req : checkAdminBearer adminAPIKey req = None <-> authorized adminAPIKey req.
Proof.
  unfold checkAdminBearer, authorized. destruct adminAPIKey as [|c k]; [by split; [|intros []]|]. cbn [is_empty].
  destruct (has_prefix (Authorization req) "Bearer ") eqn:Hp; cbn [negb].
  - apply prefix_spec in Hp as [r Hr]. rewrite Hr, trim_prefix_app. destruct (String.eqb_spec r (String c k)) as [->|Hn]; [done|].
    split; [done|]. intros [_ He]. by apply (inj (String.append "Bearer ")) in He.
  - split; [done|]. intros [_ He]. rewrite He in Hp. by vm_compute in Hp.
Qed.

(** The reset of a labeler changes nothing unless the key is configured and given
    and the DID is valid; then it deletes the cursor of that labeler, and if that
    worked its backfill checkpoint, and no other row of the configuration; when it
    says so both are gone. *)
Theorem labelerReset_only adminAPIKey req fs s : let r := labelerReset adminAPIKey req (fs, s) in
  (r.2.2 <> s -> authorized adminAPIKey req /\ Did.IsValid (q_did req) = true) /\
  (forall key, key <> cursorKey (q_did req) -> key <> backfillCursorKey (q_did req) -> r.2.2 !! key = s !! key) /\
  (r.2.2 !! backfillCursorKey (q_did req) <> s !! backfillCursorKey (q_did req) -> r.2.2 !! cursorKey (q_did req) = None) /\
  (forall did, r.1 = Ok (ResetDone did) -> did = q_did req /\ authorized adminAPIKey req /\
     r.2.2 !! cursorKey did = None /\ r.2.2 !! backfillCursorKey did = None).
Proof.
  unfold labelerReset. destruct (checkAdminBearer adminAPIKey req) as [code|] eqn:Hc; [by split_and!|]. apply checkAdminBearer_spec in Hc.
  destruct (is_empty (q_did req) || negb (Did.IsValid (q_did req))) eqn:Hv; [by split_and!|].
  apply orb_false_iff in Hv as [_ Hv]. apply negb_false_iff in Hv.
  change ("labeler_cursor:" +:+ q_did req) with (cursorKey (q_did req)). change ("labeler_backfill_cursor:" +:+ q_did req) with (backfillCursorKey (q_did req)).
  assert (cursorKey (q_did req) <> backfillCursorKey (q_did req)) as Hne by done.
  remember (cursorKey (q_did req)) as k1 eqn:E1. remember (backfillCursorKey (q_did req)) as k2 eqn:E2.
  unfold or_status, delete_key, stmt.
  destruct (default Works (head fs)); cbn [fst snd mret M_ret]; [destruct (default Works (head (tail fs)))| |]; cbn [fst snd mret M_ret];
    (split; [done|]); (split; [intros key H1 H2; by rewrite ?lookup_delete_ne by done|]);
    (split; [intros Hx; first [by destruct Hx|apply lookup_delete_eq|rewrite lookup_delete_ne by done; apply lookup_delete_eq]|]); intros did Hd; try done.
  injection Hd as <-. rewrite <-E1, <-E2. split_and!; [done..| |].
  - rewrite lookup_delete_ne by done. apply lookup_delete_eq.
  - apply lookup_delete_eq.
Qed.

(** A pause stops one consumer of the DID, the first, and keeps the others in order. *)
Lemma labelerPause_spec adminAPIKey req consumers :
  match labelerPause adminAPIKey req consumers with
  | (_, remaining, None) => remaining = consumers
  | (reply, remaining, Some did) => authorized adminAPIKey req /\ did = q_did req /\ reply = PausedDone did /\
      exists before after, consumers = before ++ did :: after /\ remaining = before ++ after /\ did ∉ before
  end.
Proof.
  unfold labelerPause. destruct (checkAdminBearer adminAPIKey req) eqn:Hc; [done|]. apply checkAdminBearer_spec in Hc.
  destruct (_ || _); [done|]. destruct (remove_first (q_did req) consumers) as [remaining|] eqn:Hr; [|done]. split; [done|]. split; [done|]. split; [done|].
  revert remaining Hr. induction consumers as [|d l IH]; intros remaining Hr; [done|]. cbn in Hr. destruct (String.eqb_spec d (q_did req)) as [->|Hn].
  - injection Hr as ->. exists [], remaining. split_and!; [done..|]. apply not_elem_of_nil.
  - destruct (remove_first (q_did req) l) as [l'|]; [|done]. injection Hr as <-. destruct (IH l' eq_refl) as (b & a & -> & -> & Hb).
    exists (d :: b), a. split_and!; [done..|]. rewrite not_elem_of_cons. by split.
Qed.
End Operator_facts.

Module FullBackfill_facts.
Import FullBackfill.

Inductive reachable (configured : bool) : state -> Prop :=
| r_start : reachable configured {| active := false; running := 0 |}
| r_step s a s' : reachable configured s -> step configured s a s' -> reachable configured s'.

(** Of the full backfills that administrators ask for at most one runs at a time:
    whatever the order of the requests and the ends, the flag is set exactly while
    one runs, and a request is told that it was started exactly when none ran. *)
Theorem one_full_backfill configured s : reachable configured s ->
  (running s <= 1)%nat /\ active s = bool_decide (running s = 1%nat) /\
  ((TriggerBackfill configured s).1 = Started <-> configured = true /\ running s = 0%nat).
Proof.
  intros Hr. assert ((running s <= 1)%nat /\ active s = bool_decide (running s = 1%nat)) as [Hle Ha].
  { induction Hr as [|s a s' _ [IHn IHa] Hst]; [by split; [cbn; lia|]|].
    destruct Hst as [s|s n Hn].
    - unfold TriggerBackfill. destruct configured; cbn [negb]; [|done]. destruct (active s) eqn:Has; [cbn; rewrite Has; by split|].
      symmetry in IHa. apply bool_decide_eq_false in IHa. cbn. assert (running s = 0%nat) as -> by lia. by split; [lia|].
    - cbn. assert (n = 0%nat) as -> by lia. by split; [lia|]. }
  split; [done|]. split; [done|]. unfold TriggerBackfill. destruct configured; cbn [negb]; [|by split; [|intros []]].
  rewrite Ha. case_bool_decide; cbn; split; try done; [intros [_ ?]; lia|]. intros _. split; [done|lia].
Qed.
End FullBackfill_facts.

(** ** Examples *)

Module Example_process.
Import Lifecycle Operator.

(** Were the channel closed once, a restart would end with its status. *)
Definition bare : backgroundServices :=
  {| oauthCleanupCancel := true; workersCancel := true; jsConsumer := true; jsCancel := true; tapCancel := false; didCacheStop := Some false;
     labelerConsumers := []; labelerCancel := false; backfillCancel := false |}.
Example restart_status : (main (Restart "lexicons uploaded") true bare).2 = 2 /\
  (main (Restart "lexicons uploaded") true {| oauthCleanupCancel := true; workersCancel := true; jsConsumer := true; jsCancel := true;
     tapCancel := false; didCacheStop := None; labelerConsumers := []; labelerCancel := false; backfillCancel := false |}).2 = 42.
Proof. split; reflexivity. Qed.

(** A labeler that is configured twice has two consumers; a pause stops one and says
    that the labeler is paused. *)
Definition ask (did : string) : request := {| Authorization := "Bearer key"; q_did := did; q_uri := "" |}.
Example paused_once : labelerPause "key" (ask "did:plc:lab") ["did:plc:lab"; "did:plc:x"; "did:plc:lab"] =
  (PausedDone "did:plc:lab", ["did:plc:x"; "did:plc:lab"], Some "did:plc:lab").
Proof. reflexivity. Qed.

(** The reset of a labeler whose consumer has handled a frame does not survive the
    shutdown it asks for: the flusher writes the cursor back on the way out, so
    the next start runs no backfill. *)
Import LabelStream.Example_stream LabelStream.Consumer.
#[local] Existing Instance Labeler.Example_labels.no_times.
Definition reset_store : ConfigStore.store := (labelerReset "key" (ask lab) ([], flushed_5)).2.2.
Example reset_undone : loadCursor lab reset_store = None /\
  exists w, rtc (step lab false false true) (with_config reset_store (at_5 Up flushed_5 (set_flush (Idle 5) handled_5) after_5)) w /\
    main w = Finished /\ loadCursor lab (config w) = Some 5.
Proof.
  split; [by vm_compute|]. eexists. split.
  - eapply rtc_l; [by apply (s_cancel lab false false true)|].
    eapply rtc_l; [by eapply (s_return lab false false true 0 _ false)|].
    eapply rtc_l; [by eapply (s_stop lab false false true _ false); [|left]|].
    eapply rtc_l; [by apply (s_flush lab false false true)|].
    eapply rtc_l; [by apply (s_flushed lab false false true 5)|].
    eapply rtc_l; [by eapply (s_last lab false false true 0); [|..|left]|].
    eapply rtc_l; [by eapply (s_lasted lab false false true 0 _ 5)|]. reflexivity.
  - split; by vm_compute.
Qed.

Lemma one_full_backfill_witness :
  (FullBackfill.TriggerBackfill true {| FullBackfill.active := true; FullBackfill.running := 1 |}).1 = FullBackfill.InProgress /\
  (1 <= 1)%nat.
Proof.
  assert (FullBackfill_facts.reachable true {| FullBackfill.active := true; FullBackfill.running := 1 |}) as Hr.
  { eapply FullBackfill_facts.r_step; [apply FullBackfill_facts.r_start|].
    apply (FullBackfill.s_trigger true {| FullBackfill.active := false; FullBackfill.running := 0 |}). }
  split; [reflexivity|]. apply (FullBackfill_facts.one_full_backfill true _ Hr).
Defined.
End Example_process.
