(* ===== verification/AdminApi.v ===== *)
(** The fields of the admin API ([internal/graphql/admin/schema.go], and those of
    [internal/notifications/resolver.go] that main adds): their arguments
    and types, who may ask for them, and which resolver they call with what. *)
From S2P Require Import Prelude GoStrings Depth TokenEndpoint Access.

Local Open Scope Z_scope.

(** ** Types, arguments and resolvers *)

Inductive gtype := TString | TInt | TBoolean | TNamed (name : string) | TNonNull (t : gtype) | TList (t : gtype).

(** The values of arguments as graphql-go hands them over, with defaults filled in. *)
Inductive value := VStr (s : string) | VInt (z : Z) | VList (l : list value) | VOther.
Abbreviation arguments := (gmap string value).

Definition str (a : arguments) (key : string) : string := match a !! key with Some (VStr s) => s | _ => "" end.
Definition int (a : arguments) (key : string) : Z := match a !! key with Some (VInt z) => z | _ => 0 end.
Definition strs (a : arguments) (key : string) : list string :=
  match a !! key with Some (VList l) => (fun v => match v with VStr s => s | _ => "" end) <$> l | _ => [] end.
(** The texts of a list, other items dropped. *)
Definition texts (a : arguments) (key : string) : list string :=
  match a !! key with Some (VList l) => omap (fun v => match v with VStr s => Some s | _ => None end) l | _ => [] end.
(** A pointer to an argument that is not empty. *)
Definition ptr (a : arguments) (key : string) : option string := given (Some (str a key)).

Record arg := { a_name : string; a_type : gtype; a_default : option value }.
Definition req (name : string) (t : gtype) : arg := {| a_name := name; a_type := TNonNull t; a_default := None |}.
Definition optional (name : string) (t : gtype) : arg := {| a_name := name; a_type := t; a_default := None |}.
Definition defaulted (name : string) (t : gtype) (v : Z) : arg := {| a_name := name; a_type := t; a_default := Some (VInt v) |}.

(** The methods of the resolver with their arguments. *)
Inductive call :=
| CCurrentSession (userDID handle : string) (adminDIDs : list string)
| CStatistics | CSettings | CIsBackfilling | CLexicons | COAuthClients | CCollectionOverview
| CActivityBuckets (range : string) | CRecentActivity (hours : Z) | CValidationStats (range : string)
| CLabelDefinitions | CViewerLabelPreferences (userDID : string)
| CLabels (uri val : option string) (first : Z) (after : option string)
| CReports (status : option string) (first : Z) (after : option string)
| CUpdateSettings (i : SettingsInput)
| CPreviewResetAll | CResetAll (token : string) | CPreviewPurgeActor (did : string) | CPurgeActor (did token : string)
| CPopulateActivity
| CCreateLabel (uri val : string) (cid exp : option string) | CNegateLabel (uri val : string)
| CCreateLabelDefinition (src val description severity : string) (visibility : option string)
| CResolveReport (id : Z) (action : string) (labelVal : option string) (resolverDID : string)
| CUploadLexicons (zipBase64 : string) | CTriggerBackfill | CBackfillActor (did : string)
| CCreateOAuthClient (name type : string) (redirectURIs : list string)
| CUpdateOAuthClient (clientID name : string) (redirectURIs : list string) | CDeleteOAuthClient (clientID : string)
| CAddAdmin (did : string) | CRemoveAdmin (did : string)
| CRegisterLexicon (nsid : string) | CDeleteLexicon (nsid : string)
| CCreateFieldIndex (collection field : string) | CDropFieldIndex (collection field : string)
| CNotifications (did : string) (reasons : list string) (first : Z) (after : string)
| CUnreadNotificationCount (did : string) | CUpdateNotificationsSeen (did seenAt : string)
| CExtra (name : string) (a : arguments).

(** Who asks: what the handler put into the context. *)
Record viewer := { auth : AuthContext; handle : string }.

(** A resolver answers with an error, null or a call of a method. *)
Definition resolver : Type := viewer -> arguments -> result string (option call).
Definition admin_only (f : viewer -> arguments -> call) : resolver :=
  fun v a => match requireAdmin (auth v) with Err e => Err e | Ok _ => Ok (Some (f v a)) end.

Record field := { f_name : string; f_type : gtype; f_args : list arg; f_resolve : resolver }.
Definition list_of (name : string) : gtype := TNonNull (TList (TNonNull (TNamed name))).

(** ** Queries *)

Definition system_queries : list field :=
  [{| f_name := "currentSession"; f_type := TNamed "CurrentSession"; f_args := [];
      f_resolve := fun v _ => if is_empty (userDID (auth v)) then Ok None
                              else Ok (Some (CCurrentSession (userDID (auth v)) (handle v) (adminDIDs (auth v)))) |};
   {| f_name := "statistics"; f_type := TNonNull (TNamed "Statistics"); f_args := []; f_resolve := admin_only (fun _ _ => CStatistics) |};
   {| f_name := "settings"; f_type := TNonNull (TNamed "Settings"); f_args := []; f_resolve := admin_only (fun _ _ => CSettings) |};
   {| f_name := "isBackfilling"; f_type := TNonNull TBoolean; f_args := []; f_resolve := admin_only (fun _ _ => CIsBackfilling) |};
   {| f_name := "lexicons"; f_type := list_of "Lexicon"; f_args := []; f_resolve := admin_only (fun _ _ => CLexicons) |};
   {| f_name := "oauthClients"; f_type := list_of "OAuthClient"; f_args := []; f_resolve := admin_only (fun _ _ => COAuthClients) |}].

Definition activity_queries : list field :=
  [{| f_name := "collectionOverview"; f_type := list_of "CollectionOverview"; f_args := [];
      f_resolve := admin_only (fun _ _ => CCollectionOverview) |};
   {| f_name := "activityBuckets"; f_type := list_of "ActivityBucket"; f_args := [req "range" (TNamed "TimeRange")];
      f_resolve := admin_only (fun _ a => CActivityBuckets (str a "range")) |};
   {| f_name := "recentActivity"; f_type := list_of "ActivityEntry"; f_args := [defaulted "hours" (TNonNull TInt) 1];
      f_resolve := admin_only (fun _ a =>
        let hours := int a "hours" in
        let hours := if hours <? 1 then 1 else hours in
        CRecentActivity (if 168 <? hours then 168 else hours)) |};
   {| f_name := "validationStats"; f_type := TNonNull (TNamed "ValidationStats"); f_args := [req "range" (TNamed "TimeRange")];
      f_resolve := admin_only (fun _ a => CValidationStats (str a "range")) |}].

Definition moderation_queries : list field :=
  [{| f_name := "labelDefinitions"; f_type := list_of "LabelDefinition"; f_args := []; f_resolve := admin_only (fun _ _ => CLabelDefinitions) |};
   {| f_name := "viewerLabelPreferences"; f_type := list_of "LabelPreference"; f_args := [];
      f_resolve := fun v _ => if is_empty (userDID (auth v)) then Err "authentication required"
                              else Ok (Some (CViewerLabelPreferences (userDID (auth v)))) |};
   {| f_name := "labels"; f_type := TNonNull (TNamed "LabelConnection");
      f_args := [optional "uri" TString; optional "val" TString; defaulted "first" TInt 20; optional "after" TString];
      f_resolve := admin_only (fun _ a => CLabels (ptr a "uri") (ptr a "val") (int a "first") (ptr a "after")) |};
   {| f_name := "reports"; f_type := TNonNull (TNamed "ReportConnection");
      f_args := [optional "status" (TNamed "ReportStatus"); defaulted "first" TInt 20; optional "after" TString];
      f_resolve := admin_only (fun _ a => CReports (ptr a "status") (int a "first") (ptr a "after")) |}].

Definition buildQueryType : list field := system_queries ++ activity_queries ++ moderation_queries.

(** ** Mutations *)

Definition settings_mutations : list field :=
  [{| f_name := "updateSettings"; f_type := TNonNull (TNamed "Settings");
      f_args := [optional "domainAuthority" TString; optional "adminDids" TString; optional "relayUrl" TString;
                 optional "plcDirectoryUrl" TString; optional "jetstreamUrl" TString; optional "oauthSupportedScopes" TString];
      f_resolve := admin_only (fun _ a => CUpdateSettings
        {| domainAuthority := ptr a "domainAuthority"; adminDids := ptr a "adminDids"; relayURL := ptr a "relayUrl";
           plcDirectoryURL := ptr a "plcDirectoryUrl"; jetstreamURL := ptr a "jetstreamUrl";
           oauthScopes := ptr a "oauthSupportedScopes" |}) |}].

Definition purge_mutations : list field :=
  [{| f_name := "previewResetAll"; f_type := TNonNull (TNamed "ResetAllPreview"); f_args := []; f_resolve := admin_only (fun _ _ => CPreviewResetAll) |};
   {| f_name := "resetAll"; f_type := TNonNull (TNamed "ResetAllResult"); f_args := [req "confirmToken" TString];
      f_resolve := admin_only (fun _ a => CResetAll (str a "confirmToken")) |};
   {| f_name := "previewPurgeActor"; f_type := TNonNull (TNamed "PurgeActorPreview"); f_args := [req "did" TString];
      f_resolve := admin_only (fun _ a => CPreviewPurgeActor (str a "did")) |};
   {| f_name := "purgeActor"; f_type := TNonNull (TNamed "PurgeActorResult"); f_args := [req "did" TString; req "confirmToken" TString];
      f_resolve := admin_only (fun _ a => CPurgeActor (str a "did") (str a "confirmToken")) |};
   {| f_name := "populateActivity"; f_type := TNonNull TInt; f_args := []; f_resolve := admin_only (fun _ _ => CPopulateActivity) |}].

Definition label_mutations : list field :=
  [{| f_name := "createLabel"; f_type := TNonNull (TNamed "Label");
      f_args := [req "uri" TString; req "val" TString; optional "cid" TString; optional "exp" TString];
      f_resolve := admin_only (fun _ a => CCreateLabel (str a "uri") (str a "val") (ptr a "cid") (ptr a "exp")) |};
   {| f_name := "negateLabel"; f_type := TNonNull (TNamed "Label"); f_args := [req "uri" TString; req "val" TString];
      f_resolve := admin_only (fun _ a => CNegateLabel (str a "uri") (str a "val")) |};
   {| f_name := "createLabelDefinition"; f_type := TNonNull (TNamed "LabelDefinition");
      f_args := [optional "src" TString; req "val" TString; req "description" TString; req "severity" (TNamed "LabelSeverity");
                 optional "defaultVisibility" (TNamed "LabelVisibility")];
      f_resolve := admin_only (fun _ a => CCreateLabelDefinition (str a "src") (str a "val") (str a "description") (str a "severity")
                                            (ptr a "defaultVisibility")) |};
   {| f_name := "resolveReport"; f_type := TNonNull (TNamed "Report");
      f_args := [req "id" TInt; req "action" (TNamed "ReportAction"); optional "labelVal" TString];
      f_resolve := admin_only (fun v a => CResolveReport (int a "id") (str a "action") (ptr a "labelVal") (userDID (auth v))) |}].

Definition backfill_mutations : list field :=
  [{| f_name := "uploadLexicons"; f_type := TNonNull TInt; f_args := [req "zipBase64" TString];
      f_resolve := admin_only (fun _ a => CUploadLexicons (str a "zipBase64")) |};
   {| f_name := "triggerBackfill"; f_type := TNonNull TBoolean; f_args := []; f_resolve := admin_only (fun _ _ => CTriggerBackfill) |};
   {| f_name := "backfillActor"; f_type := TNonNull TBoolean; f_args := [req "did" TString];
      f_resolve := admin_only (fun _ a => CBackfillActor (str a "did")) |}].

Definition redirect_uris : arg := req "redirectUris" (TList (TNonNull TString)).
Definition client_mutations : list field :=
  [{| f_name := "createOAuthClient"; f_type := TNonNull (TNamed "OAuthClient");
      f_args := [req "clientName" TString; req "clientType" TString; redirect_uris];
      f_resolve := admin_only (fun _ a => CCreateOAuthClient (str a "clientName") (str a "clientType") (strs a "redirectUris")) |};
   {| f_name := "updateOAuthClient"; f_type := TNonNull (TNamed "OAuthClient");
      f_args := [req "clientId" TString; req "clientName" TString; redirect_uris];
      f_resolve := admin_only (fun _ a => CUpdateOAuthClient (str a "clientId") (str a "clientName") (strs a "redirectUris")) |};
   {| f_name := "deleteOAuthClient"; f_type := TNonNull TBoolean; f_args := [req "clientId" TString];
      f_resolve := admin_only (fun _ a => CDeleteOAuthClient (str a "clientId")) |};
   {| f_name := "addAdmin"; f_type := TNonNull TBoolean; f_args := [req "did" TString];
      f_resolve := admin_only (fun _ a => CAddAdmin (str a "did")) |};
   {| f_name := "removeAdmin"; f_type := TNonNull TBoolean; f_args := [req "did" TString];
      f_resolve := admin_only (fun _ a => CRemoveAdmin (str a "did")) |}].

Definition lexicon_mutations : list field :=
  [{| f_name := "registerLexicon"; f_type := TNonNull (TNamed "Lexicon"); f_args := [req "nsid" TString];
      f_resolve := admin_only (fun _ a => CRegisterLexicon (str a "nsid")) |};
   {| f_name := "deleteLexicon"; f_type := TNonNull TBoolean; f_args := [req "nsid" TString];
      f_resolve := admin_only (fun _ a => CDeleteLexicon (str a "nsid")) |};
   {| f_name := "createFieldIndex"; f_type := TNonNull (TNamed "FieldIndexResult"); f_args := [req "collection" TString; req "field" TString];
      f_resolve := admin_only (fun _ a => CCreateFieldIndex (str a "collection") (str a "field")) |};
   {| f_name := "dropFieldIndex"; f_type := TNonNull TBoolean; f_args := [req "collection" TString; req "field" TString];
      f_resolve := admin_only (fun _ a => CDropFieldIndex (str a "collection") (str a "field")) |}].

Definition buildMutationType : list field :=
  settings_mutations ++ purge_mutations ++ label_mutations ++ backfill_mutations ++ client_mutations ++ lexicon_mutations.

(** ** The schema *)

Definition add_fields (extra : list field) (m : gmap string field) : gmap string field :=
  foldl (fun m f => <[f_name f := f]> m) m extra.
Definition fields_of (l : list field) : gmap string field := add_fields l ∅.

Record schema := { Query : gmap string field; Mutation : gmap string field }.
(** [Build]; the fields that other subsystems add replace those of the same name. *)
Definition Build (extraQueries extraMutations : list field) : schema :=
  {| Query := add_fields extraQueries (fields_of buildQueryType);
     Mutation := add_fields extraMutations (fields_of buildMutationType) |}.

(** The fields of the notifications, which main adds when they are enabled
    ([notifications/resolver.go]). Their resolvers have no gate. *)
Definition NotificationQueryFields : list field :=
  [{| f_name := "notifications"; f_type := TNonNull (TNamed "NotificationConnection");
      f_args := [req "did" TString; optional "reasons" (TList (TNonNull TString)); defaulted "first" TInt 50; optional "after" TString];
      f_resolve := fun _ a => Ok (Some (CNotifications (str a "did") (texts a "reasons") (int a "first") (str a "after"))) |};
   {| f_name := "unreadNotificationCount"; f_type := TNonNull (TNamed "UnreadCountResult"); f_args := [req "did" TString];
      f_resolve := fun _ a => Ok (Some (CUnreadNotificationCount (str a "did"))) |}].
Definition NotificationMutationFields : list field :=
  [{| f_name := "updateNotificationsSeen"; f_type := TNonNull TBoolean; f_args := [req "did" TString; optional "seenAt" TString];
      f_resolve := fun _ a => Ok (Some (CUpdateNotificationsSeen (str a "did") (str a "seenAt"))) |}].

(** The schema of the running program. *)
Definition admin_schema (NotificationsEnabled : bool) : schema :=
  if NotificationsEnabled then Build NotificationQueryFields NotificationMutationFields else Build [] [].

(** One field of a request. *)
Definition ask (t : gmap string field) (name : string) (v : viewer) (a : arguments) : result string (option call) :=
  match t !! name with None => Err "Cannot query field" | Some f => f_resolve f v a end.

(** ** Looking fields up *)

Lemma add_fields_Some extra m name f : add_fields extra m !! name = Some f ->
  (f ∈ extra /\ f_name f = name) \/ m !! name = Some f.
Proof.
  revert m. induction extra as [|g extra IH]; intros m Hl; [by right|]. unfold add_fields in Hl. cbn in Hl.
  fold (add_fields extra (<[f_name g := g]> m)) in Hl. destruct (IH _ Hl) as [[Hf Hn]|Hm].
  - left. split; [by constructor|done].
  - apply lookup_insert_Some in Hm as [[<- <-]|[_ Hm]]; [left; split; [constructor|done]|by right].
Qed.

(** ** Who may ask *)

Definition needs_admin (f : field) : Prop := forall v a c, f_resolve f v a = Ok (Some c) -> isAdmin (auth v) = true.

Lemma admin_only_needs (g : viewer -> arguments -> call) v a c : admin_only g v a = Ok (Some c) -> isAdmin (auth v) = true.
Proof. unfold admin_only, requireAdmin, guard_err. by destruct (isAdmin (auth v)). Qed.
Ltac gated := repeat (first [apply Forall_cons; split; [intros ? ? ?; cbn; apply admin_only_needs|]|apply Forall_nil; exact I]).

Lemma mutations_gated : Forall needs_admin buildMutationType.
Proof. unfold buildMutationType. rewrite !Forall_app. split_and!; gated. Qed.

(** What a viewer may ask about itself. *)
Definition own (v : viewer) (c : call) : Prop :=
  userDID (auth v) <> "" /\
  (c = CCurrentSession (userDID (auth v)) (handle v) (adminDIDs (auth v)) \/ c = CViewerLabelPreferences (userDID (auth v))).

Definition admin_or_own (r : resolver) : Prop := forall v a c, r v a = Ok (Some c) -> isAdmin (auth v) = true \/ own v c.

Lemma admin_only_or_own g : admin_or_own (admin_only g).
Proof. intros v a c H. left. by apply admin_only_needs in H. Qed.

Lemma queries_gated : Forall (fun f => admin_or_own (f_resolve f)) buildQueryType.
Proof.
  unfold buildQueryType. rewrite !Forall_app. split_and!;
    repeat (first [apply Forall_cons; split; [cbn [f_resolve]; try exact (admin_only_or_own _)|]|apply Forall_nil; exact I]).
  all: intros v a c; destruct (is_empty _) eqn:E; [done|]; intros [= <-]; right; split; [by intros H; rewrite H in E|]; auto.
Qed.

(** The end of the path of a request: what the endpoint lets in asks for a field. *)
Lemma admitted_listed `{CryptoLib} key parse m r query f up reads s config a :
  (endpoint key parse m r query f up reads s config).1 = Ok a -> isAdmin a = true ->
  reads = true /\ userDID a ∈ admin_pieces (default "" (config !! "admin_dids")).
Proof.
  unfold endpoint, ServeHTTP. cbn [fst]. destruct (negb _); [done|]. destruct (acting key _ r) as [user by_key].
  destruct (_ && _); [done|]. destruct query as [q|]; [|done]. destruct (Check_ _ _ _); [|done]. intros [= <-]. cbn.
  intros (d & Hd & ->%String.eqb_eq)%existsb_elem_of. by destruct reads; [|apply elem_of_nil in Hd].
Qed.

(** What the fields of the notifications call, for the DID that their argument names. *)
Inductive of_notifications (args : arguments) : string -> call -> Prop :=
| on_list : of_notifications args "notifications"
    (CNotifications (str args "did") (texts args "reasons") (int args "first") (str args "after"))
| on_unread : of_notifications args "unreadNotificationCount" (CUnreadNotificationCount (str args "did"))
| on_seen : of_notifications args "updateNotificationsSeen" (CUpdateNotificationsSeen (str args "did") (str args "seenAt")).

Lemma ask_extra extra l name v a c : ask (add_fields extra (fields_of l)) name v a = Ok (Some c) ->
  (exists f, f ∈ extra /\ f_name f = name /\ f_resolve f v a = Ok (Some c)) \/
  (exists f, f ∈ l /\ f_name f = name /\ f_resolve f v a = Ok (Some c)).
Proof.
  unfold ask. destruct (_ !! name) as [f|] eqn:Hl; [|done]. intros Hr.
  apply add_fields_Some in Hl as [[Hf Hn]|Hl]; [left; by exists f|right]. exists f.
  apply add_fields_Some in Hl as [[Hf Hn]|He]; [done|by apply lookup_empty_Some in He].
Qed.

Lemma notification_fields v a c f : f ∈ NotificationQueryFields ++ NotificationMutationFields ->
  f_resolve f v a = Ok (Some c) -> of_notifications a (f_name f) c.
Proof.
  unfold NotificationQueryFields, NotificationMutationFields. cbn [app]. rewrite !elem_of_cons, elem_of_nil.
  intros [->|[->|[->|[]]]] [= <-]; constructor.
Qed.

(** C35: On the schema of the running program, with or without the fields of the
    notifications: a request that the endpoint lets in reaches the method of a
    mutation only when its user is in the list of administrators that the
    configuration holds at that time, and the method of a query only then too,
    except for its own session and its own label preferences, which need a user; and
    except for the fields notifications, unreadNotificationCount and
    updateNotificationsSeen, which are there when notifications are enabled and call
    their methods for whatever DID the argument names, whoever asks. *)
Theorem admin_gate `{CryptoLib} key parse m r query f up reads s config a enabled :
  (endpoint key parse m r query f up reads s config).1 = Ok a ->
  let v := {| auth := a; handle := "" |} in let schema := admin_schema enabled in
  let listed := reads = true /\ userDID a ∈ admin_pieces (default "" (config !! "admin_dids")) in
  (forall name args c, ask (Mutation schema) name v args = Ok (Some c) ->
     listed \/ enabled = true /\ of_notifications args name c) /\
  (forall name args c, ask (Query schema) name v args = Ok (Some c) ->
     listed \/ own v c \/ enabled = true /\ of_notifications args name c) /\
  (enabled = true -> forall name args c, of_notifications args name c ->
     ask (Query schema) name v args = Ok (Some c) \/ ask (Mutation schema) name v args = Ok (Some c)).
Proof.
  intros Ha v schema listed. pose proof (admitted_listed key parse m r query f up reads s config a Ha) as Hl.
  split_and!.
  - intros name args c Hr. assert (forall f, f ∈ buildMutationType -> f_resolve f v args = Ok (Some c) -> listed) as Hbase.
    { intros fl Hf Hres. apply Hl. by apply (proj1 (Forall_forall _ _) mutations_gated _ Hf) in Hres. }
    unfold schema, admin_schema in Hr. destruct enabled; apply ask_extra in Hr as [(fl & Hf & <- & Hres)|(fl & Hf & <- & Hres)];
      [|left; by eapply Hbase|by apply not_elem_of_nil in Hf|left; by eapply Hbase].
    right. split; [done|]. eapply notification_fields; [|exact Hres]. apply elem_of_app. by right.
  - intros name args c Hr. assert (forall f, f ∈ buildQueryType -> f_resolve f v args = Ok (Some c) -> listed \/ own v c) as Hbase.
    { intros fl Hf Hres. apply (proj1 (Forall_forall _ _) queries_gated _ Hf) in Hres as [Hres|]; [left; by apply Hl|by right]. }
    unfold schema, admin_schema in Hr. destruct enabled; apply ask_extra in Hr as [(fl & Hf & <- & Hres)|(fl & Hf & <- & Hres)];
      [|destruct (Hbase fl Hf Hres); tauto|by apply not_elem_of_nil in Hf|destruct (Hbase fl Hf Hres); tauto].
    right. right. split; [done|]. eapply notification_fields; [|exact Hres]. apply elem_of_app. by left.
  - intros ->. intros name args c Hon. destruct Hon; [left|left|right]; unfold schema, ask; vm_compute; reflexivity.
Qed.

(** An administrator reaches the method of every field. *)
Lemma admin_served f v a : f ∈ buildQueryType ++ buildMutationType -> isAdmin (auth v) = true -> userDID (auth v) <> "" ->
  exists c, f_resolve f v a = Ok (Some c).
Proof.
  intros Hf Ha Hu. assert (is_empty (userDID (auth v)) = false) as He by (by destruct (userDID (auth v))).
  revert f Hf. rewrite <-Forall_forall. unfold buildQueryType, buildMutationType. rewrite !Forall_app. split_and!;
    repeat (first [apply Forall_cons; split; [cbn [f_resolve]; unfold admin_only, requireAdmin; rewrite ?Ha, ?He; by eexists|]
                  |apply Forall_nil; exact I]).
Qed.

(** ** What the resolvers read *)

(** [a] and [a'] agree on the arguments that [f] declares. *)
Definition agree (f : field) (a a' : arguments) : Prop := forall x, x ∈ a_name <$> f_args f -> a !! x = a' !! x.

Definition reads_declared (f : field) : Prop := forall v a a', agree f a a' -> f_resolve f v a = f_resolve f v a'.

Lemma str_agree (f : field) a a' x : agree f a a' -> x ∈ a_name <$> f_args f -> str a x = str a' x.
Proof. intros H Hx. unfold str. by rewrite (H x Hx). Qed.
Lemma ptr_agree (f : field) a a' x : agree f a a' -> x ∈ a_name <$> f_args f -> ptr a x = ptr a' x.
Proof. intros H Hx. unfold ptr. by rewrite (str_agree f a a' x). Qed.
Lemma int_agree (f : field) a a' x : agree f a a' -> x ∈ a_name <$> f_args f -> int a x = int a' x.
Proof. intros H Hx. unfold int. by rewrite (H x Hx). Qed.
Lemma strs_agree (f : field) a a' x : agree f a a' -> x ∈ a_name <$> f_args f -> strs a x = strs a' x.
Proof. intros H Hx. unfold strs. by rewrite (H x Hx). Qed.

Lemma admin_only_agree f g : f_resolve f = admin_only g -> (forall v a a', agree f a a' -> g v a = g v a') -> reads_declared f.
Proof. intros Hr Hg v a a' H. rewrite Hr. unfold admin_only. by rewrite (Hg v a a' H). Qed.

Ltac declared := cbn; repeat constructor.
Ltac reads_declared :=
  first [by intros ? ? ? ?
        |eapply admin_only_agree; [reflexivity|]; intros v a a' H; cbn beta;
         repeat match goal with
         | |- context [str a ?x] => rewrite (str_agree _ a a' x H) by declared
         | |- context [ptr a ?x] => rewrite (ptr_agree _ a a' x H) by declared
         | |- context [int a ?x] => rewrite (int_agree _ a a' x H) by declared
         | |- context [strs a ?x] => rewrite (strs_agree _ a a' x H) by declared
         end; reflexivity].

(** The names of the fields, and those of the arguments of each, are distinct. *)
Definition names_distinct (l : list field) : bool :=
  bool_decide (NoDup (f_name <$> l)) && forallb (fun f => bool_decide (NoDup (a_name <$> f_args f))) l.

(** The base fields have distinct names with distinct arguments, and what a
    resolver answers depends on the viewer and on the arguments that its field
    declares, on no other. *)
Theorem resolvers_read_declared : names_distinct buildQueryType = true /\ names_distinct buildMutationType = true /\
  Forall reads_declared (buildQueryType ++ buildMutationType).
Proof.
  split_and!; [by vm_compute..|]. unfold buildQueryType, buildMutationType. rewrite !Forall_app. split_and!;
    repeat (first [apply Forall_cons; split; [reads_declared|]|apply Forall_nil; exact I]).
Qed.

Definition the (name : string) : option field := List.find (fun f => String.eqb (f_name f) name) (buildQueryType ++ buildMutationType).

(** The hours of a request for the latest activity are clamped to a week. *)
Lemma hours_clamped v a c : ask (Query (Build [] [])) "recentActivity" v a = Ok (Some c) ->
  exists h, c = CRecentActivity h /\ 1 <= h <= 168.
Proof.
  unfold ask. change (Query (Build [] []) !! "recentActivity") with (the "recentActivity"). unfold the. cbn [List.find].
  cbn -[requireAdmin]. unfold admin_only. destruct (requireAdmin _); [|done]. intros [= <-]. eexists. split; [reflexivity|].
  repeat case_match; try lia.
Qed.

(** ** Concrete requests *)

Module Example_admin_api.
Import Access.Example_access.
#[local] Existing Instance toy.

Definition purge_args : arguments := {["did" := VStr alice; "confirmToken" := VStr "t"; "force" := VOther]}.
Definition asked := asks "Bearer secret" "" alice.

Lemma admin_gate_witness :
  let a := {| userDID := alice; isAdmin := true; adminDIDs := [alice] |} in
  (endpoint "secret" toy_parse guard asked (Some "{ x }") Works true true tables settings).1 = Ok a /\
  ask (Mutation (admin_schema true)) "purgeActor" {| auth := a; handle := "" |} purge_args = Ok (Some (CPurgeActor alice "t")) /\
  alice ∈ admin_pieces (default "" (settings !! "admin_dids")).
Proof.
  intros a. split; [vm_compute; reflexivity|]. split; [vm_compute; reflexivity|].
  destruct (admin_gate "secret" toy_parse guard asked (Some "{ x }") Works true true tables settings a true) as [Hm _];
    [vm_compute; reflexivity|].
  destruct (Hm "purgeActor" purge_args (CPurgeActor alice "t")) as [[_ Hin]|[_ Hn]]; [vm_compute; reflexivity|exact Hin|].
  inversion Hn.
Defined.

(** A user that is no administrator sees its own session, and nothing else of the
    system; without a user there is no session, and no error. *)
Definition bob : viewer := {| auth := {| userDID := "did:plc:bob"; isAdmin := false; adminDIDs := [alice] |}; handle := "" |}.
Example bob_asks :
  (f_name <$> List.filter (fun f => match f_resolve f bob ∅ with Ok (Some _) => true | _ => false end)
     (buildQueryType ++ buildMutationType)) = ["currentSession"; "viewerLabelPreferences"].
Proof. vm_compute. reflexivity. Qed.
Example nobody_asks : let nobody := {| auth := {| userDID := ""; isAdmin := false; adminDIDs := [] |}; handle := "" |} in
  ask (Query (Build [] [])) "currentSession" nobody ∅ = Ok None /\
  ask (Query (Build [] [])) "viewerLabelPreferences" nobody ∅ = Err "authentication required".
Proof. split; vm_compute; reflexivity. Qed.

(** The same user reads and marks the notifications of another one. *)
Example bob_reads_alice :
  ask (Query (admin_schema true)) "notifications" bob {["did" := VStr alice; "first" := VInt 50]} =
    Ok (Some (CNotifications alice [] 50 "")) /\
  ask (Mutation (admin_schema true)) "updateNotificationsSeen" bob {["did" := VStr alice]} =
    Ok (Some (CUpdateNotificationsSeen alice "")).
Proof. split; vm_compute; reflexivity. Qed.

(** A field that a subsystem adds under the name of a base field takes its place,
    the gate of the base field included. *)
Example replaced_field :
  let extra := {| f_name := "settings"; f_type := TString; f_args := []; f_resolve := fun _ a => Ok (Some (CExtra "settings" a)) |} in
  ask (Query (Build [extra] [])) "settings" bob ∅ = Ok (Some (CExtra "settings" ∅)).
Proof. vm_compute. reflexivity. Qed.

(** Settings cannot be emptied: an empty text is the same as none. *)
Example settings_not_cleared : let v := {| auth := admin; handle := "" |} in
  ask (Mutation (Build [] [])) "updateSettings" v {["relayUrl" := VStr ""]} =
  ask (Mutation (Build [] [])) "updateSettings" v ∅.
Proof. vm_compute. reflexivity. Qed.
End Example_admin_api.
