(* ===== verification/AdminTypes.v ===== *)
(** The types of the admin API ([internal/graphql/admin/types.go]) and the answers of
    its resolvers ([resolvers.go], [resolvers_activity.go], [resolvers_labels.go],
    [resolvers_lexicons.go], [resolvers_oauth_clients.go], [purge.go]): every answer
    has the type that the schema declares for its field. *)
From S2P Require Import Prelude GoStrings TokenEndpoint Access Reconnect Purge Labels Activity AdminApi.

Local Open Scope Z_scope.

(** ** Types *)

(** An enumeration has names and the values behind them. *)
Abbreviation enum_type := (string * list (string * string))%type.
Abbreviation object_type := (string * list (string * gtype))%type.
Definition named (name : string) : gtype := TNonNull (TNamed name).

(** *** Enumerations *)

Definition TimeRangeEnum : enum_type := ("TimeRange", [("ONE_HOUR", "ONE_HOUR"); ("THREE_HOURS", "THREE_HOURS");
  ("SIX_HOURS", "SIX_HOURS"); ("ONE_DAY", "ONE_DAY"); ("SEVEN_DAYS", "SEVEN_DAYS")]).
Definition LabelSeverityEnum : enum_type := ("LabelSeverity", [("INFORM", "inform"); ("ALERT", "alert");
  ("TAKEDOWN", "takedown")]).
Definition LabelVisibilityEnum : enum_type := ("LabelVisibility", [("IGNORE", "ignore"); ("SHOW", "show");
  ("WARN", "warn"); ("HIDE", "hide")]).
Definition ReportReasonTypeEnum : enum_type := ("ReportReasonType", [("SPAM", "spam"); ("VIOLATION", "violation");
  ("MISLEADING", "misleading"); ("SEXUAL", "sexual"); ("RUDE", "rude"); ("OTHER", "other")]).
Definition ReportStatusEnum : enum_type := ("ReportStatus", [("PENDING", "pending"); ("RESOLVED", "resolved");
  ("DISMISSED", "dismissed")]).
Definition ReportActionEnum : enum_type := ("ReportAction", [("APPLY_LABEL", "apply_label"); ("DISMISS", "dismiss")]).

(** *** Objects *)

Definition StatisticsType : object_type := ("Statistics", [("recordCount", TNonNull TInt);
  ("actorCount", TNonNull TInt); ("lexiconCount", TNonNull TInt)]).
Definition CurrentSessionType : object_type := ("CurrentSession", [("did", TNonNull TString);
  ("handle", TNonNull TString); ("isAdmin", TNonNull TBoolean)]).
Definition SettingsType : object_type := ("Settings", [("id", TNonNull TString);
  ("domainAuthority", TNonNull TString); ("adminDids", TNonNull (TList (TNonNull TString)));
  ("relayUrl", TNonNull TString); ("plcDirectoryUrl", TNonNull TString); ("jetstreamUrl", TNonNull TString);
  ("oauthSupportedScopes", TNonNull TString)]).
Definition ActivityBucketType : object_type := ("ActivityBucket", [("timestamp", TNonNull TString);
  ("total", TNonNull TInt); ("creates", TNonNull TInt); ("updates", TNonNull TInt); ("deletes", TNonNull TInt)]).
Definition ActivityEntryType : object_type := ("ActivityEntry", [("id", TNonNull TInt);
  ("timestamp", TNonNull TString); ("operation", TNonNull TString); ("collection", TNonNull TString);
  ("did", TNonNull TString); ("rkey", TString); ("status", TNonNull TString); ("errorMessage", TString);
  ("eventJson", TString); ("isValid", TBoolean)]).
Definition ValidationStatsType : object_type := ("ValidationStats", [("invalidCount", TNonNull TInt);
  ("invalidByCollection", list_of "CollectionValidationCount"); ("recentInvalid", list_of "ActivityEntry");
  ("lastInvalidAt", TString)]).
Definition CollectionValidationCountType : object_type := ("CollectionValidationCount", [
  ("collection", TNonNull TString); ("count", TNonNull TInt)]).
Definition PurgeActorPreviewType : object_type := ("PurgeActorPreview", [("did", TNonNull TString);
  ("recordCount", TNonNull TInt); ("actorExists", TNonNull TBoolean); ("handle", TNonNull TString);
  ("latestIndexedAt", TNonNull TString); ("confirmToken", TNonNull TString); ("tokenExpiresAt", TNonNull TString);
  ("tokenTtlSeconds", TNonNull TInt)]).
Definition TableCountType : object_type := ("TableCount", [("name", TNonNull TString); ("count", TNonNull TInt)]).
Definition ResetAllPreviewType : object_type := ("ResetAllPreview", [("totalRows", TNonNull TInt);
  ("tables", list_of "TableCount"); ("confirmToken", TNonNull TString); ("tokenExpiresAt", TNonNull TString);
  ("tokenTtlSeconds", TNonNull TInt)]).
Definition ResetAllResultType : object_type := ("ResetAllResult", [("rowsDeleted", TNonNull TInt);
  ("tablesAffected", TNonNull TInt)]).
Definition PurgeActorResultType : object_type := ("PurgeActorResult", [("did", TNonNull TString);
  ("recordsDeleted", TNonNull TInt); ("actorRowsDeleted", TNonNull TInt); ("tapStatus", TNonNull TString)]).
Definition CollectionOverviewType : object_type := ("CollectionOverview", [("collection", TNonNull TString);
  ("recordCount", TNonNull TInt); ("invalidCount", TNonNull TInt)]).
Definition LexiconType : object_type := ("Lexicon", [("id", TNonNull TString); ("json", TNonNull TString);
  ("createdAt", TNonNull TString)]).
Definition OAuthClientType : object_type := ("OAuthClient", [("clientId", TNonNull TString);
  ("clientSecret", TString); ("clientName", TNonNull TString); ("clientType", TNonNull TString);
  ("redirectUris", TNonNull (TList (TNonNull TString))); ("scope", TString); ("createdAt", TNonNull TInt)]).
Definition LabelDefinitionType : object_type := ("LabelDefinition", [("src", TNonNull TString);
  ("val", TNonNull TString); ("description", TNonNull TString); ("severity", named "LabelSeverity");
  ("defaultVisibility", named "LabelVisibility"); ("createdAt", TNonNull TString)]).
Definition LabelPreferenceType : object_type := ("LabelPreference", [("src", TNonNull TString);
  ("val", TNonNull TString); ("description", TNonNull TString); ("severity", named "LabelSeverity");
  ("defaultVisibility", named "LabelVisibility"); ("visibility", named "LabelVisibility")]).
Definition LabelType : object_type := ("Label", [("id", TNonNull TInt); ("src", TNonNull TString);
  ("uri", TNonNull TString); ("cid", TString); ("val", TNonNull TString); ("neg", TNonNull TBoolean);
  ("cts", TNonNull TString); ("exp", TString)]).
Definition ReportType : object_type := ("Report", [("id", TNonNull TInt); ("reporterDid", TNonNull TString);
  ("subjectUri", TNonNull TString); ("reasonType", named "ReportReasonType"); ("reason", TString);
  ("status", named "ReportStatus"); ("resolvedBy", TString); ("resolvedAt", TString);
  ("createdAt", TNonNull TString)]).
Definition PageInfoType : object_type := ("PageInfo", [("hasNextPage", TNonNull TBoolean);
  ("hasPreviousPage", TNonNull TBoolean); ("startCursor", TString); ("endCursor", TString)]).
Definition LabelEdgeType : object_type := ("LabelEdge", [("cursor", TNonNull TString); ("node", named "Label")]).
Definition LabelConnectionType : object_type := ("LabelConnection", [("edges", list_of "LabelEdge");
  ("pageInfo", named "PageInfo"); ("totalCount", TNonNull TInt)]).
Definition ReportEdgeType : object_type := ("ReportEdge", [("cursor", TNonNull TString); ("node", named "Report")]).
Definition ReportConnectionType : object_type := ("ReportConnection", [("edges", list_of "ReportEdge");
  ("pageInfo", named "PageInfo"); ("totalCount", TNonNull TInt)]).

(** This one is in [schema.go]. *)
Definition fieldIndexResultType : object_type := ("FieldIndexResult", [("success", TNonNull TBoolean);
  ("indexName", TNonNull TString)]).

Definition enums : list enum_type :=
  [TimeRangeEnum; LabelSeverityEnum; LabelVisibilityEnum; ReportReasonTypeEnum; ReportStatusEnum; ReportActionEnum].
Definition objects : list object_type :=
  [StatisticsType; CurrentSessionType; SettingsType; ActivityBucketType; ActivityEntryType; ValidationStatsType;
   CollectionValidationCountType; PurgeActorPreviewType; TableCountType; ResetAllPreviewType; ResetAllResultType;
   PurgeActorResultType; CollectionOverviewType; LexiconType; OAuthClientType; LabelDefinitionType;
   LabelPreferenceType; LabelType; ReportType; PageInfoType; LabelEdgeType; LabelConnectionType; ReportEdgeType;
   ReportConnectionType; fieldIndexResultType].

Definition assoc {A} (l : list (string * A)) (name : string) : option A :=
  snd <$> List.find (fun p => String.eqb p.1 name) l.

(** ** Answers *)

(** What a resolver returns: a map with keys, a slice, or a value. *)
Inductive answer :=
| ANull | AStr (s : string) | AInt (z : Z) | ABool (b : bool) | AList (l : list answer) | AObj (m : list (string * answer)).

Definition get (m : list (string * answer)) (key : string) : answer := default ANull (assoc m key).
(** A key that is set when there is a value. *)
Definition opt {A} (key : string) (f : A -> answer) (o : option A) : list (string * answer) :=
  match o with Some x => [(key, f x)] | None => [] end.
Definition text (o : option string) : answer := match o with Some s => AStr s | None => ANull end.

Definition SeverityText (s : LabelSeverity) : string :=
  match s with SeverityInform => "inform" | SeverityAlert => "alert" | SeverityTakedown => "takedown" end.
Definition VisibilityText (v : LabelVisibility) : string :=
  match v with VisibilityIgnore => "ignore" | VisibilityShow => "show" | VisibilityWarn => "warn" | VisibilityHide => "hide" end.
Definition StatusText (s : ReportStatus) : string :=
  match s with StatusPending => "pending" | StatusResolved => "resolved" | StatusDismissed => "dismissed" end.

Section Answers.
(** [Format(time.RFC3339)] of an instant in seconds; those of labels and reports are in
    microseconds, those of tokens in nanoseconds. *)
Context (rfc3339 : Z -> string).
Definition at_us (t : Z) : answer := AStr (rfc3339 (t / 1000000)).

Definition statistics_answer (recordCount actorCount lexiconCount : Z) : answer :=
  AObj [("recordCount", AInt recordCount); ("actorCount", AInt actorCount); ("lexiconCount", AInt lexiconCount)].
Definition session_answer (userDID handle : string) (adminDIDs : list string) : answer :=
  AObj [("did", AStr userDID); ("handle", AStr handle); ("isAdmin", ABool (existsb (fun d => String.eqb d userDID) adminDIDs))].
Definition settings_answer (v : SettingsView) : answer :=
  AObj [("id", AStr "settings"); ("domainAuthority", AStr (v_domainAuthority v));
        ("adminDids", AList (AStr <$> v_adminDids v)); ("relayUrl", AStr (relayUrl v));
        ("plcDirectoryUrl", AStr (plcDirectoryUrl v)); ("jetstreamUrl", AStr (jetstreamUrl v));
        ("oauthSupportedScopes", AStr (oauthSupportedScopes v))].
Definition overview_answer (r : string * Z * Z) : answer :=
  AObj [("collection", AStr r.1.1); ("recordCount", AInt r.1.2); ("invalidCount", AInt r.2)].
Definition bucket_answer (b : ActivityBucket) : answer :=
  AObj [("timestamp", AStr (rfc3339 (b_Timestamp b))); ("total", AInt (b_Total b)); ("creates", AInt (b_Creates b));
        ("updates", AInt (b_Updates b)); ("deletes", AInt (b_Deletes b))].
Definition entry_answer (e : ActivityEntry) : answer :=
  AObj ([("id", AInt (e_ID e)); ("timestamp", AStr (rfc3339 (e_Timestamp e))); ("operation", AStr (e_Operation e));
         ("collection", AStr (e_Collection e)); ("did", AStr (e_DID e)); ("status", AStr (e_Status e));
         ("eventJson", AStr (e_EventJSON e))]
        ++ opt "rkey" AStr (e_RKey e) ++ opt "errorMessage" AStr (e_ErrorMessage e) ++ opt "isValid" ABool (e_IsValid e)).
Definition validation_answer (s : ValidationStats) (recent : list ActivityEntry) : answer :=
  AObj ([("invalidCount", AInt (InvalidCount s));
         ("invalidByCollection", AList ((fun c : string * Z => AObj [("collection", AStr c.1); ("count", AInt c.2)])
                                          <$> InvalidByCollection s));
         ("recentInvalid", AList (entry_answer <$> recent))]
        ++ opt "lastInvalidAt" (fun t => AStr (rfc3339 t)) (LastInvalidAt s)).
Definition definition_answer (key : string * string) (d : LabelDefinition) : answer :=
  AObj [("src", AStr key.1); ("val", AStr key.2); ("description", AStr (d_description d));
        ("severity", AStr (SeverityText (d_severity d))); ("defaultVisibility", AStr (VisibilityText (d_visibility d)));
        ("createdAt", at_us (d_created d))].
Definition preference_answer (p : string * string * LabelDefinition * LabelVisibility) : answer :=
  let d := p.1.2 in
  AObj [("src", AStr p.1.1.1); ("val", AStr p.1.1.2); ("description", AStr (d_description d));
        ("severity", AStr (SeverityText (d_severity d))); ("defaultVisibility", AStr (VisibilityText (d_visibility d)));
        ("visibility", AStr (VisibilityText p.2))].
Definition label_answer (l : Label) : answer :=
  let d := l_data l in
  AObj ([("id", AInt (l_id l)); ("src", AStr (l_src d)); ("uri", AStr (l_uri d)); ("val", AStr (l_val d));
         ("neg", ABool (l_neg d)); ("cts", at_us (l_cts d))]
        ++ opt "cid" AStr (l_cid d) ++ opt "exp" at_us (l_exp d)).
(** A negation is answered without its CID and its end, which it does not have. *)
Definition negation_answer (l : Label) : answer :=
  let d := l_data l in
  AObj [("id", AInt (l_id l)); ("src", AStr (l_src d)); ("uri", AStr (l_uri d)); ("val", AStr (l_val d));
        ("neg", ABool (l_neg d)); ("cts", at_us (l_cts d))].
Definition report_answer (r : Z * Report) : answer :=
  AObj ([("id", AInt r.1); ("reporterDid", AStr (r_reporter r.2)); ("subjectUri", AStr (r_subject r.2));
         ("reasonType", AStr (r_reasonType r.2)); ("status", AStr (StatusText (r_status r.2)));
         ("createdAt", at_us (r_created r.2))]
        ++ opt "reason" AStr (r_reason r.2) ++ opt "resolvedBy" AStr (r_resolvedBy r.2)
        ++ opt "resolvedAt" at_us (r_resolvedAt r.2)).
Definition page_answer {Row} (node : Row -> answer) (p : AdminPage Row) : answer :=
  AObj [("edges", AList ((fun e : string * Row => AObj [("cursor", AStr e.1); ("node", node e.2)]) <$> a_edges p));
        ("pageInfo", AObj [("hasNextPage", ABool (a_hasNext p)); ("hasPreviousPage", ABool (a_hasPrevious p));
                           ("startCursor", AStr (a_start p)); ("endCursor", AStr (a_end p))]);
        ("totalCount", AInt (a_total p))].
Definition lexicon_answer (id json : string) (created : Z) : answer :=
  AObj [("id", AStr id); ("json", AStr json); ("createdAt", AStr (rfc3339 created))].
Definition registered_answer (nsid json did description : string) (created : Z) : answer :=
  AObj [("id", AStr nsid); ("json", AStr json); ("createdAt", AStr (rfc3339 created)); ("did", AStr did);
        ("description", AStr description)].
Definition client_answer (c : Client) : answer :=
  AObj [("clientId", AStr (cl_ClientID c)); ("clientSecret", text (cl_ClientSecret c)); ("clientName", AStr (cl_ClientName c));
        ("clientType", AStr (cl_ClientType c)); ("redirectUris", AList (AStr <$> cl_RedirectURIs c));
        ("scope", text (cl_Scope c)); ("createdAt", AInt (cl_CreatedAt c))].
(** The answer to the mutations. *)
Definition stored_client_answer (c : Client) : answer :=
  AObj ([("clientId", AStr (cl_ClientID c)); ("clientName", AStr (cl_ClientName c)); ("clientType", AStr (cl_ClientType c));
         ("redirectUris", AList (AStr <$> cl_RedirectURIs c)); ("createdAt", AInt (cl_CreatedAt c)); ("scope", text (cl_Scope c))]
        ++ opt "clientSecret" AStr (cl_ClientSecret c)).
Definition preview_answer (p : Preview) : answer :=
  AObj [("did", AStr (p_did p)); ("recordCount", AInt (p_recordCount p)); ("confirmToken", AStr (confirmToken p));
        ("tokenExpiresAt", AStr (rfc3339 (unix (tokenExpiresAt p)))); ("tokenTtlSeconds", AInt (purgeTokenTTL / second));
        ("actorExists", ABool (actorExists p)); ("handle", AStr ""); ("latestIndexedAt", AStr "")].
Definition purged_answer (p : Purged) : answer :=
  AObj [("did", AStr (did_ p)); ("recordsDeleted", AInt (recordsDeleted p)); ("actorRowsDeleted", AInt (actorRowsDeleted p));
        ("tapStatus", AStr (tapStatus p))].
Definition reset_preview_answer (tables : list (string * Z)) (totalRows : Z) (token : string) (expires : Z) : answer :=
  AObj [("totalRows", AInt totalRows);
        ("tables", AList ((fun t : string * Z => AObj [("name", AStr t.1); ("count", AInt t.2)]) <$> tables));
        ("confirmToken", AStr token); ("tokenExpiresAt", AStr (rfc3339 (unix expires))); ("tokenTtlSeconds", AInt (purgeTokenTTL / second))].
Definition reset_answer (rowsDeleted : Z) : answer :=
  AObj [("rowsDeleted", AInt rowsDeleted); ("tablesAffected", AInt (Z.of_nat (length resetAllTables)))].
Definition index_answer (indexName : string) : answer := AObj [("success", ABool true); ("indexName", AStr indexName)].

(** What the methods can answer when they succeed, over any rows of the tables; a
    report has one of the reasons that its table admits. *)
Inductive answers : call -> answer -> Prop :=
| R_session u h l : answers (CCurrentSession u h l) (session_answer u h l)
| R_statistics r a l : answers CStatistics (statistics_answer r a l)
| R_settings v : answers CSettings (settings_answer v)
| R_backfilling b : answers CIsBackfilling (ABool b)
| R_lexicons l : answers CLexicons (AList ((fun x : string * string * Z => lexicon_answer x.1.1 x.1.2 x.2) <$> l))
| R_clients l : answers COAuthClients (AList (client_answer <$> l))
| R_overview l : answers CCollectionOverview (AList (overview_answer <$> l))
| R_buckets range l : answers (CActivityBuckets range) (AList (bucket_answer <$> l))
| R_recent h l : answers (CRecentActivity h) (AList (entry_answer <$> l))
| R_validation range s l : answers (CValidationStats range) (validation_answer s l)
| R_definitions l : answers CLabelDefinitions (AList ((fun x : (string * string) * LabelDefinition => definition_answer x.1 x.2) <$> l))
| R_preferences u l : answers (CViewerLabelPreferences u) (AList (preference_answer <$> l))
| R_labels u v f a p : answers (CLabels u v f a) (page_answer label_answer p)
| R_reports s f a p : Forall (fun e => r_reasonType (snd (snd e)) ∈ ReasonTypes) (a_edges p) ->
    answers (CReports s f a) (page_answer report_answer p)
| R_update i v : answers (CUpdateSettings i) (settings_answer v)
| R_preview_reset ts n tok e : answers CPreviewResetAll (reset_preview_answer ts n tok e)
| R_reset tok n : answers (CResetAll tok) (reset_answer n)
| R_preview_purge d p : answers (CPreviewPurgeActor d) (preview_answer p)
| R_purge d t p : answers (CPurgeActor d t) (purged_answer p)
| R_populate n : answers CPopulateActivity (AInt n)
| R_create_label u v c e l : answers (CCreateLabel u v c e) (label_answer l)
| R_negate u v l : answers (CNegateLabel u v) (negation_answer l)
| R_define s v d sev vis k x : answers (CCreateLabelDefinition s v d sev vis) (definition_answer k x)
| R_resolve i a lv by_ r : r_reasonType r.2 ∈ ReasonTypes -> answers (CResolveReport i a lv by_) (report_answer r)
| R_upload z n : answers (CUploadLexicons z) (AInt n)
| R_backfill : answers CTriggerBackfill (ABool true)
| R_backfill_actor d : answers (CBackfillActor d) (ABool true)
| R_create_client n t u c : answers (CCreateOAuthClient n t u) (stored_client_answer c)
| R_update_client i n u c : answers (CUpdateOAuthClient i n u) (stored_client_answer c)
| R_delete_client i : answers (CDeleteOAuthClient i) (ABool true)
| R_add d : answers (CAddAdmin d) (ABool true)
| R_remove d : answers (CRemoveAdmin d) (ABool true)
| R_register n j d x t : answers (CRegisterLexicon n) (registered_answer n j d x t)
| R_delete n : answers (CDeleteLexicon n) (ABool true)
| R_index c f n : answers (CCreateFieldIndex c f) (index_answer n)
| R_drop c f : answers (CDropFieldIndex c f) (ABool true).
End Answers.

(** ** What a type admits *)

(** The coercion of results: an integer has 32 bits, an enumeration one of its
    values, an object every field that may not be null. *)
Definition int32 (z : Z) : Prop := - 2 ^ 31 <= z < 2 ^ 31.
Inductive conforms : gtype -> answer -> Prop :=
| c_null_string : conforms TString ANull
| c_null_int : conforms TInt ANull
| c_null_boolean : conforms TBoolean ANull
| c_null_named n : conforms (TNamed n) ANull
| c_null_list t : conforms (TList t) ANull
| c_non_null t r : r <> ANull -> conforms t r -> conforms (TNonNull t) r
| c_string s : conforms TString (AStr s)
| c_int z : int32 z -> conforms TInt (AInt z)
| c_boolean b : conforms TBoolean (ABool b)
| c_list t l : Forall (conforms t) l -> conforms (TList t) (AList l)
| c_enum n vs s : assoc enums n = Some vs -> s ∈ vs.*2 -> conforms (TNamed n) (AStr s)
| c_object n fs m : assoc objects n = Some fs -> Forall (fun f => conforms f.2 (get m f.1)) fs -> conforms (TNamed n) (AObj m).

(** All numbers of an answer have 32 bits. *)
Fixpoint fits (r : answer) : Prop :=
  match r with
  | AInt z => int32 z
  | AList l => fold_right (fun x P => fits x /\ P) True l
  | AObj m => fold_right (fun p P => fits p.2 /\ P) True m
  | _ => True
  end.

(** ** The answers conform *)

Create HintDb conform.
#[export] Hint Resolve c_null_string c_null_int c_null_boolean c_string c_int c_boolean : conform.

(** An object, field by field; the numbers are in the hypotheses. *)
Ltac each_field :=
  repeat (apply Forall_cons; split; [cbn; first [solve [eauto with conform]|repeat (apply c_non_null; [done|]); eauto with conform]|]); apply Forall_nil; exact I.
Ltac object := cbn in *; destruct_and?; eapply c_object; [reflexivity|each_field].

Lemma list_conforms {A} n (f : A -> answer) l : (forall x, x ∈ l -> fits (f x) -> f x <> ANull /\ conforms (TNamed n) (f x)) ->
  fits (AList (f <$> l)) -> conforms (list_of n) (AList (f <$> l)).
Proof.
  intros Hf Hl. apply c_non_null; [done|]. apply c_list. induction l as [|x l IH]; [by constructor|].
  cbn in Hl |- *. destruct Hl as [Hx Hl]. destruct (Hf x) as [Hn Hc]; [constructor|done|].
  apply Forall_cons. split; [by apply c_non_null|]. apply IH; [|done]. intros y Hy. apply Hf. by constructor.
Qed.

Lemma texts_conform l : conforms (TNonNull (TList (TNonNull TString))) (AList (AStr <$> l)).
Proof.
  apply c_non_null; [done|]. apply c_list. apply Forall_fmap, Forall_forall. intros s _. cbn.
  apply c_non_null; [done|constructor].
Qed.
#[export] Hint Resolve texts_conform : conform.

(** The values behind the names of an enumeration. *)
Definition values (e : enum_type) : list string := e.2.*2.

Lemma severity_conforms s : conforms (TNamed "LabelSeverity") (AStr (SeverityText s)).
Proof. eapply c_enum; [reflexivity|]. apply list_elem_of_In. destruct s; cbn; tauto. Qed.
Lemma visibility_conforms v : conforms (TNamed "LabelVisibility") (AStr (VisibilityText v)).
Proof. eapply c_enum; [reflexivity|]. apply list_elem_of_In. destruct v; cbn; tauto. Qed.
Lemma status_conforms s : conforms (TNamed "ReportStatus") (AStr (StatusText s)).
Proof. eapply c_enum; [reflexivity|]. apply list_elem_of_In. destruct s; cbn; tauto. Qed.
Lemma reason_conforms s : s ∈ ReasonTypes -> conforms (TNamed "ReportReasonType") (AStr s).
Proof. intros H. eapply c_enum; [reflexivity|done]. Qed.
#[export] Hint Resolve severity_conforms visibility_conforms status_conforms reason_conforms : conform.
Lemma text_conforms o : conforms TString (text o).
Proof. destruct o; constructor. Qed.
#[export] Hint Resolve text_conforms : conform.

Section Conform.
Context (rfc3339 : Z -> string).

Lemma bucket_conforms b : fits (bucket_answer rfc3339 b) -> conforms (TNamed "ActivityBucket") (bucket_answer rfc3339 b).
Proof. unfold bucket_answer. intros H. object. Qed.
Lemma entry_conforms e : fits (entry_answer rfc3339 e) -> conforms (TNamed "ActivityEntry") (entry_answer rfc3339 e).
Proof. unfold entry_answer. intros H. destruct (e_RKey e), (e_ErrorMessage e), (e_IsValid e); object. Qed.
Lemma definition_conforms k d : fits (definition_answer rfc3339 k d) -> conforms (TNamed "LabelDefinition") (definition_answer rfc3339 k d).
Proof. unfold definition_answer. intros H. object. Qed.
Lemma preference_conforms p : conforms (TNamed "LabelPreference") (preference_answer p).
Proof. unfold preference_answer. eapply c_object; [reflexivity|each_field]. Qed.
Lemma label_conforms l : fits (label_answer rfc3339 l) -> conforms (TNamed "Label") (label_answer rfc3339 l).
Proof. unfold label_answer. intros H. destruct (l_cid (l_data l)), (l_exp (l_data l)); object. Qed.
Lemma report_conforms r : r_reasonType r.2 ∈ ReasonTypes -> fits (report_answer rfc3339 r) ->
  conforms (TNamed "Report") (report_answer rfc3339 r).
Proof.
  unfold report_answer. intros Hr H. destruct (r_reason r.2), (r_resolvedBy r.2), (r_resolvedAt r.2); object.
Qed.
Lemma client_conforms c : fits (client_answer c) -> conforms (TNamed "OAuthClient") (client_answer c).
Proof. unfold client_answer. intros H. object. Qed.
Lemma stored_client_conforms c : fits (stored_client_answer c) -> conforms (TNamed "OAuthClient") (stored_client_answer c).
Proof. unfold stored_client_answer. intros H. destruct (cl_ClientSecret c); object. Qed.

Lemma page_conforms {Row} edge node_type connection (node : Row -> answer) p :
  assoc objects edge = Some [("cursor", TNonNull TString); ("node", named node_type)] ->
  assoc objects connection = Some [("edges", list_of edge); ("pageInfo", named "PageInfo"); ("totalCount", TNonNull TInt)] ->
  (forall e, e ∈ a_edges p -> fits (node e.2) -> node e.2 <> ANull /\ conforms (TNamed node_type) (node e.2)) ->
  fits (page_answer node p) -> conforms (TNamed connection) (page_answer node p).
Proof.
  intros He Hc Hn H. eapply c_object; [exact Hc|]. cbn in H. destruct H as [Hedges [_ [Ht _]]].
  apply Forall_cons. split; [|apply Forall_cons; split; [|apply Forall_cons; split; [|constructor]]]; cbn.
  - apply list_conforms; [|done]. intros e Hin Hf. split; [done|]. destruct (Hn e Hin) as [H1 H2]; [apply Hf|].
    eapply c_object; [exact He|]. apply Forall_cons. split; [cbn; apply c_non_null; [done|constructor]|].
    apply Forall_cons. split; [cbn; by apply c_non_null|constructor].
  - apply c_non_null; [done|]. eapply c_object; [reflexivity|each_field].
  - apply c_non_null; [done|]. by apply c_int.
Qed.

Lemma pairs_conform {n} (f : string * Z -> answer) k j fs l :
  (forall x, f x = AObj [(k, AStr x.1); (j, AInt x.2)]) -> assoc objects n = Some fs ->
  fs = [(k, TNonNull TString); (j, TNonNull TInt)] -> String.eqb k j = false ->
  fits (AList (f <$> l)) -> conforms (list_of n) (AList (f <$> l)).
Proof.
  intros Hf Hn -> Hk. apply list_conforms. intros x _. rewrite Hf. cbn. intros (_ & Hz & _). split; [done|].
  eapply c_object; [exact Hn|]. apply Forall_cons; split; [|apply Forall_cons; split; [|constructor]]; unfold get, assoc; cbn.
  - rewrite String.eqb_refl. apply c_non_null; [done|constructor].
  - rewrite Hk, String.eqb_refl. apply c_non_null; [done|by constructor].
Qed.

Lemma validation_conforms s l : fits (validation_answer rfc3339 s l) -> conforms (TNamed "ValidationStats") (validation_answer rfc3339 s l).
Proof.
  intros H. cbn -[fits] in H. destruct H as (Hc & Hi & Hr & _).
  eapply c_object; [reflexivity|]. apply Forall_cons. split; [cbn; apply c_non_null; [done|by apply c_int]|].
  apply Forall_cons. split; [by eapply pairs_conform|].
  apply Forall_cons. split; [apply list_conforms; [|exact Hr]; intros e _ He; split; [done|by apply entry_conforms]|].
  apply Forall_cons. split; [|constructor]. destruct (LastInvalidAt s); constructor.
Qed.

Lemma reset_preview_conforms ts n tok e : fits (reset_preview_answer rfc3339 ts n tok e) ->
  conforms (TNamed "ResetAllPreview") (reset_preview_answer rfc3339 ts n tok e).
Proof.
  intros H. cbn -[fits] in H. destruct H as (Hn & Ht & _ & _ & Hl & _).
  eapply c_object; [reflexivity|]. apply Forall_cons. split; [cbn; apply c_non_null; [done|by apply c_int]|].
  apply Forall_cons. split; [by eapply pairs_conform|each_field].
Qed.
End Conform.

(** *** The types of the methods *)

Definition returns (c : call) : gtype :=
  match c with
  | CCurrentSession _ _ _ => TNamed "CurrentSession"
  | CStatistics => named "Statistics"
  | CSettings | CUpdateSettings _ => named "Settings"
  | CIsBackfilling | CTriggerBackfill | CBackfillActor _ | CDeleteOAuthClient _ | CAddAdmin _ | CRemoveAdmin _ | CDeleteLexicon _
  | CDropFieldIndex _ _ => TNonNull TBoolean
  | CLexicons => list_of "Lexicon"
  | COAuthClients => list_of "OAuthClient"
  | CCollectionOverview => list_of "CollectionOverview"
  | CActivityBuckets _ => list_of "ActivityBucket"
  | CRecentActivity _ => list_of "ActivityEntry"
  | CValidationStats _ => named "ValidationStats"
  | CLabelDefinitions => list_of "LabelDefinition"
  | CViewerLabelPreferences _ => list_of "LabelPreference"
  | CLabels _ _ _ _ => named "LabelConnection"
  | CReports _ _ _ => named "ReportConnection"
  | CPreviewResetAll => named "ResetAllPreview"
  | CResetAll _ => named "ResetAllResult"
  | CPreviewPurgeActor _ => named "PurgeActorPreview"
  | CPurgeActor _ _ => named "PurgeActorResult"
  | CPopulateActivity | CUploadLexicons _ => TNonNull TInt
  | CCreateLabel _ _ _ _ | CNegateLabel _ _ => named "Label"
  | CCreateLabelDefinition _ _ _ _ _ => named "LabelDefinition"
  | CResolveReport _ _ _ _ => named "Report"
  | CCreateOAuthClient _ _ _ | CUpdateOAuthClient _ _ _ => named "OAuthClient"
  | CRegisterLexicon _ => named "Lexicon"
  | CCreateFieldIndex _ _ => named "FieldIndexResult"
  | CNotifications _ _ _ _ => named "NotificationConnection"
  | CUnreadNotificationCount _ => named "UnreadCountResult"
  | CUpdateNotificationsSeen _ _ => TNonNull TBoolean
  | CExtra _ _ => TBoolean
  end.

Lemma answers_returned rfc3339 c r : answers rfc3339 c r -> fits r -> conforms (returns c) r.
Proof.
  destruct 1; intros Hr; cbn [returns]; unfold named.
  all: try (apply list_conforms; [|exact Hr]; intros ? _ Hx; split; [done|]).
  all: try (apply c_non_null; [done|]).
  all: try (by auto using bucket_conforms, entry_conforms, definition_conforms, preference_conforms, label_conforms, report_conforms,
      client_conforms, stored_client_conforms with conform).
  all: try (by (unfold session_answer, statistics_answer, settings_answer, lexicon_answer, overview_answer, reset_answer,
                 preview_answer, purged_answer, negation_answer, registered_answer, index_answer in *; object)).
  - by apply validation_conforms.
  - apply (page_conforms "LabelEdge" "Label"); [reflexivity..| |done]. intros e _ He. split; [done|]. by apply label_conforms.
  - apply (page_conforms "ReportEdge" "Report"); [reflexivity..| |done]. intros e Hin He. split; [done|]. apply report_conforms; [|done].
    by apply (proj1 (Forall_forall _ _) H e Hin).
  - by apply reset_preview_conforms.
Qed.

(** *** The fields *)

Definition null_fits (t : gtype) : bool := match t with TNonNull _ => false | _ => true end.
Lemma null_conforms t : null_fits t = true -> conforms t ANull.
Proof. by destruct t; constructor. Qed.

(** The method that a field calls has the type of the field, and a field that can be
    null without an error may be. *)
Definition well_typed (f : field) : Prop := forall v a o, f_resolve f v a = Ok o ->
  match o with Some c => returns c = f_type f | None => null_fits (f_type f) = true end.

Lemma admin_only_typed f g : f_resolve f = admin_only g -> (forall v a, returns (g v a) = f_type f) -> well_typed f.
Proof. intros Hr Hg v a o. rewrite Hr. unfold admin_only. destruct (requireAdmin _); [|done]. by intros [= <-]. Qed.

Lemma fields_typed : Forall well_typed (buildQueryType ++ buildMutationType).
Proof.
  unfold buildQueryType, buildMutationType. rewrite !Forall_app. split_and!;
    repeat (first [apply Forall_cons; split; [try (eapply admin_only_typed; [reflexivity|reflexivity])|]|apply Forall_nil; exact I]).
  all: intros v a o; cbn [f_resolve f_type]; destruct (is_empty _); first [done|by intros [= <-]].
Qed.

(** C7: whatever rows the tables hold, an answer of a resolver of the base schema has
    the type that the schema declares for its field, down to the fields of its
    objects, so that no answer is lost, when its numbers have 32 bits and its
    reports have reasons that their table admits. *)
Theorem answers_conform rfc3339 f v a : f ∈ buildQueryType ++ buildMutationType ->
  forall o, f_resolve f v a = Ok o ->
  match o with
  | None => conforms (f_type f) ANull
  | Some c => forall r, answers rfc3339 c r -> fits r -> conforms (f_type f) r
  end.
Proof.
  intros Hf o Ho. pose proof (proj1 (Forall_forall _ _) fields_typed f Hf v a o Ho) as Ht.
  destruct o as [c|]; [|by apply null_conforms]. intros r Hr Hi. rewrite <-Ht. by eapply answers_returned.
Qed.

(** *** Names of types and values of enumerations *)

Fixpoint named_in (t : gtype) : option string :=
  match t with TNamed n => Some n | TNonNull t | TList t => named_in t | _ => None end.
Definition declared_types : list string := (fst <$> enums) ++ (fst <$> objects).
Definition is_declared (t : gtype) : bool :=
  match named_in t with Some n => existsb (String.eqb n) declared_types | None => true end.

(** Every type that a field of the schema, an argument or a field of another type
    mentions is declared, no two types share a name, and no two fields of a type. *)
Theorem admin_types_closed :
  Forall (fun f => is_declared (f_type f) = true /\ Forall (fun x => is_declared (a_type x) = true) (f_args f))
    (buildQueryType ++ buildMutationType) /\
  Forall (fun o : object_type => NoDup (fst <$> o.2) /\ Forall (fun f : string * gtype => is_declared f.2 = true) o.2) objects /\
  NoDup declared_types.
Proof.
  split_and!; eapply bool_decide_eq_true_1; by vm_compute.
Qed.

(** The values of an enumeration against a chain of comparisons. *)
Ltac by_values :=
  unfold values; rewrite list_elem_of_In; cbn;
  repeat match goal with |- context [String.eqb ?x ?y] => destruct (String.eqb_spec x y) as [->|]; [cbn; split; [by eauto|tauto]|] end;
  split; [intuition congruence|intros [? [=]]].

(** The values of the enumerations are exactly those that the repositories accept:
    severities, visibilities, states and reasons of reports; the two tables that turn a
    range of time into hours agree on every value of its enumeration, and every action
    on a report is one that its resolver carries out. *)
Theorem enumerations_agree s :
  (s ∈ values LabelSeverityEnum <-> is_Some (ValidateSeverity s)) /\
  (s ∈ values LabelVisibilityEnum <-> is_Some (ValidateVisibility s)) /\
  (s ∈ values ReportStatusEnum <-> is_Some (ValidateReportStatus s)) /\
  (s ∈ values ReportReasonTypeEnum <-> is_Some (ValidateReasonType s)) /\
  (s ∈ values TimeRangeEnum -> (bucket_range s).1 = stats_hours s) /\
  (s ∈ values ReportActionEnum <-> s = "apply_label" \/ s = "dismiss").
Proof.
  split_and!.
  - unfold ValidateSeverity. by_values.
  - unfold ValidateVisibility. by_values.
  - unfold ValidateReportStatus. by_values.
  - unfold ValidateReasonType. by_values.
  - unfold values. rewrite list_elem_of_In. cbn. by intros [<-|[<-|[<-|[<-|[<-|[]]]]]].
  - unfold values. rewrite list_elem_of_In. cbn. intuition.
Qed.

(** ** Concrete answers *)

Module Example_admin_types.
Import AdminApi.Example_admin_api.

Definition root : viewer := {| auth := Access.Example_access.admin; handle := "" |}.
Definition no_text (t : Z) : string := "".

Lemma answers_conform_witness :
  let f := {| f_name := "resetAll"; f_type := named "ResetAllResult"; f_args := [req "confirmToken" TString];
              f_resolve := admin_only (fun _ a => CResetAll (str a "confirmToken")) |} in
  f ∈ buildQueryType ++ buildMutationType /\ conforms (named "ResetAllResult") (reset_answer 7).
Proof.
  intros f. assert (f ∈ buildQueryType ++ buildMutationType) as Hf by (apply list_elem_of_In; cbn; tauto).
  split; [exact Hf|].
  apply (answers_conform no_text f root ∅ Hf (Some (CResetAll ""))); [reflexivity|constructor|].
  cbn. unfold int32. lia.
Defined.

(** A reset of 2^31 rows is carried out, and its answer is lost. *)
Example reset_unanswered : answers no_text (CResetAll "t") (reset_answer (2 ^ 31)) /\
  ~ conforms (named "ResetAllResult") (reset_answer (2 ^ 31)).
Proof.
  split; [constructor|]. intros H. unfold named, reset_answer in H. inversion H as [| | | | |? ? _ H1| | | | | |]; subst.
  inversion H1 as [| | | | | | | | | | |? fs ? Hfs Hall]; subst. cbn in Hfs. injection Hfs as <-.
  apply Forall_cons in Hall as [Hn _]. cbn in Hn. inversion Hn as [| | | | |? ? _ H2| | | | | |]; subst.
  inversion H2 as [| | | | | | |? Hz| | | |]; subst. unfold int32 in Hz. lia.
Qed.
End Example_admin_types.
