(* ===== verification/Actors.v ===== *)
(** The table of actors ([internal/database/repositories/actors.go]) and the command
    that resolves their servers ([cmd/backfill_pds/main.go]), whose workers share a
    channel and run beside the ingestion of records. *)
From stdpp Require Import sorting.
From S2P Require Import Prelude GoStrings Statements RecordStore.

Local Open Scope Z_scope.

(** ** The table *)

(** The columns that may be null. *)
Record Actor := { ac_handle : option string; ac_pds : option string; ac_indexed : Z }.
Abbreviation actors := (gmap string Actor).

Inductive actors_error := EExec | EScan | ENoActor.
Abbreviation AM := (M actors actors_error).

(** [NULLIF($3, '')]. *)
Definition nullif (s : string) : option string := if is_empty s then None else Some s.
(** [COALESCE(EXCLUDED.pds, actor.pds)]. *)
Definition coalesce (a b : option string) : option string := match a with Some _ => a | None => b end.

(** [INSERT ... ON CONFLICT(did) DO UPDATE]: a server that is not known keeps the one of
    the row, the handle is always replaced. *)
Definition upsert_actor (now : Z) (did handle : string) (pds : option string) (t : actors) : actors :=
  <[did := {| ac_handle := Some handle; ac_pds := coalesce pds (t !! did ≫= ac_pds); ac_indexed := now |}]> t.

Definition UpsertWithPDS (now : Z) (did handle pds : string) : AM unit :=
  stmt EExec (fun t => Some ((), upsert_actor now did handle (nullif pds) t)).
Definition Upsert (now : Z) (did handle : string) : AM unit := UpsertWithPDS now did handle "".

(** A chunk is one statement, which must not touch a row twice. *)
Definition batchUpsertChunk (now : Z) (l : list (string * string)) : AM unit :=
  stmt EExec (fun t => if bool_decide (NoDup l.*1)
                       then Some ((), foldl (fun t a => upsert_actor now a.1 a.2 None t) t l) else None).
Fixpoint upsert_chunks (clock : nat -> Z) (i : nat) (bs : list (list (string * string))) : AM unit :=
  match bs with [] => mret () | b :: bs => _ ← batchUpsertChunk (clock i) b; upsert_chunks clock (S i) bs end.
Definition BatchUpsert (clock : nat -> Z) (l : list (string * string)) : AM unit :=
  upsert_chunks clock 0 (chunks BatchInsertSize l).

Definition set_pds (did : string) (pds : option string) (t : actors) : actors :=
  alter (fun a => {| ac_handle := ac_handle a; ac_pds := pds; ac_indexed := ac_indexed a |}) did t.
Definition SetPDS (did pds : string) : AM unit := stmt EExec (fun t => Some ((), set_pds did (nullif pds) t)).

(** [read_time] reads the text that the database makes of an instant; a text that it
    does not read leaves the zero time. A handle that is null is not read. *)
Definition to_actor (read_time : Z -> option Z) (did : string) (a : Actor) : option (string * string * option Z * string) :=
  h ← ac_handle a; Some (did, h, read_time (ac_indexed a), default "" (ac_pds a)).
Definition GetByDID (read_time : Z -> option Z) (did : string) : AM (string * string * option Z * string) :=
  r ← stmt EExec (fun t => Some (t !! did, t));
  match r with
  | None => fail ENoActor
  | Some a => match to_actor read_time did a with Some x => mret x | None => fail EScan end
  end.
(** Among several rows of a handle the database takes one. *)
Definition GetByHandle (read_time : Z -> option Z) (handle : string) : AM (string * string * option Z * string) :=
  r ← stmt EExec (fun t => Some (head (List.filter (fun p => bool_decide (ac_handle p.2 = Some handle)) (map_to_list t)), t));
  match r with
  | None => fail ENoActor
  | Some (did, a) => match to_actor read_time did a with Some x => mret x | None => fail EScan end
  end.
Definition GetCount : AM Z := stmt EExec (fun t => Some (Z.of_nat (size t), t)).
Definition DeleteAll : AM unit := stmt EExec (fun _ => Some ((), ∅)).
Definition Exists (did : string) : AM bool := stmt EExec (fun t => Some (bool_decide (is_Some (t !! did)), t)).

(** *** What the writes do *)

#[global] Arguments upsert_actor : simpl never.

Lemma upsert_actor_lookup now did handle pds t d :
  upsert_actor now did handle pds t !! d =
  if decide (d = did) then Some {| ac_handle := Some handle; ac_pds := coalesce pds (t !! did ≫= ac_pds); ac_indexed := now |}
  else t !! d.
Proof. unfold upsert_actor. destruct (decide _) as [->|]; [by rewrite lookup_insert_eq|by rewrite lookup_insert_ne]. Qed.

(** The server that a row has. *)
Definition server_of (t : actors) (did : string) : option string := t !! did ≫= ac_pds.

(** Nothing of the repository but [SetPDS] and the deletion loses a server. *)
Definition servers_kept (t t' : actors) : Prop := forall d s, server_of t d = Some s -> exists s', server_of t' d = Some s'.

Lemma servers_kept_refl t : servers_kept t t.
Proof. intros d s H. by exists s. Qed.
Lemma servers_kept_trans t1 t2 t3 : servers_kept t1 t2 -> servers_kept t2 t3 -> servers_kept t1 t3.
Proof. intros H1 H2 d s [s' Hs]%H1. by eapply H2. Qed.

Lemma upsert_actor_servers now did handle pds t d :
  server_of (upsert_actor now did handle pds t) d = if decide (d = did) then coalesce pds (server_of t d) else server_of t d.
Proof. unfold server_of. rewrite upsert_actor_lookup. by destruct (decide _) as [->|]. Qed.

Lemma upsert_actor_kept now did handle pds t : servers_kept t (upsert_actor now did handle pds t).
Proof.
  intros d s Hs. rewrite upsert_actor_servers. destruct (decide _) as [->|]; [|by exists s].
  rewrite Hs. destruct pds; cbn; by eexists.
Qed.

Lemma fold_upsert_lookup now l t d : NoDup l.*1 ->
  foldl (fun t a => upsert_actor now a.1 a.2 None t) t l !! d =
  match List.find (fun a => String.eqb a.1 d) l with
  | Some a => Some {| ac_handle := Some a.2; ac_pds := server_of t d; ac_indexed := now |}
  | None => t !! d
  end.
Proof.
  revert t. induction l as [|[d' h] l IH]; intros t Hl; [done|]. cbn in Hl |- *. apply NoDup_cons in Hl as [Hd Hl].
  rewrite IH by done. destruct (String.eqb_spec d' d) as [->|Hne].
  - destruct (List.find (fun a => String.eqb a.1 d) l) as [[d2 h2]|] eqn:Hf.
    + apply find_some in Hf as [Hin Heq]. cbn in Heq. apply String.eqb_eq in Heq as ->. exfalso. apply Hd, list_elem_of_fmap. exists (d, h2). split; [done|].
      by apply list_elem_of_In.
    + by rewrite upsert_actor_lookup, decide_True.
  - rewrite upsert_actor_lookup, decide_False by done. unfold server_of.
    by rewrite upsert_actor_lookup, decide_False.
Qed.

Lemma fold_upsert_kept now l t : servers_kept t (foldl (fun t a => upsert_actor now a.1 a.2 None t) t l).
Proof.
  revert t. induction l as [|a l IH]; intros t; [apply servers_kept_refl|]. cbn.
  eapply servers_kept_trans; [apply upsert_actor_kept|apply IH].
Qed.

Lemma batchUpsertChunk_keeps t0 now b : keeps (servers_kept t0) (batchUpsertChunk now b).
Proof.
  apply keeps_stmt. intros t a t' H. destruct (bool_decide _); [|done]. intros [= _ <-].
  eapply servers_kept_trans; [done|apply fold_upsert_kept].
Qed.
Lemma upsert_chunks_keeps t0 clock i bs : keeps (servers_kept t0) (upsert_chunks clock i bs).
Proof.
  revert i. induction bs as [|b bs IH]; intros i; cbn; [apply keeps_ret|].
  apply keeps_bind; [apply batchUpsertChunk_keeps|intros _; apply IH].
Qed.

(** Whatever the database does, an upsert of one actor or of many never loses a
    server that a row had. *)
Theorem upserts_keep_servers now did handle pds clock l fs t :
  servers_kept t (UpsertWithPDS now did handle pds (fs, t)).2.2 /\ servers_kept t (BatchUpsert clock l (fs, t)).2.2.
Proof.
  split.
  - apply (keeps_stmt (servers_kept t)); [|apply servers_kept_refl]. intros t1 a t2 H [= _ <-].
    eapply servers_kept_trans; [done|apply upsert_actor_kept].
  - apply (upsert_chunks_keeps t), servers_kept_refl.
Qed.

Lemma find_app {A} (f : A -> bool) l k : List.find f (l ++ k) = match List.find f l with Some a => Some a | None => List.find f k end.
Proof. induction l as [|a l IH]; cbn; [done|]. by destruct (f a). Qed.

(** The rows after a batch. *)
Definition batched (clock : nat -> Z) (l : list (string * string)) (t t' : actors) : Prop :=
  forall d, match List.find (fun a => String.eqb a.1 d) l with
            | Some a => exists i, t' !! d = Some {| ac_handle := Some a.2; ac_pds := server_of t d; ac_indexed := clock i |}
            | None => t' !! d = t !! d
            end.

Lemma upsert_chunks_works clock bs : NoDup (concat bs).*1 -> forall i t,
  exists t', works (upsert_chunks clock i bs) t () t' /\ batched clock (concat bs) t t'.
Proof.
  induction bs as [|b bs IH]; intros Hn i t; cbn; [by exists t|].
  cbn in Hn. rewrite fmap_app in Hn. apply NoDup_app in Hn as (Hb & Hd & Hn).
  set (t1 := foldl (fun t a => upsert_actor (clock i) a.1 a.2 None t) t b).
  destruct (IH Hn (S i) t1) as (t' & Hw & Ht'). exists t'. split.
  { eapply works_bind; [apply works_stmt; by rewrite bool_decide_true|exact Hw]. }
  intros d. specialize (Ht' d). rewrite find_app. pose proof (fold_upsert_lookup (clock i) b t d Hb) as Hl. fold t1 in Hl.
  destruct (List.find _ b) as [[d2 h2]|] eqn:Hf.
  - apply find_some in Hf as [Hin Heq]. cbn in Heq. apply String.eqb_eq in Heq as ->. cbn in Hl |- *. exists i.
    destruct (List.find _ (concat bs)) as [[d3 h3]|] eqn:Hf3; [|by rewrite Ht'].
    apply find_some in Hf3 as [Hin3 Heq]. cbn in Heq. apply String.eqb_eq in Heq as ->. exfalso.
    apply (Hd d); apply list_elem_of_fmap; [exists (d, h2)|exists (d, h3)]; split; try done; by apply list_elem_of_In.
  - destruct (List.find _ (concat bs)) as [[d3 h3]|]; [|by rewrite Ht'].
    destruct Ht' as [j Hj]. exists j. rewrite Hj. unfold server_of. by rewrite Hl.
Qed.

(** A batch of distinct actors, when its statements work, gives each of them the
    handle of the batch and leaves its server, and leaves every other row. *)
Theorem BatchUpsert_spec clock l t : NoDup l.*1 ->
  exists t', works (BatchUpsert clock l) t () t' /\ batched clock l t t'.
Proof.
  intros Hn. unfold BatchUpsert. pose proof (chunks_concat BatchInsertSize l) as Hc.
  rewrite <-(Hc ltac:(unfold BatchInsertSize; lia)) in Hn.
  destruct (upsert_chunks_works clock _ Hn 0 t) as (t' & Hw & Ht). exists t'. split; [done|].
  by rewrite Hc in Ht by (unfold BatchInsertSize; lia).
Qed.

(** ** The command that resolves servers *)

Module BackfillPds.
(** The rows without a server, or all of them; the order of rows of one instant is
    left open. *)
Definition unresolved (a : Actor) : bool := match ac_pds a with None => true | Some s => is_empty s end.
Definition earlier (a b : string * Actor) : Prop := ac_indexed a.2 <= ac_indexed b.2.
#[global] Instance earlier_dec a b : Decision (earlier a b).
Proof. unfold earlier. apply _. Defined.
Definition loadDIDsToResolve (force : bool) (t : actors) : list string :=
  fst <$> merge_sort earlier (List.filter (fun p => force || unresolved p.2) (map_to_list t)).

Definition clamp_concurrency (n : Z) : nat := if n <? 1 then 1%nat else Z.to_nat n.

Inductive outcome := Resolved | Failed | NoEndpoint | Dropped.
#[global] Instance outcome_eq : EqDecision outcome.
Proof. solve_decision. Defined.

(** The dispatcher has [pending] before it, the workers that are left hold [busy]; [log]
    is what became of the others. *)
Record run := {
  pending : list string; busy : list string; alive : nat; log : list (string * outcome); cancelled : bool; table : actors
}.
Definition start (concurrency : Z) (dids : list string) (t : actors) : run :=
  {| pending := dids; busy := []; alive := clamp_concurrency concurrency; log := []; cancelled := false; table := t |}.

(** What a worker does with a DID, whose document says [r]: none is an error, the
    empty text no server. *)
Definition handle (r : option string) (f : fate) (did : string) (t : actors) : outcome * actors :=
  match r with
  | None => (Failed, t)
  | Some pds =>
      if is_empty pds then (NoEndpoint, t)
      else match SetPDS did pds ([f], t) with (Ok _, (_, t')) => (Resolved, t') | (Err _, (_, t')) => (Failed, t') end
  end.

Inductive event :=
| Dispatch                                   (** a free worker takes the next DID *)
| Handled (i : nat) (r : option string) (f : fate) (** the worker with the i-th held DID is done *)
| Signal | Close                             (** the dispatcher sees the signal *)
| GiveUp (i : nat)                           (** a worker sees it while it waits for the limiter *)
| Ingest (now : Z) (did handle pds : string) | Purge (did : string).

Definition without (i : nat) (l : list string) : list string := take i l ++ drop (S i) l.

(** [None] is an event that cannot happen. *)
Definition happen (e : event) (s : run) : option run :=
  match e with
  | Dispatch =>
      match pending s with
      | d :: ds => if (length (busy s) <? alive s)%nat
                   then Some {| pending := ds; busy := busy s ++ [d]; alive := alive s; log := log s;
                                cancelled := cancelled s; table := table s |} else None
      | [] => None
      end
  | Handled i r f =>
      d ← busy s !! i;
      let '(o, t) := handle r f d (table s) in
      Some {| pending := pending s; busy := without i (busy s); alive := alive s; log := log s ++ [(d, o)];
              cancelled := cancelled s; table := t |}
  | Signal => Some {| pending := pending s; busy := busy s; alive := alive s; log := log s; cancelled := true; table := table s |}
  | Close => if cancelled s && negb (length (pending s) =? 0)%nat
             then Some {| pending := []; busy := busy s; alive := alive s; log := log s ++ ((., Dropped) <$> pending s);
                          cancelled := true; table := table s |} else None
  | GiveUp i =>
      d ← busy s !! i;
      if cancelled s then Some {| pending := pending s; busy := without i (busy s); alive := pred (alive s);
                                  log := log s ++ [(d, Dropped)]; cancelled := true; table := table s |} else None
  | Ingest now did h pds =>
      Some {| pending := pending s; busy := busy s; alive := alive s; log := log s; cancelled := cancelled s;
              table := upsert_actor now did h (nullif pds) (table s) |}
  | Purge did =>
      Some {| pending := pending s; busy := busy s; alive := alive s; log := log s; cancelled := cancelled s;
              table := delete did (table s) |}
  end.
Fixpoint happens (es : list event) (s : run) : option run :=
  match es with [] => Some s | e :: es => s' ← happen e s; happens es s' end.

Definition ended (s : run) : bool := match pending s, busy s with [], [] => true | _, _ => false end.
Definition counted (o : outcome) (s : run) : nat := length (filter (fun p : string * outcome => p.2 = o) (log s)).

(** The command: its error, or its first state; it succeeds however the workers fared. *)
Definition command (url_set connects loads force : bool) (concurrency : Z) (t : actors) : result string run :=
  if negb url_set then Err "DATABASE_URL env not set"
  else if negb connects then Err "connect database"
  else if negb loads then Err "load DIDs"
  else Ok (start concurrency (loadDIDsToResolve force t) t).
End BackfillPds.

Module BackfillPds_facts.
Import BackfillPds.

Lemma without_perm i l d : l !! i = Some d -> l ≡ₚ d :: without i l.
Proof.
  intros H. unfold without. rewrite <-(take_drop_middle l i d H) at 1. by rewrite Permutation_middle.
Qed.

(** Every DID is in one place, and no more are held than workers are left. *)
Definition accounted (dids : list string) (s : run) : Prop :=
  dids ≡ₚ (log s).*1 ++ busy s ++ pending s /\ (length (busy s) <= alive s)%nat /\
  (cancelled s = false -> (0 < alive s)%nat /\ Forall (fun p => p.2 <> Dropped) (log s)).

Lemma accounted_start concurrency dids t : accounted dids (start concurrency dids t).
Proof.
  split_and!; [done|cbn; lia|]. intros _. split; [|constructor]. cbn. unfold clamp_concurrency. destruct (Z.ltb_spec concurrency 1); lia.
Qed.

Lemma handle_not_dropped r f d t : (handle r f d t).1 <> Dropped.
Proof. unfold handle. repeat case_match; done. Qed.

Lemma accounted_happen dids e s s' : accounted dids s -> happen e s = Some s' -> accounted dids s'.
Proof.
  intros (Hp & Hb & Hc). destruct e as [|i r f| | |i|now did h pds|did]; cbn -[Nat.ltb].
  - destruct (pending s) as [|d ds] eqn:Hpe; [done|]. destruct (Nat.ltb_spec (length (busy s)) (alive s)); [|done]. intros [= <-].
    split_and!; cbn; [by rewrite Hp, <-(assoc_L (++))|rewrite length_app; cbn; lia|done].
  - destruct (busy s !! i) as [d|] eqn:Hd; cbn; [|done]. pose proof (handle_not_dropped r f d (table s)) as Hnd.
    destruct (handle r f d (table s)) as [o t]. intros [= <-]. pose proof (without_perm _ _ _ Hd) as Hw. split_and!; cbn.
    + rewrite Hp, fmap_app, <-(assoc_L (++)). cbn. by rewrite Hw at 1.
    + apply Permutation_length in Hw. cbn in Hw. lia.
    + intros Hca. destruct (Hc Hca) as [? ?]. split; [done|]. apply Forall_app. split; [done|]. by constructor.
  - intros [= <-]. by split_and!.
  - destruct (cancelled s && _) eqn:Hca; [|done]. intros [= <-]. split_and!; cbn; [|done|done].
    clear Hca. rewrite Hp, fmap_app, <-list_fmap_compose, <-(assoc_L (++)), app_nil_r. f_equiv.
    rewrite (list_fmap_ext _ id) by done. rewrite list_fmap_id. by rewrite (comm (++)).
  - destruct (busy s !! i) as [d|] eqn:Hd; cbn; [|done]. destruct (cancelled s) eqn:Hca; [|done]. intros [= <-].
    pose proof (without_perm _ _ _ Hd) as Hw. split_and!; cbn; [|apply Permutation_length in Hw; cbn in Hw; lia|done].
    rewrite Hp, fmap_app, <-(assoc_L (++)). cbn. by rewrite Hw at 1.
  - intros [= <-]. by split_and!.
  - intros [= <-]. by split_and!.
Qed.
Lemma accounted_happens dids es s s' : accounted dids s -> happens es s = Some s' -> accounted dids s'.
Proof.
  revert s. induction es as [|e es IH]; intros s Hs; cbn; [by intros [= <-]|].
  destruct (happen e s) as [s1|] eqn:He; cbn; [|done]. apply IH. by eapply accounted_happen.
Qed.

(** What the command does itself, apart from the signal. *)
Definition own (e : event) : bool := match e with Dispatch | Handled _ _ _ | Close | GiveUp _ => true | _ => false end.
Definition work (s : run) : nat := (2 * length (pending s) + length (busy s))%nat.

#[global] Arguments work : simpl never.

Lemma own_works e s s' : happen e s = Some s' -> (work s' + (if own e then 1 else 0) <= work s)%nat.
Proof.
  unfold work. destruct e as [|i r f| | |i|now did h pds|did]; cbn -[Nat.ltb].
  - destruct (pending s) as [|d ds]; [done|]. destruct (_ <? _)%nat; [|done]. intros [= <-]. cbn. rewrite length_app. cbn. lia.
  - destruct (busy s !! i) as [d|] eqn:Hd; cbn; [|done]. destruct (handle r f d (table s)). intros [= <-]. cbn.
    apply without_perm, Permutation_length in Hd. cbn in Hd. lia.
  - intros [= <-]. cbn. lia.
  - destruct (cancelled s && _) eqn:H; [|done]. intros [= <-]. cbn.
    apply andb_true_iff in H as [_ H%negb_true_iff%Nat.eqb_neq]. lia.
  - destruct (busy s !! i) as [d|] eqn:Hd; cbn; [|done]. destruct (cancelled s); [|done]. intros [= <-]. cbn.
    apply without_perm, Permutation_length in Hd. cbn in Hd. lia.
  - intros [= <-]. cbn. lia.
  - intros [= <-]. cbn. lia.
Qed.

Lemma own_possible dids s : accounted dids s -> ended s = false -> exists e s', own e = true /\ happen e s = Some s'.
Proof.
  intros (_ & Hb & Hc) He. destruct (busy s) as [|d ds] eqn:Hbu.
  - destruct (pending s) as [|d ds] eqn:Hp; [unfold ended in He; by rewrite Hbu, Hp in He|]. destruct (cancelled s) eqn:Hca.
    + exists Close. cbn. rewrite Hca, Hp. by eexists.
    + exists Dispatch. cbn -[Nat.ltb]. rewrite Hp, Hbu. destruct (Hc eq_refl) as [Ha _].
      destruct (Nat.ltb_spec (length (@nil string)) (alive s)); [by eexists|cbn in *; lia].
  - exists (Handled 0 None Works). cbn. rewrite Hbu. cbn. by eexists.
Qed.

(** C22: Whatever the signal, the ingestion and the purges do meanwhile, the command
    takes at most two steps of its own for every DID, can take one until it has ended,
    and then every DID is accounted for once; without a signal none is dropped. *)
Theorem command_ends concurrency dids t es s : happens es (start concurrency dids t) = Some s ->
  (length (List.filter own es) <= 2 * length dids)%nat /\
  (ended s = false -> exists e s', own e = true /\ happen e s = Some s') /\
  (ended s = true -> dids ≡ₚ (log s).*1 /\ (cancelled s = false -> Forall (fun p => p.2 <> Dropped) (log s))).
Proof.
  intros Hs. pose proof (accounted_happens dids _ _ _ (accounted_start concurrency dids t) Hs) as Ha. split_and!.
  - assert (forall s0, happens es s0 = Some s -> (length (List.filter own es) + work s <= work s0)%nat) as Hw.
    { clear. induction es as [|e es IH]; intros s0; cbn; [intros [= <-]; lia|].
      destruct (happen e s0) as [s1|] eqn:He; cbn; [|done]. intros Hr%IH. apply own_works in He. revert He.
      destruct (own e); cbn [length]; lia. }
    apply Hw in Hs. change (work (start concurrency dids t)) with (2 * length dids + 0)%nat in Hs. lia.
  - by apply (own_possible dids).
  - destruct Ha as (Hp & _ & Hc). intros He. unfold ended in He. destruct (pending s), (busy s); try done.
    rewrite !app_nil_r in Hp. split; [done|]. intros Hca. by apply Hc.
Qed.

(** *** What it does to the table *)

Definition meta (a : Actor) : option string * Z := (ac_handle a, ac_indexed a).

Lemma handle_meta r f d t d' : meta <$> (handle r f d t).2 !! d' = meta <$> t !! d'.
Proof.
  unfold handle. destruct r as [pds|]; [|done]. destruct (is_empty pds); [done|].
  assert (meta <$> set_pds d (nullif pds) t !! d' = meta <$> t !! d') as Hm.
  { unfold set_pds. rewrite lookup_alter. destruct (decide (d = d')) as [->|]; [|done]. by destruct (t !! d'). }
  by destruct f; cbn.
Qed.

(** The command by itself creates and removes no actor and changes no handle and no
    time. *)
Theorem command_touches_servers_only concurrency dids t es s :
  Forall (fun e => match e with Ingest _ _ _ _ | Purge _ => False | _ => True end) es ->
  happens es (start concurrency dids t) = Some s -> forall d, meta <$> table s !! d = meta <$> t !! d.
Proof.
  intros Hes Hs d. change t with (table (start concurrency dids t)). revert Hs. generalize (start concurrency dids t).
  induction Hes as [|e es He _ IH]; intros s0; cbn; [by intros [= <-]|].
  destruct (happen e s0) as [s1|] eqn:Hh; cbn; [|done]. intros Hr%IH. rewrite Hr. clear IH Hr.
  destruct e as [|i r f| | |i|now did h pds|did]; cbn -[Nat.ltb] in Hh; try done.
  - destruct (pending s0); [done|]. destruct (_ <? _)%nat; [|done]. by injection Hh as <-.
  - destruct (busy s0 !! i) as [d'|]; cbn in Hh; [|done]. pose proof (handle_meta r f d' (table s0) d) as Hm.
    destruct (handle r f d' (table s0)). by injection Hh as <-.
  - by injection Hh as <-.
  - destruct (cancelled s0 && _); [|done]. by injection Hh as <-.
  - destruct (busy s0 !! i); cbn in Hh; [|done]. destruct (cancelled s0); [|done]. by injection Hh as <-.
Qed.
(** *** What is left for the next run *)

Definition has_server (t : actors) (d : string) : Prop := exists s, server_of t d = Some s /\ s <> "".

Lemma nullif_Some s x : nullif s = Some x -> x <> "".
Proof. unfold nullif. destruct s; [done|]. by intros [= <-]. Qed.

Lemma upsert_has_server now did h pds t d : has_server t d -> has_server (upsert_actor now did h (nullif pds) t) d.
Proof.
  intros (s & Hs & Hn). unfold has_server. rewrite upsert_actor_servers. destruct (decide _); [|by exists s].
  rewrite Hs. destruct (nullif pds) as [x|] eqn:Hx; [exists x; split; [done|by eapply nullif_Some]|by exists s].
Qed.

Lemma set_pds_server did pds t d :
  server_of (set_pds did pds t) d = if decide (did = d) then t !! d ≫= (fun _ => pds) else server_of t d.
Proof.
  unfold server_of, set_pds. rewrite lookup_alter. destruct (decide _) as [->|]; [|done]. by destruct (t !! d).
Qed.

Lemma handle_keeps_servers r f did t d : has_server t d -> has_server (handle r f did t).2 d.
Proof.
  intros Hs. unfold handle. destruct r as [pds|]; [|done]. destruct (is_empty pds) eqn:He; [done|].
  assert (has_server (set_pds did (nullif pds) t) d) as H.
  { destruct Hs as (s & Hs & Hn). unfold has_server. rewrite set_pds_server. destruct (decide _); [|by exists s].
    unfold server_of in Hs. destruct (t !! d); [|done]. cbn. exists pds. unfold nullif. rewrite He.
    split; [done|by intros ->]. }
  by destruct f; cbn.
Qed.

Lemma handle_resolved r f did t t' : handle r f did t = (Resolved, t') -> is_Some (t !! did) -> has_server t' did.
Proof.
  unfold handle. destruct r as [pds|]; [|done]. destruct (is_empty pds) eqn:He; [done|]. destruct f; cbn; [|done..].
  intros [= <-] [a Ha]. unfold has_server. rewrite set_pds_server, decide_True by done. rewrite Ha. cbn. exists pds.
  unfold nullif. rewrite He. split; [done|by intros ->].
Qed.

Definition purges (e : event) : bool := match e with Purge _ => true | _ => false end.

(** Rows stay, and those that were resolved have a server. *)
Definition settled (dids : list string) (t : actors) (s : run) : Prop :=
  (forall d, is_Some (t !! d) -> is_Some (table s !! d)) /\ (forall d, has_server t d -> has_server (table s) d) /\
  (forall d, (d, Resolved) ∈ log s -> has_server (table s) d).

Lemma is_Some_meta (t t' : actors) d : meta <$> t' !! d = meta <$> t !! d -> is_Some (t !! d) -> is_Some (t' !! d).
Proof. intros H [a Ha]. rewrite Ha in H. apply fmap_Some in H as (b & Hb & _). by exists b. Qed.

Lemma settled_happen dids t e s s' : (forall d, d ∈ dids -> is_Some (t !! d)) -> purges e = false ->
  accounted dids s -> settled dids t s -> happen e s = Some s' -> settled dids t s'.
Proof.
  intros Hd He (Hp & _) (H1 & H2 & H3). destruct e as [|i r f| | |i|now did h pds|did]; cbn -[Nat.ltb]; try done.
  - destruct (pending s); [done|]. destruct (_ <? _)%nat; [|done]. by intros [= <-].
  - destruct (busy s !! i) as [d'|] eqn:Hi; cbn; [|done].
    pose proof (handle_meta r f d' (table s)) as Hm. pose proof (handle_keeps_servers r f d' (table s)) as Hk.
    pose proof (handle_resolved r f d' (table s)) as Hr. destruct (handle r f d' (table s)) as [o t1] eqn:Hh. intros [= <-].
    split_and!; cbn in *.
    + intros d [a Ha]%H1. eapply is_Some_meta; [apply Hm|by exists a].
    + intros d Hs%H2. by apply Hk.
    + intros d [Hin%H3|Hin]%elem_of_app; [by apply Hk|]. apply list_elem_of_singleton in Hin as [= -> <-].
      eapply Hr; [done|]. apply H1, Hd. rewrite Hp. apply elem_of_app. right. apply elem_of_app. left. by eapply list_elem_of_lookup_2.
  - by intros [= <-].
  - destruct (cancelled s && _); [|done]. intros [= <-]. split_and!; [done..|]. cbn.
    intros d [Hin|(x & [= _] & _)%list_elem_of_fmap]%elem_of_app. by apply H3.
  - destruct (busy s !! i); cbn; [|done]. destruct (cancelled s); [|done]. intros [= <-]. split_and!; [done..|]. cbn.
    intros d [Hin|[=]%list_elem_of_singleton]%elem_of_app. by apply H3.
  - intros [= <-]. split_and!; cbn.
    + intros d [a Ha]%H1. rewrite upsert_actor_lookup. destruct (decide _); by eexists.
    + intros d Hs%H2. by apply upsert_has_server.
    + intros d Hs%H3. by apply upsert_has_server.
Qed.

Lemma elem_of_load force t d : d ∈ loadDIDsToResolve force t <-> exists a, t !! d = Some a /\ (force || unresolved a) = true.
Proof.
  unfold loadDIDsToResolve. rewrite list_elem_of_fmap. setoid_rewrite merge_sort_Permutation. split.
  - intros ([d' a] & -> & Hin). apply list_elem_of_In, filter_In in Hin as [Hin Hu]. exists a.
    split; [by apply elem_of_map_to_list, list_elem_of_In|done].
  - intros (a & Ha & Hu). exists (d, a). split; [done|]. apply list_elem_of_In, filter_In.
    split; [by apply list_elem_of_In, elem_of_map_to_list|done].
Qed.

Lemma unresolved_server t d a : t !! d = Some a -> unresolved a = false <-> has_server t d.
Proof.
  intros Ha. unfold unresolved, has_server, server_of. rewrite Ha. cbn. destruct (ac_pds a) as [s|]; [|by split; [|intros (x & ? & _)]].
  split; [intros He; exists s; split; [done|by intros ->]|intros (x & [= ->] & Hx)]. by destruct x.
Qed.

(** When a run has ended, with or without a signal and with ingestion beside it, the
    next one takes up only what this one dropped, could not resolve or found without a
    server, and actors that have appeared since. *)
Theorem next_run_takes_up concurrency t es s :
  let dids := loadDIDsToResolve false t in
  Forall (fun e => purges e = false) es -> happens es (start concurrency dids t) = Some s -> ended s = true ->
  forall d, d ∈ loadDIDsToResolve false (table s) -> t !! d = None \/ exists o, (d, o) ∈ log s /\ o <> Resolved.
Proof.
  intros dids Hes Hs Hend d Hd. assert (forall d, d ∈ dids -> is_Some (t !! d)) as Hin by (by intros ? (a & ? & _)%elem_of_load; exists a).
  pose proof (accounted_start concurrency dids t) as Hacc.
  assert (settled dids t (start concurrency dids t)) as Hset by (split_and!; [done..|by intros ? ?%elem_of_nil]).
  assert (accounted dids s /\ settled dids t s) as [(Hp & _) (H1 & H2 & H3)].
  { clear Hend Hd. revert Hacc Hset Hs. generalize (start concurrency dids t). induction Hes as [|e es He _ IH]; intros s0 Hacc Hset; cbn.
    - by intros [= <-].
    - destruct (happen e s0) as [s1|] eqn:Hh; cbn; [|done]. apply IH; [by eapply accounted_happen|by eapply settled_happen]. }
  apply elem_of_load in Hd as (a & Ha & Hu). cbn in Hu. destruct (t !! d) as [a0|] eqn:Ht; [right|by left].
  destruct (unresolved a0) eqn:Hu0.
  - assert (d ∈ dids) as Hdd by (apply elem_of_load; exists a0; by rewrite Hu0).
    unfold ended in Hend. destruct (pending s), (busy s); try done. rewrite Hp, !app_nil_r in Hdd.
    apply list_elem_of_fmap in Hdd as ([d' o] & -> & Hl). exists o. split; [done|]. intros ->.
    apply H3 in Hl. apply (unresolved_server _ _ a Ha) in Hl. cbn in *. by rewrite Hu in Hl.
  - apply (unresolved_server t d a0 Ht), H2, (unresolved_server _ _ a Ha) in Hu0. by rewrite Hu in Hu0.
Qed.
End BackfillPds_facts.

(** ** Concrete tables and runs *)

Module Example_actors.
Import BackfillPds BackfillPds_facts.

Definition alice : Actor := {| ac_handle := Some "alice.test"; ac_pds := Some "https://pds"; ac_indexed := 1 |}.
Definition bob : Actor := {| ac_handle := Some "bob.test"; ac_pds := None; ac_indexed := 2 |}.
Definition two : actors := {["did:plc:a" := alice; "did:plc:b" := bob]}.
Definition three : list (string * string) := [("did:plc:a", "al"); ("did:plc:c", "cy")].

Lemma BatchUpsert_spec_witness : NoDup three.*1 /\
  exists t', works (BatchUpsert (fun _ => 9) three) two () t' /\ batched (fun _ => 9) three two t'.
Proof.
  assert (NoDup three.*1) as H by (eapply bool_decide_eq_true_1; by vm_compute).
  split; [exact H|]. apply (BatchUpsert_spec (fun _ => 9) three two H).
Defined.

(** The ingestion of a record empties the handle that the backfill has found. *)
Example handle_emptied :
  ac_handle <$> (UpsertWithPDS 5 "did:plc:a" "" "" ([], two)).2.2 !! "did:plc:a" = Some (Some "").
Proof. vm_compute. reflexivity. Qed.

(** An actor that is given twice in a chunk fails the whole chunk. *)
Example twice_in_a_chunk :
  (BatchUpsert (fun _ => 9) (three ++ [("did:plc:c", "cy")]) ([], two)) = (Err EExec, ([], two)).
Proof. vm_compute. reflexivity. Qed.

(** A run over two rows without a server, one of which has none, interrupted by the
    ingestion of a third actor. *)
Definition table0 : actors := {["did:plc:b" := bob; "did:plc:n" := bob; "did:plc:a" := alice]}.
Definition events : list event :=
  [Dispatch; Ingest 7 "did:plc:new" "" ""; Dispatch; Handled 1 (Some "") Works; Handled 0 (Some "https://b") Works].
Definition after : run := default (start 2 [] ∅) (happens events (start 2 (loadDIDsToResolve false table0) table0)).

Lemma command_ends_witness : happens events (start 2 (loadDIDsToResolve false table0) table0) = Some after /\
  (ended after = true -> loadDIDsToResolve false table0 ≡ₚ (log after).*1 /\
     (cancelled after = false -> Forall (fun p => p.2 <> Dropped) (log after))).
Proof.
  assert (happens events (start 2 (loadDIDsToResolve false table0) table0) = Some after) as H by (vm_compute; reflexivity).
  split; [exact H|]. apply (command_ends 2 (loadDIDsToResolve false table0) table0 events after H).
Defined.

Definition quiet : list event := [Dispatch; Handled 0 (Some "https://b") Works].
Definition settled_run : run := default (start 2 [] ∅) (happens quiet (start 2 ["did:plc:b"] two)).
Lemma command_touches_servers_only_witness : happens quiet (start 2 ["did:plc:b"] two) = Some settled_run /\
  meta <$> table settled_run !! "did:plc:b" = Some (Some "bob.test", 2).
Proof.
  assert (happens quiet (start 2 ["did:plc:b"] two) = Some settled_run) as H by (vm_compute; reflexivity).
  split; [exact H|].
  rewrite (command_touches_servers_only 2 ["did:plc:b"] two quiet settled_run ltac:(by repeat constructor) H "did:plc:b").
  vm_compute. reflexivity.
Defined.

Lemma next_run_takes_up_witness : ended after = true /\ loadDIDsToResolve false (table after) <> [] /\
  forall d, d ∈ loadDIDsToResolve false (table after) -> table0 !! d = None \/ exists o, (d, o) ∈ log after /\ o <> Resolved.
Proof.
  assert (ended after = true) as He by (vm_compute; reflexivity).
  split; [exact He|]. split; [by vm_compute|].
  apply (next_run_takes_up 2 table0 events after); [by repeat constructor|vm_compute; reflexivity|exact He].
Defined.

(** The command succeeds also when nothing was resolved, after a signal at its start. *)
Example interrupted_succeeds : exists s,
  command true true true false 0 table0 = Ok (start 0 (loadDIDsToResolve false table0) table0) /\
  happens [Signal; Close] (start 0 (loadDIDsToResolve false table0) table0) = Some s /\ ended s = true /\
  counted Resolved s = 0%nat /\ counted Dropped s = 2%nat.
Proof. eexists. split_and!; vm_compute; reflexivity. Qed.
End Example_actors.
