(* ===== verification/Queries.v ===== *)
(** The other reads of [internal/database/repositories/records.go] and its indexes on
    fields, with the resolvers over them in [internal/graphql/schema/builder.go] and
    [derived_fields.go]: one record, the statistics of collections, their series over
    time, the overview of the administrators and the count of awards. *)
From stdpp Require Import sorting.
From S2P Require Import Prelude GoStrings Json Filter Ingestion RecordStore Activity Registry Validator Records Connection Statements.

Local Open Scope Z_scope.

(** ** Indexes on fields *)

(** [strings.ReplaceAll(collection, ".", "_")]. *)
Fixpoint dots_to_underscores (s : string) : string :=
  match s with
  | EmptyString => EmptyString
  | String c s => String (if Ascii.eqb c "." then "_"%char else c) (dots_to_underscores s)
  end.
Definition fieldIndexName (collection field : string) : string :=
  "idx_record_" +:+ dots_to_underscores collection +:+ "_" +:+ field.

Definition create_index_sql (collection field : string) : string :=
  "CREATE INDEX CONCURRENTLY IF NOT EXISTS " +:+ fieldIndexName collection field +:+ " ON record ((json->>'" +:+ field
  +:+ "')) WHERE collection = '" +:+ collection +:+ "'".
Definition drop_index_sql (collection field : string) : string :=
  "DROP INDEX CONCURRENTLY IF EXISTS " +:+ fieldIndexName collection field.

Inductive index_error := EFieldName (e : filter_error) | EIndex (name : string).

(** The indexes of the database by name, with their collection and field; [run_sql] is
    the database, which may refuse a statement. *)
Section Indexes.
Context {D : Type} (run_sql : string -> D -> option D).

Definition CreateFieldIndex (collection field : string) (d : D) : result index_error string * D :=
  match ValidateFieldName field with
  | Err e => (Err (EFieldName e), d)
  | Ok _ => match run_sql (create_index_sql collection field) d with
            | None => (Err (EIndex (fieldIndexName collection field)), d)
            | Some d' => (Ok (fieldIndexName collection field), d')
            end
  end.
Definition DropFieldIndex (collection field : string) (d : D) : result index_error unit * D :=
  match ValidateFieldName field with
  | Err e => (Err (EFieldName e), d)
  | Ok _ => match run_sql (drop_index_sql collection field) d with
            | None => (Err (EIndex (fieldIndexName collection field)), d)
            | Some d' => (Ok (), d')
            end
  end.
End Indexes.

Definition quote : ascii := "'".

Lemma ident_no_quote s : all_bytes is_ident_byte s = true -> lacks quote s = true.
Proof. apply all_bytes_impl. intros x Hx. change (zb quote) with 39. unfold is_ident_byte, is_ident_start in Hx. lia. Qed.

Lemma dots_lack c s : c <> "_"%char -> lacks c s = true -> lacks c (dots_to_underscores s) = true.
Proof.
  intros Hc. unfold lacks. induction s as [|d s IH]; [done|]. cbn. intros [Hd Hs]%andb_true_iff. apply andb_true_iff.
  split; [|by apply IH]. destruct (Ascii.eqb_spec d "."); [|done]. apply negb_true_iff, Z.eqb_neq. intros H.
  apply Hc. symmetry. by apply zb_inj.
Qed.

(** The statement that creates an index for a checked field and a collection without
    a quote has exactly two quoted texts, the field and the collection, and the name of
    the index lies outside of them. *)
Theorem index_statement collection field : ValidateFieldName field = Ok () -> lacks quote collection = true ->
  split (create_index_sql collection field) (String quote "") =
  ["CREATE INDEX CONCURRENTLY IF NOT EXISTS " +:+ fieldIndexName collection field +:+ " ON record ((json->>"; field;
   ")) WHERE collection = "; collection; ""].
Proof.
  intros Hf%valid_name_ident%ident_no_quote Hc.
  assert (lacks quote (fieldIndexName collection field) = true) as Hn.
  { unfold fieldIndexName, lacks. rewrite !all_bytes_app. apply andb_true_iff. split; [done|].
    apply andb_true_iff. split; [by apply dots_lack|]. by apply andb_true_iff. }
  assert (create_index_sql collection field =
    ("CREATE INDEX CONCURRENTLY IF NOT EXISTS " +:+ fieldIndexName collection field +:+ " ON record ((json->>") +:+
    String quote (field +:+ String quote (")) WHERE collection = " +:+ String quote (collection +:+ String quote "")))) as ->.
  { unfold create_index_sql. generalize (fieldIndexName collection field). intros n. by rewrite !app_assoc_str. }
  rewrite !split_cons_sep; [done|done| |done|].
  - done.
  - unfold lacks in *. rewrite !all_bytes_app, Hn. done.
Qed.

(** ** Records *)

Section Reads.
(** The server of an actor, the empty text when it has none; how the text that the
    database makes of an instant is read, by the query for one record and by the others;
    and the order of URIs. *)
Context (pds : string -> string) (read_one read_time : instant -> Z) (uri_lt : string -> string -> bool).

(** A row joined with its actor. *)
Definition record_with (read : instant -> Z) (p : string * row) : Record_ :=
  {| URI := p.1; CID := w_cid p.2; DID := w_did p.2; Collection := w_collection p.2; JSON := w_json p.2;
     IndexedAt := read (w_indexed_at p.2); RKey := record_rkey p.1; PDS := pds (w_did p.2) |}.
Abbreviation record_of := (record_with read_time).

Definition GetByURI (uri : string) (t : table) : option Record_ := (fun r => record_with read_one (uri, r)) <$> t !! uri.
(** The rows in the order of the database. *)
Definition GetByURIs (uris : list string) (t : table) : list Record_ :=
  match uris with
  | [] => []
  | _ => record_of <$> List.filter (fun p => existsb (String.eqb p.1) uris) (map_to_list t)
  end.

(** [ORDER BY r.indexed_at DESC, r.uri DESC]. *)
Definition newest (a b : string * row) : Prop :=
  w_indexed_at b.2 < w_indexed_at a.2 \/ (w_indexed_at a.2 = w_indexed_at b.2 /\ uri_lt a.1 b.1 = false).
#[global] Instance newest_dec a b : Decision (newest a b).
Proof. unfold newest. apply _. Defined.
Definition of_collection (collection : string) (t : table) : list (string * row) :=
  List.filter (fun p => String.eqb (w_collection p.2) collection) (map_to_list t).
Definition GetByCollectionWithCursor (collection : string) (limit : Z) (after : option Z) (t : table) : list Record_ :=
  record_of <$> take (Z.to_nat limit) (merge_sort newest
    (List.filter (fun p => match after with Some c => w_indexed_at p.2 <? c | None => true end) (of_collection collection t))).

(** [ORDER BY r.indexed_at DESC LIMIT 10000]; the order of rows of one instant is left
    open. *)
Definition GetByDID (did : string) (t : table) : list Record_ :=
  record_of <$> take 10000 (merge_sort newest (List.filter (fun p => String.eqb (w_did p.2) did) (map_to_list t))).
Definition GetCollectionCount (collection : string) (t : table) : Z := Z.of_nat (length (of_collection collection t)).

(** *** Awards *)

(** [json->'badge'->>'uri'] of the text of a record. *)
Context (badge_uri : string -> option string).
Definition CountAwardsByBadgeURI (badgeURI : string) (t : table) : Z :=
  if is_empty badgeURI then 0
  else Z.of_nat (length (List.filter (fun p : string * row => bool_decide (badge_uri (w_json p.2) = Some badgeURI))
                           (of_collection "app.certified.badge.award" t))).

(** [resolveAwardCount]: [source] is the value of the record's field [uri], when the
    source is a map; without repositories there are no awards. *)
Definition resolveAwardCount (source : option (gmap string json)) (repos : bool) (works : bool) (t : table) : result string Z :=
  match source with
  | None => Ok 0
  | Some m =>
      let uri := match m !! "uri" with Some (JStr s) => s | _ => "" end in
      if is_empty uri then Ok 0
      else if negb repos then Ok 0
      else if works then Ok (CountAwardsByBadgeURI uri t) else Err "count awards by badge URI"
  end.
End Reads.

(** ** Statistics *)

Definition total_of (l : list (string * row)) (c : string) : Z :=
  Z.of_nat (length (List.filter (fun p => String.eqb (w_collection p.2) c) l)).
(** [GROUP BY collection ORDER BY count DESC]. *)
Definition larger (a b : string * Z) : Prop := b.2 <= a.2.
#[global] Instance larger_dec a b : Decision (larger a b).
Proof. unfold larger. apply _. Defined.
Definition grouped (l : list (string * row)) : list (string * Z) :=
  merge_sort larger ((fun c => (c, total_of l c)) <$> remove_dups ((fun p : string * row => w_collection p.2) <$> l)).

Definition GetCollectionStats (t : table) : list (string * Z) := grouped (map_to_list t).
Definition GetCollectionStatsFiltered (collections : list string) (t : table) : list (string * Z) :=
  match collections with
  | [] => GetCollectionStats t
  | _ => grouped (List.filter (fun p => existsb (String.eqb (w_collection p.2)) collections) (map_to_list t))
  end.

(** The argument of the resolver: what is not a text is passed over. *)
Definition stats_collections (arg : option json) : list string :=
  match arg with Some (JArr l) => omap (fun v => match v with JStr s => Some s | _ => None end) l | _ => [] end.
Definition createCollectionStatsResolver (repos works : bool) (arg : option json) (t : table) : result string (list (string * Z)) :=
  if negb repos then Ok []
  else if works then Ok (GetCollectionStatsFiltered (stats_collections arg) t) else Err "failed to get collection stats".

Definition GetCollectionOverview (t : table) (log : activity) : list (string * Z * Z) :=
  (fun c : string * Z => (c, default 0 (snd <$> List.find (fun x : string * Z => String.eqb x.1 c.1)
                                          (by_collection (List.filter invalid (rows log)))))) <$> GetCollectionStats t.

(** *** A collection over time *)

Inductive series_error := ESeries | ETotals.
Record CollectionTimeSeries := { s_Collection : string; s_TotalRecords : Z; s_UniqueUsers : Z; s_Data : list (Z * Z * Z) }.

Section Series.
(** [json->>key], the day of [text::timestamp] when the text is read, and the day of an
    instant. *)
Context (text_of : string -> string -> option string) (cast_day : string -> option Z) (day_of : instant -> Z).

Definition record_date (r : row) : option Z :=
  match text_of (w_json r) "createdAt" with
  | Some s => cast_day s
  | None => match text_of (w_json r) "eventDate" with Some s => cast_day s | None => Some (day_of (w_indexed_at r)) end
  end.

Definition tally (d : Z) (days : list Z) : Z := Z.of_nat (length (List.filter (Z.eqb d) days)).
(** [GROUP BY record_date ORDER BY record_date]. *)
Definition day_counts (days : list Z) : list (Z * Z) := (fun d => (d, tally d days)) <$> merge_sort Z.le (remove_dups days).
Fixpoint cumulate (cumulative : Z) (l : list (Z * Z)) : list (Z * Z * Z) :=
  match l with [] => [] | (d, n) :: l => (d, n, cumulative + n) :: cumulate (cumulative + n) l end.

(** Two statements; [meanwhile] is what others write between them. *)
Definition GetCollectionTimeSeries (collection : string) (meanwhile : table -> table) : Statements.M table series_error CollectionTimeSeries :=
  data ← stmt ESeries (fun t => days ← mapM (fun p : string * row => record_date p.2) (of_collection collection t); Some (day_counts days, t));
  _ ← modify meanwhile;
  totals ← stmt ETotals (fun t => let l := of_collection collection t in
             Some ((Z.of_nat (length l), Z.of_nat (length (remove_dups ((fun p : string * row => w_did p.2) <$> l)))), t));
  mret {| s_Collection := collection; s_TotalRecords := totals.1; s_UniqueUsers := totals.2; s_Data := cumulate 0 data |}.

(** [Ok None] is null. *)
Definition createCollectionTimeSeriesResolver (repos : bool) (arg : option json) (meanwhile : table -> table) (fs : list fate)
    (t : table) : result string (option CollectionTimeSeries) :=
  match arg with
  | Some (JStr c) =>
      if is_empty c then Err "collection is required"
      else if negb repos then Ok None
      else match (GetCollectionTimeSeries c meanwhile (fs, t)).1 with
           | Ok s => Ok (Some s) | Err _ => Err "failed to get collection time series" end
  | _ => Err "collection is required"
  end.
End Series.

(** ** What the statistics say *)

#[global] Instance larger_total : Total larger.
Proof. intros a b. unfold larger. lia. Qed.
#[global] Instance larger_trans : Transitive larger.
Proof. intros a b c. unfold larger. lia. Qed.

(** The number of records of a collection. *)
Definition records_in (t : table) (c : string) : Z := Z.of_nat (length (of_collection c t)).

Lemma grouped_spec l : StronglySorted larger (grouped l) /\ NoDup (grouped l).*1 /\
  forall c n, (c, n) ∈ grouped l <-> n = total_of l c /\ 0 < n.
Proof.
  unfold grouped. split_and!.
  - apply StronglySorted_merge_sort; apply _.
  - rewrite merge_sort_Permutation, <-list_fmap_compose.
    rewrite (list_fmap_ext _ id) by done. rewrite list_fmap_id. apply NoDup_remove_dups.
  - intros c n. rewrite merge_sort_Permutation, list_elem_of_fmap. unfold total_of. split.
    + intros (c' & [= -> ->] & Hin). apply elem_of_remove_dups, list_elem_of_fmap in Hin as (p & -> & Hp).
      split; [done|]. assert (p ∈ List.filter (fun q : string * row => String.eqb (w_collection q.2) (w_collection p.2)) l) as Hf.
      { apply list_elem_of_In, filter_In. split; [by apply list_elem_of_In|by apply String.eqb_refl]. }
      destruct (List.filter _ l); [by apply elem_of_nil in Hf|cbn; lia].
    + intros [-> Hn]. exists c. split; [done|]. apply elem_of_remove_dups, list_elem_of_fmap.
      destruct (List.filter _ l) as [|p k] eqn:Hf; [cbn in Hn; lia|]. exists p.
      assert (p ∈ p :: k) as Hp by constructor. rewrite <-Hf in Hp. apply list_elem_of_In, filter_In in Hp as [Hp <-%String.eqb_eq].
      split; [done|by apply list_elem_of_In].
Qed.

Lemma filter_and {A} (f g : A -> bool) l : List.filter f (List.filter g l) = List.filter (fun x => f x && g x) l.
Proof.
  induction l as [|x l IH]; [done|]. cbn. destruct (g x) eqn:Hg; cbn; rewrite ?andb_true_r, ?andb_false_r, IH; [|done].
  by destruct (f x).
Qed.

Lemma total_of_filtered cs t c : c ∈ cs ->
  total_of (List.filter (fun p : string * row => existsb (String.eqb (w_collection p.2)) cs) (map_to_list t)) c = records_in t c.
Proof.
  intros Hc. unfold total_of, records_in, of_collection. rewrite filter_and. do 2 f_equal. apply filter_ext. intros p.
  destruct (String.eqb_spec (w_collection p.2) c) as [->|]; [|done]. cbn.
  apply existsb_elem_of. exists c. split; [done|by apply String.eqb_refl].
Qed.

(** The statistics list, each once and the largest first, exactly the collections
    that have records, or those among the requested ones, with the number of their
    records; an empty request asks for all. *)
Theorem stats_exact cs t : let answer := GetCollectionStatsFiltered cs t in
  StronglySorted larger answer /\ NoDup answer.*1 /\
  forall c n, (c, n) ∈ answer <-> n = records_in t c /\ 0 < n /\ (cs = [] \/ c ∈ cs).
Proof.
  unfold GetCollectionStatsFiltered, GetCollectionStats. destruct cs as [|c0 cs].
  - destruct (grouped_spec (map_to_list t)) as (H1 & H2 & H3). split_and!; [done..|]. intros c n. rewrite H3.
    unfold records_in, of_collection, total_of. naive_solver.
  - set (all := c0 :: cs). destruct (grouped_spec (List.filter (fun p : string * row => existsb (String.eqb (w_collection p.2)) all) (map_to_list t)))
      as (H1 & H2 & H3).
    split_and!; [done..|]. intros c n. rewrite H3. split.
    + intros [-> Hn]. assert (c ∈ all) as Hc; [|rewrite total_of_filtered in Hn |- * by done; by split_and!; [| |right]].
      unfold total_of in Hn. destruct (List.filter _ (List.filter _ _)) as [|p k] eqn:Hf; [cbn in Hn; lia|].
      assert (p ∈ p :: k) as Hp by constructor. rewrite <-Hf in Hp. apply list_elem_of_In, filter_In in Hp as [Hp <-%String.eqb_eq].
      apply filter_In in Hp as [_ Hp]. by apply existsb_elem_of in Hp as (x & Hx & ->%String.eqb_eq).
    + intros (-> & Hn & [?|Hc]); [done|]. by rewrite total_of_filtered.
Qed.


Lemma by_collection_elem l c n : (c, n) ∈ by_collection l <->
  n = Activity.count (fun e => String.eqb (e_Collection e) c) l /\ c ∈ e_Collection <$> l.
Proof.
  unfold by_collection. rewrite list_elem_of_fmap. split.
  - intros (x & [= -> ->] & Hx). split; [done|by apply elem_of_remove_dups].
  - intros [-> Hc]. exists c. split; [done|by apply elem_of_remove_dups].
Qed.

Lemma find_group (l : list ActivityEntry) c :
  default 0 (snd <$> List.find (fun x : string * Z => String.eqb x.1 c) (by_collection l)) =
  Activity.count (fun e => String.eqb (e_Collection e) c) l.
Proof.
  destruct (List.find _ _) as [[c' n]|] eqn:Hf; cbn.
  - apply find_some in Hf as [Hin Heq]. cbn in Heq. apply String.eqb_eq in Heq as ->.
    by apply list_elem_of_In, by_collection_elem in Hin as [-> _].
  - unfold Activity.count. destruct (filter _ l) as [|e k] eqn:He; [done|]. exfalso.
    assert (e ∈ filter (fun e => String.eqb (e_Collection e) c = true) l) as Hin by (rewrite He; constructor).
    apply list_elem_of_filter in Hin as [<-%String.eqb_eq Hin].
    assert ((e_Collection e, Activity.count (fun x => String.eqb (e_Collection x) (e_Collection e)) l) ∈ by_collection l) as Hb.
    { apply by_collection_elem. split; [done|]. apply list_elem_of_fmap. by exists e. }
    apply list_elem_of_In, (List.find_none _ _ Hf) in Hb. cbn in Hb. by rewrite String.eqb_refl in Hb.
Qed.

(** The overview has one line for each collection that has records, the largest
    first, with the number of its records and of the rows of the log that were found
    invalid in it. *)
Theorem overview_exact t log : (GetCollectionOverview t log).*1 = GetCollectionStats t /\
  forall c n i, (c, n, i) ∈ GetCollectionOverview t log ->
    n = records_in t c /\ 0 < n /\ i = Activity.count (fun e => String.eqb (e_Collection e) c) (List.filter invalid (rows log)).
Proof.
  unfold GetCollectionOverview. split.
  - rewrite <-list_fmap_compose. rewrite (list_fmap_ext _ id) by done. by rewrite list_fmap_id.
  - intros c n i ([c' n'] & [= -> -> ->] & Hin)%list_elem_of_fmap. rewrite find_group.
    destruct (stats_exact [] t) as (_ & _ & Hs). apply Hs in Hin as (-> & Hn & _). by split_and!.
Qed.

(** ** What the series says *)

#[global] Instance Zle_total : Total Z.le.
Proof. intros a b. lia. Qed.

Lemma tally_le_split d x days : x < d ->
  Z.of_nat (length (List.filter (fun z => z <=? d) days)) =
  tally x days + Z.of_nat (length (List.filter (fun z => z <=? d) (List.filter (fun z => negb (z =? x)) days))).
Proof.
  intros Hx. unfold tally. induction days as [|z days IH]; [done|]. cbn [List.filter].
  destruct (Z.eqb_spec z x) as [->|]; cbn [negb].
  - rewrite Z.eqb_refl. destruct (Z.leb_spec x d); [|lia]. cbn [length]. lia.
  - destruct (Z.eqb_spec x z); [lia|]. cbn [List.filter]. destruct (z <=? d); cbn [length]; lia.
Qed.

Lemma tally_other d x days : d <> x -> tally d (List.filter (fun z => negb (z =? x)) days) = tally d days.
Proof.
  intros Hd. unfold tally. induction days as [|z days IH]; [done|]. cbn [List.filter].
  destruct (Z.eqb_spec z x) as [->|]; cbn [negb].
  - destruct (Z.eqb_spec d x); [done|apply IH].
  - cbn [List.filter]. destruct (d =? z); cbn [length]; lia.
Qed.

(** The running total counts the records up to a day. *)
Lemma cumulate_spec ds : StronglySorted Z.lt ds -> forall acc days, (forall z, z ∈ days -> z ∈ ds) ->
  forall d n c, (d, n, c) ∈ cumulate acc ((fun d => (d, tally d days)) <$> ds) ->
    d ∈ ds /\ n = tally d days /\ c = acc + Z.of_nat (length (List.filter (fun z => z <=? d) days)).
Proof.
  induction 1 as [|x ds Hs IH Hx]; intros acc days Hin d n c; [by intros ?%elem_of_nil|]. cbn. rewrite Forall_forall in Hx.
  intros [[= -> -> ->]|Hr]%elem_of_cons.
  - split_and!; [constructor|done|]. unfold tally. do 3 f_equal. apply List.filter_ext_in. intros z Hz%list_elem_of_In%Hin.
    apply elem_of_cons in Hz as [->|Hz%Hx]; lia.
  - set (days' := List.filter (fun z => negb (z =? x)) days).
    assert ((fun d => (d, tally d days)) <$> ds = (fun d => (d, tally d days')) <$> ds) as E.
    { apply list_fmap_ext. intros i z Hz%list_elem_of_lookup_2. unfold days'. rewrite tally_other; [done|]. apply Hx in Hz. lia. }
    rewrite E in Hr. apply IH in Hr as (Hd & -> & ->).
    + split_and!; [by constructor|unfold days'; apply tally_other; apply Hx in Hd; lia|].
      rewrite (tally_le_split d x days) by (by apply Hx). unfold days'. lia.
    + intros z Hz. apply list_elem_of_In, filter_In in Hz as [Hz%list_elem_of_In Hne%negb_true_iff%Z.eqb_neq].
      apply Hin, elem_of_cons in Hz as [->|]; [done|done].
Qed.

Lemma sorted_days_strict days : StronglySorted Z.lt (merge_sort Z.le (remove_dups days)).
Proof.
  assert (StronglySorted Z.le (merge_sort Z.le (remove_dups days))) as Hs by (apply StronglySorted_merge_sort; apply _).
  assert (NoDup (merge_sort Z.le (remove_dups days))) as Hn by (rewrite merge_sort_Permutation; apply NoDup_remove_dups).
  revert Hs Hn. generalize (merge_sort Z.le (remove_dups days)). intros l. induction 1 as [|x l Hs IH Hx]; [constructor|].
  intros [Hni Hn]%NoDup_cons. constructor; [by apply IH|]. rewrite Forall_forall in Hx |- *. intros y Hy. specialize (Hx y Hy).
  assert (x <> y) by (by intros ->). lia.
Qed.

Lemma cumulate_dates acc l : (fun p : Z * Z * Z => p.1.1) <$> cumulate acc l = l.*1.
Proof. revert acc. induction l as [|[d n] l IH]; intros acc; cbn; [done|by rewrite IH]. Qed.

(** A statement that the database refuses fails, whatever else happens. *)
Lemma refused {T E A B} (err : E) (f : T -> option (A * T)) (k : A -> Statements.M T E B) fs t : f t = None ->
  exists s', (stmt err f ≫= k) (fs, t) = (Err err, s').
Proof.
  intros Hf. assert ((stmt err f (fs, t)).1 = Err err) as He.
  { unfold stmt. destruct (default Works (head fs)); [by rewrite Hf|done|done]. }
  unfold mbind, Statements.M_bind. destruct (stmt err f (fs, t)) as [r s']. cbn in He |- *. subst r. by exists s'.
Qed.

Section SeriesFacts.
Context (text_of : string -> string -> option string) (cast_day : string -> option Z) (day_of : instant -> Z).
Abbreviation date := (record_date text_of cast_day day_of).
Abbreviation series := (GetCollectionTimeSeries text_of cast_day day_of).

(** The days of the records of a collection. *)
Definition days_of (c : string) (t : table) : option (list Z) := mapM (fun p : string * row => date p.2) (of_collection c t).

(** The authors of a collection, each once. *)
Definition authors (c : string) (t : table) : list string :=
  remove_dups ((fun p : string * row => w_did p.2) <$> of_collection c t).

Lemma series_Ok c meanwhile fs t s s' : series c meanwhile (fs, t) = (Ok s, s') ->
  exists days, days_of c t = Some days /\
    s = {| s_Collection := c; s_TotalRecords := records_in (meanwhile t) c;
           s_UniqueUsers := Z.of_nat (length (authors c (meanwhile t))); s_Data := cumulate 0 (day_counts days) |}.
Proof.
  unfold series. intros (data & [fs1 t1] & Hd%stmt_Ok & (u & [fs2 t2] & Hm & (tot & [fs3 t3] & Ht%stmt_Ok & Hr)%bind_M_Ok)%bind_M_Ok)%bind_M_Ok.
  cbn [snd] in *. unfold modify in Hm. injection Hm as <- <- <-. injection Ht as <- _.
  apply bind_Some in Hd as (days & Hd & [= <- <-]). exists days. split; [done|]. by injection Hr as <-.
Qed.

Lemma series_works c meanwhile t : is_Some (days_of c t) -> is_ok (series c meanwhile ([], t)).1 = true.
Proof.
  intros [days Hd]. unfold days_of in Hd. unfold series, stmt, modify, mbind at 1, Statements.M_bind. cbn. rewrite Hd. done.
Qed.

Lemma days_total c t days : days_of c t = Some days -> Z.of_nat (length days) = records_in t c.
Proof. intros Hd. unfold records_in. f_equal. symmetry. by eapply length_mapM. Qed.

(** C21: A series that is answered has a point for every day on which the collection
    has records and for no other, in rising order, with the number of records of
    that day and, as running total, of the days up to it, the last one being the
    number of records; its totals are the numbers of records and of distinct
    authors. The points are of the table at the first of its two statements and the
    totals of the table at the second, whatever others write between them. There
    is an answer, when the statements work, exactly if the date of every record of
    the collection can be read: one that cannot fails the whole series. *)
Theorem series_exact c meanwhile t :
  (forall fs s s', series c meanwhile (fs, t) = (Ok s, s') -> exists days, days_of c t = Some days /\
    StronglySorted Z.lt ((fun p : Z * Z * Z => p.1.1) <$> s_Data s) /\
    (forall d, d ∈ (fun p : Z * Z * Z => p.1.1) <$> s_Data s <-> d ∈ days) /\
    (forall d n cum, (d, n, cum) ∈ s_Data s -> n = tally d days /\
       cum = Z.of_nat (length (List.filter (fun z => z <=? d) days))) /\
    (forall p, last (s_Data s) = Some p -> p.2 = records_in t c) /\
    s_TotalRecords s = records_in (meanwhile t) c /\
    s_UniqueUsers s = Z.of_nat (length (authors c (meanwhile t)))) /\
  (is_ok (series c meanwhile ([], t)).1 = true <-> is_Some (days_of c t)).
Proof.
  split; [|split; [|apply series_works]]; cycle 1.
  { destruct (series c meanwhile ([], t)) as [[s|] s'] eqn:Hs; [|done]. intros _.
    apply series_Ok in Hs as (days & -> & _). by eexists. }
  intros fs s s' (days & Hd & ->)%series_Ok. exists days. split; [done|]. cbn [s_Data s_TotalRecords s_UniqueUsers].
  assert ((day_counts days).*1 = merge_sort Z.le (remove_dups days)) as Hk.
  { unfold day_counts. rewrite <-list_fmap_compose. rewrite (list_fmap_ext _ id) by done. by rewrite list_fmap_id. }
  assert (forall z, z ∈ merge_sort Z.le (remove_dups days) <-> z ∈ days) as Hm.
  { intros z. by rewrite merge_sort_Permutation, elem_of_remove_dups. }
  pose proof (cumulate_spec _ (sorted_days_strict days) 0 days (fun z Hz => proj2 (Hm z) Hz)) as Hc.
  fold (day_counts days) in Hc. rewrite cumulate_dates, Hk. split_and!.
  - apply sorted_days_strict.
  - exact Hm.
  - intros d n cum Hin. by apply Hc in Hin as (_ & -> & ->).
  - intros [[d n] cum] Hl. cbn. assert ((d, n, cum) ∈ cumulate 0 (day_counts days)) as Hin by (by apply last_Some_elem_of).
    apply Hc in Hin as (_ & _ & ->). rewrite Z.add_0_l, <-(days_total c t days Hd). f_equal. f_equal.
    apply forallb_filter_id, forallb_forall. intros z Hz%list_elem_of_In%Hm.
    apply Z.leb_le. pose proof (sorted_days_strict days) as Hs. rewrite <-Hk in Hs, Hz. rewrite <-(cumulate_dates 0) in Hs, Hz.
    apply last_Some in Hl as [l' Hl]. rewrite Hl, fmap_app in Hs, Hz. cbn in Hs, Hz.
    apply elem_of_app in Hz as [Hz|Hz%list_elem_of_singleton]; [|cbn in Hz; lia].
    apply StronglySorted_app in Hs as (Hs & _ & _). specialize (Hs z d Hz ltac:(by constructor)). lia.
  - done.
  - done.
Qed.

(** A single record of the collection whose createdAt, or eventDate without it, is a
    text that the database does not read as a time fails the series of the whole
    collection, whoever wrote it. *)
Theorem series_poisoned c t fs uri r meanwhile : t !! uri = Some r -> w_collection r = c -> date r = None ->
  exists s', series c meanwhile (fs, t) = (Err ESeries, s').
Proof.
  intros Hr Hc Hdate. assert (days_of c t = None) as Hd.
  { apply mapM_None, Exists_exists. exists (uri, r). split; [|done]. apply list_elem_of_In, filter_In.
    split; [by apply list_elem_of_In, elem_of_map_to_list|by apply String.eqb_eq]. }
  apply refused. unfold days_of in Hd. by rewrite Hd.
Qed.
End SeriesFacts.

(** ** One record *)

Section Single.
Context `{CursorCodec} `{ValidatorLib} (registry : Registry) (unmarshal : string -> result string (option obj)).

Inductive single_error := ENoURI | EFetch (e : string) | EJson (e : string) | EPanic.

(** [get] is the query, without an error for a row that is missing. *)
Definition createSingleRecordResolver (lexiconID : string) (arg : option json) (repos : bool)
    (get : string -> result string (option Record_)) (db : database) : result single_error (option json) :=
  match arg with
  | Some (JStr uri) =>
      if negb repos then Ok None
      else match get uri with
           | Err e => Err (EFetch e)
           | Ok None => Ok None
           | Ok (Some rec) =>
               match unmarshal (JSON rec) with
               | Err e => Err (EJson e)
               | Ok data =>
                   match typed_node registry lexiconID rec data with
                   | Err _ => Err EPanic
                   | Ok None => Ok None
                   | Ok (Some node) => Ok (Some (finish_node rec (loadLabelsByURI db [] [rec] !! URI rec) node))
                   end
               end
           end
  | _ => Err ENoURI
  end.

(** A record that is asked for by its URI is answered with the node that it has in a
    page of its collection without a choice of labelers, and is missing where the page
    leaves it out, when its JSON is read. *)
Theorem single_as_in_page lexiconID uri get db rec value field es :
  get uri = Ok (Some rec) -> unmarshal (JSON rec) = Ok value ->
  build_edges unmarshal (typed_node registry lexiconID) field (loadLabelsByURI db [] [rec]) [rec] = Ok es ->
  createSingleRecordResolver lexiconID (Some (JStr uri)) true get db = Ok (snd <$> head es).
Proof.
  intros Hg Hu He. unfold createSingleRecordResolver. cbn [negb]. rewrite Hg, Hu. cbn [build_edges] in He. rewrite Hu in He.
  destruct (typed_node registry lexiconID rec value) as [[node|]|]; [| |done].
  - by injection He as <-.
  - by injection He as <-.
Qed.

(** The lexicon of the field and the collection of the record are not compared. *)
Lemma collection_unchecked lexiconID uri get db rec m out :
  get uri = Ok (Some rec) -> unmarshal (JSON rec) = Ok (Some m) ->
  SanitizeRecord (GetRecordDef registry lexiconID) registry m = Ok (out, true) ->
  exists node, createSingleRecordResolver lexiconID (Some (JStr uri)) true get db = Ok (Some node).
Proof.
  intros Hg Hu Hs. unfold createSingleRecordResolver. cbn [negb]. rewrite Hg, Hu. unfold typed_node. rewrite Hs. cbn. by eexists.
Qed.
End Single.

(** ** Concrete tables *)

Module Example_queries.
Definition row_of (did collection json : string) (at_ : instant) : row :=
  {| w_cid := "c"; w_did := did; w_collection := collection; w_json := json; w_indexed_at := at_; w_sort_at := None |}.
(** Two posts of one instant, a later one, and a like. *)
Definition four : table :=
  {["at://a/post/1" := row_of "did:plc:a" "x.post" "2026-01-01" 5; "at://a/post/2" := row_of "did:plc:a" "x.post" "2026-01-02" 5;
    "at://b/post/3" := row_of "did:plc:b" "x.post" "2026-01-02" 9; "at://b/like/4" := row_of "did:plc:b" "x.like" "soon" 9]}.
Definition created (j key : string) : option string := if String.eqb key "createdAt" then Some j else None.
Definition cast (s : string) : option Z := if String.eqb s "2026-01-01" then Some 1 else if String.eqb s "2026-01-02" then Some 2 else None.

Example series_of_posts :
  GetCollectionTimeSeries created cast (fun _ => 0) "x.post" id ([], four) =
    (Ok {| s_Collection := "x.post"; s_TotalRecords := 3; s_UniqueUsers := 2; s_Data := [(1, 1, 1); (2, 2, 3)] |}, ([], four)).
Proof. vm_compute. reflexivity. Qed.

Lemma series_poisoned_witness :
  exists s', GetCollectionTimeSeries created cast (fun _ => 0) "x.like" id ([], four) = (Err ESeries, s').
Proof.
  apply (series_poisoned created cast (fun _ => 0) "x.like" four [] "at://b/like/4" (row_of "did:plc:b" "x.like" "soon" 9) id);
    vm_compute; reflexivity.
Defined.

Lemma index_statement_witness : ValidateFieldName "createdAt" = Ok () /\
  length (split (create_index_sql "x.post" "createdAt") (String quote "")) = 5%nat.
Proof.
  split; [vm_compute; reflexivity|]. rewrite (index_statement "x.post" "createdAt"); [done|vm_compute; reflexivity..].
Defined.

(** The collection of an index is not checked: its text can end the statement and
    begin another. *)
Example index_injection :
  create_index_sql "x'; DROP TABLE record; --" "f" =
  "CREATE INDEX CONCURRENTLY IF NOT EXISTS idx_record_x'; DROP TABLE record; --_f ON record ((json->>'f')) WHERE collection = 'x'; DROP TABLE record; --'".
Proof. vm_compute. reflexivity. Qed.

(** Different indexes get one name, so the second is not made, and a hyphen, which a
    collection may have, ends the name. *)
Example index_names_shared : fieldIndexName "x.y" "a_b" = fieldIndexName "x.y.a" "b".
Proof. vm_compute. reflexivity. Qed.
Example index_name_hyphen : fieldIndexName "my-app.post" "f" = "idx_record_my-app_post_f".
Proof. vm_compute. reflexivity. Qed.

(** With the time alone as cursor, the rest of an instant is lost at the end of a page. *)
Example cursor_loses_ties :
  let get limit after := URI <$> GetByCollectionWithCursor (fun _ => "") id String.ltb "x.post" limit after four in
  get 2 None = ["at://b/post/3"; "at://a/post/2"] /\ get 2 (Some 5) = [].
Proof. split; vm_compute; reflexivity. Qed.

(** An argument with elements that are no texts asks for everything. *)
Example stats_of_nothing : createCollectionStatsResolver true true (Some (JArr [JNull])) four = Ok [("x.post", 3); ("x.like", 1)].
Proof. vm_compute. reflexivity. Qed.
End Example_queries.
