(* ===== verification/Metrics.v ===== *)
(** The metrics of the program ([internal/metrics/metrics.go]) and its recorder of
    statuses ([middleware.go]): which metrics there are, what each function records, and
    how many series that can make. *)
From S2P Require Import Prelude GoStrings.

Local Open Scope Z_scope.

(** ** Metrics *)

Inductive kind := Counter | Histogram | Gauge.
#[global] Instance kind_eq : EqDecision kind.
Proof. solve_decision. Defined.
(** The texts of help and the bounds of the buckets are left out. *)
Record metric := { m_name : string; m_kind : kind; m_labels : list string }.

Definition httpRequestsTotal : metric :=
  {| m_name := "hypergoat_http_requests_total"; m_kind := Counter; m_labels := ["method"; "route"; "code"] |}.
Definition httpRequestDuration : metric :=
  {| m_name := "hypergoat_http_request_duration_seconds"; m_kind := Histogram; m_labels := ["method"; "route"] |}.
Definition jetstreamEventsTotal : metric :=
  {| m_name := "hypergoat_jetstream_events_total"; m_kind := Counter; m_labels := ["collection"; "operation"] |}.
Definition jetstreamErrorsTotal : metric :=
  {| m_name := "hypergoat_jetstream_errors_total"; m_kind := Counter; m_labels := [] |}.
Definition labelerLabelsReceived : metric :=
  {| m_name := "hypergoat_labeler_labels_received_total"; m_kind := Counter; m_labels := ["src"] |}.
Definition labelerLabelsRejected : metric :=
  {| m_name := "hypergoat_labeler_labels_rejected_total"; m_kind := Counter; m_labels := ["src"; "reason"] |}.
Definition recordsInsertedTotal : metric :=
  {| m_name := "hypergoat_records_inserted_total"; m_kind := Counter; m_labels := ["collection"] |}.
Definition recordsAuthorsFilterAppliedTotal : metric :=
  {| m_name := "hypergoat_records_authors_filter_applied_total"; m_kind := Counter; m_labels := ["collection"] |}.
Definition recordsAuthorsFilterSize : metric :=
  {| m_name := "hypergoat_records_authors_filter_size"; m_kind := Histogram; m_labels := [] |}.
Definition recordsAuthorsFilterEmptyBlockedTotal : metric :=
  {| m_name := "hypergoat_records_authors_filter_empty_blocked_total"; m_kind := Counter; m_labels := [] |}.
Definition recordsAuthorsFilterTooLargeTotal : metric :=
  {| m_name := "hypergoat_records_authors_filter_too_large_total"; m_kind := Counter; m_labels := [] |}.
Definition recordsSearchAppliedTotal : metric :=
  {| m_name := "hypergoat_records_search_applied_total"; m_kind := Counter; m_labels := [] |}.
Definition recordValidationFailedTotal : metric :=
  {| m_name := "hypergoat_record_validation_failed_total"; m_kind := Counter; m_labels := ["collection"] |}.
Definition oauthRefreshJKTMismatchTotal : metric :=
  {| m_name := "hypergoat_oauth_refresh_jkt_mismatch_total"; m_kind := Counter; m_labels := [] |}.
Definition oauthRefreshLegacyNullJKTTotal : metric :=
  {| m_name := "hypergoat_oauth_refresh_legacy_null_jkt_total"; m_kind := Counter; m_labels := [] |}.
Definition oauthRefreshLegacyExpiredTotal : metric :=
  {| m_name := "hypergoat_oauth_refresh_legacy_expired_total"; m_kind := Counter; m_labels := [] |}.
Definition serviceAuthVerifiedTotal : metric :=
  {| m_name := "hypergoat_service_auth_verified_total"; m_kind := Counter; m_labels := ["lxm"] |}.
Definition serviceAuthRejectedTotal : metric :=
  {| m_name := "hypergoat_service_auth_rejected_total"; m_kind := Counter; m_labels := ["reason"; "lxm"] |}.
Definition serviceAuthDIDResolveServedStaleTotal : metric :=
  {| m_name := "hypergoat_did_resolve_served_stale_total"; m_kind := Counter; m_labels := [] |}.
Definition notificationsRequestTotal : metric :=
  {| m_name := "hypergoat_notifications_request_total"; m_kind := Counter; m_labels := ["endpoint"; "field"] |}.
Definition pdsResolveTotal : metric :=
  {| m_name := "hypergoat_pds_resolve_total"; m_kind := Counter; m_labels := ["outcome"] |}.
Definition contributorIdentityTotal : metric :=
  {| m_name := "hypergoat_contributor_identity_total"; m_kind := Counter; m_labels := ["outcome"] |}.
Definition graphqlQueryTimeoutTotal : metric :=
  {| m_name := "hypergoat_graphql_query_timeout_total"; m_kind := Counter; m_labels := ["route"] |}.
Definition purgeTokenRejectedTotal : metric :=
  {| m_name := "hypergoat_purge_token_rejected_total"; m_kind := Counter; m_labels := ["reason"] |}.
Definition purgeActorTotal : metric :=
  {| m_name := "hypergoat_purge_actor_total"; m_kind := Counter; m_labels := ["tap_status"] |}.
Definition purgeRecordsDeleted : metric :=
  {| m_name := "hypergoat_purge_records_deleted"; m_kind := Histogram; m_labels := [] |}.
Definition adminSettingsChangedTotal : metric :=
  {| m_name := "hypergoat_admin_settings_changed_total"; m_kind := Counter; m_labels := ["field"] |}.
Definition resetAllTotal : metric :=
  {| m_name := "hypergoat_reset_all_total"; m_kind := Counter; m_labels := [] |}.
Definition activityLogFailedTotal : metric :=
  {| m_name := "hypergoat_activity_log_failed_total"; m_kind := Counter; m_labels := [] |}.
Definition ingestionErrorTotal : metric :=
  {| m_name := "hypergoat_ingestion_error_total"; m_kind := Counter; m_labels := ["consumer"] |}.
Definition jetstreamEventBufferDepth : metric :=
  {| m_name := "hypergoat_jetstream_event_buffer_depth"; m_kind := Gauge; m_labels := [] |}.
Definition jetstreamEventBufferCapacity : metric :=
  {| m_name := "hypergoat_jetstream_event_buffer_capacity"; m_kind := Gauge; m_labels := [] |}.
Definition tapEventDispatchSeconds : metric :=
  {| m_name := "hypergoat_tap_event_dispatch_seconds"; m_kind := Histogram; m_labels := [] |}.

(** What the two [init] functions register, in their order. *)
Definition init_first : list metric :=
  [httpRequestsTotal; httpRequestDuration; jetstreamEventsTotal; jetstreamErrorsTotal; labelerLabelsReceived;
   labelerLabelsRejected; recordsInsertedTotal; recordsAuthorsFilterAppliedTotal; recordsAuthorsFilterSize;
   recordsAuthorsFilterEmptyBlockedTotal; recordsAuthorsFilterTooLargeTotal; recordsSearchAppliedTotal;
   recordValidationFailedTotal; oauthRefreshJKTMismatchTotal; oauthRefreshLegacyNullJKTTotal;
   oauthRefreshLegacyExpiredTotal; serviceAuthVerifiedTotal; serviceAuthRejectedTotal;
   serviceAuthDIDResolveServedStaleTotal; notificationsRequestTotal; pdsResolveTotal; contributorIdentityTotal;
   graphqlQueryTimeoutTotal; purgeTokenRejectedTotal; purgeActorTotal; purgeRecordsDeleted;
   adminSettingsChangedTotal; resetAllTotal].
Definition init_second : list metric :=
  [activityLogFailedTotal; ingestionErrorTotal; jetstreamEventBufferDepth; jetstreamEventBufferCapacity;
   tapEventDispatchSeconds].
Definition registered : list metric := init_first ++ init_second.

(** ** Recording *)

(** A sample: the metric, the values of its labels and, but for a counter, the number
    that is observed or set; seconds are of a type of their own. *)
Inductive sample (S : Type) :=
| Inc (m : metric) (labels : list string)
| ObserveSeconds (m : metric) (labels : list string) (s : S)
| Observe (m : metric) (labels : list string) (n : Z)
| Set_ (m : metric) (labels : list string) (n : Z).
Arguments Inc {_}. Arguments ObserveSeconds {_}. Arguments Observe {_}. Arguments Set_ {_}.

Definition httpStatusString (code : Z) : string := if (code <? 100) || (599 <? code) then "other" else itoa code.

Definition PurgeReasons : list string :=
  ["invalid"; "expired"; "already_used"; "wrong_admin"; "count_drift"; "wrong_target"; "scope_mismatch"].
Definition PurgeTapStatuses : list string := ["removed"; "failed"; "skipped"].
Definition AdminSettingsFields : list string :=
  ["domainAuthority"; "relayUrl"; "plcDirectoryUrl"; "jetstreamUrl"; "oauthSupportedScopes"; "adminDids"].
Definition IngestionConsumers : list string := ["jetstream"; "tap"].

(** The functions of the package with their arguments. *)
Inductive recording (S : Type) :=
| RecordHTTP (method route : string) (status : Z) (duration : S)
| RecordJetstreamEvent (collection operation : string) | RecordJetstreamError
| RecordLabelReceived (src : string) | RecordLabelRejected (src reason : string)
| RecordInserted (collection : string)
| RecordAuthorsFilterApplied (collection : string) (size : Z) | RecordAuthorsFilterEmptyBlocked | RecordAuthorsFilterTooLarge
| RecordSearchApplied | RecordValidationFailed (collection : string)
| OAuthRefreshJKTMismatch | OAuthRefreshLegacyNullJKT | OAuthRefreshLegacyExpired
| ServiceAuthVerified (lxm : string) | ServiceAuthRejected (reason lxm : string) | DIDResolveServedStale
| NotificationsRequest (endpoint field : string)
| PDSResolveOK | PDSResolveFailed | PDSResolveNoEndpoint
| ContributorIdentityDID | ContributorIdentityNonDID | ContributorIdentityUnrecognizedShape
| GraphQLQueryTimeout (route : string)
| PurgeTokenRejected (reason : string) | PurgeActorCompleted (tapStatus : string) (recordsDeleted : Z)
| AdminSettingsChanged (field : string) | ResetAllCompleted
| ActivityLogFailed | IngestionError (consumer : string)
| JetstreamEventBufferCapacity (capacity : Z) | JetstreamEventBufferDepth (depth : Z) | TapEventDispatchObserved (seconds : S).
Arguments RecordHTTP {_}. Arguments RecordAuthorsFilterApplied {_}. Arguments AdminSettingsChanged {_}.
Arguments PurgeTokenRejected {_}. Arguments IngestionError {_}. Arguments PurgeActorCompleted {_}. Arguments TapEventDispatchObserved {_}.

Definition record {S} (r : recording S) : list (sample S) :=
  match r with
  | RecordHTTP method route status d => [Inc httpRequestsTotal [method; route; httpStatusString status]; ObserveSeconds httpRequestDuration [method; route] d]
  | RecordJetstreamEvent _ collection operation => [Inc jetstreamEventsTotal [collection; operation]]
  | RecordJetstreamError _ => [Inc jetstreamErrorsTotal []]
  | RecordLabelReceived _ src => [Inc labelerLabelsReceived [src]]
  | RecordLabelRejected _ src reason => [Inc labelerLabelsRejected [src; reason]]
  | RecordInserted _ collection => [Inc recordsInsertedTotal [collection]]
  | RecordAuthorsFilterApplied collection size => [Inc recordsAuthorsFilterAppliedTotal [collection]; Observe recordsAuthorsFilterSize [] size]
  | RecordAuthorsFilterEmptyBlocked _ => [Inc recordsAuthorsFilterEmptyBlockedTotal []]
  | RecordAuthorsFilterTooLarge _ => [Inc recordsAuthorsFilterTooLargeTotal []]
  | RecordSearchApplied _ => [Inc recordsSearchAppliedTotal []]
  | RecordValidationFailed _ collection => [Inc recordValidationFailedTotal [collection]]
  | OAuthRefreshJKTMismatch _ => [Inc oauthRefreshJKTMismatchTotal []]
  | OAuthRefreshLegacyNullJKT _ => [Inc oauthRefreshLegacyNullJKTTotal []]
  | OAuthRefreshLegacyExpired _ => [Inc oauthRefreshLegacyExpiredTotal []]
  | ServiceAuthVerified _ lxm => [Inc serviceAuthVerifiedTotal [lxm]]
  | ServiceAuthRejected _ reason lxm => [Inc serviceAuthRejectedTotal [reason; lxm]]
  | DIDResolveServedStale _ => [Inc serviceAuthDIDResolveServedStaleTotal []]
  | NotificationsRequest _ endpoint field => [Inc notificationsRequestTotal [endpoint; field]]
  | PDSResolveOK _ => [Inc pdsResolveTotal ["ok"]]
  | PDSResolveFailed _ => [Inc pdsResolveTotal ["failed"]]
  | PDSResolveNoEndpoint _ => [Inc pdsResolveTotal ["no_endpoint"]]
  | ContributorIdentityDID _ => [Inc contributorIdentityTotal ["did"]]
  | ContributorIdentityNonDID _ => [Inc contributorIdentityTotal ["non_did"]]
  | ContributorIdentityUnrecognizedShape _ => [Inc contributorIdentityTotal ["unrecognized_shape"]]
  | GraphQLQueryTimeout _ route => [Inc graphqlQueryTimeoutTotal [route]]
  | PurgeTokenRejected reason => [Inc purgeTokenRejectedTotal [reason]]
  | PurgeActorCompleted tapStatus deleted => [Inc purgeActorTotal [tapStatus]; Observe purgeRecordsDeleted [] deleted]
  | AdminSettingsChanged field => [Inc adminSettingsChangedTotal [field]]
  | ResetAllCompleted _ => [Inc resetAllTotal []]
  | ActivityLogFailed _ => [Inc activityLogFailedTotal []]
  | IngestionError consumer => [Inc ingestionErrorTotal [consumer]]
  | JetstreamEventBufferCapacity _ n => [Set_ jetstreamEventBufferCapacity [] n]
  | JetstreamEventBufferDepth _ n => [Set_ jetstreamEventBufferDepth [] n]
  | TapEventDispatchObserved seconds => [ObserveSeconds tapEventDispatchSeconds [] seconds]
  end.

(** ** What is recorded is registered *)

Definition metric_of {S} (s : sample S) : metric :=
  match s with Inc m _ | ObserveSeconds m _ _ | Observe m _ _ | Set_ m _ _ => m end.
Definition labels_of {S} (s : sample S) : list string :=
  match s with Inc _ l | ObserveSeconds _ l _ | Observe _ l _ | Set_ _ l _ => l end.
Definition kind_of {S} (s : sample S) : kind :=
  match s with Inc _ _ => Counter | ObserveSeconds _ _ _ | Observe _ _ _ => Histogram | Set_ _ _ _ => Gauge end.

(** The library panics when two metrics of a name are registered and when the number of
    values differs from that of the labels, and shows only what is registered. *)
Definition well_recorded {S} (s : sample S) : Prop :=
  metric_of s ∈ registered /\ length (labels_of s) = length (m_labels (metric_of s)) /\ kind_of s = m_kind (metric_of s).

Lemma registered_distinct : NoDup (m_name <$> registered).
Proof. eapply bool_decide_eq_true_1. by vm_compute. Qed.

(** The metrics that are registered have distinct names, and every function records
    only registered metrics, with a value for each of their labels and in the way of
    their kind: no recording panics, and none is lost. *)
Theorem recordings_registered {S} (r : recording S) : NoDup (m_name <$> registered) /\ Forall well_recorded (record r).
Proof.
  split; [apply registered_distinct|].
  destruct r; repeat constructor; cbn; apply list_elem_of_In; cbn; tauto.
Qed.

(** ** How many series there are *)

Definition status_labels : list string := "other" :: ((fun n => itoa (Z.of_nat n)) <$> seq 100 500).

Lemma httpStatusString_label code : httpStatusString code ∈ status_labels.
Proof.
  unfold httpStatusString, status_labels. destruct (Z.ltb_spec code 100); [constructor|]. destruct (Z.ltb_spec 599 code); [constructor|].
  cbn [orb]. constructor. apply list_elem_of_fmap. exists (Z.to_nat code). split; [by rewrite Z2Nat.id by lia|].
  apply list_elem_of_In, in_seq. lia.
Qed.

(** The series of a sample. *)
Definition series {S} (s : sample S) : string * list string := (m_name (metric_of s), labels_of s).

(** The requests over some methods and routes. *)
Definition http_series (methods routes : list string) : list (string * list string) :=
  m ← methods; r ← routes; (m_name httpRequestDuration, [m; r]) :: ((fun c => (m_name httpRequestsTotal, [m; r; c])) <$> status_labels).

(** The series of HTTP requests are bounded by their methods and routes, with at most
    502 for each pair, whatever the handlers answer. *)
Theorem http_bounded {S} methods routes method route status (d : S) : method ∈ methods -> route ∈ routes ->
  Forall (fun s => series s ∈ http_series methods routes) (record (RecordHTTP method route status d)) /\
  length (http_series methods routes) = (502 * (length methods * length routes))%nat.
Proof.
  intros Hm Hr. assert (forall s, s ∈ (m_name httpRequestDuration, [method; route]) ::
      ((fun c => (m_name httpRequestsTotal, [method; route; c])) <$> status_labels) -> s ∈ http_series methods routes) as H.
  { intros s Hs. unfold http_series. apply list_elem_of_bind. exists method. split; [|done].
    apply list_elem_of_bind. exists route. by split. }
  split.
  - cbn [record]. apply Forall_cons. split; [|apply Forall_cons; split; [|constructor]]; apply H; unfold series; cbn [metric_of labels_of].
    + constructor. apply list_elem_of_fmap. exists (httpStatusString status). split; [done|apply httpStatusString_label].
    + constructor.
  - assert (forall m, length (r ← routes; (m_name httpRequestDuration, [m; r]) ::
      ((fun c => (m_name httpRequestsTotal, [m; r; c])) <$> status_labels)) = (502 * length routes)%nat) as Hin.
    { intros m. clear. induction routes as [|r routes IH]; [done|]. rewrite bind_cons, length_app, IH.
      cbn [length]. rewrite length_fmap. change (length status_labels) with 501%nat. lia. }
    unfold http_series. clear - Hin. induction methods as [|m methods IH]; [done|].
    rewrite bind_cons, length_app, IH, Hin. cbn [length]. lia.
Qed.

(** Every other method makes series of its own. *)
Lemma methods_make_series {S} m1 m2 route s1 s2 (d1 d2 : S) : m1 <> m2 ->
  series <$> record (RecordHTTP m1 route s1 d1) ## series <$> record (RecordHTTP m2 route s2 d2).
Proof.
  intros Hm x H1 H2. cbn in H1, H2.
  rewrite !list_elem_of_In in H1, H2. cbn in H1, H2. unfold series in *. cbn in *. intuition congruence.
Qed.
