(* ===== verification/Http.v ===== *)
(** The HTTP layer: what a handler does to a response and what the metrics middleware
    sees of it ([internal/metrics/middleware.go]), the public GraphQL endpoint
    ([internal/graphql/handler.go]), the notification endpoint and the DID document
    ([internal/server/notifications_xrpc.go]), the headers
    ([internal/server/security_headers.go]) and the way to a websocket. *)
From S2P Require Import Prelude GoStrings Utf8 Labeler Config Depth Metrics.
From S2P Require Import WsClient.

Local Open Scope Z_scope.

(** ** Responses, as net/http writes them *)

Inductive call (B : Type) :=
| SetHeader (key value : string)
| WriteHeader (code : Z)
| Write (b : B).
Arguments SetHeader {_}. Arguments WriteHeader {_}. Arguments Write {_}.

(** The header map of the handler, what has been sent of it with which status, and
    the body. The types that net/http guesses from a body, and what it sends before
    the answer with an informational status, are left out. *)
Record response (B : Type) := { header : gmap string string; sent : option (Z * gmap string string); body : list B }.
Arguments Build_response {_}. Arguments header {_}. Arguments sent {_}. Arguments body {_}.
Definition fresh_response {B} : response B := {| header := ∅; sent := None; body := [] |}.

Definition informational (code : Z) : bool := (100 <=? code) && (code <? 200) && negb (code =? 101).
Definition valid_code (code : Z) : bool := (100 <=? code) && (code <=? 999).

(** The first status counts; [None] is the panic for a code that cannot be sent. *)
Definition send {B} (code : Z) (r : response B) : response B :=
  match sent r with Some _ => r | None => {| header := header r; sent := Some (code, header r); body := body r |} end.
Definition step {B} (c : call B) (r : response B) : option (response B) :=
  match c with
  | SetHeader k v => Some {| header := <[k := v]> (header r); sent := sent r; body := body r |}
  | WriteHeader code =>
      match sent r with
      | Some _ => Some r
      | None => if negb (valid_code code) then None else if informational code then Some r else Some (send code r)
      end
  | Write b => let r := send 200 r in Some {| header := header r; sent := sent r; body := body r ++ [b] |}
  end.
Fixpoint run {B} (cs : list (call B)) (r : response B) : option (response B) :=
  match cs with [] => Some r | c :: cs => step c r ≫= run cs end.
(** What a handler that wrote nothing answers. *)
Definition finish {B} (r : response B) : response B := send 200 r.
Definition status_of {B} (r : response B) : option Z := fst <$> sent r.

(** http.Error; the text ends in a line feed. *)
Definition lf : string := String (ascii_of_nat 10) "".
Definition http_Error {B} (of_text : string -> B) (text : string) (code : Z) : list (call B) :=
  [SetHeader "Content-Type" "text/plain; charset=utf-8"; SetHeader "X-Content-Type-Options" "nosniff";
   WriteHeader code; Write (of_text (text +:+ lf))].

Lemma run_app {B} (a b : list (call B)) r : run (a ++ b) r = run a r ≫= run b.
Proof. revert r. induction a as [|c a IH]; intros r; [done|]. cbn. destruct (step c r); [apply IH|done]. Qed.

Lemma step_sent {B} (c : call B) r x : sent r = Some x ->
  exists r', step c r = Some r' /\ sent r' = Some x /\ body r `prefix_of` body r'.
Proof.
  intros H. destruct c as [k v|code|b]; cbn; unfold send; rewrite ?H; eexists; split_and!; try done; cbn.
  by apply prefix_app_r.
Qed.

(** What is sent once stays, and nothing panics any more. *)
Lemma run_sent {B} (cs : list (call B)) : forall r x, sent r = Some x ->
  exists r', run cs r = Some r' /\ sent r' = Some x /\ body r `prefix_of` body r'.
Proof.
  induction cs as [|c cs IH]; intros r x H; [by exists r|]. cbn.
  destruct (step_sent c r x H) as (r1 & -> & H1 & Hp). cbn.
  destruct (IH r1 x H1) as (r2 & -> & H2 & Hp2). exists r2. split_and!; [done..|]. by etrans.
Qed.

Lemma run_answer {B} (cs after : list (call B)) r x : run cs fresh_response = Some r -> sent r = Some x ->
  exists w rest, run (cs ++ after) fresh_response = Some w /\ sent w = Some x /\ body w = body r ++ rest.
Proof.
  intros Hr Hx. destruct (run_sent after r x Hx) as (w & Hw & Hs & rest & Hb). exists w, rest. by rewrite run_app, Hr.
Qed.

(** ** The recorder of the metrics middleware *)

Record statusRecorder (B : Type) := { ResponseWriter : response B; status : Z; wroteHeader : bool }.
Arguments Build_statusRecorder {_}. Arguments ResponseWriter {_}. Arguments status {_}. Arguments wroteHeader {_}.

(** The methods of the recorder; the header map is the one of the writer inside. *)
Definition recorder_step {B} (c : call B) (rw : statusRecorder B) : option (statusRecorder B) :=
  w ← step c (ResponseWriter rw);
  Some match c with
       | SetHeader _ _ => {| ResponseWriter := w; status := status rw; wroteHeader := wroteHeader rw |}
       | WriteHeader code =>
           {| ResponseWriter := w; status := if wroteHeader rw then status rw else code; wroteHeader := true |}
       | Write _ => {| ResponseWriter := w; status := status rw; wroteHeader := true |}
       end.
Fixpoint recorder_run {B} (cs : list (call B)) (rw : statusRecorder B) : option (statusRecorder B) :=
  match cs with [] => Some rw | c :: cs => recorder_step c rw ≫= recorder_run cs end.

(** A request that the handler answers with the calls [cs]; [pattern] is the route
    that the router found. A panic of the handler goes on before anything is recorded. *)
Definition Middleware {B S} (method pattern : string) (seconds : S) (cs : list (call B)) (w : response B)
  : option (response B * list (sample S)) :=
  rw ← recorder_run cs {| ResponseWriter := w; status := 200; wroteHeader := false |};
  let route := if is_empty pattern then "unmatched" else pattern in
  Some (ResponseWriter rw, record (RecordHTTP method route (status rw) seconds)).

Definition plain_call {B} (c : call B) : bool :=
  match c with WriteHeader code => negb (informational code) | _ => true end.
Definition writes {B} (c : call B) : bool := match c with SetHeader _ _ => false | _ => true end.

(** The recorder before and after the first write. *)
Definition in_step {B} (rw : statusRecorder B) : Prop :=
  (sent (ResponseWriter rw) = None /\ wroteHeader rw = false /\ status rw = 200) \/
  (status_of (ResponseWriter rw) = Some (status rw) /\ wroteHeader rw = true).

Lemma recorder_in_step {B} (cs : list (call B)) : forall rw w, in_step rw -> forallb plain_call cs = true ->
  run cs (ResponseWriter rw) = Some w ->
  exists rw', recorder_run cs rw = Some rw' /\ ResponseWriter rw' = w /\ in_step rw' /\
    (existsb writes cs = true \/ wroteHeader rw = true -> wroteHeader rw' = true).
Proof.
  induction cs as [|c cs IH]; intros rw w Hi Hp Hr.
  { injection Hr as [= <-]. exists rw. split_and!; try done. by intros [|]. }
  cbn in Hp, Hr. apply andb_prop in Hp as [Hc Hp].
  destruct (step c (ResponseWriter rw)) as [w1|] eqn:Hs; [|done]. cbn in Hr.
  cbn [recorder_run]. unfold recorder_step at 1. rewrite Hs. cbn [mbind option_bind].
  match goal with |- context [recorder_run cs ?x] => set (rw1 := x) end.
  assert (ResponseWriter rw1 = w1 /\ in_step rw1 /\ (writes c = true \/ wroteHeader rw = true -> wroteHeader rw1 = true)) as (Hw & Hi1 & Hh).
  { subst rw1. clear IH Hr. unfold in_step, status_of in *. destruct c as [k v|code|b]; cbn in *.
    - injection Hs as [= <-]. split_and!; [done| |by intros [|]]. cbn. destruct Hi as [(-> & -> & ->)|(H & ->)]; [by left|right]. by split.
    - split_and!; [done| |done]. right. cbn. destruct Hi as [(Hn & -> & _)|(H & ->)].
      + rewrite Hn in Hs. destruct (negb (valid_code code)); [done|]. destruct (informational code); [done|].
        injection Hs as [= <-]. unfold send. by rewrite Hn.
      + split; [|done]. destruct (sent (ResponseWriter rw)) eqn:Hn; [|done]. injection Hs as [= <-]. by rewrite Hn.
    - injection Hs as [= <-]. split_and!; [done| |done]. right. cbn. unfold send.
      destruct Hi as [(Hn & _ & ->)|(H & _)]; [by rewrite Hn|]. split; [|done]. destruct (sent (ResponseWriter rw)) eqn:Hn; [|done]. by rewrite Hn. }
  rewrite <-Hw in Hr. destruct (IH rw1 w Hi1 Hp Hr) as (rw' & -> & ? & ? & H'). exists rw'. split_and!; [done..|].
  cbn [existsb]. intros Ho. apply H'. destruct (writes c); [right; apply Hh; by left|]. destruct Ho as [Ho|Ho]; [by left|right; auto].
Qed.

(** The status recorded for a request is the one its client receives, whatever the
    middlewares around write afterwards, when the handler writes an answer at all and
    sends no informational status; and the samples carry it with the route. *)
Theorem recorded_status {B S} (cs : list (call B)) after (w : response B) method pattern (seconds : S) :
  forallb plain_call cs = true -> existsb writes cs = true -> run cs fresh_response = Some w ->
  exists code w', Middleware method pattern seconds cs fresh_response
      = Some (w, record (RecordHTTP method (if is_empty pattern then "unmatched" else pattern) code seconds)) /\
    run after w = Some w' /\ status_of (finish w') = Some code.
Proof.
  intros Hp Hw Hr.
  destruct (recorder_in_step cs {| ResponseWriter := fresh_response; status := 200; wroteHeader := false |} w)
    as (rw & Hrun & Hrw & [(_ & Hf & _)|(Hs & _)] & Ht); [by left|done|done|rewrite Ht in Hf; [done|by left]|].
  rewrite Hrw in Hs. unfold status_of in Hs. destruct (sent w) as [[code h]|] eqn:Hsent; [|done]. injection Hs as ->.
  destruct (run_sent after w _ Hsent) as (w' & Hr' & Hs' & _). exists (status rw), w'. unfold Middleware. rewrite Hrun. cbn. rewrite Hrw.
  split_and!; [done|done|]. unfold finish, send, status_of. by rewrite Hs', Hs'.
Qed.

(** ** The way to a websocket *)

(** What a writer can do besides writing: be taken over by a handler, and name the
    writer it wraps. *)
Inductive writer := Writer (Hijacker : bool) (Unwrap : option writer).
(** The library finds the connection below writers that can be unwrapped. *)
Fixpoint can_hijack (w : writer) : bool :=
  match w with Writer true _ => true | Writer false (Some w) => can_hijack w | Writer false None => false end.
(** [statusRecorder] embeds the interface [http.ResponseWriter] alone, and has neither
    of the two methods. *)
Definition recorded (w : writer) : writer := Writer false None.

Section Websocket.
(** The upgrade of the websocket library: over HTTP/1 it takes the connection over from
    the writer, so it fails on a writer that does not let it. *)
Context {R C : Type} (Upgrade : writer -> R -> option C).
Context (upgrade_hijacks : forall w r c, Upgrade w r = Some c -> can_hijack w = true).

(** [Handler.ServeHTTP] of the subscriptions: the connection and the state of its client. *)
Definition ws_ServeHTTP (w : writer) (r : R) : option (C * wsClient) := c ← Upgrade w r; Some (c, new_client).
(** The route behind the metrics middleware, which the router puts before every route. *)
Definition mounted_ws (w : writer) (r : R) : option (C * wsClient) := ws_ServeHTTP (recorded w) r.

(** No subscription can be opened: behind the metrics middleware every upgrade
    fails, whatever the server's own writer and the request are. *)
Theorem no_subscriptions w r : mounted_ws w r = None.
Proof.
  unfold mounted_ws, ws_ServeHTTP. destruct (Upgrade (recorded w) r) as [c|] eqn:Hu; [|done].
  by apply upgrade_hijacks in Hu.
Qed.
End Websocket.

(** ** The public GraphQL endpoint *)

Definition maxGraphQLBodyBytes : Z := 1048576.
Definition maxGraphQLQueryDepth : Z := 15.
Definition maxLoggedOperationName : nat := 128.
Definition publicRouteLabel : string := "public".

(** U+2028 and U+2029. *)
Definition unsafe_rune (r : Z) : bool := (r <? 32) || (r =? 127) || (r =? 8232) || (r =? 8233).
Definition clampOperationName (op : string) : string :=
  let op := if (Nat.ltb maxLoggedOperationName (String.length op)) then take_bytes maxLoggedOperationName op else op in
  if existsb (fun d => unsafe_rune d.1) (runes op) then "" else op.

(** ASCII control bytes cannot hide between safe runes. *)
Definition line_byte (b : Z) : bool := negb ((b <? 32) || (b =? 127)).

Lemma safe_runes_bytes n : forall s, (String.length s <= n)%nat ->
  existsb (fun d => unsafe_rune d.1) (runes s) = false -> all_bytes line_byte s = true.
Proof.
  induction n as [|n IH]; intros s Hl Hs; destruct s as [|c s]; try done; [cbn in Hl; lia|].
  destruct (DecodeRune (String c s)) as [r k] eqn:Hd. rewrite (runes_cons _ r k) in Hs by done.
  cbn [existsb fst] in Hs. apply orb_false_iff in Hs as [Hr Hs]. cbn [String.length] in Hl.
  destruct (Z.ltb_spec (zb c) 128) as [Hc|Hc].
  - rewrite DecodeRune_ascii in Hd by done. injection Hd as <- <-. cbn [all_bytes]. rewrite IH by (done || lia).
    unfold unsafe_rune in Hr. unfold line_byte. lia.
  - destruct (decide (r = RuneError /\ k = 1%nat)) as [[_ ->]|Hv].
    + cbn [all_bytes]. rewrite IH by (done || lia). unfold line_byte. lia.
    + destruct (DecodeRune_shape _ _ _ Hd ltac:(done) Hv) as (c' & p & t & [= <- ->] & -> & _ & Hp & _).
      change (drop_bytes (S (String.length p)) (String c (p +:+ t))) with (drop_bytes (String.length p) (p +:+ t)) in Hs.
      rewrite drop_bytes_app in Hs. cbn [all_bytes]. rewrite all_bytes_app, (IH t); [|rewrite length_app_str in Hl; lia|done].
      rewrite (all_bytes_impl is_cont line_byte p); [unfold line_byte; lia| |done].
      unfold is_cont, in_range, line_byte. intros z. lia.
Qed.

(** What is logged of an operation name is at most 128 bytes without control
    characters: the name itself cut there, or nothing. *)
Theorem clamped_name op :
  (String.length (clampOperationName op) <= maxLoggedOperationName)%nat /\
  all_bytes line_byte (clampOperationName op) = true /\
  (clampOperationName op = "" \/ clampOperationName op = take_bytes maxLoggedOperationName op \/ clampOperationName op = op).
Proof.
  unfold clampOperationName.
  set (cut := if Nat.ltb maxLoggedOperationName (String.length op) then take_bytes maxLoggedOperationName op else op).
  assert ((String.length cut <= maxLoggedOperationName)%nat /\ (cut = take_bytes maxLoggedOperationName op \/ cut = op)) as [Hl Hc].
  { subst cut. destruct (Nat.ltb_spec maxLoggedOperationName (String.length op)) as [Hn|Hn]; [|split; [done|by right]].
    split; [|by left]. rewrite take_bytes_length. lia. }
  destruct (existsb _ (runes cut)) eqn:He; [split_and!; [cbn; lia|done|by left]|].
  split_and!; [done|by eapply safe_runes_bytes|by right].
Qed.

Inductive ext := XText (s : string) | XInt (n : Z) | XBool (b : bool).
Record FormattedError := { Message : string; Extensions : list (string * ext) }.
Record Result (D : Type) := { Data : option D; Errors : list FormattedError }.
Arguments Build_Result {_}. Arguments Data {_}. Arguments Errors {_}.

Definition timeoutErr (budgetMs : Z) : FormattedError :=
  {| Message := "query exceeded server time budget";
     Extensions := [("code", XText "QUERY_TIMEOUT"); ("budgetMs", XInt budgetMs); ("retryable", XBool false)] |}.
(** [None] is a nil result. *)
Definition timeoutResponse {D} (result : option (Result D)) (budgetMs : Z) : Result D :=
  match result with
  | None => {| Data := None; Errors := [timeoutErr budgetMs] |}
  | Some r => {| Data := Data r; Errors := [timeoutErr budgetMs] |}
  end.

(** http.MaxBytesReader: what can be read of a body, and whether reading ends in an error. *)
Definition MaxBytesReader (limit : Z) (b : string) : string * bool := (take_bytes (Z.to_nat limit) b, limit <? glen b).

(** A body of an answer is a text or an encoded value. *)
Inductive content (D : Type) := AText (s : string) | AResult (r : option (Result D)) | AObject (fields : list (string * string)).
Arguments AText {_}. Arguments AResult {_}. Arguments AObject {_}.

Record graphql_params (V : Type) := { gp_Query : string; gp_OperationName : string; gp_Variables : option V }.
Arguments Build_graphql_params {_}. Arguments gp_Query {_}. Arguments gp_OperationName {_}. Arguments gp_Variables {_}.
Record graphql_request := { rq_Method : string; url_query : string; url_operationName : string; rq_Body : string }.

(** What a handler does: it executes a query, warns, counts and answers. *)
Inductive event (V D : Type) :=
| EDo (p : graphql_params V)
| EWarn (route : string) (budget : Z) (operation : string)
| EMetric (r : recording Empty_set)
| ECall (c : call (content D)).
Arguments EDo {_ _}. Arguments EWarn {_ _}. Arguments EMetric {_ _}. Arguments ECall {_ _}.
Definition calls_of {V D} (es : list (event V D)) : list (call (content D)) :=
  omap (fun e => match e with ECall c => Some c | _ => None end) es.
Definition executed {V D} (es : list (event V D)) : list (graphql_params V) :=
  omap (fun e => match e with EDo p => Some p | _ => None end) es.

Section Public.
Context {V D : Type}.
(** encoding/json on a body that can be read so far, and may then fail; the parser; and
    graphql-go with the schema and the repositories. *)
Context (Decode : string * bool -> option (graphql_params V)).
Context (parse : string -> option (list Definition_)).
Context (Do : graphql_params V -> option (Result D)).
Context (queryTimeoutMs : Z).

Definition read_params (r : graphql_request) : option (graphql_params V) :=
  if String.eqb (rq_Method r) "GET"
  then Some {| gp_Query := url_query r; gp_OperationName := url_operationName r; gp_Variables := None |}
  else Decode (MaxBytesReader maxGraphQLBodyBytes (rq_Body r)).

(** [expired]: the deadline of the request has passed when the execution ends. *)
Definition ServeHTTP (expired : bool) (r : graphql_request) : list (event V D) :=
  match read_params r with
  | None => ECall <$> http_Error AText "Invalid request body" 400
  | Some params =>
      match Check_ parse (gp_Query params) maxGraphQLQueryDepth with
      | Err (ErrTooDeep _ _) => ECall <$> http_Error AText "query rejected: nested too deeply" 400
      | Ok _ =>
          let result := Do params in
          if expired then
            [EDo params; EWarn publicRouteLabel queryTimeoutMs (clampOperationName (gp_OperationName params));
             EMetric (GraphQLQueryTimeout Empty_set publicRouteLabel)]
            ++ (ECall <$> [SetHeader "X-Query-Timeout" (itoa queryTimeoutMs); SetHeader "Cache-Control" "no-store";
                           SetHeader "Content-Type" "application/json"; WriteHeader 200;
                           Write (AResult (Some (timeoutResponse result queryTimeoutMs)))])
          else EDo params :: (ECall <$> [SetHeader "Content-Type" "application/json"; Write (AResult result)])
      end
  end.

(** The query of a request that is to be executed. *)
Definition accepted (r : graphql_request) : option (graphql_params V) :=
  p ← read_params r; if is_ok (Check_ parse (gp_Query p) maxGraphQLQueryDepth) then Some p else None.

(** C27: the public endpoint executes a query exactly when its body can be read and its
    nesting is allowed, and answers 200; every other request gets 400. A query that
    runs out of time is answered with what was found so far and the one error for it,
    its budget and that it may not be cached, whatever the middlewares around write
    when they see the deadline afterwards. *)
Theorem public_answer expired r after :
  let es := ServeHTTP expired r in
  executed es = option_list (accepted r) /\
  exists h w,
    run (calls_of es ++ after) fresh_response = Some w /\
    match accepted r with
    | None => sent w = Some (400, h) /\ h !! "X-Query-Timeout" = None
    | Some p => sent w = Some (200, h) /\ h !! "Content-Type" = Some "application/json" /\
        if expired then h !! "X-Query-Timeout" = Some (itoa queryTimeoutMs) /\ h !! "Cache-Control" = Some "no-store" /\
          exists rest, body w = AResult (Some {| Data := Do p ≫= Data; Errors := [timeoutErr queryTimeoutMs] |}) :: rest
        else exists rest, body w = AResult (Do p) :: rest
    end.
Proof.
  intros es. subst es. unfold ServeHTTP, accepted.
  assert (forall text, executed (V:=V) (ECall <$> http_Error (AText (D:=D)) text 400) = [] /\ exists h w,
    run (calls_of (V:=V) (ECall <$> http_Error (AText (D:=D)) text 400) ++ after) fresh_response = Some w /\
    sent w = Some (400, h) /\ h !! "X-Query-Timeout" = None) as Hbad.
  { intros text. split; [done|]. eexists.
    edestruct (run_answer (http_Error (AText (D:=D)) text 400) after) as (w & rest & Hw & Hs & _); [reflexivity..|].
    exists w. split_and!; [exact Hw|exact Hs|reflexivity]. }
  destruct (read_params r) as [p|]; [|apply Hbad]. cbn [mbind option_bind].
  destruct (Check_ parse (gp_Query p) maxGraphQLQueryDepth) as [u|[d l]]; [|apply Hbad]. cbn [is_ok].
  destruct expired; (split; [done|]); eexists;
    (edestruct (run_answer (B:=content D)) as (w & rest & Hw & Hs & Hb);
     [| |exists w; split; [exact Hw|split; [exact Hs|]]]; [reflexivity..|]); cbn in Hb.
  - split; [reflexivity|]. split_and!; [reflexivity..|]. exists rest. rewrite Hb. by destruct (Do p).
  - split; [reflexivity|]. by exists rest.
Qed.
End Public.

(** ** The notification endpoint *)

Section Notifications.
Context {V D : Type} (Decode : string -> option (graphql_params V)) (Do : graphql_params V -> Result D).

(** [did] is the DID that the service-token middleware put into the context. The body
    is decoded as it comes, without a limit, and executed without a check of its nesting. *)
Definition NotificationsXRPC (did : option string) (method b : string) : list (event V D) :=
  match did with
  | None => ECall <$> http_Error AText "internal routing error" 500
  | Some _ =>
      if negb (String.eqb method "POST") then ECall <$> http_Error AText "method not allowed" 405
      else match Decode b with
           | None => ECall <$> http_Error AText "bad request" 400
           | Some p =>
               let result := Do p in
               EDo p :: (ECall <$> ([SetHeader "Content-Type" "application/json"]
                 ++ (match Errors result with [] => [] | _ => [WriteHeader 400] end)
                 ++ [Write (AResult (Some result))]))
           end
  end.

(** The notification endpoint executes exactly the bodies that decode, of POST
    requests for an authenticated DID; 200 means that the execution had no errors, 400
    that it had some or that nothing was executed. *)
Theorem notifications_answer did method b :
  let es := NotificationsXRPC did method b in
  let status := run (calls_of es) fresh_response ≫= fun w => status_of (finish w) in
  executed es = (if is_Some_dec did then if String.eqb method "POST" then option_list (Decode b) else [] else []) /\
  status = Some (match did with
                 | None => 500
                 | Some _ =>
                     if String.eqb method "POST"
                     then match Decode b with Some p => if decide (Errors (Do p) = []) then 200 else 400 | None => 400 end
                     else 405
                 end).
Proof.
  cbn zeta. unfold NotificationsXRPC. destruct did as [did|]; [|by split]. cbn.
  destruct (String.eqb method "POST"); [|by split]. cbn. destruct (Decode b) as [p|]; [|by split].
  destruct (Errors (Do p)); by split.
Qed.
End Notifications.

(** ** The document of the DID *)

Definition didWeb : string := "did:web:".
Definition NewAtprotoDIDHandler (domainDID expectedHost : string) : list (call string) :=
  if is_empty domainDID || (glen domainDID <=? glen didWeb) || negb (String.eqb (take_bytes 8 domainDID) didWeb)
  then http_Error id "404 page not found" 404
  else
    let host := drop_bytes 8 domainDID in
    if negb (is_empty expectedHost) && negb (String.eqb host expectedHost) then http_Error id "404 page not found" 404
    else [SetHeader "Content-Type" "text/plain; charset=utf-8"; SetHeader "Cache-Control" "public, max-age=300";
          Write domainDID].

Lemma didWebHost_spec did : didWebHost did <> "" <-> exists host, host <> "" /\ did = didWeb +:+ host.
Proof.
  unfold didWebHost. change "did:web:" with didWeb. split.
  - destruct (Z.leb_spec (glen did) (glen didWeb)) as [|Hl]; [done|]. destruct (String.eqb_spec (take_bytes 8 did) didWeb) as [Hp|]; [|done].
    cbn [orb negb]. intros Hh. exists (drop_bytes 8 did). split; [done|]. rewrite <-Hp. by rewrite take_drop_bytes.
  - intros (host & Hh & ->). rewrite glen_app. destruct (Z.leb_spec (glen didWeb + glen host) (glen didWeb)) as [Hl|Hl].
    + destruct host; [done|]. unfold glen in Hl. cbn [String.length] in Hl. lia.
    + done.
Qed.

(** Where the route is mounted, for a did:web with a host, it answers 200 with the
    DID; for any expected host the handler answers 200 exactly for a did:web of that
    host, or of any when none is expected. *)
Theorem did_document did expected : exists w,
  run (NewAtprotoDIDHandler did expected) fresh_response = Some w /\
  (didWebHost did <> "" -> exists w', run (NewAtprotoDIDHandler did (didWebHost did)) fresh_response = Some w' /\
     status_of w' = Some 200 /\ body w' = [did]) /\
  (status_of w = Some 200 <-> didWebHost did <> "" /\ (expected = "" \/ didWebHost did = expected)) /\
  (status_of w = Some 200 \/ status_of w = Some 404).
Proof.
  unfold NewAtprotoDIDHandler, didWebHost. change "did:web:" with didWeb.
  destruct (is_empty did) eqn:He.
  { destruct did; [|done]. cbn. eexists. split_and!; [done|done| |by right]. split; [done|by intros [? _]]. }
  cbn [orb]. destruct (Z.leb_spec (glen did) (glen didWeb)) as [Hl|Hl]; cbn [orb].
  { eexists. split_and!; [done|done| |by right]. split; [done|by intros [? _]]. }
  destruct (String.eqb_spec (take_bytes 8 did) didWeb) as [Hp|Hp]; cbn [negb].
  2: { eexists. split_and!; [done|done| |by right]. split; [done|by intros [? _]]. }
  assert (drop_bytes 8 did <> "") as Hd.
  { intros Hd. rewrite <-(take_drop_bytes 8 did), Hd, Hp, glen_app in Hl. unfold glen at 3 in Hl. cbn [String.length] in Hl. lia. }
  rewrite String.eqb_refl, andb_false_r.
  destruct (is_empty expected) eqn:Hx; cbn [negb andb].
  { destruct expected; [|done]. eexists. split_and!; [done|by eexists| |by left]. split; [split; [done|by left]|done]. }
  destruct (String.eqb_spec (drop_bytes 8 did) expected) as [<-|Hn]; cbn [negb].
  - eexists. split_and!; [done|by eexists| |by left]. split; [split; [done|by right]|done].
  - eexists. split_and!; [done|by eexists| |by right]. split; [done|]. intros [_ [->|]]; done.
Qed.

(** ** Headers, health and statistics *)

Definition SecurityHeaders {B} (httpsOnly : bool) (next : list (call B)) : list (call B) :=
  [SetHeader "X-Content-Type-Options" "nosniff"; SetHeader "X-Frame-Options" "DENY"; SetHeader "Referrer-Policy" "no-referrer"]
  ++ (if httpsOnly then [SetHeader "Strict-Transport-Security" "max-age=31536000; includeSubDomains"] else [])
  ++ next.

(** The calls of a handler that sets none of some headers, or to a value they have. *)
Definition leaves {B} (keys : list string) (fixed : gmap string string) (c : call B) : bool :=
  match c with SetHeader k v => negb (existsb (String.eqb k) keys) || bool_decide (fixed !! k = Some v) | _ => true end.

Lemma run_header {B} keys fixed (cs : list (call B)) : forall r w h0, forallb (leaves keys fixed) cs = true ->
  (forall k v, fixed !! k = Some v -> h0 k = Some v) -> run cs r = Some w ->
  (forall k, k ∈ keys -> header r !! k = h0 k) -> (forall x, sent r = Some x -> forall k, k ∈ keys -> x.2 !! k = h0 k) ->
  forall k, k ∈ keys -> header w !! k = h0 k /\ (forall x, sent w = Some x -> x.2 !! k = h0 k).
Proof.
  induction cs as [|c cs IH]; intros r w h0 Hl Hfx Hr Hh Hs k Hk.
  { injection Hr as <-. split; [by apply Hh|]. intros x Hx. by apply (Hs x). }
  cbn in Hl, Hr. apply andb_prop in Hl as [Hc Hl]. destruct (step c r) as [r1|] eqn:Hst; [|done].
  assert (forall code, (forall k, k ∈ keys -> header (send code r) !! k = h0 k) /\
    (forall x, sent (send code r) = Some x -> forall k, k ∈ keys -> x.2 !! k = h0 k)) as Hsend.
  { intros code. unfold send. destruct (sent r) as [y|] eqn:Hy.
    - split; [done|]. rewrite Hy. intros x [= <-]. by apply Hs.
    - cbn. split; [done|]. by intros x [= <-]. }
  apply (IH r1 w h0 Hl Hfx Hr); [| |done]; clear IH Hr; destruct c as [k0 v|code|b]; cbn in Hst, Hc.
  - injection Hst as <-. cbn. intros k1 Hk1. destruct (decide (k0 = k1)) as [->|]; [|by rewrite lookup_insert_ne; [apply Hh|]].
    apply orb_prop in Hc as [Hc|Hc]; [|apply bool_decide_eq_true in Hc; rewrite lookup_insert_eq; symmetry; by apply Hfx].
    apply negb_true_iff in Hc. exfalso. apply not_true_iff_false in Hc. apply Hc, existsb_exists. exists k1.
    split; [by apply list_elem_of_In|apply String.eqb_refl].
  - destruct (sent r); [injection Hst as <-; done|]. destruct (negb _); [done|]. destruct (informational code); injection Hst as <-; [done|apply Hsend].
  - injection Hst as <-. cbn. apply Hsend.
  - by injection Hst as <-.
  - destruct (sent r) eqn:Hy; [injection Hst as <-; rewrite Hy; by apply Hs|]. destruct (negb _); [done|].
    destruct (informational code); injection Hst as <-; [rewrite Hy; done|apply Hsend].
  - injection Hst as <-. cbn. apply Hsend.
Qed.

Definition guarded_headers : list string :=
  ["X-Content-Type-Options"; "X-Frame-Options"; "Referrer-Policy"; "Strict-Transport-Security"].

(** Every answer of a handler that leaves these headers alone (an error page
    sets the first again, to its value) carries them, and
    tells browsers to insist on TLS exactly when the service is configured for it. *)
Theorem headers_sent {B} httpsOnly (next : list (call B)) w :
  forallb (leaves guarded_headers {[ "X-Content-Type-Options" := "nosniff" ]}) next = true ->
  run (SecurityHeaders httpsOnly next) fresh_response = Some w ->
  exists code h, sent (finish w) = Some (code, h) /\
    h !! "X-Content-Type-Options" = Some "nosniff" /\ h !! "X-Frame-Options" = Some "DENY" /\
    h !! "Referrer-Policy" = Some "no-referrer" /\
    (is_Some (h !! "Strict-Transport-Security") <-> httpsOnly = true).
Proof.
  intros Hl Hr. unfold SecurityHeaders in Hr. rewrite app_assoc, run_app in Hr.
  match type of Hr with run ?pre ?r0 ≫= _ = _ => destruct (run pre r0) as [r|] eqn:Hp; [|done] end. cbn [mbind option_bind] in Hr.
  assert (sent r = None) as Hs by (destruct httpsOnly; by injection Hp as <-).
  pose proof (run_header guarded_headers _ next r w (fun k => header r !! k) Hl) as Hh.
  specialize (Hh ltac:(intros k v [<- <-]%lookup_singleton_Some; destruct httpsOnly; by injection Hp as <-)).
  specialize (Hh Hr (fun _ _ => eq_refl) ltac:(by rewrite Hs)).
  assert (exists code h, sent (finish w) = Some (code, h) /\ forall k, k ∈ guarded_headers -> h !! k = header r !! k) as (code & h & Hf & Hk).
  { unfold finish, send. destruct (sent w) as [[code h]|] eqn:Hw; cbn.
    - exists code, h. split; [done|]. intros k Hk. by apply (proj2 (Hh k Hk) (code, h)).
    - exists 200, (header w). split; [done|]. intros k Hk. apply (Hh k Hk). }
  exists code, h. split; [done|]. rewrite !Hk by (unfold guarded_headers; set_solver).
  destruct httpsOnly; injection Hp as <-; split_and!; try reflexivity; split; try done. by intros [].
Qed.

(** The answer of /health, by whether the database answers in time. *)
Definition health (pings : bool) (time : string) : list (call (content Empty_set)) :=
  SetHeader "Content-Type" "application/json" ::
  (if pings then [WriteHeader 200; Write (AObject [("status", "healthy"); ("time", time)])]
   else [WriteHeader 503; Write (AObject [("status", "degraded"); ("error", "database unreachable"); ("time", time)])]).
(** The answer of /. *)
Definition server_info (externalBaseURL : string) : list (call (content Empty_set)) :=
  [SetHeader "Content-Type" "application/json";
   Write (AObject [("name", "Hypergoat"); ("description", "AT Protocol AppView Server"); ("version", "0.1.0-dev");
                   ("docs", externalBaseURL +:+ "/docs")])].

(** The numbers of /stats: -1 for a count that fails, and the counters of every labeler. *)
Definition count_or (count : option Z) : Z := default (-1) count.
Definition stats_numbers (records actors lexicons : option Z) : list (string * Z) :=
  [("records", count_or records); ("actors", count_or actors); ("lexicons", count_or lexicons)].
Definition labeler_stats (did : string) (s : Labeler.Stats) : string * list (string * Z) :=
  (did, [("events_received", EventsReceived s); ("labels_received", LabelsReceived s);
         ("labels_persisted", LabelsPersisted s); ("labels_rejected", LabelsRejected s);
         ("account_level_skipped", AccountLevelSkipped s); ("outdated_cursors", OutdatedCursors s);
         ("reconnect_attempts", ReconnectAttempts s); ("last_seq", LastSeq s)]).
Definition stats_answer (records actors lexicons : option Z) (consumers : list (string * Labeler.Stats))
  : list (string * Z) * list (string * list (string * Z)) :=
  (stats_numbers records actors lexicons, (fun c => labeler_stats c.1 c.2) <$> consumers).

Lemma health_status pings time : (run (health pings time) fresh_response ≫= status_of) = Some (if pings then 200 else 503).
Proof. by destruct pings. Qed.

Module Example_http.

Definition of_status (code : Z) : list (call string) := [SetHeader "a" "b"; WriteHeader code; Write "x"].
Lemma recorded_status_witness : exists code w', Middleware "GET" "" () (of_status 404) fresh_response
    = Some (default fresh_response (run (of_status 404) fresh_response), record (RecordHTTP "GET" "unmatched" code ())) /\
  run [WriteHeader 504] (default fresh_response (run (of_status 404) fresh_response)) = Some w' /\ status_of (finish w') = Some code.
Proof.
  apply (recorded_status (of_status 404) [WriteHeader 504] _ "GET" "" ());
    [vm_compute; reflexivity|vm_compute; reflexivity|vm_compute; reflexivity].
Defined.

(** A handler that returns without an answer when its deadline has passed is counted as
    200, while the client receives what a middleware around it writes; a handler that
    panics is not counted. *)
Example silent_timeout :
  snd <$> Middleware "GET" "/x" () (B:=string) [] fresh_response = Some (record (RecordHTTP "GET" "/x" 200 ())) /\
  status_of <$> run (B:=string) ([] ++ [WriteHeader 504]) fresh_response = Some (Some 504) /\
  Middleware "GET" "/x" () (B:=string) [WriteHeader 7] fresh_response = None.
Proof. by split_and!. Qed.
(** The status of an early hint is recorded instead of the one that follows. *)
Example early_hint :
  snd <$> Middleware "GET" "/x" () (B:=string) [WriteHeader 103; WriteHeader 404] fresh_response
  = Some (record (RecordHTTP "GET" "/x" 103 ())).
Proof. by vm_compute. Qed.

(** A library that takes every connection over that it can: on the server's writer, or
    one that can be unwrapped, it succeeds; behind the recorder it never does. *)
Definition upgrade (w : writer) (_ : unit) : option unit := if can_hijack w then Some () else None.
Lemma upgrade_takes w r c : upgrade w r = Some c -> can_hijack w = true.
Proof. unfold upgrade. by destruct (can_hijack w). Defined.
Lemma no_subscriptions_witness :
  ws_ServeHTTP upgrade (Writer false (Some (Writer true None))) () = Some ((), new_client) /\
  mounted_ws upgrade (Writer true None) () = None.
Proof. split; [reflexivity|exact (no_subscriptions upgrade upgrade_takes (Writer true None) ())]. Defined.

Definition page : list (call string) := http_Error id "404 page not found" 404.
Lemma headers_sent_witness : exists code h,
  sent (finish (default fresh_response (run (SecurityHeaders true page) fresh_response))) = Some (code, h) /\
  h !! "X-Content-Type-Options" = Some "nosniff" /\ h !! "X-Frame-Options" = Some "DENY" /\
  h !! "Referrer-Policy" = Some "no-referrer" /\
  (is_Some (h !! "Strict-Transport-Security") <-> true = true).
Proof. apply (headers_sent true page); [vm_compute; reflexivity|vm_compute; reflexivity]. Defined.

(** The last character of a name that is cut may be broken, and control characters
    beyond ASCII pass. *)
Definition e_acute : string := String (ascii_of_nat 195) (String (ascii_of_nat 169) "").
Definition long_name : string := String.concat "" (repeat "a" 127) +:+ e_acute.
Example name_cut : ValidString long_name = true /\ ValidString (clampOperationName long_name) = false.
Proof. by vm_compute. Qed.
Definition csi : string := String (ascii_of_nat 194) (String (ascii_of_nat 155) "").
Example c1_passes : clampOperationName csi = csi.
Proof. by vm_compute. Qed.

End Example_http.
