(* ===== verification/Documents.v ===== *)
(** What the server says about itself: the routes of [cmd/hypergoat/main.go], the OAuth
    configuration made there, and the documents of
    [internal/server/oauth_handlers.go] and [oauth_client_metadata.go], which the
    handlers of [Authorize] and [TokenEndpoint] have to agree with. *)
From S2P Require Import Prelude GoStrings Base64 Config TokenEndpoint Dpop Bridge Authorize.

Local Open Scope Z_scope.

(** ** The OAuth configuration *)

(** The fields of [OAuthHandlerConfig], those of the flow and of the tokens in the
    records that their handlers use. [SigningKey] may be nil. *)
Record server_config := {
  flow : FlowConfig; tokens : OAuthHandlerConfig;
  SigningKey : option DPoPKeyPair; Issuer : string; ScopesSupported : list string
}.

Section Setup.
Context `{JwkJson}.

(** [generated] is the key of this process, nil when none could be made; a configured
    key that cannot be read is not used. *)
Definition signing_key (generated : option DPoPKeyPair) (configured : string) : option DPoPKeyPair :=
  if is_empty configured then generated
  else match ParseDPoPKeyPair configured with Ok key => Some key | Err _ => generated end.

Definition setupOAuth (c : Config) (generated : option DPoPKeyPair) : server_config :=
  let base := Config.ExternalBaseURL c in
  {| flow := {| f_ClientID := base +:+ "/oauth-client-metadata.json"; CallbackURL := base +:+ "/oauth/callback";
                AuthorizationCodeExpiration := 600 |};
     tokens := {| TokenEndpoint.ExternalBaseURL := base; AccessTokenExpiration := 3600; RefreshTokenExpiration := 1209600;
                  LegacyDPoPJKTCutoff := OAuthLegacyDPoPJKTCutoff c |};
     SigningKey := signing_key generated (OAuthSigningKey c); Issuer := base;
     ScopesSupported := ["atproto"; "transition:generic"; "transition:chat.bsky"] |}.
End Setup.

(** ** Routes: a method, or any, and a path *)

Inductive methods := MAny | MOnly (method : string).
Definition route : Type := methods * string.
Definition Get (path : string) : route := (MOnly "GET", path).
Definition Post (path : string) : route := (MOnly "POST", path).
Definition Handle (path : string) : route := (MAny, path).

Definition router_routes : list route :=
  [Handle "/metrics"; Get "/health"; Post "/admin/labeler/reset"; Post "/admin/labeler/pause"; Get "/admin/label-chain";
   Get "/stats"; Get "/"].
Definition oauth_routes : list route :=
  [Get "/.well-known/oauth-authorization-server"; Get "/.well-known/oauth-protected-resource";
   Get "/oauth-client-metadata.json"; Get "/oauth/authorize"; Post "/oauth/authorize"; Get "/oauth/callback";
   Post "/oauth/token"; Get "/oauth/jwks"; Post "/oauth/revoke"; Post "/oauth/register"; Post "/oauth/par";
   Get "/oauth/dpop/nonce"; Post "/oauth/dpop/nonce"].
(** [schema]: the admin schema could be built; [xrpc]: so could that of notifications. *)
Definition admin_routes (c : Config) (schema xrpc : bool) : list route :=
  if negb schema then []
  else [Handle "/admin/graphql"; Handle "/admin/graphql/"]
    ++ (if NotificationsEnabled c && negb (is_empty (DomainDID c)) && xrpc
        then Post "/notifications/graphql" ::
             (if is_empty (didWebHost (DomainDID c)) then [] else [Get "/.well-known/atproto-did"])
        else [])
    ++ [Get "/graphiql"; Get "/graphiql/admin"].
Definition graphql_routes (schema : bool) : list route :=
  if schema then [Handle "/graphql"; Handle "/graphql/"; Handle "/graphql/ws"] else [].

(** ** The documents; [Err] is the status of a refusal, which names the allowed method *)

Definition get_only {A} (method : string) (document : A) : result Z A :=
  if String.eqb method "GET" then Ok document else Err 405.

Record AuthorizationServerMetadataResponse := {
  as_Issuer : string; as_AuthorizationEndpoint : string; as_TokenEndpoint : string;
  as_PushedAuthorizationRequestEndpoint : option string; as_RevocationEndpoint : option string; as_JWKSUri : option string;
  ResponseTypesSupported : list string; GrantTypesSupported : list string; CodeChallengeMethodsSupported : list string;
  TokenEndpointAuthMethodsSupported : list string; DPoPSigningAlgValuesSupported : list string; as_ScopesSupported : list string
}.
Definition HandleAuthorizationServerMetadata (h : server_config) (method : string)
  : result Z AuthorizationServerMetadataResponse :=
  let baseURL := TokenEndpoint.ExternalBaseURL (tokens h) in
  get_only method
    {| as_Issuer := Issuer h; as_AuthorizationEndpoint := baseURL +:+ "/oauth/authorize";
       as_TokenEndpoint := baseURL +:+ "/oauth/token";
       as_PushedAuthorizationRequestEndpoint := Some (baseURL +:+ "/oauth/par");
       as_RevocationEndpoint := Some (baseURL +:+ "/oauth/revoke"); as_JWKSUri := Some (baseURL +:+ "/oauth/jwks");
       ResponseTypesSupported := ["code"]; GrantTypesSupported := ["authorization_code"; "refresh_token"];
       CodeChallengeMethodsSupported := ["S256"]; TokenEndpointAuthMethodsSupported := ["none"; "private_key_jwt"];
       DPoPSigningAlgValuesSupported := ["ES256"]; as_ScopesSupported := ScopesSupported h |}.

Record ProtectedResourceMetadataResponse := {
  Resource : string; AuthorizationServers : list string; pr_ScopesSupported : list string; BearerMethodsSupported : list string
}.
Definition HandleProtectedResourceMetadata (h : server_config) (method : string)
  : result Z ProtectedResourceMetadataResponse :=
  get_only method {| Resource := TokenEndpoint.ExternalBaseURL (tokens h); AuthorizationServers := [Issuer h];
                     pr_ScopesSupported := ScopesSupported h; BearerMethodsSupported := ["header"] |}.

(** The keys of the document are the fields of each key in it. *)
Definition HandleJWKS `{CryptoLib} (h : server_config) (method : string) : result Z (list (gmap string string)) :=
  get_only method
    match SigningKey h with
    | None => []
    | Some key =>
        let jwk := ToJWK key in
        [list_to_map [("kty", Kty jwk); ("crv", Crv jwk); ("x", X jwk); ("y", Y jwk); ("use", "sig"); ("kid", CalculateJKT key)]]
    end.

(** [J] is the type of an inline set of keys. *)
Record ClientMetadataConfig (J : Type) := {
  cm_ExternalBaseURL : string; cm_ClientName : string; cm_ClientURI : string; cm_LogoURI : string; cm_TOSUri : string;
  cm_PolicyURI : string; cm_Scope : string; cm_JWKS : option J; cm_JWKSUri : string
}.
Arguments cm_ExternalBaseURL {_}. Arguments cm_ClientName {_}. Arguments cm_ClientURI {_}. Arguments cm_LogoURI {_}.
Arguments cm_TOSUri {_}. Arguments cm_PolicyURI {_}. Arguments cm_Scope {_}. Arguments cm_JWKS {_}. Arguments cm_JWKSUri {_}.
Record ClientMetadataResponse (J : Type) := {
  md_ClientID : string; md_ClientName : string; md_ClientURI : option string; md_LogoURI : option string;
  md_TOSUri : option string; md_PolicyURI : option string; md_RedirectURIs : list string; md_GrantTypes : list string;
  md_ResponseTypes : list string; md_Scope : string; md_TokenEndpointAuthMethod : string;
  md_TokenEndpointAuthSigningAlg : string; md_SubjectType : string; md_ApplicationType : string;
  md_DPoPBoundAccessTokens : bool; md_JWKS : option J; md_JWKSUri : option string
}.
Arguments md_ClientID {_}. Arguments md_RedirectURIs {_}. Arguments md_GrantTypes {_}. Arguments md_Scope {_}.
Arguments md_JWKS {_}. Arguments md_JWKSUri {_}. Arguments md_ResponseTypes {_}. Arguments md_TokenEndpointAuthMethod {_}.

Definition HandleClientMetadata {J} (cfg : ClientMetadataConfig J) (method : string) : result Z (ClientMetadataResponse J) :=
  get_only method
    {| md_ClientID := cm_ExternalBaseURL cfg +:+ "/oauth-client-metadata.json"; md_ClientName := cm_ClientName cfg;
       md_ClientURI := ptrString (cm_ClientURI cfg); md_LogoURI := ptrString (cm_LogoURI cfg);
       md_TOSUri := ptrString (cm_TOSUri cfg); md_PolicyURI := ptrString (cm_PolicyURI cfg);
       md_RedirectURIs := [cm_ExternalBaseURL cfg +:+ "/oauth/callback"];
       md_GrantTypes := ["authorization_code"; "refresh_token"]; md_ResponseTypes := ["code"];
       md_Scope := if is_empty (cm_Scope cfg) then "atproto" else cm_Scope cfg;
       md_TokenEndpointAuthMethod := "private_key_jwt"; md_TokenEndpointAuthSigningAlg := "ES256";
       md_SubjectType := "public"; md_ApplicationType := "web"; md_DPoPBoundAccessTokens := true;
       md_JWKS := cm_JWKS cfg;
       md_JWKSUri := match cm_JWKS cfg with
                     | Some _ => None
                     | None => Some (if is_empty (cm_JWKSUri cfg) then cm_ExternalBaseURL cfg +:+ "/oauth/jwks" else cm_JWKSUri cfg)
                     end |}.

(** The configuration of the document, as [setupOAuth] gives it. *)
Definition client_metadata_config (c : Config) : ClientMetadataConfig Empty_set :=
  {| cm_ExternalBaseURL := Config.ExternalBaseURL c; cm_ClientName := "Hypergoat"; cm_ClientURI := ""; cm_LogoURI := "";
     cm_TOSUri := ""; cm_PolicyURI := ""; cm_Scope := "atproto transition:generic"; cm_JWKS := None; cm_JWKSUri := "" |}.

(** ** The assertion by which the server shows upstream servers who it is *)

Record client_assertion := {
  ca_kid : string; ca_iss : string; ca_sub : string; ca_aud : string; ca_jti : string; ca_iat : Z; ca_exp : Z
}.
(** What is signed with the private key, in seconds; [jti] is what the random
    generator gives. *)
Definition createClientAssertion `{CryptoLib} (h : server_config) (now : Z) (jti : option string) (audience : string)
  : option client_assertion :=
  key ← SigningKey h; _ ← PrivateKey key; jti ← jti;
  Some {| ca_kid := CalculateJKT key; ca_iss := f_ClientID (flow h); ca_sub := f_ClientID (flow h); ca_aud := audience;
          ca_jti := jti; ca_iat := now; ca_exp := now + 300 |}.

(** ** The documents tell the truth *)

Definition unsupported : prog := Ret (OAuthError 400 "unsupported_grant_type").

Section Truth.
Context `{CryptoLib, JwkJson}.

Lemma code_grant_supported h r : handleAuthorizationCodeGrant h r <> unsupported.
Proof.
  unfold handleAuthorizationCodeGrant, unsupported, call, invalid_request.
  repeat match goal with |- context [if ?b then _ else _] => destruct b; [|done] end. done.
Qed.
Lemma refresh_grant_supported h r : handleRefreshTokenGrant h r <> unsupported.
Proof.
  unfold handleRefreshTokenGrant, unsupported, call, invalid_request.
  repeat match goal with |- context [if ?b then _ else _] => destruct b; [|done] end. done.
Qed.

(** What is advertised with the method it is for. *)
Definition advertised {J} (md : ClientMetadataResponse J) (s : AuthorizationServerMetadataResponse) : list (string * string) :=
  [("GET", md_ClientID md); ("GET", as_AuthorizationEndpoint s); ("POST", as_AuthorizationEndpoint s); ("POST", as_TokenEndpoint s)]
  ++ ((fun u => ("GET", u)) <$> md_RedirectURIs md)
  ++ ((fun u => ("GET", u)) <$> option_list (md_JWKSUri md)) ++ ((fun u => ("GET", u)) <$> option_list (as_JWKSUri s))
  ++ ((fun u => ("POST", u)) <$> option_list (as_PushedAuthorizationRequestEndpoint s))
  ++ ((fun u => ("POST", u)) <$> option_list (as_RevocationEndpoint s)).

(** C28: the documents agree with the handlers: every address in them is a route of this
    server with the right method; the name and the redirect address under which it asks
    upstream servers are those of its own document; the grants advertised are exactly
    those that the token endpoint knows; and an assertion it makes names a key of the
    published set and itself. *)
Theorem documents_agree (c : Config) (generated : option DPoPKeyPair) :
  let h := setupOAuth c generated in
  exists md s keys,
    HandleClientMetadata (client_metadata_config c) "GET" = Ok md /\
    HandleAuthorizationServerMetadata h "GET" = Ok s /\ HandleJWKS h "GET" = Ok keys /\
    (forall method url, (method, url) ∈ advertised md s ->
       exists path, (MOnly method, path) ∈ oauth_routes /\ url = Config.ExternalBaseURL c +:+ path) /\
    md_ClientID md = f_ClientID (flow h) /\ CallbackURL (flow h) ∈ md_RedirectURIs md /\
    (forall r, Form r "grant_type" ∈ GrantTypesSupported s <-> HandleToken (tokens h) r <> unsupported) /\
    (forall now jti aud a, createClientAssertion h now jti aud = Some a ->
       ca_iss a = md_ClientID md /\ exists key, key ∈ keys /\ key !! "kid" = Some (ca_kid a)).
Proof.
  cbn zeta. do 3 eexists. split_and!; [reflexivity..| |reflexivity|apply list_elem_of_here| |].
  - intros method url Hin. apply list_elem_of_In in Hin. cbn in Hin.
    repeat destruct Hin as [[= <- <-]|Hin]; [..|done]; eexists; (split; [|reflexivity]); apply list_elem_of_In; cbn; tauto.
  - intros r. cbn [GrantTypesSupported]. unfold HandleToken. split.
    + intros Hg. apply list_elem_of_In in Hg. destruct Hg as [<-|[<-|[]]]; cbn.
      * apply code_grant_supported.
      * apply refresh_grant_supported.
    + intros Hn. apply list_elem_of_In.
      destruct (String.eqb_spec (Form r "grant_type") "authorization_code") as [->|]; [by left|].
      destruct (String.eqb_spec (Form r "grant_type") "refresh_token") as [->|]; [by right; left|]. by destruct Hn.
  - intros now jti aud a. unfold createClientAssertion. cbn [flow SigningKey setupOAuth].
    destruct (signing_key _ _) as [key|]; [|done]. cbn. destruct (PrivateKey key); [|done]. cbn. destruct jti; [|done].
    intros [= <-]. cbn. split; [done|]. eexists. split; [apply list_elem_of_here|]. by simplify_map_eq.
Qed.

(** A configured key without its private part is published, and no login can be
    completed with it: every assertion fails. *)
Lemma public_key_configured c generated key now jti aud : is_empty (OAuthSigningKey c) = false ->
  ParseDPoPKeyPair (OAuthSigningKey c) = Ok key -> PrivateKey key = None ->
  createClientAssertion (setupOAuth c generated) now jti aud = None /\ SigningKey (setupOAuth c generated) = Some key.
Proof.
  intros He Hp Hk. unfold createClientAssertion, setupOAuth, signing_key. cbn [SigningKey]. rewrite He, Hp. cbn. by rewrite Hk.
Qed.
End Truth.

Module Example_documents.

(** The scopes advertised to clients are not all among those that the server declares to
    upstream servers. *)
Example chat_scope `{CryptoLib, JwkJson} c generated : "transition:chat.bsky" ∈ ScopesSupported (setupOAuth c generated) /\
  md_Scope <$> HandleClientMetadata (client_metadata_config c) "GET" = Ok "atproto transition:generic" /\
  "transition:chat.bsky" ∉ split "atproto transition:generic" " ".
Proof.
  split_and!; [apply list_elem_of_In; cbn; tauto|done|]. vm_compute.
  intros Hin%list_elem_of_In. by repeat destruct Hin as [Hin|Hin].
Qed.

(** Registration of clients is served and not advertised. *)
Example registration_unadvertised : Post "/oauth/register" ∈ oauth_routes.
Proof. apply list_elem_of_In. cbn. tauto. Qed.

End Example_documents.
