(* ===== verification/Startup.v ===== *)
(** How the process reaches its database and its events: the address of the database
    with the limit for statements ([internal/server/database.go],
    [internal/database/postgres/executor.go]), the settings written at the start
    ([initServices] of [cmd/hypergoat/main.go]) and which consumer runs ([startJetstream]). *)
From S2P Require Import Prelude GoStrings Ingestion ConfigStore Config.

Local Open Scope Z_scope.

(** ** The limit for statements *)

(** RE2's class of white space. *)
Definition re_space (c : ascii) : bool := existsb (Ascii.eqb c) (ascii_of_nat <$> [9; 10; 12; 13; 32]%nat).
Fixpoint skip_spaces (s : string) : string :=
  match s with String c t => if re_space c then skip_spaces t else s | EmptyString => s end.

(** [(-c\s+|-c|--)statement_timeout=] at the beginning. *)
Definition directive_here (s : string) : bool :=
  (has_prefix s "-c" && has_prefix (skip_spaces (drop_bytes 2 s)) "statement_timeout=")
  || has_prefix s "--statement_timeout=".
(** [statementTimeoutRegex]; [start]: white space or nothing is before. *)
Fixpoint sets_timeout (start : bool) (s : string) : bool :=
  (start && directive_here s) || match s with String c t => sets_timeout (re_space c) t | EmptyString => false end.

Section Database.
(** net/url: an address with its query, and the address of another query. *)
Context {U : Type} (Parse : string -> option (U * query)) (render : U -> query -> string).
Context (parse_render : forall s u q q', Parse s = Some (u, q) -> (forall k, q' !! k <> Some []) ->
           Parse (render u q') = Some (u, q')).
Context (parsed_values : forall s u q k, Parse s = Some (u, q) -> q !! k <> Some []).

(** [url.Values.Get] *)
Definition q_Get (q : query) (key : string) : string := default "" (head (default [] (q !! key))).

Definition directive (ms : Z) : string := "-c statement_timeout=" +:+ itoa ms.
Definition injectStatementTimeout (databaseURL : string) (statementTimeoutMs : Z) : string :=
  if statementTimeoutMs <=? 0 then databaseURL
  else match Parse databaseURL with
       | None => databaseURL
       | Some (parsed, q) =>
           let existing := q_Get q "options" in
           if sets_timeout true existing then databaseURL
           else let merged := if is_empty existing then directive statementTimeoutMs
                              else existing +:+ " " +:+ directive statementTimeoutMs in
                render parsed (q_Set q "options" merged)
       end.

Lemma directive_sets ms : sets_timeout true (directive ms) = true.
Proof.
  assert (directive_here (directive ms) = true) as H.
  { unfold directive_here. apply orb_true_intro. left. apply andb_true_intro. split; [reflexivity|].
    change (skip_spaces (drop_bytes 2 (directive ms))) with ("statement_timeout=" +:+ itoa ms). apply prefix_app. }
  destruct (directive ms) as [|c t]; [done|]. cbn [sets_timeout]. by rewrite H.
Qed.

Lemma sets_timeout_start s : sets_timeout false s = true -> sets_timeout true s = true.
Proof. destruct s as [|c s]; [done|]. cbn [sets_timeout andb orb]. intros ->. by rewrite orb_true_r. Qed.

Lemma sets_timeout_app s t b : sets_timeout true t = true -> sets_timeout b (s +:+ " " +:+ t) = true.
Proof.
  intros Ht. revert b. induction s as [|c s IH]; intros b.
  - change ("" +:+ " " +:+ t) with (String " " t). cbn [sets_timeout]. change (re_space " ") with true. by rewrite Ht, orb_true_r.
  - rewrite app_cons_str. cbn [sets_timeout]. by rewrite IH, orb_true_r.
Qed.

(** With a limit, the address that the pool uses sets one for every connection: the
    operator's where the options of the address set one in a form that is recognized,
    ours otherwise, appended to the options; nothing else of the address changes, and
    doing it again changes nothing. *)
Theorem timeout_injected databaseURL ms u q : 0 < ms -> Parse databaseURL = Some (u, q) ->
  let url := injectStatementTimeout databaseURL ms in
  exists q', Parse url = Some (u, q') /\ sets_timeout true (q_Get q' "options") = true /\
    (forall k, k <> "options" -> q' !! k = q !! k) /\
    (if sets_timeout true (q_Get q "options") then url = databaseURL
     else q_Get q' "options" = (if is_empty (q_Get q "options") then "" else q_Get q "options" +:+ " ") +:+ directive ms) /\
    injectStatementTimeout url ms = url.
Proof.
  intros Hms Hp. cbn zeta.
  assert (forall url q', Parse url = Some (u, q') -> sets_timeout true (q_Get q' "options") = true ->
    injectStatementTimeout url ms = url) as Hagain.
  { intros url q' H1 H2. unfold injectStatementTimeout. destruct (Z.leb_spec ms 0); [done|]. by rewrite H1, H2. }
  remember (injectStatementTimeout databaseURL ms) as url eqn:Hi. unfold injectStatementTimeout in Hi.
  rewrite (proj2 (Z.leb_gt ms 0)), Hp in Hi by done. cbn zeta in Hi.
  destruct (sets_timeout true (q_Get q "options")) eqn:Hs; subst url.
  - exists q. split_and!; try done. by eapply Hagain.
  - set (merged := if is_empty (q_Get q "options") then _ else _).
    assert (q_Get (q_Set q "options" merged) "options" = merged) as Hget by (unfold q_Get, q_Set; by rewrite lookup_insert_eq).
    assert (Parse (render u (q_Set q "options" merged)) = Some (u, q_Set q "options" merged)) as Hr.
    { eapply parse_render; [done|]. intros k. unfold q_Set. destruct (decide (k = "options")) as [->|Hk].
      - by rewrite lookup_insert_eq.
      - rewrite lookup_insert_ne by done. by eapply parsed_values. }
    assert (sets_timeout true merged = true) as Hm.
    { subst merged. destruct (is_empty _); [|apply sets_timeout_app]; apply directive_sets. }
    exists (q_Set q "options" merged). rewrite Hget. split_and!; [done|done| | |].
    + intros k Hk. unfold q_Set. by rewrite lookup_insert_ne.
    + subst merged. destruct (is_empty _); [done|]. by rewrite app_assoc_str.
    + eapply Hagain; [done|]. by rewrite Hget.
Qed.
End Database.

Section Connect.
Context `{Lower}.

Definition isPostgresURL (databaseURL : string) : bool :=
  let lower := ToLower databaseURL in has_prefix lower "postgres://" || has_prefix lower "postgresql://".

Inductive connect_error := EScheme (shown : string) | EConnection (message : string).

(** [NewExecutor] with the address that the pool uses; [opens]: it can be parsed by the
    driver, opened and reached. *)
Definition NewExecutor {U} (Parse : string -> option (U * query)) (render : U -> query -> string) (opens : string -> option string)
    (databaseURL : string) (ms : Z) : result connect_error string :=
  let url := injectStatementTimeout Parse render databaseURL ms in
  match opens url with None => Ok url | Some message => Err (EConnection message) end.
Definition ConnectDatabase {U} (Parse : string -> option (U * query)) (render : U -> query -> string) (opens : string -> option string)
    (databaseURL : string) (ms : Z) : result connect_error string :=
  if negb (isPostgresURL databaseURL) then Err (EScheme (RedactPassword databaseURL))
  else NewExecutor Parse render opens databaseURL ms.
End Connect.

(** ** Parameters and errors of statements *)

Inductive Value :=
| TextValue (s : string) | IntValue (n : Z) | FloatValue (f : string) | BoolValue (b : bool) | NullValue
| BlobValue (bytes : string) | TimestamptzValue (s : string).
Inductive arg := AText (s : string) | AInt (n : Z) | AFloat (f : string) | ABool (b : bool) | ANil | ABytes (bytes : string).
Definition convertParam (param : Value) : arg :=
  match param with
  | TextValue v | TimestamptzValue v => AText v
  | IntValue v => AInt v | FloatValue v => AFloat v | BoolValue v => ABool v
  | NullValue => ANil | BlobValue v => ABytes v
  end.
(** A float is the text of its digits. [None] is a nil slice. *)
Definition convertParams (params : list Value) : option (list arg) :=
  match params with [] => None | _ => Some (convertParam <$> params) end.

Inductive DbError := ConstraintError | QueryError (message : string) | ErrNoRows.
Definition exec_error (text : string) : DbError :=
  if contains text "unique constraint" || contains text "foreign key constraint" then ConstraintError
  else QueryError "failed to execute statement".
Definition query_row_error (no_rows : bool) : DbError := if no_rows then ErrNoRows else QueryError "failed to scan row".

(** ** The settings at the start *)

(** [reads], [up]: the database answers the read of the administrators, and takes writes. *)
Definition init_admins (cfg : Config.Config) (reads up : bool) (s : store) : store :=
  if is_empty (AdminDIDs cfg) then s
  else match (if reads then GetAdminDIDs s else []) with
       | [] => match Set_ up s "admin_dids" (AdminDIDs cfg) with Ok s' => s' | Err _ => s end
       | _ => s
       end.
Definition init_settings (cfg : Config.Config) (reads up : bool) (s : store) : store :=
  let s1 := match InitializeDefaults up s with Ok s1 => s1 | Err _ => s end in
  init_admins cfg reads up s1.

Lemma init_defaults_keeps up l : forall s s' k v, init_defaults up l s = Ok s' -> s !! k = Some v -> s' !! k = Some v.
Proof.
  induction l as [|[key d] l IH]; intros s s' k v; cbn [init_defaults]; [by intros [= <-]|].
  unfold Get. destruct (s !! key) eqn:Hk; [by apply IH|]. unfold Set_. destruct up; [|done]. cbn. intros Hi Hs.
  apply (IH _ _ _ _ Hi). destruct (decide (key = k)) as [->|]; [by rewrite Hk in Hs|by rewrite lookup_insert_ne].
Qed.
Lemma init_defaults_other up l : forall s s' k, init_defaults up l s = Ok s' -> k ∉ l.*1 -> s' !! k = s !! k.
Proof.
  induction l as [|[key d] l IH]; intros s s' k; cbn [init_defaults fmap list_fmap]; [by intros [= <-]|].
  intros Hi Hk. apply not_elem_of_cons in Hk as [Hk Hl]. unfold Get in Hi.
  destruct (s !! key); [by apply (IH _ _ _ Hi)|]. unfold Set_ in Hi. destruct up; [|done]. cbn in Hi.
  rewrite (IH _ _ _ Hi Hl). by apply lookup_insert_ne.
Qed.

(** A start keeps every setting there is; the administrators of the environment
    enter an empty list only, when the list can be read and written. *)
Theorem start_keeps_settings cfg up s :
  (forall k v, k <> "admin_dids" -> s !! k = Some v -> init_settings cfg true up s !! k = Some v) /\
  (GetAdminDIDs s <> [] -> GetAdminDIDs (init_settings cfg true up s) = GetAdminDIDs s) /\
  (GetAdminDIDs s = [] -> AdminDIDs cfg <> "" -> up = true ->
     GetAdminDIDs (init_settings cfg true up s) = trimmed_pieces (AdminDIDs cfg) ",").
Proof.
  unfold init_settings. set (s1 := match InitializeDefaults up s with Ok s1 => s1 | Err _ => s end).
  assert (forall k v, s !! k = Some v -> s1 !! k = Some v) as Hk.
  { subst s1. intros k v. destruct (InitializeDefaults up s) eqn:Hi; [|done]. by apply (init_defaults_keeps _ _ _ _ _ _ Hi). }
  assert (GetAdminDIDs s1 = GetAdminDIDs s) as Ha.
  { subst s1. destruct (InitializeDefaults up s) eqn:Hi; [|done]. unfold GetAdminDIDs, Get.
    rewrite (init_defaults_other _ _ _ _ _ Hi); [done|]. intros Hin%list_elem_of_In. cbn in Hin.
    by repeat destruct Hin as [Hin|Hin]. }
  unfold init_admins. split_and!.
  - intros k v Hne Hs. apply Hk in Hs. destruct (is_empty _); [done|]. destruct (GetAdminDIDs s1); [|done].
    unfold Set_. destruct up; [|done]. by rewrite lookup_insert_ne.
  - intros Hne. destruct (is_empty _); [done|]. rewrite Ha. by destruct (GetAdminDIDs s).
  - intros Hn He ->. destruct (AdminDIDs cfg) as [|c t] eqn:Hc; [done|]. cbn [is_empty]. rewrite Ha, Hn. cbn.
    unfold GetAdminDIDs, Get. by rewrite lookup_insert_eq.
Qed.

(** ** The consumer that is started *)

Inductive source :=
| SourceTap (url : string) (disableAcks : bool) (maxRetries : Z)
| SourceJetstream (url : string) (collections : list string) (disableCursor : bool)
| NoSource.

Definition js_url (cfg : Config.Config) : string :=
  if is_empty (JetstreamURL cfg) then DefaultJetstreamURL else JetstreamURL cfg.
Definition start_source (cfg : Config.Config) (collections : list string) : source :=
  if TapEnabled cfg then SourceTap (TapURL cfg) (TapDisableAcks cfg) (TapMaxRetries cfg)
  else match collections with [] => NoSource | _ => SourceJetstream (js_url cfg) collections (JetstreamDisableCursor cfg) end.

Definition tap_filter (cfg : Config.Config) : option (gmap string bool) :=
  if TapEnabled cfg
  then match SplitCSV (TapCollectionFilters cfg) with [] => None | cols => Some (list_to_map ((fun c => (c, true)) <$> cols)) end
  else None.
(** [hook] is that of the notification service. *)
Definition processor (cfg : Config.Config) (validator : Registry.Registry * Validator.unmarshaller) (hook : RecordHook)
  : RecordProcessor :=
  {| has_activity := true; Validator_ := Some validator; ValMode := ValidationMode cfg; AllowedCollections := tap_filter cfg;
     Hook := if NotificationsEnabled cfg then Some hook else None; has_didcache := true |}.

Lemma list_to_map_true (cols : list string) c :
  default false ((list_to_map ((fun c => (c, true)) <$> cols) : gmap string bool) !! c) = true <-> c ∈ cols.
Proof.
  induction cols as [|d cols IH]; [by split; [|intros ?%elem_of_nil]|]. rewrite fmap_cons, list_to_map_cons. cbn [fst snd].
  rewrite elem_of_cons. destruct (decide (d = c)) as [->|Hn].
  - rewrite lookup_insert_eq. split; [by left|done].
  - rewrite lookup_insert_ne, <-IH by done. cbn. intuition congruence.
Qed.

(** With Tap exactly the collections of its filter are processed, or all without
    one; what Jetstream delivers is never filtered again. *)
Theorem filter_meaning cfg validator hook op :
  allowed (processor cfg validator hook) op = true <->
  (TapEnabled cfg = true -> SplitCSV (TapCollectionFilters cfg) = [] \/ Collection op ∈ SplitCSV (TapCollectionFilters cfg)).
Proof.
  unfold allowed, processor, tap_filter. cbn [AllowedCollections].
  destruct (TapEnabled cfg); [|by split]. destruct (SplitCSV (TapCollectionFilters cfg)) as [|c cols] eqn:Hs.
  - split; [by left|done].
  - rewrite list_to_map_true. split; [by right|intros [[=]|?]; done].
Qed.

(** ** The callback for changed lexicons, in concurrent requests *)

(** The consumers there are with their collections, and which of them [bg.jsConsumer]
    is: the one that [Stop] stops. *)
Record consumers := { made : list (list string); js : option nat }.
(** A call of the callback: before its check, about to make a consumer, about to update
    one, or returned. *)
Inductive callback := Called (collections : list string) | Making (collections : list string)
  | Updating (k : nat) (collections : list string) | Returned.

Definition callback_step (c : callback) (w : consumers) : callback * consumers :=
  match c with
  | Called cols => (match js w with None => Making cols | Some k => Updating k cols end, w)
  | Making cols => (Returned, {| made := made w ++ [cols]; js := Some (length (made w)) |})
  | Updating k cols => (Returned, {| made := <[k := cols]> (made w); js := js w |})
  | Returned => (Returned, w)
  end.
Definition world : Type := list callback * consumers.
Definition step_at (i : nat) (w : world) : world :=
  match w.1 !! i with None => w | Some c => let '(c', s) := callback_step c w.2 in (<[i := c']> w.1, s) end.
Definition schedule (turns : list nat) (w : world) : world := foldl (fun w i => step_at i w) w turns.

Definition start_consumers (src : source) : consumers :=
  match src with SourceJetstream _ cols _ => {| made := [cols]; js := Some 0%nat |} | _ => {| made := []; js := None |} end.
(** Calls that run one after the other. *)
Definition serve_call (s : consumers) (cols : list string) : consumers :=
  let '(c, s) := callback_step (Called cols) s in (callback_step c s).2.

Definition single (s : consumers) : Prop :=
  (made s = [] /\ js s = None) \/ exists cols, made s = [cols] /\ js s = Some 0%nat.

Lemma start_single src : single (start_consumers src).
Proof. destruct src; [by left| |by left]. right. by eexists. Qed.
Lemma serve_single s cols : single s -> serve_call s cols = {| made := [cols]; js := Some 0%nat |}.
Proof. intros [[Hm Hj]|(c & Hm & Hj)]; unfold serve_call; cbn; rewrite Hj; cbn; rewrite Hm, ?Hj; done. Qed.

(** Calls that do not overlap leave at most one consumer, the one that a shutdown
    stops, with the collections of the last call. *)
Theorem calls_in_turn src calls : let s := foldl serve_call (start_consumers src) calls in
  single s /\ forall cols, last calls = Some cols -> made s = [cols].
Proof.
  cbn zeta. induction calls as [|cols calls IH] using rev_ind; [split; [apply start_single|done]|].
  rewrite foldl_app. cbn [foldl]. rewrite serve_single by apply IH. split; [right; by eexists|].
  rewrite last_snoc. by intros ? [= ->].
Qed.

Module Example_startup.

(** Two requests find no consumer and make one each: the second takes the place of the
    first, which nothing stops any more, and each event is processed twice. *)
Example two_consumers : schedule [0; 1; 0; 1]%nat ([Called ["a"]; Called ["a"; "b"]], start_consumers NoSource)
  = ([Returned; Returned], {| made := [["a"]; ["a"; "b"]]; js := Some 1%nat |}).
Proof. reflexivity. Qed.

(** Addresses that are nothing but a query, written in binary. *)
Fixpoint bits (p : positive) : string :=
  match p with xH => "" | xO p => String "0" (bits p) | xI p => String "1" (bits p) end.
Fixpoint number (s : string) : positive :=
  match s with EmptyString => xH | String c s => if Ascii.eqb c "0" then xO (number s) else xI (number s) end.
Lemma number_bits p : number (bits p) = p.
Proof. induction p as [p IH|p IH|]; cbn; by rewrite ?IH. Defined.
Definition render (_ : unit) (q : query) : string := bits (encode q).
Definition parse (s : string) : option (unit * query) :=
  q ← decode (number s); if decide (map_Forall (fun _ l => l <> []) q) then Some (tt, q) else None.
Lemma parsed_values s u q k : parse s = Some (u, q) -> q !! k <> Some [].
Proof.
  unfold parse. destruct (decode (number s)) as [q'|]; [|done]. cbn. destruct (decide _) as [Hq|]; [|done].
  intros [= _ <-] Hk. by apply (Hq k [] Hk).
Defined.
Lemma parse_render s u q q' : parse s = Some (u, q) -> (forall k, q' !! k <> Some []) -> parse (render u q') = Some (u, q').
Proof.
  intros _ Hq. unfold parse, render. rewrite number_bits, decode_encode. cbn.
  rewrite decide_True; [by destruct u|]. intros k l Hl ->. by apply (Hq k).
Defined.
Definition given : query := {[ "options" := ["-c geqo=off"]; "sslmode" := ["disable"] ]}.
Lemma timeout_injected_witness :
  let url := injectStatementTimeout parse render (render tt given) 30000 in
  exists q', parse url = Some (tt, q') /\ sets_timeout true (q_Get q' "options") = true /\
    (forall k, k <> "options" -> q' !! k = given !! k) /\
    (if sets_timeout true (q_Get given "options") then url = render tt given
     else q_Get q' "options" = (if is_empty (q_Get given "options") then "" else q_Get given "options" +:+ " ") +:+ directive 30000) /\
    injectStatementTimeout parse render url 30000 = url.
Proof.
  apply (timeout_injected parse render parse_render parsed_values (render tt given) 30000 tt given); [reflexivity|].
  unfold parse, render. rewrite number_bits, decode_encode. cbn [mbind option_bind]. rewrite decide_True; [reflexivity|].
  intros k l Hl ->. unfold given in Hl. apply lookup_insert_Some in Hl as [[_ Hl]|[_ Hl]]; [done|].
  apply lookup_singleton_Some in Hl as [_ Hl]. done.
Defined.

(** Forms that PostgreSQL accepts as well are not recognized: names in capitals, and long
    options with hyphens; ours is appended and wins. *)
Example spellings : sets_timeout true "-c STATEMENT_TIMEOUT=1000" = false /\
  sets_timeout true "--statement-timeout=1000" = false /\
  sets_timeout true "-c statement_timeout=1000" = true /\ sets_timeout true "-cstatement_timeout=1" = true /\
  sets_timeout true "-c geqo=off --statement_timeout=1" = true /\
  sets_timeout true "-c idle_in_transaction_session_timeout=1" = false.
Proof. by vm_compute. Qed.

(** A start that cannot read the list of administrators takes it for empty and replaces
    it by that of the environment. *)
Example admins_replaced cfg s : AdminDIDs cfg = "did:plc:env" -> s !! "admin_dids" = Some "did:plc:root" ->
  GetAdminDIDs (init_settings cfg false true s) = ["did:plc:env"].
Proof.
  intros Hc Hs. unfold init_settings, init_admins. rewrite Hc. cbn [is_empty Set_].
  unfold GetAdminDIDs, Get. by rewrite lookup_insert_eq.
Qed.

End Example_startup.
