(* ===== verification/OAuthRows.v ===== *)
(** The rows of the OAuth tables: how the repositories under
    [internal/database/repositories/oauth_*.go] write a record into the columns of its
    table and read it back, against the columns that the migrations declare. The records
    are those of [TokenEndpoint] and [Authorize], whose tables hold records as they are;
    the theorems say that this is what the rows amount to. *)
From S2P Require Import Prelude GoStrings Utf8 Startup TokenEndpoint Authorize.

Local Open Scope Z_scope.

(** ** Columns and rows *)

Inductive coltype := TText | TInteger | TBigint | TBoolean | TJsonb.
Record column := { c_type : coltype; c_not_null : bool }.
Definition table : Type := list (string * column).
Definition nn (t : coltype) : column := {| c_type := t; c_not_null := true |}.
Definition nullable (t : coltype) : column := {| c_type := t; c_not_null := false |}.

(** What PostgreSQL stores in a text column. *)
Definition text_ok (s : string) : bool := ValidString s && lacks (ascii_of_nat 0) s.
Definition fits32 (n : Z) : bool := (-2147483648 <=? n) && (n <=? 2147483647).
Definition fits64 (n : Z) : bool := (-9223372036854775808 <=? n) && (n <=? 9223372036854775807).

(** The values of a row by their columns. *)
Notation row := (gmap string arg).

(** [jsonb::text] of a text that can be cast. *)
Section Rows.
Context (canonical : string -> option string).

Definition store_value (c : column) (a : arg) : option arg :=
  match c_type c, a with
  | _, ANil => if c_not_null c then None else Some ANil
  | TText, AText s => if text_ok s then Some a else None
  | TJsonb, AText s => AText <$> canonical s
  | TInteger, AInt n => if fits32 n then Some a else None
  | TBigint, AInt n => if fits64 n then Some a else None
  | TBoolean, ABool _ => Some a
  | _, _ => None
  end.

(** The values of the named columns, each stored in its column; [None] is an error of
    the statement. *)
Definition stored (t : table) (cols : list string) (params : list Value) : option (list (string * arg)) :=
  mapM (fun p => c ← (list_to_map t : gmap string column) !! p.1; a ← store_value c (convertParam p.2); Some (p.1, a))
       (zip cols params).
Definition insert_row (t : table) (cols : list string) (params : list Value) : option row :=
  list_to_map <$> stored t cols params.
Definition update_row (t : table) (cols : list string) (params : list Value) (r : row) : option row :=
  (fun l => foldr (fun p r => <[p.1 := p.2]> r) r l) <$> stored t cols params.
Definition select (cols : list string) (r : row) : list arg := (fun c => default ANil (r !! c)) <$> cols.

Lemma stored_names t cols : forall params l, stored t cols params = Some l -> length cols = length params -> l.*1 = cols.
Proof.
  unfold stored. induction cols as [|c cols IH]; intros [|v params] l; cbn; try done; [by intros [= <-]|].
  destruct (_ !! c) as [ct|]; [|done]. cbn. destruct (store_value ct (convertParam v)) as [a|]; [|done]. cbn.
  destruct (mapM _ _) as [l'|] eqn:Hm; [|done]. cbn. intros [= <-] [= Hl]. cbn. by rewrite (IH params l' Hm Hl).
Qed.

Lemma select_names (l : list (string * arg)) : NoDup l.*1 -> select l.*1 (list_to_map l) = l.*2.
Proof.
  intros Hn. unfold select. assert (forall l', (forall p, p ∈ l' -> p ∈ l) -> (fun c => default ANil ((list_to_map l : gmap string arg) !! c)) <$> l'.*1 = l'.*2) as H; [|by apply H].
  induction l' as [|[c a] l' IH]; intros Hin; [done|]. cbn. rewrite IH by (intros p Hp; apply Hin; by right). f_equal.
  assert ((list_to_map l : gmap string arg) !! c = Some a) as -> by (apply elem_of_list_to_map_1; [done|]; apply Hin; by left). done.
Qed.

(** What is read from the columns of an inserted row. *)
Lemma insert_select t cols params r : insert_row t cols params = Some r -> NoDup cols -> length cols = length params ->
  exists l, stored t cols params = Some l /\ select cols r = l.*2.
Proof.
  unfold insert_row. destruct (stored t cols params) as [l|] eqn:Hs; [|done]. intros [= <-] Hn Hl. exists l. split; [done|].
  pose proof (stored_names _ _ _ _ Hs Hl) as Hc. rewrite <-Hc. apply select_names. by rewrite Hc.
Qed.

Lemma store_value_plain c a b : c_type c <> TJsonb -> store_value c a = Some b -> b = a.
Proof. unfold store_value. intros Hc. by repeat case_match; intros; simplify_eq. Qed.

Definition plain (t : table) : bool := forallb (fun p => match c_type p.2 with TJsonb => false | _ => true end) t.
Lemma stored_plain t cols : plain t = true -> forall params l, stored t cols params = Some l -> length cols = length params ->
  l.*2 = convertParam <$> params.
Proof.
  intros Hp. unfold stored. induction cols as [|c cols IH]; intros [|v params] l; cbn; try done; [by intros [= <-]|].
  destruct (_ !! c) as [ct|] eqn:Hc; [|done]. cbn. destruct (store_value ct (convertParam v)) as [a|] eqn:Ha; [|done]. cbn.
  destruct (mapM _ _) as [l'|] eqn:Hm; [|done]. cbn. intros [= <-] [= Hl]. cbn. rewrite (IH params l' Hm Hl). f_equal.
  apply (store_value_plain ct); [|done]. apply elem_of_list_to_map_2, list_elem_of_In in Hc.
  unfold plain in Hp. rewrite forallb_forall in Hp. specialize (Hp _ Hc). cbn in Hp. by destruct (c_type ct).
Qed.

Lemma plain_read t cols params r : plain t = true -> insert_row t cols params = Some r -> NoDup cols ->
  length cols = length params -> select cols r = convertParam <$> params.
Proof.
  intros Hp Hi Hn Hl. destruct (insert_select _ _ _ _ Hi Hn Hl) as (l & Hs & ->). by apply (stored_plain t cols).
Qed.
End Rows.

(** ** Scanning *)

(** A scan consumes the values from the left; [None] is an error. *)
Definition scanner (A : Type) : Type := list arg -> option (A * list arg).
#[export] Instance scanner_ret : MRet scanner := fun A a l => Some (a, l).
#[export] Instance scanner_bind : MBind scanner := fun A B f s l => match s l with Some (a, l') => f a l' | None => None end.

Definition text : scanner string := fun l => match l with AText s :: l => Some (s, l) | _ => None end.
Definition int : scanner Z := fun l => match l with AInt n :: l => Some (n, l) | _ => None end.
Definition bool_ : scanner bool := fun l => match l with ABool b :: l => Some (b, l) | _ => None end.
Definition null_text : scanner (option string) :=
  fun l => match l with AText s :: l => Some (Some s, l) | ANil :: l => Some (None, l) | _ => None end.
Definition null_int : scanner (option Z) :=
  fun l => match l with AInt n :: l => Some (Some n, l) | ANil :: l => Some (None, l) | _ => None end.
(** As many destinations as columns. *)
Definition Scan {A} (s : scanner A) (l : list arg) : option A := match s l with Some (a, []) => Some a | _ => None end.

Definition NullableText (s : option string) : Value := match s with Some s => TextValue s | None => NullValue end.
Definition NullableInt (n : option Z) : Value := match n with Some n => IntValue n | None => NullValue end.
Definition nilIfEmpty (s : string) : option string := if is_empty s then None else Some s.

Section Steps.
Context {A : Type}.
Lemma bind_text (k : string -> scanner A) s l : (text ≫= k) (convertParam (TextValue s) :: l) = k s l.
Proof. done. Qed.
Lemma bind_int (k : Z -> scanner A) n l : (int ≫= k) (convertParam (IntValue n) :: l) = k n l.
Proof. done. Qed.
Lemma bind_bool (k : bool -> scanner A) b l : (bool_ ≫= k) (convertParam (BoolValue b) :: l) = k b l.
Proof. done. Qed.
Lemma bind_null_text (k : option string -> scanner A) o l : (null_text ≫= k) (convertParam (NullableText o) :: l) = k o l.
Proof. by destruct o. Qed.
Lemma bind_null_int (k : option Z -> scanner A) o l : (null_int ≫= k) (convertParam (NullableInt o) :: l) = k o l.
Proof. by destruct o. Qed.
Lemma bind_some_int (k : option Z -> scanner A) n l : (null_int ≫= k) (convertParam (IntValue n) :: l) = k (Some n) l.
Proof. done. Qed.
End Steps.
Create HintDb scans.
#[export] Hint Rewrite @bind_text @bind_int @bind_bool @bind_null_text @bind_null_int @bind_some_int @fmap_cons : scans.

(** Reading back plain columns: the table has them, and the scan of what was written
    gives the record. *)
Ltac read_back H :=
  apply plain_read in H; [rewrite H|vm_compute; reflexivity|eapply bool_decide_eq_true_1; vm_compute; reflexivity|reflexivity];
  unfold Scan; autorewrite with scans; try reflexivity.

(** ** The tables and their records *)

Definition access_table : table :=
  [("token", nn TText); ("token_type", nn TText); ("client_id", nn TText); ("user_id", nullable TText);
   ("session_id", nullable TText); ("session_iteration", nullable TInteger); ("scope", nullable TText);
   ("created_at", nn TBigint); ("expires_at", nn TBigint); ("revoked", nn TBoolean); ("dpop_jkt", nullable TText)].
Definition refresh_table : table :=
  [("token", nn TText); ("access_token", nn TText); ("client_id", nn TText); ("user_id", nn TText);
   ("session_id", nullable TText); ("session_iteration", nullable TInteger); ("scope", nullable TText);
   ("created_at", nn TBigint); ("expires_at", nullable TBigint); ("revoked", nn TBoolean); ("dpop_jkt", nullable TText);
   ("original_issued_at", nullable TBigint)].
Definition auth_request_table : table :=
  [("session_id", nn TText); ("client_id", nn TText); ("redirect_uri", nn TText); ("scope", nullable TText);
   ("state", nullable TText); ("code_challenge", nullable TText); ("code_challenge_method", nullable TText);
   ("response_type", nn TText); ("nonce", nullable TText); ("login_hint", nullable TText); ("created_at", nn TBigint);
   ("expires_at", nn TBigint)].
Definition atp_request_table : table :=
  [("oauth_state", nn TText); ("authorization_server", nn TText); ("nonce", nn TText); ("pkce_verifier", nn TText);
   ("signing_public_key", nn TText); ("dpop_private_key", nn TText); ("created_at", nn TBigint); ("expires_at", nn TBigint)].
Definition session_table : table :=
  [("session_id", nn TText); ("iteration", nn TInteger); ("did", nullable TText); ("session_created_at", nn TBigint);
   ("atp_oauth_state", nn TText); ("signing_key_jkt", nn TText); ("dpop_key", nn TText); ("access_token", nullable TText);
   ("refresh_token", nullable TText); ("access_token_created_at", nullable TBigint);
   ("access_token_expires_at", nullable TBigint); ("access_token_scopes", nullable TText);
   ("session_exchanged_at", nullable TBigint); ("exchange_error", nullable TText)].
Definition code_table : table :=
  [("code", nn TText); ("client_id", nn TText); ("user_id", nn TText); ("session_id", nullable TText);
   ("session_iteration", nullable TInteger); ("redirect_uri", nn TText); ("scope", nullable TText);
   ("code_challenge", nullable TText); ("code_challenge_method", nullable TText); ("nonce", nullable TText);
   ("created_at", nn TBigint); ("expires_at", nn TBigint); ("used", nn TBoolean)].
Definition client_table : table :=
  [("client_id", nn TText); ("client_secret", nullable TText); ("client_name", nn TText); ("redirect_uris", nn TText);
   ("grant_types", nn TText); ("response_types", nn TText); ("scope", nullable TText);
   ("token_endpoint_auth_method", nn TText); ("client_type", nn TText); ("created_at", nn TBigint);
   ("updated_at", nn TBigint); ("metadata", nn TJsonb); ("access_token_expiration", nn TInteger);
   ("refresh_token_expiration", nn TInteger); ("require_redirect_exact", nn TBoolean);
   ("registration_access_token", nullable TText); ("jwks", nullable TJsonb)].

Section Records.
Context (canonical : string -> option string).

(** *** Access tokens; [iteration] is the field that no handler sets *)

Definition access_insert (t : AccessToken) (iteration : option Z) : option row :=
  insert_row canonical access_table
    ["token"; "token_type"; "client_id"; "user_id"; "session_id"; "session_iteration"; "scope"; "created_at"; "expires_at";
     "revoked"; "dpop_jkt"]
    [TextValue (at_Token t); TextValue (TokenType t); TextValue (at_ClientID t); NullableText (at_UserID t);
     NullableText (at_SessionID t); NullableInt iteration; NullableText (at_Scope t); IntValue (at_CreatedAt t);
     IntValue (at_ExpiresAt t); BoolValue (at_Revoked t); NullableText (at_DPoPJKT t)].
Definition scanAccessToken : scanner (AccessToken * option Z) :=
  token ← text; tokenType ← text; clientID ← text; userID ← null_text; sessionID ← null_text; iteration ← null_int;
  scope ← null_text; createdAt ← int; expiresAt ← int; revoked ← bool_; dpopJKT ← null_text;
  mret ({| at_Token := token; TokenType := tokenType; at_ClientID := clientID; at_UserID := userID;
           at_SessionID := sessionID; at_Scope := scope; at_CreatedAt := createdAt; at_ExpiresAt := expiresAt;
           at_Revoked := revoked; at_DPoPJKT := dpopJKT |}, iteration).
Definition access_read (r : row) : option (AccessToken * option Z) :=
  Scan scanAccessToken (select
    ["token"; "token_type"; "client_id"; "user_id"; "session_id"; "session_iteration"; "scope"; "created_at"; "expires_at";
     "revoked"; "dpop_jkt"] r).

(** *** Refresh tokens *)

Definition refreshTokenColumns : list string :=
  ["token"; "access_token"; "client_id"; "user_id"; "session_id"; "session_iteration"; "scope"; "created_at"; "expires_at";
   "revoked"; "dpop_jkt"; "original_issued_at"].
Definition refresh_insert (t : RefreshToken) (iteration : option Z) : option row :=
  let originalIssuedAt := if OriginalIssuedAt t =? 0 then rt_CreatedAt t else OriginalIssuedAt t in
  insert_row canonical refresh_table
    ["token"; "access_token"; "client_id"; "user_id"; "session_id"; "session_iteration"; "scope"; "created_at"; "expires_at";
     "revoked"; "dpop_jkt"; "original_issued_at"]
    [TextValue (rt_Token t); TextValue (rt_AccessToken t); TextValue (rt_ClientID t); TextValue (rt_UserID t);
     NullableText (rt_SessionID t); NullableInt iteration; NullableText (rt_Scope t); IntValue (rt_CreatedAt t);
     NullableInt (rt_ExpiresAt t); BoolValue (rt_Revoked t); NullableText (nilIfEmpty (DPoPJKT t)); IntValue originalIssuedAt].
Definition scanRefreshTokenRow : scanner (RefreshToken * option Z) :=
  token ← text; accessToken ← text; clientID ← text; userID ← text; sessionID ← null_text; iteration ← null_int;
  scope ← null_text; createdAt ← int; expiresAt ← null_int; revoked ← bool_; dpopJKT ← null_text; originalIssuedAt ← null_int;
  mret ({| rt_Token := token; rt_AccessToken := accessToken; rt_ClientID := clientID; rt_UserID := userID;
           rt_SessionID := sessionID; rt_Scope := scope; rt_CreatedAt := createdAt; rt_ExpiresAt := expiresAt;
           rt_Revoked := revoked; DPoPJKT := default "" dpopJKT; OriginalIssuedAt := default createdAt originalIssuedAt |},
        iteration).
Definition refresh_read (r : row) : option (RefreshToken * option Z) := Scan scanRefreshTokenRow (select refreshTokenColumns r).

(** *** Requests for authorization, here and upstream *)

Definition auth_request_insert (q : AuthRequest) : option row :=
  insert_row canonical auth_request_table
    ["session_id"; "client_id"; "redirect_uri"; "scope"; "state"; "code_challenge"; "code_challenge_method"; "response_type";
     "nonce"; "login_hint"; "created_at"; "expires_at"]
    [TextValue (SessionID q); TextValue (a_ClientID q); TextValue (a_RedirectURI q); NullableText (a_Scope q);
     NullableText (State q); NullableText (a_CodeChallenge q); NullableText (a_CodeChallengeMethod q);
     TextValue (ResponseType q); NullableText (a_Nonce q); NullableText (LoginHint q); IntValue (a_CreatedAt q);
     IntValue (a_ExpiresAt q)].
Definition scan_auth_request : scanner AuthRequest :=
  sessionID ← text; clientID ← text; redirectURI ← text; scope ← null_text; state ← null_text; codeChallenge ← null_text;
  codeChallengeMethod ← null_text; responseType ← text; nonce ← null_text; loginHint ← null_text; createdAt ← int;
  expiresAt ← int;
  mret {| SessionID := sessionID; a_ClientID := clientID; a_RedirectURI := redirectURI; a_Scope := scope; State := state;
          a_CodeChallenge := codeChallenge; a_CodeChallengeMethod := codeChallengeMethod; ResponseType := responseType;
          a_Nonce := nonce; LoginHint := loginHint; a_CreatedAt := createdAt; a_ExpiresAt := expiresAt |}.
Definition auth_request_read (r : row) : option AuthRequest :=
  Scan scan_auth_request (select
    ["session_id"; "client_id"; "redirect_uri"; "scope"; "state"; "code_challenge"; "code_challenge_method"; "response_type";
     "nonce"; "login_hint"; "created_at"; "expires_at"] r).

Definition atp_request_insert (q : ATPRequest) : option row :=
  insert_row canonical atp_request_table
    ["oauth_state"; "authorization_server"; "nonce"; "pkce_verifier"; "signing_public_key"; "dpop_private_key"; "created_at";
     "expires_at"]
    [TextValue (OAuthState q); TextValue (AuthorizationServer q); TextValue (Nonce q); TextValue (PKCEVerifier q);
     TextValue (SigningPublicKey q); TextValue (DPoPPrivateKey q); IntValue (p_CreatedAt q); IntValue (p_ExpiresAt q)].
Definition scan_atp_request : scanner ATPRequest :=
  oauthState ← text; server ← text; nonce ← text; verifier ← text; publicKey ← text; privateKey ← text; createdAt ← int;
  expiresAt ← int;
  mret {| OAuthState := oauthState; AuthorizationServer := server; Nonce := nonce; PKCEVerifier := verifier;
          SigningPublicKey := publicKey; DPoPPrivateKey := privateKey; p_CreatedAt := createdAt; p_ExpiresAt := expiresAt |}.
Definition atp_request_read (r : row) : option ATPRequest :=
  Scan scan_atp_request (select
    ["oauth_state"; "authorization_server"; "nonce"; "pkce_verifier"; "signing_public_key"; "dpop_private_key"; "created_at";
     "expires_at"] r).

(** *** Authorization codes *)

Definition code_insert (c : AuthorizationCode) : option row :=
  insert_row canonical code_table
    ["code"; "client_id"; "user_id"; "session_id"; "session_iteration"; "redirect_uri"; "scope"; "code_challenge";
     "code_challenge_method"; "nonce"; "created_at"; "expires_at"; "used"]
    [TextValue (Code c); TextValue (ac_ClientID c); TextValue (ac_UserID c); NullableText (ac_SessionID c);
     NullableInt (ac_SessionIteration c); TextValue (RedirectURI c); NullableText (ac_Scope c);
     NullableText (CodeChallenge c); NullableText (CodeChallengeMethod c); NullableText (ac_Nonce c);
     IntValue (ac_CreatedAt c); IntValue (ac_ExpiresAt c); BoolValue (Used c)].
Definition scan_code : scanner AuthorizationCode :=
  code ← text; clientID ← text; userID ← text; sessionID ← null_text; iteration ← null_int; redirectURI ← text;
  scope ← null_text; codeChallenge ← null_text; codeChallengeMethod ← null_text; nonce ← null_text; createdAt ← int;
  expiresAt ← int; used ← bool_;
  mret {| Code := code; ac_ClientID := clientID; ac_UserID := userID; ac_SessionID := sessionID;
          ac_SessionIteration := iteration; RedirectURI := redirectURI; ac_Scope := scope; CodeChallenge := codeChallenge;
          CodeChallengeMethod := codeChallengeMethod; ac_Nonce := nonce; ac_CreatedAt := createdAt; ac_ExpiresAt := expiresAt;
          Used := used |}.
Definition code_columns : list string :=
  ["code"; "client_id"; "user_id"; "session_id"; "session_iteration"; "redirect_uri"; "scope"; "code_challenge";
   "code_challenge_method"; "nonce"; "created_at"; "expires_at"; "used"].
Definition code_read (r : row) : option AuthorizationCode := Scan scan_code (select code_columns r).
(** [MarkUsed] and the two [Revoke]s on the row of the key. *)
Definition code_mark_used (r : row) : row := <["used" := ABool true]> r.
Definition revoke_row (r : row) : row := <["revoked" := ABool true]> r.

(** *** Sessions with upstream servers *)

Definition session_columns : list string :=
  ["session_id"; "iteration"; "did"; "session_created_at"; "atp_oauth_state"; "signing_key_jkt"; "dpop_key"; "access_token";
   "refresh_token"; "access_token_created_at"; "access_token_expires_at"; "access_token_scopes"; "session_exchanged_at";
   "exchange_error"].
Definition session_insert (x : ATPSession) : option row :=
  insert_row canonical session_table
    ["session_id"; "iteration"; "did"; "session_created_at"; "atp_oauth_state"; "signing_key_jkt"; "dpop_key"; "access_token";
     "refresh_token"; "access_token_created_at"; "access_token_expires_at"; "access_token_scopes"; "session_exchanged_at";
     "exchange_error"]
    [TextValue (s_SessionID x); IntValue (Iteration x); NullableText (s_DID x); IntValue (SessionCreatedAt x);
     TextValue (ATPOAuthState x); TextValue (SigningKeyJKT x); TextValue (s_DPoPKey x); NullableText (s_AccessToken x);
     NullableText (s_RefreshToken x); NullableInt (AccessTokenCreatedAt x); NullableInt (AccessTokenExpiresAt x);
     NullableText (AccessTokenScopes x); NullableInt (SessionExchangedAt x); NullableText (ExchangeError x)].
Definition scanSession : scanner ATPSession :=
  sessionID ← text; iteration ← int; did ← null_text; createdAt ← int; state ← text; jkt ← text; key ← text;
  accessToken ← null_text; refreshToken ← null_text; accessTokenCreatedAt ← null_int; accessTokenExpiresAt ← null_int;
  scopes ← null_text; exchangedAt ← null_int; exchangeError ← null_text;
  mret {| s_SessionID := sessionID; Iteration := iteration; s_DID := did; SessionCreatedAt := createdAt;
          ATPOAuthState := state; SigningKeyJKT := jkt; s_DPoPKey := key; s_AccessToken := accessToken;
          s_RefreshToken := refreshToken; AccessTokenCreatedAt := accessTokenCreatedAt;
          AccessTokenExpiresAt := accessTokenExpiresAt; AccessTokenScopes := scopes; SessionExchangedAt := exchangedAt;
          ExchangeError := exchangeError |}.
Definition session_read (r : row) : option ATPSession := Scan scanSession (select session_columns r).
Definition session_update (x : ATPSession) (r : row) : option row :=
  update_row canonical session_table
    ["did"; "access_token"; "refresh_token"; "access_token_created_at"; "access_token_expires_at"; "access_token_scopes";
     "session_exchanged_at"; "exchange_error"]
    [NullableText (s_DID x); NullableText (s_AccessToken x); NullableText (s_RefreshToken x);
     NullableInt (AccessTokenCreatedAt x); NullableInt (AccessTokenExpiresAt x); NullableText (AccessTokenScopes x);
     NullableInt (SessionExchangedAt x); NullableText (ExchangeError x)] r.
End Records.

(** ** What is read is what was written *)

Section Back.
Context (canonical : string -> option string).

Lemma access_back t iteration r : access_insert canonical t iteration = Some r -> access_read r = Some (t, iteration).
Proof. unfold access_insert, access_read, scanAccessToken. intros H. read_back H. by destruct t. Qed.
Lemma refresh_back t iteration r : refresh_insert canonical t iteration = Some r ->
  refresh_read r = Some (stored_refresh t, iteration).
Proof.
  unfold refresh_insert, refresh_read, refreshTokenColumns, scanRefreshTokenRow. cbn zeta. intros H. read_back H.
  unfold stored_refresh, nilIfEmpty. destruct t as [? ? ? ? ? ? ? ? ? [|c j] ?]; reflexivity.
Qed.
Lemma auth_request_back q r : auth_request_insert canonical q = Some r -> auth_request_read r = Some q.
Proof. unfold auth_request_insert, auth_request_read, scan_auth_request. intros H. read_back H. by destruct q. Qed.
Lemma atp_request_back q r : atp_request_insert canonical q = Some r -> atp_request_read r = Some q.
Proof. unfold atp_request_insert, atp_request_read, scan_atp_request. intros H. read_back H. by destruct q. Qed.
Lemma code_back c r : code_insert canonical c = Some r -> code_read r = Some c.
Proof. unfold code_insert, code_read, code_columns, scan_code. intros H. read_back H. by destruct c. Qed.
Lemma session_back x r : session_insert canonical x = Some r -> session_read r = Some x.
Proof. unfold session_insert, session_read, session_columns, scanSession. intros H. read_back H. by destruct x. Qed.
End Back.

(** ** Updates *)

Section Inversion.
Context {A : Type}.
Lemma Scan_Some (s : scanner A) l x : Scan s l = Some x <-> s l = Some (x, []).
Proof. unfold Scan. destruct (s l) as [[y [|]]|]; split; congruence. Qed.
Lemma text_inv (k : string -> scanner A) a l y : (text ≫= k) (a :: l) = Some y ->
  exists s, a = convertParam (TextValue s) /\ k s l = Some y.
Proof. destruct a; try done. by eexists. Qed.
Lemma int_inv (k : Z -> scanner A) a l y : (int ≫= k) (a :: l) = Some y ->
  exists n, a = convertParam (IntValue n) /\ k n l = Some y.
Proof. destruct a; try done. by eexists. Qed.
Lemma bool_inv (k : bool -> scanner A) a l y : (bool_ ≫= k) (a :: l) = Some y ->
  exists b, a = convertParam (BoolValue b) /\ k b l = Some y.
Proof. destruct a; try done. by eexists. Qed.
Lemma null_text_inv (k : option string -> scanner A) a l y : (null_text ≫= k) (a :: l) = Some y ->
  exists o, a = convertParam (NullableText o) /\ k o l = Some y.
Proof. destruct a; try done; intros H; [by exists (Some s)|by exists None]. Qed.
Lemma null_int_inv (k : option Z -> scanner A) a l y : (null_int ≫= k) (a :: l) = Some y ->
  exists o, a = convertParam (NullableInt o) /\ k o l = Some y.
Proof. destruct a; try done; intros H; [by exists (Some n)|by exists None]. Qed.
End Inversion.

(** A successful scan names the values of its columns. *)
Ltac scanned H :=
  repeat match type of H with
    | (text ≫= _) (_ :: _) = _ => apply text_inv in H as (? & ? & H)
    | (int ≫= _) (_ :: _) = _ => apply int_inv in H as (? & ? & H)
    | (bool_ ≫= _) (_ :: _) = _ => apply bool_inv in H as (? & ? & H)
    | (null_text ≫= _) (_ :: _) = _ => apply null_text_inv in H as (? & ? & H)
    | (null_int ≫= _) (_ :: _) = _ => apply null_int_inv in H as (? & ? & H)
    end.
(** The columns of a row that is updated, one by one. *)
Ltac columns := rewrite ?fmap_cons; cbn beta; repeat (rewrite lookup_insert_eq || rewrite lookup_insert_ne by done); cbn [default from_option id].
Ltac rescan := columns; repeat match goal with H : default ANil _ = _ |- _ => rewrite H; clear H end;
  change (ABool true) with (convertParam (BoolValue true)); autorewrite with scans.

Lemma code_marked r c : code_read r = Some c -> code_read (code_mark_used r) = Some (use_code c).
Proof.
  unfold code_read, code_columns, select, code_mark_used, scan_code. rewrite !Scan_Some. intros H.
  rewrite ?fmap_cons in H. scanned H. rescan. by injection H as <-.
Qed.
Lemma access_revoked r t i : access_read r = Some (t, i) -> access_read (revoke_row r) = Some (revoke_access t, i).
Proof.
  unfold access_read, select, revoke_row, scanAccessToken. rewrite !Scan_Some. intros H.
  rewrite ?fmap_cons in H. scanned H. rescan. by injection H as <- <-.
Qed.
Lemma refresh_revoked r t i : refresh_read r = Some (t, i) -> refresh_read (revoke_row r) = Some (revoke_refresh t, i).
Proof.
  unfold refresh_read, refreshTokenColumns, select, revoke_row, scanRefreshTokenRow. rewrite !Scan_Some. intros H.
  rewrite ?fmap_cons in H. scanned H. rescan. by injection H as <- <-.
Qed.

Lemma update_plain canonical t cols params r r' : plain t = true -> length cols = length params ->
  update_row canonical t cols params r = Some r' ->
  r' = foldr (fun p r => <[p.1 := p.2]> r) r (zip cols (convertParam <$> params)).
Proof.
  intros Hp Hl. unfold update_row. destruct (stored canonical t cols params) as [l|] eqn:Hs; [|done]. intros [= <-].
  rewrite <-(stored_plain _ _ _ Hp _ _ Hs Hl), <-(stored_names _ _ _ _ _ Hs Hl). f_equal.
  clear. induction l as [|[c a] l IH]; [done|]. cbn. by f_equal.
Qed.

Lemma session_updated canonical x r r' y : session_read r = Some y -> session_update canonical x r = Some r' ->
  session_read r' = Some (exchanged x y).
Proof.
  intros H Hu. apply update_plain in Hu as ->; [|by vm_compute|done]. cbn [zip zip_with fmap list_fmap foldr fst snd].
  unfold session_read, session_columns, select, scanSession in *. rewrite Scan_Some in *.
  rewrite ?fmap_cons in H. scanned H. rescan. by injection H as <-.
Qed.

(** ** Clients, with columns of JSON *)

Section Clients.
Context (canonical : string -> option string).
(** encoding/json on lists of texts. *)
Context (Marshal : list string -> string) (Unmarshal : string -> option (list string)).
Context (unmarshal_marshal : forall l, Forall (fun s => ValidString s = true) l -> Unmarshal (Marshal l) = Some l).

Definition client_columns : list string :=
  ["client_id"; "client_secret"; "client_name"; "redirect_uris"; "grant_types"; "response_types"; "scope";
   "token_endpoint_auth_method"; "client_type"; "created_at"; "updated_at"; "metadata"; "access_token_expiration";
   "refresh_token_expiration"; "require_redirect_exact"; "registration_access_token"; "jwks"].
Definition client_insert (c : Client) : option row :=
  insert_row canonical client_table
    ["client_id"; "client_secret"; "client_name"; "redirect_uris"; "grant_types"; "response_types"; "scope";
     "token_endpoint_auth_method"; "client_type"; "created_at"; "updated_at"; "metadata"; "access_token_expiration";
     "refresh_token_expiration"; "require_redirect_exact"; "registration_access_token"; "jwks"]
    [TextValue (cl_ClientID c); NullableText (cl_ClientSecret c); TextValue (cl_ClientName c);
     TextValue (Marshal (cl_RedirectURIs c)); TextValue (Marshal (cl_GrantTypes c)); TextValue (Marshal (cl_ResponseTypes c));
     NullableText (cl_Scope c); TextValue (cl_TokenEndpointAuthMethod c); TextValue (cl_ClientType c);
     IntValue (cl_CreatedAt c); IntValue (cl_UpdatedAt c); TextValue (cl_Metadata c); IntValue (cl_AccessTokenExpiration c);
     IntValue (cl_RefreshTokenExpiration c); BoolValue (cl_RequireRedirectExact c);
     NullableText (cl_RegistrationAccessToken c); NullableText (cl_JWKS c)].
(** An error of decoding is ignored and leaves an empty list. *)
Definition scanOAuthClient : scanner Client :=
  clientID ← text; secret ← null_text; name ← text; redirectURIs ← text; grantTypes ← text; responseTypes ← text;
  scope ← null_text; authMethod ← text; clientType ← text; createdAt ← int; updatedAt ← int; metadata ← text;
  accessExpiration ← int; refreshExpiration ← int; exact ← bool_; regToken ← null_text; jwks ← null_text;
  mret {| cl_ClientID := clientID; cl_ClientSecret := secret; cl_ClientName := name;
          cl_RedirectURIs := default [] (Unmarshal redirectURIs); cl_GrantTypes := default [] (Unmarshal grantTypes);
          cl_ResponseTypes := default [] (Unmarshal responseTypes); cl_Scope := scope;
          cl_TokenEndpointAuthMethod := authMethod; cl_ClientType := clientType; cl_CreatedAt := createdAt;
          cl_UpdatedAt := updatedAt; cl_Metadata := metadata; cl_AccessTokenExpiration := accessExpiration;
          cl_RefreshTokenExpiration := refreshExpiration; cl_RequireRedirectExact := exact;
          cl_RegistrationAccessToken := regToken; cl_JWKS := jwks |}.
Definition client_read (r : row) : option Client := Scan scanOAuthClient (select client_columns r).
Definition client_update (c : Client) (r : row) : option row :=
  update_row canonical client_table
    ["client_secret"; "client_name"; "redirect_uris"; "grant_types"; "response_types"; "scope"; "token_endpoint_auth_method";
     "updated_at"; "metadata"; "access_token_expiration"; "refresh_token_expiration"; "require_redirect_exact"; "jwks"]
    [NullableText (cl_ClientSecret c); TextValue (cl_ClientName c); TextValue (Marshal (cl_RedirectURIs c));
     TextValue (Marshal (cl_GrantTypes c)); TextValue (Marshal (cl_ResponseTypes c)); NullableText (cl_Scope c);
     TextValue (cl_TokenEndpointAuthMethod c); IntValue (cl_UpdatedAt c); TextValue (cl_Metadata c);
     IntValue (cl_AccessTokenExpiration c); IntValue (cl_RefreshTokenExpiration c); BoolValue (cl_RequireRedirectExact c);
     NullableText (cl_JWKS c)] r.

(** The text that a jsonb column gives back, and a record with it. *)
Definition canon (s : string) : string := default s (canonical s).
Definition canonical_client (c : Client) : Client :=
  {| cl_ClientID := cl_ClientID c; cl_ClientSecret := cl_ClientSecret c; cl_ClientName := cl_ClientName c;
     cl_RedirectURIs := cl_RedirectURIs c; cl_GrantTypes := cl_GrantTypes c; cl_ResponseTypes := cl_ResponseTypes c;
     cl_Scope := cl_Scope c; cl_TokenEndpointAuthMethod := cl_TokenEndpointAuthMethod c; cl_ClientType := cl_ClientType c;
     cl_CreatedAt := cl_CreatedAt c; cl_UpdatedAt := cl_UpdatedAt c; cl_Metadata := canon (cl_Metadata c);
     cl_AccessTokenExpiration := cl_AccessTokenExpiration c; cl_RefreshTokenExpiration := cl_RefreshTokenExpiration c;
     cl_RequireRedirectExact := cl_RequireRedirectExact c; cl_RegistrationAccessToken := cl_RegistrationAccessToken c;
     cl_JWKS := canon <$> cl_JWKS c |}.
Definition plain_lists (c : Client) : Prop :=
  Forall (fun l => Forall (fun s => ValidString s = true) l) [cl_RedirectURIs c; cl_GrantTypes c; cl_ResponseTypes c].

Definition is_jsonb (t : table) (name : string) : bool :=
  match (list_to_map t : gmap string column) !! name with Some c => match c_type c with TJsonb => true | _ => false end | None => false end.
Definition canonical_value (v : Value) : Value := match v with TextValue s => TextValue (canon s) | v => v end.
Definition written (t : table) (p : string * Value) : arg :=
  convertParam (if is_jsonb t p.1 then canonical_value p.2 else p.2).

Lemma store_value_jsonb c v b : c_type c = TJsonb -> store_value canonical c (convertParam v) = Some b ->
  (forall s, v <> TimestamptzValue s) -> b = convertParam (canonical_value v).
Proof.
  intros Hc Hs Hv. unfold store_value in Hs. rewrite Hc in Hs.
  destruct v; cbn in *; try done; [|by destruct (c_not_null c); simplify_eq|by destruct (Hv s)].
  unfold canon. destruct (canonical s); by simplify_eq/=.
Qed.

Lemma stored_written t cols : forall params l, stored canonical t cols params = Some l -> length cols = length params ->
  Forall (fun v => forall s, v <> TimestamptzValue s) params -> l.*2 = written t <$> zip cols params.
Proof.
  unfold stored. induction cols as [|c cols IH]; intros [|v params] l; cbn; try done; [by intros [= <-]|].
  destruct (_ !! c) as [ct|] eqn:Hc; [|done]. cbn. destruct (store_value canonical ct (convertParam v)) as [a|] eqn:Ha; [|done]. cbn.
  destruct (mapM _ _) as [l'|] eqn:Hm; [|done]. cbn. intros [= <-] [= Hl] [Hv Hp]%Forall_cons. cbn. rewrite (IH params l' Hm Hl Hp). f_equal.
  unfold written, is_jsonb. cbn [fst snd]. rewrite Hc.
  destruct (c_type ct) eqn:Ht; [apply (store_value_plain canonical ct); [by rewrite Ht|done]..|by apply (store_value_jsonb ct)].
Qed.

Lemma canonical_nullable o : canonical_value (NullableText o) = NullableText (canon <$> o).
Proof. by destruct o. Qed.
Lemma nullable_not_time o s : NullableText o <> TimestamptzValue s.
Proof. by destruct o. Qed.

(** The columns of JSON of the table of clients, found by computation. *)
Ltac json_columns := cbn [zip zip_with]; rewrite ?fmap_cons; unfold written; cbn [fst snd];
  repeat match goal with |- context [is_jsonb client_table ?c] =>
    let b := eval vm_compute in (is_jsonb client_table c) in change (is_jsonb client_table c) with b end;
  cbn [canonical_value]; rewrite ?canonical_nullable.
Ltac never_times := repeat constructor; intros ?; (done || apply nullable_not_time).
Ltac read_lists Hl := unfold plain_lists in Hl; rewrite !Forall_cons in Hl; destruct Hl as (? & ? & ? & _);
  rewrite !unmarshal_marshal by done; cbn [default from_option id].

Lemma client_back c r : plain_lists c -> client_insert c = Some r -> client_read r = Some (canonical_client c).
Proof.
  intros Hl Hi. unfold client_insert in Hi. apply insert_select in Hi as (l & Hs & Hsel);
    [|eapply bool_decide_eq_true_1; vm_compute; reflexivity|reflexivity].
  apply stored_written in Hs; [|reflexivity|never_times]. revert Hs. json_columns. intros Hs. rewrite Hs in Hsel.
  unfold client_read, client_columns. rewrite Hsel. unfold Scan, scanOAuthClient. autorewrite with scans. read_lists Hl. done.
Qed.

Lemma update_written t cols params r r' : length cols = length params ->
  Forall (fun v => forall s, v <> TimestamptzValue s) params -> update_row canonical t cols params r = Some r' ->
  r' = foldr (fun p r => <[p.1 := p.2]> r) r (zip cols (written t <$> zip cols params)).
Proof.
  intros Hl Hv. unfold update_row. destruct (stored canonical t cols params) as [l|] eqn:Hs; [|done]. intros [= <-].
  rewrite <-(stored_written _ _ _ _ Hs Hl Hv). rewrite <-(stored_names _ _ _ _ _ Hs Hl) at 1.
  clear. induction l as [|[c a] l IH]; [done|]. cbn. by f_equal.
Qed.

Lemma client_updated c r r' old : plain_lists c -> client_read r = Some old -> client_update c r = Some r' ->
  client_read r' = Some (updated_client (canonical_client c) old).
Proof.
  intros Hl H Hu. apply update_written in Hu; [|reflexivity|never_times]. revert Hu. json_columns.
  cbn [zip zip_with foldr fst snd]. intros ->. unfold client_read, client_columns, select, scanOAuthClient in *.
  rewrite Scan_Some in *. rewrite ?fmap_cons in H. scanned H. rescan. read_lists Hl. by injection H as <-.
Qed.
End Clients.

(** ** The tables of records are those of rows *)

(** C31: whenever a statement works, the row it leaves reads back as the record that the
    tables of [TokenEndpoint] and [Authorize] hold: as it was inserted (a refresh token
    with the time of its chain, JSON in the form the database gives it), marked as used
    or revoked, with the outcome of an exchange, or updated. *)
Theorem rows_hold_records (canonical : string -> option string)
    (Marshal : list string -> string) (Unmarshal : string -> option (list string)) :
  (forall l, Forall (fun s => ValidString s = true) l -> Unmarshal (Marshal l) = Some l) ->
  (forall t i r, access_insert canonical t i = Some r -> access_read r = Some (t, i)) /\
  (forall t i r, access_read r = Some (t, i) -> access_read (revoke_row r) = Some (revoke_access t, i)) /\
  (forall t i r, refresh_insert canonical t i = Some r -> refresh_read r = Some (stored_refresh t, i)) /\
  (forall t i r, refresh_read r = Some (t, i) -> refresh_read (revoke_row r) = Some (revoke_refresh t, i)) /\
  (forall c r, code_insert canonical c = Some r -> code_read r = Some c) /\
  (forall c r, code_read r = Some c -> code_read (code_mark_used r) = Some (use_code c)) /\
  (forall q r, auth_request_insert canonical q = Some r -> auth_request_read r = Some q) /\
  (forall q r, atp_request_insert canonical q = Some r -> atp_request_read r = Some q) /\
  (forall x r, session_insert canonical x = Some r -> session_read r = Some x) /\
  (forall x y r r', session_read r = Some y -> session_update canonical x r = Some r' ->
     session_read r' = Some (exchanged x y)) /\
  (forall c r, plain_lists c -> client_insert canonical Marshal c = Some r ->
     client_read Unmarshal r = Some (canonical_client canonical c)) /\
  (forall c old r r', plain_lists c -> client_read Unmarshal r = Some old -> client_update canonical Marshal c r = Some r' ->
     client_read Unmarshal r' = Some (updated_client (canonical_client canonical c) old)).
Proof.
  intros Hm. split_and!.
  - apply access_back.
  - intros t i r. apply access_revoked.
  - apply refresh_back.
  - intros t i r. apply refresh_revoked.
  - apply code_back.
  - intros c r. apply code_marked.
  - apply auth_request_back.
  - apply atp_request_back.
  - apply session_back.
  - intros x y r r'. by apply session_updated.
  - intros c r. by apply client_back.
  - intros c old r r'. by apply client_updated.
Qed.

Module Example_rows.

(** Lists of texts written in binary, and JSON that is kept as it is. *)
Definition marshal (l : list string) : string := Example_startup.bits (encode l).
Definition unmarshal (s : string) : option (list string) := decode (Example_startup.number s).
Lemma unmarshal_marshal l : unmarshal (marshal l) = Some l.
Proof. unfold unmarshal, marshal. rewrite Example_startup.number_bits. apply decode_encode. Defined.

Definition is_some_b {A} (o : option A) : bool := match o with Some _ => true | None => false end.
Definition sample : Client :=
  {| cl_ClientID := "client"; cl_ClientSecret := None; cl_ClientName := "App"; cl_RedirectURIs := ["https://app/cb"];
     cl_GrantTypes := ["authorization_code"]; cl_ResponseTypes := ["code"]; cl_Scope := Some "atproto";
     cl_TokenEndpointAuthMethod := "none"; cl_ClientType := "public"; cl_CreatedAt := 1; cl_UpdatedAt := 1; cl_Metadata := "{}";
     cl_AccessTokenExpiration := 3600; cl_RefreshTokenExpiration := 1209600; cl_RequireRedirectExact := true;
     cl_RegistrationAccessToken := None; cl_JWKS := Some "{}" |}.
Definition access : AccessToken :=
  {| at_Token := "token"; TokenType := "DPoP"; at_ClientID := "client"; at_UserID := Some "did:plc:a"; at_SessionID := None;
     at_Scope := Some "atproto"; at_CreatedAt := 1; at_ExpiresAt := 2; at_Revoked := false; at_DPoPJKT := Some "jkt" |}.
Lemma rows_hold_records_witness :
  is_some_b (access_insert Some access (Some 1)) && is_some_b (client_insert Some marshal sample) = true /\
  (forall r, access_insert Some access (Some 1) = Some r -> access_read r = Some (access, Some 1)).
Proof.
  split; [vm_compute; reflexivity|].
  exact (proj1 (rows_hold_records Some marshal unmarshal (fun l _ => unmarshal_marshal l)) access (Some 1)).
Defined.

(** The statement fails for a number that is too large for its column and for a text
    with a zero byte. *)
Definition long_lived : Client :=
  {| cl_ClientID := "client"; cl_ClientSecret := None; cl_ClientName := "App"; cl_RedirectURIs := []; cl_GrantTypes := [];
     cl_ResponseTypes := []; cl_Scope := None; cl_TokenEndpointAuthMethod := "none"; cl_ClientType := "public";
     cl_CreatedAt := 1; cl_UpdatedAt := 1; cl_Metadata := "{}"; cl_AccessTokenExpiration := 2147483648;
     cl_RefreshTokenExpiration := 0; cl_RequireRedirectExact := true; cl_RegistrationAccessToken := None; cl_JWKS := None |}.
Example too_large : client_insert Some marshal long_lived = None.
Proof. by vm_compute. Qed.
Example zero_byte : access_insert Some
  {| at_Token := "token"; TokenType := String (ascii_of_nat 0) ""; at_ClientID := ""; at_UserID := None; at_SessionID := None;
     at_Scope := None; at_CreatedAt := 0; at_ExpiresAt := 0; at_Revoked := false; at_DPoPJKT := None |} None = None.
Proof. by vm_compute. Qed.

End Example_rows.
